(* ===== verification/_CoqProject ===== *)
-Q . S2P
Prelude.v
Prog.v
Tasks.v
Judge.v
Wire.v
Pkt.v
Msgs.v
TcpCodec.v
ClientWire.v
Location.v
SessionStore.v
SessionCache.v
Store.v
StoreInv.v
StoreProps.v
StoreConc.v
StoreRead.v
PurgeSpec.v
StoreReceipts.v
Filter.v
Social.v
Groups.v
Users.v
UsersSpec.v
Interest.v
AgentStore.v
Effects.v
Router.v
Talk.v
TalkSpec.v
Offline.v
Login.v
GroupCmds.v
PeopleCmds.v
InboxCmds.v
BotCmds.v
Service.v
HandlerLogic.v
ServiceSpec.v
GroupSpec.v
Gateway.v
GatewaySpec.v
Container.v
ContainerSpec.v
System.v
RoyalMsgs.v
Hmac.v
RoyalPool.v
RoyalBreaker.v
RoyalServer.v
RoyalAuth.v
RoyalHttp.v
RoyalClient.v
RoyalNet.v
RoyalRefine.v
RoyalStore.v
RoyalAuthSpec.v
Pump.v
PumpSpec.v
Sync.v
SyncSpec.v
SyncDrain.v
ClientLogin.v
Link.v
LinkSpec.v
SocialCache.v
SocialCacheSpec.v
Presence.v
WriteLoop.v
Lanes.v
LanesSpec.v
Serve.v
Naming.v
Lookup.v
SdkDb.v
SdkWrites.v
SdkDbSpec.v
Outbox.v
OutboxSpec.v
