(* ===== verification/Prelude.v ===== *)
(** * A verification development for the kim messenger

    kim is an instant messenger: clients keep one long connection to a gateway, the
    gateways forward packets to the chat service, and the chat service stores
    messages, keeps the directories of accounts, groups and friendships, knows at
    which gateway each device of an account is signed in, and pushes what it
    stores to the devices of the recipients.  Clients that were away fetch what
    they missed.  Accounts sign in over HTTP at the royal service, which can also keep
    the stores and directories for the chat service.  This library models the
    protocol, the transport, the gateway, the chat and royal services, the client and
    the core of the client library, function by function, in Rocq, and proves what the parts promise each other.

    ** How the parts fit

    A byte stream is cut into frames ([TcpCodec]); a frame's payload is a packet
    ([Pkt]) whose command is one of a fixed vocabulary ([Wire]) and whose body is one
    of the messages of [Msgs].  A server runs one task per connection ([Serve]) with
    the lanes of its read half ([Lanes]) and the mailbox of its write half
    ([WriteLoop]).  The [Gateway] signs connections in and forwards what they send
    through the [Container], which finds instances of the chat service by [Naming].
    The [Router] of the chat service picks the handler of the command
    ([Service]) and gives it a context: the packet, the sender's session, and ways to
    answer and to push.  The handlers ([Talk], [Login], [Offline], [GroupCmds],
    [PeopleCmds], [InboxCmds], [BotCmds]) await calls ([Effects]) of the
    session store ([SessionStore], behind [SessionCache]), of the message store
    ([Store]) and of the directories ([Social], [Groups], [Users], [Interest],
    [AgentStore]), and tell others of a sign-in ([Presence]).  When stores and
    directories live at the royal service, each of these calls is a signed HTTP
    request ([RoyalClient] through [RoyalPool] and [Hmac]) that a handler of the royal
    service answers ([RoyalHttp], [RoyalServer]).  On the other side the client keeps
    its [Link] up, signs in ([ClientLogin]), matches replies to calls ([Pump]) and
    catches up ([Sync]).  The client library keeps its messages in an SQLite file
    ([SdkDb], [SdkWrites]) and runs the workers around it ([Outbox]).  [System] puts gateways, chat tasks and the session store
    together.

    ** Files

    Foundations.
    - [Prelude]: results and their bind, machine integers, bytes and strings as
      the source has them, stable sorting, generic lemmas, the tactics and hints
      used everywhere.
    - [Prog]: programs that await calls, as trees of calls and answers; all their
      executions with the calls made; postconditions of all executions with the
      rules for bind and for single calls.
    - [Tasks]: programs that run together over a shared state, with the
      rely-guarantee rule for invariants.
    - [Judge]: programs judged by the states their calls lead through, and the race of
      two programs in one task; runs of executable step functions.

    The wire.
    - [Wire] (kim-protocol wire.rs, command.rs, ids.rs, error.rs): commands and
      their strings, identifier types and their parsers.
    - [Pkt] (basic.rs, logic.rs, magic.rs, lib.rs, pkt.proto): control and logic
      packets, header metadata, the dispatch on the magic number.  The protobuf
      codec prost generates is the class [Message] with its round-trip law.
    - [Msgs] (pkt.proto): the bodies of the long connection and one codec for all.
    - [TcpCodec] (kim-core opcode.rs, frame.rs; kim-tcp codec.rs, conn.rs): frames
      and the buffered reader, fed by arbitrary chunks.
    - [ClientWire] (kim-client events.rs, error.rs, wire.rs): requests as frames and
      frames as events.

    Connections.
    - [WriteLoop] (kim-core write_loop.rs, channel.rs, error.rs): handles push frames
      into a mailbox, at each atomic action, and one task writes them.
    - [Lanes], [LanesSpec] (kim-core channel.rs): the read loop, its lanes, their tasks
      and the shared budget.
    - [Serve] (kim-core channel_map.rs, kim-tcp server.rs): the task of a connection,
      the table of channels, shutdown.
    - [Container], [ContainerSpec] (kim-container, kim-naming, and selector.rs and
      slots.rs of services/gateway): instances of services, selection, delivery.
    - [Naming] (kim-naming): the registry in memory and the consul adapter.
    - [Lookup] (services/router): to which gateways a client is sent.
    - [Gateway], [GatewaySpec] (services/gateway lib.rs, kim-protocol token.rs): accept,
      frames, heartbeats and disconnect.

    Sessions and stores.
    - [Location] (kim-router location.rs, storage.rs), [SessionStore]
      (kim-session memory.rs, dual.rs, keys.rs, lib.rs): the contract
      [SessionStorage] as a class, the memory store and the dual-write mirror as
      its instances.
    - [SessionCache] (kim-session cache.rs): every operation of the cache split at
      its await points, over any storage and any evicting cache, and the step
      relation of operations that overlap.
    - [Store] (services/chat store/mod.rs, idgen.rs): the message store of the
      chat service; [StoreInv] and [StoreProps] hold its invariant
      and what follows from it, [StoreConc] the interleavings of [insert] (whose
      phases are the critical sections of its lock), [StoreRead] the read paths,
      [StoreReceipts] delivery receipts, [PurgeSpec] the purging of a thread.
    - [Filter] (filter.rs): the content filters of talk.
    - [Social], [Groups], [Users] with [UsersSpec] (social.rs, directory.rs,
      users.rs): the memory directories.  [Interest] (interest.rs): who views which
      conversation.  [AgentStore] (agent_spec.rs): the specs of agents.
    - [SocialCache], [SocialCacheSpec] (social_cache.rs): the single-flight caches in
      front of the directories.

    The chat service.
    - [Effects]: the calls the handlers await, as a signature; the time limit, which
      cuts a program at a call, before it takes effect or after, save that a push which
      took effect has been polled to its end.
    - [Router] (kim-router context.rs, router.rs; notify.rs, echo.rs): answers,
      fan-out by gateway, routing.
    - [Talk], [Offline], [Login], [GroupCmds], [PeopleCmds], [InboxCmds], [BotCmds]
      (talk.rs, ack.rs, offline.rs, login.rs, group.rs, friends.rs,
      profile.rs, inbox.rs, bot.rs, typing.rs, room.rs, agent_spec.rs): the handlers.
      [Presence] (presence.rs): who is told of a sign-in or a sign-out.
    - [Service] (lib.rs): the routing table and the reception of a packet.
    - [HandlerLogic], [ServiceSpec], [TalkSpec], [GroupSpec]: what the handlers
      guarantee against every behaviour of what they call.
    - [System]: gateways, chat tasks and the session store as tasks over one world.

    The royal service.
    - [RoyalMsgs], [Hmac] (pkt.proto, internal_hmac.rs, hmac_nonce.rs): bodies and
      signatures of the internal requests.
    - [RoyalPool], [RoyalBreaker] (royal_pool.rs, royal.rs): instances, retries and the
      circuit breaker, over single accesses to shared atomics.
    - [RoyalServer], [RoyalAuth], [RoyalHttp] (services/royal): the handlers, accounts,
      and the router.
    - [RoyalClient] (royal.rs): the stores of chat that are calls to royal.
    - [RoyalNet], [RoyalRefine], [RoyalStore], [RoyalAuthSpec]: remote
      calls over a network that loses requests and answers, what they refine, and what
      accounts guarantee.

    The client (kim-client).
    - [Pump], [PumpSpec] (pump.rs, client.rs): calls, the reader, replies to calls.
    - [Sync], [SyncSpec], [SyncDrain] (sync.rs, persist.rs, supervisor.rs): catch-up,
      alone and against the handlers and the store.
    - [ClientLogin] (token.rs, login.rs, session.rs, config.rs, client.rs): connecting
      and signing in.
    - [Link], [LinkSpec] (link/, supervisor.rs): the loop that keeps the session up.

    The client library (kim-sdk), which applications use.
    - [SdkDb] (error.rs, command.rs, model.rs, ids.rs, store/schema.rs, outbox.rs,
      messages.rs, threads.rs, watermarks.rs): its vocabulary, the tables of its SQLite
      file and the statements on them.
    - [SdkWrites] (store/mod.rs, changes.rs): the transactions, the worker that executes
      them with its check of the epoch, and the log of changes.
    - [SdkDbSpec]: the unique index on message ids, and read marks.
    - [Outbox] (session.rs, outbox/pump.rs, read_sync.rs, lib.rs): start, stop and switch
      of a session, and the workers that send what waits and report what was read.
    - [OutboxSpec]: for whom a worker acts, and what a pass does.

    ** What the theorems show

    - Whole system: every session the chat service keeps belongs to an account whose
      token a gateway verified; a request comes back as exactly one answer; with
      delivery receipts on, a catch-up hands over the whole backlog and empties it.
    - Codecs: every value that is encoded decodes to itself, what is accepted is
      exactly what some value encodes to, and the reader yields the frames that
      were sent however the stream is cut.
    - Connections: the payloads of a key are handled one at a time and in order, within
      the budget, and a drain waits for them; accepted frames are written in order or
      accounted for; the table of channels names the connections that are served.
    - Gateway and container: who is taken in, what is stamped and forwarded, what a
      heartbeat enforces; the table of instances stays well formed under every
      interleaving; what is dispatched is delivered to the channels it names.
    - Session layer: what a history of sign-ins and sign-outs leaves behind; that
      cached reads answer what the inner store holds under every interleaving,
      and the one read that does not.
    - Message store: an invariant of every history; at most one message per
      client id, also when sends overlap; receipts are listed until they are
      acknowledged, purged or expired and settled exactly by their acknowledgement;
      history, inbox and read marks; what a purge leaves.
    - Directories: friendship needs both sides, bots apart, and relations of different
      pairs do not interfere; membership follows the last event; the quota of bots and
      how far overlapping calls exceed it; the limits of profiles; accounts, passwords and token epochs are kept; specs
      converge.  The caches answer every waiting call as long as no leader is
      dropped, and block a key for good when one is.
    - Handlers: they act for the session of the channel only; what is stored and pushed
      passed every check first; nothing is pushed before it is stored; every
      execution answers once, a malformed typing notice excepted; a sign-in succeeds
      completely or is taken back; presence is told to listed viewers only.
    - Royal: no signed request is admitted twice; remote calls are carried out at least
      once and at most three times; a keyed send makes one message; probes of an open
      breaker are spaced; a change of password ends the tokens before it.
    - Client: replies reach the calls that wait for them, but for four kinds; what the
      acknowledgement of a message rests on; the link follows its protocol, and a renewed token is not
      used by it.
    - Client library: a worker of the outbox acts for the session that spawned it and for
      no other; a pass sends what is due, once and in order, and records what the
      service answered; incoming messages are always stored; read marks only grow, and
      are reported until they are confirmed.

    ** Modelling conventions

    Strings are byte strings that hold UTF-8; [chars().count()] counts the bytes
    that are no continuation bytes.  Machine integers are [Z] with the wrapping,
    checked or saturating arithmetic of the source written out ([i64] send times
    and identifiers, [u16] and [u32] lengths, [u32] token epochs).  A [HashMap]
    used as a map is a [gmap]; where the source iterates one, the order is a
    parameter and the theorems hold for every order.  Metrics, logging and tracing
    do nothing.  A poisoned lock is used as if it were not, as the source does.

    Async code is a program over calls ([Prog]) when it matters what it awaits, and a
    list of acts of a step function ([Judge]) when it matters how many tasks share a
    state.  An answer of a call is arbitrary, unless the theorem says who gives it.
    What libraries do enters as parameters with their documented laws: protobuf, JSON,
    HMAC, JWT, password hashes and sealing, the moka cache, CRC and IP databases.

    A table of the client library is a finite map from its primary key to its other
    columns, and a statement is the function its SQL text says: an upsert is a
    [partial_alter], an update an [alter], a deletion a filter.  A transaction commits
    all its statements or none; that the database is busy, full or broken may be the
    answer to any of them.  A transaction reads the clock once.

    Fuel occurs in few places.  A call of [create_bot] ends within six locks
    ([UsersSpec.bot_phases_end]).  Trimming may run once per byte; [nat_to_dec] has 20
    digits and [base36_digits] 13, enough for every 64-bit number; the reader is
    structural on the chunks left to read, and [read_frames n] reads [n] frames;
    the phases of [insert] run alone end within the row count plus three
    ([StoreConc.insert_phases_alone] proves it), and the loop over the identifiers
    it burns is structural on the rows.  Endless loops (the link, watches, lanes, the
    write half) are either steps that any number of times may be taken, or programs
    with as many rounds as their fuel says, and their theorems hold for every number
    of rounds.  [SyncDrain] proves that the rounds of a catch-up suffice.

    ** Not modelled

    The postgres and redis adapters are clients of a database, whose behaviour is SQL
    text and key-value commands; the memory stores are their reference in the source
    and are modelled in full.  The websocket server's [handle_ws] is the text of
    [serve_conn]; its transport, TLS and socket options are libraries.  The
    cryptography behind tokens, passwords and signatures is in crates.  Mains,
    configuration files, metrics, logging and the administration endpoints start and
    observe the parts above.  The HTTP client of kim-client (auth.rs) and the delays of
    its heartbeat only end a session or return bodies.  Of the client
    library, what its user interface reads and sets (queries, subscriptions, contacts,
    settings, media files, agents) is not modelled.  The agent hosts and runtimes
    (processes and language models), their bridges, the desktop and mobile applications
    and generated code are outside the messenger's core and are not modelled. *)

From Stdlib Require Export ZArith Lia Ascii.
From Stdlib Require Strings.Byte Strings.String.
From stdpp Require Export base gmap sets list strings sorting option.
#[global] Open Scope Z_scope.

(** ** Notations and results *)

Declare Scope kim_scope.
Delimit Scope kim_scope with kim.
#[global] Open Scope kim_scope.

(** Rust's [Result<A, E>]. *)
Inductive result (A E : Type) : Type :=
| Ok (a : A)
| Err (e : E).
Arguments Ok {A E} a.
Arguments Err {A E} e.

(** The [?] operator: stop at the first error. *)
Definition try_bind {A B E} (r : result A E) (k : A -> result B E) : result B E :=
  match r with Ok a => k a | Err e => Err e end.

Notation "'let?' x := r 'in' k" := (try_bind r (fun x => k))
  (at level 10, x pattern, r at level 100, k at level 200) : kim_scope.

Definition is_ok {A E} (r : result A E) : bool :=
  match r with Ok _ => true | Err _ => false end.

#[export] Instance result_eq_dec {A E} `{EqDecision A, EqDecision E} : EqDecision (result A E).
Proof. solve_decision. Defined.

(** ** Machine integers *)

Definition u16_max : Z := 65535.
Definition u32_max : Z := 4294967295.
Definition u64_max : Z := 18446744073709551615.
Definition i32_max : Z := 2147483647.
Definition i32_min : Z := -2147483648.
Definition i64_max : Z := 9223372036854775807.
Definition i64_min : Z := -9223372036854775808.

(** Truncating casts [as u16], [as u32]. *)
Definition wrap16 (z : Z) : Z := z mod 2 ^ 16.
Definition wrap32 (z : Z) : Z := z mod 2 ^ 32.

(** [saturating_add] / [saturating_sub] at the width of the operands. *)
Definition sat_i64 (z : Z) : Z := Z.max i64_min (Z.min i64_max z).
Definition sat_i32 (z : Z) : Z := Z.max i32_min (Z.min i32_max z).
Definition sat_u64 (z : Z) : Z := Z.max 0 (Z.min u64_max z).

Definition in_i64 (z : Z) : Prop := i64_min <= z <= i64_max.
Definition in_i32 (z : Z) : Prop := i32_min <= z <= i32_max.

Lemma sat_i64_id z : in_i64 z -> sat_i64 z = z.
Proof. unfold in_i64, sat_i64. lia. Qed.

Lemma sat_i64_range z : in_i64 (sat_i64 z).
Proof. unfold in_i64, sat_i64, i64_min, i64_max. lia. Qed.

(** ** Tactics *)

Create HintDb kim discriminated.
Create Rewrite HintDb kim.

(** Decide every boolean comparison, [decide] and [match] of the goal, closing
    the contradictory branches. *)
Ltac case_all :=
  repeat (first [ case_decide | case_bool_decide | case_match ]; simplify_eq/=; try done).

(** [destruct_conj]: split conjunctions and existentials of the context. *)
Ltac destruct_conj :=
  repeat match goal with
  | H : _ /\ _ |- _ => destruct H
  | H : exists _, _ |- _ => destruct H
  end.

(** Turn boolean tests of the context and goal into propositions, then [lia]. *)
Ltac blia :=
  repeat match goal with
  | H : (_ && _)%bool = true |- _ => apply andb_true_iff in H; destruct H
  | H : (_ || _)%bool = false |- _ => apply orb_false_iff in H; destruct H
  | H : negb _ = true |- _ => apply negb_true_iff in H
  | H : negb _ = false |- _ => apply negb_false_iff in H
  | H : (_ <=? _) = true |- _ => apply Z.leb_le in H
  | H : (_ <=? _) = false |- _ => apply Z.leb_gt in H
  | H : (_ <? _) = true |- _ => apply Z.ltb_lt in H
  | H : (_ <? _) = false |- _ => apply Z.ltb_ge in H
  | H : (_ =? _) = true |- _ => apply Z.eqb_eq in H
  | H : (_ =? _) = false |- _ => apply Z.eqb_neq in H
  end; try lia.

(** ** Bytes *)

Abbreviation u8 := Corelib.Init.Byte.byte.
Abbreviation bytes := (list Corelib.Init.Byte.byte).

Definition u8_to_Z (b : u8) : Z := Z.of_N (Byte.to_N b).
Definition u8_of_Z (z : Z) : u8 :=
  match Byte.of_N (Z.to_N (z mod 256)) with Some b => b | None => Byte.x00 end.

#[export] Instance u8_eq_dec : EqDecision u8 := Byte.byte_eq_dec.

Lemma u8_to_Z_range b : 0 <= u8_to_Z b < 256.
Proof. unfold u8_to_Z. pose proof (Byte.to_N_bounded b). lia. Qed.

Lemma u8_to_of_Z z : u8_to_Z (u8_of_Z z) = z mod 256.
Proof.
  unfold u8_of_Z, u8_to_Z.
  pose proof (Z.mod_pos_bound z 256 ltac:(lia)).
  destruct (Byte.of_N _) as [b|] eqn:E.
  - apply Byte.to_of_N in E. rewrite E. lia.
  - apply Byte.of_N_None_iff in E. lia.
Qed.

Lemma u8_of_to_Z b : u8_of_Z (u8_to_Z b) = b.
Proof.
  unfold u8_of_Z. pose proof (u8_to_Z_range b).
  rewrite Z.mod_small by lia. unfold u8_to_Z. rewrite N2Z.id.
  by rewrite Byte.of_to_N.
Qed.

(** Little- and big-endian fixed-width integers ([to_le_bytes], [put_u16_le],
    [put_u32_le], [put_u32]). *)
Definition le16 (z : Z) : bytes := [u8_of_Z z; u8_of_Z (z / 256)].
Definition le32 (z : Z) : bytes :=
  [u8_of_Z z; u8_of_Z (z / 256); u8_of_Z (z / 65536); u8_of_Z (z / 16777216)].
Definition be32 (z : Z) : bytes :=
  [u8_of_Z (z / 16777216); u8_of_Z (z / 65536); u8_of_Z (z / 256); u8_of_Z z].

Definition from_le16 (a b : u8) : Z := u8_to_Z a + 256 * u8_to_Z b.
Definition from_le32 (a b c d : u8) : Z :=
  u8_to_Z a + 256 * u8_to_Z b + 65536 * u8_to_Z c + 16777216 * u8_to_Z d.
Definition from_be32 (a b c d : u8) : Z := from_le32 d c b a.

Lemma from_le16_le16 z : from_le16 (u8_of_Z z) (u8_of_Z (z / 256)) = wrap16 z.
Proof.
  unfold from_le16, wrap16. rewrite !u8_to_of_Z.
  change (2 ^ 16) with (256 * 256).
  rewrite Z.rem_mul_r by lia. lia.
Qed.

Lemma from_le32_le32 z :
  from_le32 (u8_of_Z z) (u8_of_Z (z / 256)) (u8_of_Z (z / 65536)) (u8_of_Z (z / 16777216))
  = wrap32 z.
Proof.
  unfold from_le32, wrap32. rewrite !u8_to_of_Z.
  change 65536 with (256 * 256). change 16777216 with (256 * 256 * 256).
  rewrite <- !Z.div_div by lia.
  change (2 ^ 32) with (256 * (256 * (256 * 256))).
  rewrite !Z.rem_mul_r by lia. lia.
Qed.

Lemma from_be32_be32 z :
  from_be32 (u8_of_Z (z / 16777216)) (u8_of_Z (z / 65536)) (u8_of_Z (z / 256)) (u8_of_Z z)
  = wrap32 z.
Proof. apply from_le32_le32. Qed.

Lemma from_le16_range a b : 0 <= from_le16 a b <= u16_max.
Proof.
  unfold from_le16, u16_max.
  pose proof (u8_to_Z_range a). pose proof (u8_to_Z_range b). lia.
Qed.

Lemma from_le32_range a b c d : 0 <= from_le32 a b c d <= u32_max.
Proof.
  unfold from_le32, u32_max.
  pose proof (u8_to_Z_range a). pose proof (u8_to_Z_range b).
  pose proof (u8_to_Z_range c). pose proof (u8_to_Z_range d). lia.
Qed.

Lemma wrap16_id z : 0 <= z <= u16_max -> wrap16 z = z.
Proof. unfold wrap16, u16_max. intros. apply Z.mod_small. lia. Qed.

Lemma wrap32_id z : 0 <= z <= u32_max -> wrap32 z = z.
Proof. unfold wrap32, u32_max. intros. apply Z.mod_small. lia. Qed.

(** Lengths as [Z], the way [usize] values are compared and cast. *)
Definition len {A} (l : list A) : Z := Z.of_nat (length l).

Lemma len_nonneg {A} (l : list A) : 0 <= len l.
Proof. unfold len. lia. Qed.

Lemma len_app {A} (l k : list A) : len (l ++ k) = len l + len k.
Proof. unfold len. rewrite length_app. lia. Qed.

Lemma len_cons {A} (x : A) l : len (x :: l) = 1 + len l.
Proof. unfold len. simpl. lia. Qed.

Lemma wrap16_range z : 0 <= wrap16 z <= u16_max.
Proof. unfold wrap16, u16_max. pose proof (Z.mod_pos_bound z (2 ^ 16)). lia. Qed.
Lemma wrap16_le z : 0 <= z -> wrap16 z <= z.
Proof. unfold wrap16. intros. apply Z.mod_le; lia. Qed.

Lemma take_len_app {A} (l k : list A) n : n = len l -> take (Z.to_nat n) (l ++ k) = l.
Proof. intros ->. unfold len. rewrite Nat2Z.id. apply take_app_length. Qed.
Lemma drop_len_app {A} (l k : list A) n : n = len l -> drop (Z.to_nat n) (l ++ k) = k.
Proof. intros ->. unfold len. rewrite Nat2Z.id. apply drop_app_length. Qed.
Lemma take_app_short {A} (l k : list A) n : n <= len l -> take (Z.to_nat n) (l ++ k) = take (Z.to_nat n) l.
Proof. unfold len. intros. apply take_app_le. lia. Qed.
Lemma ltb_false a b : b <= a -> (a <? b) = false.
Proof. apply Z.ltb_ge. Qed.
Lemma ltb_true a b : a < b -> (a <? b) = true.
Proof. apply Z.ltb_lt. Qed.
Lemma len_take {A} (l : list A) k : len (take k l) = Z.min (Z.of_nat k) (len l).
Proof. unfold len. rewrite length_take. lia. Qed.
Lemma len_nil_inv {A} (l : list A) : len l <= 0 -> l = [].
Proof. destruct l; [done|]. rewrite len_cons. pose proof (len_nonneg l). lia. Qed.

#[export] Hint Resolve len_nonneg : kim.
#[export] Hint Rewrite @len_app u8_to_of_Z from_le16_le16 from_le32_le32 from_be32_be32 : kim.

(** ** Strings

    A Rust [String] is its UTF-8 byte sequence; [string] is a sequence of 8-bit
    characters, so [len()] is [String.length] and byte-wise comparison is the
    order of [str]. *)

Definition bytes_of (s : string) : bytes := String.list_byte_of_string s.
Definition string_of_bytes (l : bytes) : string := String.string_of_list_byte l.

Lemma string_of_bytes_of s : string_of_bytes (bytes_of s) = s.
Proof. apply String.string_of_list_byte_of_string. Qed.

Lemma bytes_of_string_of l : bytes_of (string_of_bytes l) = l.
Proof. apply String.list_byte_of_string_of_list_byte. Qed.

Lemma bytes_of_inj s t : bytes_of s = bytes_of t -> s = t.
Proof. intros H. rewrite <- (string_of_bytes_of s), H. apply string_of_bytes_of. Qed.

(** [str::is_empty]. *)
Definition str_is_empty (s : string) : bool := bool_decide (s = ""%string).

(** [u8] character classes of the standard library. *)
Definition byte_between (lo hi : Z) (b : u8) : bool := (lo <=? u8_to_Z b) && (u8_to_Z b <=? hi).
Definition is_ascii_digit (b : u8) : bool := byte_between 48 57 b.

(** [uN::from_str] up to [max]: an optional plus sign, digits, no overflow. *)
Fixpoint uint_digits (max acc : Z) (l : bytes) : option Z :=
  match l with
  | [] => Some acc
  | b :: l =>
    if is_ascii_digit b then
      let acc := acc * 10 + (u8_to_Z b - 48) in if max <? acc then None else uint_digits max acc l
    else None
  end.
Definition uint_parse (max : Z) (s : string) : option Z :=
  match bytes_of s with
  | [] => None
  | b :: l =>
    match (if u8_to_Z b =? 43 then l else b :: l) with [] => None | digits => uint_digits max 0 digits end
  end.

Definition is_ascii_upper (b : u8) : bool := byte_between 65 90 b.
Definition is_ascii_lower (b : u8) : bool := byte_between 97 122 b.
Definition is_ascii_alphanumeric (b : u8) : bool :=
  is_ascii_digit b || is_ascii_upper b || is_ascii_lower b.
Definition is_ascii_control (b : u8) : bool := byte_between 0 31 b || (u8_to_Z b =? 127).
Definition to_ascii_lower (b : u8) : u8 :=
  if is_ascii_upper b then u8_of_Z (u8_to_Z b + 32) else b.

(** [str::to_ascii_lowercase]. *)
Definition str_to_ascii_lowercase (s : string) : string :=
  string_of_bytes (to_ascii_lower <$> bytes_of s).

(** UTF-8 well-formedness, [str::from_utf8] (the table of the Unicode standard,
    which is the one the standard library checks). *)
Definition is_cont (b : u8) : bool := byte_between 128 191 b.

Fixpoint utf8_valid (l : bytes) : bool :=
  match l with
  | [] => true
  | a :: l1 =>
    if byte_between 0 127 a then utf8_valid l1
    else match l1 with
    | [] => false
    | b :: l2 =>
      if byte_between 194 223 a then is_cont b && utf8_valid l2
      else match l2 with
      | [] => false
      | c :: l3 =>
        if byte_between 224 224 a then byte_between 160 191 b && is_cont c && utf8_valid l3
        else if byte_between 225 236 a || byte_between 238 239 a
        then is_cont b && is_cont c && utf8_valid l3
        else if byte_between 237 237 a then byte_between 128 159 b && is_cont c && utf8_valid l3
        else match l3 with
        | [] => false
        | d :: l4 =>
          if byte_between 240 240 a
          then byte_between 144 191 b && is_cont c && is_cont d && utf8_valid l4
          else if byte_between 241 243 a
          then is_cont b && is_cont c && is_cont d && utf8_valid l4
          else if byte_between 244 244 a
          then byte_between 128 143 b && is_cont c && is_cont d && utf8_valid l4
          else false
        end
      end
    end
  end.

(** Every [String] of the program satisfies this by its type. *)
Definition utf8 (s : string) : Prop := utf8_valid (bytes_of s) = true.

(** [str::trim]: the encodings of the [White_Space] code points. *)
Definition ws_prefix (l : bytes) : option bytes :=
  match l with
  | a :: l1 =>
    if byte_between 9 13 a || byte_between 32 32 a then Some l1
    else match l1 with
    | b :: l2 =>
      if byte_between 194 194 a && (byte_between 133 133 b || byte_between 160 160 b) then Some l2
      else match l2 with
      | c :: l3 =>
        if byte_between 225 225 a && byte_between 154 154 b && byte_between 128 128 c then Some l3
        else if byte_between 226 226 a && byte_between 128 128 b
                && (byte_between 128 138 c || byte_between 168 169 c || byte_between 175 175 c)
        then Some l3
        else if byte_between 226 226 a && byte_between 129 129 b && byte_between 159 159 c
        then Some l3
        else if byte_between 227 227 a && byte_between 128 128 b && byte_between 128 128 c
        then Some l3
        else None
      | [] => None
      end
    | [] => None
    end
  | [] => None
  end.

(** The same at the end of a text, on the reversed bytes. *)
Definition ws_suffix (l : bytes) : option bytes :=
  match l with
  | a :: l1 =>
    if byte_between 9 13 a || byte_between 32 32 a then Some l1
    else match l1 with
    | b :: l2 =>
      if byte_between 194 194 b && (byte_between 133 133 a || byte_between 160 160 a) then Some l2
      else match l2 with
      | c :: l3 =>
        match ws_prefix [c; b; a] with
        | Some [] => Some l3
        | _ => None
        end
      | [] => None
      end
    | [] => None
    end
  | [] => None
  end.

Fixpoint strip (f : bytes -> option bytes) (fuel : nat) (l : bytes) : bytes :=
  match fuel with
  | O => l
  | S n => match f l with Some l' => strip f n l' | None => l end
  end.

Definition trim_start (l : bytes) : bytes := strip ws_prefix (length l) l.
Definition trim_end (l : bytes) : bytes := rev (strip ws_suffix (length l) (rev l)).
Definition str_trim (s : string) : string := string_of_bytes (trim_end (trim_start (bytes_of s))).

(** [str::split_once] at one ASCII character. *)
Fixpoint split_once (c : ascii) (s : string) : option (string * string) :=
  match s with
  | String.EmptyString => None
  | String.String a s' =>
    if Ascii.eqb a c then Some (""%string, s')
    else match split_once c s' with
         | Some (x, y) => Some (String.String a x, y)
         | None => None
         end
  end.

(** [s] does not contain the character [c]. *)
Fixpoint no_char (c : ascii) (s : string) : bool :=
  match s with
  | String.EmptyString => true
  | String.String a s' => negb (Ascii.eqb a c) && no_char c s'
  end.

Lemma split_once_app c x y :
  no_char c x = true -> split_once c (x ++ String.String c y)%string = Some (x, y).
Proof.
  induction x as [|a x IH]; simpl.
  - by rewrite Ascii.eqb_refl.
  - intros [Ha Hx]%andb_true_iff. apply negb_true_iff in Ha. by rewrite Ha, IH.
Qed.

Lemma split_once_Some c s x y :
  split_once c s = Some (x, y) -> s = (x ++ String.String c y)%string /\ no_char c x = true.
Proof.
  revert x y; induction s as [|a s IH]; intros x y; simpl; [done|].
  destruct (Ascii.eqb a c) eqn:E.
  - intros [= <- <-]. apply Ascii.eqb_eq in E as ->. done.
  - destruct (split_once c s) as [[u v]|]; intros [= <- <-].
    destruct (IH u v eq_refl) as [-> Hu]. simpl. by rewrite E, Hu.
Qed.

Lemma strip_None f n l : f l = None -> strip f n l = l.
Proof. destruct n; simpl; [done|]. by intros ->. Qed.

(** ** Lists *)

(** First occurrences, in order: the [seen.insert(x)] loops. *)
Fixpoint unique_from {A} `{EqDecision A} (seen l : list A) : list A :=
  match l with
  | [] => []
  | x :: l' =>
    if decide (x ∈ seen) then unique_from seen l' else x :: unique_from (x :: seen) l'
  end.
Definition unique {A} `{EqDecision A} (l : list A) : list A := unique_from [] l.

Section unique.
Context {A : Type} `{EqDecision A}.
Implicit Types l seen : list A.

Lemma elem_of_unique_from seen l x : x ∈ unique_from seen l <-> x ∈ l /\ x ∉ seen.
Proof.
  revert seen; induction l as [|y l IH]; intros seen; simpl.
  - split; [|tauto]. by intros ?%not_elem_of_nil.
  - rewrite elem_of_cons. case_decide as Hy; [|rewrite elem_of_cons]; rewrite IH.
    + split; [tauto|]. intros [[->|?] ?]; tauto.
    + rewrite elem_of_cons. split; [intros [->|[? ?]]; tauto|].
      intros [[->|?] ?]; [tauto|]. destruct (decide (x = y)); tauto.
Qed.

Lemma elem_of_unique l x : x ∈ unique l <-> x ∈ l.
Proof. unfold unique. rewrite elem_of_unique_from. set_solver. Qed.

Lemma NoDup_unique_from seen l : NoDup (unique_from seen l).
Proof.
  revert seen; induction l as [|y l IH]; intros seen; simpl; [constructor|].
  case_decide; [done|]. constructor; [|done]. rewrite elem_of_unique_from. set_solver.
Qed.

Lemma NoDup_unique l : NoDup (unique l).
Proof. apply NoDup_unique_from. Qed.

Lemma unique_from_id seen l :
  NoDup l -> (forall x, x ∈ l -> x ∉ seen) -> unique_from seen l = l.
Proof.
  revert seen; induction l as [|y l IH]; intros seen Hnd Hs; simpl; [done|].
  apply list.NoDup_cons in Hnd as [Hy Hnd].
  rewrite decide_False by set_solver. f_equal. apply IH; [done|]. set_solver.
Qed.

Lemma unique_NoDup_id l : NoDup l -> unique l = l.
Proof. intros. apply unique_from_id; set_solver. Qed.

Lemma unique_idemp l : unique (unique l) = unique l.
Proof. apply unique_NoDup_id, NoDup_unique. Qed.

Lemma length_unique_from seen l : (length (unique_from seen l) <= length l)%nat.
Proof.
  revert seen; induction l as [|y l IH]; intros seen; simpl; [lia|].
  case_decide; simpl; [specialize (IH seen) | specialize (IH (y :: seen))]; lia.
Qed.
End unique.

(** The stable sorts [sort_by] / [sort_by_key]: [le] is the "not greater" test. *)
Fixpoint insert_by {A} (le : A -> A -> bool) (x : A) (l : list A) : list A :=
  match l with
  | [] => [x]
  | y :: l' => if le x y then x :: y :: l' else y :: insert_by le x l'
  end.
Fixpoint sort_by {A} (le : A -> A -> bool) (l : list A) : list A :=
  match l with
  | [] => []
  | x :: l' => insert_by le x (sort_by le l')
  end.

Section sort.
Context {A : Type} (le : A -> A -> bool).
Implicit Types l : list A.

Lemma insert_by_Permutation x l : insert_by le x l ≡ₚ x :: l.
Proof.
  induction l as [|y l IH]; simpl; [done|].
  destruct (le x y); [done|]. rewrite IH. apply Permutation_swap.
Qed.

Lemma sort_by_Permutation l : sort_by le l ≡ₚ l.
Proof.
  induction l as [|x l IH]; simpl; [done|]. rewrite insert_by_Permutation. by rewrite IH.
Qed.

Lemma elem_of_sort_by x l : x ∈ sort_by le l <-> x ∈ l.
Proof. by rewrite sort_by_Permutation. Qed.

Lemma length_sort_by l : length (sort_by le l) = length l.
Proof. by rewrite sort_by_Permutation. Qed.

Lemma NoDup_sort_by l : NoDup l -> NoDup (sort_by le l).
Proof. by rewrite sort_by_Permutation. Qed.

Definition le_total : Prop := forall x y, le x y = true \/ le y x = true.
Definition le_trans : Prop :=
  forall x y z, le x y = true -> le y z = true -> le x z = true.

Lemma StronglySorted_sort_by l :
  le_total -> le_trans -> StronglySorted (fun x y => le x y = true) (sort_by le l).
Proof.
  intros Htot Htr. induction l as [|x l IH]; simpl; [constructor|].
  induction IH as [|y k Hk IHk Hy]; simpl; [repeat constructor|].
  destruct (le x y) eqn:E.
  - constructor; [by constructor|]. constructor; [done|].
    apply list.Forall_forall. intros z Hz. rewrite list.Forall_forall in Hy. eauto.
  - constructor; [done|]. rewrite insert_by_Permutation. constructor; [|done].
    destruct (Htot x y); congruence.
Qed.

(** Stability: a class of mutually ordered elements keeps its order. *)
Lemma filter_insert_by (P : A -> bool) x l :
  (forall y, P x = true -> P y = true -> le x y = true) ->
  List.filter P (insert_by le x l) = List.filter P (x :: l).
Proof.
  intros H. induction l as [|y l IH]; simpl; [done|].
  destruct (le x y) eqn:E; simpl; [done|].
  rewrite IH. simpl.
  destruct (P x) eqn:Px, (P y) eqn:Py; try done.
  rewrite (H y eq_refl Py) in E. done.
Qed.

Lemma sort_by_stable (P : A -> bool) l :
  (forall x y, P x = true -> P y = true -> le x y = true) ->
  List.filter P (sort_by le l) = List.filter P l.
Proof.
  intros H. induction l as [|x l IH]; simpl; [done|].
  rewrite filter_insert_by by eauto. simpl. by rewrite IH.
Qed.
End sort.

Lemma StronglySorted_take {A} (R : A -> A -> Prop) n l :
  StronglySorted R l -> StronglySorted R (take n l).
Proof.
  intros H. revert n; induction H as [|x l H IH Hx]; intros [|n]; simpl; try constructor.
  - apply IH.
  - by apply Forall_take.
Qed.

(** What [truncate] drops is not smaller than what it keeps. *)
Lemma StronglySorted_take_drop {A} (R : A -> A -> Prop) n l x y :
  StronglySorted R l -> x ∈ take n l -> y ∈ drop n l -> R x y.
Proof.
  intros H. revert n; induction H as [|z l H IH Hz]; intros [|n]; simpl; try set_solver.
  intros [->|Hx]%elem_of_cons Hy; [|by eapply IH].
  rewrite list.Forall_forall in Hz. apply Hz. 
  rewrite <- (take_drop n l). apply elem_of_app. by right.
Qed.

(** Sum of a list, for counting arguments. *)
Lemma elem_of_list_filter_bool {A} (P : A -> bool) (l : list A) x :
  x ∈ List.filter P l <-> P x = true /\ x ∈ l.
Proof. rewrite !list_elem_of_In. rewrite filter_In. tauto. Qed.

Lemma filter_filter_id {A} (P : A -> bool) (l : list A) :
  List.filter P (List.filter P l) = List.filter P l.
Proof. induction l as [|x l IH]; simpl; [done|]. destruct (P x) eqn:E; simpl; by rewrite ?E, IH. Qed.

Lemma filter_all {A} (P : A -> bool) (l : list A) :
  (forall x, x ∈ l -> P x = true) -> List.filter P l = l.
Proof.
  induction l as [|x l IH]; simpl; intros H; [done|].
  rewrite H by left. f_equal. apply IH. intros. apply H. by right.
Qed.

Lemma filter_none {A} (P : A -> bool) (l : list A) :
  (forall x, x ∈ l -> P x = false) -> List.filter P l = [].
Proof.
  induction l as [|x l IH]; simpl; intros H; [done|].
  rewrite H by left. apply IH. intros. apply H. by right.
Qed.

(** ** Orders of iteration *)

#[export] Instance filter_bool_Permutation {A} (P : A -> bool) :
  Proper (Permutation ==> Permutation) (List.filter P).
Proof.
  intros l l' Hl. induction Hl; simpl; repeat case_match; try done.
  - by constructor.
  - constructor.
  - by etransitivity.
Qed.
#[export] Instance len_Permutation {A} : Proper (Permutation ==> eq) (@len A).
Proof. intros l l' Hl. unfold len. by rewrite Hl. Qed.

(** ** The order of Rust's [str]: bytes, lexicographically *)

Definition str_le (a b : string) : bool := String.leb a b.

Lemma str_compare_lt_trans a b c :
  String.compare a b = Lt -> String.compare b c = Lt -> String.compare a c = Lt.
Proof.
  revert b c; induction a as [|x a IH]; intros [|y b] [|z c]; simpl; try done.
  unfold Ascii.compare. destruct (N.compare_spec (Ascii.N_of_ascii x) (Ascii.N_of_ascii y)) as [E|E|E]; [|..|done].
  - rewrite E. destruct (N.compare _ _); eauto.
  - intros _. destruct (N.compare_spec (Ascii.N_of_ascii y) (Ascii.N_of_ascii z)) as [E'|E'|E']; [|..|done];
      intros _; destruct (N.compare_spec (Ascii.N_of_ascii x) (Ascii.N_of_ascii z)); try done; lia.
Qed.

Lemma str_le_total : le_total str_le.
Proof. exact String.leb_total. Qed.
Lemma str_le_antisym a b : str_le a b = true -> str_le b a = true -> a = b.
Proof. apply String.leb_antisym. Qed.
Lemma str_le_trans : le_trans str_le.
Proof.
  intros a b c. unfold str_le, String.leb.
  destruct (String.compare a b) eqn:E1; [| |done]; intros _.
  - by apply String.compare_eq_iff in E1 as ->.
  - destruct (String.compare b c) eqn:E2; [| |done]; intros _.
    + apply String.compare_eq_iff in E2 as ->. by rewrite E1.
    + by rewrite (str_compare_lt_trans _ _ _ E1 E2).
Qed.

(** A sorted list in a total antisymmetric order is determined by its elements. *)
Lemma sort_by_str_sorted l : StronglySorted (fun a b => str_le a b = true) (sort_by str_le l).
Proof. apply StronglySorted_sort_by; [exact str_le_total|exact str_le_trans]. Qed.

Lemma elem_of_take_in {A} n (l : list A) x : x ∈ take n l -> x ∈ l.
Proof. intros Hx. rewrite <- (take_drop n l), elem_of_app. by left. Qed.

(** ** Decimal integers *)

Definition digit_char (d : Z) : ascii := Ascii.ascii_of_nat (Z.to_nat (48 + d)).
Fixpoint digits_of (fuel : nat) (n : Z) (acc : string) : string :=
  match fuel with
  | O => acc
  | S f =>
    let acc' := String.String (digit_char (n mod 10)) acc in
    if n / 10 =? 0 then acc' else digits_of f (n / 10) acc'
  end.

(** 20 digits are enough for every 64-bit value. *)
Definition nat_to_dec (n : Z) : string := digits_of 20 n ""%string.

Lemma filter_comm {A} (P Q : A -> bool) l :
  List.filter P (List.filter Q l) = List.filter Q (List.filter P l).
Proof.
  induction l as [|x l IH]; simpl; [done|].
  destruct (Q x) eqn:EQ, (P x) eqn:EP; simpl; by rewrite ?EP, ?EQ, IH.
Qed.
