(* ===== verification/Prog.v ===== *)
(** Programs over calls, their executions and their interpreters.

    [Prog E A] is a program that makes calls of the signature [E] and returns an
    [A]: a tree that either returns or makes one call and goes on with the answer.
    [exec p trace a] says that [p] can make the calls of [trace], with these
    answers, and return [a]; a theorem over [exec] holds whatever answers the calls.
    [sat] and [satp] compute what all executions, or all of their prefixes, satisfy;
    [run] gives the calls to an interpreter. *)

From S2P Require Import Prelude.
Open Scope kim_scope.

Inductive Prog (E : Type -> Type) (A : Type) : Type :=
| Ret (a : A)
| Vis {X : Type} (e : E X) (k : X -> Prog E A).
Arguments Ret {E A} a.
Arguments Vis {E A X} e k.

Definition call {E : Type -> Type} {X} (e : E X) : Prog E X := Vis e Ret.

#[export] Instance Prog_ret {E} : MRet (Prog E) := fun A a => Ret a.
#[export] Instance Prog_bind {E} : MBind (Prog E) :=
  fun A B f => fix go p := match p with Ret a => f a | Vis e k => Vis e (fun x => go (k x)) end.

(** ** Executions *)

Inductive EventOf (E : Type -> Type) : Type :=
| Ev {X : Type} (e : E X) (x : X).
Arguments Ev {E X} e x.

Inductive exec {E A} : Prog E A -> list (EventOf E) -> A -> Prop :=
| exec_ret a : exec (Ret a) [] a
| exec_vis {X} (e : E X) k x tr a : exec (k x) tr a -> exec (Vis e k) (Ev e x :: tr) a.

(** Every execution of [p] has a trace and an answer in [P]. *)
Fixpoint sat {E A} (p : Prog E A) (P : list (EventOf E) -> A -> Prop) : Prop :=
  match p with
  | Ret a => P [] a
  | Vis e k => forall x, sat (k x) (fun tr a => P (Ev e x :: tr) a)
  end.

Section exec.
Context {E : Type -> Type} {A : Type}.
Implicit Types p : Prog E A.

Lemma sat_exec p (P : list (EventOf E) -> A -> Prop) tr a : sat p P -> exec p tr a -> P tr a.
Proof.
  intros Hs He. revert P Hs. induction He as [a|X e k x tr a He IH]; intros P Hs; [done|].
  exact (IH _ (Hs x)).
Qed.

(** The executions of a program by its first call. *)
Lemma exec_inv p tr a : exec p tr a ->
  match p with
  | Ret a' => tr = [] /\ a = a'
  | Vis e k => exists x tr', tr = Ev e x :: tr' /\ exec (k x) tr' a
  end.
Proof. destruct 1; eauto. Qed.

Lemma exec_sat p : sat p (exec p).
Proof.
  induction p as [a|X e k IH]; simpl; [constructor|]. intros x.
  assert (H : forall P, sat (k x) P -> forall Q : list (EventOf E) -> A -> Prop, (forall tr a, P tr a -> Q tr a) -> sat (k x) Q).
  { clear. generalize (k x). intros p. induction p as [a|Y e' k' IH]; simpl; [auto|].
    intros P HP Q HPQ y. eapply IH; [exact (HP y)|]. intros tr a ?. by apply HPQ. }
  eapply H; [exact (IH x)|]. intros. by constructor.
Qed.

Lemma sat_mono p (P Q : list (EventOf E) -> A -> Prop) :
  (forall tr a, P tr a -> Q tr a) -> sat p P -> sat p Q.
Proof.
  revert P Q. induction p as [a|X e k IH]; simpl; intros P Q HPQ; [apply HPQ|].
  intros Hs x. eapply IH; [|exact (Hs x)]. intros tr a. apply HPQ.
Qed.

Lemma sat_bind {B} p (f : A -> Prog E B) (P : list (EventOf E) -> B -> Prop) :
  sat p (fun tr a => sat (f a) (fun tr' b => P (tr ++ tr') b)) -> sat (p ≫= f) P.
Proof.
  revert P. induction p as [a|X e k IH]; simpl; intros P Hs; [exact Hs|].
  intros x. apply (IH x (fun tr b => P (Ev e x :: tr) b)). exact (Hs x).
Qed.

Lemma sat_call {X} (e : E X) (f : X -> Prog E A) (P : list (EventOf E) -> A -> Prop) :
  (forall x, sat (f x) (fun tr a => P (Ev e x :: tr) a)) -> sat (call e ≫= f) P.
Proof. done. Qed.

(** The facts known of the part before a bind. *)
Lemma sat_bind_use {B} p (f : A -> Prog E B) (P : list (EventOf E) -> B -> Prop) (S : list (EventOf E) -> A -> Prop) :
  sat p S -> (forall tr a, S tr a -> sat (f a) (fun tr' b => P (tr ++ tr') b)) -> sat (p ≫= f) P.
Proof. intros Hp Hf. apply sat_bind. eapply sat_mono; [|exact Hp]. exact Hf. Qed.

End exec.

Lemma exec_bind_inv {E A B} (p : Prog E A) (f : A -> Prog E B) tr b : exec (p ≫= f) tr b ->
  exists tr1 a tr2, tr = tr1 ++ tr2 /\ exec p tr1 a /\ exec (f a) tr2 b.
Proof.
  revert tr; induction p as [a|X e k IH]; intros tr He; [by exists [], a, tr; repeat constructor|].
  apply exec_inv in He as (x & tr' & -> & (tr1 & a & tr2 & -> & H1 & H2)%IH).
  exists (Ev e x :: tr1), a, tr2. by split_and!; [|constructor|].
Qed.

Lemma exec_call_inv {E X B} (e : E X) (f : X -> Prog E B) tr b : exec (call e ≫= f) tr b ->
  exists x tr', tr = Ev e x :: tr' /\ exec (f x) tr' b.
Proof. exact (exec_inv (call e ≫= f) tr b). Qed.

(** An interpreter runs a program in a state of its own. *)
Section interp.
Context {E : Type -> Type} {S : Type} (h : forall X, E X -> S -> S * X).

Fixpoint run {A} (p : Prog E A) (s : S) : S * list (EventOf E) * A :=
  match p with
  | Ret a => (s, [], a)
  | Vis e k =>
    let '(s1, x) := h _ e s in
    let '(s2, tr, a) := run (k x) s1 in
    (s2, Ev e x :: tr, a)
  end.

Lemma exec_run {A} (p : Prog E A) s : exec p (run p s).1.2 (run p s).2.
Proof.
  revert s. induction p as [a|X e k IH]; intros s; simpl; [constructor|].
  destruct (h X e s) as [s1 x]. specialize (IH x s1). destruct (run (k x) s1) as [[s2 tr] a].
  by constructor.
Qed.

Lemma run_bind {A B} (p : Prog E A) (f : A -> Prog E B) s :
  run (p ≫= f) s =
  let '(s1, tr1, a) := run p s in
  let '(s2, tr2, b) := run (f a) s1 in (s2, tr1 ++ tr2, b).
Proof.
  revert s. induction p as [a|X e k IH]; intros s.
  { simpl. by destruct (run (f a) s) as [[s2 tr2] b]. }
  change (Vis e k ≫= f) with (Vis e (fun x => k x ≫= f)). cbn [run]. destruct (h X e s) as [s1 x]. rewrite IH. destruct (run (k x) s1) as [[s2 tr2] a].
  by destruct (run (f a) s2) as [[s3 tr3] b].
Qed.
End interp.

(** Every trace [p] can have made so far is in [I]. *)
Fixpoint satp {E A} (p : Prog E A) (I : list (EventOf E) -> Prop) : Prop :=
  I [] /\
  match p with
  | Ret _ => True
  | Vis e k => forall x, satp (k x) (fun tr => I (Ev e x :: tr))
  end.

Section prefixes.
Context {E : Type -> Type} {A : Type}.
Implicit Types p : Prog E A.

Lemma satp_nil p I : satp p I -> I [].
Proof. by destruct p; intros [? _]. Qed.

Lemma satp_True p : satp p (fun _ => True).
Proof. induction p as [a|X e k IH]; by split. Qed.

Lemma satp_mono p (I J : list (EventOf E) -> Prop) : (forall tr, I tr -> J tr) -> satp p I -> satp p J.
Proof.
  revert I J. induction p as [a|X e k IH]; simpl; intros I J HIJ; [naive_solver|].
  intros [H0 Hs]. split; [by apply HIJ|]. intros x. eapply IH; [|exact (Hs x)]. intros tr. apply HIJ.
Qed.

Lemma satp_bind {B} p (f : A -> Prog E B) (I : list (EventOf E) -> Prop) :
  satp p I -> sat p (fun tr a => satp (f a) (fun tr' => I (tr ++ tr'))) -> satp (p ≫= f) I.
Proof.
  revert I. induction p as [a|X e k IH]; simpl; intros I Hp Hs; [exact Hs|].
  destruct Hp as [H0 Hp]. split; [done|]. intros x. apply (IH x (fun tr => I (Ev e x :: tr))); auto.
Qed.
End prefixes.

(** [p] can have made the calls of the trace so far. *)
Inductive reaches {E A} : Prog E A -> list (EventOf E) -> Prop :=
| reaches_start p : reaches p []
| reaches_call {X} (e : E X) k x tr : reaches (k x) tr -> reaches (Vis e k) (Ev e x :: tr).

Lemma exec_reaches {E A} (p : Prog E A) tr a : exec p tr a -> reaches p tr.
Proof. induction 1; by constructor. Qed.

(** A postcondition and an invariant of all prefixes at once, both over the whole
    trace from [pre] on: every point of [p] satisfies [I], every end [Q]. *)
Fixpoint hold {E A} (pre : list (EventOf E)) (p : Prog E A) (I : list (EventOf E) -> Prop)
  (Q : list (EventOf E) -> A -> Prop) : Prop :=
  I pre /\
  match p with
  | Ret a => Q pre a
  | Vis e k => forall x, hold (pre ++ [Ev e x]) (k x) I Q
  end.

Section hold.
Context {E : Type -> Type} {A : Type}.
Implicit Types (p : Prog E A) (pre tr : list (EventOf E)) (I : list (EventOf E) -> Prop).

Lemma hold_bind {B} pre p (f : A -> Prog E B) I (Q : list (EventOf E) -> B -> Prop) :
  hold pre p I (fun pre a => hold pre (f a) I Q) -> hold pre (p ≫= f) I Q.
Proof.
  revert pre. induction p as [a|X e k IH]; intros pre; [by intros [_ H]|].
  intros [H0 Hk]. split; [done|]. intros x. apply IH, Hk.
Qed.

Lemma hold_mono pre p I (Q Q' : list (EventOf E) -> A -> Prop) :
  (forall tr a, Q tr a -> Q' tr a) -> hold pre p I Q -> hold pre p I Q'.
Proof.
  intros HQ. revert pre. induction p as [a|X e k IH]; intros pre [H0 Hk]; split; auto.
Qed.

Lemma hold_call {X B} pre (e : E X) (f : X -> Prog E B) I (Q : list (EventOf E) -> B -> Prop) :
  I pre -> (forall x, hold (pre ++ [Ev e x]) (f x) I Q) -> hold pre (call e ≫= f) I Q.
Proof. by split. Qed.

Lemma hold_ret pre (a : A) I (Q : list (EventOf E) -> A -> Prop) : I pre -> Q pre a -> hold pre (Ret a) I Q.
Proof. by split. Qed.

Lemma hold_reaches pre p I (Q : list (EventOf E) -> A -> Prop) tr : hold pre p I Q -> reaches p tr -> I (pre ++ tr).
Proof.
  intros Hh Hr. revert pre Hh. induction Hr as [p|X e k x tr Hr IH]; intros pre Hh.
  - rewrite app_nil_r. by destruct p; destruct Hh.
  - destruct Hh as [_ Hk]. specialize (IH _ (Hk x)). by rewrite <- app_assoc in IH.
Qed.

Lemma hold_exec pre p I (Q : list (EventOf E) -> A -> Prop) tr a : hold pre p I Q -> exec p tr a -> Q (pre ++ tr) a.
Proof.
  intros Hh He. revert pre Hh. induction He as [a|X e k x tr a He IH]; intros pre Hh.
  - rewrite app_nil_r. apply Hh.
  - destruct Hh as [_ Hk]. specialize (IH _ (Hk x)). by rewrite <- app_assoc in IH.
Qed.
End hold.
