(* ===== verification/Tasks.v ===== *)
(** Tasks that run together over a shared state.

    A [task] is a program at some point of its run.  [pool_step] lets any task make
    its next call, which [act] answers and which may change the state, and lets new
    tasks start where [spawns] allows it.  [guar R G p] is what a task promises:
    its calls are in [G], as long as the answers it gets are in [R].  When the calls
    of [G] keep an invariant of the state, and answer in [R], every reachable state
    satisfies it ([pool_invariant]), however the tasks interleave. *)

From S2P Require Import Prelude Prog.
Open Scope kim_scope.

(** ** What a task promises *)

Section guarantee.
Context {E : Type -> Type} (R : forall X, E X -> X -> Prop) (G : forall X, E X -> Prop).

Fixpoint guar {A} (Q : A -> Prop) (p : Prog E A) : Prop :=
  match p with
  | Ret a => Q a
  | Vis e k => G _ e /\ forall x, R _ e x -> guar Q (k x)
  end.

Lemma guar_ret {A} (Q : A -> Prop) a : Q a -> guar Q (Ret a).
Proof. done. Qed.

Lemma guar_call {X} (Q : X -> Prop) (e : E X) : G _ e -> (forall x, R _ e x -> Q x) -> guar Q (call e).
Proof. by split. Qed.

Lemma guar_bind_use {A B} (S : A -> Prop) (Q : B -> Prop) (p : Prog E A) f :
  guar S p -> (forall a, S a -> guar Q (f a)) -> guar Q (p ≫= f).
Proof.
  intros Hp Hf. induction p as [a|X e k IH]; [by apply Hf|]. destruct Hp as [H0 Hk].
  split; [done|]. intros x Hx. by apply IH, Hk.
Qed.

Lemma guar_bind {A B} (Q : B -> Prop) (p : Prog E A) f :
  guar (fun a => guar Q (f a)) p -> guar Q (p ≫= f).
Proof. intros Hp. by eapply guar_bind_use. Qed.

Lemma guar_mono {A} (Q Q' : A -> Prop) (p : Prog E A) : (forall a, Q a -> Q' a) -> guar Q p -> guar Q' p.
Proof. intros HQ. induction p as [a|X e k IH]; [apply HQ|]. intros [H0 Hk]. split; auto. Qed.

(** A program all of whose calls are allowed, whatever it is answered. *)
Lemma guar_any {A} (p : Prog E A) : (forall X (e : E X), G _ e) -> guar (fun _ => True) p.
Proof. intros HG. induction p as [a|X e k IH]; [done|]. split; auto. Qed.
End guarantee.

(** ** Pools *)

Inductive task (E : Type -> Type) : Type :=
| Task {A : Type} (p : Prog E A).
Arguments Task {E A} p.

Section pool.
Context {E : Type -> Type} {S : Type}.
Context (act : forall X, E X -> S -> X -> S -> Prop) (spawns : S -> task E -> Prop).

Inductive pool_step : list (task E) * S -> list (task E) * S -> Prop :=
| pool_call {A X} (e : E X) (k : X -> Prog E A) before after s x s' :
    act X e s x s' ->
    pool_step (before ++ Task (Vis e k) :: after, s) (before ++ Task (k x) :: after, s')
| pool_spawn t tasks s : spawns s t -> pool_step (tasks, s) (tasks ++ [t], s).

(** Everything that can happen from [s] on, no task running yet. *)
Definition pool_reach (s : S) (c : list (task E) * S) : Prop := rtc pool_step ([], s) c.

Lemma pool_reach_inv s (P : list (task E) * S -> Prop) :
  P ([], s) -> (forall c c', P c -> pool_step c c' -> P c') -> forall c, pool_reach s c -> P c.
Proof.
  intros H0 Hstep c Hr. unfold pool_reach in Hr. remember ([], s) as c0 eqn:E0.
  assert (Hp : P c0) by (by subst). clear E0 H0.
  induction Hr as [c|c1 c2 c3 H12 H23 IH]; [done|]. apply IH. by eapply Hstep.
Qed.

Context (R : forall X, E X -> X -> Prop) (G : forall X, E X -> Prop) (Inv : S -> Prop).
Definition promises (t : task E) : Prop := match t with Task p => guar R G (fun _ => True) p end.

Context (Hact : forall X (e : E X) s x s', Inv s -> G X e -> act X e s x s' -> Inv s' /\ R X e x)
  (Hspawn : forall s t, Inv s -> spawns s t -> promises t).

Lemma pool_step_inv c c' : Inv c.2 /\ Forall promises c.1 -> pool_step c c' -> Inv c'.2 /\ Forall promises c'.1.
Proof.
  intros [Hi Hp] Hs. destruct Hs as [A X e k before after s x s' Ha|t tasks s Ht]; cbn [fst snd] in *.
  - apply list.Forall_app in Hp as [Hb Hp]. apply list.Forall_cons in Hp as [[Hg Hk] Hf].
    destruct (Hact _ _ _ _ _ Hi Hg Ha) as [Hi' Hr]. split; [done|].
    apply list.Forall_app. split; [done|]. apply list.Forall_cons. split; [by apply Hk|done].
  - split; [done|]. apply list.Forall_app. split; [done|]. apply list.Forall_cons.
    split; [by eapply Hspawn|by apply list.Forall_nil].
Qed.

Lemma pool_invariant s0 c : Inv s0 -> pool_reach s0 c -> Inv c.2 /\ Forall promises c.1.
Proof.
  intros H0 Hr. apply (pool_reach_inv s0 (fun c => Inv c.2 /\ Forall promises c.1)); [by split; [|apply list.Forall_nil]| |done].
  intros ? ?. apply pool_step_inv.
Qed.
End pool.


(** ** Programs over a part of the signature *)

Fixpoint lift {E F : Type -> Type} (inj : forall X, E X -> F X) {A} (p : Prog E A) : Prog F A :=
  match p with Ret a => Ret a | Vis e k => Vis (inj _ e) (fun x => lift inj (k x)) end.

Lemma guar_lift {E F : Type -> Type} (inj : forall X, E X -> F X) R G {A} (Q : A -> Prop) (p : Prog E A) :
  guar (fun X e => R X (inj X e)) (fun X e => G X (inj X e)) Q p -> guar R G Q (lift inj p).
Proof. induction p as [a|X e k IH]; [done|]. intros [H0 Hk]. split; [done|]. intros x Hx. by apply IH, Hk. Qed.

(** ** One task alone *)

(** A run of [p] from [s] ends in a state and with a result in [Q]. *)
Section alone.
Context {E : Type -> Type} {S : Type} (h : forall X, E X -> S -> S * X).

Fixpoint ends {A} (p : Prog E A) (Q : S -> A -> Prop) (s : S) : Prop :=
  match p with
  | Ret a => Q s a
  | Vis e k => let r := h _ e s in ends (k r.2) Q r.1
  end.

Lemma ends_run {A} (p : Prog E A) Q s : ends p Q s <-> Q (run h p s).1.1 (run h p s).2.
Proof.
  revert s. induction p as [a|X e k IH]; intros s; [done|]. cbn. destruct (h X e s) as [s1 x]. cbn. rewrite IH.
  by destruct (run h (k x) s1) as [[s2 tr] a].
Qed.

Lemma ends_bind {A B} (p : Prog E A) (f : A -> Prog E B) Q s :
  ends p (fun s a => ends (f a) Q s) s -> ends (p ≫= f) Q s.
Proof. revert s. induction p as [a|X e k IH]; intros s; [done|]. apply IH. Qed.

Lemma ends_call {X} (e : E X) (Q : S -> X -> Prop) s : Q (h _ e s).1 (h _ e s).2 -> ends (call e) Q s.
Proof. done. Qed.

Lemma ends_mono {A} (p : Prog E A) (Q Q' : S -> A -> Prop) s :
  (forall s a, Q s a -> Q' s a) -> ends p Q s -> ends p Q' s.
Proof. intros HQ. revert s. induction p as [a|X e k IH]; intros s; [apply HQ|]. apply IH. Qed.
End alone.

(** A task that runs through at once is one of the interleavings. *)
Section through.
Context {E : Type -> Type} {S : Type} (h : forall X, E X -> S -> S * X).
Context (act : forall X, E X -> S -> X -> S -> Prop) (spawns : S -> task E -> Prop).
Context (Hh : forall X (e : E X) s, act X e s (h X e s).2 (h X e s).1).

Lemma pool_run {A} (p : Prog E A) tasks s :
  rtc (pool_step act spawns) (tasks ++ [Task p], s) (tasks ++ [Task (Ret (run h p s).2)], (run h p s).1.1).
Proof.
  revert s. induction p as [a|X e k IH]; intros s; [apply rtc_refl|].
  eapply rtc_l; [by apply pool_call, Hh|]. cbn [run]. destruct (h X e s) as [s1 x]. cbn [fst snd]. specialize (IH x s1).
  by destruct (run h (k x) s1) as [[s2 tr] a].
Qed.

Lemma pool_run_spawn {A} (p : Prog E A) tasks s : spawns s (Task p) ->
  rtc (pool_step act spawns) (tasks, s) (tasks ++ [Task (Ret (run h p s).2)], (run h p s).1.1).
Proof. intros Hs. eapply rtc_l; [by apply pool_spawn|]. apply pool_run. Qed.
End through.

(** The first calls of a task, and what is left of it. *)
Section part.
Context {E : Type -> Type} {S : Type} (h : forall X, E X -> S -> S * X).
Context (act : forall X, E X -> S -> X -> S -> Prop) (spawns : S -> task E -> Prop).
Context (Hh : forall X (e : E X) s, act X e s (h X e s).2 (h X e s).1).

Fixpoint run_n {A} (n : nat) (p : Prog E A) (s : S) : Prog E A * S :=
  match n, p with
  | Datatypes.S n, Vis e k => let r := h _ e s in run_n n (k r.2) r.1
  | _, _ => (p, s)
  end.

Lemma pool_run_n {A} n (p : Prog E A) before after s :
  rtc (pool_step act spawns) (before ++ Task p :: after, s) (before ++ Task (run_n n p s).1 :: after, (run_n n p s).2).
Proof.
  revert p s. induction n as [|n IH]; intros p s; [apply rtc_refl|]. destruct p as [a|X e k]; [apply rtc_refl|].
  eapply rtc_l; [by apply pool_call, Hh|]. cbn [run_n]. destruct (h X e s) as [s1 x]. apply IH.
Qed.
End part.
