(* ===== verification/Judge.v ===== *)
(** Judging what runs lead to.

    [next s ev s'] says which state an event may lead to; it may refuse an answer (no
    state follows) and it may move on its own, as other tasks do.  [judge] computes
    what holds of all runs of a program from a state: every step is [good], and the end
    satisfies a postcondition.  [race] runs two programs in one task and drops the one
    that does not end first, as [tokio::select!] does.

    Runs of executable step functions: [step s a] is what the act [a] does in the
    state [s], with the events others see of it, or nothing when it does not apply.
    [run_acts] does a list of acts. *)

From S2P Require Import Prelude Prog.
Open Scope kim_scope.

(** The calls of a program as calls of a larger signature. *)
Fixpoint hoist {E F : Type -> Type} (f : forall X, E X -> F X) {A} (p : Prog E A) : Prog F A :=
  match p with
  | Ret a => Ret a
  | Vis e k => Vis (f _ e) (fun x => hoist f (k x))
  end.

(** [tokio::select!] on two programs: at every point one of them, chosen by [turn],
    makes its next call; the first that ends wins. *)
Section race.
Context {E : Type -> Type} (turn : E bool) {A B : Type}.

Fixpoint race (p : Prog E A) : Prog E B -> Prog E (A + B) :=
  fix with_q (q : Prog E B) : Prog E (A + B) :=
    match p with
    | Ret a => Ret (inl a)
    | Vis e k =>
      match q with
      | Ret b => Ret (inr b)
      | Vis e' k' =>
        Vis turn (fun b : bool =>
          if b then Vis e (fun x => race (k x) (Vis e' k'))
          else Vis e' (fun y => with_q (k' y)))
      end
    end.
End race.

(** The states a trace leads through. *)
Inductive steps {E : Type -> Type} {S : Type} (next : S -> EventOf E -> S -> Prop) : S -> list (EventOf E) -> S -> Prop :=
| steps_nil s : steps next s [] s
| steps_cons s ev s1 tr s2 : next s ev s1 -> steps next s1 tr s2 -> steps next s (ev :: tr) s2.

Section judge.
Context {E : Type -> Type} {S : Type}.
Context (next : S -> EventOf E -> S -> Prop) (good : S -> EventOf E -> S -> Prop).

(** Steps that are good. *)
Definition well (s : S) (ev : EventOf E) (s' : S) : Prop := next s ev s' /\ good s ev s'.

Fixpoint judge {A} (p : Prog E A) (Q : A -> S -> Prop) (s : S) : Prop :=
  match p with
  | Ret a => Q a s
  | Vis e k => forall x s', next s (Ev e x) s' -> good s (Ev e x) s' /\ judge (k x) Q s'
  end.

Lemma judge_mono {A} (p : Prog E A) (Q Q' : A -> S -> Prop) s :
  (forall a s, Q a s -> Q' a s) -> judge p Q s -> judge p Q' s.
Proof.
  intros HQ. revert s. induction p as [a|X e k IH]; intros s; [apply HQ|].
  intros Hp x s' Hn. destruct (Hp x s' Hn) as [Hg Hk]. split; [done|by apply IH].
Qed.

Lemma judge_bind {A B} (p : Prog E A) (f : A -> Prog E B) (Q : B -> S -> Prop) s :
  judge p (fun a s => judge (f a) Q s) s -> judge (p ≫= f) Q s.
Proof.
  revert s. induction p as [a|X e k IH]; intros s; [done|].
  intros Hp x s' Hn. destruct (Hp x s' Hn) as [Hg Hk]. split; [done|]. by apply IH.
Qed.

Lemma judge_bind_use {A B} (p : Prog E A) (f : A -> Prog E B) (P : A -> S -> Prop) (Q : B -> S -> Prop) s :
  judge p P s -> (forall a s, P a s -> judge (f a) Q s) -> judge (p ≫= f) Q s.
Proof. intros Hp Hf. apply judge_bind. by eapply judge_mono; [|exact Hp]. Qed.

Lemma judge_call {X B} (e : E X) (f : X -> Prog E B) (Q : B -> S -> Prop) s :
  (forall x s', next s (Ev e x) s' -> good s (Ev e x) s' /\ judge (f x) Q s') -> judge (call e ≫= f) Q s.
Proof. done. Qed.

Lemma judge_hoist_call {F : Type -> Type} (g : forall X, F X -> E X) {X B} (e : F X) (f : X -> Prog F B)
    (Q : B -> S -> Prop) s :
  (forall x s', next s (Ev (g X e) x) s' -> good s (Ev (g X e) x) s' /\ judge (hoist g (f x)) Q s') ->
  judge (hoist g (call e ≫= f)) Q s.
Proof. done. Qed.

Lemma judge_hoist_bind {F : Type -> Type} (g : forall X, F X -> E X) {A B} (p : Prog F A) (f : A -> Prog F B)
    (Q : B -> S -> Prop) s :
  judge (hoist g p) (fun a => judge (hoist g (f a)) Q) s -> judge (hoist g (p ≫= f)) Q s.
Proof.
  revert s. induction p as [a|X e k IH]; intros s; [done|].
  intros Hp x s' Hn. destruct (Hp x s' Hn) as [Hg Hk]. split; [done|]. by apply IH.
Qed.

Lemma judge_exec {A} (p : Prog E A) (Q : A -> S -> Prop) s tr a s' :
  judge p Q s -> exec p tr a -> steps next s tr s' -> Q a s' /\ steps well s tr s'.
Proof.
  intros Hj He. revert s Hj. induction He as [a|X e k x tr a He IH]; intros s Hj Hs; inversion Hs; subst.
  - split; [done|constructor].
  - destruct (Hj _ _ H2) as [Hg Hk]. destruct (IH _ Hk H4) as [HQ Hgs]. split; [done|by econstructor].
Qed.

Lemma judge_reaches {A} (p : Prog E A) (Q : A -> S -> Prop) s tr s' :
  judge p Q s -> reaches p tr -> steps next s tr s' -> steps well s tr s'.
Proof.
  intros Hj Hr. revert s Hj. induction Hr as [p|X e k x tr Hr IH]; intros s Hj Hs; inversion Hs; subst; [constructor|].
  destruct (Hj _ _ H2) as [Hg Hk]. econstructor; [done|by apply IH].
Qed.
End judge.

(** Every call of a program is one of [P]. *)
Fixpoint only {E : Type -> Type} (P : forall X, E X -> Prop) {A} (p : Prog E A) : Prop :=
  match p with
  | Ret _ => True
  | Vis e k => P _ e /\ forall x, only P (k x)
  end.

Section only.
Context {E : Type -> Type} (P : forall X, E X -> Prop).

Lemma only_bind {A B} (p : Prog E A) (f : A -> Prog E B) : only P p -> (forall a, only P (f a)) -> only P (p ≫= f).
Proof. intros Hp Hf. induction p as [a|X e k IH]; [apply Hf|]. destruct Hp as [He Hk]. by split; [|intros x; apply IH]. Qed.

Lemma only_call {X B} (e : E X) (f : X -> Prog E B) : P _ e -> (forall x, only P (f x)) -> only P (call e ≫= f).
Proof. by split. Qed.

Lemma only_race {A B} (turn : E bool) (p : Prog E A) (q : Prog E B) :
  P _ turn -> only P p -> only P q -> only P (race turn p q).
Proof.
  intros Ht. revert q. induction p as [a|X e k IH]; intros q Hp; [by destruct q|].
  induction q as [b|Y e' k' IHq]; intros Hq; [done|].
  split; [done|]. destruct Hp as [He Hk], Hq as [He' Hk']. intros [|]; (split; [done|]); intros x.
  - by apply IH; [|split].
  - by apply IHq.
Qed.

Lemma only_hoist {F : Type -> Type} (f : forall X, F X -> E X) {A} (p : Prog F A) :
  (forall X e, P X (f X e)) -> only P (hoist f p).
Proof. intros Hf. induction p as [a|X e k IH]; [done|]. by split. Qed.

Lemma only_hoisted {F : Type -> Type} (f : forall X, F X -> E X) {A} (p : Prog F A) :
  only (fun X e => P X (f X e)) p -> only P (hoist f p).
Proof. induction p as [a|X e k IH]; [done|]. intros [He Hk]. split; [done|]. intros x. by apply IH. Qed.

Lemma only_judge {S A} (next good : S -> EventOf E -> S -> Prop) (J : S -> Prop) (p : Prog E A) s :
  (forall s X (e : E X) x s', P X e -> J s -> next s (Ev e x) s' -> good s (Ev e x) s' /\ J s') ->
  only P p -> J s -> judge next good p (fun _ => J) s.
Proof.
  intros HP. revert s. induction p as [a|X e k IH]; intros s Hp HJ; [done|].
  destruct Hp as [He Hk]. intros x s' Hn. destruct (HP _ _ _ _ _ He HJ Hn) as [Hg HJ']. split; [done|by apply IH].
Qed.
End only.

Lemma only_mono {E : Type -> Type} (P P' : forall X, E X -> Prop) {A} (p : Prog E A) :
  (forall X e, P X e -> P' X e) -> only P p -> only P' p.
Proof. intros HP. induction p as [a|X e k IH]; [done|]. intros [He Hk]. split; [by apply HP|]. intros x. by apply IH. Qed.

Lemma steps_nil_inv {E : Type -> Type} {S : Type} (next : S -> EventOf E -> S -> Prop) s s' : steps next s [] s' -> s' = s.
Proof. by inversion 1. Qed.
Lemma steps_cons_inv {E : Type -> Type} {S : Type} (next : S -> EventOf E -> S -> Prop) s ev tr s' :
  steps next s (ev :: tr) s' -> exists s1, next s ev s1 /\ steps next s1 tr s'.
Proof. inversion 1; subst; eauto. Qed.

Lemma steps_split {E : Type -> Type} {S : Type} (next : S -> EventOf E -> S -> Prop) s l ev r s' :
  steps next s (l ++ ev :: r) s' -> exists s1 s2, steps next s l s1 /\ next s1 ev s2 /\ steps next s2 r s'.
Proof.
  revert s. induction l as [|ev0 l IH]; intros s Hs; apply steps_cons_inv in Hs as (s1 & Hn & Hs).
  - exists s, s1. by split; [constructor|].
  - destruct (IH _ Hs) as (t1 & t2 & H5 & H6 & H7). exists t1, t2. by split; [econstructor|].
Qed.

(** Judging against the calls made so far. *)
Definition history {E : Type -> Type} (pre : list (EventOf E)) (ev : EventOf E) (pre' : list (EventOf E)) : Prop :=
  pre' = pre ++ [ev].

Lemma steps_history {E : Type -> Type} (pre tr : list (EventOf E)) : steps history pre tr (pre ++ tr).
Proof.
  revert pre. induction tr as [|ev tr IH]; intros pre; [rewrite app_nil_r; constructor|].
  econstructor; [done|]. specialize (IH (pre ++ [ev])). by rewrite <- app_assoc in IH.
Qed.

Lemma history_states {E : Type -> Type} good (pre tr pre' : list (EventOf E)) :
  steps (well history good) pre tr pre' -> pre' = pre ++ tr.
Proof. induction 1 as [|s ev s1 tr s2 [-> _] _ IH]; [by rewrite app_nil_r|]. by rewrite IH, <- app_assoc. Qed.

(** Every call of a judged program finds what [good] asks of the calls before it. *)
Lemma history_judge {E : Type -> Type} {A} (good : list (EventOf E) -> EventOf E -> Prop) (p : Prog E A) Q l ev r :
  judge history (fun pre ev _ => good pre ev) p Q [] -> reaches p (l ++ ev :: r) -> good l ev.
Proof.
  intros Hj Hr. pose proof (judge_reaches _ _ _ _ _ _ _ Hj Hr (steps_history [] _)) as Hs.
  apply steps_split in Hs as (s1 & s2 & H1 & [_ H2] & _). by apply history_states in H1 as ->.
Qed.

Lemma reaches_prefix {E : Type -> Type} {A} (p : Prog E A) l r : reaches p (l ++ r) -> reaches p l.
Proof.
  revert p. induction l as [|ev l IH]; intros p Hr; [constructor|]. inversion Hr; subst. simplify_eq.
  constructor. by apply IH.
Qed.

Lemma steps_snoc {E : Type -> Type} {S : Type} (next : S -> EventOf E -> S -> Prop) s tr s1 ev s2 :
  steps next s tr s1 -> next s1 ev s2 -> steps next s (tr ++ [ev]) s2.
Proof. induction 1; intros Hn; simpl; (econstructor; [done|]); [constructor|by auto]. Qed.

(** What is good of the call after [l] holds in every state [l] leads to, if the steps
    are determined. *)
Lemma judge_at {E : Type -> Type} {S A} (next good : S -> EventOf E -> S -> Prop) (p : Prog E A) Q s l ev r s1 s2 :
  (forall s ev s1 s2, next s ev s1 -> next s ev s2 -> s1 = s2) ->
  judge next good p Q s -> reaches p (l ++ ev :: r) -> steps next s l s1 -> next s1 ev s2 -> good s1 ev s2.
Proof.
  intros Hd Hj Hr Hs Hn.
  assert (Hr' : reaches p (l ++ [ev])) by (apply (reaches_prefix _ _ r); by rewrite <- app_assoc).
  pose proof (judge_reaches _ _ _ _ _ _ _ Hj Hr' (steps_snoc _ _ _ _ _ _ Hs Hn)) as Hw. clear Hj Hr Hr'.
  revert s Hs Hw. induction l as [|ev0 l IH]; intros s Hs Hw.
  - apply steps_nil_inv in Hs as ->. apply steps_cons_inv in Hw as (s3 & [Hn' Hg] & _). by rewrite (Hd _ _ _ _ Hn Hn').
  - apply steps_cons_inv in Hs as (s3 & H3 & Hs). apply steps_cons_inv in Hw as (s4 & [H4 _] & Hw).
    rewrite (Hd _ _ _ _ H4 H3) in Hw. by eapply IH.
Qed.

Section runs.
Context {S A V : Type} (step : S -> A -> option (S * list V)).

Fixpoint run_acts (acts : list A) (s : S) : option (S * list V) :=
  match acts with
  | [] => Some (s, [])
  | a :: acts =>
    '(s1, evs1) ← step s a;
    '(s2, evs2) ← run_acts acts s1;
    Some (s2, evs1 ++ evs2)
  end.

Lemma run_acts_cons a acts s s1 e1 : step s a = Some (s1, e1) ->
  run_acts (a :: acts) s = '(s2, e2) ← run_acts acts s1; Some (s2, e1 ++ e2).
Proof. intros E. cbn. by rewrite E. Qed.

Lemma run_acts_app acts1 acts2 s s1 e1 s2 e2 :
  run_acts acts1 s = Some (s1, e1) -> run_acts acts2 s1 = Some (s2, e2) ->
  run_acts (acts1 ++ acts2) s = Some (s2, e1 ++ e2).
Proof.
  revert s s1 e1. induction acts1 as [|a acts1 IH]; intros s s1 e1; cbn.
  { by intros [= <- <-] ->. }
  destruct (step s a) as [[sa ea]|]; [|done]. cbn. destruct (run_acts acts1 sa) as [[sb eb]|] eqn:E; [|done].
  cbn. intros [= <- <-] H2. rewrite (IH _ _ _ E H2). cbn. by rewrite app_assoc.
Qed.

(** What holds at the start, of no event, and is kept by every act, holds at the end,
    of all events. *)
Lemma run_acts_inv (P : S -> list V -> Prop) :
  (forall s evs a s' e, P s evs -> step s a = Some (s', e) -> P s' (evs ++ e)) ->
  forall acts s evs s' e, P s evs -> run_acts acts s = Some (s', e) -> P s' (evs ++ e).
Proof.
  intros Hstep acts. induction acts as [|a acts IH]; intros s evs s' e HP; cbn.
  { intros [= <- <-]. by rewrite app_nil_r. }
  destruct (step s a) as [[s1 e1]|] eqn:E1; [|done]. cbn.
  destruct (run_acts acts s1) as [[s2 e2]|] eqn:E2; [|done]. cbn. intros [= <- <-].
  rewrite app_assoc. eapply IH; [|done]. by eapply Hstep.
Qed.

Lemma run_acts_keeps (I : S -> Prop) :
  (forall s a s' e, I s -> step s a = Some (s', e) -> I s') ->
  forall acts s s' e, I s -> run_acts acts s = Some (s', e) -> I s'.
Proof.
  intros Hstep acts s s' e HI Hr.
  eapply (run_acts_inv (fun s _ => I s)) with (evs := []); [|done|done].
  intros ? ? ? ? ?. apply Hstep.
Qed.
End runs.
