(* ===== verification/Wire.v ===== *)
(** The wire vocabulary of [crates/kim-protocol/src]: service names and
    [service_name] (wire.rs), the [Command] enum with its parser (command.rs),
    the opaque identities with their validation (ids.rs), and the protocol error
    type (error.rs).  [wire_constants_ok] and the [Command] round trip say that
    the dispatch vocabulary is a bijection; the identity lemmas say what the
    parsers accept. *)

From S2P Require Import Prelude.
Open Scope Z_scope.
Open Scope kim_scope.

(** ** error.rs *)

Inductive ProtocolError : Type :=
| BadMagic
| Incomplete
| BasicTooLarge (n : Z)
| NotLogic
| Prost
| TokenExpired
| TokenSignature
| InvalidToken
| InvalidAccount
| InvalidChannelId
| InvalidGatewayId
| InvalidDest
| InvalidHmacSecret.

#[export] Instance ProtocolError_eq_dec : EqDecision ProtocolError.
Proof. solve_decision. Defined.

(** ** wire.rs *)

Definition META_DEST_SERVER : string := "dest.server"%string.
Definition META_DEST_CHANNELS : string := "dest.channels"%string.
Definition META_APP : string := "app"%string.
Definition META_ACCOUNT : string := "account"%string.
Definition SN_WGATEWAY : string := "wgateway"%string.
Definition SN_TGATEWAY : string := "tgateway"%string.
Definition SN_CHAT : string := "chat"%string.
Definition SN_ROYAL : string := "royal"%string.
Definition ALLOWED_APP : string := "kim"%string.
Definition SN_LOGIN : string := "chat"%string.
Definition CMD_LOGIN_SIGN_IN : string := "login.signin"%string.
Definition CMD_LOGIN_SIGN_OUT : string := "login.signout"%string.
Definition CMD_LOGIN_RENEW : string := "login.renew"%string.
Definition CMD_DEMO_ECHO : string := "chat.demo.echo"%string.
Definition CMD_CHAT_USER_TALK : string := "chat.user.talk"%string.
Definition CMD_CHAT_GROUP_TALK : string := "chat.group.talk"%string.
Definition CMD_GROUP_CREATE : string := "chat.group.create"%string.
Definition CMD_GROUP_JOIN : string := "chat.group.join"%string.
Definition CMD_GROUP_QUIT : string := "chat.group.quit"%string.
Definition CMD_GROUP_INVITE : string := "chat.group.invite"%string.
Definition CMD_GROUP_DETAIL : string := "chat.group.detail"%string.
Definition CMD_GROUP_MEMBERS : string := "chat.group.members"%string.
Definition CMD_CHAT_TALK_ACK : string := "chat.talk.ack"%string.
Definition CMD_OFFLINE_INDEX : string := "chat.offline.index"%string.
Definition CMD_OFFLINE_CONTENT : string := "chat.offline.content"%string.
Definition CMD_USER_PROFILE : string := "chat.user.profile"%string.
Definition CMD_USER_UPDATE : string := "chat.user.update"%string.
Definition CMD_USER_UPDATED : string := "chat.user.updated"%string.
Definition CMD_USER_SEARCH : string := "chat.user.search"%string.
Definition CMD_FRIEND_REQUEST : string := "chat.friend.request"%string.
Definition CMD_FRIEND_ACCEPT : string := "chat.friend.accept"%string.
Definition CMD_FRIEND_REJECT : string := "chat.friend.reject"%string.
Definition CMD_FRIEND_REMOVE : string := "chat.friend.remove"%string.
Definition CMD_FRIEND_LIST : string := "chat.friend.list"%string.
Definition CMD_FRIEND_INCOMING : string := "chat.friend.incoming"%string.
Definition CMD_BLOCK_ADD : string := "chat.block.add"%string.
Definition CMD_BLOCK_REMOVE : string := "chat.block.remove"%string.
Definition CMD_BLOCK_LIST : string := "chat.block.list"%string.
Definition CMD_INBOX_LIST : string := "chat.inbox.list"%string.
Definition CMD_INBOX_READ : string := "chat.inbox.read"%string.
Definition CMD_INBOX_STATES : string := "chat.inbox.states"%string.
Definition CMD_INBOX_READ_SYNC : string := "chat.inbox.read.sync"%string.
Definition CMD_HISTORY : string := "chat.history"%string.
Definition CMD_ROOM_ENTER : string := "chat.room.enter"%string.
Definition CMD_ROOM_LEAVE : string := "chat.room.leave"%string.
Definition CMD_PRESENCE : string := "chat.presence"%string.
Definition CMD_TYPING : string := "chat.typing"%string.
Definition CMD_RECEIPT_READ : string := "chat.receipt.read"%string.
Definition CMD_BOT_CREATE : string := "chat.bot.create"%string.
Definition CMD_BOT_DELETE : string := "chat.bot.delete"%string.
Definition CMD_BOT_UPDATE : string := "chat.bot.update"%string.
Definition CMD_BOT_REPLY : string := "chat.bot.reply"%string.
Definition CMD_BOT_PENDING : string := "chat.bot.pending"%string.
Definition CMD_BOT_TYPING : string := "chat.bot.typing"%string.
Definition CMD_AGENT_SPEC_SYNC : string := "chat.agent.spec.sync"%string.
Definition CMD_AGENT_SPEC_UPSERT : string := "chat.agent.spec.upsert"%string.

Definition TYPING_PHASE_COMPOSING : Z := 0.
Definition TYPING_PHASE_QUEUED : Z := 1.
Definition TYPING_PHASE_RUNNING : Z := 2.
Definition TYPING_PHASE_TOOL : Z := 3.
Definition TYPING_PHASE_WAIT_PERMISSION : Z := 4.

Definition INBOX_KIND_USER : Z := 0.
Definition INBOX_KIND_GROUP : Z := 1.
Definition PROFILE_KIND_USER : Z := 1.
Definition PROFILE_KIND_BOT : Z := 2.

Definition profile_kind (kind : Z) : Z :=
  if kind =? PROFILE_KIND_BOT then PROFILE_KIND_BOT else PROFILE_KIND_USER.

Definition MESSAGE_TYPE_TEXT : Z := 1.
Definition MESSAGE_TYPE_IMAGE : Z := 2.
Definition MESSAGE_TYPE_VOICE : Z := 3.
Definition MESSAGE_TYPE_VIDEO : Z := 4.

Definition service_name (command : string) : string :=
  match split_once "."%char command with
  | Some (s, _) => s
  | None => "default"%string
  end.

(** ** command.rs *)

Inductive Command : Type :=
| LoginSignIn
| LoginSignOut
| LoginRenew
| DemoEcho
| UserTalk
| GroupTalk
| GroupCreate
| GroupJoin
| GroupQuit
| GroupInvite
| GroupDetail
| GroupMembers
| TalkAck
| OfflineIndex
| OfflineContent
| UserProfile
| UserUpdate
| UserUpdated
| UserSearch
| FriendRequest
| FriendAccept
| FriendReject
| FriendRemove
| FriendList
| FriendIncoming
| BlockAdd
| BlockRemove
| BlockList
| InboxList
| InboxRead
| InboxStates
| InboxReadSync
| History
| RoomEnter
| RoomLeave
| Presence
| Typing
| ReceiptRead
| BotCreate
| BotDelete
| BotUpdate
| BotReply
| BotPending
| BotTyping
| AgentSpecSync
| AgentSpecUpsert.

#[export] Instance Command_eq_dec : EqDecision Command.
Proof. solve_decision. Defined.

Definition Command_ALL : list Command :=
  [LoginSignIn; LoginSignOut; LoginRenew; DemoEcho; UserTalk; GroupTalk;
   GroupCreate; GroupJoin; GroupQuit; GroupInvite; GroupDetail; GroupMembers;
   TalkAck; OfflineIndex; OfflineContent; UserProfile; UserUpdate; UserUpdated;
   UserSearch; FriendRequest; FriendAccept; FriendReject; FriendRemove; FriendList;
   FriendIncoming; BlockAdd; BlockRemove; BlockList; InboxList; InboxRead;
   InboxStates; InboxReadSync; History; RoomEnter; RoomLeave; Presence;
   Typing; ReceiptRead; BotCreate; BotDelete; BotUpdate; BotReply;
   BotPending; BotTyping; AgentSpecSync; AgentSpecUpsert].

Definition as_str (c : Command) : string :=
  match c with
  | LoginSignIn => CMD_LOGIN_SIGN_IN
  | LoginSignOut => CMD_LOGIN_SIGN_OUT
  | LoginRenew => CMD_LOGIN_RENEW
  | DemoEcho => CMD_DEMO_ECHO
  | UserTalk => CMD_CHAT_USER_TALK
  | GroupTalk => CMD_CHAT_GROUP_TALK
  | GroupCreate => CMD_GROUP_CREATE
  | GroupJoin => CMD_GROUP_JOIN
  | GroupQuit => CMD_GROUP_QUIT
  | GroupInvite => CMD_GROUP_INVITE
  | GroupDetail => CMD_GROUP_DETAIL
  | GroupMembers => CMD_GROUP_MEMBERS
  | TalkAck => CMD_CHAT_TALK_ACK
  | OfflineIndex => CMD_OFFLINE_INDEX
  | OfflineContent => CMD_OFFLINE_CONTENT
  | UserProfile => CMD_USER_PROFILE
  | UserUpdate => CMD_USER_UPDATE
  | UserUpdated => CMD_USER_UPDATED
  | UserSearch => CMD_USER_SEARCH
  | FriendRequest => CMD_FRIEND_REQUEST
  | FriendAccept => CMD_FRIEND_ACCEPT
  | FriendReject => CMD_FRIEND_REJECT
  | FriendRemove => CMD_FRIEND_REMOVE
  | FriendList => CMD_FRIEND_LIST
  | FriendIncoming => CMD_FRIEND_INCOMING
  | BlockAdd => CMD_BLOCK_ADD
  | BlockRemove => CMD_BLOCK_REMOVE
  | BlockList => CMD_BLOCK_LIST
  | InboxList => CMD_INBOX_LIST
  | InboxRead => CMD_INBOX_READ
  | InboxStates => CMD_INBOX_STATES
  | InboxReadSync => CMD_INBOX_READ_SYNC
  | History => CMD_HISTORY
  | RoomEnter => CMD_ROOM_ENTER
  | RoomLeave => CMD_ROOM_LEAVE
  | Presence => CMD_PRESENCE
  | Typing => CMD_TYPING
  | ReceiptRead => CMD_RECEIPT_READ
  | BotCreate => CMD_BOT_CREATE
  | BotDelete => CMD_BOT_DELETE
  | BotUpdate => CMD_BOT_UPDATE
  | BotReply => CMD_BOT_REPLY
  | BotPending => CMD_BOT_PENDING
  | BotTyping => CMD_BOT_TYPING
  | AgentSpecSync => CMD_AGENT_SPEC_SYNC
  | AgentSpecUpsert => CMD_AGENT_SPEC_UPSERT
  end.

(** The arms of [match s] are tried in the order of the table. *)
Fixpoint parse_from (table : list Command) (s : string) : option Command :=
  match table with
  | [] => None
  | c :: table' => if String.eqb s (as_str c) then Some c else parse_from table' s
  end.
Definition parse (s : string) : option Command := parse_from Command_ALL s.

(** ** ids.rs *)

Definition ACCOUNT_MIN : Z := 3.
Definition ACCOUNT_MAX : Z := 32.

Record AccountId := mkAccountId { account_str : string }.
Record ChannelId := mkChannelId { channel_str : string }.
Record DestId := mkDestId { dest_str : string }.
Record GatewayId := mkGatewayId { gateway_str : string }.

#[export] Instance AccountId_eq_dec : EqDecision AccountId.
Proof. solve_decision. Defined.
#[export] Instance ChannelId_eq_dec : EqDecision ChannelId.
Proof. solve_decision. Defined.
#[export] Instance DestId_eq_dec : EqDecision DestId.
Proof. solve_decision. Defined.
#[export] Instance GatewayId_eq_dec : EqDecision GatewayId.
Proof. solve_decision. Defined.

#[export] Instance GatewayId_countable : Countable GatewayId.
Proof. by refine (inj_countable' gateway_str mkGatewayId _); intros []. Defined.
#[export] Instance ChannelId_countable : Countable ChannelId.
Proof. by refine (inj_countable' channel_str mkChannelId _); intros []. Defined.

Definition account_char (b : u8) : bool := is_ascii_alphanumeric b || (u8_to_Z b =? 95).

(** A byte of a multi-byte character is at least 128, so testing bytes is
    testing characters. *)
Definition AccountId_parse (s : string) : result AccountId ProtocolError :=
  let s := str_trim s in
  let n := len (bytes_of s) in
  if (n <? ACCOUNT_MIN) || (ACCOUNT_MAX <? n) then Err InvalidAccount
  else if negb (forallb account_char (bytes_of s)) then Err InvalidAccount
  else Ok (mkAccountId s).

Definition nonempty_parse {A} (mk : string -> A) (err : ProtocolError) (s : string)
  : result A ProtocolError :=
  let s := str_trim s in
  if str_is_empty s then Err err else Ok (mk s).

Definition ChannelId_parse := nonempty_parse mkChannelId InvalidChannelId.
Definition GatewayId_parse := nonempty_parse mkGatewayId InvalidGatewayId.
Definition DestId_parse := nonempty_parse mkDestId InvalidDest.

(** ** Lemmas *)

Lemma parse_from_Some table s c : parse_from table s = Some c -> as_str c = s /\ c ∈ table.
Proof.
  induction table as [|d table IH]; simpl; [done|].
  destruct (String.eqb s (as_str d)) eqn:E.
  - intros [= <-]. apply String.eqb_eq in E. split; [done|left].
  - intros [-> ?]%IH. split; [done|by right].
Qed.

Lemma Command_ALL_complete c : c ∈ Command_ALL.
Proof. destruct c; vm_compute; repeat constructor. Qed.

Lemma parse_as_str c : parse (as_str c) = Some c.
Proof. destruct c; reflexivity. Qed.

(** Parsing is the exact inverse of printing: every command's wire string
    parses to it, and a string that parses is the wire string of the result. *)
Theorem Command_parse_as_str_iff (s : string) (c : Command) : parse s = Some c <-> as_str c = s.
Proof.
  split.
  - intros H. by apply parse_from_Some in H as [? _].
  - intros <-. apply parse_as_str.
Qed.

(** What the account grammar guarantees to its clients (keys built with [:] and
    [#] separators rely on it). *)
Definition account_ok (s : string) : Prop :=
  ACCOUNT_MIN <= len (bytes_of s) <= ACCOUNT_MAX /\ forallb account_char (bytes_of s) = true.

Lemma account_char_range b : account_char b = true -> 48 <= u8_to_Z b <= 122.
Proof.
  unfold account_char, is_ascii_alphanumeric, is_ascii_digit, is_ascii_upper, is_ascii_lower,
    byte_between.
  rewrite !orb_true_iff, !andb_true_iff, !Z.leb_le, Z.eqb_eq. lia.
Qed.

Lemma byte_between_false lo hi b :
  u8_to_Z b < lo \/ hi < u8_to_Z b -> byte_between lo hi b = false.
Proof. unfold byte_between. intros. apply andb_false_iff. rewrite !Z.leb_gt. lia. Qed.

Ltac outside :=
  repeat match goal with
  | |- context [byte_between ?lo ?hi ?b] => rewrite (byte_between_false lo hi b) by lia
  end.

Lemma ws_prefix_account l : forallb account_char l = true -> ws_prefix l = None.
Proof.
  destruct l as [|a [|b [|c l]]]; simpl; [done|..];
    rewrite ?andb_true_iff; intros H; destruct_conj;
    pose proof (account_char_range a ltac:(tauto)); by outside.
Qed.

Lemma ws_suffix_account l : forallb account_char l = true -> ws_suffix l = None.
Proof.
  destruct l as [|a [|b [|c l]]]; simpl; [done|..];
    rewrite ?andb_true_iff; intros H; destruct_conj;
    pose proof (account_char_range a ltac:(tauto));
    try (pose proof (account_char_range b ltac:(tauto)));
    try (pose proof (account_char_range c ltac:(tauto))); by outside.
Qed.

Lemma forallb_rev {A} (P : A -> bool) l : forallb P (rev l) = forallb P l.
Proof. induction l; simpl; [done|]. rewrite forallb_app, IHl. simpl. by rewrite andb_true_r, andb_comm. Qed.

Lemma str_trim_account s : forallb account_char (bytes_of s) = true -> str_trim s = s.
Proof.
  intros H. unfold str_trim, trim_start, trim_end.
  rewrite (strip_None ws_prefix) by by apply ws_prefix_account.
  rewrite (strip_None ws_suffix) by (apply ws_suffix_account; by rewrite forallb_rev).
  rewrite rev_involutive. apply string_of_bytes_of.
Qed.

(** [AccountId::parse] accepts exactly the trimmed texts of 3 to 32 bytes of
    [A-Za-z0-9_], returns that trimmed text, and accepts its own output
    unchanged. *)
Theorem AccountId_parse_spec (s : string) :
  (forall a, AccountId_parse s = Ok a <-> a = mkAccountId (str_trim s) /\ account_ok (str_trim s))
  /\ (forall a, AccountId_parse s = Ok a -> AccountId_parse (account_str a) = Ok a).
Proof.
  assert (Hspec : forall t a,
    AccountId_parse t = Ok a <-> a = mkAccountId (str_trim t) /\ account_ok (str_trim t)).
  { intros t a. unfold AccountId_parse, account_ok.
    destruct ((len (bytes_of (str_trim t)) <? ACCOUNT_MIN)
              || (ACCOUNT_MAX <? len (bytes_of (str_trim t)))) eqn:E.
    - split; [done|]. intros (_ & ? & _).
      apply orb_true_iff in E. rewrite !Z.ltb_lt in E. lia.
    - apply orb_false_iff in E. rewrite !Z.ltb_ge in E.
      destruct (forallb _ _) eqn:F; simpl; split.
      + intros [= <-]. done.
      + by intros [-> _].
      + done.
      + by intros (_ & _ & ?). }
  split; [apply Hspec|].
  intros a [-> [Hlen Hch]]%Hspec. apply Hspec. simpl.
  rewrite (str_trim_account (str_trim s)) by done. done.
Qed.

(** Every command of the vocabulary is served by the chat or the login segment,
    and the login uplink must not be forwarded by its first segment. *)
Lemma service_name_command c :
  service_name (as_str c) = SN_CHAT \/ service_name (as_str c) = "login"%string.
Proof. destruct c; vm_compute; tauto. Qed.

Lemma service_name_login c :
  service_name (as_str c) <> SN_LOGIN <-> c = LoginSignIn \/ c = LoginSignOut \/ c = LoginRenew.
Proof.
  split.
  - destruct c; try (intros H; exfalso; apply H; reflexivity); tauto.
  - intros [->|[->| ->]]; discriminate.
Qed.

Lemma as_str_inj c d : as_str c = as_str d -> c = d.
Proof.
  intros H. pose proof (parse_as_str c). rewrite H, parse_as_str in *. congruence.
Qed.
#[export] Instance as_str_Inj : Inj (=) (=) as_str := as_str_inj.
