(* ===== verification/Pkt.v ===== *)
(** The packets of [crates/kim-protocol/src]: the generated message types the
    handlers use (proto/pkt.proto), [BasicPkt] (basic.rs), [LogicPkt] (logic.rs)
    and the two-way [read] / [marshal] (magic.rs, lib.rs).

    Protobuf encoding is prost's and is not part of the program: it enters as the
    class [Message] with the documented law [MessageOk] (decoding an encoding
    gives the message back).  [countable_message] is a concrete instance used by
    the witnesses. *)

From S2P Require Import Prelude Wire.
Open Scope Z_scope.
Open Scope kim_scope.

(** ** Generated message types *)

Inductive Flag : Type := Request | Response | PushFlag.
Definition Flag_as_i32 (f : Flag) : Z := match f with Request => 0 | Response => 1 | PushFlag => 2 end.

Inductive Status : Type :=
| Success | InvalidPacket | CommandNotFound | ServiceUnavailable | SystemException
| InvalidPacketBody | InvalidCommand | Unauthorized | ContentBlocked | NotGroupMember
| UserNotFound | NotFriends | Blocked | IdempotencyConflict | NotBotOwner | BotSocialDenied
| NoDestination | SessionNotFound.
#[export] Instance Status_eq_dec : EqDecision Status.
Proof. solve_decision. Defined.
Definition Status_as_i32 (s : Status) : Z :=
  match s with
  | Success => 0 | InvalidPacket => 1 | CommandNotFound => 2 | ServiceUnavailable => 3
  | SystemException => 99 | InvalidPacketBody => 101 | InvalidCommand => 103
  | Unauthorized => 105 | ContentBlocked => 106 | NotGroupMember => 107 | UserNotFound => 108
  | NotFriends => 109 | Blocked => 110 | IdempotencyConflict => 111 | NotBotOwner => 112
  | BotSocialDenied => 113 | NoDestination => 300 | SessionNotFound => 404
  end.

Record Meta := mkMeta {
  meta_key : string;
  meta_value : string
}.
#[export] Instance Meta_eq_dec : EqDecision Meta.
Proof. solve_decision. Defined.
Record Header := mkHeader {
  h_command : string;
  h_channel_id : string;
  h_sequence : Z;
  h_flag : Z;
  h_status : Z;
  h_dest : string;
  h_body_length : Z;
  h_meta : list Meta
}.
#[export] Instance Header_eq_dec : EqDecision Header.
Proof. solve_decision. Defined.
Record Session := mkSession {
  s_channel_id : string;
  s_gate_id : string;
  s_account : string;
  s_zone : string;
  s_isp : string;
  s_remote_ip : string;
  s_device : string;
  s_app : string;
  s_tags : list string;
  s_jti : string;
  s_device_id : string
}.
#[export] Instance Session_eq_dec : EqDecision Session.
Proof. solve_decision. Defined.
Record LoginResp := mkLoginResp {
  lr_channel_id : string
}.
#[export] Instance LoginResp_eq_dec : EqDecision LoginResp.
Proof. solve_decision. Defined.
Record KickoutNotify := mkKickoutNotify {
  ko_channel_id : string
}.
#[export] Instance KickoutNotify_eq_dec : EqDecision KickoutNotify.
Proof. solve_decision. Defined.
Record MessageReq := mkMessageReq {
  mr_type : Z;
  mr_body : string;
  mr_extra : string;
  mr_client_id : string
}.
#[export] Instance MessageReq_eq_dec : EqDecision MessageReq.
Proof. solve_decision. Defined.
Record MessageResp := mkMessageResp {
  mp_message_id : Z;
  mp_send_time : Z
}.
#[export] Instance MessageResp_eq_dec : EqDecision MessageResp.
Proof. solve_decision. Defined.
Record MessagePush := mkMessagePush {
  push_message_id : Z;
  push_type : Z;
  push_body : string;
  push_extra : string;
  push_sender : string;
  push_send_time : Z
}.
#[export] Instance MessagePush_eq_dec : EqDecision MessagePush.
Proof. solve_decision. Defined.
Record MessageAckReq := mkMessageAckReq {
  ack_message_id : Z;
  ack_message_ids : list Z
}.
#[export] Instance MessageAckReq_eq_dec : EqDecision MessageAckReq.
Proof. solve_decision. Defined.
Record MessageIndex := mkMessageIndex {
  mi_message_id : Z;
  mi_direction : Z;
  mi_send_time : Z;
  mi_account_b : string;
  mi_group : string
}.
#[export] Instance MessageIndex_eq_dec : EqDecision MessageIndex.
Proof. solve_decision. Defined.
Record PktMessage := mkPktMessage {
  pm_message_id : Z;
  pm_type : Z;
  pm_body : string;
  pm_extra : string
}.
#[export] Instance PktMessage_eq_dec : EqDecision PktMessage.
Proof. solve_decision. Defined.
Record MessageIndexReq := mkMessageIndexReq {
  ireq_message_id : Z;
  ireq_resume : bool
}.
#[export] Instance MessageIndexReq_eq_dec : EqDecision MessageIndexReq.
Proof. solve_decision. Defined.
Record MessageIndexResp := mkMessageIndexResp {
  iresp_indexes : list MessageIndex;
  iresp_has_more : bool
}.
#[export] Instance MessageIndexResp_eq_dec : EqDecision MessageIndexResp.
Proof. solve_decision. Defined.
Record MessageContentReq := mkMessageContentReq {
  creq_message_ids : list Z;
  creq_account : string;
  creq_app : string
}.
#[export] Instance MessageContentReq_eq_dec : EqDecision MessageContentReq.
Proof. solve_decision. Defined.
Record MessageContentResp := mkMessageContentResp {
  cresp_messages : list PktMessage
}.
#[export] Instance MessageContentResp_eq_dec : EqDecision MessageContentResp.
Proof. solve_decision. Defined.

(** ** prost, as an interface *)

Class Message (T : Type) := {
  encode_to_vec : T -> bytes;
  decode_msg : bytes -> option T
}.
Class MessageOk (T : Type) `{Message T} :=
  decode_encode_msg : forall m : T, decode_msg (encode_to_vec m) = Some m.

(** ** magic.rs *)

Definition MAGIC_LOGIC_PKT : bytes := u8_of_Z <$> [195; 17; 163; 101].
Definition MAGIC_BASIC_PKT : bytes := u8_of_Z <$> [195; 21; 167; 101].

(** ** basic.rs *)

Definition CODE_PING : Z := 1.
Definition CODE_PONG : Z := 2.
Definition MAX_BASIC_BODY : Z := 4096.

Record BasicPkt := mkBasicPkt { b_code : Z; b_body : bytes }.

Definition BasicPkt_ping : BasicPkt := mkBasicPkt CODE_PING [].
Definition BasicPkt_pong : BasicPkt := mkBasicPkt CODE_PONG [].

(** [put_u16_le] takes the low 16 bits: [body.len() as u16]. *)
Definition BasicPkt_encode (p : BasicPkt) : bytes :=
  MAGIC_BASIC_PKT ++ le16 (b_code p) ++ le16 (len (b_body p)) ++ b_body p.

Definition BasicPkt_decode (rest : bytes) : result BasicPkt ProtocolError :=
  match rest with
  | r0 :: r1 :: r2 :: r3 :: body =>
    let code := from_le16 r0 r1 in
    let length := from_le16 r2 r3 in
    if MAX_BASIC_BODY <? length then Err (BasicTooLarge length)
    else if len rest <? 4 + length then Err Incomplete
    else Ok (mkBasicPkt code (take (Z.to_nat length) body))
  | _ => Err Incomplete
  end.

(** ** logic.rs *)

Record LogicPkt := mkLogicPkt { l_header : Header; l_body : bytes }.

Definition Header_default : Header := mkHeader "" "" 0 0 0 "" 0 [].

Definition h_with_body_length (n : Z) (h : Header) : Header :=
  mkHeader (h_command h) (h_channel_id h) (h_sequence h) (h_flag h) (h_status h) (h_dest h) n
    (h_meta h).
Definition h_with_command (c : string) (h : Header) : Header :=
  mkHeader c (h_channel_id h) (h_sequence h) (h_flag h) (h_status h) (h_dest h) (h_body_length h)
    (h_meta h).
Definition h_with_flag (f : Flag) (h : Header) : Header :=
  mkHeader (h_command h) (h_channel_id h) (h_sequence h) (Flag_as_i32 f) (h_status h) (h_dest h)
    (h_body_length h) (h_meta h).
Definition h_with_status (s : Status) (h : Header) : Header :=
  mkHeader (h_command h) (h_channel_id h) (h_sequence h) (h_flag h) (Status_as_i32 s) (h_dest h)
    (h_body_length h) (h_meta h).
Definition h_with_meta (m : list Meta) (h : Header) : Header :=
  mkHeader (h_command h) (h_channel_id h) (h_sequence h) (h_flag h) (h_status h) (h_dest h)
    (h_body_length h) m.
Definition h_with_channel_id (c : string) (h : Header) : Header :=
  mkHeader (h_command h) c (h_sequence h) (h_flag h) (h_status h) (h_dest h) (h_body_length h) (h_meta h).
Definition h_with_dest (d : string) (h : Header) : Header :=
  mkHeader (h_command h) (h_channel_id h) (h_sequence h) (h_flag h) (h_status h) d
    (h_body_length h) (h_meta h).

Definition LogicPkt_new (command : string) (sequence : Z) (body : bytes) : LogicPkt :=
  mkLogicPkt (mkHeader command "" sequence 0 0 "" (wrap32 (len body)) []) body.

Definition LogicPkt_new_from (h : Header) : LogicPkt := mkLogicPkt (h_with_body_length 0 h) [].

Definition write_body {T} `{Message T} (p : LogicPkt) (msg : T) : LogicPkt :=
  let buf := encode_to_vec msg in
  mkLogicPkt (h_with_body_length (wrap32 (len buf)) (l_header p)) buf.

Definition read_body {T} `{Message T} (p : LogicPkt) : result T ProtocolError :=
  match decode_msg (l_body p) with Some m => Ok m | None => Err Prost end.

Definition LogicPkt_service_name (p : LogicPkt) : string := service_name (h_command (l_header p)).

Definition del_meta (key : string) (p : LogicPkt) : LogicPkt :=
  mkLogicPkt
    (h_with_meta (List.filter (fun m => negb (bool_decide (meta_key m = key))) (h_meta (l_header p)))
       (l_header p))
    (l_body p).

Definition set_meta (key value : string) (p : LogicPkt) : LogicPkt :=
  let p' := del_meta key p in
  mkLogicPkt (h_with_meta (h_meta (l_header p') ++ [mkMeta key value]) (l_header p')) (l_body p').

Definition get_meta (key : string) (p : LogicPkt) : option string :=
  option_map meta_value
    (List.find (fun m => bool_decide (meta_key m = key)) (h_meta (l_header p))).

Definition set_dest (dest : string) (p : LogicPkt) : LogicPkt :=
  mkLogicPkt (h_with_dest dest (l_header p)) (l_body p).

Definition LogicPkt_encode `{Message Header} (p : LogicPkt) : bytes :=
  let header := encode_to_vec (l_header p) in
  MAGIC_LOGIC_PKT ++ be32 (len header) ++ header ++ l_body p.

Definition LogicPkt_decode `{Message Header} (rest : bytes) : result LogicPkt ProtocolError :=
  match rest with
  | r0 :: r1 :: r2 :: r3 :: tail =>
    let header_len := from_be32 r0 r1 r2 r3 in
    if len rest <? 4 + header_len then Err Incomplete
    else match decode_msg (take (Z.to_nat header_len) tail) with
    | None => Err Prost
    | Some header =>
      let body_start := 4 + header_len in
      let need := h_body_length header in
      if len rest <? body_start + need then Err Incomplete
      else Ok (mkLogicPkt header
                 (take (Z.to_nat need) (drop (Z.to_nat header_len) tail)))
    end
  | _ => Err Incomplete
  end.

(** ** lib.rs *)

Inductive Packet : Type := Basic (p : BasicPkt) | Logic (p : LogicPkt).

Definition read `{Message Header} (buf : bytes) : result Packet ProtocolError :=
  match buf with
  | b0 :: b1 :: b2 :: b3 :: rest =>
    let magic := [b0; b1; b2; b3] in
    if bool_decide (magic = MAGIC_BASIC_PKT) then
      let? p := BasicPkt_decode rest in Ok (Basic p)
    else if bool_decide (magic = MAGIC_LOGIC_PKT) then
      let? p := LogicPkt_decode rest in Ok (Logic p)
    else Err BadMagic
  | _ => Err Incomplete
  end.

Definition marshal `{Message Header} (pkt : Packet) : bytes :=
  match pkt with Basic p => BasicPkt_encode p | Logic p => LogicPkt_encode p end.

Definition read_logic `{Message Header} (buf : bytes) : result LogicPkt ProtocolError :=
  match read buf with
  | Ok (Logic p) => Ok p
  | Ok (Basic _) => Err NotLogic
  | Err e => Err e
  end.

Definition logic_channel_id `{Message Header} (buf : bytes) : option string :=
  match read_logic buf with
  | Ok p => let s := h_channel_id (l_header p) in if str_is_empty s then None else Some s
  | Err _ => None
  end.

(** ** A concrete codec for the witnesses: the bits of the countable encoding *)

Fixpoint pos_to_bytes (p : positive) : bytes :=
  match p with
  | xH => []
  | xO p' => Byte.x00 :: pos_to_bytes p'
  | xI p' => Byte.x01 :: pos_to_bytes p'
  end.
Fixpoint bytes_to_pos (l : bytes) : positive :=
  match l with
  | [] => xH
  | Byte.x00 :: l' => xO (bytes_to_pos l')
  | _ :: l' => xI (bytes_to_pos l')
  end.
Lemma bytes_to_pos_to_bytes p : bytes_to_pos (pos_to_bytes p) = p.
Proof. induction p; simpl; by f_equal. Qed.

Definition countable_message {T} `{Countable T} : Message T := {|
  encode_to_vec m := pos_to_bytes (encode m);
  decode_msg l := decode (bytes_to_pos l)
|}.
Lemma countable_message_ok {T} `{Countable T} : @MessageOk T countable_message.
Proof. intros m. simpl. rewrite bytes_to_pos_to_bytes. apply decode_encode. Qed.


(** ** Lemmas *)

Section packet_lemmas.
Context `{MessageOk Header}.

Lemma read_basic_magic rest :
  read (MAGIC_BASIC_PKT ++ rest) = (let? p := BasicPkt_decode rest in Ok (Basic p)).
Proof. reflexivity. Qed.
Lemma read_logic_magic rest :
  read (MAGIC_LOGIC_PKT ++ rest) = (let? p := LogicPkt_decode rest in Ok (Logic p)).
Proof. reflexivity. Qed.

(** The length test of [decode] on the bytes behind the four length bytes. *)
Lemma LogicPkt_decode_be32 n tail :
  0 <= n <= u32_max ->
  LogicPkt_decode (be32 n ++ tail) =
  if len tail <? n then Err Incomplete
  else match decode_msg (take (Z.to_nat n) tail) with
  | None => Err Prost
  | Some h =>
    if len tail <? n + h_body_length h then Err Incomplete
    else Ok (mkLogicPkt h (take (Z.to_nat (h_body_length h)) (drop (Z.to_nat n) tail)))
  end.
Proof.
  intros Hn. unfold LogicPkt_decode, be32. simpl.
  rewrite from_be32_be32, wrap32_id, !len_cons by done.
  destruct (len tail <? n) eqn:E.
  - rewrite ltb_true; [done|]. apply Z.ltb_lt in E. lia.
  - rewrite ltb_false by (apply Z.ltb_ge in E; lia).
    destruct (decode_msg _) as [h|]; [|done].
    destruct (len tail <? n + h_body_length h) eqn:F.
    + rewrite ltb_true; [done|]. apply Z.ltb_lt in F. lia.
    + rewrite ltb_false; [done|]. apply Z.ltb_ge in F. lia.
Qed.

Lemma LogicPkt_decode_short rest : len rest < 4 -> LogicPkt_decode rest = Err Incomplete.
Proof. destruct rest as [|a [|b [|c [|d l]]]]; try done. rewrite !len_cons. pose proof (len_nonneg l). lia. Qed.

Lemma read_short buf : len buf < 4 -> read buf = Err Incomplete.
Proof. destruct buf as [|a [|b [|c [|d l]]]]; try done. rewrite !len_cons. pose proof (len_nonneg l). lia. Qed.

Definition header_fits (p : LogicPkt) : Prop :=
  len (encode_to_vec (l_header p)) <= u32_max /\ h_body_length (l_header p) = len (l_body p).

Lemma LogicPkt_decode_app (p : LogicPkt) (extra : bytes) :
  header_fits p ->
  LogicPkt_decode (be32 (len (encode_to_vec (l_header p))) ++
                   (encode_to_vec (l_header p) ++ l_body p) ++ extra) = Ok p.
Proof.
  intros [Hlen Hbody].
  rewrite LogicPkt_decode_be32 by (split; [apply len_nonneg|done]).
  rewrite !len_app, <- !app_assoc, ltb_false, take_len_app, decode_encode_msg, Hbody,
    ltb_false, drop_len_app, take_len_app;
    first [done | by destruct p | (pose proof (len_nonneg (l_body p)); pose proof (len_nonneg extra); lia)].
Qed.

Lemma LogicPkt_decode_take (p : LogicPkt) (k : nat) :
  header_fits p ->
  Z.of_nat k < len (encode_to_vec (l_header p) ++ l_body p) ->
  LogicPkt_decode (be32 (len (encode_to_vec (l_header p))) ++
                   take k (encode_to_vec (l_header p) ++ l_body p)) = Err Incomplete.
Proof.
  intros [Hlen Hbody] Hk. pose proof (len_nonneg (l_body p)).
  rewrite LogicPkt_decode_be32 by (split; [apply len_nonneg|done]).
  rewrite len_app in Hk. rewrite len_take, len_app.
  destruct (Z.lt_ge_cases (Z.of_nat k) (len (encode_to_vec (l_header p)))).
  { rewrite ltb_true by lia. done. }
  rewrite ltb_false, take_take, Nat.min_l, take_len_app, decode_encode_msg, ltb_true by
    (unfold len in *; lia). done.
Qed.

(** Reading a strict prefix of a framed packet. *)
Lemma read_take_magic (rest : bytes) (k : nat) :
  (4 <= k)%nat -> take k (MAGIC_LOGIC_PKT ++ rest) = MAGIC_LOGIC_PKT ++ take (k - 4) rest.
Proof. intros. rewrite take_app_ge; done. Qed.

Lemma get_meta_set_meta_ne k k' v p : k <> k' -> get_meta k' (set_meta k v p) = get_meta k' p.
Proof.
  intros Hk. unfold get_meta, set_meta, del_meta. simpl. f_equal.
  induction (h_meta (l_header p)) as [|m l IH]; simpl.
  - by rewrite bool_decide_eq_false_2.
  - case_bool_decide as E; simpl; rewrite IH; case_bool_decide; congruence.
Qed.

Lemma get_meta_del_meta k p : get_meta k (del_meta k p) = None.
Proof.
  unfold get_meta, del_meta. simpl.
  induction (h_meta (l_header p)) as [|m l IH]; simpl; [done|].
  case_bool_decide as E; simpl; [done|]. by rewrite bool_decide_eq_false_2.
Qed.

Lemma get_meta_set_meta_eq k v p : get_meta k (set_meta k v p) = Some v.
Proof.
  unfold get_meta, set_meta, del_meta. simpl.
  induction (h_meta (l_header p)) as [|m l IH]; simpl.
  - by rewrite bool_decide_eq_true_2.
  - case_bool_decide as E; simpl; [done|]. by rewrite bool_decide_eq_false_2.
Qed.
End packet_lemmas.

(** ** Properties *)

(** The control packet, at every body length: whatever follows it in the
    buffer, reading what [BasicPkt::encode] wrote gives the code and the first
    [len mod 2^16] bytes of the body, or [BasicTooLarge] when that length passes
    the cap.  A body within the cap therefore round trips, one between the cap
    and 2^16 is refused, and one of 2^16 bytes or more is cut silently. *)
Theorem BasicPkt_read_encode `{Message Header} (code : Z) (body extra : bytes)
  (Hcode : 0 <= code <= u16_max) :
  read (marshal (Basic (mkBasicPkt code body)) ++ extra) =
    (if MAX_BASIC_BODY <? wrap16 (len body) then Err (BasicTooLarge (wrap16 (len body)))
     else Ok (Basic (mkBasicPkt code (take (Z.to_nat (wrap16 (len body))) body))))
  /\ (len body <= MAX_BASIC_BODY ->
      read (marshal (Basic (mkBasicPkt code body)) ++ extra) = Ok (Basic (mkBasicPkt code body))).
Proof.
  assert (Hgen : read (marshal (Basic (mkBasicPkt code body)) ++ extra) =
    (if MAX_BASIC_BODY <? wrap16 (len body) then Err (BasicTooLarge (wrap16 (len body)))
     else Ok (Basic (mkBasicPkt code (take (Z.to_nat (wrap16 (len body))) body))))).
  { unfold marshal, BasicPkt_encode. cbn [b_code b_body].
    rewrite <- !app_assoc, read_basic_magic. unfold BasicPkt_decode, le16. cbn [app].
    rewrite !from_le16_le16, (wrap16_id code) by done.
    pose proof (wrap16_range (len body)). pose proof (wrap16_le (len body) (len_nonneg _)).
    pose proof (len_nonneg extra).
    case_match; [done|]. rewrite ltb_false by (rewrite !len_cons, len_app; lia).
    cbn. by rewrite take_app_short by lia. }
  split; [done|]. intros Hb. rewrite Hgen, wrap16_id; [|pose proof (len_nonneg body);
    unfold MAX_BASIC_BODY, u16_max in *; lia].
  rewrite ltb_false by done. do 3 f_equal. rewrite <- (app_nil_r body) at 2. by rewrite take_len_app.
Qed.

(** The codec instances of the witnesses. *)
Section concrete.
Definition Meta_to_pair (m : Meta) := (meta_key m, meta_value m).
#[export] Instance Meta_countable : Countable Meta.
Proof. by refine (inj_countable' Meta_to_pair (fun p => mkMeta p.1 p.2) _); intros []. Defined.
#[export] Instance Header_countable : Countable Header.
Proof.
  by refine (inj_countable'
    (fun h => (h_command h, h_channel_id h, h_sequence h, h_flag h, h_status h, h_dest h,
               h_body_length h, h_meta h))
    (fun '(a, b, c, d, e, f, g, m) => mkHeader a b c d e f g m) _); intros [].
Defined.
#[export] Instance LoginResp_countable : Countable LoginResp.
Proof. by refine (inj_countable' lr_channel_id mkLoginResp _); intros []. Defined.
End concrete.

Lemma BasicPkt_read_encode_witness :
  @read countable_message (@marshal countable_message (Basic (mkBasicPkt 7 [Byte.x41])) ++ [Byte.x42])
  = Ok (Basic (mkBasicPkt 7 [Byte.x41])).
Proof.
  apply (@BasicPkt_read_encode countable_message 7 [Byte.x41] [Byte.x42]).
  - unfold u16_max. lia.
  - by vm_compute.
Defined.

(** (C40) The logic packet.  When the header's [body_length] is the body's length
    (as [new] and [write_body] set it) and the encoded header has fewer than 2^32
    bytes, reading the encoded packet gives it back, bytes that follow it are
    ignored, and every strict prefix of it is [Incomplete]: a reader never takes
    a cut packet for a whole one. *)
Theorem LogicPkt_read_encode `{MessageOk Header} (p : LogicPkt) (Hp : header_fits p) :
  (forall extra, read (marshal (Logic p) ++ extra) = Ok (Logic p))
  /\ (forall k, Z.of_nat k < len (marshal (Logic p)) ->
        read (take k (marshal (Logic p))) = Err Incomplete).
Proof.
  unfold marshal, LogicPkt_encode. split.
  - intros extra. rewrite <- !app_assoc, read_logic_magic, !(app_assoc _ _ extra), <- (app_assoc (be32 _)).
    by rewrite LogicPkt_decode_app.
  - intros k Hk. destruct (Z.lt_ge_cases (Z.of_nat k) 4).
    { apply read_short. rewrite len_take. lia. }
    rewrite read_take_magic, read_logic_magic by lia.
    destruct (Z.lt_ge_cases (Z.of_nat k) 8).
    { rewrite LogicPkt_decode_short; [done|]. rewrite len_take. lia. }
    rewrite take_app_ge by (simpl; lia).
    rewrite LogicPkt_decode_take; [done|done|].
    rewrite len_app, len_app in Hk. change (len MAGIC_LOGIC_PKT) with 4 in Hk.
    change (len (be32 _)) with 4 in Hk. change (length (be32 _)) with 4%nat. lia.
Qed.

Definition demo_pkt : LogicPkt := LogicPkt_new "chat.demo.echo" 7 (bytes_of "hi").
Lemma LogicPkt_read_encode_witness :
  @read countable_message (@marshal countable_message (Logic demo_pkt)) = Ok (Logic demo_pkt).
Proof.
  pose proof (proj1 (@LogicPkt_read_encode countable_message countable_message_ok demo_pkt
    ltac:(split; vm_compute; first [discriminate | reflexivity])) []) as H.
  by rewrite app_nil_r in H.
Defined.

(** Header metadata behaves as a map that keeps the order of insertion: a key
    set is read back, its older entries are gone, it is stored last; every other
    key keeps its value; a deleted key reads as absent. *)
Theorem meta_map_laws (k v : string) (p : LogicPkt) :
  get_meta k (set_meta k v p) = Some v
  /\ (forall k', k <> k' -> get_meta k' (set_meta k v p) = get_meta k' p)
  /\ get_meta k (del_meta k p) = None
  /\ List.filter (fun m => bool_decide (meta_key m = k)) (h_meta (l_header (set_meta k v p)))
     = [mkMeta k v].
Proof.
  assert (Hn : List.filter (fun m => bool_decide (meta_key m = k))
    (h_meta (l_header (del_meta k p))) = []).
  { simpl. apply filter_none. intros m [Hm _]%elem_of_list_filter_bool.
    by apply negb_true_iff in Hm. }
  split_and!.
  - by rewrite get_meta_set_meta_eq.
  - intros. by apply get_meta_set_meta_ne.
  - apply get_meta_del_meta.
  - simpl in *. rewrite List.filter_app, Hn. simpl. by rewrite bool_decide_eq_true_2.
Qed.
