(* ===== verification/Msgs.v ===== *)
(** The other message types of proto/pkt.proto the handlers and the client use, as
    prost generates them (an optional field or a nested message is an [option], an
    enum is its number), and the codec of all of them.

    [wire_msg] lists the message types.  [Prost] is a codec for each of them, the
    one parameter of everything that reads or writes bodies, and [ProstOk] its law:
    a message that is encoded decodes to itself.  [demo_prost] is a concrete codec
    with that law. *)

From S2P Require Import Prelude Wire Pkt.
Open Scope Z_scope.
Open Scope kim_scope.

(** ** Messages *)

#[export] Instance byte_countable : Countable u8.
Proof. by refine (inj_countable Byte.to_N Byte.of_N Byte.of_to_N). Defined.

(** The messages declared with the packets are countable too. *)
#[export] Instance MessageReq_countable : Countable MessageReq.
Proof. by refine (inj_countable' (fun '(mkMessageReq x0 x1 x2 x3) => (x0, x1, x2, x3))
  (fun '(x0, x1, x2, x3) => mkMessageReq x0 x1 x2 x3) _); intros []. Defined.
#[export] Instance MessageResp_countable : Countable MessageResp.
Proof. by refine (inj_countable' (fun '(mkMessageResp x0 x1) => (x0, x1))
  (fun '(x0, x1) => mkMessageResp x0 x1) _); intros []. Defined.
#[export] Instance MessagePush_countable : Countable MessagePush.
Proof. by refine (inj_countable' (fun '(mkMessagePush x0 x1 x2 x3 x4 x5) => (x0, x1, x2, x3, x4, x5))
  (fun '(x0, x1, x2, x3, x4, x5) => mkMessagePush x0 x1 x2 x3 x4 x5) _); intros []. Defined.
#[export] Instance MessageAckReq_countable : Countable MessageAckReq.
Proof. by refine (inj_countable' (fun '(mkMessageAckReq x0 x1) => (x0, x1))
  (fun '(x0, x1) => mkMessageAckReq x0 x1) _); intros []. Defined.
#[export] Instance MessageIndex_countable : Countable MessageIndex.
Proof. by refine (inj_countable' (fun '(mkMessageIndex x0 x1 x2 x3 x4) => (x0, x1, x2, x3, x4))
  (fun '(x0, x1, x2, x3, x4) => mkMessageIndex x0 x1 x2 x3 x4) _); intros []. Defined.
#[export] Instance PktMessage_countable : Countable PktMessage.
Proof. by refine (inj_countable' (fun '(mkPktMessage x0 x1 x2 x3) => (x0, x1, x2, x3))
  (fun '(x0, x1, x2, x3) => mkPktMessage x0 x1 x2 x3) _); intros []. Defined.
#[export] Instance MessageIndexReq_countable : Countable MessageIndexReq.
Proof. by refine (inj_countable' (fun '(mkMessageIndexReq x0 x1) => (x0, x1))
  (fun '(x0, x1) => mkMessageIndexReq x0 x1) _); intros []. Defined.
#[export] Instance MessageIndexResp_countable : Countable MessageIndexResp.
Proof. by refine (inj_countable' (fun '(mkMessageIndexResp x0 x1) => (x0, x1))
  (fun '(x0, x1) => mkMessageIndexResp x0 x1) _); intros []. Defined.
#[export] Instance MessageContentReq_countable : Countable MessageContentReq.
Proof. by refine (inj_countable' (fun '(mkMessageContentReq x0 x1 x2) => (x0, x1, x2))
  (fun '(x0, x1, x2) => mkMessageContentReq x0 x1 x2) _); intros []. Defined.
#[export] Instance MessageContentResp_countable : Countable MessageContentResp.
Proof. by refine (inj_countable' (fun '(mkMessageContentResp x0) => x0)
  mkMessageContentResp _); intros []. Defined.
#[export] Instance Session_countable : Countable Session.
Proof. by refine (inj_countable' (fun '(mkSession x0 x1 x2 x3 x4 x5 x6 x7 x8 x9 x10) => (x0, x1, x2, x3, x4, x5, x6, x7, x8, x9, x10))
  (fun '(x0, x1, x2, x3, x4, x5, x6, x7, x8, x9, x10) => mkSession x0 x1 x2 x3 x4 x5 x6 x7 x8 x9 x10) _); intros []. Defined.
#[export] Instance KickoutNotify_countable : Countable KickoutNotify.
Proof. by refine (inj_countable' (fun '(mkKickoutNotify x0) => x0)
  mkKickoutNotify _); intros []. Defined.

Record LoginReq := mkLoginReq {
  login_req_token : string;
  login_req_device : string;
  login_req_device_credential : string
}.
#[export] Instance LoginReq_eq_dec : EqDecision LoginReq.
Proof. solve_decision. Defined.
#[export] Instance LoginReq_countable : Countable LoginReq.
Proof. by refine (inj_countable' (fun '(mkLoginReq x0 x1 x2) => (x0, x1, x2))
  (fun '(x0, x1, x2) => mkLoginReq x0 x1 x2) _); intros []. Defined.
Record AuthResp := mkAuthResp {
  auth_resp_token : string;
  auth_resp_exp : Z;
  auth_resp_account : string;
  auth_resp_device_id : string;
  auth_resp_device_credential : string
}.
#[export] Instance AuthResp_eq_dec : EqDecision AuthResp.
Proof. solve_decision. Defined.
#[export] Instance AuthResp_countable : Countable AuthResp.
Proof. by refine (inj_countable' (fun '(mkAuthResp x0 x1 x2 x3 x4) => (x0, x1, x2, x3, x4))
  (fun '(x0, x1, x2, x3, x4) => mkAuthResp x0 x1 x2 x3 x4) _); intros []. Defined.
Record GroupCreateReq := mkGroupCreateReq {
  group_create_req_name : string;
  group_create_req_avatar : string;
  group_create_req_introduction : string;
  group_create_req_owner : string;
  group_create_req_members : list string
}.
#[export] Instance GroupCreateReq_eq_dec : EqDecision GroupCreateReq.
Proof. solve_decision. Defined.
#[export] Instance GroupCreateReq_countable : Countable GroupCreateReq.
Proof. by refine (inj_countable' (fun '(mkGroupCreateReq x0 x1 x2 x3 x4) => (x0, x1, x2, x3, x4))
  (fun '(x0, x1, x2, x3, x4) => mkGroupCreateReq x0 x1 x2 x3 x4) _); intros []. Defined.
Record GroupCreateResp := mkGroupCreateResp {
  group_create_resp_group_id : string
}.
#[export] Instance GroupCreateResp_eq_dec : EqDecision GroupCreateResp.
Proof. solve_decision. Defined.
#[export] Instance GroupCreateResp_countable : Countable GroupCreateResp.
Proof. by refine (inj_countable' (fun '(mkGroupCreateResp x0) => x0)
  mkGroupCreateResp _); intros []. Defined.
Record GroupJoinReq := mkGroupJoinReq {
  group_join_req_account : string;
  group_join_req_group_id : string
}.
#[export] Instance GroupJoinReq_eq_dec : EqDecision GroupJoinReq.
Proof. solve_decision. Defined.
#[export] Instance GroupJoinReq_countable : Countable GroupJoinReq.
Proof. by refine (inj_countable' (fun '(mkGroupJoinReq x0 x1) => (x0, x1))
  (fun '(x0, x1) => mkGroupJoinReq x0 x1) _); intros []. Defined.
Record GroupQuitReq := mkGroupQuitReq {
  group_quit_req_account : string;
  group_quit_req_group_id : string
}.
#[export] Instance GroupQuitReq_eq_dec : EqDecision GroupQuitReq.
Proof. solve_decision. Defined.
#[export] Instance GroupQuitReq_countable : Countable GroupQuitReq.
Proof. by refine (inj_countable' (fun '(mkGroupQuitReq x0 x1) => (x0, x1))
  (fun '(x0, x1) => mkGroupQuitReq x0 x1) _); intros []. Defined.
Record GroupInviteReq := mkGroupInviteReq {
  group_invite_req_group_id : string;
  group_invite_req_accounts : list string
}.
#[export] Instance GroupInviteReq_eq_dec : EqDecision GroupInviteReq.
Proof. solve_decision. Defined.
#[export] Instance GroupInviteReq_countable : Countable GroupInviteReq.
Proof. by refine (inj_countable' (fun '(mkGroupInviteReq x0 x1) => (x0, x1))
  (fun '(x0, x1) => mkGroupInviteReq x0 x1) _); intros []. Defined.
Record GroupQueryReq := mkGroupQueryReq {
  group_query_req_group_id : string
}.
#[export] Instance GroupQueryReq_eq_dec : EqDecision GroupQueryReq.
Proof. solve_decision. Defined.
#[export] Instance GroupQueryReq_countable : Countable GroupQueryReq.
Proof. by refine (inj_countable' (fun '(mkGroupQueryReq x0) => x0)
  mkGroupQueryReq _); intros []. Defined.
Record GroupMembersResp := mkGroupMembersResp {
  group_members_resp_members : list string
}.
#[export] Instance GroupMembersResp_eq_dec : EqDecision GroupMembersResp.
Proof. solve_decision. Defined.
#[export] Instance GroupMembersResp_countable : Countable GroupMembersResp.
Proof. by refine (inj_countable' (fun '(mkGroupMembersResp x0) => x0)
  mkGroupMembersResp _); intros []. Defined.
Record GroupDetail := mkGroupDetail {
  group_detail_group_id : string;
  group_detail_name : string;
  group_detail_avatar : string;
  group_detail_introduction : string;
  group_detail_owner : string;
  group_detail_members : list string
}.
#[export] Instance GroupDetail_eq_dec : EqDecision GroupDetail.
Proof. solve_decision. Defined.
#[export] Instance GroupDetail_countable : Countable GroupDetail.
Proof. by refine (inj_countable' (fun '(mkGroupDetail x0 x1 x2 x3 x4 x5) => (x0, x1, x2, x3, x4, x5))
  (fun '(x0, x1, x2, x3, x4, x5) => mkGroupDetail x0 x1 x2 x3 x4 x5) _); intros []. Defined.
Record GroupCreateNotify := mkGroupCreateNotify {
  group_create_notify_group_id : string;
  group_create_notify_members : list string
}.
#[export] Instance GroupCreateNotify_eq_dec : EqDecision GroupCreateNotify.
Proof. solve_decision. Defined.
#[export] Instance GroupCreateNotify_countable : Countable GroupCreateNotify.
Proof. by refine (inj_countable' (fun '(mkGroupCreateNotify x0 x1) => (x0, x1))
  (fun '(x0, x1) => mkGroupCreateNotify x0 x1) _); intros []. Defined.
Record PbUserProfile := mkPbUserProfile {
  pb_user_profile_account : string;
  pb_user_profile_nickname : string;
  pb_user_profile_avatar : string;
  pb_user_profile_bio : string;
  pb_user_profile_kind : Z
}.
#[export] Instance PbUserProfile_eq_dec : EqDecision PbUserProfile.
Proof. solve_decision. Defined.
#[export] Instance PbUserProfile_countable : Countable PbUserProfile.
Proof. by refine (inj_countable' (fun '(mkPbUserProfile x0 x1 x2 x3 x4) => (x0, x1, x2, x3, x4))
  (fun '(x0, x1, x2, x3, x4) => mkPbUserProfile x0 x1 x2 x3 x4) _); intros []. Defined.
Record UserProfileUpdate := mkUserProfileUpdate {
  user_profile_update_nickname : string;
  user_profile_update_avatar : string;
  user_profile_update_bio : string
}.
#[export] Instance UserProfileUpdate_eq_dec : EqDecision UserProfileUpdate.
Proof. solve_decision. Defined.
#[export] Instance UserProfileUpdate_countable : Countable UserProfileUpdate.
Proof. by refine (inj_countable' (fun '(mkUserProfileUpdate x0 x1 x2) => (x0, x1, x2))
  (fun '(x0, x1, x2) => mkUserProfileUpdate x0 x1 x2) _); intros []. Defined.
Record UserSearchReq := mkUserSearchReq {
  user_search_req_query : string
}.
#[export] Instance UserSearchReq_eq_dec : EqDecision UserSearchReq.
Proof. solve_decision. Defined.
#[export] Instance UserSearchReq_countable : Countable UserSearchReq.
Proof. by refine (inj_countable' (fun '(mkUserSearchReq x0) => x0)
  mkUserSearchReq _); intros []. Defined.
Record UserSearchResp := mkUserSearchResp {
  user_search_resp_users : list PbUserProfile
}.
#[export] Instance UserSearchResp_eq_dec : EqDecision UserSearchResp.
Proof. solve_decision. Defined.
#[export] Instance UserSearchResp_countable : Countable UserSearchResp.
Proof. by refine (inj_countable' (fun '(mkUserSearchResp x0) => x0)
  mkUserSearchResp _); intros []. Defined.
Record UserListResp := mkUserListResp {
  user_list_resp_users : list PbUserProfile
}.
#[export] Instance UserListResp_eq_dec : EqDecision UserListResp.
Proof. solve_decision. Defined.
#[export] Instance UserListResp_countable : Countable UserListResp.
Proof. by refine (inj_countable' (fun '(mkUserListResp x0) => x0)
  mkUserListResp _); intros []. Defined.
Record Presence := mkPresence {
  presence_account : string;
  presence_status : Z;
  presence_last_seen : Z
}.
#[export] Instance Presence_eq_dec : EqDecision Presence.
Proof. solve_decision. Defined.
#[export] Instance Presence_countable : Countable Presence.
Proof. by refine (inj_countable' (fun '(mkPresence x0 x1 x2) => (x0, x1, x2))
  (fun '(x0, x1, x2) => mkPresence x0 x1 x2) _); intros []. Defined.
Record RoomEnterReq := mkRoomEnterReq {
  room_enter_req_dest : string;
  room_enter_req_kind : Z
}.
#[export] Instance RoomEnterReq_eq_dec : EqDecision RoomEnterReq.
Proof. solve_decision. Defined.
#[export] Instance RoomEnterReq_countable : Countable RoomEnterReq.
Proof. by refine (inj_countable' (fun '(mkRoomEnterReq x0 x1) => (x0, x1))
  (fun '(x0, x1) => mkRoomEnterReq x0 x1) _); intros []. Defined.
Record RoomEnterResp := mkRoomEnterResp {
  room_enter_resp_presence : list Presence
}.
#[export] Instance RoomEnterResp_eq_dec : EqDecision RoomEnterResp.
Proof. solve_decision. Defined.
#[export] Instance RoomEnterResp_countable : Countable RoomEnterResp.
Proof. by refine (inj_countable' (fun '(mkRoomEnterResp x0) => x0)
  mkRoomEnterResp _); intros []. Defined.
Record RoomLeaveReq := mkRoomLeaveReq {
  room_leave_req_dest : string;
  room_leave_req_kind : Z
}.
#[export] Instance RoomLeaveReq_eq_dec : EqDecision RoomLeaveReq.
Proof. solve_decision. Defined.
#[export] Instance RoomLeaveReq_countable : Countable RoomLeaveReq.
Proof. by refine (inj_countable' (fun '(mkRoomLeaveReq x0 x1) => (x0, x1))
  (fun '(x0, x1) => mkRoomLeaveReq x0 x1) _); intros []. Defined.
Record PresencePush := mkPresencePush {
  presence_push_entries : list Presence
}.
#[export] Instance PresencePush_eq_dec : EqDecision PresencePush.
Proof. solve_decision. Defined.
#[export] Instance PresencePush_countable : Countable PresencePush.
Proof. by refine (inj_countable' (fun '(mkPresencePush x0) => x0)
  mkPresencePush _); intros []. Defined.
Record TypingReq := mkTypingReq {
  typing_req_dest : string;
  typing_req_kind : Z;
  typing_req_active : bool;
  typing_req_phase : Z
}.
#[export] Instance TypingReq_eq_dec : EqDecision TypingReq.
Proof. solve_decision. Defined.
#[export] Instance TypingReq_countable : Countable TypingReq.
Proof. by refine (inj_countable' (fun '(mkTypingReq x0 x1 x2 x3) => (x0, x1, x2, x3))
  (fun '(x0, x1, x2, x3) => mkTypingReq x0 x1 x2 x3) _); intros []. Defined.
Record TypingPush := mkTypingPush {
  typing_push_typer : string;
  typing_push_dest : string;
  typing_push_kind : Z;
  typing_push_active : bool;
  typing_push_phase : Z
}.
#[export] Instance TypingPush_eq_dec : EqDecision TypingPush.
Proof. solve_decision. Defined.
#[export] Instance TypingPush_countable : Countable TypingPush.
Proof. by refine (inj_countable' (fun '(mkTypingPush x0 x1 x2 x3 x4) => (x0, x1, x2, x3, x4))
  (fun '(x0, x1, x2, x3, x4) => mkTypingPush x0 x1 x2 x3 x4) _); intros []. Defined.
Record ReadReceiptPush := mkReadReceiptPush {
  read_receipt_push_reader : string;
  read_receipt_push_dest : string;
  read_receipt_push_kind : Z;
  read_receipt_push_message_id : Z
}.
#[export] Instance ReadReceiptPush_eq_dec : EqDecision ReadReceiptPush.
Proof. solve_decision. Defined.
#[export] Instance ReadReceiptPush_countable : Countable ReadReceiptPush.
Proof. by refine (inj_countable' (fun '(mkReadReceiptPush x0 x1 x2 x3) => (x0, x1, x2, x3))
  (fun '(x0, x1, x2, x3) => mkReadReceiptPush x0 x1 x2 x3) _); intros []. Defined.
Record FriendRequestNotify := mkFriendRequestNotify {
  friend_request_notify_from_account : string;
  friend_request_notify_from_nickname : string
}.
#[export] Instance FriendRequestNotify_eq_dec : EqDecision FriendRequestNotify.
Proof. solve_decision. Defined.
#[export] Instance FriendRequestNotify_countable : Countable FriendRequestNotify.
Proof. by refine (inj_countable' (fun '(mkFriendRequestNotify x0 x1) => (x0, x1))
  (fun '(x0, x1) => mkFriendRequestNotify x0 x1) _); intros []. Defined.
Record PbBotConfig := mkPbBotConfig {
  pb_bot_config_model : string;
  pb_bot_config_thinking_effort : string;
  pb_bot_config_context_tokens : option Z;
  pb_bot_config_visibility : string
}.
#[export] Instance PbBotConfig_eq_dec : EqDecision PbBotConfig.
Proof. solve_decision. Defined.
#[export] Instance PbBotConfig_countable : Countable PbBotConfig.
Proof. by refine (inj_countable' (fun '(mkPbBotConfig x0 x1 x2 x3) => (x0, x1, x2, x3))
  (fun '(x0, x1, x2, x3) => mkPbBotConfig x0 x1 x2 x3) _); intros []. Defined.
Record BotCreateReq := mkBotCreateReq {
  bot_create_req_client_profile_id : string;
  bot_create_req_nickname : string;
  bot_create_req_avatar : string;
  bot_create_req_bio : string;
  bot_create_req_model : string;
  bot_create_req_thinking_effort : string;
  bot_create_req_context_tokens : option Z;
  bot_create_req_visibility : string
}.
#[export] Instance BotCreateReq_eq_dec : EqDecision BotCreateReq.
Proof. solve_decision. Defined.
#[export] Instance BotCreateReq_countable : Countable BotCreateReq.
Proof. by refine (inj_countable' (fun '(mkBotCreateReq x0 x1 x2 x3 x4 x5 x6 x7) => (x0, x1, x2, x3, x4, x5, x6, x7))
  (fun '(x0, x1, x2, x3, x4, x5, x6, x7) => mkBotCreateReq x0 x1 x2 x3 x4 x5 x6 x7) _); intros []. Defined.
Record BotCreateResp := mkBotCreateResp {
  bot_create_resp_profile : option PbUserProfile;
  bot_create_resp_config : option PbBotConfig
}.
#[export] Instance BotCreateResp_eq_dec : EqDecision BotCreateResp.
Proof. solve_decision. Defined.
#[export] Instance BotCreateResp_countable : Countable BotCreateResp.
Proof. by refine (inj_countable' (fun '(mkBotCreateResp x0 x1) => (x0, x1))
  (fun '(x0, x1) => mkBotCreateResp x0 x1) _); intros []. Defined.
Record BotUpdateReq := mkBotUpdateReq {
  bot_update_req_nickname : string;
  bot_update_req_avatar : string;
  bot_update_req_bio : string;
  bot_update_req_model : string;
  bot_update_req_thinking_effort : string;
  bot_update_req_context_tokens : option Z;
  bot_update_req_visibility : string
}.
#[export] Instance BotUpdateReq_eq_dec : EqDecision BotUpdateReq.
Proof. solve_decision. Defined.
#[export] Instance BotUpdateReq_countable : Countable BotUpdateReq.
Proof. by refine (inj_countable' (fun '(mkBotUpdateReq x0 x1 x2 x3 x4 x5 x6) => (x0, x1, x2, x3, x4, x5, x6))
  (fun '(x0, x1, x2, x3, x4, x5, x6) => mkBotUpdateReq x0 x1 x2 x3 x4 x5 x6) _); intros []. Defined.
Record BotReplyReq := mkBotReplyReq {
  bot_reply_req_message : option MessageReq;
  bot_reply_req_in_reply_to : Z
}.
#[export] Instance BotReplyReq_eq_dec : EqDecision BotReplyReq.
Proof. solve_decision. Defined.
#[export] Instance BotReplyReq_countable : Countable BotReplyReq.
Proof. by refine (inj_countable' (fun '(mkBotReplyReq x0 x1) => (x0, x1))
  (fun '(x0, x1) => mkBotReplyReq x0 x1) _); intros []. Defined.
Record PbBotPendingItem := mkPbBotPendingItem {
  pb_bot_pending_item_message_id : Z;
  pb_bot_pending_item_body : string;
  pb_bot_pending_item_send_time : Z
}.
#[export] Instance PbBotPendingItem_eq_dec : EqDecision PbBotPendingItem.
Proof. solve_decision. Defined.
#[export] Instance PbBotPendingItem_countable : Countable PbBotPendingItem.
Proof. by refine (inj_countable' (fun '(mkPbBotPendingItem x0 x1 x2) => (x0, x1, x2))
  (fun '(x0, x1, x2) => mkPbBotPendingItem x0 x1 x2) _); intros []. Defined.
Record BotPendingResp := mkBotPendingResp {
  bot_pending_resp_items : list PbBotPendingItem
}.
#[export] Instance BotPendingResp_eq_dec : EqDecision BotPendingResp.
Proof. solve_decision. Defined.
#[export] Instance BotPendingResp_countable : Countable BotPendingResp.
Proof. by refine (inj_countable' (fun '(mkBotPendingResp x0) => x0)
  mkBotPendingResp _); intros []. Defined.
Record InboxReq := mkInboxReq {
  inbox_req_limit : Z
}.
#[export] Instance InboxReq_eq_dec : EqDecision InboxReq.
Proof. solve_decision. Defined.
#[export] Instance InboxReq_countable : Countable InboxReq.
Proof. by refine (inj_countable' (fun '(mkInboxReq x0) => x0)
  mkInboxReq _); intros []. Defined.
Record PbConversationReadState := mkPbConversationReadState {
  pb_conversation_read_state_dest : string;
  pb_conversation_read_state_kind : Z;
  pb_conversation_read_state_last_read_message_id : Z;
  pb_conversation_read_state_max_message_id : Z;
  pb_conversation_read_state_unread : Z;
  pb_conversation_read_state_version : Z;
  pb_conversation_read_state_exists : bool
}.
#[export] Instance PbConversationReadState_eq_dec : EqDecision PbConversationReadState.
Proof. solve_decision. Defined.
#[export] Instance PbConversationReadState_countable : Countable PbConversationReadState.
Proof. by refine (inj_countable' (fun '(mkPbConversationReadState x0 x1 x2 x3 x4 x5 x6) => (x0, x1, x2, x3, x4, x5, x6))
  (fun '(x0, x1, x2, x3, x4, x5, x6) => mkPbConversationReadState x0 x1 x2 x3 x4 x5 x6) _); intros []. Defined.
Record PbInboxItem := mkPbInboxItem {
  pb_inbox_item_dest : string;
  pb_inbox_item_kind : Z;
  pb_inbox_item_title : string;
  pb_inbox_item_avatar : string;
  pb_inbox_item_last_body : string;
  pb_inbox_item_last_sender : string;
  pb_inbox_item_last_message_id : Z;
  pb_inbox_item_last_send_time : Z;
  pb_inbox_item_unread : Z;
  pb_inbox_item_read_state : option PbConversationReadState
}.
#[export] Instance PbInboxItem_eq_dec : EqDecision PbInboxItem.
Proof. solve_decision. Defined.
#[export] Instance PbInboxItem_countable : Countable PbInboxItem.
Proof. by refine (inj_countable' (fun '(mkPbInboxItem x0 x1 x2 x3 x4 x5 x6 x7 x8 x9) => (x0, x1, x2, x3, x4, x5, x6, x7, x8, x9))
  (fun '(x0, x1, x2, x3, x4, x5, x6, x7, x8, x9) => mkPbInboxItem x0 x1 x2 x3 x4 x5 x6 x7 x8 x9) _); intros []. Defined.
Record InboxResp := mkInboxResp {
  inbox_resp_items : list PbInboxItem
}.
#[export] Instance InboxResp_eq_dec : EqDecision InboxResp.
Proof. solve_decision. Defined.
#[export] Instance InboxResp_countable : Countable InboxResp.
Proof. by refine (inj_countable' (fun '(mkInboxResp x0) => x0)
  mkInboxResp _); intros []. Defined.
Record HistoryReq := mkHistoryReq {
  history_req_before_id : Z;
  history_req_limit : Z;
  history_req_kind : Z
}.
#[export] Instance HistoryReq_eq_dec : EqDecision HistoryReq.
Proof. solve_decision. Defined.
#[export] Instance HistoryReq_countable : Countable HistoryReq.
Proof. by refine (inj_countable' (fun '(mkHistoryReq x0 x1 x2) => (x0, x1, x2))
  (fun '(x0, x1, x2) => mkHistoryReq x0 x1 x2) _); intros []. Defined.
Record PbHistoryItem := mkPbHistoryItem {
  pb_history_item_message_id : Z;
  pb_history_item_type : Z;
  pb_history_item_body : string;
  pb_history_item_extra : string;
  pb_history_item_sender : string;
  pb_history_item_send_time : Z;
  pb_history_item_direction : Z
}.
#[export] Instance PbHistoryItem_eq_dec : EqDecision PbHistoryItem.
Proof. solve_decision. Defined.
#[export] Instance PbHistoryItem_countable : Countable PbHistoryItem.
Proof. by refine (inj_countable' (fun '(mkPbHistoryItem x0 x1 x2 x3 x4 x5 x6) => (x0, x1, x2, x3, x4, x5, x6))
  (fun '(x0, x1, x2, x3, x4, x5, x6) => mkPbHistoryItem x0 x1 x2 x3 x4 x5 x6) _); intros []. Defined.
Record HistoryResp := mkHistoryResp {
  history_resp_messages : list PbHistoryItem
}.
#[export] Instance HistoryResp_eq_dec : EqDecision HistoryResp.
Proof. solve_decision. Defined.
#[export] Instance HistoryResp_countable : Countable HistoryResp.
Proof. by refine (inj_countable' (fun '(mkHistoryResp x0) => x0)
  mkHistoryResp _); intros []. Defined.
Record ConversationReadReq := mkConversationReadReq {
  conversation_read_req_message_id : Z;
  conversation_read_req_kind : Z
}.
#[export] Instance ConversationReadReq_eq_dec : EqDecision ConversationReadReq.
Proof. solve_decision. Defined.
#[export] Instance ConversationReadReq_countable : Countable ConversationReadReq.
Proof. by refine (inj_countable' (fun '(mkConversationReadReq x0 x1) => (x0, x1))
  (fun '(x0, x1) => mkConversationReadReq x0 x1) _); intros []. Defined.
Record PbConversationStateKey := mkPbConversationStateKey {
  pb_conversation_state_key_dest : string;
  pb_conversation_state_key_kind : Z
}.
#[export] Instance PbConversationStateKey_eq_dec : EqDecision PbConversationStateKey.
Proof. solve_decision. Defined.
#[export] Instance PbConversationStateKey_countable : Countable PbConversationStateKey.
Proof. by refine (inj_countable' (fun '(mkPbConversationStateKey x0 x1) => (x0, x1))
  (fun '(x0, x1) => mkPbConversationStateKey x0 x1) _); intros []. Defined.
Record ConversationStatesReq := mkConversationStatesReq {
  conversation_states_req_conversations : list PbConversationStateKey
}.
#[export] Instance ConversationStatesReq_eq_dec : EqDecision ConversationStatesReq.
Proof. solve_decision. Defined.
#[export] Instance ConversationStatesReq_countable : Countable ConversationStatesReq.
Proof. by refine (inj_countable' (fun '(mkConversationStatesReq x0) => x0)
  mkConversationStatesReq _); intros []. Defined.
Record ConversationStatesResp := mkConversationStatesResp {
  conversation_states_resp_states : list PbConversationReadState
}.
#[export] Instance ConversationStatesResp_eq_dec : EqDecision ConversationStatesResp.
Proof. solve_decision. Defined.
#[export] Instance ConversationStatesResp_countable : Countable ConversationStatesResp.
Proof. by refine (inj_countable' (fun '(mkConversationStatesResp x0) => x0)
  mkConversationStatesResp _); intros []. Defined.
Record ConversationReadSyncPush := mkConversationReadSyncPush {
  conversation_read_sync_push_account : string;
  conversation_read_sync_push_state : option PbConversationReadState
}.
#[export] Instance ConversationReadSyncPush_eq_dec : EqDecision ConversationReadSyncPush.
Proof. solve_decision. Defined.
#[export] Instance ConversationReadSyncPush_countable : Countable ConversationReadSyncPush.
Proof. by refine (inj_countable' (fun '(mkConversationReadSyncPush x0 x1) => (x0, x1))
  (fun '(x0, x1) => mkConversationReadSyncPush x0 x1) _); intros []. Defined.
Record PbAgentSpecRecord := mkPbAgentSpecRecord {
  pb_agent_spec_record_profile_id : string;
  pb_agent_spec_record_nickname : string;
  pb_agent_spec_record_server_account : string;
  pb_agent_spec_record_spec : bytes;
  pb_agent_spec_record_key_ciphertext : bytes;
  pb_agent_spec_record_updated_at : Z;
  pb_agent_spec_record_deleted_at : Z
}.
#[export] Instance PbAgentSpecRecord_eq_dec : EqDecision PbAgentSpecRecord.
Proof. solve_decision. Defined.
#[export] Instance PbAgentSpecRecord_countable : Countable PbAgentSpecRecord.
Proof. by refine (inj_countable' (fun '(mkPbAgentSpecRecord x0 x1 x2 x3 x4 x5 x6) => (x0, x1, x2, x3, x4, x5, x6))
  (fun '(x0, x1, x2, x3, x4, x5, x6) => mkPbAgentSpecRecord x0 x1 x2 x3 x4 x5 x6) _); intros []. Defined.
Record PbAgentProviderAccount := mkPbAgentProviderAccount {
  pb_agent_provider_account_id : string;
  pb_agent_provider_account_vendor_id : string;
  pb_agent_provider_account_base_url : string;
  pb_agent_provider_account_key_ref : string;
  pb_agent_provider_account_display_name : string;
  pb_agent_provider_account_models : list string;
  pb_agent_provider_account_updated_at : Z;
  pb_agent_provider_account_deleted_at : Z
}.
#[export] Instance PbAgentProviderAccount_eq_dec : EqDecision PbAgentProviderAccount.
Proof. solve_decision. Defined.
#[export] Instance PbAgentProviderAccount_countable : Countable PbAgentProviderAccount.
Proof. by refine (inj_countable' (fun '(mkPbAgentProviderAccount x0 x1 x2 x3 x4 x5 x6 x7) => (x0, x1, x2, x3, x4, x5, x6, x7))
  (fun '(x0, x1, x2, x3, x4, x5, x6, x7) => mkPbAgentProviderAccount x0 x1 x2 x3 x4 x5 x6 x7) _); intros []. Defined.
Record AgentSpecSyncResp := mkAgentSpecSyncResp {
  agent_spec_sync_resp_records : list PbAgentSpecRecord;
  agent_spec_sync_resp_accounts : list PbAgentProviderAccount
}.
#[export] Instance AgentSpecSyncResp_eq_dec : EqDecision AgentSpecSyncResp.
Proof. solve_decision. Defined.
#[export] Instance AgentSpecSyncResp_countable : Countable AgentSpecSyncResp.
Proof. by refine (inj_countable' (fun '(mkAgentSpecSyncResp x0 x1) => (x0, x1))
  (fun '(x0, x1) => mkAgentSpecSyncResp x0 x1) _); intros []. Defined.
Record AgentSpecUpsertReq := mkAgentSpecUpsertReq {
  agent_spec_upsert_req_record : option PbAgentSpecRecord;
  agent_spec_upsert_req_account : option PbAgentProviderAccount
}.
#[export] Instance AgentSpecUpsertReq_eq_dec : EqDecision AgentSpecUpsertReq.
Proof. solve_decision. Defined.
#[export] Instance AgentSpecUpsertReq_countable : Countable AgentSpecUpsertReq.
Proof. by refine (inj_countable' (fun '(mkAgentSpecUpsertReq x0 x1) => (x0, x1))
  (fun '(x0, x1) => mkAgentSpecUpsertReq x0 x1) _); intros []. Defined.
Record AgentSpecUpsertResp := mkAgentSpecUpsertResp {
  agent_spec_upsert_resp_record : option PbAgentSpecRecord
}.
#[export] Instance AgentSpecUpsertResp_eq_dec : EqDecision AgentSpecUpsertResp.
Proof. solve_decision. Defined.
#[export] Instance AgentSpecUpsertResp_countable : Countable AgentSpecUpsertResp.
Proof. by refine (inj_countable' (fun '(mkAgentSpecUpsertResp x0) => x0)
  mkAgentSpecUpsertResp _); intros []. Defined.

(** ** The codec *)

Inductive wire_msg : Type -> Type :=
| w_Header : wire_msg Header
| w_LoginResp : wire_msg LoginResp
| w_MessageReq : wire_msg MessageReq
| w_MessageResp : wire_msg MessageResp
| w_MessagePush : wire_msg MessagePush
| w_MessageAckReq : wire_msg MessageAckReq
| w_MessageIndex : wire_msg MessageIndex
| w_PktMessage : wire_msg PktMessage
| w_MessageIndexReq : wire_msg MessageIndexReq
| w_MessageIndexResp : wire_msg MessageIndexResp
| w_MessageContentReq : wire_msg MessageContentReq
| w_MessageContentResp : wire_msg MessageContentResp
| w_Session : wire_msg Session
| w_KickoutNotify : wire_msg KickoutNotify
| w_LoginReq : wire_msg LoginReq
| w_AuthResp : wire_msg AuthResp
| w_GroupCreateReq : wire_msg GroupCreateReq
| w_GroupCreateResp : wire_msg GroupCreateResp
| w_GroupJoinReq : wire_msg GroupJoinReq
| w_GroupQuitReq : wire_msg GroupQuitReq
| w_GroupInviteReq : wire_msg GroupInviteReq
| w_GroupQueryReq : wire_msg GroupQueryReq
| w_GroupMembersResp : wire_msg GroupMembersResp
| w_GroupDetail : wire_msg GroupDetail
| w_GroupCreateNotify : wire_msg GroupCreateNotify
| w_PbUserProfile : wire_msg PbUserProfile
| w_UserProfileUpdate : wire_msg UserProfileUpdate
| w_UserSearchReq : wire_msg UserSearchReq
| w_UserSearchResp : wire_msg UserSearchResp
| w_UserListResp : wire_msg UserListResp
| w_Presence : wire_msg Presence
| w_RoomEnterReq : wire_msg RoomEnterReq
| w_RoomEnterResp : wire_msg RoomEnterResp
| w_RoomLeaveReq : wire_msg RoomLeaveReq
| w_PresencePush : wire_msg PresencePush
| w_TypingReq : wire_msg TypingReq
| w_TypingPush : wire_msg TypingPush
| w_ReadReceiptPush : wire_msg ReadReceiptPush
| w_FriendRequestNotify : wire_msg FriendRequestNotify
| w_PbBotConfig : wire_msg PbBotConfig
| w_BotCreateReq : wire_msg BotCreateReq
| w_BotCreateResp : wire_msg BotCreateResp
| w_BotUpdateReq : wire_msg BotUpdateReq
| w_BotReplyReq : wire_msg BotReplyReq
| w_PbBotPendingItem : wire_msg PbBotPendingItem
| w_BotPendingResp : wire_msg BotPendingResp
| w_InboxReq : wire_msg InboxReq
| w_PbConversationReadState : wire_msg PbConversationReadState
| w_PbInboxItem : wire_msg PbInboxItem
| w_InboxResp : wire_msg InboxResp
| w_HistoryReq : wire_msg HistoryReq
| w_PbHistoryItem : wire_msg PbHistoryItem
| w_HistoryResp : wire_msg HistoryResp
| w_ConversationReadReq : wire_msg ConversationReadReq
| w_PbConversationStateKey : wire_msg PbConversationStateKey
| w_ConversationStatesReq : wire_msg ConversationStatesReq
| w_ConversationStatesResp : wire_msg ConversationStatesResp
| w_ConversationReadSyncPush : wire_msg ConversationReadSyncPush
| w_PbAgentSpecRecord : wire_msg PbAgentSpecRecord
| w_PbAgentProviderAccount : wire_msg PbAgentProviderAccount
| w_AgentSpecSyncResp : wire_msg AgentSpecSyncResp
| w_AgentSpecUpsertReq : wire_msg AgentSpecUpsertReq
| w_AgentSpecUpsertResp : wire_msg AgentSpecUpsertResp.

Class WireMsg (T : Type) := wire_code : wire_msg T.
#[export] Instance wm_Header : WireMsg Header := w_Header.
#[export] Instance wm_LoginResp : WireMsg LoginResp := w_LoginResp.
#[export] Instance wm_MessageReq : WireMsg MessageReq := w_MessageReq.
#[export] Instance wm_MessageResp : WireMsg MessageResp := w_MessageResp.
#[export] Instance wm_MessagePush : WireMsg MessagePush := w_MessagePush.
#[export] Instance wm_MessageAckReq : WireMsg MessageAckReq := w_MessageAckReq.
#[export] Instance wm_MessageIndex : WireMsg MessageIndex := w_MessageIndex.
#[export] Instance wm_PktMessage : WireMsg PktMessage := w_PktMessage.
#[export] Instance wm_MessageIndexReq : WireMsg MessageIndexReq := w_MessageIndexReq.
#[export] Instance wm_MessageIndexResp : WireMsg MessageIndexResp := w_MessageIndexResp.
#[export] Instance wm_MessageContentReq : WireMsg MessageContentReq := w_MessageContentReq.
#[export] Instance wm_MessageContentResp : WireMsg MessageContentResp := w_MessageContentResp.
#[export] Instance wm_Session : WireMsg Session := w_Session.
#[export] Instance wm_KickoutNotify : WireMsg KickoutNotify := w_KickoutNotify.
#[export] Instance wm_LoginReq : WireMsg LoginReq := w_LoginReq.
#[export] Instance wm_AuthResp : WireMsg AuthResp := w_AuthResp.
#[export] Instance wm_GroupCreateReq : WireMsg GroupCreateReq := w_GroupCreateReq.
#[export] Instance wm_GroupCreateResp : WireMsg GroupCreateResp := w_GroupCreateResp.
#[export] Instance wm_GroupJoinReq : WireMsg GroupJoinReq := w_GroupJoinReq.
#[export] Instance wm_GroupQuitReq : WireMsg GroupQuitReq := w_GroupQuitReq.
#[export] Instance wm_GroupInviteReq : WireMsg GroupInviteReq := w_GroupInviteReq.
#[export] Instance wm_GroupQueryReq : WireMsg GroupQueryReq := w_GroupQueryReq.
#[export] Instance wm_GroupMembersResp : WireMsg GroupMembersResp := w_GroupMembersResp.
#[export] Instance wm_GroupDetail : WireMsg GroupDetail := w_GroupDetail.
#[export] Instance wm_GroupCreateNotify : WireMsg GroupCreateNotify := w_GroupCreateNotify.
#[export] Instance wm_PbUserProfile : WireMsg PbUserProfile := w_PbUserProfile.
#[export] Instance wm_UserProfileUpdate : WireMsg UserProfileUpdate := w_UserProfileUpdate.
#[export] Instance wm_UserSearchReq : WireMsg UserSearchReq := w_UserSearchReq.
#[export] Instance wm_UserSearchResp : WireMsg UserSearchResp := w_UserSearchResp.
#[export] Instance wm_UserListResp : WireMsg UserListResp := w_UserListResp.
#[export] Instance wm_Presence : WireMsg Presence := w_Presence.
#[export] Instance wm_RoomEnterReq : WireMsg RoomEnterReq := w_RoomEnterReq.
#[export] Instance wm_RoomEnterResp : WireMsg RoomEnterResp := w_RoomEnterResp.
#[export] Instance wm_RoomLeaveReq : WireMsg RoomLeaveReq := w_RoomLeaveReq.
#[export] Instance wm_PresencePush : WireMsg PresencePush := w_PresencePush.
#[export] Instance wm_TypingReq : WireMsg TypingReq := w_TypingReq.
#[export] Instance wm_TypingPush : WireMsg TypingPush := w_TypingPush.
#[export] Instance wm_ReadReceiptPush : WireMsg ReadReceiptPush := w_ReadReceiptPush.
#[export] Instance wm_FriendRequestNotify : WireMsg FriendRequestNotify := w_FriendRequestNotify.
#[export] Instance wm_PbBotConfig : WireMsg PbBotConfig := w_PbBotConfig.
#[export] Instance wm_BotCreateReq : WireMsg BotCreateReq := w_BotCreateReq.
#[export] Instance wm_BotCreateResp : WireMsg BotCreateResp := w_BotCreateResp.
#[export] Instance wm_BotUpdateReq : WireMsg BotUpdateReq := w_BotUpdateReq.
#[export] Instance wm_BotReplyReq : WireMsg BotReplyReq := w_BotReplyReq.
#[export] Instance wm_PbBotPendingItem : WireMsg PbBotPendingItem := w_PbBotPendingItem.
#[export] Instance wm_BotPendingResp : WireMsg BotPendingResp := w_BotPendingResp.
#[export] Instance wm_InboxReq : WireMsg InboxReq := w_InboxReq.
#[export] Instance wm_PbConversationReadState : WireMsg PbConversationReadState := w_PbConversationReadState.
#[export] Instance wm_PbInboxItem : WireMsg PbInboxItem := w_PbInboxItem.
#[export] Instance wm_InboxResp : WireMsg InboxResp := w_InboxResp.
#[export] Instance wm_HistoryReq : WireMsg HistoryReq := w_HistoryReq.
#[export] Instance wm_PbHistoryItem : WireMsg PbHistoryItem := w_PbHistoryItem.
#[export] Instance wm_HistoryResp : WireMsg HistoryResp := w_HistoryResp.
#[export] Instance wm_ConversationReadReq : WireMsg ConversationReadReq := w_ConversationReadReq.
#[export] Instance wm_PbConversationStateKey : WireMsg PbConversationStateKey := w_PbConversationStateKey.
#[export] Instance wm_ConversationStatesReq : WireMsg ConversationStatesReq := w_ConversationStatesReq.
#[export] Instance wm_ConversationStatesResp : WireMsg ConversationStatesResp := w_ConversationStatesResp.
#[export] Instance wm_ConversationReadSyncPush : WireMsg ConversationReadSyncPush := w_ConversationReadSyncPush.
#[export] Instance wm_PbAgentSpecRecord : WireMsg PbAgentSpecRecord := w_PbAgentSpecRecord.
#[export] Instance wm_PbAgentProviderAccount : WireMsg PbAgentProviderAccount := w_PbAgentProviderAccount.
#[export] Instance wm_AgentSpecSyncResp : WireMsg AgentSpecSyncResp := w_AgentSpecSyncResp.
#[export] Instance wm_AgentSpecUpsertReq : WireMsg AgentSpecUpsertReq := w_AgentSpecUpsertReq.
#[export] Instance wm_AgentSpecUpsertResp : WireMsg AgentSpecUpsertResp := w_AgentSpecUpsertResp.

Class Prost := prost : forall T : Type, wire_msg T -> Message T.
#[export] Instance prost_message {T} `{Prost} `{WireMsg T} : Message T := prost T wire_code.

Class ProstOk `{Prost} := prost_ok : forall (T : Type) (w : wire_msg T), @MessageOk T (prost T w).
#[export] Instance prost_message_ok {T} `{ProstOk} `{WireMsg T} : MessageOk T := prost_ok T wire_code.

(** A session as bytes, for the concrete codec: its fields one after the other, each
    byte marked by a one and each field ended by a zero. *)
Definition put_field (s : string) : bytes := flat_map (fun b => [Byte.x01; b]) (bytes_of s) ++ [Byte.x00].
Fixpoint get_fields (acc l : bytes) : list string :=
  match l with
  | Byte.x00 :: l => string_of_bytes acc :: get_fields [] l
  | Byte.x01 :: b :: l => get_fields (acc ++ [b]) l
  | _ => []
  end.

Lemma get_put_field s l : get_fields [] (put_field s ++ l) = s :: get_fields [] l.
Proof.
  unfold put_field. rewrite <- app_assoc.
  assert (Hg : forall b acc, get_fields acc (flat_map (fun b => [Byte.x01; b]) b ++ [Byte.x00] ++ l)
    = string_of_bytes (acc ++ b) :: get_fields [] l).
  { induction b as [|x b IH]; intros acc; [by rewrite app_nil_r|]. cbn. rewrite IH, <- app_assoc. done. }
  rewrite Hg. f_equal. apply string_of_bytes_of.
Qed.

Lemma get_put_fields l : get_fields [] (flat_map put_field l) = l.
Proof. induction l as [|s l IH]; [done|]. cbn [flat_map]. by rewrite get_put_field, IH. Qed.

Definition session_message : Message Session := {|
  encode_to_vec '(mkSession x0 x1 x2 x3 x4 x5 x6 x7 x8 x9 x10) :=
    flat_map put_field (x0 :: x1 :: x2 :: x3 :: x4 :: x5 :: x6 :: x7 :: x9 :: x10 :: x8);
  decode_msg l :=
    match get_fields [] l with
    | x0 :: x1 :: x2 :: x3 :: x4 :: x5 :: x6 :: x7 :: x9 :: x10 :: x8 => Some (mkSession x0 x1 x2 x3 x4 x5 x6 x7 x8 x9 x10)
    | _ => None
    end
|}.
Lemma session_message_ok : @MessageOk Session session_message.
Proof. intros []. cbn [decode_msg encode_to_vec session_message]. by rewrite get_put_fields. Qed.

(** Headers the same way, their numbers in one field. *)
Abbreviation header_numbers := (Z * Z * Z * Z)%type.
Definition put_numbers (n : header_numbers) : string := string_of_bytes (@encode_to_vec _ countable_message n).
Definition get_numbers (s : string) : option header_numbers := @decode_msg _ countable_message (bytes_of s).
Fixpoint get_metas (l : list string) : option (list Meta) :=
  match l with
  | [] => Some []
  | k :: v :: l => metas ← get_metas l; Some (mkMeta k v :: metas)
  | _ => None
  end.
Definition header_message : Message Header := {|
  encode_to_vec '(mkHeader command channel sequence flag status dest length metas) :=
    flat_map put_field (command :: channel :: dest :: put_numbers (sequence, flag, status, length)
      :: flat_map (fun m => [meta_key m; meta_value m]) metas);
  decode_msg l :=
    match get_fields [] l with
    | command :: channel :: dest :: numbers :: metas =>
      n ← get_numbers numbers; metas ← get_metas metas;
      let '(sequence, flag, status, length) := (n : header_numbers) in
      Some (mkHeader command channel sequence flag status dest length metas)
    | _ => None
    end
|}.

Lemma get_put_metas metas : get_metas (flat_map (fun m => [meta_key m; meta_value m]) metas) = Some metas.
Proof. induction metas as [|[k v] metas IH]; [done|]. cbn. by rewrite IH. Qed.

Lemma header_message_ok : @MessageOk Header header_message.
Proof.
  intros [command channel sequence flag status dest length metas]. cbn [decode_msg encode_to_vec header_message].
  rewrite get_put_fields. unfold get_numbers, put_numbers. rewrite bytes_of_string_of.
  rewrite (@decode_encode_msg _ _ countable_message_ok). cbn [mbind option_bind]. by rewrite get_put_metas.
Qed.

Definition demo_prost : Prost := fun T w =>
  match w in wire_msg T return Message T with
  | w_Header => header_message
  | w_LoginResp => countable_message
  | w_MessageReq => countable_message
  | w_MessageResp => countable_message
  | w_MessagePush => countable_message
  | w_MessageAckReq => countable_message
  | w_MessageIndex => countable_message
  | w_PktMessage => countable_message
  | w_MessageIndexReq => countable_message
  | w_MessageIndexResp => countable_message
  | w_MessageContentReq => countable_message
  | w_MessageContentResp => countable_message
  | w_Session => session_message
  | w_KickoutNotify => countable_message
  | w_LoginReq => countable_message
  | w_AuthResp => countable_message
  | w_GroupCreateReq => countable_message
  | w_GroupCreateResp => countable_message
  | w_GroupJoinReq => countable_message
  | w_GroupQuitReq => countable_message
  | w_GroupInviteReq => countable_message
  | w_GroupQueryReq => countable_message
  | w_GroupMembersResp => countable_message
  | w_GroupDetail => countable_message
  | w_GroupCreateNotify => countable_message
  | w_PbUserProfile => countable_message
  | w_UserProfileUpdate => countable_message
  | w_UserSearchReq => countable_message
  | w_UserSearchResp => countable_message
  | w_UserListResp => countable_message
  | w_Presence => countable_message
  | w_RoomEnterReq => countable_message
  | w_RoomEnterResp => countable_message
  | w_RoomLeaveReq => countable_message
  | w_PresencePush => countable_message
  | w_TypingReq => countable_message
  | w_TypingPush => countable_message
  | w_ReadReceiptPush => countable_message
  | w_FriendRequestNotify => countable_message
  | w_PbBotConfig => countable_message
  | w_BotCreateReq => countable_message
  | w_BotCreateResp => countable_message
  | w_BotUpdateReq => countable_message
  | w_BotReplyReq => countable_message
  | w_PbBotPendingItem => countable_message
  | w_BotPendingResp => countable_message
  | w_InboxReq => countable_message
  | w_PbConversationReadState => countable_message
  | w_PbInboxItem => countable_message
  | w_InboxResp => countable_message
  | w_HistoryReq => countable_message
  | w_PbHistoryItem => countable_message
  | w_HistoryResp => countable_message
  | w_ConversationReadReq => countable_message
  | w_PbConversationStateKey => countable_message
  | w_ConversationStatesReq => countable_message
  | w_ConversationStatesResp => countable_message
  | w_ConversationReadSyncPush => countable_message
  | w_PbAgentSpecRecord => countable_message
  | w_PbAgentProviderAccount => countable_message
  | w_AgentSpecSyncResp => countable_message
  | w_AgentSpecUpsertReq => countable_message
  | w_AgentSpecUpsertResp => countable_message
  end.
Lemma demo_prost_ok : @ProstOk demo_prost.
Proof. intros T w. destruct w; first [apply header_message_ok | apply session_message_ok | apply countable_message_ok]. Qed.

(** ** Reading what was written *)

Section bodies.
Context `{ProstOk}.

Lemma read_write_body {T} `{WireMsg T} (p : LogicPkt) (m : T) : read_body (write_body p m) = Ok m.
Proof. unfold read_body, write_body. cbn [l_body]. by rewrite decode_encode_msg. Qed.
End bodies.
