(* ===== verification/TcpCodec.v ===== *)
(** The TCP byte stream of [crates/kim-tcp/src]: opcodes and frames
    (crates/kim-core/src/opcode.rs, frame.rs), the length-prefixed codec
    (codec.rs) and the read loop of a connection (conn.rs).  A stream is the list
    of the results of its reads; after the list every read reports the end of the
    stream.  The theorems say that the codec accepts exactly its own encodings
    within the size cap, and that the frames read do not depend on how the bytes
    were cut into reads. *)

From S2P Require Import Prelude.
Open Scope Z_scope.
Open Scope kim_scope.

Inductive OpCode : Type := Continuation | Text | Binary | Close | Ping | Pong.
#[export] Instance OpCode_eq_dec : EqDecision OpCode.
Proof. solve_decision. Defined.

Definition OpCode_from_u8 (n : Z) : option OpCode :=
  if n =? 0 then Some Continuation
  else if n =? 1 then Some Text
  else if n =? 2 then Some Binary
  else if n =? 8 then Some Close
  else if n =? 9 then Some Ping
  else if n =? 10 then Some Pong
  else None.

Definition OpCode_to_u8 (o : OpCode) : Z :=
  match o with Continuation => 0 | Text => 1 | Binary => 2 | Close => 8 | Ping => 9 | Pong => 10 end.

Record Frame := mkFrame { f_opcode : OpCode; f_payload : bytes }.
Definition Frame_new (o : OpCode) (p : bytes) : Frame := mkFrame o p.
Definition Frame_binary (p : bytes) : Frame := Frame_new Binary p.
Definition Frame_ping : Frame := Frame_new Ping [].
Definition Frame_pong : Frame := Frame_new Pong [].
Definition Frame_close (reason : bytes) : Frame := Frame_new Close reason.

(** The errors of a connection ([kim_core::Error]) that the codec can raise. *)
Inductive Error : Type :=
| FrameTooLarge (size max : Z)
| UnknownOpcode (raw : Z)
| Closed
| Io.

Definition HEADER_LEN : Z := 5.
Definition MAX_PAYLOAD : Z := 1024 * 1024.

Definition encode_frame (opcode : OpCode) (payload : bytes) : bytes :=
  u8_of_Z (OpCode_to_u8 opcode) :: le32 (wrap32 (len payload)) ++ payload.

Definition header_bytes (opcode : OpCode) (payload_len : Z) : bytes :=
  u8_of_Z (OpCode_to_u8 opcode) :: le32 (wrap32 payload_len).

(** [decode_frame] advances the buffer only when a whole frame is there; a bad
    opcode is found after its byte was taken. *)
Definition decode_frame (buf : bytes) : bytes * result (option Frame) Error :=
  match buf with
  | op :: l0 :: l1 :: l2 :: l3 :: rest =>
    let length := from_le32 l0 l1 l2 l3 in
    if MAX_PAYLOAD <? length then (buf, Err (FrameTooLarge length MAX_PAYLOAD))
    else if len buf <? HEADER_LEN + length then (buf, Ok None)
    else match OpCode_from_u8 (u8_to_Z op) with
    | None => (l0 :: l1 :: l2 :: l3 :: rest, Err (UnknownOpcode (u8_to_Z op)))
    | Some opcode =>
      (drop (Z.to_nat length) rest, Ok (Some (mkFrame opcode (take (Z.to_nat length) rest))))
    end
  | _ => (buf, Ok None)
  end.

(** One [read_buf] of the stream: an error, or the bytes appended ([n = 0] at the
    end of the stream). *)
Inductive Read : Type := ReadErr | ReadBytes (chunk : bytes).

Record TcpConn := mkTcpConn { c_stream : list Read; c_read_buf : bytes }.

Fixpoint fill_and_decode (stream : list Read) (buf : bytes) : TcpConn * result Frame Error :=
  match decode_frame buf with
  | (buf', Err e) => (mkTcpConn stream buf', Err e)
  | (buf', Ok (Some f)) => (mkTcpConn stream buf', Ok f)
  | (buf', Ok None) =>
    match stream with
    | [] => (mkTcpConn [] buf', Err Closed)
    | ReadErr :: stream' => (mkTcpConn stream' buf', Err Io)
    | ReadBytes [] :: stream' => (mkTcpConn stream' buf', Err Closed)
    | ReadBytes chunk :: stream' => fill_and_decode stream' (buf' ++ chunk)
    end
  end.

Definition read_frame (c : TcpConn) : TcpConn * result Frame Error :=
  fill_and_decode (c_stream c) (c_read_buf c).

Definition write_frame_parts (opcode : OpCode) (payload : bytes) : bytes :=
  header_bytes opcode (len payload) ++ payload.

(** Reading frames until the first error, at most [n] of them. *)
Fixpoint read_frames (n : nat) (c : TcpConn) : list Frame * result TcpConn Error :=
  match n with
  | O => ([], Ok c)
  | S n' =>
    match read_frame c with
    | (c', Ok f) => let '(fs, r) := read_frames n' c' in (f :: fs, r)
    | (_, Err e) => ([], Err e)
    end
  end.

Definition encode_all (fs : list Frame) : bytes :=
  concat ((fun f => encode_frame (f_opcode f) (f_payload f)) <$> fs).
Definition frame_ok (f : Frame) : Prop := len (f_payload f) <= MAX_PAYLOAD.
Definition delivered (reads : list bytes) : bytes := concat reads.

(** ** Lemmas *)

Lemma OpCode_from_to o : OpCode_from_u8 (OpCode_to_u8 o) = Some o.
Proof. by destruct o. Qed.

Lemma OpCode_from_Some n o : OpCode_from_u8 n = Some o -> OpCode_to_u8 o = n.
Proof. unfold OpCode_from_u8. repeat case_match; intros [=]; subst; simpl; blia. Qed.

Lemma u8_of_opcode o : u8_to_Z (u8_of_Z (OpCode_to_u8 o)) = OpCode_to_u8 o.
Proof. rewrite u8_to_of_Z. by destruct o. Qed.

Lemma from_le32_inj a b c d z : from_le32 a b c d = z -> [a; b; c; d] = le32 z.
Proof.
  intros <-. unfold le32, from_le32.
  pose proof (u8_to_Z_range a). pose proof (u8_to_Z_range b).
  pose proof (u8_to_Z_range c). pose proof (u8_to_Z_range d).
  assert (forall x y, u8_to_Z y = x mod 256 -> u8_of_Z x = y) as Hu.
  { intros x y E. rewrite <- (u8_of_to_Z (u8_of_Z x)), u8_to_of_Z, <- E. apply u8_of_to_Z. }
  f_equal; [|f_equal; [|f_equal; [|f_equal]]]; symmetry; apply Hu.
  - rewrite <- (Z.mod_small (u8_to_Z a) 256) at 1 by lia. Z.div_mod_to_equations; lia.
  - Z.div_mod_to_equations; lia.
  - Z.div_mod_to_equations; lia.
  - Z.div_mod_to_equations; lia.
Qed.

Lemma write_frame_parts_encode o p : write_frame_parts o p = encode_frame o p.
Proof. done. Qed.

Section decode.
Implicit Types (f : Frame) (buf rest : bytes).

Definition enc f : bytes := encode_frame (f_opcode f) (f_payload f).

Lemma len_enc f : frame_ok f -> len (enc f) = HEADER_LEN + len (f_payload f).
Proof.
  unfold enc, encode_frame, HEADER_LEN. intros. rewrite len_cons, len_app.
  change (len (le32 _)) with 4. lia.
Qed.

Lemma frame_ok_u32 f : frame_ok f -> wrap32 (len (f_payload f)) = len (f_payload f).
Proof.
  unfold frame_ok, MAX_PAYLOAD. intros. apply wrap32_id. unfold u32_max.
  pose proof (len_nonneg (f_payload f)). lia.
Qed.

Lemma decode_frame_enc f rest :
  frame_ok f -> decode_frame (enc f ++ rest) = (rest, Ok (Some f)).
Proof.
  intros Hf. unfold enc, encode_frame, le32, decode_frame. cbn [app].
  rewrite from_le32_le32, !frame_ok_u32 by done.
  unfold frame_ok in Hf. rewrite ltb_false by done.
  rewrite ltb_false by (rewrite !len_cons, len_app; unfold HEADER_LEN;
    pose proof (len_nonneg rest); lia).
  rewrite u8_of_opcode, OpCode_from_to, drop_len_app, take_len_app by done. by destruct f.
Qed.

(** A buffer that starts a frame without holding it whole leaves it there. *)
Lemma decode_frame_short f buf k :
  frame_ok f -> enc f = buf ++ k -> k <> [] -> decode_frame buf = (buf, Ok None).
Proof.
  intros Hf E Hk. unfold decode_frame.
  destruct buf as [|op [|l0 [|l1 [|l2 [|l3 rest]]]]]; try done.
  unfold enc, encode_frame, le32 in E. cbn [app] in E. injection E as <- <- <- <- <- Hrest.
  rewrite from_le32_le32, !frame_ok_u32 by done.
  unfold frame_ok in Hf. rewrite ltb_false by done.
  rewrite ltb_true; [done|]. rewrite Hrest, len_app, !len_cons.
  destruct k as [|? k]; [done|]. rewrite len_cons. pose proof (len_nonneg k).
  unfold HEADER_LEN. lia.
Qed.

Lemma decode_frame_Some_inv buf buf' f :
  decode_frame buf = (buf', Ok (Some f)) -> frame_ok f /\ buf = enc f ++ buf'.
Proof.
  unfold decode_frame.
  destruct buf as [|op [|l0 [|l1 [|l2 [|l3 rest]]]]]; try done.
  destruct (MAX_PAYLOAD <? from_le32 l0 l1 l2 l3) eqn:E1; [done|].
  destruct (len _ <? _) eqn:E2; [done|].
  destruct (OpCode_from_u8 _) as [o|] eqn:Eo; [|done].
  apply Z.ltb_ge in E1, E2. rewrite !len_cons in E2. unfold HEADER_LEN in E2.
  intros [= <- <-].
  pose proof (from_le32_range l0 l1 l2 l3) as Hr.
  assert (Hl : len (take (Z.to_nat (from_le32 l0 l1 l2 l3)) rest) = from_le32 l0 l1 l2 l3)
    by (rewrite len_take; lia).
  split; [unfold frame_ok; simpl; lia|].
  unfold enc, encode_frame. cbn [f_opcode f_payload]. rewrite Hl, wrap32_id by done.
  rewrite <- (from_le32_inj l0 l1 l2 l3 _ eq_refl). cbn [app].
  rewrite take_drop. f_equal.
  apply OpCode_from_Some in Eo. rewrite Eo. symmetry. apply u8_of_to_Z.
Qed.

Lemma decode_frame_None_id buf : (decode_frame buf).2 = Ok None -> decode_frame buf = (buf, Ok None).
Proof.
  unfold decode_frame. destruct buf as [|op [|l0 [|l1 [|l2 [|l3 rest]]]]]; try done.
  repeat case_match; simpl; congruence.
Qed.
End decode.

#[local] Arguments decode_frame : simpl never.
#[local] Arguments enc : simpl never.

(** The next frame of a stream that starts with an encoding. *)
Lemma fill_and_decode_frame (f : Frame) (chunks : list bytes) (buf rest : bytes) :
  frame_ok f -> Forall (fun c => c <> []) chunks ->
  buf ++ concat chunks = enc f ++ rest ->
  exists chunks' buf',
    fill_and_decode (map ReadBytes chunks) buf = (mkTcpConn (map ReadBytes chunks') buf', Ok f)
    /\ buf' ++ concat chunks' = rest /\ Forall (fun c => c <> []) chunks'.
Proof.
  intros Hf. revert buf; induction chunks as [|c chunks IH]; intros buf Hne E; cbn [map concat fill_and_decode] in *.
  - rewrite app_nil_r in E. subst.
    rewrite decode_frame_enc by done.
    exists [], rest. by rewrite app_nil_r.
  - inversion Hne as [|? ? Hc Hne']; subst.
    apply app_eq_inv in E as [(k & -> & E) | (k & E & Hk)].
    + rewrite decode_frame_enc by done. exists (c :: chunks), k. by rewrite E.
    + destruct k as [|b k].
      { rewrite app_nil_r in E. subst buf. simpl in Hk. rewrite <- (app_nil_r (enc f)).
        rewrite decode_frame_enc by done. exists (c :: chunks), []. split; [done|]. by split; [exact Hk|]. }
      rewrite (decode_frame_short f _ (b :: k)) by done.
      destruct c as [|c0 c]; [done|].
      apply (IH (buf ++ c0 :: c)); [done|]. by rewrite <- app_assoc, Hk, E, <- app_assoc.
Qed.

Lemma fill_and_decode_tail (chunks : list bytes) (buf tail : bytes) :
  (forall k, k `prefix_of` tail -> (decode_frame k).2 = Ok None) ->
  Forall (fun c => c <> []) chunks -> buf ++ concat chunks = tail ->
  (fill_and_decode (map ReadBytes chunks) buf).2 = Err Closed.
Proof.
  intros Htail. revert buf; induction chunks as [|c chunks IH]; intros buf Hne E; cbn [map concat fill_and_decode] in *.
  - rewrite app_nil_r in E. subst buf. pose proof (Htail tail ltac:(done)).
    destruct (decode_frame tail) as [? [[?|]|?]]; simplify_eq/=. done.
  - inversion Hne as [|? ? Hc Hne']; subst.
    pose proof (Htail buf ltac:(by eexists)) as Hb. pose proof (decode_frame_None_id buf Hb) as ->.
    destruct c as [|c0 c]; [done|]. apply IH; [done|]. by rewrite <- app_assoc.
Qed.

Lemma read_frames_app (fs : list Frame) (chunks : list bytes) (buf tail : bytes) :
  Forall frame_ok fs -> Forall (fun c => c <> []) chunks ->
  buf ++ concat chunks = encode_all fs ++ tail ->
  exists chunks' buf', Forall (fun c => c <> []) chunks' /\ buf' ++ concat chunks' = tail /\
    forall n, read_frames (length fs + n) (mkTcpConn (map ReadBytes chunks) buf) =
              let '(gs, r) := read_frames n (mkTcpConn (map ReadBytes chunks') buf') in (fs ++ gs, r).
Proof.
  revert chunks buf; induction fs as [|f fs IH]; intros chunks buf Hok Hne E; simpl in *.
  - exists chunks, buf. split_and!; [done..|]. intros n. by destruct (read_frames _ _).
  - inversion Hok as [|? ? Hf Hok']; subst. unfold encode_all in E. simpl in E. rewrite <- app_assoc in E.
    destruct (fill_and_decode_frame f chunks buf (encode_all fs ++ tail) Hf Hne E)
      as (chunks1 & buf1 & Hfill & E1 & Hne1).
    destruct (IH chunks1 buf1 Hok' Hne1 E1) as (chunks2 & buf2 & Hne2 & E2 & Hread).
    exists chunks2, buf2. split_and!; [done..|]. intros n. unfold read_frame. simpl.
    rewrite Hfill, Hread. by destruct (read_frames _ _).
Qed.

(** ** Properties *)

(** [decode_frame] accepts exactly the encodings of frames within the cap: it
    yields a frame and leaves [rest] if and only if the buffer was that frame's
    encoding followed by [rest]; so encoding round trips, and no two buffers give
    the same frame and remainder. *)
Theorem decode_frame_iff (buf rest : bytes) (f : Frame) :
  decode_frame buf = (rest, Ok (Some f)) <->
  len (f_payload f) <= MAX_PAYLOAD /\ buf = encode_frame (f_opcode f) (f_payload f) ++ rest.
Proof.
  split.
  - apply decode_frame_Some_inv.
  - intros [Hf ->]. by apply decode_frame_enc.
Qed.

(** (C20) Framing does not depend on segmentation: however the bytes of a sequence
    of frames, followed by the start of a further frame, are cut into reads, the
    connection yields exactly these frames in order and then reports the close.
    Nothing is lost, merged or invented at a read boundary. *)
Theorem read_frames_segmentation (fs : list Frame) (g : Frame) (cut : bytes) (chunks : list bytes)
  (Hfs : Forall frame_ok fs) (Hg : frame_ok g)
  (Hcut : exists k, k <> [] /\ encode_frame (f_opcode g) (f_payload g) = cut ++ k)
  (Hne : Forall (fun c => c <> []) chunks)
  (Hbytes : concat chunks = encode_all fs ++ cut) :
  forall n, (length fs < n)%nat ->
  read_frames n (mkTcpConn (map ReadBytes chunks) []) = (fs, Err Closed).
Proof.
  intros n Hn. destruct (read_frames_app fs chunks [] cut Hfs Hne Hbytes)
    as (chunks' & buf' & Hne' & E & Hread).
  replace n with (length fs + S (n - length fs - 1))%nat by lia. rewrite Hread. simpl.
  assert (Hcl : (read_frame (mkTcpConn (map ReadBytes chunks') buf')).2 = Err Closed).
  { unfold read_frame. simpl. apply fill_and_decode_tail with cut; [|done..].
    destruct Hcut as (k & Hk & Ecut). intros j [j' ->].
    rewrite (decode_frame_short g j (j' ++ k)); [done|done| |].
    - unfold enc. by rewrite Ecut, <- app_assoc.
    - destruct j'; [done|]. by destruct k. }
  destruct (read_frame _) as [c [?|?]]; simplify_eq/=. by rewrite app_nil_r.
Qed.

Lemma read_frames_segmentation_witness :
  read_frames 5 (mkTcpConn (map ReadBytes
    [take 3 (encode_frame Binary [Byte.x61; Byte.x62]);
     drop 3 (encode_frame Binary [Byte.x61; Byte.x62]) ++ take 2 (encode_frame Ping [])]) [])
  = ([mkFrame Binary [Byte.x61; Byte.x62]], Err Closed).
Proof.
  apply (read_frames_segmentation [mkFrame Binary [Byte.x61; Byte.x62]] (mkFrame Ping [])
           (take 2 (encode_frame Ping []))).
  - repeat constructor. unfold frame_ok. vm_compute. discriminate.
  - unfold frame_ok. vm_compute. discriminate.
  - exists (drop 2 (encode_frame Ping [])). split; [discriminate | reflexivity].
  - repeat constructor; discriminate.
  - reflexivity.
  - simpl. lia.
Defined.
