(* ===== verification/ClientWire.v ===== *)
(** The client's side of the wire: crates/kim-client/src events.rs, error.rs and
    wire.rs.  [encode_*] build the frames of the requests, [decode_event] turns a
    received frame into an event.  The client's own records are prefixed [Client]
    where the wire has a message of the same name. *)

From S2P Require Import Prelude Wire Pkt Msgs TcpCodec.
Open Scope Z_scope.
Open Scope kim_scope.

(** ** error.rs *)

Inductive ClientError : Type :=
| NotConnected | AlreadyConnected | NotLoggedIn
| HandshakeTimeout (after : Z) | Handshake (msg : string)
| StatusError (status : Z) | Protocol (e : ProtocolError)
| ClientUnauthorized | ClientInvalidToken | ClientInvalidAccount | InvalidPassword
| InsecureOrigin | PasswordSeal | Http (status : Z) (body : string)
| Core (e : Error) | Other (msg : string).

(** Login will not succeed with this token. *)
Definition is_fatal_auth (e : ClientError) : bool :=
  match e with ClientUnauthorized | ClientInvalidToken => true | _ => false end.

(** The [?] operator on a protocol error. *)
Definition lift {A} (r : result A ProtocolError) : result A ClientError :=
  match r with Ok a => Ok a | Err e => Err (Protocol e) end.

(** ** events.rs *)

Record TalkResult := mkTalkResult { tr_message_id : Z; tr_send_time : Z; tr_sequence : Z }.

Record ClientBotConfig := mkClientBotConfig {
  cbc_model : string;
  cbc_thinking_effort : string;
  cbc_context_tokens : option Z;
  cbc_visibility : string
}.

Record Profile := mkProfile {
  pr_account : string;
  pr_nickname : string;
  pr_avatar : string;
  pr_bio : string;
  pr_kind : Z
}.

Definition from_wire (account nickname avatar bio : string) (kind : Z) : Profile :=
  mkProfile account (if str_is_empty nickname then account else nickname) avatar bio (profile_kind kind).

Record ClientInboxItem := mkClientInboxItem {
  ci_dest : string;
  ci_kind : Z;
  ci_title : string;
  ci_avatar : string;
  ci_last_body : string;
  ci_last_sender : string;
  ci_last_message_id : Z;
  ci_last_send_time : Z;
  ci_unread : Z;
  ci_last_read_message_id : Z;
  ci_max_message_id : Z;
  ci_state_version : Z
}.

Record ClientReadState := mkClientReadState {
  cs_dest : string;
  cs_kind : Z;
  cs_last_read_message_id : Z;
  cs_max_message_id : Z;
  cs_unread : Z;
  cs_version : Z;
  cs_exists : bool
}.
Definition ClientReadState_default : ClientReadState := mkClientReadState "" 0 0 0 0 0 false.

Definition from_proto (p : PbConversationReadState) : ClientReadState :=
  mkClientReadState (pb_conversation_read_state_dest p) (pb_conversation_read_state_kind p)
    (pb_conversation_read_state_last_read_message_id p) (pb_conversation_read_state_max_message_id p)
    (pb_conversation_read_state_unread p) (pb_conversation_read_state_version p)
    (pb_conversation_read_state_exists p).

Definition from_inbox_item (i : ClientInboxItem) : ClientReadState :=
  mkClientReadState (ci_dest i) (ci_kind i) (ci_last_read_message_id i)
    (Z.max (ci_max_message_id i) (ci_last_message_id i)) (ci_unread i) (ci_state_version i) true.

Record ClientHistoryItem := mkClientHistoryItem {
  ch_message_id : Z;
  ch_msg_type : Z;
  ch_body : string;
  ch_extra : string;
  ch_sender : string;
  ch_send_time : Z;
  ch_direction : Z
}.

Record ClientIndex := mkClientIndex {
  cx_message_id : Z;
  cx_direction : Z;
  cx_send_time : Z;
  cx_account_b : string;
  cx_group : string
}.

Record ClientMessage := mkClientMessage {
  cm_message_id : Z;
  cm_msg_type : Z;
  cm_body : string;
  cm_extra : string
}.

Inductive OutgoingContent : Type :=
| OText (text : string)
| OImage (url extra : string)
| OVoice (url extra : string)
| OVideo (url extra : string).

Record PresenceEntry := mkPresenceEntry { pn_account : string; pn_status : Z; pn_last_seen : Z }.
Record ClientBotPending := mkClientBotPending { cp_message_id : Z; cp_body : string; cp_send_time : Z }.

Record ClientAgentSpec := mkClientAgentSpec {
  as_profile_id : string;
  as_nickname : string;
  as_server_account : string;
  as_spec : bytes;
  as_key_ciphertext : bytes;
  as_updated_at : Z;
  as_deleted_at : Z
}.

Record ClientAgentAccount := mkClientAgentAccount {
  aa_id : string;
  aa_vendor_id : string;
  aa_base_url : string;
  aa_key_ref : string;
  aa_display_name : string;
  aa_models : list string;
  aa_updated_at : Z;
  aa_deleted_at : Z
}.

Record IncomingTalk := mkIncomingTalk {
  it_command : string;
  it_dest : string;
  it_message_id : Z;
  it_sender : string;
  it_msg_type : Z;
  it_body : string;
  it_extra : string;
  it_send_time : Z
}.

Inductive ClientEvent : Type :=
| EvPong
| EvTalk (t : IncomingTalk)
| EvTalkResp (r : TalkResult)
| EvBotPending (sequence : Z) (items : list ClientBotPending)
| EvKickout (channel_id : string)
| EvTokenRenew (token : string) (exp : Z)
| EvGroupCreate (group_id : string) (members : list string)
| EvFriendRequest (from nickname : string)
| EvFriendAccepted (from nickname : string)
| EvProfileUpdated (profile : Profile)
| EvPresenceUpdated (account : string) (status last_seen : Z)
| EvTypingUpdated (typer dest : string) (kind : Z) (active : bool) (phase : Z)
| EvReceiptRead (reader dest : string) (kind message_id : Z)
| EvConversationRead (sequence : Z) (state : ClientReadState)
| EvConversationStates (sequence : Z) (states : list ClientReadState)
| EvConversationReadSync (account : string) (state : ClientReadState)
| EvRoomEnter (sequence : Z) (presence : list PresenceEntry)
| EvUserList (command : string) (sequence : Z) (users : list Profile)
| EvProfile (sequence : Z) (profile : Profile)
| EvInbox (sequence : Z) (items : list ClientInboxItem)
| EvHistory (sequence : Z) (dest : string) (messages : list ClientHistoryItem)
| EvOfflinePage (sequence : Z) (indexes : list ClientIndex) (has_more : bool)
| EvOfflineContent (sequence : Z) (messages : list ClientMessage)
| EvStatus (command : string) (status sequence : Z)
| EvAgentSpecSync (sequence : Z) (records : list ClientAgentSpec) (accounts : list ClientAgentAccount)
| EvAgentSpecUpsert (sequence : Z) (record : ClientAgentSpec)
| EvClosed.

(** [#[derive(Default)]] of the generated messages that [unwrap_or_default] uses. *)
Definition PbConversationReadState_default : PbConversationReadState := mkPbConversationReadState "" 0 0 0 0 0 false.
Definition PbUserProfile_default : PbUserProfile := mkPbUserProfile "" "" "" "" 0.
Definition PbAgentSpecRecord_default : PbAgentSpecRecord := mkPbAgentSpecRecord "" "" "" [] [] 0 0.

(** ** wire.rs: requests *)

Definition DEFAULT_DEVICE : string := "mobile".

Definition inbox_item_from_proto (i : PbInboxItem) : ClientInboxItem :=
  let read := default PbConversationReadState_default (pb_inbox_item_read_state i) in
  mkClientInboxItem (pb_inbox_item_dest i) (pb_inbox_item_kind i) (pb_inbox_item_title i)
    (pb_inbox_item_avatar i) (pb_inbox_item_last_body i) (pb_inbox_item_last_sender i)
    (pb_inbox_item_last_message_id i) (pb_inbox_item_last_send_time i) (pb_inbox_item_unread i)
    (pb_conversation_read_state_last_read_message_id read)
    (if 0 <? pb_conversation_read_state_max_message_id read
     then pb_conversation_read_state_max_message_id read else pb_inbox_item_last_message_id i)
    (pb_conversation_read_state_version read).

Definition pb_agent_spec (r : ClientAgentSpec) : PbAgentSpecRecord :=
  mkPbAgentSpecRecord (as_profile_id r) (as_nickname r) (as_server_account r) (as_spec r)
    (as_key_ciphertext r) (as_updated_at r) (as_deleted_at r).
Definition from_pb_agent_spec (r : PbAgentSpecRecord) : ClientAgentSpec :=
  mkClientAgentSpec (pb_agent_spec_record_profile_id r) (pb_agent_spec_record_nickname r)
    (pb_agent_spec_record_server_account r) (pb_agent_spec_record_spec r)
    (pb_agent_spec_record_key_ciphertext r) (pb_agent_spec_record_updated_at r)
    (pb_agent_spec_record_deleted_at r).
Definition pb_agent_account (a : ClientAgentAccount) : PbAgentProviderAccount :=
  mkPbAgentProviderAccount (aa_id a) (aa_vendor_id a) (aa_base_url a) (aa_key_ref a)
    (aa_display_name a) (aa_models a) (aa_updated_at a) (aa_deleted_at a).
Definition from_pb_agent_account (a : PbAgentProviderAccount) : ClientAgentAccount :=
  mkClientAgentAccount (pb_agent_provider_account_id a) (pb_agent_provider_account_vendor_id a)
    (pb_agent_provider_account_base_url a) (pb_agent_provider_account_key_ref a)
    (pb_agent_provider_account_display_name a) (pb_agent_provider_account_models a)
    (pb_agent_provider_account_updated_at a) (pb_agent_provider_account_deleted_at a).

Section requests.
Context `{Prost}.

(** A request without a body, to [dest] when there is one; and with a body. *)
Definition bare (command : string) (seq : Z) (dest : option string) : LogicPkt :=
  let pkt := LogicPkt_new command seq [] in
  match dest with Some d => set_dest d pkt | None => pkt end.
Definition request_frame {T} `{WireMsg T} (command : string) (seq : Z) (dest : option string) (m : T) : bytes :=
  marshal (Logic (write_body (bare command seq dest) m)).

Definition encode_login (token device : string) : bytes :=
  let device := if str_is_empty (str_trim device) then DEFAULT_DEVICE else str_trim device in
  request_frame CMD_LOGIN_SIGN_IN 1 None (mkLoginReq token device "").

Definition encode_ping : bytes := marshal (Basic BasicPkt_ping).

Definition encode_outgoing (seq : Z) (dest : string) (kind : Z) (content : OutgoingContent) (client_id : string)
  : bytes :=
  let command := if kind =? INBOX_KIND_GROUP then CMD_CHAT_GROUP_TALK else CMD_CHAT_USER_TALK in
  let '(msg_type, body, extra) :=
    match content with
    | OText text => (MESSAGE_TYPE_TEXT, text, ""%string)
    | OImage url extra => (MESSAGE_TYPE_IMAGE, url, extra)
    | OVoice url extra => (MESSAGE_TYPE_VOICE, url, extra)
    | OVideo url extra => (MESSAGE_TYPE_VIDEO, url, extra)
    end in
  request_frame command seq (Some dest) (mkMessageReq msg_type body extra client_id).

Definition encode_user_talk (seq : Z) (dest body client_id : string) : bytes :=
  encode_outgoing seq dest INBOX_KIND_USER (OText body) client_id.

Definition encode_user_talk_typed (seq : Z) (dest : string) (msg_type : Z) (body extra client_id : string) : bytes :=
  let content :=
    if msg_type =? MESSAGE_TYPE_IMAGE then OImage body extra
    else if msg_type =? MESSAGE_TYPE_VOICE then OVoice body extra
    else if msg_type =? MESSAGE_TYPE_VIDEO then OVideo body extra
    else OText body in
  encode_outgoing seq dest INBOX_KIND_USER content client_id.

Definition encode_user_image (seq : Z) (dest url extra client_id : string) : bytes :=
  encode_outgoing seq dest INBOX_KIND_USER (OImage url extra) client_id.

Definition encode_ack (seq message_id : Z) : bytes :=
  request_frame CMD_CHAT_TALK_ACK seq None (mkMessageAckReq message_id []).
Definition encode_ack_batch (seq : Z) (message_ids : list Z) : bytes :=
  request_frame CMD_CHAT_TALK_ACK seq None (mkMessageAckReq 0 message_ids).

Definition encode_inbox_list (seq limit : Z) : bytes :=
  request_frame CMD_INBOX_LIST seq None (mkInboxReq limit).
Definition encode_inbox_read (seq : Z) (dest : string) (kind message_id : Z) : bytes :=
  request_frame CMD_INBOX_READ seq (Some dest) (mkConversationReadReq message_id kind).
Definition encode_inbox_states (seq : Z) (conversations : list (string * Z)) : bytes :=
  request_frame CMD_INBOX_STATES seq None
    (mkConversationStatesReq ((fun c : string * Z => mkPbConversationStateKey c.1 c.2) <$> conversations)).

Definition encode_history (seq : Z) (dest : string) (kind before_id limit : Z) : bytes :=
  request_frame CMD_HISTORY seq (Some dest) (mkHistoryReq before_id limit kind).

Definition encode_offline_index (seq : Z) : bytes :=
  request_frame CMD_OFFLINE_INDEX seq None (mkMessageIndexReq 0 true).
Definition encode_offline_content (seq : Z) (ids : list Z) : bytes :=
  request_frame CMD_OFFLINE_CONTENT seq None (mkMessageContentReq ids "" "").

Definition encode_dest_cmd (command : string) (seq : Z) (dest : string) : bytes :=
  marshal (Logic (bare command seq (Some dest))).
Definition encode_empty_cmd (command : string) (seq : Z) : bytes :=
  marshal (Logic (bare command seq None)).

Definition encode_user_update (seq : Z) (nickname avatar bio : string) : bytes :=
  request_frame CMD_USER_UPDATE seq None (mkUserProfileUpdate nickname avatar bio).

Definition encode_bot_create (seq : Z) (client_profile_id nickname avatar bio : string) (config : ClientBotConfig)
  : bytes :=
  request_frame CMD_BOT_CREATE seq None
    (mkBotCreateReq client_profile_id nickname avatar bio (cbc_model config) (cbc_thinking_effort config)
       (cbc_context_tokens config) (cbc_visibility config)).
Definition encode_bot_update (seq : Z) (dest nickname avatar bio : string) (config : ClientBotConfig) : bytes :=
  request_frame CMD_BOT_UPDATE seq (Some dest)
    (mkBotUpdateReq nickname avatar bio (cbc_model config) (cbc_thinking_effort config)
       (cbc_context_tokens config) (cbc_visibility config)).
Definition encode_bot_reply (seq : Z) (dest body extra client_id : string) (in_reply_to : Z) : bytes :=
  request_frame CMD_BOT_REPLY seq (Some dest)
    (mkBotReplyReq (Some (mkMessageReq MESSAGE_TYPE_TEXT body extra client_id)) in_reply_to).
Definition encode_bot_pending (seq : Z) (dest : string) (limit : Z) : bytes :=
  request_frame CMD_BOT_PENDING seq (Some dest) (mkInboxReq limit).

Definition encode_agent_spec_sync (seq : Z) : bytes :=
  marshal (Logic (bare CMD_AGENT_SPEC_SYNC seq None)).
Definition encode_agent_spec_upsert (seq : Z) (record : option ClientAgentSpec)
  (account : option ClientAgentAccount) : bytes :=
  request_frame CMD_AGENT_SPEC_UPSERT seq None
    (mkAgentSpecUpsertReq (option_map pb_agent_spec record) (option_map pb_agent_account account)).

Definition encode_user_search (seq : Z) (query : string) : bytes :=
  request_frame CMD_USER_SEARCH seq None (mkUserSearchReq query).

Definition encode_room_enter (seq : Z) (dest : string) (kind : Z) : bytes :=
  request_frame CMD_ROOM_ENTER seq None (mkRoomEnterReq dest kind).
Definition encode_room_leave (seq : Z) (dest : string) (kind : Z) : bytes :=
  request_frame CMD_ROOM_LEAVE seq None (mkRoomLeaveReq dest kind).

Definition encode_typing (seq : Z) (dest : string) (kind : Z) (active : bool) : bytes :=
  request_frame CMD_TYPING seq None (mkTypingReq dest kind active 0).
Definition encode_bot_typing (seq : Z) (dest : string) (kind : Z) (active : bool) : bytes :=
  request_frame CMD_BOT_TYPING seq (Some dest) (mkTypingReq dest kind active 0).
End requests.

(** ** wire.rs: events *)

Section events.
Context `{Prost}.

Definition flag_is (f : Flag) (p : LogicPkt) : bool := h_flag (l_header p) =? Flag_as_i32 f.
Definition command_is (c : string) (p : LogicPkt) : bool := bool_decide (h_command (l_header p) = c).
Definition status_event (p : LogicPkt) : ClientEvent :=
  EvStatus (h_command (l_header p)) (h_status (l_header p)) (h_sequence (l_header p)).

Definition is_kickout (p : LogicPkt) : option KickoutNotify :=
  if negb (flag_is PushFlag p) then None
  else if negb (command_is CMD_LOGIN_SIGN_IN p) then None
  else match read_body p with Ok n => Some n | Err _ => None end.

(** A response: anything but success is a status, a success is read by [k]. *)
Definition on_success (p : LogicPkt) (k : result ClientEvent ClientError) : result ClientEvent ClientError :=
  if negb (h_status (l_header p) =? Status_as_i32 Success) then Ok (status_event p) else k.
Definition with_reply {T} `{WireMsg T} (p : LogicPkt) (k : T -> ClientEvent) : result ClientEvent ClientError :=
  on_success p (let? m := lift (read_body p) in Ok (k m)).
Definition with_push {T} `{WireMsg T} (p : LogicPkt) (k : T -> ClientEvent) : result ClientEvent ClientError :=
  let? m := lift (read_body p) in Ok (k m).

Definition profile_of (u : PbUserProfile) : Profile :=
  from_wire (pb_user_profile_account u) (pb_user_profile_nickname u) (pb_user_profile_avatar u)
    (pb_user_profile_bio u) (pb_user_profile_kind u).
Definition presence_entry (e : Presence) : PresenceEntry :=
  mkPresenceEntry (presence_account e) (presence_status e) (presence_last_seen e).
Definition history_item (m : PbHistoryItem) : ClientHistoryItem :=
  mkClientHistoryItem (pb_history_item_message_id m) (pb_history_item_type m) (pb_history_item_body m)
    (pb_history_item_extra m) (pb_history_item_sender m) (pb_history_item_send_time m)
    (pb_history_item_direction m).
Definition client_index (i : MessageIndex) : ClientIndex :=
  mkClientIndex (mi_message_id i) (mi_direction i) (mi_send_time i) (mi_account_b i) (mi_group i).
Definition client_message (m : PktMessage) : ClientMessage :=
  mkClientMessage (pm_message_id m) (pm_type m) (pm_body m) (pm_extra m).
Definition bot_pending_of (i : PbBotPendingItem) : ClientBotPending :=
  mkClientBotPending (pb_bot_pending_item_message_id i) (pb_bot_pending_item_body i)
    (pb_bot_pending_item_send_time i).

(** The thread of a pushed talk: the group, or the peer, which for an own message
    is the header's destination. *)
Definition incoming_talk (p : LogicPkt) (me : string) (push : MessagePush) : IncomingTalk :=
  let command := h_command (l_header p) in
  let dest :=
    if bool_decide (command = CMD_CHAT_GROUP_TALK)
       || (negb (str_is_empty me) && bool_decide (push_sender push = me))
    then h_dest (l_header p) else push_sender push in
  mkIncomingTalk command dest (push_message_id push) (push_sender push) (push_type push)
    (push_body push) (push_extra push) (push_send_time push).

(** Only the first entry of a presence batch becomes an event. *)
Definition presence_event (push : PresencePush) : ClientEvent :=
  match presence_push_entries push with
  | e :: _ => EvPresenceUpdated (presence_account e) (presence_status e) (presence_last_seen e)
  | [] => EvPresenceUpdated "" 0 0
  end.

Definition decode_push (p : LogicPkt) (me : string) : option (result ClientEvent ClientError) :=
  let cmd c := command_is c p in
  if cmd CMD_LOGIN_RENEW then
    Some (with_push p (fun b : AuthResp => EvTokenRenew (auth_resp_token b) (auth_resp_exp b)))
  else if cmd CMD_GROUP_CREATE then
    Some (with_push p (fun n : GroupCreateNotify =>
      EvGroupCreate (group_create_notify_group_id n) (group_create_notify_members n)))
  else if cmd CMD_FRIEND_REQUEST || cmd CMD_FRIEND_ACCEPT then
    Some (with_push p (fun n : FriendRequestNotify =>
      if cmd CMD_FRIEND_ACCEPT
      then EvFriendAccepted (friend_request_notify_from_account n) (friend_request_notify_from_nickname n)
      else EvFriendRequest (friend_request_notify_from_account n) (friend_request_notify_from_nickname n)))
  else if cmd CMD_USER_UPDATED then
    Some (with_push p (fun u : PbUserProfile => EvProfileUpdated (profile_of u)))
  else if cmd CMD_PRESENCE then Some (with_push p presence_event)
  else if cmd CMD_TYPING then
    Some (with_push p (fun t : TypingPush =>
      EvTypingUpdated (typing_push_typer t) (typing_push_dest t) (typing_push_kind t)
        (typing_push_active t) (typing_push_phase t)))
  else if cmd CMD_RECEIPT_READ then
    Some (with_push p (fun r : ReadReceiptPush =>
      EvReceiptRead (read_receipt_push_reader r) (read_receipt_push_dest r) (read_receipt_push_kind r)
        (read_receipt_push_message_id r)))
  else if cmd CMD_INBOX_READ_SYNC then
    Some (with_push p (fun s : ConversationReadSyncPush =>
      EvConversationReadSync (conversation_read_sync_push_account s)
        (default ClientReadState_default (option_map from_proto (conversation_read_sync_push_state s)))))
  else if cmd CMD_CHAT_USER_TALK || cmd CMD_CHAT_GROUP_TALK then
    Some (with_push p (fun t : MessagePush => EvTalk (incoming_talk p me t)))
  else None.

Definition decode_response (p : LogicPkt) : result ClientEvent ClientError :=
  let cmd c := command_is c p in
  let seq := h_sequence (l_header p) in
  if cmd CMD_INBOX_READ then
    on_success p
      (if bool_decide (l_body p = []) then Ok (status_event p)
       else with_push p (fun s : PbConversationReadState => EvConversationRead seq (from_proto s)))
  else if cmd CMD_INBOX_STATES then
    with_reply p (fun r : ConversationStatesResp =>
      EvConversationStates seq (from_proto <$> conversation_states_resp_states r))
  else if cmd CMD_ROOM_ENTER then
    with_reply p (fun r : RoomEnterResp => EvRoomEnter seq (presence_entry <$> room_enter_resp_presence r))
  else if cmd CMD_ROOM_LEAVE then Ok (status_event p)
  else if cmd CMD_CHAT_USER_TALK || cmd CMD_CHAT_GROUP_TALK || cmd CMD_BOT_REPLY then
    with_reply p (fun r : MessageResp => EvTalkResp (mkTalkResult (mp_message_id r) (mp_send_time r) seq))
  else if cmd CMD_FRIEND_LIST || cmd CMD_FRIEND_INCOMING || cmd CMD_USER_SEARCH then
    if cmd CMD_USER_SEARCH
    then with_reply p (fun r : UserSearchResp =>
           EvUserList (h_command (l_header p)) seq (profile_of <$> user_search_resp_users r))
    else with_reply p (fun r : UserListResp =>
           EvUserList (h_command (l_header p)) seq (profile_of <$> user_list_resp_users r))
  else if cmd CMD_BOT_CREATE || cmd CMD_BOT_UPDATE then
    with_reply p (fun r : BotCreateResp =>
      EvProfile seq (profile_of (default PbUserProfile_default (bot_create_resp_profile r))))
  else if cmd CMD_BOT_PENDING then
    with_reply p (fun r : BotPendingResp => EvBotPending seq (bot_pending_of <$> bot_pending_resp_items r))
  else if cmd CMD_USER_PROFILE || cmd CMD_USER_UPDATE then
    with_reply p (fun u : PbUserProfile => EvProfile seq (profile_of u))
  else if cmd CMD_INBOX_LIST then
    with_reply p (fun r : InboxResp => EvInbox seq (inbox_item_from_proto <$> inbox_resp_items r))
  else if cmd CMD_HISTORY then
    with_reply p (fun r : HistoryResp =>
      EvHistory seq (h_dest (l_header p)) (history_item <$> history_resp_messages r))
  else if cmd CMD_OFFLINE_INDEX then
    with_reply p (fun r : MessageIndexResp =>
      EvOfflinePage seq (client_index <$> iresp_indexes r) (iresp_has_more r))
  else if cmd CMD_OFFLINE_CONTENT then
    with_reply p (fun r : MessageContentResp => EvOfflineContent seq (client_message <$> cresp_messages r))
  else if cmd CMD_AGENT_SPEC_SYNC then
    with_reply p (fun r : AgentSpecSyncResp =>
      EvAgentSpecSync seq (from_pb_agent_spec <$> agent_spec_sync_resp_records r)
        (from_pb_agent_account <$> agent_spec_sync_resp_accounts r))
  else if cmd CMD_AGENT_SPEC_UPSERT then
    with_reply p (fun r : AgentSpecUpsertResp =>
      EvAgentSpecUpsert seq (from_pb_agent_spec (default PbAgentSpecRecord_default (agent_spec_upsert_resp_record r))))
  else Ok (status_event p).

(** The chain of tests looks at the flag and the command; what nothing recognises
    is a status. *)
Definition decode_logic (p : LogicPkt) (me : string) : result ClientEvent ClientError :=
  match is_kickout p with
  | Some n => Ok (EvKickout (ko_channel_id n))
  | None =>
    if flag_is PushFlag p then default (Ok (status_event p)) (decode_push p me)
    else if flag_is Response p then decode_response p
    else Ok (status_event p)
  end.

Definition decode_event (frame : Frame) (me : string) : result ClientEvent ClientError :=
  match read (f_payload frame) with
  | Err e => Err (Protocol e)
  | Ok (Basic b) => if b_code b =? CODE_PONG then Ok EvPong else Err (Other "unexpected basic packet")
  | Ok (Logic p) => decode_logic p me
  end.

(** client.rs [is_unsolicited]: the events [recv] hands on. *)
Definition is_unsolicited (e : ClientEvent) : bool :=
  match e with
  | EvTalk _ | EvKickout _ | EvTokenRenew _ _ | EvGroupCreate _ _ | EvFriendRequest _ _
  | EvFriendAccepted _ _ | EvProfileUpdated _ | EvPresenceUpdated _ _ _ | EvTypingUpdated _ _ _ _ _
  | EvReceiptRead _ _ _ _ | EvConversationReadSync _ _ | EvClosed => true
  | _ => false
  end.
End events.
