(* ===== verification/Location.v ===== *)
(** Session locations and the session-store vocabulary of [crates/kim-router/src]:
    [Location] with its binary form (location.rs) and [SessionError] (storage.rs).
    The form grew twice; [Location_decode_encode] shows that the current form
    round trips and that of its prefixes exactly the two older forms decode. *)

From S2P Require Import Prelude Wire.
Open Scope Z_scope.
Open Scope kim_scope.

Inductive SessionError : Type :=
| NotFound
| Truncated
| InvalidUtf8
| OtherSession (msg : string).
#[export] Instance SessionError_eq_dec : EqDecision SessionError.
Proof. solve_decision. Defined.

Record Location := mkLocation {
  loc_channel_id : ChannelId;
  loc_gate_id : GatewayId;
  loc_device : string;
  loc_jti : string
}.
#[export] Instance Location_eq_dec : EqDecision Location.
Proof. solve_decision. Defined.

(** [u16::try_from(s.len()).unwrap_or(u16::MAX)], then that many bytes (the
    [debug_assert] on the lengths is off in a release build). *)
Definition put_short_string (s : string) : bytes :=
  let n := Z.min (len (bytes_of s)) u16_max in
  le16 n ++ take (Z.to_nat n) (bytes_of s).

Definition Location_encode (l : Location) : bytes :=
  put_short_string (channel_str (loc_channel_id l))
  ++ put_short_string (gateway_str (loc_gate_id l))
  ++ put_short_string (loc_device l)
  ++ put_short_string (loc_jti l).

Definition read_short_string (buf : bytes) : result (string * bytes) SessionError :=
  match buf with
  | b0 :: b1 :: rest =>
    let n := from_le16 b0 b1 in
    if len rest <? n then Err Truncated
    else
      let s := take (Z.to_nat n) rest in
      if utf8_valid s then Ok (string_of_bytes s, drop (Z.to_nat n) rest) else Err InvalidUtf8
  | _ => Err Truncated
  end.

Definition Location_decode (buf : bytes) : result Location SessionError :=
  let? (channel_id, rest) := read_short_string buf in
  let? (gate_id, rest) := read_short_string rest in
  let? (device, rest) :=
    match rest with [] => Ok (""%string, rest) | _ => read_short_string rest end in
  let? jti :=
    match rest with
    | [] => Ok ""%string
    | _ => let? (s, _) := read_short_string rest in Ok s
    end in
  Ok (mkLocation (mkChannelId channel_id) (mkGatewayId gate_id) device jti).

(** ** Lemmas *)

(** A field that fits its length prefix; every [String] is valid UTF-8. *)
Definition field_ok (s : string) : Prop := utf8 s /\ len (bytes_of s) <= u16_max.
Definition location_ok (l : Location) : Prop :=
  field_ok (channel_str (loc_channel_id l)) /\ field_ok (gateway_str (loc_gate_id l))
  /\ field_ok (loc_device l) /\ field_ok (loc_jti l).

Lemma put_short_string_ok s :
  field_ok s -> put_short_string s = le16 (len (bytes_of s)) ++ bytes_of s.
Proof.
  intros [_ H]. unfold put_short_string. rewrite Z.min_l by done.
  by rewrite <- (app_nil_r (bytes_of s)) at 3; rewrite take_len_app.
Qed.

Lemma len_put_short_string s : field_ok s -> len (put_short_string s) = 2 + len (bytes_of s).
Proof. intros H. rewrite put_short_string_ok, len_app by done. done. Qed.

Lemma read_put_short_string s rest :
  field_ok s -> read_short_string (put_short_string s ++ rest) = Ok (s, rest).
Proof.
  intros H. rewrite put_short_string_ok by done. destruct H as [Hu H].
  unfold le16, read_short_string. cbn [app].
  pose proof (len_nonneg (bytes_of s)). pose proof (len_nonneg rest).
  rewrite from_le16_le16, wrap16_id, len_app, ltb_false by lia.
  rewrite take_len_app, drop_len_app by done. unfold utf8 in Hu. by rewrite Hu, string_of_bytes_of.
Qed.

Lemma read_take_short_string s k :
  field_ok s -> Z.of_nat k < len (put_short_string s) ->
  read_short_string (take k (put_short_string s)) = Err Truncated.
Proof.
  intros H. rewrite len_put_short_string, put_short_string_ok by done. destruct H as [_ H].
  intros Hk. pose proof (len_nonneg (bytes_of s)).
  destruct k as [|[|k]]; [done..|]. unfold le16. cbn [app take]. simpl.
  rewrite from_le16_le16, wrap16_id by lia. rewrite ltb_true; [done|].
  rewrite len_take. lia.
Qed.

(** The optional fields: a non-empty remainder is read. *)
Lemma read_nonempty {A} (x y : A) (rest : bytes) :
  0 < len rest -> match rest with [] => x | _ :: _ => y end = y.
Proof. by destruct rest. Qed.

Lemma Location_decode_fields c g rest :
  field_ok c -> field_ok g ->
  Location_decode (put_short_string c ++ put_short_string g ++ rest) =
  let? (device, rest) :=
    match rest with [] => Ok (""%string, rest) | _ => read_short_string rest end in
  let? jti :=
    match rest with
    | [] => Ok ""%string
    | _ => let? (s, _) := read_short_string rest in Ok s
    end in
  Ok (mkLocation (mkChannelId c) (mkGatewayId g) device jti).
Proof.
  intros Hc Hg. unfold Location_decode. rewrite read_put_short_string by done. cbn [try_bind].
  by rewrite read_put_short_string by done.
Qed.

(** A prefix of [n] bytes of the concatenation either cuts the first part or holds it. *)
Lemma take_app_cut {A} (l k : list A) n :
  (Z.of_nat n < len l /\ take n (l ++ k) = take n l) \/
  (len l <= Z.of_nat n /\ exists m, Z.of_nat n = len l + Z.of_nat m /\ take n (l ++ k) = l ++ take m k).
Proof.
  unfold len. destruct (Nat.lt_ge_cases n (length l)).
  - left. split; [lia|]. apply take_app_le. lia.
  - right. split; [lia|]. exists (n - length l)%nat. split; [lia|]. by apply take_app_ge.
Qed.

Lemma take_short_string_ne s k :
  field_ok s -> (0 < k)%nat -> Z.of_nat k < len (put_short_string s) ->
  0 < len (take k (put_short_string s)).
Proof.
  intros Hs Hk Hl. rewrite len_take. lia.
Qed.

(** ** Properties *)

(** A location whose fields fit their 16-bit length prefixes decodes to itself
    from its encoding, whatever follows; of the strict prefixes of the encoding
    exactly two decode, the forms written before [jti] and before [device]
    existed, with the missing fields empty; all others are [Truncated]. *)
Theorem Location_decode_encode (l : Location) (Hl : location_ok l) :
  (forall extra, Location_decode (Location_encode l ++ extra) = Ok l) /\
  forall n, Z.of_nat n < len (Location_encode l) ->
    let c := channel_str (loc_channel_id l) in
    let g := gateway_str (loc_gate_id l) in
    let two := len (put_short_string c) + len (put_short_string g) in
    let three := two + len (put_short_string (loc_device l)) in
    Location_decode (take n (Location_encode l)) =
      if Z.of_nat n =? two then Ok (mkLocation (loc_channel_id l) (loc_gate_id l) "" "")
      else if Z.of_nat n =? three
      then Ok (mkLocation (loc_channel_id l) (loc_gate_id l) (loc_device l) "")
      else Err Truncated.
Proof.
  destruct l as [[c] [g] d j], Hl as (Hc & Hg & Hd & Hj). cbn [loc_channel_id loc_gate_id
    loc_device loc_jti channel_str gateway_str] in *. unfold Location_encode.
  cbv zeta. cbn [loc_channel_id loc_gate_id loc_device loc_jti channel_str gateway_str]. split.
  - intros extra. rewrite <- !app_assoc, Location_decode_fields by done.
    rewrite read_nonempty by done. rewrite read_put_short_string by done. cbn [try_bind].
    rewrite read_nonempty by done. by rewrite read_put_short_string by done.
  - intros n Hn.
    pose proof (len_put_short_string c Hc). pose proof (len_put_short_string g Hg).
    pose proof (len_put_short_string d Hd). pose proof (len_put_short_string j Hj).
    pose proof (len_nonneg (bytes_of c)). pose proof (len_nonneg (bytes_of g)).
    pose proof (len_nonneg (bytes_of d)). pose proof (len_nonneg (bytes_of j)).
    rewrite !len_app in Hn.
    destruct (take_app_cut (put_short_string c) (put_short_string g ++ put_short_string d ++
      put_short_string j) n) as [[Hlt ->] | (_ & m & Em & ->)].
    { unfold Location_decode. rewrite read_take_short_string by done.
      rewrite !(proj2 (Z.eqb_neq _ _)) by lia. done. }
    destruct (take_app_cut (put_short_string g) (put_short_string d ++ put_short_string j) m)
      as [[Hlt ->] | (_ & p & Ep & ->)].
    { unfold Location_decode. rewrite read_put_short_string by done. cbn [try_bind].
      rewrite read_take_short_string by done. rewrite !(proj2 (Z.eqb_neq _ _)) by lia. done. }
    rewrite Location_decode_fields by done.
    destruct p as [|p'].
    { rewrite (proj2 (Z.eqb_eq _ _)) by lia. done. }
    rewrite (proj2 (Z.eqb_neq (Z.of_nat n) (_ + _))) by lia.
    destruct (take_app_cut (put_short_string d) (put_short_string j) (S p'))
      as [[Hlt ->] | (_ & q & Eq & ->)].
    { rewrite read_nonempty by (apply take_short_string_ne; done || lia).
      rewrite read_take_short_string by done.
      rewrite (proj2 (Z.eqb_neq _ _)) by lia. done. }
    rewrite read_nonempty by done. rewrite read_put_short_string by done. cbn [try_bind].
    destruct q as [|q'].
    { rewrite (proj2 (Z.eqb_eq _ _)) by lia. done. }
    rewrite (proj2 (Z.eqb_neq _ _)) by lia.
    rewrite read_nonempty by (apply take_short_string_ne; done || lia).
    rewrite read_take_short_string by (done || lia). done.
Qed.

Definition demo_location : Location :=
  mkLocation (mkChannelId "ch1") (mkGatewayId "gw1") "mobile" "j1".
Lemma Location_decode_encode_witness :
  Location_decode (Location_encode demo_location) = Ok demo_location /\
  Location_decode (take 10 (Location_encode demo_location)) =
    Ok (mkLocation (mkChannelId "ch1") (mkGatewayId "gw1") "" "").
Proof.
  assert (H : location_ok demo_location)
    by (repeat split; vm_compute; first [reflexivity | discriminate]).
  split.
  - pose proof (proj1 (Location_decode_encode demo_location H) []) as E. by rewrite app_nil_r in E.
  - rewrite (proj2 (Location_decode_encode demo_location H) 10%nat) by reflexivity. reflexivity.
Defined.
