(* ===== verification/SessionStore.v ===== *)
(** The session registry of [crates/kim-session/src].

    [SessionStorage] is the trait of crates/kim-router/src/storage.rs as a class;
    [SessionStorageOk] states its contract against two abstract maps, the live
    session of a channel and the locations of an account.  [Inner] with its
    operations is the memory store (memory.rs), [DualWriteStore] the mirror
    (dual.rs).  The last section has the rollout gate and the device classes
    (lib.rs, redis.rs).  [session_trace_locations] proves against the interface
    what a history of [add] and [delete] leaves registered. *)

From S2P Require Import Prelude Wire Pkt Location.
Open Scope Z_scope.
Open Scope kim_scope.

(** ** keys.rs *)

Definition LOC_INV_CHANNEL : string := "kim:loc:inv".
Definition key_session (channel : string) : string := ("login:sn:v2:" ++ channel)%string.
Definition key_location (account device : string) : string := ("login:loc:v2:" ++ account)%string.

(** ** storage.rs: the trait *)

Class SessionStorage (S : Type) := {
  st_add : Session -> S -> S * result unit SessionError;
  st_delete : AccountId -> ChannelId -> S -> S * result unit SessionError;
  st_get : ChannelId -> S -> result Session SessionError;
  st_get_locations : list AccountId -> S -> result (list Location) SessionError;
  st_get_location : AccountId -> string -> S -> result Location SessionError;
  st_list_locations : AccountId -> S -> result (list Location) SessionError
}.

Definition loc_of (session : Session) : Location :=
  mkLocation (mkChannelId (s_channel_id session)) (mkGatewayId (s_gate_id session))
    (s_device session) (s_jti session).

(** [slots.retain(|l| l.channel_id != ch)]. *)
Definition retain_other (ch : ChannelId) (slots : list Location) : list Location :=
  List.filter (fun l => negb (bool_decide (loc_channel_id l = ch))) slots.

Definition pick (slots : list Location) (device : string) : option Location :=
  if str_is_empty device then head slots
  else List.find (fun l => bool_decide (loc_device l = device)) slots.

Definition some_or_not_found {A} (o : option A) : result A SessionError :=
  match o with Some x => Ok x | None => Err NotFound end.
Definition nonempty_or_not_found {A} (l : list A) : result (list A) SessionError :=
  match l with [] => Err NotFound | _ => Ok l end.

(** The contract.  [live] and [slots] are what the store holds; an operation that
    succeeds has the stated effect and touches nothing else, a read that answers
    answers from them.  A store may fail with other errors. *)
Class SessionStorageOk (S : Type) `{SessionStorage S} := {
  live : ChannelId -> S -> option Session;
  slots : string -> S -> list Location;
  add_slots : forall s st st', st_add s st = (st', Ok tt) ->
    forall a, slots a st' =
      if decide (a = s_account s)
      then retain_other (mkChannelId (s_channel_id s)) (slots a st) ++ [loc_of s]
      else slots a st;
  add_live : forall s st st', st_add s st = (st', Ok tt) ->
    forall ch, live ch st' =
      if decide (ch = mkChannelId (s_channel_id s)) then Some s else live ch st;
  delete_slots : forall acc c st st', st_delete acc c st = (st', Ok tt) ->
    forall a, slots a st' =
      if decide (a = account_str acc) then retain_other c (slots a st) else slots a st;
  delete_live : forall acc c st st', st_delete acc c st = (st', Ok tt) ->
    forall ch, live ch st' = if decide (ch = c) then None else live ch st;
  get_live : forall c st,
    match st_get c st with
    | Ok s => live c st = Some s | Err NotFound => live c st = None | Err _ => True
    end;
  get_locations_slots : forall accs st,
    match st_get_locations accs st with
    | Ok l => l = concat ((fun a => slots (account_str a) st) <$> accs) /\ l <> []
    | Err NotFound => concat ((fun a => slots (account_str a) st) <$> accs) = []
    | Err _ => True
    end;
  list_locations_slots : forall acc st,
    match st_list_locations acc st with
    | Ok l => l = slots (account_str acc) st /\ l <> []
    | Err NotFound => slots (account_str acc) st = []
    | Err _ => True
    end;
  get_location_slots : forall acc device st,
    match st_get_location acc device st with
    | Ok l => pick (slots (account_str acc) st) device = Some l
    | Err NotFound => pick (slots (account_str acc) st) device = None
    | Err _ => True
    end
}.

(** ** memory.rs *)

Record Inner := mkInner {
  i_sessions : gmap string Session;
  i_locations : gmap string (list Location)
}.
Definition Inner_default : Inner := mkInner ∅ ∅.

Definition mem_add (session : Session) (inner : Inner) : Inner * result unit SessionError :=
  let loc := loc_of session in
  let loc_key := key_location (s_account session) "" in
  let slots := default [] (i_locations inner !! loc_key) in
  let slots := retain_other (loc_channel_id loc) slots ++ [loc] in
  (mkInner (<[s_channel_id session := session]> (i_sessions inner))
     (<[loc_key := slots]> (i_locations inner)), Ok tt).

Definition mem_delete (account : AccountId) (channel_id : ChannelId) (inner : Inner)
  : Inner * result unit SessionError :=
  let loc_key := key_location (account_str account) "" in
  let sessions := delete (channel_str channel_id) (i_sessions inner) in
  let locations :=
    match i_locations inner !! loc_key with
    | Some slots =>
      match retain_other channel_id slots with
      | [] => delete loc_key (i_locations inner)
      | slots' => <[loc_key := slots']> (i_locations inner)
      end
    | None => i_locations inner
    end in
  (mkInner sessions locations, Ok tt).

Definition mem_get (channel_id : ChannelId) (inner : Inner) : result Session SessionError :=
  some_or_not_found (i_sessions inner !! channel_str channel_id).

Definition mem_get_locations (accounts : list AccountId) (inner : Inner)
  : result (list Location) SessionError :=
  nonempty_or_not_found
    (concat ((fun account => default [] (i_locations inner !! key_location (account_str account) ""))
             <$> accounts)).

Definition mem_get_location (account : AccountId) (device : string) (inner : Inner)
  : result Location SessionError :=
  some_or_not_found
    (match i_locations inner !! key_location (account_str account) "" with
     | Some slots => pick slots device
     | None => None
     end).

(** The trait's default body of [list_locations]. *)
Definition default_list_locations {S} (get_locations : list AccountId -> S -> result (list Location) SessionError)
  (account : AccountId) (st : S) : result (list Location) SessionError :=
  get_locations [account] st.

#[export] Instance MemorySessionStore : SessionStorage Inner := {|
  st_add := mem_add;
  st_delete := mem_delete;
  st_get := mem_get;
  st_get_locations := mem_get_locations;
  st_get_location := mem_get_location;
  st_list_locations := default_list_locations mem_get_locations
|}.

(** ** dual.rs: write both, read the primary *)

Definition dual_add {P M} `{SessionStorage P, SessionStorage M} (s : Session) (st : P * M)
  : (P * M) * result unit SessionError :=
  let '(p, r) := st_add s st.1 in
  match r with
  | Err e => ((p, st.2), Err e)
  | Ok _ => let '(m, _) := st_add s st.2 in ((p, m), Ok tt)
  end.
Definition dual_delete {P M} `{SessionStorage P, SessionStorage M} (a : AccountId) (c : ChannelId)
  (st : P * M) : (P * M) * result unit SessionError :=
  let '(p, r) := st_delete a c st.1 in
  match r with
  | Err e => ((p, st.2), Err e)
  | Ok _ => let '(m, _) := st_delete a c st.2 in ((p, m), Ok tt)
  end.

#[export] Instance DualWriteStore {P M} `{SessionStorage P, SessionStorage M}
  : SessionStorage (P * M) := {|
  st_add := dual_add;
  st_delete := dual_delete;
  st_get c st := st_get c st.1;
  st_get_locations l st := st_get_locations l st.1;
  st_get_location a d st := st_get_location a d st.1;
  st_list_locations := default_list_locations (fun l st => st_get_locations l st.1)
|}.

(** ** lib.rs and redis.rs: device classes and the rollout gate *)

Definition exclusive_device (device : string) : bool :=
  let d := str_to_ascii_lowercase (str_trim device) in
  bool_decide (d ∈ ["mobile"; "android"; "ios"; "iphone"; "ipad"; "phone"]%string).

Record LocationScan := mkLocationScan {
  scan_scanned : Z;
  scan_empty_jti : Z;
  scan_invalid : Z;
  scan_wrong_type : Z
}.
Definition is_clean (s : LocationScan) : bool :=
  (scan_empty_jti s =? 0) && (scan_invalid s =? 0) && (scan_wrong_type s =? 0).
Definition empty_jti_gate_code (s : LocationScan) : Z := if is_clean s then 0 else 1.

Definition note_location_blob (scan : LocationScan) (blob : bytes) : LocationScan :=
  match Location_decode blob with
  | Ok loc =>
    if str_is_empty (loc_jti loc)
    then mkLocationScan (scan_scanned scan) (sat_u64 (scan_empty_jti scan + 1))
           (scan_invalid scan) (scan_wrong_type scan)
    else scan
  | Err _ =>
    mkLocationScan (scan_scanned scan) (scan_empty_jti scan) (sat_u64 (scan_invalid scan + 1))
      (scan_wrong_type scan)
  end.

(** ** Histories of a store *)

Inductive SessionOp : Type :=
| OpAdd (s : Session)
| OpDelete (a : AccountId) (c : ChannelId).

Definition run_op {S} `{SessionStorage S} (op : SessionOp) (st : S) : S * result unit SessionError :=
  match op with OpAdd s => st_add s st | OpDelete a c => st_delete a c st end.

(** Every operation of the history succeeded. *)
Inductive runs {S} `{SessionStorage S} : list SessionOp -> S -> S -> Prop :=
| runs_nil st : runs [] st st
| runs_cons op ops st st1 st2 :
    run_op op st = (st1, Ok tt) -> runs ops st1 st2 -> runs (op :: ops) st st2.

(** [op] replaces or removes the location of channel [c] of account [a]. *)
Definition touches (a : string) (c : ChannelId) (op : SessionOp) : bool :=
  match op with
  | OpAdd s => bool_decide (s_account s = a) && bool_decide (mkChannelId (s_channel_id s) = c)
  | OpDelete acc c' => bool_decide (account_str acc = a) && bool_decide (c' = c)
  end.
Definition superseded (a : string) (c : ChannelId) (ops : list SessionOp) : bool :=
  existsb (touches a c) ops.

(** The logins of [a] that no later operation touches, oldest first. *)
Fixpoint surviving (a : string) (ops : list SessionOp) : list Location :=
  match ops with
  | [] => []
  | OpAdd s :: post =>
    if bool_decide (s_account s = a) && negb (superseded a (mkChannelId (s_channel_id s)) post)
    then loc_of s :: surviving a post
    else surviving a post
  | OpDelete _ _ :: post => surviving a post
  end.

(** The session a channel ends with. *)
Fixpoint last_session (c : ChannelId) (ops : list SessionOp) (cur : option Session) : option Session :=
  match ops with
  | [] => cur
  | OpAdd s :: post =>
    last_session c post (if bool_decide (mkChannelId (s_channel_id s) = c) then Some s else cur)
  | OpDelete _ c' :: post =>
    last_session c post (if bool_decide (c' = c) then None else cur)
  end.

(** ** Lemmas *)

Lemma key_location_inj a b d e : key_location a d = key_location b e -> a = b.
Proof. unfold key_location. simpl. by intros [=]. Qed.

Lemma concat_singleton {A} (l : list A) : concat [l] = l.
Proof. simpl. apply app_nil_r. Qed.

Section memory.
Definition mem_slots (a : string) (st : Inner) : list Location :=
  default [] (i_locations st !! key_location a "").
Definition mem_live (c : ChannelId) (st : Inner) : option Session :=
  i_sessions st !! channel_str c.

Lemma mem_add_slots s st a :
  mem_slots a (mem_add s st).1 =
    if decide (a = s_account s)
    then retain_other (mkChannelId (s_channel_id s)) (mem_slots a st) ++ [loc_of s]
    else mem_slots a st.
Proof.
  unfold mem_slots. simpl. case_decide as E; [subst; by rewrite lookup_insert_eq|].
  rewrite lookup_insert_ne; [done|]. intros ?%key_location_inj. congruence.
Qed.

Lemma mem_delete_slots acc c st a :
  mem_slots a (mem_delete acc c st).1 =
    if decide (a = account_str acc) then retain_other c (mem_slots a st) else mem_slots a st.
Proof.
  unfold mem_slots. simpl.
  destruct (i_locations st !! key_location (account_str acc) "") as [l|] eqn:E.
  - case_decide as F; [subst|].
    + destruct (retain_other c l) eqn:G; [rewrite lookup_delete_eq | rewrite lookup_insert_eq];
        by rewrite E; simpl; rewrite G.
    + assert (key_location (account_str acc) "" <> key_location a "")
        by (intros ?%key_location_inj; congruence).
      destruct (retain_other c l); [by rewrite lookup_delete_ne | by rewrite lookup_insert_ne].
  - case_decide; [subst|done]. by rewrite E.
Qed.

Lemma mem_get_locations_slots accs st :
  match mem_get_locations accs st with
  | Ok l => l = concat ((fun a => mem_slots (account_str a) st) <$> accs) /\ l <> []
  | Err NotFound => concat ((fun a => mem_slots (account_str a) st) <$> accs) = []
  | Err _ => True
  end.
Proof.
  unfold mem_get_locations, mem_slots. by destruct (concat _).
Qed.

#[export] Instance MemorySessionStoreOk : SessionStorageOk Inner.
Proof.
  refine {| live := mem_live; slots := mem_slots |}.
  - intros s st st' [= <-] a. apply mem_add_slots.
  - intros s st st' [= <-] c. unfold mem_live. simpl. case_decide as E.
    + subst. by rewrite lookup_insert_eq.
    + rewrite lookup_insert_ne; [done|]. destruct c; simpl. congruence.
  - intros acc c st st' E a. injection E as E. rewrite <- mem_delete_slots. by rewrite <- E.
  - intros acc c st st' E ch. injection E as E. unfold mem_live. rewrite <- E. simpl.
    case_decide as F; [subst; by rewrite lookup_delete_eq|].
    rewrite lookup_delete_ne; [done|]. destruct ch, c; simpl. congruence.
  - intros c st. simpl. unfold mem_get, mem_live. by destruct (_ !! _).
  - intros accs st. apply mem_get_locations_slots.
  - intros acc st. simpl. unfold default_list_locations.
    pose proof (mem_get_locations_slots [acc] st) as H.
    cbn [fmap list_fmap concat] in H. by rewrite app_nil_r in H.
  - intros acc d st. simpl. unfold mem_get_location, mem_slots.
    destruct (_ !! _); simpl; [by destruct (pick _ _)|]. unfold pick. by destruct (str_is_empty d).
Defined.
End memory.

Section traces.
Context {S : Type} `{SessionStorageOk S}.
Implicit Types (st : S) (ops : list SessionOp).

Lemma retain_filter a ops op (l : list Location) :
  List.filter (fun x => negb (superseded a (loc_channel_id x) ops)) 
    (List.filter (fun x => negb (touches a (loc_channel_id x) op)) l)
  = List.filter (fun x => negb (superseded a (loc_channel_id x) (op :: ops))) l.
Proof.
  induction l as [|x l IH]; simpl; [done|].
  unfold superseded in *. simpl.
  destruct (touches a (loc_channel_id x) op); simpl; [done|].
  destruct (existsb _ ops); simpl; by rewrite IH.
Qed.

Lemma run_op_slots op st st' a :
  run_op op st = (st', Ok tt) ->
  slots a st' =
    List.filter (fun x => negb (touches a (loc_channel_id x) op)) (slots a st)
    ++ match op with OpAdd s => if decide (s_account s = a) then [loc_of s] else [] | _ => [] end.
Proof.
  destruct op as [s|acc c]; simpl; intros E.
  - rewrite (add_slots s st st' E). case_decide as F.
    + rewrite decide_True by done. f_equal. apply filter_ext. intros x.
      rewrite (bool_decide_eq_true_2 (s_account s = a)) by done. simpl.
      f_equal. apply bool_decide_ext; split; congruence.
    + rewrite decide_False by done. rewrite app_nil_r. symmetry. apply filter_all.
      intros x _. by rewrite (bool_decide_eq_false_2 (s_account s = a)).
  - rewrite (delete_slots acc c st st' E), app_nil_r. case_decide as F.
    + apply filter_ext. intros x.
      rewrite (bool_decide_eq_true_2 (account_str acc = a)) by done. simpl.
      f_equal. apply bool_decide_ext; split; congruence.
    + symmetry. apply filter_all. intros x _.
      by rewrite (bool_decide_eq_false_2 (account_str acc = a)).
Qed.

Lemma runs_slots ops st st' a :
  runs ops st st' ->
  slots a st' =
    List.filter (fun x => negb (superseded a (loc_channel_id x) ops)) (slots a st)
    ++ surviving a ops.
Proof.
  induction 1 as [st|op ops st st1 st2 E Hr IH].
  - rewrite app_nil_r. symmetry. by apply filter_all.
  - rewrite IH, (run_op_slots op st st1 a E), filter_app, retain_filter, <- app_assoc.
    f_equal. destruct op as [s|acc c]; simpl; [|done].
    case_decide as F; [rewrite bool_decide_eq_true_2 by done | rewrite bool_decide_eq_false_2 by done];
      simpl; [|done].
    by destruct (superseded a (mkChannelId (s_channel_id s)) ops).
Qed.

Lemma runs_live ops st st' c : runs ops st st' -> live c st' = last_session c ops (live c st).
Proof.
  induction 1 as [st|[s|acc d] ops st st1 st2 E Hr IH]; simpl in *; [done|..]; rewrite IH.
  - rewrite (add_live s st st1 E). f_equal. case_decide; case_bool_decide; congruence.
  - rewrite (delete_live acc d st st1 E). f_equal. case_decide; case_bool_decide; congruence.
Qed.

Lemma surviving_channels a ops c :
  c ∈ loc_channel_id <$> surviving a ops -> superseded a c ops = true.
Proof.
  unfold superseded. induction ops as [|[s|acc d] ops IH]; simpl.
  - by intros ?%not_elem_of_nil.
  - intros Hc. apply orb_true_iff.
    destruct (bool_decide (s_account s = a)) eqn:E; simpl in *; [|auto].
    destruct (superseded _ _ _); simpl in *; [auto|].
    apply elem_of_cons in Hc as [->|Hc]; [|auto]. left. by rewrite bool_decide_eq_true_2.
  - intros Hc. apply orb_true_iff. auto.
Qed.

Lemma NoDup_surviving a ops : NoDup (loc_channel_id <$> surviving a ops).
Proof.
  induction ops as [|[s|acc d] ops IH]; simpl; [constructor| |done].
  destruct (bool_decide _); simpl; [|done].
  destruct (superseded a (mkChannelId (s_channel_id s)) ops) eqn:F; simpl; [done|].
  constructor; [|done]. intros Hc%surviving_channels. simpl in Hc. congruence.
Qed.
End traces.

(** ** Properties *)

(** What a session store holds after a history: against any store that meets
    the contract, a history of successful adds and deletes from an empty store
    leaves as the locations of an account exactly the logins that no later
    operation of the history touched, oldest first and one per channel, and a
    channel resolves to its last login unless it was deleted since.  In
    particular a late sign-out of an old channel never removes a newer login. *)
Theorem session_trace_locations {S : Type} `{SessionStorageOk S} (ops : list SessionOp) (st st' : S)
  (Hempty : forall a, slots a st = []) (Hnone : forall c, live c st = None)
  (Hruns : runs ops st st') :
  forall acc,
    slots (account_str acc) st' = surviving (account_str acc) ops
    /\ NoDup (loc_channel_id <$> slots (account_str acc) st')
    /\ (forall l, st_list_locations acc st' = Ok l -> l = surviving (account_str acc) ops)
    /\ (st_list_locations acc st' = Err NotFound -> surviving (account_str acc) ops = [])
    /\ (forall c s, st_get c st' = Ok s -> last_session c ops None = Some s).
Proof.
  intros acc. pose proof (runs_slots ops st st' (account_str acc) Hruns) as E.
  rewrite Hempty in E. simpl in E. pose proof (list_locations_slots acc st') as Hl.
  split_and!.
  - done.
  - rewrite E. apply NoDup_surviving.
  - intros l F. rewrite F in Hl. destruct Hl as [-> _]. done.
  - intros F. rewrite F in Hl. congruence.
  - intros c s F. pose proof (get_live c st') as Hg. rewrite F in Hg.
    rewrite <- (Hnone c), <- (runs_live ops st st' c Hruns). done.
Qed.

Definition demo_session (account channel device : string) : Session :=
  mkSession channel "gw" account "" "" "" device "kim" [] "j" "".
Definition demo_ops : list SessionOp :=
  [OpAdd (demo_session "alice" "old" "ios"); OpAdd (demo_session "alice" "new" "ios");
   OpDelete (mkAccountId "alice") (mkChannelId "old")].
Definition demo_inner : Inner :=
  (mem_delete (mkAccountId "alice") (mkChannelId "old")
     (mem_add (demo_session "alice" "new" "ios")
        (mem_add (demo_session "alice" "old" "ios") Inner_default).1).1).1.

Lemma session_trace_locations_witness :
  mem_slots "alice" demo_inner = [loc_of (demo_session "alice" "new" "ios")].
Proof.
  refine (proj1 (@session_trace_locations Inner _ _ demo_ops Inner_default demo_inner _ _ _
    (mkAccountId "alice"))).
  - intros a. reflexivity.
  - intros c. reflexivity.
  - repeat (eapply runs_cons; [reflexivity|]). apply runs_nil.
Defined.
