(* ===== verification/SessionCache.v ===== *)
(** The write-through cache in front of a session store
    (crates/kim-session/src/cache.rs).

    The moka caches are a library: they enter as the class [MokaCache], whose laws
    say what a read can return (an entry may vanish at any time, by capacity or
    age).  The first part has every function of the file; an operation whose
    store call can interleave with others is composed from the pieces before and
    after the await.  The second part is the step relation of concurrent
    operations with the theorem that location entries are coherent, and the
    reachable state that shows why session rows are not. *)

From S2P Require Import Prelude Wire Pkt Location SessionStore.
Open Scope Z_scope.
Open Scope kim_scope.

Class MokaCache (C : Type -> Type) := {
  cget : forall {V}, string -> C V -> option V;
  cinsert : forall {V}, string -> V -> C V -> C V;
  cinvalidate : forall {V}, string -> C V -> C V;
  cinvalidate_all : forall {V}, C V -> C V
}.
Class MokaCacheOk (C : Type -> Type) `{MokaCache C} := {
  cget_insert : forall V k k' (v x : V) c,
    cget k (cinsert k' v c) = Some x -> (k = k' /\ x = v) \/ (k <> k' /\ cget k c = Some x);
  cget_invalidate : forall V k k' (x : V) c,
    cget k (cinvalidate k' c) = Some x -> k <> k' /\ cget k c = Some x;
  cget_invalidate_all : forall V k (c : C V), cget k (cinvalidate_all c) = None
}.

Definition wrap64 (z : Z) : Z := z mod 2 ^ 64.

Record CachedSessionStore (S : Type) (C : Type -> Type) := mkCached {
  k_inner : S;
  k_sessions : C Session;
  k_locs : C (list Location);
  k_neg : C unit;
  k_channels : gmap string (gset string);
  k_fill_epoch : Z
}.
Arguments mkCached {S C}.
Arguments k_inner {S C}.
Arguments k_sessions {S C}.
Arguments k_locs {S C}.
Arguments k_neg {S C}.
Arguments k_channels {S C}.
Arguments k_fill_epoch {S C}.

Section cached.
Context {S : Type} {C : Type -> Type} `{SessionStorage S, MokaCache C}.
Implicit Types k : CachedSessionStore S C.

Definition track_channel (account channel_id : string) k : CachedSessionStore S C :=
  mkCached (k_inner k) (k_sessions k) (k_locs k) (k_neg k)
    (<[account := {[channel_id]} ∪ default ∅ (k_channels k !! account)]> (k_channels k))
    (k_fill_epoch k).

Definition untrack_channel (account channel_id : string) k : CachedSessionStore S C :=
  match k_channels k !! account with
  | Some set =>
    let set' := set ∖ {[channel_id]} in
    mkCached (k_inner k) (k_sessions k) (k_locs k) (k_neg k)
      (if decide (set' = ∅) then delete account (k_channels k)
       else <[account := set']> (k_channels k))
      (k_fill_epoch k)
  | None => k
  end.

Definition fill_stamp k : Z := k_fill_epoch k.

Definition bump_fill_epoch k : CachedSessionStore S C :=
  mkCached (k_inner k) (k_sessions k) (k_locs k) (k_neg k) (k_channels k)
    (wrap64 (k_fill_epoch k + 1)).

Definition remember_locs (account : string) (slots : list Location) (stamp : Z) k
  : CachedSessionStore S C :=
  if negb (k_fill_epoch k =? stamp) then k
  else mkCached (k_inner k) (k_sessions k) (cinsert account slots (k_locs k))
         (cinvalidate account (k_neg k))
         (<[account := list_to_set ((fun l => channel_str (loc_channel_id l)) <$> slots)]>
            (k_channels k))
         (k_fill_epoch k).

Definition remember_empty (account : string) (stamp : Z) k : CachedSessionStore S C :=
  if negb (k_fill_epoch k =? stamp) then k
  else mkCached (k_inner k) (k_sessions k) (cinvalidate account (k_locs k))
         (cinsert account tt (k_neg k)) (delete account (k_channels k)) (k_fill_epoch k).

Definition invalidate_account (account : string) k : CachedSessionStore S C :=
  if str_is_empty account then k
  else
    let k := bump_fill_epoch k in
    let channels := elements (default ∅ (k_channels k !! account)) in
    let sessions := foldl (fun c ch => cinvalidate ch c) (k_sessions k) channels in
    let sessions :=
      match cget account (k_locs k) with
      | Some slots =>
        foldl (fun c l => cinvalidate (channel_str (loc_channel_id l)) c) sessions slots
      | None => sessions
      end in
    mkCached (k_inner k) sessions (cinvalidate account (k_locs k))
      (cinvalidate account (k_neg k)) (delete account (k_channels k)) (k_fill_epoch k).

Definition invalidate_all k : CachedSessionStore S C :=
  let k := bump_fill_epoch k in
  mkCached (k_inner k) (cinvalidate_all (k_sessions k)) (cinvalidate_all (k_locs k))
    (cinvalidate_all (k_neg k)) ∅ (k_fill_epoch k).

Definition with_inner (st : S) k : CachedSessionStore S C :=
  mkCached st (k_sessions k) (k_locs k) (k_neg k) (k_channels k) (k_fill_epoch k).

(** [add] after the inner store's [add] returned. *)
Definition add_commit (session : Session) k : CachedSessionStore S C :=
  let k := bump_fill_epoch k in
  let k := mkCached (k_inner k) (cinsert (s_channel_id session) session (k_sessions k))
             (k_locs k) (k_neg k) (k_channels k) (k_fill_epoch k) in
  let k := track_channel (s_account session) (s_channel_id session) k in
  mkCached (k_inner k) (k_sessions k) (cinvalidate (s_account session) (k_locs k))
    (cinvalidate (s_account session) (k_neg k)) (k_channels k) (k_fill_epoch k).

Definition cached_add (session : Session) k : CachedSessionStore S C * result unit SessionError :=
  let '(st, r) := st_add session (k_inner k) in
  match r with
  | Err e => (with_inner st k, Err e)
  | Ok _ => (add_commit session (with_inner st k), Ok tt)
  end.

Definition delete_commit (account : AccountId) (channel_id : ChannelId) k
  : CachedSessionStore S C :=
  let k := bump_fill_epoch k in
  let k := mkCached (k_inner k) (cinvalidate (channel_str channel_id) (k_sessions k))
             (k_locs k) (k_neg k) (k_channels k) (k_fill_epoch k) in
  let k := untrack_channel (account_str account) (channel_str channel_id) k in
  mkCached (k_inner k) (k_sessions k) (cinvalidate (account_str account) (k_locs k))
    (cinvalidate (account_str account) (k_neg k)) (k_channels k) (k_fill_epoch k).

Definition cached_delete (account : AccountId) (channel_id : ChannelId) k
  : CachedSessionStore S C * result unit SessionError :=
  let '(st, r) := st_delete account channel_id (k_inner k) in
  match r with
  | Err e => (with_inner st k, Err e)
  | Ok _ => (delete_commit account channel_id (with_inner st k), Ok tt)
  end.

(** [get] after the inner store answered with a session: no stamp is compared. *)
Definition get_commit (channel_id : ChannelId) (s : Session) k : CachedSessionStore S C :=
  let k := track_channel (s_account s) (channel_str channel_id) k in
  mkCached (k_inner k) (cinsert (channel_str channel_id) s (k_sessions k)) (k_locs k) (k_neg k)
    (k_channels k) (k_fill_epoch k).

Definition cached_get (channel_id : ChannelId) k
  : CachedSessionStore S C * result Session SessionError :=
  match cget (channel_str channel_id) (k_sessions k) with
  | Some s => (k, Ok s)
  | None =>
    match st_get channel_id (k_inner k) with
    | Ok s => (get_commit channel_id s k, Ok s)
    | Err NotFound => (k, Err NotFound)
    | Err e => (k, Err e)
    end
  end.

(** The lookup loop of [get_locations]. *)
Fixpoint split_hits (accounts : list AccountId) k : list Location * list AccountId :=
  match accounts with
  | [] => ([], [])
  | acc :: accounts' =>
    let '(hits, misses) := split_hits accounts' k in
    match cget (account_str acc) (k_neg k) with
    | Some _ => (hits, misses)
    | None =>
      match cget (account_str acc) (k_locs k) with
      | Some slots => (slots ++ hits, misses)
      | None => (hits, acc :: misses)
      end
    end
  end.

(** The fill loop of several misses; an error returns early. *)
Fixpoint fill_each (misses : list AccountId) (stamp : Z) k
  : CachedSessionStore S C * result unit SessionError :=
  match misses with
  | [] => (k, Ok tt)
  | acc :: misses' =>
    match st_list_locations acc (k_inner k) with
    | Ok v => fill_each misses' stamp (remember_locs (account_str acc) v stamp k)
    | Err NotFound => fill_each misses' stamp (remember_empty (account_str acc) stamp k)
    | Err e => (k, Err e)
    end
  end.

Definition cached_get_locations (accounts : list AccountId) k
  : CachedSessionStore S C * result (list Location) SessionError :=
  let '(hits, misses) := split_hits accounts k in
  let finish k (hits : list Location) := (k, nonempty_or_not_found hits) in
  match misses with
  | [] => finish k hits
  | _ =>
    let stamp := fill_stamp k in
    match st_get_locations misses (k_inner k) with
    | Ok slots =>
      match misses with
      | [acc] => finish (remember_locs (account_str acc) slots stamp k) (hits ++ slots)
      | _ =>
        match fill_each misses stamp k with
        | (k', Ok _) => finish k' (hits ++ slots)
        | (k', Err e) => (k', Err e)
        end
      end
    | Err NotFound =>
      finish (foldl (fun k acc => remember_empty (account_str acc) stamp k) k misses) hits
    | Err e => (k, Err e)
    end
  end.

Definition cached_get_location (account : AccountId) (device : string) k
  : CachedSessionStore S C * result Location SessionError :=
  let miss :=
    match cget (account_str account) (k_neg k) with
    | Some _ => (k, Err NotFound)
    | None =>
      let stamp := fill_stamp k in
      match st_list_locations account (k_inner k) with
      | Ok slots =>
        match pick slots device with
        | Some loc => (remember_locs (account_str account) slots stamp k, Ok loc)
        | None => (k, Err NotFound)
        end
      | Err NotFound => (remember_empty (account_str account) stamp k, Err NotFound)
      | Err e => (k, Err e)
      end
    end in
  match cget (account_str account) (k_locs k) with
  | Some slots =>
    match pick slots device with
    | Some l => (k, Ok l)
    | None => if str_is_empty device then miss else (k, Err NotFound)
    end
  | None => miss
  end.
End cached.

(** ** Concurrent operations

    A task is an operation waiting at an await point, holding what it has read. *)

Inductive Task : Type :=
| TAddCommit (s : Session)
| TDeleteCommit (a : AccountId) (c : ChannelId)
| TFill (a : string) (stamp : Z)
| TFillDone (a : string) (stamp : Z) (found : option (list Location))
| TGetCommit (c : ChannelId) (s : Session)
| TInvalidate (a : string).

(** An account whose store rows changed while its cache rows were not yet dropped. *)
Definition dirties (a : string) (t : Task) : Prop :=
  match t with
  | TAddCommit s => s_account s = a
  | TDeleteCommit acc _ => account_str acc = a
  | TInvalidate b => b = a
  | _ => False
  end.
Definition dirty (a : string) (ts : list Task) : Prop := exists t, t ∈ ts /\ dirties a t.

Section interleaving.
Context {S : Type} {C : Type -> Type} `{SessionStorageOk S, MokaCacheOk C}.
Implicit Types k : CachedSessionStore S C.

Definition cache_sub {V} (c c' : C V) : Prop := forall a x, cget a c = Some x -> cget a c' = Some x.

Definition fill_commit (a : string) (stamp : Z) (found : option (list Location)) k :=
  match found with
  | Some v => remember_locs a v stamp k
  | None => remember_empty a stamp k
  end.

Inductive cstep : CachedSessionStore S C * list Task -> CachedSessionStore S C * list Task -> Prop :=
| step_add k ts s st' :
    st_add s (k_inner k) = (st', Ok tt) ->
    cstep (k, ts) (with_inner st' k, TAddCommit s :: ts)
| step_add_commit k ts ts' s :
    ts ≡ₚ TAddCommit s :: ts' -> cstep (k, ts) (add_commit s k, ts')
| step_delete k ts a c st' :
    st_delete a c (k_inner k) = (st', Ok tt) ->
    cstep (k, ts) (with_inner st' k, TDeleteCommit a c :: ts)
| step_delete_commit k ts ts' a c :
    ts ≡ₚ TDeleteCommit a c :: ts' -> cstep (k, ts) (delete_commit a c k, ts')
| step_fill_start k ts a :
    cstep (k, ts) (k, TFill a (fill_stamp k) :: ts)
| step_fill_read k ts ts' acc stamp v :
    ts ≡ₚ TFill (account_str acc) stamp :: ts' -> st_list_locations acc (k_inner k) = Ok v ->
    cstep (k, ts) (k, TFillDone (account_str acc) stamp (Some v) :: ts')
| step_fill_read_none k ts ts' acc stamp :
    ts ≡ₚ TFill (account_str acc) stamp :: ts' ->
    st_list_locations acc (k_inner k) = Err NotFound ->
    cstep (k, ts) (k, TFillDone (account_str acc) stamp None :: ts')
| step_fill_commit k ts ts' a stamp found :
    ts ≡ₚ TFillDone a stamp found :: ts' ->
    cstep (k, ts) (fill_commit a stamp found k, ts')
| step_get_read k ts c s :
    cget (channel_str c) (k_sessions k) = None -> st_get c (k_inner k) = Ok s ->
    cstep (k, ts) (k, TGetCommit c s :: ts)
| step_get_commit k ts ts' c s :
    ts ≡ₚ TGetCommit c s :: ts' -> cstep (k, ts) (get_commit c s k, ts')
| step_external k ts a st' :
    a <> ""%string -> (forall b, b <> a -> slots b st' = slots b (k_inner k)) ->
    cstep (k, ts) (with_inner st' k, TInvalidate a :: ts)
| step_invalidate k ts ts' a :
    ts ≡ₚ TInvalidate a :: ts' -> cstep (k, ts) (invalidate_account a k, ts')
| step_invalidate_all k ts :
    cstep (k, ts) (invalidate_all k, ts)
| step_task_lost k ts ts' t :
    ts ≡ₚ t :: ts' -> (forall a, ~ dirties a t) -> cstep (k, ts) (k, ts')
| step_evict k ts sessions locs neg :
    cache_sub sessions (k_sessions k) -> cache_sub locs (k_locs k) -> cache_sub neg (k_neg k) ->
    cstep (k, ts) (mkCached (k_inner k) sessions locs neg (k_channels k) (k_fill_epoch k), ts).

Inductive csteps : nat -> CachedSessionStore S C * list Task
                   -> CachedSessionStore S C * list Task -> Prop :=
| csteps_O x : csteps 0 x x
| csteps_S n x y z : csteps n x y -> cstep y z -> csteps (Datatypes.S n) x z.

(** The freshly wrapped store: nothing cached, epoch 0. *)
Definition cache_empty k : Prop :=
  (forall a, cget a (k_sessions k) = None) /\ (forall a, cget a (k_locs k) = None) /\
  (forall a, cget a (k_neg k) = None) /\ k_channels k = ∅ /\ k_fill_epoch k = 0.

(** *** The invariant *)

Definition coherent_at (a : string) k : Prop :=
  (forall v, cget a (k_locs k) = Some v -> v = slots a (k_inner k)) /\
  (forall u, cget a (k_neg k) = Some u -> slots a (k_inner k) = []).

Definition task_ok k (ts : list Task) (t : Task) : Prop :=
  match t with
  | TFill a stamp => stamp <= k_fill_epoch k
  | TFillDone a stamp found =>
    stamp <= k_fill_epoch k /\
    (stamp = k_fill_epoch k -> dirty a ts \/ default [] found = slots a (k_inner k))
  | TInvalidate a => a <> ""%string
  | _ => True
  end.

Definition cache_inv (n : nat) (x : CachedSessionStore S C * list Task) : Prop :=
  0 <= k_fill_epoch x.1 <= Z.of_nat n /\
  (forall a, dirty a x.2 \/ coherent_at a x.1) /\
  (forall t, t ∈ x.2 -> task_ok x.1 x.2 t).

Lemma dirty_perm a ts ts' : ts ≡ₚ ts' -> dirty a ts <-> dirty a ts'.
Proof. intros E. unfold dirty. by setoid_rewrite E. Qed.
Lemma dirty_cons a t ts : dirty a (t :: ts) <-> dirties a t \/ dirty a ts.
Proof.
  unfold dirty. setoid_rewrite elem_of_cons. split.
  - intros (x & [->|?] & ?); eauto.
  - intros [?|(x & ? & ?)]; eauto.
Qed.

Lemma coherent_invalidated a k inner' sessions' channels' epoch' :
  coherent_at a (mkCached inner' sessions' (cinvalidate a (k_locs k)) (cinvalidate a (k_neg k))
                   channels' epoch').
Proof. split; intros v Hv; simpl in *; apply cget_invalidate in Hv as [? _]; done. Qed.

(** Dropping rows, and leaving the rows of the account in the store alone, keeps
    it coherent. *)
Lemma coherent_sub a k k' :
  coherent_at a k -> slots a (k_inner k') = slots a (k_inner k) ->
  (forall v, cget a (k_locs k') = Some v -> cget a (k_locs k) = Some v) ->
  (forall v, cget a (k_neg k') = Some v -> cget a (k_neg k) = Some v) ->
  coherent_at a k'.
Proof. intros [H1' H2'] E Hl Hn. split; intros v Hv; rewrite E; eauto. Qed.

Lemma task_ok_bumped k k' ts ts' t :
  task_ok k ts t -> k_fill_epoch k < k_fill_epoch k' -> task_ok k' ts' t.
Proof. destruct t; simpl; intros; try done; try lia. Qed.

(** Same epoch: a pending fill stays valid while the rows it read do. *)
Lemma task_ok_same k k' ts ts' t :
  task_ok k ts t -> k_fill_epoch k = k_fill_epoch k' ->
  (forall a, dirty a ts -> dirty a ts') ->
  (forall a, dirty a ts' \/ slots a (k_inner k') = slots a (k_inner k)) ->
  task_ok k' ts' t.
Proof.
  destruct t as [| |a st|a st found| |]; simpl; intros Ht E Hd Hs; rewrite <- ?E; try done.
  destruct Ht as [? Ht]. split; [done|]. intros F.
  destruct (Hs a) as [?|Es]; [auto|]. rewrite Es. destruct (Ht F); auto.
Qed.

Lemma cache_inv_empty k : cache_empty k -> cache_inv 0 (k, []).
Proof.
  intros (_ & Hl & Hn & _ & E). split_and!; simpl; [lia..| |].
  - intros a. right. split; intros v; [rewrite Hl | rewrite Hn]; done.
  - by intros t ?%not_elem_of_nil.
Qed.

(** A store write whose cache rows are not dropped yet. *)
Lemma cache_inv_write n k ts st' a t :
  cache_inv n (k, ts) -> dirties a t -> task_ok (with_inner st' k) (t :: ts) t ->
  (forall b, b <> a -> slots b st' = slots b (k_inner k)) ->
  cache_inv (Datatypes.S n) (with_inner st' k, t :: ts).
Proof.
  intros (He & Hc & Ht) Hd Hok Hs. simpl in *.
  assert (Hb : forall b, dirty b (t :: ts) \/ slots b st' = slots b (k_inner k)).
  { intros b. destruct (decide (b = a)) as [->|]; [|right; by apply Hs].
    left. apply dirty_cons. by left. }
  split_and!; simpl; [lia..| |].
  - intros b. destruct (Hb b) as [|Eb]; [by left|].
    destruct (Hc b) as [?|?]; [left; apply dirty_cons; by right|].
    right. by apply (coherent_sub b k).
  - intros u [->|Hu]%elem_of_cons; [done|].
    apply (task_ok_same k _ ts); [by apply Ht|done| |done].
    intros b ?. apply dirty_cons. by right.
Qed.

(** Dropping the cache rows of what a task dirtied, under a new epoch. *)
Lemma cache_inv_bump n k k' ts ts' (del : list Task) :
  cache_inv n (k, ts) -> Z.of_nat (Datatypes.S n) < 2 ^ 64 ->
  ts ≡ₚ del ++ ts' -> k_inner k' = k_inner k -> k_fill_epoch k' = wrap64 (k_fill_epoch k + 1) ->
  (forall b t, t ∈ del -> dirties b t -> coherent_at b k') ->
  (forall b, coherent_at b k -> coherent_at b k') ->
  cache_inv (Datatypes.S n) (k', ts').
Proof.
  intros (He & Hc & Ht) Hn Hp Hi Ee Hdel Hco. simpl in *.
  unfold wrap64 in Ee. rewrite Z.mod_small in Ee by lia.
  split_and!; simpl; [lia..| |].
  - intros b. destruct (Hc b) as [(t & Hin & Hd)|?]; [|right; by apply Hco].
    rewrite Hp in Hin. apply elem_of_app in Hin as [Hin|Hin]; [right; eauto|].
    left. by exists t.
  - intros t Hin. apply (task_ok_bumped k _ ts); [|lia].
    apply Ht. rewrite Hp. apply elem_of_app. by right.
Qed.

(** A step that leaves epoch and store alone. *)
Lemma cache_inv_same n k k' ts ts' :
  cache_inv n (k, ts) -> k_inner k' = k_inner k -> k_fill_epoch k' = k_fill_epoch k ->
  (forall b, dirty b ts -> dirty b ts') ->
  (forall b, dirty b ts \/ coherent_at b k -> dirty b ts \/ coherent_at b k') ->
  (forall t, t ∈ ts' -> t ∈ ts \/ task_ok k' ts' t) ->
  cache_inv (Datatypes.S n) (k', ts').
Proof.
  intros (He & Hc & Ht) Hi Ee Hd Hco Hts. simpl in *. split_and!; simpl; [lia..| |].
  - intros b. destruct (Hco b (Hc b)); auto.
  - intros t Hin. destruct (Hts t Hin) as [?|?]; [|done].
    apply (task_ok_same k _ ts); auto. intros b. right. by rewrite Hi.
Qed.

Lemma coherent_cinvalidate b k k' a :
  coherent_at b k -> k_inner k' = k_inner k ->
  k_locs k' = cinvalidate a (k_locs k) -> k_neg k' = cinvalidate a (k_neg k) ->
  coherent_at b k'.
Proof.
  intros Hb Hi Hl Hn. apply (coherent_sub b k); [done|by rewrite Hi|..]; intros v.
  - rewrite Hl. by intros [_ ?]%cget_invalidate.
  - rewrite Hn. by intros [_ ?]%cget_invalidate.
Qed.

Lemma coherent_dropped a k' k0 :
  k_locs k' = cinvalidate a (k_locs k0) -> k_neg k' = cinvalidate a (k_neg k0) ->
  coherent_at a k'.
Proof.
  intros Hl Hn. split; intros v; [rewrite Hl | rewrite Hn]; by intros [? _]%cget_invalidate.
Qed.

Lemma untrack_channel_fields a c k :
  let k' := untrack_channel a c k in
  k_inner k' = k_inner k /\ k_locs k' = k_locs k /\ k_neg k' = k_neg k /\
  k_fill_epoch k' = k_fill_epoch k /\ k_sessions k' = k_sessions k.
Proof. unfold untrack_channel. by destruct (k_channels k !! a). Qed.

(** What a fill installs is what the store holds, unless the account is dirty. *)
Lemma fill_commit_coherent a stamp found k ts b :
  task_ok k ts (TFillDone a stamp found) ->
  dirty b ts \/ coherent_at b k -> dirty b ts \/ coherent_at b (fill_commit a stamp found k).
Proof.
  intros [_ Ht] [?|Hb]; [by left|].
  destruct (k_fill_epoch k =? stamp) eqn:E.
  2:{ right. destruct found; simpl; unfold remember_locs, remember_empty; by rewrite E. }
  apply Z.eqb_eq in E. destruct (Ht ltac:(done)) as [?|Es].
  - destruct (decide (b = a)) as [->|Hne]; [by left|right].
    destruct found; simpl; unfold remember_locs, remember_empty; rewrite (proj2 (Z.eqb_eq _ _) E);
      simpl; (apply (coherent_sub b k); [done|done|..]; intros v; simpl).
    + intros [[? _]|[_ ?]]%cget_insert; done.
    + by intros [_ ?]%cget_invalidate.
    + by intros [_ ?]%cget_invalidate.
    + intros [[? _]|[_ ?]]%cget_insert; done.
  - right. destruct Hb as [Hl Hn].
    destruct found; simpl; unfold remember_locs, remember_empty; rewrite (proj2 (Z.eqb_eq _ _) E);
      simpl; split; intros v; simpl.
    + intros [[-> ->]|[_ ?]]%cget_insert; auto.
    + intros [_ ?]%cget_invalidate. eauto.
    + intros [_ ?]%cget_invalidate. eauto.
    + intros [[-> _]|[_ ?]]%cget_insert; eauto.
Qed.

Lemma fill_commit_fields a stamp found k :
  k_inner (fill_commit a stamp found k) = k_inner k /\
  k_fill_epoch (fill_commit a stamp found k) = k_fill_epoch k.
Proof.
  destruct found; simpl; unfold remember_locs, remember_empty; by destruct (negb _).
Qed.

Lemma dirty_remove t ts ts' b :
  ts ≡ₚ t :: ts' -> (forall a, ~ dirties a t) -> dirty b ts -> dirty b ts'.
Proof. intros E Ht. rewrite (dirty_perm _ _ _ E), dirty_cons. intros [?|?]; [by destruct (Ht b)|done]. Qed.

Lemma in_remove (t u : Task) ts ts' : ts ≡ₚ t :: ts' -> u ∈ ts' -> u ∈ ts.
Proof. intros -> ?. by right. Qed.

Lemma dirty_remove_add t u ts ts' b :
  ts ≡ₚ t :: ts' -> (forall a, ~ dirties a t) -> dirty b ts -> dirty b (u :: ts').
Proof. intros. apply dirty_cons. right. by eapply dirty_remove. Qed.

Lemma task_ok_read n k ts ts' a stamp found ts'' :
  cache_inv n (k, ts) -> ts ≡ₚ TFill a stamp :: ts' -> default [] found = slots a (k_inner k) ->
  task_ok k ts'' (TFillDone a stamp found).
Proof.
  intros (_ & _ & Ht) Hp Hf. pose proof (Ht (TFill a stamp)) as Hst. simpl in *. split; [|auto].
  apply Hst. rewrite Hp. by left.
Qed.

Lemma cstep_inv n x y :
  cache_inv n x -> Z.of_nat (Datatypes.S n) < 2 ^ 64 -> cstep x y ->
  cache_inv (Datatypes.S n) y.
Proof.
  intros Hinv Hn Hstep. destruct Hstep.
  - eapply cache_inv_write; [done|done|done|]. intros b Hb.
    rewrite (add_slots _ _ _ H3). by rewrite decide_False.
  - eapply (cache_inv_bump n k _ ts ts' [TAddCommit s]); [done..| |].
    + intros b t ->%list_elem_of_singleton <-. by eapply coherent_dropped.
    + intros b Hb. by apply (coherent_cinvalidate b k _ (s_account s)).
  - eapply cache_inv_write; [done|done|done|]. intros b Hb.
    rewrite (delete_slots _ _ _ _ H3). by rewrite decide_False.
  - unfold delete_commit.
    set (k1 := mkCached _ (cinvalidate (channel_str c) _) _ _ _ _).
    destruct (untrack_channel_fields (account_str a) (channel_str c) k1) as (Ei & El & En & Ee & _).
    eapply (cache_inv_bump n k _ ts ts' [TDeleteCommit a c]);
      [done|done|done|simpl; by rewrite Ei|simpl; by rewrite Ee| |].
    + intros b t ->%list_elem_of_singleton <-.
      eapply coherent_dropped; simpl; [by rewrite El | by rewrite En].
    + intros b Hb. apply (coherent_cinvalidate b k _ (account_str a)); simpl; [done|by rewrite Ei|by rewrite El|by rewrite En].
  - apply (cache_inv_same n k k ts); [done..| |done|].
    + intros b ?. apply dirty_cons. by right.
    + intros t [->|?]%elem_of_cons; [right; simpl; unfold fill_stamp; lia | by left].
  - apply (cache_inv_same n k k ts); [done..| |done|].
    + intros b. apply (dirty_remove_add _ _ _ _ _ H3); intros x [].
    + intros t [->|Hin]%elem_of_cons; [right|left; by eapply in_remove].
      eapply task_ok_read; [done|exact H3|].
      pose proof (list_locations_slots acc (k_inner k)) as Hl. rewrite H4 in Hl. by destruct Hl as [-> _].
  - apply (cache_inv_same n k k ts); [done..| |done|].
    + intros b. apply (dirty_remove_add _ _ _ _ _ H3); intros x [].
    + intros t [->|Hin]%elem_of_cons; [right|left; by eapply in_remove].
      eapply task_ok_read; [done|exact H3|].
      pose proof (list_locations_slots acc (k_inner k)) as Hl. by rewrite H4 in Hl.
  - destruct (fill_commit_fields a stamp found k) as [Ei Ee].
    apply (cache_inv_same n k _ ts); [done|done|done| | |].
    + intros b. apply (dirty_remove _ _ _ _ H3); try done; intros x [].
    + intros b. apply (fill_commit_coherent a stamp found k ts b).
      destruct Hinv as (_ & _ & Ht). apply Ht. simpl. rewrite H3. by left.
    + intros t Hin. left. by eapply in_remove.
  - apply (cache_inv_same n k k ts); [done..| |done|].
    + intros b ?. apply dirty_cons. by right.
    + intros t [->|?]%elem_of_cons; [by right | by left].
  - apply (cache_inv_same n k _ ts); [done..| |done|].
    + intros b. apply (dirty_remove _ _ _ _ H3); try done; intros x [].
    + intros t Hin. left. by eapply in_remove.
  - by eapply cache_inv_write.
  - assert (Ha : a <> ""%string).
    { destruct Hinv as (_ & _ & Ht). apply (Ht (TInvalidate a)). simpl. rewrite H3. by left. }
    unfold invalidate_account, str_is_empty. rewrite bool_decide_eq_false_2 by done.
    eapply (cache_inv_bump n k _ ts ts' [TInvalidate a]); [done..| |].
    + intros b t ->%list_elem_of_singleton <-. by eapply coherent_dropped.
    + intros b Hb. by apply (coherent_cinvalidate b k _ a).
  - eapply (cache_inv_bump n k _ ts ts []); [done..| |].
    + by intros b t ?%not_elem_of_nil.
    + intros b Hb. split; intros v; simpl; by rewrite cget_invalidate_all.
  - apply (cache_inv_same n k k ts); [done..| |done|].
    + intros b. apply (dirty_remove _ _ _ _ H3); try done; intros x [].
    + intros u Hin. left. by eapply in_remove.
  - apply (cache_inv_same n k _ ts); [done..| |].
    + intros b [?|Hb]; [by left|right]. apply (coherent_sub b k); [done|done|..]; intros v; auto.
    + intros t Hin. by left.
Qed.

Lemma csteps_inv n x y :
  csteps n x y -> Z.of_nat n < 2 ^ 64 -> cache_inv 0 x -> cache_inv n y.
Proof.
  induction 1 as [x|n x y z _ IH Hs]; intros Hn Hx; [done|].
  apply (cstep_inv n y z); [apply IH; [lia|done]|done|done].
Qed.

(** *** Reads of coherent accounts *)

Definition all_slots (accs : list AccountId) (st : S) : list Location :=
  concat ((fun a => slots (account_str a) st) <$> accs).

Lemma split_hits_spec accs k hits misses :
  (forall acc, acc ∈ accs -> coherent_at (account_str acc) k) ->
  split_hits accs k = (hits, misses) ->
  all_slots accs (k_inner k) ≡ₚ hits ++ all_slots misses (k_inner k).
Proof.
  unfold all_slots. revert hits misses.
  induction accs as [|acc accs IH]; intros hits misses Hc; simpl; [by intros [= <- <-]|].
  destruct (split_hits accs k) as [hs ms] eqn:E.
  specialize (IH hs ms ltac:(intros; apply Hc; by right) eq_refl).
  destruct (Hc acc ltac:(by left)) as [Hl Hn].
  destruct (cget (account_str acc) (k_neg k)) as [u|] eqn:En.
  { intros [= <- <-]. by rewrite (Hn u eq_refl). }
  destruct (cget (account_str acc) (k_locs k)) as [v|] eqn:El; intros [= <- <-]; simpl.
  - rewrite <- (Hl v eq_refl), IH. by rewrite <- app_assoc.
  - rewrite IH, !(Permutation_app_comm hs), <- app_assoc. done.
Qed.

Lemma fill_each_inner misses stamp k : k_inner (fill_each misses stamp k).1 = k_inner k.
Proof.
  revert k; induction misses as [|acc misses IH]; intros k; simpl; [done|].
  destruct (st_list_locations acc (k_inner k)) as [v|[]]; try done; rewrite IH.
  - by destruct (fill_commit_fields (account_str acc) stamp (Some v) k).
  - by destruct (fill_commit_fields (account_str acc) stamp None k).
Qed.

(** An error of the fill loop is not [NotFound]. *)
Lemma fill_each_error misses stamp k k' e : fill_each misses stamp k = (k', Err e) -> e <> NotFound.
Proof.
  revert k; induction misses as [|acc misses IH]; intros k; simpl; [done|].
  destruct (st_list_locations acc (k_inner k)) as [v|[]]; try (by apply IH); by intros [= <- <-].
Qed.

Definition answers (l : list Location) (r : result (list Location) SessionError) : Prop :=
  match r with
  | Ok l' => l' ≡ₚ l /\ l' <> []
  | Err NotFound => l = []
  | Err _ => True
  end.

Lemma answers_nonempty l l' : l ≡ₚ l' -> answers l (nonempty_or_not_found l').
Proof.
  intros E. destruct l'; simpl; [by apply Permutation_nil_r|]. by rewrite E.
Qed.

Lemma cached_get_locations_coherent accs k :
  (forall acc, acc ∈ accs -> coherent_at (account_str acc) k) ->
  answers (all_slots accs (k_inner k)) (cached_get_locations accs k).2.
Proof.
  intros Hc. unfold cached_get_locations.
  destruct (split_hits accs k) as [hits misses] eqn:E.
  pose proof (split_hits_spec accs k hits misses Hc E) as Hs.
  pose proof (get_locations_slots misses (k_inner k)) as Hg. fold (all_slots misses (k_inner k)) in Hg.
  destruct misses as [|m misses]; [simpl; apply answers_nonempty; by rewrite app_nil_r in Hs|].
  destruct (st_get_locations (m :: misses) (k_inner k)) as [v|[]] eqn:F.
  - destruct Hg as [-> _]. destruct misses as [|m2 misses]; [by apply answers_nonempty|].
    destruct (fill_each _ _ k) as [k' [?|e]] eqn:G; simpl; [by apply answers_nonempty|].
    by pose proof (fill_each_error _ _ _ _ _ G); destruct e.
  - simpl. apply answers_nonempty. by rewrite Hg, app_nil_r in Hs.
  - done.
  - done.
  - done.
Qed.

Lemma cached_get_location_coherent acc device k :
  coherent_at (account_str acc) k ->
  match (cached_get_location acc device k).2 with
  | Ok l => pick (slots (account_str acc) (k_inner k)) device = Some l
  | Err NotFound => pick (slots (account_str acc) (k_inner k)) device = None
  | Err _ => True
  end.
Proof.
  intros [Hl Hn]. unfold cached_get_location.
  assert (Hpick : forall d, pick [] d = None) by (intros d; unfold pick; by destruct (str_is_empty d)).
  assert (Hmiss : forall r : result Location SessionError, r =
    (match cget (account_str acc) (k_neg k) with
    | Some _ => (k, Err NotFound)
    | None =>
      let stamp := fill_stamp k in
      match st_list_locations acc (k_inner k) with
      | Ok slots =>
        match pick slots device with
        | Some loc => (remember_locs (account_str acc) slots stamp k, Ok loc)
        | None => (k, Err NotFound)
        end
      | Err NotFound => (remember_empty (account_str acc) stamp k, Err NotFound)
      | Err e => (k, Err e)
      end
    end).2 ->
    match r with
    | Ok l => pick (slots (account_str acc) (k_inner k)) device = Some l
    | Err NotFound => pick (slots (account_str acc) (k_inner k)) device = None
    | Err _ => True
    end).
  { intros r ->. pose proof (list_locations_slots acc (k_inner k)) as Hg.
    destruct (cget _ (k_neg k)) as [u|] eqn:En; simpl; [by rewrite (Hn u eq_refl)|].
    destruct (st_list_locations acc (k_inner k)) as [v|[]]; simpl; try done.
    - destruct Hg as [<- _]. by destruct (pick v device).
    - by rewrite Hg. }
  destruct (cget _ (k_locs k)) as [v|] eqn:El; [|by apply Hmiss].
  rewrite <- (Hl v eq_refl) in *. destruct (pick v device) eqn:Ep; simpl; [done|].
  destruct (str_is_empty device); [|done]. specialize (Hmiss _ eq_refl).
  exact Hmiss.
Qed.
End interleaving.

(** ** A concrete cache *)

#[export] Instance gmap_cache : MokaCache (gmap string) := {|
  cget V k c := c !! k;
  cinsert V k v c := <[k := v]> c;
  cinvalidate V k c := delete k c;
  cinvalidate_all V c := ∅
|}.
#[export] Instance gmap_cache_ok : MokaCacheOk (gmap string).
Proof.
  split; simpl; intros.
  - apply lookup_insert_Some in H. naive_solver.
  - apply lookup_delete_Some in H. naive_solver.
  - done.
Defined.

Definition fresh_cache : CachedSessionStore Inner (gmap string) :=
  mkCached Inner_default ∅ ∅ ∅ ∅ 0.

(** ** Properties *)

(** (C18) Reads through the cache are exact under every interleaving.  Start from an
    empty cache over any store meeting its contract; run, in any order and with
    any overlap, adds, deletes, miss fills, session reads, writes by other
    processes with their invalidation messages, reconnect flushes, lost tasks and
    evictions (fewer than 2^64 steps, so the epoch does not wrap).  For accounts
    with no write whose invalidation is still under way, [get_locations] answers
    with exactly the locations of the store and [get_location] with the store's
    pick, and "not found" is answered only when it is true. *)
Theorem cached_reads_exact {S : Type} {C : Type -> Type}
  `{SessionStorageOk S, MokaCacheOk C} (k0 k : CachedSessionStore S C) (ts : list Task) (n : nat)
  (Hempty : cache_empty k0) (Hsteps : csteps n (k0, []) (k, ts)) (Hn : Z.of_nat n < 2 ^ 64) :
  (forall accs, (forall acc, acc ∈ accs -> ~ dirty (account_str acc) ts) ->
     answers (all_slots accs (k_inner k)) (cached_get_locations accs k).2)
  /\ (forall acc device, ~ dirty (account_str acc) ts ->
     match (cached_get_location acc device k).2 with
     | Ok l => pick (slots (account_str acc) (k_inner k)) device = Some l
     | Err NotFound => pick (slots (account_str acc) (k_inner k)) device = None
     | Err _ => True
     end).
Proof.
  destruct (csteps_inv n _ _ Hsteps Hn (cache_inv_empty k0 Hempty)) as (_ & Hc & _).
  assert (Hco : forall a, ~ dirty a ts -> coherent_at a k) by (intros a Ha; by destruct (Hc a)).
  split.
  - intros accs Ha. apply cached_get_locations_coherent. eauto.
  - intros acc device Ha. apply cached_get_location_coherent. eauto.
Qed.

Definition demo_cached : CachedSessionStore Inner (gmap string) :=
  (cached_add (demo_session "alice" "c1" "web") fresh_cache).1.

Lemma demo_cached_steps : csteps 2 (fresh_cache, []) (demo_cached, []).
Proof.
  eapply csteps_S; [eapply csteps_S; [apply csteps_O|]|].
  - apply (step_add _ _ (demo_session "alice" "c1" "web")). reflexivity.
  - apply (step_add_commit _ _ []). done.
Defined.

Lemma cached_reads_exact_witness :
  pick (mem_slots "alice" (k_inner demo_cached)) "web" = Some (loc_of (demo_session "alice" "c1" "web")).
Proof.
  exact (proj2 (cached_reads_exact fresh_cache demo_cached [] 2
    ltac:(repeat split) demo_cached_steps ltac:(reflexivity))
    (mkAccountId "alice") "web"%string
    (fun H => match H with ex_intro _ t (conj Hin _) => not_elem_of_nil t Hin end)).
Defined.

(** Session rows have no such guarantee: [get] installs what it read without
    comparing a stamp.  A read that overlaps a delete leaves the deleted session in
    the cache, with nothing in flight any more, and the next [get] answers with it
    while the store says "not found" (as do later ones, until the entry is evicted,
    invalidated or past its time to live). *)
Theorem cached_session_stale :
  exists n (k : CachedSessionStore Inner (gmap string)) (c : ChannelId) (s : Session),
    csteps n (fresh_cache, []) (k, []) /\
    st_get c (k_inner k) = Err NotFound /\ cached_get c k = (k, Ok s).
Proof.
  set (s := demo_session "alice" "c1" "web").
  set (a := mkAccountId "alice"). set (c := mkChannelId "c1").
  set (k1 := mkCached (k_inner demo_cached) ∅ (k_locs demo_cached) (k_neg demo_cached)
               (k_channels demo_cached) (k_fill_epoch demo_cached)).
  set (k2 := delete_commit a c (with_inner (st_delete a c (k_inner k1)).1 k1)).
  exists 7%nat, (get_commit c s k2), c, s. split; [|split; reflexivity].
  eapply csteps_S; [eapply csteps_S; [eapply csteps_S; [eapply csteps_S; [eapply csteps_S;
    [apply demo_cached_steps|]|]|]|]|].
  - apply (step_evict demo_cached [] ∅ (k_locs demo_cached) (k_neg demo_cached)); by intros b x.
  - apply (step_get_read k1 [] c s); reflexivity.
  - apply (step_delete k1 [TGetCommit c s] a c). reflexivity.
  - apply (step_delete_commit _ _ [TGetCommit c s] a c). done.
  - apply (step_get_commit _ _ [] c s). done.
Qed.
