(* ===== verification/Store.v ===== *)
(** The message store of services/chat/src/store/mod.rs: the data, the pure helpers,
    and every operation of [MemoryMessageStore], which is the reference the
    durable store follows.

    Each operation takes the store and returns the new store with its result.  The
    clocks are arguments: [now] is [Instant::now()] and [unix] is
    [now_unix_nano()], both in nanoseconds.  A [HashMap] is a [gmap]; where the
    code iterates over one, the model uses [map_to_list], and the proofs use of it
    only that it lists the entries.  [insert] takes its lock twice, so it is
    composed of the phases [insert_check], [insert_ids] and [insert_commit], which
    StoreConc.v interleaves. *)

From S2P Require Import Prelude Wire.
Open Scope Z_scope.
Open Scope kim_scope.

(** ** Constants *)

Definition DIRECTION_RECV : Z := 0.
Definition DIRECTION_SEND : Z := 1.
Definition OFFLINE_SYNC_INDEX_COUNT : Z := 2000.
Definition MESSAGE_MAX_COUNT_PER_PAGE : Z := 200.
Definition INBOX_PAGE : Z := 50.
Definition INBOX_MAX : Z := 100.
Definition HISTORY_PAGE : Z := 50.
Definition HISTORY_MAX : Z := 100.
Definition NANOS : Z := 1000000000.
Definition ACK_TTL : Z := 30 * 24 * 3600 * NANOS.
Definition DAY_NANOS : Z := 24 * 60 * 60 * 1000000000.
Definition EXPIRES_NANOS : Z := 15 * DAY_NANOS.

(** ** idgen.rs *)

Inductive IdError : Type := Init (msg : string) | Next (msg : string) | Overflow.

(** The trait, and the promise its clients rely on: ids are unique and increase. *)
Class IdGenerator (G : Type) := { next_id : G -> G * result Z IdError }.
Class IdGeneratorOk (G : Type) `{IdGenerator G} := {
  id_bound : G -> Z;
  id_bound_pos : forall g, 0 <= id_bound g;
  next_id_ok : forall g g' id, next_id g = (g', Ok id) -> id_bound g <= id < id_bound g';
  next_id_err : forall g g' e, next_id g = (g', Err e) -> id_bound g <= id_bound g';
  next_id_i64 : forall g g' id, next_id g = (g', Ok id) -> in_i64 id
}.

(** [SequenceIdGen]: a wrapping counter; a negative value is reported as overflow. *)
Record SequenceIdGen := mkSequenceIdGen { seq_n : Z }.
Definition sequence_next_id (g : SequenceIdGen) : SequenceIdGen * result Z IdError :=
  let id := seq_n g in
  let n := if id =? i64_max then i64_min else id + 1 in
  (mkSequenceIdGen n, if id <? 0 then Err Overflow else Ok id).
#[export] Instance SequenceIdGen_next : IdGenerator SequenceIdGen := {| next_id := sequence_next_id |}.

(** [env] is the variable KIM_SNOWFLAKE_NODE. *)
Definition resolve_snowflake_node (env : option string) (cfg : option Z) : result Z IdError :=
  let from_env :=
    match env with
    | Some s => if str_is_empty (str_trim s) then None else uint_parse 65535 (str_trim s)
    | None => None
    end in
  let n := match from_env with Some n => n | None => default 1 cfg end in
  if 31 <? n then Err (Init ("snowflake node " +:+ nat_to_dec n +:+ " out of 0..=31")) else Ok n.
Example snowflake_node_of_env :
  resolve_snowflake_node (Some " 07 ") (Some 3) = Ok 7 /\ resolve_snowflake_node (Some "no") (Some 3) = Ok 3 /\
  resolve_snowflake_node (Some "65536") None = Ok 1 /\ is_ok (resolve_snowflake_node (Some "32") None) = false.
Proof. vm_compute. by split_and!. Qed.

(** ** Data *)

Inductive StoreError : Type :=
| Id (e : IdError)
| Http (status : Z) (msg : string)
| Invalid (msg : string)
| StoreNotFound
| Backend (msg : string).

Record DeliveryTarget := mkDeliveryTarget { dt_account : string; dt_target_id : string }.

Record InsertMessage := mkInsertMessage {
  im_sender : string;
  im_dest : string;
  im_send_time : Z;
  im_msg_type : Z;
  im_body : string;
  im_extra : string;
  im_client_id : string;
  im_online_targets : list DeliveryTarget
}.

Inductive MessageKind : Type := User | Group.
#[export] Instance MessageKind_eq_dec : EqDecision MessageKind.
Proof. solve_decision. Defined.
#[export] Instance MessageKind_countable : Countable MessageKind.
Proof.
  by refine (inj_countable' (fun k => match k with User => true | Group => false end)
    (fun b => if b : bool then User else Group) _); intros [].
Defined.

Record Fanout := mkFanout {
  fo_msg_type : Z;
  fo_body : string;
  fo_extra : string;
  fo_sender : string;
  fo_dest : string;
  fo_kind : MessageKind;
  fo_recipients : list string
}.

Record InsertResult := mkInsertResult {
  ir_message_id : Z;
  ir_send_time : Z;
  ir_duplicate : bool;
  ir_fanout : Fanout
}.

Record StoredMessage := mkStoredMessage {
  sm_message_id : Z;
  sm_app : string;
  sm_kind : MessageKind;
  sm_sender : string;
  sm_dest : string;
  sm_send_time : Z;
  sm_msg_type : Z;
  sm_body : string;
  sm_extra : string
}.

Record MessageIndexRow := mkMessageIndexRow {
  mx_message_id : Z;
  mx_direction : Z;
  mx_send_time : Z;
  mx_account_b : string;
  mx_group : string
}.

Record MessageContentRow := mkMessageContentRow {
  mc_message_id : Z;
  mc_msg_type : Z;
  mc_body : string;
  mc_extra : string
}.

Record InboxEntry := mkInboxEntry {
  ie_dest : string;
  ie_kind : MessageKind;
  ie_last_message_id : Z;
  ie_last_send_time : Z;
  ie_last_body : string;
  ie_last_sender : string;
  ie_last_msg_type : Z;
  ie_unread : Z;
  ie_last_read_message_id : Z;
  ie_max_message_id : Z;
  ie_state_version : Z
}.

Record ConversationStateKey := mkConversationStateKey { ck_dest : string; ck_kind : MessageKind }.

Record ConversationReadState := mkConversationReadState {
  cs_dest : string;
  cs_kind : MessageKind;
  cs_last_read_message_id : Z;
  cs_max_message_id : Z;
  cs_unread : Z;
  cs_version : Z;
  cs_exists : bool
}.

Definition missing (dest : string) (kind : MessageKind) : ConversationReadState :=
  mkConversationReadState dest kind 0 0 0 0 false.

Definition read_state (e : InboxEntry) : ConversationReadState :=
  mkConversationReadState (ie_dest e) (ie_kind e) (ie_last_read_message_id e)
    (Z.max (ie_max_message_id e) (ie_last_message_id e)) (ie_unread e) (ie_state_version e) true.

Record HistoryEntry := mkHistoryEntry {
  he_message_id : Z;
  he_msg_type : Z;
  he_body : string;
  he_extra : string;
  he_sender : string;
  he_send_time : Z;
  he_direction : Z
}.

Record BotPendingItem := mkBotPendingItem { bp_message_id : Z; bp_body : string; bp_send_time : Z }.

(** ** Pure helpers *)

Definition collect_ack_ids (message_id : Z) (extra : list Z) : list Z :=
  let start := if negb (message_id =? 0) then [message_id] else [] in
  start ++ unique_from start (List.filter (fun id => negb (id =? 0)) extra).

Definition unique_accounts (accounts : list string) : list string := unique accounts.

Definition recv_accounts (req : InsertMessage) (members : option (list string)) : list string :=
  match members with
  | None => [im_dest req]
  | Some l => unique_accounts (List.filter (fun m => negb (bool_decide (m = im_sender req))) l)
  end.

(** An index row as the fanout helpers see it: (account_a, account_b, direction, group). *)
Abbreviation row4 := (string * string * Z * string)%type.

Definition fanout_from_index_rows (msg_type : Z) (body extra : string) (rows : list row4) : Fanout :=
  match rows with
  | [] => mkFanout msg_type body extra "" "" User []
  | (a0, b0, _, _) :: _ =>
    let recipients := unique_accounts ((fun r : row4 => r.1.1.1) <$> rows) in
    match List.find (fun r : row4 => negb (str_is_empty r.2)) rows with
    | Some (_, account_b, _, group_id) =>
      mkFanout msg_type body extra account_b group_id Group recipients
    | None =>
      let '(sender, dest) :=
        match List.find (fun r : row4 => r.1.2 =? DIRECTION_SEND) rows with
        | Some (a, b, _, _) => (a, b)
        | None => (b0, a0)
        end in
      mkFanout msg_type body extra sender dest User recipients
    end
  end.

Definition group_direction (sender m : string) : Z :=
  if bool_decide (m = sender) then DIRECTION_SEND else DIRECTION_RECV.

Definition fanout_from_write (kind : MessageKind) (req : InsertMessage) (members : list string)
  : Fanout :=
  let tuples : list row4 :=
    match kind with
    | User => [(im_sender req, im_dest req, DIRECTION_SEND, ""%string);
               (im_dest req, im_sender req, DIRECTION_RECV, ""%string)]
    | Group => (fun m => (m, im_sender req, group_direction (im_sender req) m, im_dest req)) <$> members
    end in
  fanout_from_index_rows (im_msg_type req) (im_body req) (im_extra req) tuples.

Definition clamp_page (requested default max : Z) : Z :=
  if requested <=? 0 then default else Z.min requested max.

Definition clamp_start (start now : Z) : Z :=
  let earliest := sat_i64 (now - EXPIRES_NANOS) in
  if (start =? 0) || (start <? earliest) then earliest else start.

(** ** The state of the memory store *)

Record InboxRow := mkInboxRow {
  r_app : string;
  r_account_a : string;
  r_account_b : string;
  r_direction : Z;
  r_message_id : Z;
  r_group_id : string;
  r_send_time : Z
}.

Record PendingEntry := mkPendingEntry {
  pe_created_at : Z;
  pe_expires_at : Z;
  pe_acked_at : option Z
}.

(** (app, account, target, message), (app, account, dest, kind), ... *)
Abbreviation pending_key := (string * string * string * Z)%type.
Abbreviation state_key := (string * string * string * Z)%type.
Abbreviation reads_key := (string * string * string * string)%type.

Record MInner := mkMInner {
  contents : gmap Z StoredMessage;
  indexes_by_account : gmap string (gmap string (list InboxRow));
  indexes_by_message : gmap Z (list InboxRow);
  idempotency : gmap (string * string * string) (Z * Z);
  reads : gmap reads_key Z;
  state_versions : gmap state_key Z;
  next_version : Z;
  pending : gmap pending_key PendingEntry;
  bot_turns : gmap (string * string * Z) Z
}.
Definition MInner_default : MInner := mkMInner ∅ ∅ ∅ ∅ ∅ ∅ 0 ∅ ∅.

Record AckEntry := mkAckEntry { ae_message_id : Z; ae_expires_at : Z }.

Record MemoryMessageStore (G : Type) := mkStore {
  idgen : G;
  ack_index : gmap string AckEntry;
  pending_receipt : bool;
  (** [ack_observer]: absent, or the latencies it was given. *)
  observed : option (list Z);
  inner : MInner
}.
Arguments mkStore {G}.
Arguments idgen {G}.
Arguments ack_index {G}.
Arguments pending_receipt {G}.
Arguments observed {G}.
Arguments inner {G}.

Definition with_ack {G} (g : G) (pending : bool) (observer : bool) : MemoryMessageStore G :=
  mkStore g ∅ pending (if observer then Some [] else None) MInner_default.

Definition ack_get (account : string) (now : Z) (ack : gmap string AckEntry) : Z :=
  match ack !! account with
  | Some e => if now <? ae_expires_at e then ae_message_id e else 0
  | None => 0
  end.
Definition ack_set (account : string) (message_id now : Z) (ack : gmap string AckEntry)
  : gmap string AckEntry :=
  <[account := mkAckEntry message_id (now + ACK_TTL)]> ack.

(** *** Updates of one field *)

Definition with_pending (p : gmap pending_key PendingEntry) (i : MInner) : MInner :=
  mkMInner (contents i) (indexes_by_account i) (indexes_by_message i) (idempotency i) (reads i)
    (state_versions i) (next_version i) p (bot_turns i).
Definition with_contents (c : gmap Z StoredMessage) (i : MInner) : MInner :=
  mkMInner c (indexes_by_account i) (indexes_by_message i) (idempotency i) (reads i)
    (state_versions i) (next_version i) (pending i) (bot_turns i).
Definition with_idempotency (m : gmap (string * string * string) (Z * Z)) (i : MInner) : MInner :=
  mkMInner (contents i) (indexes_by_account i) (indexes_by_message i) m (reads i)
    (state_versions i) (next_version i) (pending i) (bot_turns i).
Definition with_bot_turns (m : gmap (string * string * Z) Z) (i : MInner) : MInner :=
  mkMInner (contents i) (indexes_by_account i) (indexes_by_message i) (idempotency i) (reads i)
    (state_versions i) (next_version i) (pending i) m.
Definition with_reads (m : gmap reads_key Z) (i : MInner) : MInner :=
  mkMInner (contents i) (indexes_by_account i) (indexes_by_message i) (idempotency i) m
    (state_versions i) (next_version i) (pending i) (bot_turns i).
Definition with_inner {G} (i : MInner) (st : MemoryMessageStore G) : MemoryMessageStore G :=
  mkStore (idgen st) (ack_index st) (pending_receipt st) (observed st) i.
Definition with_idgen {G} (g : G) (st : MemoryMessageStore G) : MemoryMessageStore G :=
  mkStore g (ack_index st) (pending_receipt st) (observed st) (inner st).

(** ** impl Inner *)

Definition bump_version (app account dest : string) (kind : Z) (i : MInner) : MInner :=
  let version := sat_u64 (next_version i + 1) in
  mkMInner (contents i) (indexes_by_account i) (indexes_by_message i) (idempotency i) (reads i)
    (<[(app, account, dest, kind) := version]> (state_versions i)) version (pending i) (bot_turns i).

Definition account_rows (app account : string) (i : MInner) : list InboxRow :=
  match indexes_by_account i !! app with
  | Some m => default [] (m !! account)
  | None => []
  end.

Definition push_index (row : InboxRow) (i : MInner) : MInner :=
  let by_message :=
    <[r_message_id row := default [] (indexes_by_message i !! r_message_id row) ++ [row]]>
      (indexes_by_message i) in
  let accounts := default ∅ (indexes_by_account i !! r_app row) in
  let by_account :=
    <[r_app row :=
        <[r_account_a row := default [] (accounts !! r_account_a row) ++ [row]]> accounts]>
      (indexes_by_account i) in
  let i := mkMInner (contents i) by_account by_message (idempotency i) (reads i)
             (state_versions i) (next_version i) (pending i) (bot_turns i) in
  let '(dest, kind) :=
    if str_is_empty (r_group_id row) then (r_account_b row, 0) else (r_group_id row, 1) in
  bump_version (r_app row) (r_account_a row) dest kind i.

Definition read_key (app account dest : string) (kind : MessageKind) : reads_key :=
  match kind with
  | User => (app, account, dest, ""%string)
  | Group => (app, account, ""%string, dest)
  end.

Definition kind_i16 (kind : MessageKind) : Z := match kind with User => 0 | Group => 1 end.

(** The row belongs to the conversation of [kind] with [dest]. *)
Definition dest_ok (kind : MessageKind) (dest : string) (r : InboxRow) : bool :=
  match kind with
  | User => str_is_empty (r_group_id r) && bool_decide (r_account_b r = dest)
  | Group => bool_decide (r_group_id r = dest)
  end.

(** The loop of [conversation_state]: (max id, unread, exists). *)
Definition state_step (last_read : Z) (kind : MessageKind) (dest : string)
  (s : Z * Z * bool) (row : InboxRow) : Z * Z * bool :=
  let '(max_message_id, unread, ex) := s in
  if negb (dest_ok kind dest row) then s
  else
    (Z.max max_message_id (r_message_id row),
     if (r_direction row =? DIRECTION_RECV) && (last_read <? r_message_id row)
     then sat_i32 (unread + 1) else unread,
     true).

Definition conversation_state (app account dest : string) (kind : MessageKind) (i : MInner)
  : ConversationReadState :=
  let last_read := default 0 (reads i !! read_key app account dest kind) in
  let '(max_message_id, unread, ex) :=
    foldl (state_step last_read kind dest) (0, 0, false) (account_rows app account i) in
  let version := default 0 (state_versions i !! (app, account, dest, kind_i16 kind)) in
  mkConversationReadState dest kind last_read max_message_id unread version ex.

(** ** MemoryMessageStore *)

Definition row4_of (r : InboxRow) : row4 := (r_account_a r, r_account_b r, r_direction r, r_group_id r).

Definition message_rows (message_id : Z) (i : MInner) : list InboxRow :=
  default [] (indexes_by_message i !! message_id).

Definition fanout_from_memory (i : MInner) (message_id : Z) : result Fanout StoreError :=
  match contents i !! message_id with
  | None => Err (Backend "fanout missing")
  | Some content =>
    Ok (fanout_from_index_rows (sm_msg_type content) (sm_body content) (sm_extra content)
          (row4_of <$> message_rows message_id i))
  end.

(** [entry(key).or_insert(value)]. *)
Definition or_insert {K V} `{Countable K} (k : K) (v : V) (m : gmap K V) : gmap K V :=
  match m !! k with Some _ => m | None => <[k := v]> m end.

Definition RECEIPT_TTL : Z := 15 * 24 * 3600 * NANOS.

Definition upsert_receipts (app : string) (message_id : Z) (req : InsertMessage)
  (members : option (list string)) (now : Z) (i : MInner) : MInner :=
  let recv := recv_accounts req members in
  let entry := mkPendingEntry now (now + RECEIPT_TTL) None in
  with_pending
    (foldl (fun p t =>
       if str_is_empty (dt_target_id t) || negb (bool_decide (dt_account t ∈ recv)) then p
       else or_insert (app, dt_account t, dt_target_id t, message_id) entry p)
       (pending i) (im_online_targets req))
    i.

(** [if self.pending_receipt { upsert_receipts(..) }]. *)
Definition receipts_if (on : bool) (app : string) (message_id : Z) (req : InsertMessage)
  (members : option (list string)) (now : Z) (i : MInner) : MInner :=
  if on then upsert_receipts app message_id req members now i else i.

Definition user_rows (app : string) (req : InsertMessage) (message_id : Z) : list InboxRow :=
  [mkInboxRow app (im_sender req) (im_dest req) DIRECTION_SEND message_id "" (im_send_time req);
   mkInboxRow app (im_dest req) (im_sender req) DIRECTION_RECV message_id "" (im_send_time req)].

Definition index_rows (app : string) (kind : MessageKind) (req : InsertMessage)
  (members : list string) (message_id : Z) : list InboxRow :=
  match kind with
  | User => user_rows app req message_id
  | Group =>
    (fun m => mkInboxRow app m (im_sender req) (group_direction (im_sender req) m) message_id
                (im_dest req) (im_send_time req)) <$> members
  end.

Definition content_of (app : string) (kind : MessageKind) (req : InsertMessage) (message_id : Z)
  : StoredMessage :=
  mkStoredMessage message_id app kind (im_sender req) (im_dest req) (im_send_time req)
    (im_msg_type req) (im_body req) (im_extra req).

Definition push_rows (rows : list InboxRow) (i : MInner) : MInner :=
  foldl (fun i row => push_index row i) i rows.

Section store.
Context {G : Type} `{IdGenerator G}.
Abbreviation store := (MemoryMessageStore G).
Implicit Types st : store.

Definition members_opt (kind : MessageKind) (members : list string) : option (list string) :=
  match kind with Group => Some members | User => None end.

(** First phase, under the read lock: a known client id is answered at once (its
    receipts are added under a write lock of their own). *)
Definition insert_check (app : string) (kind : MessageKind) (req : InsertMessage)
  (members : list string) (now : Z) st : store * option (result InsertResult StoreError) :=
  if str_is_empty (im_client_id req) then (st, None)
  else match idempotency (inner st) !! (app, im_sender req, im_client_id req) with
  | None => (st, None)
  | Some (message_id, send_time) =>
    match fanout_from_memory (inner st) message_id with
    | Err e => (st, Some (Err e))
    | Ok fanout =>
      (with_inner (receipts_if (pending_receipt st) app message_id req (members_opt kind members)
                     now (inner st)) st,
       Some (Ok (mkInsertResult message_id send_time true fanout)))
    end
  end.

(** [for _ in &indexes { self.idgen.next_id()?; }]. *)
Fixpoint burn_ids (n : nat) (g : G) : G * result unit IdError :=
  match n with
  | O => (g, Ok tt)
  | S n' =>
    match next_id g with
    | (g', Err e) => (g', Err e)
    | (g', Ok _) => burn_ids n' g'
    end
  end.

(** Between the locks: the message id, then one id per index row. *)
Definition insert_ids (kind : MessageKind) (members : list string) (g : G) : G * result Z IdError :=
  match next_id g with
  | (g', Err e) => (g', Err e)
  | (g', Ok message_id) =>
    match burn_ids (match kind with User => 2 | Group => length members end) g' with
    | (g'', Err e) => (g'', Err e)
    | (g'', Ok _) => (g'', Ok message_id)
    end
  end.

(** The writes of a new message. *)
Definition insert_write (app : string) (kind : MessageKind) (req : InsertMessage)
  (members : list string) (message_id now : Z) (on : bool) (i : MInner) : MInner :=
  let i :=
    if str_is_empty (im_client_id req) then i
    else with_idempotency
           (<[(app, im_sender req, im_client_id req) := (message_id, im_send_time req)]>
              (idempotency i)) i in
  let i := with_contents (<[message_id := content_of app kind req message_id]> (contents i)) i in
  let i := push_rows (index_rows app kind req members message_id) i in
  receipts_if on app message_id req (members_opt kind members) now i.

(** Second phase, under the write lock: the client id is looked up again. *)
Definition insert_commit (app : string) (kind : MessageKind) (req : InsertMessage)
  (members : list string) (message_id now : Z) st : store * result InsertResult StoreError :=
  let fresh :=
    (with_inner (insert_write app kind req members message_id now (pending_receipt st) (inner st)) st,
     Ok (mkInsertResult message_id (im_send_time req) false (fanout_from_write kind req members))) in
  if str_is_empty (im_client_id req) then fresh
  else match idempotency (inner st) !! (app, im_sender req, im_client_id req) with
  | None => fresh
  | Some (id, send_time) =>
    let i := receipts_if (pending_receipt st) app id req (members_opt kind members) now (inner st) in
    (with_inner i st,
     let? fanout := fanout_from_memory i id in
     Ok (mkInsertResult id send_time true fanout))
  end.

Definition insert (app : string) (kind : MessageKind) (req : InsertMessage)
  (members : list string) (now : Z) st : store * result InsertResult StoreError :=
  match insert_check app kind req members now st with
  | (st, Some r) => (st, r)
  | (st, None) =>
    match insert_ids kind members (idgen st) with
    | (g, Err e) => (with_idgen g st, Err (Id e))
    | (g, Ok message_id) => insert_commit app kind req members message_id now (with_idgen g st)
    end
  end.

Definition insert_user (app : string) (req : InsertMessage) (now : Z) st :=
  insert app User req [] now st.
Definition insert_group (app : string) (req : InsertMessage) (members : list string) (now : Z) st :=
  insert app Group req members now st.

Definition sent_time (account : string) (message_id now unix : Z) st : Z :=
  let id := if message_id =? 0 then ack_get account now (ack_index st) else message_id in
  let start :=
    if 0 <? id then
      match contents (inner st) !! id with
      | Some c => sm_send_time c
      | None => sat_i64 (unix - DAY_NANOS)
      end
    else 0 in
  clamp_start start unix.

Definition set_ack (account : string) (message_id now : Z) st : store :=
  mkStore (idgen st) (ack_set account message_id now (ack_index st)) (pending_receipt st)
    (observed st) (inner st).

(** The receipts loop of [ack]: the rows acked now and their latencies. *)
Definition ack_step (app account target_id : string) (now : Z)
  (s : gmap pending_key PendingEntry * list Z) (id : Z) : gmap pending_key PendingEntry * list Z :=
  let '(p, obs) := s in
  let key := (app, account, target_id, id) in
  match p !! key with
  | Some row =>
    match pe_acked_at row with
    | None =>
      (<[key := mkPendingEntry (pe_created_at row) (pe_expires_at row) (Some now)]> p,
       obs ++ [now - pe_created_at row])
    | Some _ => s
    end
  | None => s
  end.

Definition ack (app account target_id : string) (message_ids : list Z) (now : Z) st
  : store * result unit StoreError :=
  if negb (pending_receipt st) || str_is_empty target_id then
    let id := default 0 (head message_ids) in
    if id =? 0 then (st, Ok tt) else (set_ack account id now st, Ok tt)
  else if str_is_empty target_id || bool_decide (message_ids = []) then (st, Ok tt)
  else
    let '(p, obs) :=
      foldl (ack_step app account target_id now) (pending (inner st), []) message_ids in
    (mkStore (idgen st) (ack_index st) (pending_receipt st)
       (option_map (fun log => log ++ obs) (observed st)) (with_pending p (inner st)),
     Ok tt).

Definition index_row_of (r : InboxRow) : MessageIndexRow :=
  mkMessageIndexRow (r_message_id r) (r_direction r) (r_send_time r) (r_account_b r) (r_group_id r).

Definition live_receipt (app account target_id : string) (now : Z)
  (x : pending_key * PendingEntry) : bool :=
  let '((a, acc, tid, _), e) := x in
  bool_decide (a = app) && bool_decide (acc = account) && bool_decide (tid = target_id)
  && bool_decide (pe_acked_at e = None) && (now <? pe_expires_at e).

Definition pair_le (x y : Z * Z) : bool :=
  (x.1 <? y.1) || ((x.1 =? y.1) && (x.2 <=? y.2)).

(** The unexpired, unacked receipts of a target, oldest first. *)
Definition live_receipts (app account target_id : string) (now : Z) (i : MInner) : list (Z * Z) :=
  sort_by pair_le
    ((fun x : pending_key * PendingEntry => (pe_created_at x.2, x.1.2))
       <$> List.filter (live_receipt app account target_id now) (map_to_list (pending i))).

Definition find_index_row (app account : string) (id : Z) (i : MInner) : option MessageIndexRow :=
  option_map index_row_of
    (List.find (fun r => r_message_id r =? id) (account_rows app account i)).

Definition offline_index (app account target_id : string) (message_id : Z) (resume : bool)
  (now unix : Z) st : store * result (list MessageIndexRow * bool) StoreError :=
  if negb (pending_receipt st) || str_is_empty target_id then
    let start := sent_time account message_id now unix st in
    let rows :=
      index_row_of <$> List.filter (fun r => start <? r_send_time r)
                         (account_rows app account (inner st)) in
    let rows := sort_by (fun a b => mx_send_time a <=? mx_send_time b) rows in
    let rows := take (Z.to_nat OFFLINE_SYNC_INDEX_COUNT) rows in
    (if 0 <? message_id then set_ack account message_id now st else st, Ok (rows, false))
  else if str_is_empty target_id then (st, Ok ([], false))
  else if negb resume && negb (message_id =? 0) then (st, Ok ([], false))
  else
    let pending := live_receipts app account target_id now (inner st) in
    let cap := MESSAGE_MAX_COUNT_PER_PAGE in
    let has_more := resume && (cap <? len pending) in
    let pending :=
      if negb resume then take (Z.to_nat cap) pending
      else
        let pending := take (Z.to_nat (cap + 1)) pending in
        if cap <? len pending then take (Z.to_nat cap) pending else pending in
    let rows := omap (fun x => find_index_row app account x.2 (inner st)) pending in
    (st, Ok (rows, has_more)).

Definition backfill_delivery (app account target_id : string) (now unix : Z) st
  : store * result unit StoreError :=
  if negb (pending_receipt st) || str_is_empty target_id then (st, Ok tt)
  else
    let cutoff := sat_i64 (unix - EXPIRES_NANOS) in
    let entry := mkPendingEntry now (now + RECEIPT_TTL) None in
    let ids :=
      r_message_id <$> List.filter (fun r => cutoff <=? r_send_time r)
                         (account_rows app account (inner st)) in
    (with_inner
       (with_pending
          (foldl (fun p id => or_insert (app, account, target_id, id) entry p)
             (pending (inner st)) ids) (inner st)) st, Ok tt).

Definition gc_expired_deliveries (limit now : Z) st : store * result Z StoreError :=
  let keys :=
    (fun x : pending_key * PendingEntry => (pe_expires_at x.2, x.1))
      <$> List.filter (fun x : pending_key * PendingEntry => pe_expires_at x.2 <? now)
            (map_to_list (pending (inner st))) in
  let keys := sort_by (fun a b => a.1 <=? b.1) keys in
  let keys := take (Z.to_nat (Z.max limit 0)) keys in
  (with_inner (with_pending (foldl (fun p k => delete k.2 p) (pending (inner st)) keys) (inner st)) st,
   Ok (len keys)).

(** (count, age of the oldest in seconds) of the receipts still outstanding. *)
Definition pending_delivery_stats (now : Z) st : result (Z * Z) StoreError :=
  let step (s : Z * option Z) (x : pending_key * PendingEntry) :=
    let e := x.2 in
    if bool_decide (pe_acked_at e = None) && (now <? pe_expires_at e) then
      (s.1 + 1,
       Some (match s.2 with None => pe_created_at e | Some o => Z.min o (pe_created_at e) end))
    else s in
  let '(count, oldest) := foldl step (0, None) (map_to_list (pending (inner st))) in
  let age := match oldest with Some t => Z.max 0 (now - t) / NANOS | None => 0 end in
  Ok (count, age).

Definition offline_content (app account : string) (message_ids : list Z) st
  : result (list MessageContentRow) StoreError :=
  Ok (omap (fun id =>
        match contents (inner st) !! id with
        | None => None
        | Some c =>
          if negb (bool_decide (sm_app c = app)) then None
          else if negb (existsb (fun r => r_message_id r =? id) (account_rows app account (inner st)))
          then None
          else Some (mkMessageContentRow (sm_message_id c) (sm_msg_type c) (sm_body c) (sm_extra c))
        end) message_ids).

(** *** inbox *)

Definition row_conversation (row : InboxRow) : MessageKind * string :=
  if str_is_empty (r_group_id row) then (User, r_account_b row) else (Group, r_group_id row).

Definition row_sender (account : string) (row : InboxRow) : string :=
  if r_direction row =? DIRECTION_SEND then account else r_account_b row.

Definition inbox_step (app account : string) (i : MInner)
  (latest : gmap (MessageKind * string) InboxEntry) (row : InboxRow)
  : gmap (MessageKind * string) InboxEntry :=
  let '(kind, dest) := row_conversation row in
  let last_read := default 0 (reads i !! read_key app account dest kind) in
  let unread_inc :=
    if (r_direction row =? DIRECTION_RECV) && (last_read <? r_message_id row) then 1 else 0 in
  let version := default 0 (state_versions i !! (app, account, dest, kind_i16 kind)) in
  let entry :=
    default (mkInboxEntry dest kind 0 0 "" "" 0 0 last_read 0 version) (latest !! (kind, dest)) in
  let unread := sat_i32 (ie_unread entry + unread_inc) in
  let max_id := Z.max (ie_max_message_id entry) (r_message_id row) in
  let newer :=
    (ie_last_send_time entry <? r_send_time row)
    || ((r_send_time row =? ie_last_send_time entry)
        && (ie_last_message_id entry <? r_message_id row)) in
  let entry :=
    if newer then
      let '(body, ty) :=
        match contents i !! r_message_id row with
        | Some c => (sm_body c, sm_msg_type c)
        | None => (ie_last_body entry, ie_last_msg_type entry)
        end in
      mkInboxEntry (ie_dest entry) (ie_kind entry) (r_message_id row) (r_send_time row) body
        (row_sender account row) ty unread last_read max_id version
    else
      mkInboxEntry (ie_dest entry) (ie_kind entry) (ie_last_message_id entry)
        (ie_last_send_time entry) (ie_last_body entry) (ie_last_sender entry)
        (ie_last_msg_type entry) unread last_read max_id version in
  <[(kind, dest) := entry]> latest.

(** Newest first, by time and then by id. *)
Definition inbox_le (a b : InboxEntry) : bool :=
  (ie_last_send_time b <? ie_last_send_time a)
  || ((ie_last_send_time a =? ie_last_send_time b)
      && (ie_last_message_id b <=? ie_last_message_id a)).

Definition inbox_map (app account : string) (i : MInner) : gmap (MessageKind * string) InboxEntry :=
  foldl (inbox_step app account i) ∅ (account_rows app account i).

Definition inbox (app account : string) (limit : Z) st : result (list InboxEntry) StoreError :=
  let cap := clamp_page limit INBOX_PAGE INBOX_MAX in
  let items := (map_to_list (inbox_map app account (inner st))).*2 in
  Ok (take (Z.to_nat cap) (sort_by inbox_le items)).

(** *** history *)

Definition history_entry (account : string) (i : MInner) (r : InboxRow) : option HistoryEntry :=
  option_map (fun c =>
    mkHistoryEntry (r_message_id r) (sm_msg_type c) (sm_body c) (sm_extra c)
      (row_sender account r) (r_send_time r) (r_direction r)) (contents i !! r_message_id r).

Definition history (app account dest : string) (kind : MessageKind) (before_id limit : Z) st
  : result (list HistoryEntry) StoreError :=
  let cap := clamp_page limit HISTORY_PAGE HISTORY_MAX in
  let rows :=
    omap (history_entry account (inner st))
      (List.filter (fun r => dest_ok kind dest r && ((before_id <=? 0) || (r_message_id r <? before_id)))
         (account_rows app account (inner st))) in
  let rows := sort_by (fun a b => he_message_id b <=? he_message_id a) rows in
  Ok (take (Z.to_nat cap) rows).

Definition mark_read (app account dest : string) (kind : MessageKind) (message_id : Z) st
  : store * result ConversationReadState StoreError :=
  if str_is_empty dest then (st, Ok (missing dest kind))
  else
    let i := inner st in
    let i :=
      if 0 <? message_id then
        let key := read_key app account dest kind in
        let slot := default 0 (reads i !! key) in
        let slot := if slot <? message_id then message_id else slot in
        bump_version app account dest (kind_i16 kind) (with_reads (<[key := slot]> (reads i)) i)
      else i in
    (with_inner i st, Ok (conversation_state app account dest kind i)).

Definition conversation_states (app account : string) (keys : list ConversationStateKey) st
  : result (list ConversationReadState) StoreError :=
  Ok ((fun k => conversation_state app account (ck_dest k) (ck_kind k) (inner st)) <$> keys).

(** *** bots *)

Definition bot_invalid : result InsertResult StoreError := Err (Invalid "in_reply_to").

(** The checks on the message that is answered. *)
Definition bot_orig_ok (app owner bot : string) (in_reply_to : Z) (i : MInner) : bool :=
  match contents i !! in_reply_to with
  | None => false
  | Some orig =>
    bool_decide (sm_app orig = app) && bool_decide (sm_kind orig = User)
    && bool_decide (sm_sender orig = owner) && bool_decide (sm_dest orig = bot)
    && existsb (fun r =>
         bool_decide (r_account_a r = owner) && bool_decide (r_account_b r = bot)
         && (r_direction r =? DIRECTION_SEND) && str_is_empty (r_group_id r))
         (message_rows in_reply_to i)
  end.

Definition set_bot_turn (key : string * string * Z) (reply : Z) (i : MInner) : MInner :=
  with_bot_turns (<[key := reply]> (bot_turns i)) i.

Definition insert_bot_reply (app owner bot : string) (in_reply_to : Z) (req : InsertMessage)
  (now : Z) st : store * result InsertResult StoreError :=
  if negb (bool_decide (im_sender req = bot)) || negb (bool_decide (im_dest req = owner))
  then (st, Err (Invalid "sender must be bot, dest must be owner"))
  else if in_reply_to <=? 0 then (st, bot_invalid)
  else if negb (bot_orig_ok app owner bot in_reply_to (inner st)) then (st, bot_invalid)
  else
    let turn_key := (app, bot, in_reply_to) in
    match bot_turns (inner st) !! turn_key with
    | Some reply_id =>
      (st,
       let? fanout := fanout_from_memory (inner st) reply_id in
       let send_time :=
         match contents (inner st) !! reply_id with Some c => sm_send_time c | None => 0 end in
       Ok (mkInsertResult reply_id send_time true fanout))
    | None =>
      let write st :=
        match next_id (idgen st) with
        | (g, Err e) => (with_idgen g st, Err (Id e))
        | (g, Ok message_id) =>
          let i := insert_write app User req [] message_id now false (inner st) in
          let i := set_bot_turn turn_key message_id i in
          let i := receipts_if (pending_receipt st) app message_id req None now i in
          (with_inner i (with_idgen g st),
           Ok (mkInsertResult message_id (im_send_time req) false (fanout_from_write User req [])))
        end in
      if str_is_empty (im_client_id req) then write st
      else match idempotency (inner st) !! (app, im_sender req, im_client_id req) with
      | None => write st
      | Some (message_id, send_time) =>
        let i := set_bot_turn turn_key message_id (inner st) in
        let i := receipts_if (pending_receipt st) app message_id req None now i in
        (with_inner i st,
         let? fanout := fanout_from_memory i message_id in
         Ok (mkInsertResult message_id send_time true fanout))
      end
    end.

Definition bot_pending_row (app owner bot : string) (i : MInner) (r : InboxRow) : bool :=
  bool_decide (r_account_b r = bot) && (r_direction r =? DIRECTION_SEND)
  && str_is_empty (r_group_id r)
  && bool_decide (bot_turns i !! (app, bot, r_message_id r) = None).

Definition bot_pending_item (owner : string) (i : MInner) (r : InboxRow) : option BotPendingItem :=
  match contents i !! r_message_id r with
  | Some c =>
    if bool_decide (sm_sender c = owner)
    then Some (mkBotPendingItem (r_message_id r) (sm_body c) (r_send_time r)) else None
  | None => None
  end.

Definition bot_pending (app owner bot : string) (limit : Z) st
  : result (list BotPendingItem) StoreError :=
  let cap := clamp_page limit 20 50 in
  let items :=
    omap (bot_pending_item owner (inner st))
      (List.filter (bot_pending_row app owner bot (inner st)) (account_rows app owner (inner st))) in
  let items := sort_by (fun a b => bp_message_id a <=? bp_message_id b) items in
  Ok (take (Z.to_nat cap) items).

(** *** purge_peer_dm *)

Definition peer_row (account peer : string) (r : InboxRow) : bool :=
  str_is_empty (r_group_id r)
  && ((bool_decide (r_account_a r = account) && bool_decide (r_account_b r = peer))
      || (bool_decide (r_account_a r = peer) && bool_decide (r_account_b r = account))).

(** The account rows of one side: kept rows, ids of the dropped ones. *)
Definition purge_side (app account peer who : string)
  (s : gmap string (gmap string (list InboxRow)) * list Z)
  : gmap string (gmap string (list InboxRow)) * list Z :=
  let '(by_account, ids) := s in
  match by_account !! app with
  | Some by_acct =>
    match by_acct !! who with
    | Some rows =>
      (<[app := <[who := List.filter (fun r => negb (peer_row account peer r)) rows]> by_acct]>
         by_account,
       ids ++ (r_message_id <$> List.filter (peer_row account peer) rows))
    | None => s
    end
  | None => s
  end.

Definition purge_id (app account peer : string) (i : MInner) (id : Z) : MInner :=
  let '(by_message, cts) :=
    match indexes_by_message i !! id with
    | Some rows =>
      let rows := List.filter (fun r => negb (bool_decide (r_app r = app) && peer_row account peer r)) rows in
      if bool_decide (rows = []) then (delete id (indexes_by_message i), delete id (contents i))
      else (<[id := rows]> (indexes_by_message i), contents i)
    | None => (indexes_by_message i, delete id (contents i))
    end in
  mkMInner cts (indexes_by_account i) by_message (idempotency i) (reads i) (state_versions i)
    (next_version i)
    (filter (fun x : pending_key * PendingEntry => ~ (x.1.1.1.1 = app /\ x.1.2 = id)) (pending i))
    (bot_turns i).

Definition same_pair (account peer a b : string) : Prop :=
  (a = account /\ b = peer) \/ (a = peer /\ b = account).
#[export] Instance same_pair_dec account peer a b : Decision (same_pair account peer a b) := _.

Definition purge_peer_dm (app account peer : string) st : store * result unit StoreError :=
  if str_is_empty account || str_is_empty peer || bool_decide (account = peer) then (st, Ok tt)
  else
    let i := inner st in
    let '(by_account, ids) :=
      purge_side app account peer peer
        (purge_side app account peer account (indexes_by_account i, [])) in
    let ids := unique (sort_by Z.leb ids) in
    let i := mkMInner (contents i) by_account (indexes_by_message i) (idempotency i) (reads i)
               (state_versions i) (next_version i) (pending i) (bot_turns i) in
    let i := foldl (purge_id app account peer) i ids in
    (with_inner
       (mkMInner (contents i) (indexes_by_account i) (indexes_by_message i)
          (filter (fun x : (string * string * string) * (Z * Z) =>
             ~ (x.1.1.1 = app /\ x.2.1 ∈ ids /\ (x.1.1.2 = account \/ x.1.1.2 = peer)))
             (idempotency i))
          (filter (fun x : reads_key * Z =>
             ~ (x.1.1.1.1 = app /\ x.1.2 = ""%string /\ same_pair account peer x.1.1.1.2 x.1.1.2))
             (reads i))
          (filter (fun x : state_key * Z =>
             ~ (x.1.1.1.1 = app /\ x.1.2 = 0 /\ same_pair account peer x.1.1.1.2 x.1.1.2))
             (state_versions i))
          (next_version i) (pending i)
          (filter (fun x : (string * string * Z) * Z =>
             ~ (x.1.1.1 = app /\ (x.1.1.2 = peer \/ x.1.1.2 = account)))
             (bot_turns i))) st, Ok tt).
End store.
