(* ===== verification/StoreInv.v ===== *)
(** The invariant of the message store and its preservation by every operation.

    [store_wf] ties the maps of [MInner] together: contents are stored under their
    own id and below the id generator's bound; the rows of a message are exactly
    those its content writes, and the per-account index is the same relation read
    the other way; client-id, bot-turn and receipt entries point at contents of
    their own app and sender; versions never pass the version counter. *)

From S2P Require Import Prelude Wire Store.
Open Scope Z_scope.
Open Scope kim_scope.

(** ** The invariant *)

Definition req_of (c : StoredMessage) : InsertMessage :=
  mkInsertMessage (sm_sender c) (sm_dest c) (sm_send_time c) (sm_msg_type c) (sm_body c)
    (sm_extra c) "" [].
Definition rows_of (c : StoredMessage) (members : list string) : list InboxRow :=
  index_rows (sm_app c) (sm_kind c) (req_of c) members (sm_message_id c).

Definition of_message (id : Z) (r : InboxRow) : bool := r_message_id r =? id.
Definition of_account (app account : string) (r : InboxRow) : bool :=
  bool_decide (r_app r = app) && bool_decide (r_account_a r = account).

Record inner_wf (bound : Z) (i : MInner) : Prop := {
  wf_id : forall id c, contents i !! id = Some c -> sm_message_id c = id /\ 0 <= id < bound;
  wf_group : forall id c, contents i !! id = Some c -> sm_kind c = Group -> sm_dest c <> ""%string;
  wf_rows : forall id c, contents i !! id = Some c -> exists ms, message_rows id i = rows_of c ms;
  wf_no_rows : forall id, contents i !! id = None -> message_rows id i = [];
  wf_index : forall app account id,
    List.filter (of_message id) (account_rows app account i)
    = List.filter (of_account app account) (message_rows id i);
  wf_idem : forall app sender cid id t, idempotency i !! (app, sender, cid) = Some (id, t) ->
    exists c, contents i !! id = Some c /\ sm_app c = app /\ sm_sender c = sender /\ sm_send_time c = t;
  wf_turns : forall app bot m id, bot_turns i !! (app, bot, m) = Some id ->
    exists c, contents i !! id = Some c /\ sm_app c = app /\ sm_sender c = bot;
  wf_pending : forall app account target id e, pending i !! (app, account, target, id) = Some e ->
    exists c, contents i !! id = Some c /\ sm_app c = app;
  wf_version : 0 <= next_version i <= u64_max;
  wf_versions : forall k v, state_versions i !! k = Some v -> v <= next_version i
}.

Definition store_wf {G} `{IdGeneratorOk G} (st : MemoryMessageStore G) : Prop :=
  inner_wf (id_bound (idgen st)) (inner st).

(** ** Index lemmas *)

Lemma bump_version_fields app account dest kind i :
  let i' := bump_version app account dest kind i in
  contents i' = contents i /\ indexes_by_account i' = indexes_by_account i /\
  indexes_by_message i' = indexes_by_message i /\ idempotency i' = idempotency i /\
  reads i' = reads i /\ pending i' = pending i /\ bot_turns i' = bot_turns i /\
  next_version i' = sat_u64 (next_version i + 1) /\
  state_versions i' = <[(app, account, dest, kind) := sat_u64 (next_version i + 1)]> (state_versions i).
Proof. done. Qed.

Lemma push_index_fields row i :
  let i' := push_index row i in
  contents i' = contents i /\ idempotency i' = idempotency i /\ reads i' = reads i /\
  pending i' = pending i /\ bot_turns i' = bot_turns i /\
  next_version i' = sat_u64 (next_version i + 1).
Proof. unfold push_index. by destruct (str_is_empty (r_group_id row)). Qed.

Definition row_key (r : InboxRow) : state_key :=
  if str_is_empty (r_group_id r) then (r_app r, r_account_a r, r_account_b r, 0)
  else (r_app r, r_account_a r, r_group_id r, 1).

Lemma push_index_versions row i :
  state_versions (push_index row i)
  = <[row_key row := sat_u64 (next_version i + 1)]> (state_versions i).
Proof. unfold push_index, row_key. by destruct (str_is_empty (r_group_id row)). Qed.

Lemma message_rows_push id row i :
  message_rows id (push_index row i) = message_rows id i ++ List.filter (of_message id) [row].
Proof.
  assert (E : indexes_by_message (push_index row i) =
    <[r_message_id row := default [] (indexes_by_message i !! r_message_id row) ++ [row]]>
      (indexes_by_message i)) by (unfold push_index; by destruct (str_is_empty (r_group_id row))).
  unfold message_rows, of_message. rewrite E. simpl.
  destruct (Z.eqb_spec (r_message_id row) id) as [<-|Hne].
  - by rewrite lookup_insert_eq.
  - by rewrite lookup_insert_ne, app_nil_r by done.
Qed.

Lemma account_rows_push app account row i :
  account_rows app account (push_index row i)
  = account_rows app account i ++ List.filter (of_account app account) [row].
Proof.
  assert (E : indexes_by_account (push_index row i) =
    <[r_app row :=
        <[r_account_a row :=
            default [] (default ∅ (indexes_by_account i !! r_app row) !! r_account_a row) ++ [row]]>
          (default ∅ (indexes_by_account i !! r_app row))]> (indexes_by_account i))
    by (unfold push_index; by destruct (str_is_empty (r_group_id row))).
  unfold account_rows, of_account. rewrite E. simpl.
  destruct (decide (r_app row = app)) as [<-|Ha].
  - rewrite lookup_insert_eq, (bool_decide_eq_true_2 (r_app row = r_app row)) by done. simpl.
    destruct (decide (r_account_a row = account)) as [<-|Hb].
    + rewrite lookup_insert_eq, bool_decide_eq_true_2 by done. simpl.
      destruct (indexes_by_account i !! r_app row); simpl; [done|]. by rewrite lookup_empty.
    + rewrite lookup_insert_ne, bool_decide_eq_false_2, app_nil_r by done.
      destruct (indexes_by_account i !! r_app row); simpl; [done|]. by rewrite lookup_empty.
  - rewrite lookup_insert_ne, bool_decide_eq_false_2, app_nil_r by done. done.
Qed.

Lemma push_rows_fields rows i :
  let i' := push_rows rows i in
  contents i' = contents i /\ idempotency i' = idempotency i /\ reads i' = reads i /\
  pending i' = pending i /\ bot_turns i' = bot_turns i.
Proof.
  unfold push_rows. revert i; induction rows as [|r rows IH]; intros i; simpl; [done|].
  destruct (IH (push_index r i)) as (-> & -> & -> & -> & ->).
  destruct (push_index_fields r i) as (-> & -> & -> & -> & -> & _). done.
Qed.

Lemma message_rows_push_rows id rows i :
  message_rows id (push_rows rows i) = message_rows id i ++ List.filter (of_message id) rows.
Proof.
  unfold push_rows. revert i; induction rows as [|r rows IH]; intros i; [by rewrite app_nil_r|].
  cbn [foldl]. rewrite IH, message_rows_push, <- app_assoc. f_equal. 
  by rewrite <- List.filter_app.
Qed.

Lemma account_rows_push_rows app account rows i :
  account_rows app account (push_rows rows i)
  = account_rows app account i ++ List.filter (of_account app account) rows.
Proof.
  unfold push_rows. revert i; induction rows as [|r rows IH]; intros i; [by rewrite app_nil_r|].
  cbn [foldl]. rewrite IH, account_rows_push, <- app_assoc. f_equal.
  by rewrite <- List.filter_app.
Qed.

Lemma sat_u64_succ v : 0 <= v <= u64_max -> v <= sat_u64 (v + 1) <= u64_max.
Proof. unfold sat_u64, u64_max. lia. Qed.

Definition versions_ok (i : MInner) : Prop :=
  0 <= next_version i <= u64_max /\ forall k v, state_versions i !! k = Some v -> v <= next_version i.

Lemma versions_ok_bump app account dest kind i :
  versions_ok i -> versions_ok (bump_version app account dest kind i).
Proof.
  intros [Hn Hv]. pose proof (sat_u64_succ _ Hn). split; simpl; [lia|].
  intros k v. rewrite lookup_insert_Some. intros [[_ <-]|[_ E]]; [lia|]. apply Hv in E. lia.
Qed.

Lemma versions_ok_push row i : versions_ok i -> versions_ok (push_index row i).
Proof.
  intros [Hn Hv]. pose proof (sat_u64_succ _ Hn).
  destruct (push_index_fields row i) as (_ & _ & _ & _ & _ & En).
  split; [rewrite En; lia|]. intros k v. rewrite push_index_versions, En, lookup_insert_Some.
  intros [[_ <-]|[_ E]]; [lia|]. apply Hv in E. lia.
Qed.

Lemma versions_ok_push_rows rows i : versions_ok i -> versions_ok (push_rows rows i).
Proof.
  unfold push_rows. revert i; induction rows as [|r rows IH]; intros i Hi; simpl; [done|].
  apply IH. by apply versions_ok_push.
Qed.

(** Both indexes of the rows of one message. *)
Lemma index_rows_message app kind req members id r :
  r ∈ index_rows app kind req members id ->
  r_message_id r = id /\ r_app r = app /\ r_send_time r = im_send_time req.
Proof.
  destruct kind; simpl.
  - by intros [->|[->|?%not_elem_of_nil]%elem_of_cons]%elem_of_cons.
  - by intros (m & -> & _)%list_elem_of_fmap.
Qed.

Lemma filter_index_rows_same app kind req members id :
  List.filter (of_message id) (index_rows app kind req members id) = index_rows app kind req members id.
Proof.
  apply filter_all. intros r (E & _ & _)%index_rows_message. unfold of_message. by apply Z.eqb_eq.
Qed.

Lemma filter_index_rows_other app kind req members id id' :
  id <> id' -> List.filter (of_message id') (index_rows app kind req members id) = [].
Proof.
  intros Hne. apply filter_none. intros r (E & _ & _)%index_rows_message.
  unfold of_message. apply Z.eqb_neq. congruence.
Qed.

(** ** Receipts *)

Definition or_insert_all {K V} `{Countable K} (keys : list K) (v : V) (m : gmap K V) : gmap K V :=
  foldl (fun m k => or_insert k v m) m keys.

Lemma lookup_or_insert {K V} `{Countable K} (k k' : K) (v : V) m :
  or_insert k v m !! k' =
  match m !! k' with Some x => Some x | None => if decide (k' = k) then Some v else None end.
Proof.
  unfold or_insert. case_decide as E; subst.
  - destruct (m !! k) eqn:F; [by rewrite F | by rewrite lookup_insert_eq].
  - destruct (m !! k); [|rewrite lookup_insert_ne by done]; by destruct (m !! k').
Qed.

Lemma lookup_or_insert_all {K V} `{Countable K} (keys : list K) (k : K) (v : V) m :
  or_insert_all keys v m !! k =
  match m !! k with Some x => Some x | None => if decide (k ∈ keys) then Some v else None end.
Proof.
  unfold or_insert_all. revert m; induction keys as [|k' keys IH]; intros m; simpl.
  - by destruct (m !! k).
  - rewrite IH, lookup_or_insert. destruct (m !! k) eqn:E; [done|].
    destruct (decide (k = k')) as [->|Hne].
    + rewrite decide_True; [done|]. left.
    + apply decide_ext. rewrite elem_of_cons. tauto.
Qed.

Lemma or_insert_all_fmap {A K V} `{Countable K} (f : A -> K) (l : list A) (v : V) (m : gmap K V) :
  foldl (fun p x => or_insert (f x) v p) m l = or_insert_all (f <$> l) v m.
Proof. unfold or_insert_all. revert m; induction l as [|x l IH]; intros m; simpl; [done|]. apply IH. Qed.

Definition receipt_keys (app : string) (message_id : Z) (recv : list string)
  (targets : list DeliveryTarget) : list pending_key :=
  (fun t => (app, dt_account t, dt_target_id t, message_id))
    <$> List.filter (fun t => negb (str_is_empty (dt_target_id t) || negb (bool_decide (dt_account t ∈ recv))))
          targets.

Lemma upsert_receipts_eq app message_id req members now i :
  upsert_receipts app message_id req members now i =
  with_pending
    (or_insert_all (receipt_keys app message_id (recv_accounts req members) (im_online_targets req))
       (mkPendingEntry now (now + RECEIPT_TTL) None) (pending i)) i.
Proof.
  unfold upsert_receipts. f_equal. unfold or_insert_all, receipt_keys.
  generalize (pending i). induction (im_online_targets req) as [|t ts IH]; intros p; simpl; [done|].
  destruct (str_is_empty _ || _); simpl; by rewrite IH.
Qed.

Lemma elem_of_receipt_keys app id recv targets a acc tid id' :
  (a, acc, tid, id') ∈ receipt_keys app id recv targets <->
  a = app /\ id' = id /\ acc ∈ recv /\ tid <> ""%string /\ mkDeliveryTarget acc tid ∈ targets.
Proof.
  unfold receipt_keys. rewrite list_elem_of_fmap. split.
  - intros ([acc' tid'] & E & Hin). simpl in E. injection E as -> -> -> ->.
    apply elem_of_list_filter_bool in Hin as [Hv Hin]. simpl in Hv.
    apply negb_true_iff, orb_false_iff in Hv as [Ht Ha]. apply negb_false_iff in Ha.
    apply bool_decide_eq_true in Ha. unfold str_is_empty in Ht. apply bool_decide_eq_false in Ht. done.
  - intros (-> & -> & Ha & Ht & Hin). exists (mkDeliveryTarget acc tid). split; [done|].
    apply elem_of_list_filter_bool. split; [|done]. simpl. unfold str_is_empty.
    by rewrite bool_decide_eq_false_2, bool_decide_eq_true_2.
Qed.

Lemma inner_wf_with_pending bound i p :
  inner_wf bound i ->
  (forall app account target id e, p !! (app, account, target, id) = Some e ->
     exists c, contents i !! id = Some c /\ sm_app c = app) ->
  inner_wf bound (with_pending p i).
Proof. intros [] Hp. by split. Qed.

Lemma inner_wf_or_insert_all bound i keys e :
  inner_wf bound i ->
  (forall app account target id, (app, account, target, id) ∈ keys ->
     exists c, contents i !! id = Some c /\ sm_app c = app) ->
  inner_wf bound (with_pending (or_insert_all keys e (pending i)) i).
Proof.
  intros Hwf Hk. apply inner_wf_with_pending; [done|]. intros app account target id e'.
  rewrite lookup_or_insert_all. case_match eqn:E.
  - intros _. by eapply (wf_pending bound i Hwf).
  - case_decide; intros [=]. by eapply Hk.
Qed.

Lemma inner_wf_receipts bound on app id req members now i c :
  inner_wf bound i -> contents i !! id = Some c -> sm_app c = app ->
  inner_wf bound (receipts_if on app id req members now i).
Proof.
  intros Hwf Hc Ha. destruct on; simpl; [|done]. rewrite upsert_receipts_eq.
  apply inner_wf_or_insert_all; [done|].
  intros app' account target id' (-> & -> & _)%elem_of_receipt_keys. by exists c.
Qed.

Lemma receipts_if_fields on app id req members now i :
  let i' := receipts_if on app id req members now i in
  contents i' = contents i /\ indexes_by_account i' = indexes_by_account i /\
  indexes_by_message i' = indexes_by_message i /\ idempotency i' = idempotency i /\
  reads i' = reads i /\ state_versions i' = state_versions i /\ next_version i' = next_version i /\
  bot_turns i' = bot_turns i.
Proof. by destruct on. Qed.

Lemma bot_turns_receipts_if on app id req members now i :
  bot_turns (receipts_if on app id req members now i) = bot_turns i.
Proof. by destruct on. Qed.
Lemma idempotency_receipts_if on app id req members now i :
  idempotency (receipts_if on app id req members now i) = idempotency i.
Proof. by destruct on. Qed.
Lemma idempotency_push_rows rows i : idempotency (push_rows rows i) = idempotency i.
Proof. by destruct (push_rows_fields rows i) as (_ & -> & _). Qed.
Lemma bot_turns_push_rows rows i : bot_turns (push_rows rows i) = bot_turns i.
Proof. by destruct (push_rows_fields rows i) as (_ & _ & _ & _ & ->). Qed.

(** ** A new message *)

(** [insert_group] is called with a non-empty group only. *)
Definition group_req_ok (kind : MessageKind) (req : InsertMessage) : Prop :=
  kind = Group -> im_dest req <> ""%string.

Lemma inner_wf_mono bound bound' i : inner_wf bound i -> bound <= bound' -> inner_wf bound' i.
Proof.
  intros [] Hb. split; try done. intros id c Hc. destruct (wf_id0 id c Hc). lia.
Qed.

Lemma rows_of_content_of app kind req members id :
  rows_of (content_of app kind req id) members = index_rows app kind req members id.
Proof. by destruct kind. Qed.

(** The three steps under the write lock, without the receipts. *)
Lemma inner_wf_insert_write bound app kind req members id now on i :
  inner_wf bound i -> contents i !! id = None -> 0 <= id < bound -> group_req_ok kind req ->
  (im_client_id req <> ""%string -> idempotency i !! (app, im_sender req, im_client_id req) = None) ->
  inner_wf bound (insert_write app kind req members id now on i).
Proof.
  intros Hwf Hfresh Hid Hgrp Hkey. unfold insert_write.
  set (i1 := if str_is_empty _ then i else _).
  set (i2 := with_contents _ i1).
  set (i3 := push_rows _ i2).
  assert (Hrows : message_rows id i = []) by by eapply wf_no_rows.
  assert (E1 : contents i1 = contents i /\ indexes_by_account i1 = indexes_by_account i /\
    indexes_by_message i1 = indexes_by_message i /\ pending i1 = pending i /\
    bot_turns i1 = bot_turns i /\ next_version i1 = next_version i /\
    state_versions i1 = state_versions i) by (unfold i1; by destruct (str_is_empty _)).
  destruct E1 as (Ec & Ea & Em & Ep & Et & En & Ev).
  destruct (push_rows_fields (index_rows app kind req members id) i2) as (Fc & Fi & Fr & Fp & Ft).
  fold i3 in Fc, Fi, Fr, Fp, Ft. simpl in Fc, Fi, Fp, Ft. rewrite Ec in Fc.
  assert (Hcid : forall id' c, contents i !! id' = Some c -> contents i3 !! id' = Some c).
  { intros id' c Hc. rewrite Fc, lookup_insert_ne; [done|]. intros <-. congruence. }
  assert (Hcnew : contents i3 !! id = Some (content_of app kind req id))
    by (rewrite Fc; apply lookup_insert_eq).
  assert (Hm : forall id', message_rows id' i3 =
    if decide (id' = id) then index_rows app kind req members id else message_rows id' i).
  { intros id'. unfold i3. rewrite message_rows_push_rows.
    replace (message_rows id' i2) with (message_rows id' i)
      by (unfold message_rows, i2; simpl; by rewrite Em).
    case_decide as Hd; [subst; by rewrite Hrows, filter_index_rows_same|].
    by rewrite filter_index_rows_other, app_nil_r. }
  apply (inner_wf_receipts bound on app id req (members_opt kind members) now i3
           (content_of app kind req id)); [|done|done].
  split.
  - intros id' c. rewrite Fc, lookup_insert_Some. intros [[<- <-]|[_ Hc]]; [done|]. by eapply wf_id.
  - intros id' c. rewrite Fc, lookup_insert_Some. intros [[<- <-]|[_ Hc]]; [exact Hgrp|]. by eapply wf_group.
  - intros id' c. rewrite Fc, lookup_insert_Some, Hm. intros [[<- <-]|[Hne Hc]].
    + rewrite decide_True by done. exists members. by rewrite rows_of_content_of.
    + rewrite decide_False by done. by eapply wf_rows.
  - intros id'. rewrite Fc, lookup_insert_None, Hm. intros [Hc Hne].
    rewrite decide_False by done. by eapply wf_no_rows.
  - intros a acc id'. unfold i3 at 1. rewrite account_rows_push_rows, List.filter_app, Hm.
    replace (account_rows a acc i2) with (account_rows a acc i)
      by (unfold account_rows, i2; simpl; by rewrite Ea).
    rewrite (wf_index bound i Hwf). case_decide as Hd.
    + subst. rewrite Hrows. simpl. by rewrite filter_comm, filter_index_rows_same.
    + by rewrite filter_comm, filter_index_rows_other, app_nil_r.
  - intros a sender cid id' t. rewrite Fi. unfold i1. unfold str_is_empty. case_bool_decide as Hcid'.
    + intros H. destruct (wf_idem bound i Hwf a sender cid id' t H) as (c & Hc & ?). exists c. auto.
    + simpl. rewrite lookup_insert_Some. intros [[[= <- <- <-] [= <- <-]]|[_ H]].
      * by exists (content_of app kind req id).
      * destruct (wf_idem bound i Hwf a sender cid id' t H) as (c & Hc & ?). exists c. auto.
  - intros a bot m id'. rewrite Ft, Et. intros H.
    destruct (wf_turns bound i Hwf a bot m id' H) as (c & Hc & ?). exists c. auto.
  - intros a acc tid id' e. rewrite Fp, Ep. intros H.
    destruct (wf_pending bound i Hwf a acc tid id' e H) as (c & Hc & ?). exists c. auto.
  - apply (versions_ok_push_rows (index_rows app kind req members id) i2).
    split; simpl; rewrite ?En, ?Ev; [by eapply wf_version|by eapply wf_versions].
  - apply (versions_ok_push_rows (index_rows app kind req members id) i2).
    split; simpl; rewrite ?En, ?Ev; [by eapply wf_version|by eapply wf_versions].
Qed.

(** ** Operations *)

Lemma inner_wf_bump bound app account dest kind i :
  inner_wf bound i -> inner_wf bound (bump_version app account dest kind i).
Proof.
  intros Hwf.
  destruct (versions_ok_bump app account dest kind i) as [Hn Hv];
    [split; [by eapply wf_version | by eapply wf_versions]|].
  destruct Hwf. by split.
Qed.

Section ops.
Context {G : Type} `{IdGeneratorOk G}.
Implicit Types st : MemoryMessageStore G.

Lemma burn_ids_bound n g g' r : burn_ids n g = (g', r) -> id_bound g <= id_bound g'.
Proof.
  revert g; induction n as [|n IH]; intros g; simpl; [intros [= <- <-]; lia|].
  destruct (next_id g) as [g1 [id|e]] eqn:E.
  - apply next_id_ok in E. intros ?%IH. lia.
  - apply next_id_err in E. intros [= <- <-]. lia.
Qed.

Lemma insert_ids_bound kind members g g' r :
  insert_ids kind members g = (g', r) ->
  id_bound g <= id_bound g' /\ (forall id, r = Ok id -> id_bound g <= id < id_bound g').
Proof.
  unfold insert_ids. destruct (next_id g) as [g1 [id|e]] eqn:E.
  - apply next_id_ok in E.
    destruct (burn_ids _ g1) as [g2 [u|e]] eqn:F; pose proof (burn_ids_bound _ _ _ _ F);
      intros [= <- <-]; (split; [lia|]); intros id'; [intros [= <-]; lia | done].
  - apply next_id_err in E. intros [= <- <-]. by split; [lia|].
Qed.

Lemma wf_fresh_id bound i id : inner_wf bound i -> bound <= id -> contents i !! id = None.
Proof.
  intros Hwf Hb. destruct (contents i !! id) as [c|] eqn:E; [|done].
  destruct (wf_id bound i Hwf id c E). lia.
Qed.

Lemma wf_bound_pos bound : 0 <= bound -> inner_wf bound MInner_default.
Proof.
  intros. split; simpl; try done; try lia.
Qed.

Lemma insert_check_wf app kind req members now st st' r :
  store_wf st -> insert_check app kind req members now st = (st', r) -> store_wf st'.
Proof.
  unfold insert_check, store_wf. intros Hwf. destruct (str_is_empty _); [by intros [= <- <-]|].
  destruct (idempotency (inner st) !! _) as [[id t]|] eqn:E; [|by intros [= <- <-]].
  destruct (fanout_from_memory (inner st) id); intros [= <- <-]; [|done]. simpl.
  destruct (wf_idem _ _ Hwf _ _ _ _ _ E) as (c & Hc & Ha & _).
  by eapply inner_wf_receipts.
Qed.

Lemma insert_commit_wf app kind req members id now st :
  store_wf st -> group_req_ok kind req -> contents (inner st) !! id = None ->
  0 <= id < id_bound (idgen st) ->
  store_wf (insert_commit app kind req members id now st).1.
Proof.
  intros Hwf Hg Hfresh Hid. unfold insert_commit, store_wf.
  unfold str_is_empty. case_bool_decide as Hcid; simpl.
  - by apply inner_wf_insert_write.
  - destruct (idempotency (inner st) !! _) as [[id' t]|] eqn:E; simpl.
    + destruct (wf_idem _ _ Hwf _ _ _ _ _ E) as (c & Hc & Ha & _). by eapply inner_wf_receipts.
    + by apply inner_wf_insert_write.
Qed.

Lemma insert_wf app kind req members now st :
  store_wf st -> group_req_ok kind req -> store_wf (insert app kind req members now st).1.
Proof.
  intros Hwf Hg. unfold insert.
  destruct (insert_check app kind req members now st) as [st1 [r|]] eqn:E.
  { by eapply insert_check_wf. }
  pose proof (insert_check_wf _ _ _ _ _ _ _ _ Hwf E) as Hwf1.
  destruct (insert_ids kind members (idgen st1)) as [g [id|e]] eqn:F;
    destruct (insert_ids_bound _ _ _ _ _ F) as [Hb Hi].
  - specialize (Hi id eq_refl). pose proof (id_bound_pos (idgen st1)).
    apply insert_commit_wf; [|done| |simpl; lia].
    + unfold store_wf. simpl. by eapply inner_wf_mono.
    + simpl. eapply wf_fresh_id; [done|lia].
  - unfold store_wf. simpl. by eapply inner_wf_mono.
Qed.

Lemma ack_step_lookup app account tid now p obs id k e :
  (ack_step app account tid now (p, obs) id).1 !! k = Some e -> is_Some (p !! k).
Proof.
  simpl. destruct (p !! (app, account, tid, id)) as [row|] eqn:E; [|by eexists].
  destruct (pe_acked_at row); [by eexists|]. simpl. rewrite lookup_insert_Some.
  intros [[<- _]|[_ ?]]; by eexists.
Qed.

Lemma ack_fold_lookup app account tid now ids p obs k e :
  (foldl (ack_step app account tid now) (p, obs) ids).1 !! k = Some e -> is_Some (p !! k).
Proof.
  revert p obs; induction ids as [|id ids IH]; intros p obs; [by eexists|]. cbn [foldl].
  destruct (ack_step app account tid now (p, obs) id) as [p' obs'] eqn:E.
  intros [e' He']%IH. apply (ack_step_lookup app account tid now p obs id k e'). by rewrite E.
Qed.

Lemma ack_wf app account tid ids now st :
  store_wf st -> store_wf (ack app account tid ids now st).1.
Proof.
  intros Hwf. unfold ack. case_match; [by case_match|]. case_match; [done|].
  destruct (foldl _ _ _) as [p obs] eqn:E. unfold store_wf. simpl.
  apply inner_wf_with_pending; [done|]. intros a acc t id e He.
  destruct (ack_fold_lookup app account tid now ids (pending (inner st)) [] (a, acc, t, id) e)
    as [e' He']; [by rewrite E|].
  by eapply wf_pending.
Qed.

Lemma offline_index_wf app account tid id resume now unix st :
  store_wf st -> store_wf (offline_index app account tid id resume now unix st).1.
Proof. intros. unfold offline_index. repeat case_match; done. Qed.

Lemma account_row_content bound i app account r :
  inner_wf bound i -> r ∈ account_rows app account i ->
  r ∈ message_rows (r_message_id r) i /\ r_app r = app /\ r_account_a r = account /\
  exists c, contents i !! r_message_id r = Some c /\ sm_app c = app.
Proof.
  intros Hwf Hr.
  assert (Hin : r ∈ List.filter (of_message (r_message_id r)) (account_rows app account i)).
  { apply elem_of_list_filter_bool. split; [|done]. apply Z.eqb_refl. }
  rewrite (wf_index _ _ Hwf) in Hin. apply elem_of_list_filter_bool in Hin as [Ha Hm].
  apply andb_true_iff in Ha as [Ha%bool_decide_eq_true Hb%bool_decide_eq_true].
  split_and!; [done..|].
  destruct (contents i !! r_message_id r) as [c|] eqn:E.
  - exists c. split; [done|]. destruct (wf_rows _ _ Hwf _ _ E) as [ms Hms].
    rewrite Hms in Hm. apply index_rows_message in Hm as (_ & Hm & _). congruence.
  - rewrite (wf_no_rows _ _ Hwf _ E) in Hm. by apply not_elem_of_nil in Hm.
Qed.

Lemma backfill_delivery_wf app account tid now unix st :
  store_wf st -> store_wf (backfill_delivery app account tid now unix st).1.
Proof.
  intros Hwf. unfold backfill_delivery. case_match; [done|]. unfold store_wf. simpl.
  rewrite (or_insert_all_fmap (fun id => (app, account, tid, id))).
  apply inner_wf_or_insert_all; [done|].
  intros a acc t id (id' & [= -> -> -> ->] & Hid)%list_elem_of_fmap.
  apply list_elem_of_fmap in Hid as (r & -> & [_ Hr]%elem_of_list_filter_bool).
  by destruct (account_row_content _ _ _ _ _ Hwf Hr) as (_ & _ & _ & ?).
Qed.

Lemma foldl_delete_lookup {K V} `{Countable K} (keys : list K) (m : gmap K V) k v :
  foldl (fun p k => delete k p) m keys !! k = Some v -> m !! k = Some v.
Proof.
  revert m; induction keys as [|k' keys IH]; intros m; simpl; [done|].
  by intros [_ ?]%IH%lookup_delete_Some.
Qed.

Lemma foldl_snd_delete {A K V} `{Countable K} (l : list (A * K)) (m : gmap K V) :
  foldl (fun p k => delete k.2 p) m l = foldl (fun p k => delete k p) m l.*2.
Proof. revert m; induction l as [|x l IH]; intros m; simpl; [done|]. apply IH. Qed.

Lemma gc_expired_deliveries_wf limit now st :
  store_wf st -> store_wf (gc_expired_deliveries limit now st).1.
Proof.
  intros Hwf. unfold store_wf, gc_expired_deliveries. cbn [fst inner with_inner idgen].
  apply inner_wf_with_pending; [done|]. intros a acc t id e.
  rewrite (foldl_snd_delete (take _ _)). intros He%foldl_delete_lookup. by eapply wf_pending.
Qed.

Lemma inner_wf_with_reads bound m i : inner_wf bound i -> inner_wf bound (with_reads m i).
Proof. intros []. by split. Qed.

Lemma mark_read_wf app account dest kind id st :
  store_wf st -> store_wf (mark_read app account dest kind id st).1.
Proof.
  intros Hwf. unfold mark_read. case_match; [done|]. unfold store_wf. simpl.
  destruct (0 <? id); [|done]. by apply inner_wf_bump, inner_wf_with_reads.
Qed.

Lemma inner_wf_set_bot_turn bound app bot m id c i :
  inner_wf bound i -> contents i !! id = Some c -> sm_app c = app -> sm_sender c = bot ->
  inner_wf bound (set_bot_turn (app, bot, m) id i).
Proof.
  intros Hwf Hc Ha Hs. destruct Hwf as [? ? ? ? ? ? Ht ? ? ?]. split; try done.
  intros a b m' id'. simpl. rewrite lookup_insert_Some.
  intros [[[= -> -> ->] ->]|[_ ?]]; [by exists c | by eapply Ht].
Qed.

Lemma contents_insert_write app kind req members id now on i :
  contents (insert_write app kind req members id now on i)
  = <[id := content_of app kind req id]> (contents i).
Proof.
  unfold insert_write.
  rewrite (proj1 (receipts_if_fields _ _ _ _ _ _ _)), (proj1 (push_rows_fields _ _)). simpl.
  by destruct (str_is_empty _).
Qed.

Lemma insert_write_content app kind req members id now on i :
  contents (insert_write app kind req members id now on i) !! id = Some (content_of app kind req id).
Proof. rewrite contents_insert_write. apply lookup_insert_eq. Qed.

Lemma insert_write_turns app kind req members id now on i :
  bot_turns (insert_write app kind req members id now on i) = bot_turns i.
Proof.
  unfold insert_write. rewrite bot_turns_receipts_if, bot_turns_push_rows.
  by destruct (str_is_empty _).
Qed.

Lemma insert_bot_reply_wf app owner bot irt req now st :
  store_wf st -> store_wf (insert_bot_reply app owner bot irt req now st).1.
Proof.
  intros Hwf. unfold insert_bot_reply.
  destruct (negb _ || negb _) eqn:Eb; [done|]. destruct (irt <=? 0); [done|].
  destruct (negb (bot_orig_ok _ _ _ _ _)); [done|].
  destruct (bot_turns (inner st) !! _); [done|].
  apply orb_false_iff in Eb as [Hs _]. apply negb_false_iff, bool_decide_eq_true in Hs.
  cut (idempotency (inner st) !! (app, im_sender req, im_client_id req) = None
       \/ im_client_id req = ""%string ->
       forall g r, next_id (idgen st) = (g, r) ->
       store_wf (match r with
         | Err e => (with_idgen g st, Err (Id e))
         | Ok message_id =>
          let i := insert_write app User req [] message_id now false (inner st) in
          let i := set_bot_turn (app, bot, irt) message_id i in
          let i := receipts_if (pending_receipt st) app message_id req None now i in
          (with_inner i (with_idgen g st),
           Ok (mkInsertResult message_id (im_send_time req) false (fanout_from_write User req [])))
        end).1).
  { intros Hcut. unfold str_is_empty. case_bool_decide as Hcid.
    - destruct (next_id (idgen st)) as [g r] eqn:E. apply (Hcut ltac:(by right) g r eq_refl).
    - destruct (idempotency (inner st) !! _) as [[id t]|] eqn:F.
      + destruct (wf_idem _ _ Hwf _ _ _ _ _ F) as (c & Hc & Ha & Hsd & _).
        unfold store_wf. simpl. eapply inner_wf_receipts; [|exact Hc|done].
        eapply inner_wf_set_bot_turn; [done|exact Hc|done|congruence].
      + destruct (next_id (idgen st)) as [g r] eqn:E. apply (Hcut ltac:(by left) g r eq_refl). }
  intros Hkey g r E. pose proof (id_bound_pos (idgen st)).
  destruct r as [id|e]; unfold store_wf; cbn [fst inner with_inner idgen with_idgen].
  - apply next_id_ok in E.
    assert (Hw : inner_wf (id_bound g) (insert_write app User req [] id now false (inner st))).
    { apply inner_wf_insert_write; [eapply inner_wf_mono; [exact Hwf|lia]| |lia|done|].
      - eapply wf_fresh_id; [done|lia].
      - by destruct Hkey. }
    pose proof (insert_write_content app User req [] id now false (inner st)) as Hc.
    eapply inner_wf_receipts; [|exact Hc|done].
    eapply inner_wf_set_bot_turn; [exact Hw|exact Hc|done|done].
  - apply next_id_err in E. by eapply inner_wf_mono.
Qed.
End ops.

(** Rows of [app] that are not of the purged thread. *)
Definition kept_row (app account peer : string) (r : InboxRow) : bool :=
  negb (bool_decide (r_app r = app) && peer_row account peer r).

Definition rows_at (app account : string) (by_account : gmap string (gmap string (list InboxRow)))
  : list InboxRow :=
  match by_account !! app with Some m => default [] (m !! account) | None => [] end.

Lemma account_rows_at app account i : account_rows app account i = rows_at app account (indexes_by_account i).
Proof. done. Qed.

Section purge.
Context (app account peer : string).
Notation P := (peer_row account peer).
Notation Q := (kept_row app account peer).

Lemma purge_side_rows who ba ids a acc :
  rows_at a acc (purge_side app account peer who (ba, ids)).1 =
    if decide (a = app /\ acc = who)
    then List.filter (fun r => negb (P r)) (rows_at a acc ba) else rows_at a acc ba.
Proof.
  unfold purge_side, rows_at.
  destruct (ba !! app) as [m|] eqn:E; [destruct (m !! who) as [rows|] eqn:F|]; simpl.
  - case_decide as D.
    + destruct D as [-> ->]. by rewrite lookup_insert_eq, E, lookup_insert_eq, F.
    + destruct (decide (a = app)) as [->|]; [|by rewrite lookup_insert_ne].
      rewrite lookup_insert_eq, E, lookup_insert_ne; [done|]. intros ->. tauto.
  - case_decide as D; [|done]. destruct D as [-> ->]. by rewrite E, F.
  - case_decide as D; [|done]. destruct D as [-> ->]. by rewrite E.
Qed.

Lemma purge_side_ids who ba ids :
  (purge_side app account peer who (ba, ids)).2
  = ids ++ (r_message_id <$> List.filter P (rows_at app who ba)).
Proof.
  unfold purge_side, rows_at.
  destruct (ba !! app) as [m|]; [destruct (m !! who) as [rows|]|]; simpl; by rewrite ?app_nil_r.
Qed.

Lemma message_rows_purge_id i id id' :
  message_rows id' (purge_id app account peer i id) =
    if decide (id' = id) then List.filter Q (message_rows id' i) else message_rows id' i.
Proof.
  unfold purge_id, message_rows.
  destruct (indexes_by_message i !! id) as [rows|] eqn:E.
  - case_bool_decide as F; simpl.
    + case_decide as D; [subst|by rewrite lookup_delete_ne].
      rewrite lookup_delete_eq, E. simpl. by rewrite <- F.
    + case_decide as D; [subst|by rewrite lookup_insert_ne].
      by rewrite lookup_insert_eq, E.
  - simpl. case_decide as D; [subst|done]. by rewrite E.
Qed.

Lemma contents_purge_id i id id' :
  contents (purge_id app account peer i id) !! id' =
    if decide (id' = id /\ List.filter Q (message_rows id' i) = [])
    then None else contents i !! id'.
Proof.
  unfold purge_id, message_rows.
  destruct (indexes_by_message i !! id) as [rows|] eqn:E.
  - case_bool_decide as F; simpl.
    + destruct (decide (id' = id)) as [->|].
      * rewrite lookup_delete_eq, decide_True; [done|]. by rewrite E.
      * rewrite lookup_delete_ne, decide_False by naive_solver. done.
    + rewrite decide_False; [done|]. intros [-> D]. rewrite E in D. done.
  - simpl. destruct (decide (id' = id)) as [->|].
    + rewrite lookup_delete_eq, decide_True; [done|]. by rewrite E.
    + rewrite lookup_delete_ne, decide_False by naive_solver. done.
Qed.

Lemma pending_purge_id i id a acc t id' e :
  pending (purge_id app account peer i id) !! (a, acc, t, id') = Some e <->
  pending i !! (a, acc, t, id') = Some e /\ ~ (a = app /\ id' = id).
Proof.
  assert (E : pending (purge_id app account peer i id) =
    filter (fun x : pending_key * PendingEntry => ~ (x.1.1.1.1 = app /\ x.1.2 = id)) (pending i)).
  { unfold purge_id. destruct (indexes_by_message i !! id); [by case_bool_decide|done]. }
  rewrite E, map_lookup_filter_Some. done.
Qed.

Lemma purge_id_fields i id :
  let i' := purge_id app account peer i id in
  indexes_by_account i' = indexes_by_account i /\ idempotency i' = idempotency i /\
  reads i' = reads i /\ state_versions i' = state_versions i /\
  next_version i' = next_version i /\ bot_turns i' = bot_turns i.
Proof. unfold purge_id. destruct (indexes_by_message i !! id); [by case_bool_decide|done]. Qed.

Notation purge_ids ids i := (foldl (purge_id app account peer) i ids).

Lemma purge_ids_fields ids i :
  let i' := purge_ids ids i in
  indexes_by_account i' = indexes_by_account i /\ idempotency i' = idempotency i /\
  reads i' = reads i /\ state_versions i' = state_versions i /\
  next_version i' = next_version i /\ bot_turns i' = bot_turns i.
Proof.
  revert i; induction ids as [|id ids IH]; intros i; cbn [foldl]; [done|].
  destruct (IH (purge_id app account peer i id)) as (-> & -> & -> & -> & -> & ->).
  apply purge_id_fields.
Qed.

Lemma message_rows_purge_ids ids i id' :
  message_rows id' (purge_ids ids i) =
    if decide (id' ∈ ids) then List.filter Q (message_rows id' i) else message_rows id' i.
Proof.
  revert i; induction ids as [|id ids IH]; intros i; cbn [foldl].
  { rewrite decide_False; [done|]. apply not_elem_of_nil. }
  rewrite IH, message_rows_purge_id.
  destruct (decide (id' = id)) as [->|Hne].
  - rewrite (decide_True (P := id ∈ id :: ids)) by left.
    case_decide; [|done]. apply filter_filter_id.
  - apply decide_ext. rewrite elem_of_cons. tauto.
Qed.

Lemma contents_purge_ids ids i id' :
  contents (purge_ids ids i) !! id' =
    if decide (id' ∈ ids /\ List.filter Q (message_rows id' i) = [])
    then None else contents i !! id'.
Proof.
  revert i; induction ids as [|id ids IH]; intros i; cbn [foldl].
  { rewrite decide_False; [done|]. intros [?%not_elem_of_nil _]. done. }
  rewrite IH, message_rows_purge_id, contents_purge_id.
  destruct (decide (id' = id)) as [->|Hne].
  - rewrite filter_filter_id.
    repeat case_decide; try done; exfalso; rewrite ?elem_of_cons in *; tauto.
  - repeat case_decide; try done; exfalso; rewrite ?elem_of_cons in *; tauto.
Qed.

Lemma pending_purge_ids ids i a acc t id' e :
  pending (purge_ids ids i) !! (a, acc, t, id') = Some e <->
  pending i !! (a, acc, t, id') = Some e /\ ~ (a = app /\ id' ∈ ids).
Proof.
  revert i; induction ids as [|id ids IH]; intros i; cbn [foldl].
  { split; [|tauto]. intros. split; [done|]. intros [_ ?%not_elem_of_nil]. done. }
  rewrite IH, pending_purge_id, elem_of_cons. tauto.
Qed.

(** *** Rows of a well-formed store *)

Lemma rows_of_app_kind c ms r :
  r ∈ rows_of c ms -> r_app r = sm_app c /\ r_send_time r = sm_send_time c /\
  match sm_kind c with
  | User => r_group_id r = ""%string /\
      ((r_account_a r = sm_sender c /\ r_account_b r = sm_dest c) \/
       (r_account_a r = sm_dest c /\ r_account_b r = sm_sender c))
  | Group => r_group_id r = sm_dest c /\ r_account_b r = sm_sender c
  end.
Proof.
  unfold rows_of. destruct (sm_kind c); simpl.
  - intros [->|[->|?%not_elem_of_nil]%elem_of_cons]%elem_of_cons; simpl; tauto.
  - intros (m & -> & _)%list_elem_of_fmap. done.
Qed.

(** The rows of a message are of the purged thread together. *)
Lemma kept_rows_of c ms :
  (sm_kind c = Group -> sm_dest c <> ""%string) ->
  List.filter Q (rows_of c ms) = rows_of c ms
  \/ (List.filter Q (rows_of c ms) = [] /\ sm_kind c = User /\ sm_app c = app
      /\ (sm_sender c = account \/ sm_sender c = peer)).
Proof.
  intros Hg. unfold rows_of. destruct (sm_kind c) eqn:K; simpl.
  - unfold kept_row, peer_row, str_is_empty. simpl.
    repeat case_bool_decide; simpl; naive_solver.
  - left. apply filter_all. intros r (m & -> & _)%list_elem_of_fmap.
    unfold kept_row, peer_row, str_is_empty. simpl.
    rewrite (bool_decide_eq_false_2 (sm_dest c = ""%string)) by auto. simpl.
    by rewrite andb_false_r.
Qed.

(** *** The whole operation *)

Context {G : Type} `{IdGeneratorOk G}.
Implicit Types st : MemoryMessageStore G.

(** The ids whose rows are dropped. *)
Definition purged_ids (i : MInner) : list Z :=
  unique (sort_by Z.leb
    (purge_side app account peer peer
       (purge_side app account peer account (indexes_by_account i, []))).2).

Definition purge_on : Prop := account <> ""%string /\ peer <> ""%string /\ account <> peer.

Lemma purge_guard :
  purge_on -> str_is_empty account || str_is_empty peer || bool_decide (account = peer) = false.
Proof.
  intros (? & ? & ?). unfold str_is_empty. by rewrite !bool_decide_eq_false_2.
Qed.

Lemma kept_row_other r a acc : Q r = false -> of_account a acc r = true ->
  a = app /\ (acc = account \/ acc = peer).
Proof.
  unfold kept_row, of_account, peer_row. rewrite negb_false_iff, !andb_true_iff, orb_true_iff.
  rewrite !andb_true_iff, !bool_decide_eq_true. naive_solver.
Qed.

Lemma account_rows_of_account bound i a acc r :
  inner_wf bound i -> r ∈ account_rows a acc i -> of_account a acc r = true.
Proof.
  intros Hwf Hr. destruct (account_row_content bound i a acc r Hwf Hr) as (_ & E & F & _).
  unfold of_account. by rewrite !bool_decide_eq_true_2.
Qed.

Lemma filter_peer_kept a acc l :
  (forall r, r ∈ l -> of_account a acc r = true) ->
  List.filter Q l =
    if decide (a = app) then List.filter (fun r => negb (P r)) l else l.
Proof.
  intros Hl. case_decide as D.
  - apply filter_ext_in. intros r Hr%list_elem_of_In%Hl. unfold kept_row, of_account in *.
    apply andb_true_iff in Hr as [E%bool_decide_eq_true _].
    by rewrite bool_decide_eq_true_2 by congruence.
  - apply filter_all. intros r Hr%Hl. unfold kept_row, of_account in *.
    apply andb_true_iff in Hr as [E%bool_decide_eq_true _].
    by rewrite bool_decide_eq_false_2 by congruence.
Qed.

Lemma purge_account_rows bound i a acc :
  inner_wf bound i -> account <> peer ->
  rows_at a acc (purge_side app account peer peer
       (purge_side app account peer account (indexes_by_account i, []))).1
  = List.filter Q (account_rows a acc i).
Proof.
  intros Hwf Hne.
  destruct (purge_side app account peer account (indexes_by_account i, [])) as [ba ids] eqn:E.
  rewrite purge_side_rows. replace ba with (ba, ids).1 by done. rewrite <- E, purge_side_rows.
  rewrite <- account_rows_at.
  pose proof (fun r => account_rows_of_account bound i a acc r Hwf) as Hacc.
  rewrite (filter_peer_kept a acc) by done.
  destruct (decide (a = app)) as [->|]; [|by rewrite !decide_False by tauto].
  destruct (decide (acc = peer)) as [->|].
  - rewrite (decide_True (P := app = app /\ peer = peer)) by done.
    rewrite decide_False by (intros [_ ?]; congruence). done.
  - rewrite (decide_False (P := app = app /\ acc = peer)) by tauto.
    case_decide as D; [done|]. symmetry. apply filter_all. intros r Hr.
    destruct (P r) eqn:EP; [|done]. exfalso.
    destruct (kept_row_other r app acc) as [_ [?|?]]; [|by apply Hacc|tauto..].
    unfold kept_row. rewrite EP. apply Hacc in Hr. unfold of_account in Hr.
    apply andb_true_iff in Hr as [-> _]. done.
Qed.

Lemma elem_of_purged_ids bound i id :
  inner_wf bound i -> account <> peer ->
  id ∈ purged_ids i <-> exists r, r ∈ message_rows id i /\ Q r = false.
Proof.
  intros Hwf Hne. unfold purged_ids.
  rewrite elem_of_unique, elem_of_sort_by.
  destruct (purge_side app account peer account (indexes_by_account i, [])) as [ba ids] eqn:E.
  rewrite purge_side_ids, elem_of_app.
  replace ids with (ba, ids).2 by done. rewrite <- E, purge_side_ids. simpl.
  rewrite !list_elem_of_fmap. rewrite <- (account_rows_at app account i).
  replace ba with (ba, ids).1 by done. rewrite <- E, purge_side_rows, <- account_rows_at.
  assert (Hback : forall who r, r ∈ account_rows app who i -> P r = true ->
    r ∈ message_rows (r_message_id r) i /\ Q r = false).
  { intros who r Hr HP. destruct (account_row_content bound i app who r Hwf Hr) as (Hm & Ha & _).
    split; [done|]. unfold kept_row. by rewrite HP, bool_decide_eq_true_2. }
  split.
  - intros [(r & -> & [HP Hr]%elem_of_list_filter_bool)|(r & -> & [HP Hr]%elem_of_list_filter_bool)].
    + exists r. by eapply Hback.
    + exists r. case_decide; [|by eapply Hback].
      apply elem_of_list_filter_bool in Hr as [HP' _]. by rewrite HP in HP'.
  - intros (r & Hr & HQ).
    assert (HP : P r = true /\ r_app r = app).
    { unfold kept_row in HQ. apply negb_false_iff, andb_true_iff in HQ as [?%bool_decide_eq_true ?]. done. }
    destruct HP as [HP Ha].
    assert (Hid : r_message_id r = id).
    { destruct (contents i !! id) as [c|] eqn:Ec.
      - destruct (wf_rows _ _ Hwf _ _ Ec) as [ms Hms]. rewrite Hms in Hr.
        apply index_rows_message in Hr as (-> & _). by eapply wf_id.
      - rewrite (wf_no_rows _ _ Hwf _ Ec) in Hr. by apply not_elem_of_nil in Hr. }
    assert (Hin : r ∈ account_rows app (r_account_a r) i).
    { assert (r ∈ List.filter (of_message id) (account_rows app (r_account_a r) i)) as Hf.
      { rewrite (wf_index _ _ Hwf). apply elem_of_list_filter_bool. split; [|done].
        unfold of_account. by rewrite !bool_decide_eq_true_2. }
      by apply elem_of_list_filter_bool in Hf as [_ ?]. }
    assert (Hside : r_account_a r = account \/ r_account_a r = peer).
    { apply (kept_row_other r app); [done|]. unfold of_account. by rewrite !bool_decide_eq_true_2. }
    destruct Hside as [E1|E1]; rewrite E1 in Hin.
    + left. exists r. split; [done|]. by apply elem_of_list_filter_bool.
    + right. exists r. split; [done|].
      rewrite decide_False by (intros [_ ?]; congruence).
      by apply elem_of_list_filter_bool.
Qed.

(** What the operation leaves, field by field. *)
Lemma purge_fields st :
  inner_wf (id_bound (idgen st)) (inner st) -> purge_on ->
  let i := inner st in
  let ids := purged_ids i in
  let i' := inner (purge_peer_dm app account peer st).1 in
  idgen (purge_peer_dm app account peer st).1 = idgen st /\
  (forall a acc, account_rows a acc i' = List.filter Q (account_rows a acc i)) /\
  (forall id, message_rows id i' = List.filter Q (message_rows id i)) /\
  (forall id, contents i' !! id =
     if decide (id ∈ ids /\ List.filter Q (message_rows id i) = []) then None else contents i !! id) /\
  (forall a s cid x, idempotency i' !! (a, s, cid) = Some x <->
     idempotency i !! (a, s, cid) = Some x /\ ~ (a = app /\ x.1 ∈ ids /\ (s = account \/ s = peer))) /\
  (forall a b m id, bot_turns i' !! (a, b, m) = Some id <->
     bot_turns i !! (a, b, m) = Some id /\ ~ (a = app /\ (b = peer \/ b = account))) /\
  (forall a acc t id e, pending i' !! (a, acc, t, id) = Some e <->
     pending i !! (a, acc, t, id) = Some e /\ ~ (a = app /\ id ∈ ids)) /\
  (forall a x y g v, reads i' !! (a, x, y, g) = Some v <->
     reads i !! (a, x, y, g) = Some v /\ ~ (a = app /\ g = ""%string /\ same_pair account peer x y)) /\
  (forall a x y k v, state_versions i' !! (a, x, y, k) = Some v <->
     state_versions i !! (a, x, y, k) = Some v /\ ~ (a = app /\ k = 0 /\ same_pair account peer x y)) /\
  next_version i' = next_version i.
Proof.
  intros Hwf Hon. cbv zeta. unfold purge_peer_dm. rewrite purge_guard by done.
  pose proof (fun a acc => purge_account_rows _ _ a acc Hwf ltac:(by destruct Hon as (_ & _ & ?))) as Hrows.
  pose proof (elem_of_purged_ids (id_bound (idgen st)) (inner st)) as Hids. unfold purged_ids in *.
  destruct (purge_side app account peer peer _) as [ba ids0] eqn:E. simpl in Hrows, Hids.
  set (ids := unique (sort_by Z.leb ids0)) in *.
  set (i1 := mkMInner (contents (inner st)) ba _ _ _ _ _ _ _).
  destruct (purge_ids_fields ids i1) as (Fa & Fi & Fr & Fs & Fn & Ft).
  assert (Hm : forall id, message_rows id i1 = message_rows id (inner st)) by done.
  cbn [fst inner with_inner idgen]. split_and!.
  - done.
  - intros a acc. rewrite account_rows_at. simpl. rewrite Fa. simpl. apply Hrows.
  - intros id. pose proof (message_rows_purge_ids ids i1 id) as Hmr.
    unfold message_rows in *. simpl. rewrite Hmr, Hm. case_decide as D; [done|].
    symmetry. apply filter_all. intros r Hr. destruct (Q r) eqn:EQ; [done|].
    destruct D. apply (Hids id Hwf); [by destruct Hon as (_ & _ & ?)|]. by exists r.
  - intros id. simpl. rewrite contents_purge_ids, Hm. done.
  - intros a s cid x. simpl. rewrite Fi. rewrite map_lookup_filter_Some. done.
  - intros a b m id. simpl. rewrite Ft. rewrite map_lookup_filter_Some. done.
  - intros a acc t id e. simpl. rewrite pending_purge_ids. done.
  - intros a x y g v. simpl. rewrite Fr. rewrite map_lookup_filter_Some. done.
  - intros a x y k v. simpl. rewrite Fs. rewrite map_lookup_filter_Some. done.
  - simpl. by rewrite Fn.
Qed.

(** A message loses its content only with all its rows, and then it is of the
    thread. *)
Lemma purged_content bound i id c :
  inner_wf bound i -> account <> peer -> contents i !! id = Some c ->
  id ∈ purged_ids i -> List.filter Q (message_rows id i) = [] ->
  sm_kind c = User /\ sm_app c = app /\ (sm_sender c = account \/ sm_sender c = peer).
Proof.
  intros Hwf Hne Hc Hid HF. apply (elem_of_purged_ids bound i id Hwf Hne) in Hid as (r & Hr & _).
  destruct (wf_rows _ _ Hwf _ _ Hc) as [ms Hms]. rewrite Hms in Hr, HF.
  destruct (kept_rows_of c ms (wf_group _ _ Hwf _ _ Hc)) as [E|(_ & ? & ? & ?)]; [|done].
  rewrite E in HF. rewrite HF in Hr. by apply not_elem_of_nil in Hr.
Qed.

Lemma purge_peer_dm_wf st :
  store_wf st -> store_wf (purge_peer_dm app account peer st).1.
Proof.
  unfold store_wf. intros Hwf.
  destruct (decide (purge_on)) as [Hon|Hoff].
  2:{ unfold purge_peer_dm. replace (_ || _ || _) with true; [done|]. symmetry.
      unfold purge_on in Hoff. unfold str_is_empty.
      destruct (decide (account = ""%string)); [by rewrite bool_decide_eq_true_2|].
      destruct (decide (peer = ""%string)); [by rewrite (bool_decide_eq_true_2 (peer = ""%string)), orb_true_r|].
      destruct (decide (account = peer)); [|tauto].
      by rewrite (bool_decide_eq_true_2 (account = peer)), !orb_true_r. }
  destruct (purge_fields st Hwf Hon) as (Eg & Ea & Em & Ec & Ei & Et & Ep & Er & Es & En).
  rewrite Eg. set (i' := inner (purge_peer_dm app account peer st).1) in *. set (i := inner st) in *.
  assert (Hne : account <> peer) by (by destruct Hon as (_ & _ & ?)).
  assert (Hsub : forall id c, contents i' !! id = Some c -> contents i !! id = Some c)
    by (intros id c; rewrite Ec; by case_decide).
  assert (Hkeep : forall id c, contents i !! id = Some c ->
    contents i' !! id = Some c \/
    (id ∈ purged_ids i /\ sm_app c = app /\ (sm_sender c = account \/ sm_sender c = peer))).
  { intros id c Hc. rewrite Ec. case_decide as D; [|by left]. right. destruct D as [D1 D2].
    by destruct (purged_content _ i id c Hwf Hne Hc D1 D2) as (_ & ? & ?). }
  split.
  - intros id c Hc%Hsub. by eapply wf_id.
  - intros id c Hc%Hsub. by eapply wf_group.
  - intros id c. rewrite Ec, Em. case_decide as D; [done|]. intros Hc.
    destruct (wf_rows _ _ Hwf _ _ Hc) as [ms Hms]. exists ms. rewrite Hms.
    destruct (kept_rows_of c ms (wf_group _ _ Hwf _ _ Hc)) as [E|(E & _)]; [done|].
    rewrite E. destruct (decide (rows_of c ms = [])) as [F|F]; [done|]. exfalso. apply D.
    rewrite Hms. split; [|done]. apply (elem_of_purged_ids _ i id Hwf Hne).
    destruct (rows_of c ms) as [|r l]; [done|]. rewrite Hms. exists r. split; [left|].
    simpl in E. by destruct (Q r).
  - intros id. rewrite Ec, Em. case_decide as D; [by destruct D as [_ ->]|].
    intros Hc. by rewrite (wf_no_rows _ _ Hwf _ Hc).
  - intros a acc id. rewrite Ea, Em, filter_comm, (wf_index _ _ Hwf). apply filter_comm.
  - intros a s cid id t. rewrite Ei. intros [H' Hno].
    destruct (wf_idem _ _ Hwf _ _ _ _ _ H') as (c & Hc & Ha & Hs & Ht).
    destruct (Hkeep id c Hc) as [?|(? & ? & ?)]; [by exists c|]. exfalso. apply Hno.
    simpl. rewrite <- Ha, <- Hs. done.
  - intros a b m id. rewrite Et. intros [H' Hno].
    destruct (wf_turns _ _ Hwf _ _ _ _ H') as (c & Hc & Ha & Hs).
    destruct (Hkeep id c Hc) as [?|(? & ? & ?)]; [by exists c|]. exfalso. apply Hno.
    rewrite <- Ha, <- Hs. tauto.
  - intros a acc t id e. rewrite Ep. intros [H' Hno].
    destruct (wf_pending _ _ Hwf _ _ _ _ _ H') as (c & Hc & Ha).
    destruct (Hkeep id c Hc) as [?|(? & ? & ?)]; [by exists c|]. exfalso. apply Hno.
    by rewrite <- Ha.
  - rewrite En. by eapply wf_version.
  - intros [[[a x] y] k] v. rewrite Es, En. intros [? _]. by eapply wf_versions.
Qed.
End purge.
