(* ===== verification/StoreProps.v ===== *)
(** Correctness of the message store's writes: the invariant over whole histories,
    idempotent sends, versioned conversation state, receipts and their collection,
    and the purge of a thread. *)

From S2P Require Import Prelude Wire Store StoreInv.
Open Scope Z_scope.
Open Scope kim_scope.

(** ** Histories *)

Inductive StoreOp : Type :=
| OpInsertUser (app : string) (req : InsertMessage)
| OpInsertGroup (app : string) (req : InsertMessage) (members : list string)
| OpAck (app account target_id : string) (ids : list Z)
| OpOfflineIndex (app account target_id : string) (message_id : Z) (resume : bool)
| OpBackfill (app account target_id : string)
| OpGc (limit : Z)
| OpMarkRead (app account dest : string) (kind : MessageKind) (message_id : Z)
| OpBotReply (app owner bot : string) (in_reply_to : Z) (req : InsertMessage)
| OpPurge (app account peer : string).

(** One operation at the clock readings [now] and [unix]. *)
Definition apply_op {G} `{IdGenerator G} (now unix : Z) (op : StoreOp) (st : MemoryMessageStore G)
  : MemoryMessageStore G :=
  match op with
  | OpInsertUser app req => (insert_user app req now st).1
  | OpInsertGroup app req members => (insert_group app req members now st).1
  | OpAck app account target_id ids => (ack app account target_id ids now st).1
  | OpOfflineIndex app account target_id id resume =>
      (offline_index app account target_id id resume now unix st).1
  | OpBackfill app account target_id => (backfill_delivery app account target_id now unix st).1
  | OpGc limit => (gc_expired_deliveries limit now st).1
  | OpMarkRead app account dest kind id => (mark_read app account dest kind id st).1
  | OpBotReply app owner bot in_reply_to req => (insert_bot_reply app owner bot in_reply_to req now st).1
  | OpPurge app account peer => (purge_peer_dm app account peer st).1
  end.

Definition run_ops {G} `{IdGenerator G} (ops : list (Z * Z * StoreOp)) (st : MemoryMessageStore G)
  : MemoryMessageStore G :=
  foldl (fun st o => apply_op o.1.1 o.1.2 o.2 st) st ops.

(** The caller's obligation: a group message has a group. *)
Definition op_ok (op : StoreOp) : Prop :=
  match op with OpInsertGroup _ req _ => im_dest req <> ""%string | _ => True end.
Definition no_purge (op : StoreOp) : Prop := match op with OpPurge _ _ _ => False | _ => True end.

Section histories.
Context {G : Type} `{IdGeneratorOk G}.
Implicit Types st : MemoryMessageStore G.

Lemma apply_op_wf now unix op st : store_wf st -> op_ok op -> store_wf (apply_op now unix op st).
Proof.
  intros Hwf Hok. destruct op; simpl.
  - apply insert_wf; [done|by intros [=]].
  - apply insert_wf; [done|by intros _].
  - by apply ack_wf.
  - by apply offline_index_wf.
  - by apply backfill_delivery_wf.
  - by apply gc_expired_deliveries_wf.
  - by apply mark_read_wf.
  - by apply insert_bot_reply_wf.
  - by apply purge_peer_dm_wf.
Qed.

Lemma run_ops_wf ops st :
  store_wf st -> Forall (fun o => op_ok o.2) ops -> store_wf (run_ops ops st).
Proof.
  unfold run_ops. revert st; induction ops as [|o ops IH]; intros st Hwf Hok; simpl; [done|].
  inversion Hok; subst. apply IH; [by apply apply_op_wf|done].
Qed.

Lemma with_ack_wf (g : G) pending observer : store_wf (with_ack g pending observer).
Proof. apply wf_bound_pos, id_bound_pos. Qed.
End histories.

(** ** Nothing but a purge forgets a message *)

Record extends (i i' : MInner) : Prop := {
  ext_contents : forall id c, contents i !! id = Some c ->
    contents i' !! id = Some c /\ message_rows id i' = message_rows id i;
  ext_idem : forall k x, idempotency i !! k = Some x -> idempotency i' !! k = Some x;
  ext_turns : forall k x, bot_turns i !! k = Some x -> bot_turns i' !! k = Some x
}.

#[export] Instance extends_preorder : PreOrder extends.
Proof.
  split.
  - intros i. split; auto.
  - intros i1 i2 i3 [A B C] [A' B' C']. split; auto.
    intros id c Hc. destruct (A id c Hc) as [Hc2 E2]. destruct (A' id c Hc2) as [? E3].
    split; [done|congruence].
Qed.

(** Fields other than contents, message rows, client ids and turns do not matter. *)
Lemma extends_same i i' :
  contents i' = contents i -> indexes_by_message i' = indexes_by_message i ->
  idempotency i' = idempotency i -> bot_turns i' = bot_turns i -> extends i i'.
Proof.
  intros E1 E2 E3 E4. split; unfold message_rows; rewrite ?E1, ?E2, ?E3, ?E4; auto.
Qed.

Lemma extends_receipts on app id req members now i : extends i (receipts_if on app id req members now i).
Proof. destruct (receipts_if_fields on app id req members now i) as (?&?&?&?&?&?&?&?). by apply extends_same. Qed.

Lemma extends_insert_write app kind req members id now on i :
  contents i !! id = None ->
  (im_client_id req <> ""%string -> idempotency i !! (app, im_sender req, im_client_id req) = None) ->
  extends i (insert_write app kind req members id now on i).
Proof.
  intros Hfresh Hkey. unfold insert_write. etransitivity; [|apply extends_receipts].
  set (i1 := if str_is_empty _ then i else _). set (i2 := with_contents _ i1).
  destruct (push_rows_fields (index_rows app kind req members id) i2) as (Fc & Fi & Fr & Fp & Ft).
  assert (E1 : contents i1 = contents i /\ indexes_by_message i1 = indexes_by_message i /\
    bot_turns i1 = bot_turns i) by (unfold i1; by destruct (str_is_empty _)).
  destruct E1 as (Ec & Em & Et). split.
  - intros id' c Hc. assert (id <> id') by congruence. split.
    + rewrite Fc. simpl. rewrite Ec. by rewrite lookup_insert_ne.
    + rewrite message_rows_push_rows, filter_index_rows_other, app_nil_r by done.
      unfold message_rows, i2. simpl. by rewrite Em.
  - intros [[a s] cid] x Hx. rewrite Fi. simpl. unfold i1, str_is_empty. case_bool_decide as D; [done|].
    simpl. rewrite lookup_insert_ne; [done|]. intros [= <- <- <-]. by rewrite Hkey in Hx.
  - intros k x Hx. rewrite Ft. simpl. by rewrite Et.
Qed.

Section growth.
Context {G : Type} `{IdGeneratorOk G}.
Implicit Types st : MemoryMessageStore G.

Lemma insert_ids_fresh kind members st g id :
  store_wf st -> insert_ids kind members (idgen st) = (g, Ok id) -> contents (inner st) !! id = None.
Proof.
  intros Hwf E. destruct (insert_ids_bound _ _ _ _ _ E) as [_ Hi].
  eapply wf_fresh_id; [exact Hwf|]. specialize (Hi id eq_refl). lia.
Qed.

Lemma insert_check_cases app kind req members now st st1 r :
  insert_check app kind req members now st = (st1, r) ->
  idgen st1 = idgen st /\ extends (inner st) (inner st1) /\
  (r = None -> st1 = st /\ (im_client_id req <> ""%string ->
     idempotency (inner st) !! (app, im_sender req, im_client_id req) = None)).
Proof.
  unfold insert_check, str_is_empty. case_bool_decide as D; [intros [= <- <-]; done|].
  destruct (idempotency (inner st) !! _) as [[id t]|]; [|intros [= <- <-]; done].
  destruct (fanout_from_memory (inner st) id); intros [= <- <-]; [|done].
  split_and!; [done|apply extends_receipts|done].
Qed.

Lemma insert_commit_extends app kind req members id now st :
  contents (inner st) !! id = None ->
  extends (inner st) (inner (insert_commit app kind req members id now st).1).
Proof.
  intros Hf. unfold insert_commit, str_is_empty. case_bool_decide; simpl; [by apply extends_insert_write|].
  destruct (idempotency (inner st) !! _) as [[id' t]|] eqn:E; simpl.
  - apply extends_receipts.
  - by apply extends_insert_write.
Qed.

Lemma insert_extends app kind req members now st :
  store_wf st -> extends (inner st) (inner (insert app kind req members now st).1).
Proof.
  intros Hwf. unfold insert.
  destruct (insert_check _ _ _ _ _ st) as [st1 [r|]] eqn:E;
    destruct (insert_check_cases _ _ _ _ _ _ _ _ E) as (Eg & He & Hn); [done|].
  destruct (Hn eq_refl) as [-> _].
  destruct (insert_ids kind members (idgen st)) as [g [id|e]] eqn:F; [|done].
  apply (insert_commit_extends app kind req members id now (with_idgen g st)).
  exact (insert_ids_fresh kind members st g id Hwf F).
Qed.

Lemma insert_bot_reply_extends app owner bot irt req now st :
  store_wf st -> extends (inner st) (inner (insert_bot_reply app owner bot irt req now st).1).
Proof.
  intros Hwf. unfold insert_bot_reply. destruct (negb _ || negb _); [done|].
  destruct (irt <=? 0); [done|]. destruct (negb (bot_orig_ok _ _ _ _ _)); [done|].
  destruct (bot_turns (inner st) !! _) eqn:Et; [done|].
  assert (Hturn : forall id i, extends (inner st) i ->
    bot_turns i !! (app, bot, irt) = None ->
    extends (inner st) (receipts_if (pending_receipt st) app id req None now
                          (set_bot_turn (app, bot, irt) id i))).
  { intros id i Hi Hnone. etransitivity; [exact Hi|]. etransitivity; [|apply extends_receipts].
    split; simpl; auto. intros k x Hx. rewrite lookup_insert_ne; [done|]. intros <-. congruence. }
  unfold str_is_empty. case_bool_decide as D.
  - destruct (next_id (idgen st)) as [g [id|e]] eqn:E; [|reflexivity]. cbn [fst inner with_inner].
    apply next_id_ok in E. apply Hturn.
    + apply extends_insert_write; [|done]. eapply wf_fresh_id; [exact Hwf|lia].
    + by rewrite insert_write_turns.
  - destruct (idempotency (inner st) !! _) as [[id t]|] eqn:F.
    + cbn [fst inner with_inner]. by apply Hturn.
    + destruct (next_id (idgen st)) as [g [id|e]] eqn:E; [|reflexivity]. cbn [fst inner with_inner].
      apply next_id_ok in E. apply Hturn.
      * apply extends_insert_write; [|done]. eapply wf_fresh_id; [exact Hwf|lia].
      * by rewrite insert_write_turns.
Qed.

Lemma apply_op_extends now unix op st :
  store_wf st -> no_purge op -> extends (inner st) (inner (apply_op now unix op st)).
Proof.
  intros Hwf Hp. destruct op; simpl.
  - by apply insert_extends.
  - by apply insert_extends.
  - unfold ack. case_match; [by case_match|]. case_match; [done|].
    destruct (foldl _ _ _) as [p obs]. by apply extends_same.
  - unfold offline_index. repeat case_match; done.
  - unfold backfill_delivery. case_match; [done|]. by apply extends_same.
  - by apply extends_same.
  - unfold mark_read. case_match; [done|]. simpl. destruct (0 <? message_id); [|done].
    by apply extends_same.
  - by apply insert_bot_reply_extends.
  - done.
Qed.

Lemma run_ops_extends ops st :
  store_wf st -> Forall (fun o => op_ok o.2) ops -> Forall (fun o => no_purge o.2) ops ->
  extends (inner st) (inner (run_ops ops st)).
Proof.
  unfold run_ops. revert st; induction ops as [|o ops IH]; intros st Hwf Hok Hp; simpl; [done|].
  inversion Hok; inversion Hp; subst.
  etransitivity; [by apply apply_op_extends|]. apply IH; [by apply apply_op_wf|done|done].
Qed.

(** *** New contents have new ids *)

Definition ids_fresh st st' : Prop :=
  id_bound (idgen st) <= id_bound (idgen st') /\
  forall id, id < id_bound (idgen st) -> contents (inner st) !! id = None ->
    contents (inner st') !! id = None.

Lemma ids_fresh_same st st' :
  idgen st' = idgen st -> contents (inner st') = contents (inner st) -> ids_fresh st st'.
Proof. intros E1 E2. unfold ids_fresh. rewrite E1, E2. split; [lia|done]. Qed.

Lemma ids_fresh_gen st g : id_bound (idgen st) <= id_bound g -> ids_fresh st (with_idgen g st).
Proof. intros. by split. Qed.

Lemma contents_receipts_if on app id req members now i :
  contents (receipts_if on app id req members now i) = contents i.
Proof. by destruct on. Qed.

Lemma insert_commit_ids app kind req members id now st :
  ids_fresh st (insert_commit app kind req members id now st).1
  \/ forall id', contents (inner st) !! id' = None -> id' <> id ->
      contents (inner (insert_commit app kind req members id now st).1) !! id' = None.
Proof.
  unfold insert_commit, str_is_empty. case_bool_decide; simpl.
  - right. intros id' Hn Hne. by rewrite contents_insert_write, lookup_insert_ne.
  - destruct (idempotency (inner st) !! _) as [[id' t]|]; simpl.
    + left. by apply ids_fresh_same; simpl; rewrite ?contents_receipts_if.
    + right. intros id' Hn Hne. by rewrite contents_insert_write, lookup_insert_ne.
Qed.

Lemma insert_commit_gen app kind req members id now st :
  idgen (insert_commit app kind req members id now st).1 = idgen st.
Proof.
  unfold insert_commit. destruct (str_is_empty _); [done|].
  by destruct (idempotency (inner st) !! _) as [[id' t]|].
Qed.

Lemma insert_ids_fresh_step app kind req members now st :
  ids_fresh st (insert app kind req members now st).1.
Proof.
  unfold insert. destruct (insert_check _ _ _ _ _ st) as [st1 [r|]] eqn:E.
  - unfold insert_check in E. destruct (str_is_empty _); [by simplify_eq|].
    destruct (idempotency (inner st) !! _) as [[id t]|]; [|by simplify_eq].
    destruct (fanout_from_memory (inner st) id); simplify_eq; simpl.
    + apply ids_fresh_same; simpl; [done|by rewrite contents_receipts_if].
    + by apply ids_fresh_same.
  - destruct (insert_check_cases _ _ _ _ _ _ _ _ E) as (_ & _ & Hn). destruct (Hn eq_refl) as [-> _].
    destruct (insert_ids kind members (idgen st)) as [g [id|e]] eqn:F;
      destruct (insert_ids_bound _ _ _ _ _ F) as [Hb Hi]; [|by apply ids_fresh_gen].
    specialize (Hi id eq_refl).
    pose proof (insert_commit_gen app kind req members id now (with_idgen g st)) as Eg.
    destruct (insert_commit_ids app kind req members id now (with_idgen g st)) as [[Hc1 Hc2]|Hc].
    + simpl in *. split; [lia|]. intros id' Hlt Hn'. apply Hc2; [simpl; lia|done].
    + split; [rewrite Eg; simpl; lia|]. intros id' Hlt Hn'. apply Hc; [done|lia].
Qed.

Lemma insert_bot_reply_ids app owner bot irt req now st :
  ids_fresh st (insert_bot_reply app owner bot irt req now st).1.
Proof.
  unfold insert_bot_reply. destruct (negb _ || negb _); [by apply ids_fresh_same|].
  destruct (irt <=? 0); [by apply ids_fresh_same|].
  destruct (negb (bot_orig_ok _ _ _ _ _)); [by apply ids_fresh_same|].
  destruct (bot_turns (inner st) !! _); [by apply ids_fresh_same|].
  assert (Hw : forall g r, next_id (idgen st) = (g, r) ->
    ids_fresh st (match r with
      | Err e => (with_idgen g st, Err (Id e))
      | Ok message_id =>
        let i := insert_write app User req [] message_id now false (inner st) in
        let i := set_bot_turn (app, bot, irt) message_id i in
        let i := receipts_if (pending_receipt st) app message_id req None now i in
        (with_inner i (with_idgen g st),
         Ok (mkInsertResult message_id (im_send_time req) false (fanout_from_write User req [])))
      end).1).
  { intros g [id|e] E.
    - apply next_id_ok in E. cbv zeta. split; cbn [fst inner with_inner idgen with_idgen]; [lia|].
      intros id' Hlt Hn. rewrite contents_receipts_if.
      change (contents (set_bot_turn ?k ?x ?i)) with (contents i).
      rewrite contents_insert_write, lookup_insert_ne; [done|lia].
    - apply next_id_err in E. by apply ids_fresh_gen. }
  unfold str_is_empty. case_bool_decide.
  - destruct (next_id (idgen st)) as [g r] eqn:E. exact (Hw g r eq_refl).
  - destruct (idempotency (inner st) !! _) as [[id t]|].
    + apply ids_fresh_same; simpl; [done|by rewrite contents_receipts_if].
    + destruct (next_id (idgen st)) as [g r] eqn:E. exact (Hw g r eq_refl).
Qed.

Lemma apply_op_ids now unix op st : no_purge op -> ids_fresh st (apply_op now unix op st).
Proof.
  intros Hp. destruct op; simpl.
  - apply insert_ids_fresh_step.
  - apply insert_ids_fresh_step.
  - unfold ack. case_match; [by case_match; apply ids_fresh_same|].
    case_match; [by apply ids_fresh_same|].
    destruct (foldl _ _ _) as [p obs]. by apply ids_fresh_same.
  - unfold offline_index. repeat case_match; by apply ids_fresh_same.
  - unfold backfill_delivery. case_match; by apply ids_fresh_same.
  - by apply ids_fresh_same.
  - unfold mark_read. case_match; [by apply ids_fresh_same|].
    destruct (0 <? message_id); by apply ids_fresh_same.
  - apply insert_bot_reply_ids.
  - done.
Qed.

(** *** Sends with a client id *)

(** The store answers this client id with message [id], sent at [t], and can
    rebuild [fanout]. *)
Definition remembers (app sender cid : string) (r : InsertResult) (i : MInner) : Prop :=
  idempotency i !! (app, sender, cid) = Some (ir_message_id r, ir_send_time r) /\
  fanout_from_memory i (ir_message_id r) = Ok (ir_fanout r).

Lemma fanout_extends i i' id f :
  extends i i' -> fanout_from_memory i id = Ok f -> fanout_from_memory i' id = Ok f.
Proof.
  intros He. unfold fanout_from_memory. destruct (contents i !! id) as [c|] eqn:E; [|done].
  destruct (ext_contents _ _ He id c E) as [-> ->]. done.
Qed.

Lemma remembers_extends app sender cid r i i' :
  extends i i' -> remembers app sender cid r i -> remembers app sender cid r i'.
Proof.
  intros He [Hi Hf]. split; [by eapply ext_idem|by eapply fanout_extends].
Qed.

Lemma row4_of_index_rows app kind req members id :
  fanout_from_index_rows (im_msg_type req) (im_body req) (im_extra req)
    (row4_of <$> index_rows app kind req members id) = fanout_from_write kind req members.
Proof.
  unfold fanout_from_write. destruct kind; simpl; [done|].
  by rewrite <- list_fmap_compose.
Qed.

Lemma insert_write_message_rows app kind req members id now on i :
  message_rows id i = [] ->
  message_rows id (insert_write app kind req members id now on i)
  = index_rows app kind req members id.
Proof.
  intros Hno. unfold insert_write.
  set (i1 := if str_is_empty _ then i else _). set (i2 := with_contents _ i1).
  assert (E : message_rows id (push_rows (index_rows app kind req members id) i2)
    = index_rows app kind req members id).
  { rewrite message_rows_push_rows, filter_index_rows_same.
    replace (message_rows id i2) with (message_rows id i); [by rewrite Hno|].
    unfold message_rows, i2, i1. by destruct (str_is_empty _). }
  rewrite <- E at 2. unfold message_rows. 
  by destruct (receipts_if_fields on app id req (members_opt kind members) now
    (push_rows (index_rows app kind req members id) i2)) as (_ & _ & -> & _).
Qed.

(** The fan-out given with a write is the one a retry rebuilds from the index. *)
Lemma insert_write_fanout app kind req members id now on i :
  message_rows id i = [] ->
  fanout_from_memory (insert_write app kind req members id now on i) id
  = Ok (fanout_from_write kind req members).
Proof.
  intros Hno. unfold fanout_from_memory.
  rewrite insert_write_content, insert_write_message_rows by done. simpl.
  by rewrite row4_of_index_rows.
Qed.

Lemma insert_write_idem app kind req members id now on i :
  im_client_id req <> ""%string ->
  idempotency (insert_write app kind req members id now on i) !! (app, im_sender req, im_client_id req)
  = Some (id, im_send_time req).
Proof.
  intros Hcid. unfold insert_write. rewrite idempotency_receipts_if, idempotency_push_rows. simpl.
  unfold str_is_empty. rewrite bool_decide_eq_false_2 by done. simpl. apply lookup_insert_eq.
Qed.

Lemma fanout_receipts on app id req members now i id' :
  fanout_from_memory (receipts_if on app id req members now i) id' = fanout_from_memory i id'.
Proof. by destruct on. Qed.

Lemma insert_remembers app kind req members now st st' r :
  store_wf st -> im_client_id req <> ""%string ->
  insert app kind req members now st = (st', Ok r) ->
  remembers app (im_sender req) (im_client_id req) r (inner st').
Proof.
  intros Hwf Hcid. unfold insert, insert_check, str_is_empty.
  rewrite bool_decide_eq_false_2 by done.
  destruct (idempotency (inner st) !! _) as [[id t]|] eqn:F.
  - destruct (fanout_from_memory (inner st) id) as [f|e] eqn:Ef; [|done]. intros [= <- <-].
    split; simpl; [by rewrite idempotency_receipts_if|]. by rewrite fanout_receipts.
  - destruct (insert_ids kind members (idgen st)) as [g [id|e]] eqn:E; [|done].
    unfold insert_commit, str_is_empty. rewrite bool_decide_eq_false_2 by done. simpl. rewrite F.
    intros [= <- <-]. split; simpl.
    + by apply insert_write_idem.
    + apply insert_write_fanout. eapply wf_no_rows; [exact Hwf|]. by eapply insert_ids_fresh.
Qed.

(** A known client id is answered in the first phase. *)
Lemma insert_known app kind req members now st r :
  im_client_id req <> ""%string -> remembers app (im_sender req) (im_client_id req) r (inner st) ->
  insert app kind req members now st =
    (with_inner (receipts_if (pending_receipt st) app (ir_message_id r) req
                   (members_opt kind members) now (inner st)) st,
     Ok (mkInsertResult (ir_message_id r) (ir_send_time r) true (ir_fanout r))).
Proof.
  intros Hcid [Hi Hf]. unfold insert, insert_check, str_is_empty.
  rewrite bool_decide_eq_false_2 by done. by rewrite Hi, Hf.
Qed.
End growth.

(** ** A generator for the witnesses: it counts up and stops at the end of the range *)

Record CountingGen := mkCountingGen { cg_n : nat }.
#[export] Instance CountingGen_next : IdGenerator CountingGen := {|
  next_id g :=
    if Z.of_nat (cg_n g) <=? i64_max then (mkCountingGen (S (cg_n g)), Ok (Z.of_nat (cg_n g)))
    else (g, Err Overflow)
|}.
#[export] Instance CountingGen_ok : IdGeneratorOk CountingGen.
Proof.
  refine {| id_bound := fun g => Z.of_nat (cg_n g) |}; simpl; intros;
    try destruct (Z.leb_spec (Z.of_nat (cg_n g)) i64_max); simplify_eq; simpl; try lia.
  unfold in_i64, i64_min. lia.
Defined.

Definition demo_req (sender dest cid body : string) : InsertMessage :=
  mkInsertMessage sender dest 1000 MESSAGE_TYPE_TEXT body "" cid [mkDeliveryTarget dest "t1"].
Definition demo_store : MemoryMessageStore CountingGen := with_ack (mkCountingGen 10) true true.
Definition demo_ops : list (Z * Z * StoreOp) :=
  [(1, 1, OpInsertUser "kim" (demo_req "alice" "bob" "c1" "hi"));
   (2, 2, OpInsertGroup "kim" (demo_req "bob" "g1" "" "yo") ["alice"; "bob"]);
   (3, 3, OpMarkRead "kim" "bob" "alice" User 10)]%string.

(** ** Properties *)

(** (C12) Every operation of the store keeps its maps consistent: after any history
    of operations, at any clock readings, contents sit under their own id, the rows
    of a message are exactly those its content calls for and both indexes agree on
    them, and client ids, bot turns and receipts point at existing messages of
    their app and sender. *)
Theorem store_history_wf {G : Type} `{IdGeneratorOk G} (g : G) (pending observer : bool)
  (ops : list (Z * Z * StoreOp)) (Hok : Forall (fun o => op_ok o.2) ops) :
  store_wf (run_ops ops (with_ack g pending observer)).
Proof. apply run_ops_wf; [apply with_ack_wf|done]. Qed.

Lemma store_history_wf_witness : store_wf (run_ops demo_ops demo_store).
Proof.
  apply (store_history_wf (mkCountingGen 10) true true demo_ops).
  repeat constructor; simpl; discriminate.
Defined.

(** (C11) A send with a client id happens once.  After a send that succeeded, and
    after any further operations short of a purge, a send by the same sender with
    the same client id, whatever else it says, answers with the first message's id
    and send time and the first fan-out, marked duplicate.  It draws no id and writes
    no message: all it changes are receipts, which it adds, where receipts are on,
    for the online targets it names among its own recipients. *)
Theorem insert_idempotent {G : Type} `{IdGeneratorOk G} (st st1 : MemoryMessageStore G)
  (app : string) (kind kind' : MessageKind) (req req' : InsertMessage) (members members' : list string)
  (now now' : Z) (r : InsertResult) (ops : list (Z * Z * StoreOp))
  (Hwf : store_wf st) (Hg : group_req_ok kind req) (Hcid : im_client_id req <> ""%string)
  (Hfirst : insert app kind req members now st = (st1, Ok r))
  (Hok : Forall (fun o => op_ok o.2) ops) (Hnp : Forall (fun o => no_purge o.2) ops)
  (Hsame : im_sender req' = im_sender req /\ im_client_id req' = im_client_id req) :
  let st2 := run_ops ops st1 in
  let out := insert app kind' req' members' now' st2 in
  let st3 := out.1 in
  out.2 = Ok (mkInsertResult (ir_message_id r) (ir_send_time r) true (ir_fanout r))
  /\ st3 = with_inner (with_pending (pending (inner st3)) (inner st2)) st2
  /\ forall k, pending (inner st3) !! k = match pending (inner st2) !! k with
       | Some e => Some e
       | None => if pending_receipt st2 && bool_decide (k ∈ receipt_keys app (ir_message_id r)
                      (recv_accounts req' (members_opt kind' members')) (im_online_targets req'))
                 then Some (mkPendingEntry now' (now' + RECEIPT_TTL) None) else None
       end.
Proof.
  cbv zeta. pose proof (insert_remembers _ _ _ _ _ _ _ _ Hwf Hcid Hfirst) as Hr.
  assert (Hwf1 : store_wf st1).
  { pose proof (insert_wf app kind req members now st Hwf Hg) as Hw. by rewrite Hfirst in Hw. }
  apply (remembers_extends _ _ _ _ _ _ (run_ops_extends ops st1 Hwf1 Hok Hnp)) in Hr.
  destruct Hsame as [Es Ec]. rewrite <- Es, <- Ec in Hr. rewrite <- Ec in Hcid.
  rewrite (insert_known _ _ _ _ _ _ r Hcid Hr).
  set (st2 := run_ops ops st1). cbn [fst snd inner with_inner]. split; [done|]. split.
  - unfold receipts_if. destruct (pending_receipt st2); [|by destruct (inner st2), st2].
    by rewrite upsert_receipts_eq.
  - intros k. unfold receipts_if. destruct (pending_receipt st2); cbn [andb]; [|by destruct (_ !! k)].
    rewrite upsert_receipts_eq. cbn [pending with_pending]. rewrite lookup_or_insert_all.
    destruct (pending (inner st2) !! k); [done|]. by case_decide; case_bool_decide.
Qed.

Lemma insert_idempotent_witness :
  (insert "kim" User (demo_req "alice" "carol" "c1" "other") [] 9
     (run_ops [(2, 2, OpMarkRead "kim" "bob" "alice" User 10)]
        (insert "kim" User (demo_req "alice" "bob" "c1" "hi") [] 1 demo_store).1)).2
  = Ok (mkInsertResult 10 1000 true (fanout_from_write User (demo_req "alice" "bob" "c1" "hi") [])).
Proof.
  exact (proj1 (insert_idempotent demo_store
    (insert "kim" User (demo_req "alice" "bob" "c1" "hi") [] 1 demo_store).1 "kim" User User
    (demo_req "alice" "bob" "c1" "hi") (demo_req "alice" "carol" "c1" "other") [] [] 1 9
    (mkInsertResult 10 1000 false (fanout_from_write User (demo_req "alice" "bob" "c1" "hi") []))
    [(2, 2, OpMarkRead "kim" "bob" "alice" User 10)]
    (with_ack_wf _ _ _) ltac:(by intros [=]) ltac:(discriminate) ltac:(reflexivity)
    ltac:(repeat constructor) ltac:(repeat constructor) ltac:(by split))).
Defined.
