(* ===== verification/StoreConc.v ===== *)
(** Concurrent inserts.

    [MemoryMessageStore::insert] looks the client id up under the read lock, draws
    its ids without a lock and looks again under the write lock.  Here each call is
    a thread that takes these phases one at a time, interleaved with the other
    threads and with any other store operation.  [concurrent_insert_once] shows
    that the two lookups are enough: calls that race on one client id agree on one
    message and only one of them wrote it. *)

From S2P Require Import Prelude Wire Store StoreInv StoreProps.
Open Scope Z_scope.
Open Scope kim_scope.

Record Call := mkCall {
  call_app : string;
  call_kind : MessageKind;
  call_req : InsertMessage;
  call_members : list string
}.

(** Where a call is; [Receipts] holds the answer of the first lookup, [Burn] the
    message id and how many row ids are still to be drawn. *)
Inductive Phase : Type :=
| Check
| Receipts (r : InsertResult)
| DrawId
| Burn (message_id : Z) (rest : nat)
| Done (r : result InsertResult StoreError).

Record Thread := mkThread { t_call : Call; t_phase : Phase }.

Section interleaving.
Context {G : Type} `{IdGeneratorOk G}.
Implicit Types st : MemoryMessageStore G.

Definition row_count (c : Call) : nat :=
  match call_kind c with User => 2 | Group => length (call_members c) end.

Definition call_key (c : Call) : string * string * string :=
  (call_app c, im_sender (call_req c), im_client_id (call_req c)).

(** One phase of one call, at the clock reading [now]. *)
Definition phase_step (now : Z) (c : Call) (p : Phase) st : MemoryMessageStore G * Phase :=
  let mo := members_opt (call_kind c) (call_members c) in
  match p with
  | Check =>
    if str_is_empty (im_client_id (call_req c)) then (st, DrawId)
    else match idempotency (inner st) !! call_key c with
    | None => (st, DrawId)
    | Some (id, t) =>
      match fanout_from_memory (inner st) id with
      | Err e => (st, Done (Err e))
      | Ok f =>
        let r := mkInsertResult id t true f in
        (st, if pending_receipt st then Receipts r else Done (Ok r))
      end
    end
  | Receipts r =>
    (with_inner (upsert_receipts (call_app c) (ir_message_id r) (call_req c) mo now (inner st)) st,
     Done (Ok r))
  | DrawId =>
    match next_id (idgen st) with
    | (g, Ok id) => (with_idgen g st, Burn id (row_count c))
    | (g, Err e) => (with_idgen g st, Done (Err (Id e)))
    end
  | Burn id (S n) =>
    match next_id (idgen st) with
    | (g, Ok _) => (with_idgen g st, Burn id n)
    | (g, Err e) => (with_idgen g st, Done (Err (Id e)))
    end
  | Burn id O =>
    let '(st', r) := insert_commit (call_app c) (call_kind c) (call_req c) (call_members c) id now st in
    (st', Done r)
  | Done r => (st, Done r)
  end.

Inductive istep : MemoryMessageStore G * list Thread -> MemoryMessageStore G * list Thread -> Prop :=
| istep_thread now st ts n th st' p' :
    ts !! n = Some th -> phase_step now (t_call th) (t_phase th) st = (st', p') ->
    istep (st, ts) (st', <[n := mkThread (t_call th) p']> ts)
| istep_other now unix op st ts :
    op_ok op -> no_purge op -> istep (st, ts) (apply_op now unix op st, ts).

Definition call_ok (c : Call) : Prop := group_req_ok (call_kind c) (call_req c).
Definition started (cs : list Call) : list Thread := (fun c => mkThread c Check) <$> cs.

(** *** Invariant *)

Definition has_key (c : Call) : Prop := im_client_id (call_req c) <> ""%string.
Definition holds_id (id : Z) (p : Phase) : Prop :=
  match p with Burn id' _ => id' = id | _ => False end.
Definition wrote (p : Phase) : Prop :=
  match p with Done (Ok r) => ir_duplicate r = false | _ => False end.
Definition answered (p : Phase) : option InsertResult :=
  match p with Done (Ok r) | Receipts r => Some r | _ => None end.

Record conc_inv (x : MemoryMessageStore G * list Thread) : Prop := {
  ci_wf : store_wf x.1;
  ci_calls : forall n th, x.2 !! n = Some th -> call_ok (t_call th);
  ci_ids : forall n th id, x.2 !! n = Some th -> holds_id id (t_phase th) ->
    0 <= id < id_bound (idgen x.1) /\ contents (inner x.1) !! id = None;
  ci_distinct : forall n m th th' id, n <> m -> x.2 !! n = Some th -> x.2 !! m = Some th' ->
    holds_id id (t_phase th) -> ~ holds_id id (t_phase th');
  ci_answers : forall n th r, x.2 !! n = Some th -> has_key (t_call th) ->
    answered (t_phase th) = Some r ->
    remembers (call_app (t_call th)) (im_sender (call_req (t_call th)))
      (im_client_id (call_req (t_call th))) r (inner x.1);
  ci_receipts : forall n th r, x.2 !! n = Some th -> t_phase th = Receipts r ->
    has_key (t_call th) /\ ir_duplicate r = true;
  ci_once : forall n m th th', n <> m -> x.2 !! n = Some th -> x.2 !! m = Some th' ->
    has_key (t_call th) -> call_key (t_call th) = call_key (t_call th') ->
    wrote (t_phase th) -> ~ wrote (t_phase th')
}.

Lemma lookup_started cs n th : started cs !! n = Some th -> t_phase th = Check /\ t_call th ∈ cs.
Proof.
  unfold started. rewrite list_lookup_fmap. destruct (cs !! n) as [c|] eqn:E; [|done].
  intros [= <-]. split; [done|]. by eapply list_elem_of_lookup_2.
Qed.

Lemma conc_inv_started st cs :
  store_wf st -> Forall call_ok cs -> conc_inv (st, started cs).
Proof.
  intros Hwf Hcs. split; simpl.
  - done.
  - intros n th [_ Hin]%lookup_started. by eapply list.Forall_forall.
  - intros n th id [-> _]%lookup_started. done.
  - intros n m th th' id _ [-> _]%lookup_started. done.
  - intros n th r [-> _]%lookup_started. done.
  - intros n th r [-> _]%lookup_started. done.
  - intros n m th th' _ [-> _]%lookup_started. done.
Qed.

(** Forgetting where one call is. *)
Lemma conc_inv_forget st ts n th :
  conc_inv (st, ts) -> ts !! n = Some th ->
  conc_inv (st, <[n := mkThread (t_call th) Check]> ts).
Proof.
  intros [Hw Hc Hi Hd Ha Hr Ho] Hn. simpl in *. split; simpl.
  - done.
  - intros m th'. rewrite list_lookup_insert_Some. intros [(<- & <- & _)|[_ ?]]; simpl; eauto.
  - intros m th' id. rewrite list_lookup_insert_Some. intros [(<- & <- & _)|[_ ?]]; [done|eauto].
  - intros m k th1 th2 id Hne. rewrite !list_lookup_insert_Some.
    intros [(<- & <- & _)|[_ ?]]; [done|]. intros [(<- & <- & _)|[_ ?]]; [by intros _ []|eauto].
  - intros m th' r. rewrite list_lookup_insert_Some. intros [(<- & <- & _)|[_ ?]]; [done|eauto].
  - intros m th' r. rewrite list_lookup_insert_Some. intros [(<- & <- & _)|[_ ?]]; [done|eauto].
  - intros m k th1 th2 Hne. rewrite !list_lookup_insert_Some.
    intros [(<- & <- & _)|[_ ?]]; [done|]. intros [(<- & <- & _)|[_ ?]]; [by intros ? ? ? []|eauto].
Qed.

(** A step of the store that keeps messages and the ids still to be written. *)
Lemma conc_inv_store st st' ts :
  conc_inv (st, ts) -> store_wf st' -> extends (inner st) (inner st') ->
  id_bound (idgen st) <= id_bound (idgen st') ->
  (forall n th id, ts !! n = Some th -> holds_id id (t_phase th) ->
     contents (inner st) !! id = None -> id < id_bound (idgen st) ->
     contents (inner st') !! id = None) ->
  conc_inv (st', ts).
Proof.
  intros [Hw Hc Hi Hd Ha Hr Ho] Hw' He Hb Hnone. simpl in *. split; simpl; eauto.
  - intros n th id Hn Hh. destruct (Hi n th id Hn Hh) as [? ?]. split; [lia|].
    eapply Hnone; eauto. lia.
  - intros n th r Hn Hk Hans. eapply remembers_extends; eauto.
Qed.

(** Moving one call to a new place. *)
Lemma conc_inv_phase st ts n c p :
  conc_inv (st, ts) -> ts !! n = Some (mkThread c Check) ->
  (forall id, holds_id id p -> 0 <= id < id_bound (idgen st) /\ contents (inner st) !! id = None /\
     forall m th, m <> n -> ts !! m = Some th -> ~ holds_id id (t_phase th)) ->
  (forall r, answered p = Some r -> has_key c ->
     remembers (call_app c) (im_sender (call_req c)) (im_client_id (call_req c)) r (inner st)) ->
  (forall r, p = Receipts r -> has_key c /\ ir_duplicate r = true) ->
  (wrote p -> has_key c -> forall m th, m <> n -> ts !! m = Some th ->
     call_key c = call_key (t_call th) -> ~ wrote (t_phase th)) ->
  conc_inv (st, <[n := mkThread c p]> ts).
Proof.
  intros [Hw Hc Hi Hd Ha Hr Ho] Hn Pid Pans Prec Pw. simpl in *. split; simpl.
  - done.
  - intros m th'. rewrite list_lookup_insert_Some. intros [(<- & <- & _)|[_ ?]]; [|eauto].
    exact (Hc n _ Hn).
  - intros m th' id. rewrite list_lookup_insert_Some.
    intros [(<- & <- & _)|[_ ?]]; [|eauto]. intros Hh. by destruct (Pid id Hh) as (? & ? & _).
  - intros m k th1 th2 id Hne. rewrite !list_lookup_insert_Some.
    intros [(<- & <- & _)|[? ?]]; intros [(<- & <- & _)|[? ?]]; simpl.
    + done.
    + intros Hh. destruct (Pid id Hh) as (_ & _ & Hother). eauto.
    + intros Hh Hh'. destruct (Pid id Hh') as (_ & _ & Hother). by eapply Hother.
    + eauto.
  - intros m th' r. rewrite list_lookup_insert_Some. intros [(<- & <- & _)|[_ ?]]; [|eauto].
    simpl. auto.
  - intros m th' r. rewrite list_lookup_insert_Some. intros [(<- & <- & _)|[_ ?]]; [|eauto].
    simpl. auto.
  - intros m k th1 th2 Hne. rewrite !list_lookup_insert_Some.
    intros [(<- & <- & _)|[? ?]]; intros [(<- & <- & _)|[? ?]]; simpl.
    + done.
    + intros Hk Hkey Hwr. eapply Pw; eauto.
    + intros Hk Hkey Hwr Hwr'. eapply (Pw Hwr'); eauto.
      unfold has_key, call_key in *. by injection Hkey as _ _ <-.
    + eauto.
Qed.

Lemma insert_commit_result app kind req members id now st st' r :
  store_wf st -> im_client_id req <> ""%string -> contents (inner st) !! id = None ->
  insert_commit app kind req members id now st = (st', Ok r) ->
  remembers app (im_sender req) (im_client_id req) r (inner st') /\
  (ir_duplicate r = false -> idempotency (inner st) !! (app, im_sender req, im_client_id req) = None).
Proof.
  intros Hwf Hcid Hf. unfold insert_commit, str_is_empty. rewrite bool_decide_eq_false_2 by done.
  destruct (idempotency (inner st) !! _) as [[id' t]|] eqn:F.
  - rewrite fanout_receipts. destruct (fanout_from_memory (inner st) id') as [f|e] eqn:Ef; [|done].
    intros [= <- <-]. split; [|done]. split; simpl; [by rewrite idempotency_receipts_if|].
    by rewrite fanout_receipts.
  - intros [= <- <-]. split; [|done]. split; simpl.
    + by apply insert_write_idem.
    + apply insert_write_fanout. by eapply wf_no_rows.
Qed.

(** A phase that answers with an error, or moves on without an id. *)
Lemma conc_inv_idle st ts n c p :
  conc_inv (st, ts) -> ts !! n = Some (mkThread c Check) ->
  (forall id, ~ holds_id id p) -> answered p = None -> ~ wrote p ->
  conc_inv (st, <[n := mkThread c p]> ts).
Proof.
  intros Hinv Hn Hid Ha Hw. apply conc_inv_phase; try done.
  - intros id Hh. by destruct (Hid id).
  - intros r E. by rewrite Ha in E.
  - intros r ->. done.
Qed.

Lemma store_wf_gen st g :
  store_wf st -> id_bound (idgen st) <= id_bound g -> store_wf (with_idgen g st).
Proof. intros Hwf Hb. unfold store_wf in *. simpl. by eapply inner_wf_mono. Qed.

Lemma store_wf_receipts app r req mo now st sender cid :
  store_wf st -> remembers app sender cid r (inner st) ->
  store_wf (with_inner (upsert_receipts app (ir_message_id r) req mo now (inner st)) st).
Proof.
  intros Hwf [Hi _]. destruct (wf_idem _ _ Hwf _ _ _ _ _ Hi) as (c & Hc & Ha & _).
  unfold store_wf. simpl. by apply (inner_wf_receipts _ true _ _ _ _ _ _ c).
Qed.

(** The call at [n] takes one phase. *)
Lemma conc_inv_thread now st ts n c p st' p' :
  conc_inv (st, ts) -> ts !! n = Some (mkThread c p) -> phase_step now c p st = (st', p') ->
  conc_inv (st', <[n := mkThread c p']> ts).
Proof.
  intros Hinv Hn Hstep.
  pose proof (conc_inv_forget _ _ _ _ Hinv Hn) as H0inv. simpl in H0inv.
  set (ts0 := <[n := mkThread c Check]> ts) in *.
  assert (Hn0 : ts0 !! n = Some (mkThread c Check)) by
    (apply list_lookup_insert_eq; by eapply lookup_lt_Some).
  assert (Hother : forall m th, m <> n -> ts0 !! m = Some th -> ts !! m = Some th).
  { intros m th Hne. unfold ts0. by rewrite list_lookup_insert_ne. }
  replace (<[n := mkThread c p']> ts) with (<[n := mkThread c p']> ts0)
    by apply list_insert_insert_eq.
  destruct Hinv as [Hw Hc Hi Hd Ha Hr Ho]. simpl in Hw, Hc, Hi, Hd, Ha, Hr, Ho.
  pose proof (fun id => Hi n _ id Hn) as Hid. pose proof (fun r => Ha n _ r Hn) as Hans.
  pose proof (fun r => Hr n _ r Hn) as Hrec. simpl in Hid, Hans, Hrec.
  destruct p as [|r| |id [|k]|r]; simpl in Hstep.
  - destruct (str_is_empty (im_client_id (call_req c))) eqn:Ec.
    { simplify_eq. by apply conc_inv_idle; auto. }
    unfold str_is_empty in Ec. apply bool_decide_eq_false in Ec.
    destruct (idempotency (inner st) !! call_key c) as [[id t]|] eqn:E;
      [|simplify_eq; by apply conc_inv_idle; auto].
    destruct (fanout_from_memory (inner st) id) as [f|e] eqn:Ef;
      [|simplify_eq; by apply conc_inv_idle; auto].
    assert (Hrem : remembers (call_app c) (im_sender (call_req c)) (im_client_id (call_req c))
      (mkInsertResult id t true f) (inner st)) by done.
    destruct (pending_receipt st); simplify_eq; apply conc_inv_phase; try done.
    + by intros r' [= <-].
    + by intros r' [= <-].
    + by intros r' [= <-].
  - simplify_eq. destruct (Hrec r eq_refl) as [Hk Hdup]. specialize (Hans r Hk eq_refl).
    assert (Hex : extends (inner st) (upsert_receipts (call_app c) (ir_message_id r) (call_req c)
      (members_opt (call_kind c) (call_members c)) now (inner st))) by by apply extends_same.
    apply conc_inv_phase; try done.
    + apply (conc_inv_store st); [done| |exact Hex|simpl; lia|done]. by eapply store_wf_receipts.
    + intros r' [= <-] _. by eapply remembers_extends.
    + simpl. congruence.
  - destruct (next_id (idgen st)) as [g [id|e]] eqn:E; simplify_eq.
    + apply next_id_ok in E. apply conc_inv_phase; try done.
      * apply (conc_inv_store st); [done| |done|simpl; lia|done]. apply store_wf_gen; [done|lia].
      * intros id' Hh'. simpl in Hh'. subst id'. simpl. pose proof (id_bound_pos (idgen st)). split_and!; [lia|lia| |].
        -- eapply wf_fresh_id; [exact Hw|lia].
        -- intros m th Hne Hm Hh. apply Hother in Hm; [|done]. destruct (Hi m th id Hm Hh). lia.
    + apply next_id_err in E. apply conc_inv_idle; auto.
      apply (conc_inv_store st); [done| |done|simpl; lia|done]. by apply store_wf_gen.
  - destruct (insert_commit _ _ _ _ _ _ st) as [st1 r] eqn:E. simplify_eq.
    destruct (Hid id eq_refl) as [Hrange Hnone].
    assert (Hst : conc_inv (st', ts0)).
    { pose proof (insert_commit_wf (call_app c) (call_kind c) (call_req c) (call_members c) id now st
        Hw (Hc n _ Hn) Hnone Hrange) as Hwf'.
      pose proof (insert_commit_extends (call_app c) (call_kind c) (call_req c) (call_members c) id now
        st Hnone) as Hex.
      pose proof (insert_commit_gen (call_app c) (call_kind c) (call_req c) (call_members c) id now st)
        as Hg.
      pose proof (insert_commit_ids (call_app c) (call_kind c) (call_req c) (call_members c) id now st)
        as Hids.
      rewrite E in Hwf', Hex, Hg, Hids. simpl in *.
      apply (conc_inv_store st); [done|done|done|rewrite Hg; lia|].
      intros m th id' Hm Hh Hn' Hlt. destruct Hids as [[_ Hf]|Hf]; [by apply Hf|].
      apply Hf; [done|]. intros ->.
      destruct (decide (m = n)) as [->|Hne]; [rewrite Hn0 in Hm; by simplify_eq|].
      apply Hother in Hm; [|done]. exact (Hd m n th _ id Hne Hm Hn Hh eq_refl). }
    apply conc_inv_phase; try done.
    + intros r' E' Hk. destruct r as [r|e]; simplify_eq/=.
      by destruct (insert_commit_result _ _ _ _ _ _ _ _ _ Hw Hk Hnone E) as [? _].
    + intros Hwr Hk m th Hne Hm Hkey Hwr'. destruct r as [r|e]; [|done].
      destruct (insert_commit_result _ _ _ _ _ _ _ _ _ Hw Hk Hnone E) as [_ Hno].
      specialize (Hno Hwr). apply Hother in Hm; [|done].
      destruct th as [c' [| | | |[r'|e]]]; try done.
      assert (Hk' : has_key c') by (unfold has_key, call_key in *; simpl in Hkey; by injection Hkey as _ _ <-).
      destruct (Ha m _ r' Hm Hk' eq_refl) as [Hi' _]. simpl in Hi'.
      unfold call_key in Hkey. simpl in Hkey. injection Hkey as E1 E2 E3.
      rewrite <- E1, <- E2, <- E3, Hno in Hi'. done.
  - destruct (Hid id eq_refl) as [Hrange Hnone].
    destruct (next_id (idgen st)) as [g [id'|e]] eqn:E; simplify_eq.
    + apply next_id_ok in E. apply conc_inv_phase; try done.
      * apply (conc_inv_store st); [done| |done|simpl; lia|done]. apply store_wf_gen; [done|lia].
      * intros id0 Hh'. simpl in Hh'. subst id0. simpl. split_and!; [lia|lia|done|].
        intros m th Hne Hm Hh. apply Hother in Hm; [|done].
        exact (Hd m n th _ id Hne Hm Hn Hh eq_refl).
    + apply next_id_err in E. apply conc_inv_idle; auto.
      apply (conc_inv_store st); [done| |done|simpl; lia|done]. by apply store_wf_gen.
  - simplify_eq. unfold ts0. rewrite list_insert_insert_eq.
    replace (<[n := _]> ts) with ts by (symmetry; by apply list_insert_id). by split.
Qed.

Lemma istep_inv x y : conc_inv x -> istep x y -> conc_inv y.
Proof.
  intros Hinv Hstep.
  destruct Hstep as [now st ts n [c p] st' p' Hn Hs | now unix op st ts Hok Hnp].
  - simpl in *. exact (conc_inv_thread now st ts n c p st' p' Hinv Hn Hs).
  - destruct (apply_op_ids now unix op st Hnp) as [Hb Hf].
    pose proof (ci_wf _ Hinv) as Hwf. simpl in Hwf.
    apply (conc_inv_store st); [done|by apply apply_op_wf|by apply apply_op_extends|done|].
    intros n th id _ _ Hnone Hlt. by apply Hf.
Qed.

Lemma isteps_inv x y : rtc istep x y -> conc_inv x -> conc_inv y.
Proof. induction 1; eauto using istep_inv. Qed.

(** A schedule: the call that moves at each step. *)
Fixpoint run_schedule (now : Z) (ns : list nat) (x : MemoryMessageStore G * list Thread)
  : option (MemoryMessageStore G * list Thread) :=
  match ns with
  | [] => Some x
  | n :: ns =>
    match x.2 !! n with
    | Some th =>
      let '(st', p') := phase_step now (t_call th) (t_phase th) x.1 in
      run_schedule now ns (st', <[n := mkThread (t_call th) p']> x.2)
    | None => None
    end
  end.

Lemma run_schedule_steps now ns x d :
  is_Some (run_schedule now ns x) -> rtc istep x (default d (run_schedule now ns x)).
Proof.
  revert x; induction ns as [|n ns IH]; intros [st ts]; simpl; [by constructor|].
  destruct (ts !! n) as [th|] eqn:E; [|by intros [? ?]].
  destruct (phase_step now (t_call th) (t_phase th) st) as [st' p'] eqn:F. intros Hs.
  eapply rtc_l; [by eapply istep_thread|]. by apply IH.
Qed.

(** *** One call on its own *)

Fixpoint run_call (fuel : nat) (now : Z) (c : Call) (p : Phase) st
  : option (MemoryMessageStore G * result InsertResult StoreError) :=
  match p, fuel with
  | Done r, _ => Some (st, r)
  | _, O => None
  | _, S fuel => let '(st', p') := phase_step now c p st in run_call fuel now c p' st'
  end.

Lemma run_call_burn fuel now c id n st :
  (n + 1 <= fuel)%nat ->
  run_call fuel now c (Burn id n) st = Some
    match burn_ids n (idgen st) with
    | (g, Err e) => (with_idgen g st, Err (Id e))
    | (g, Ok _) =>
      insert_commit (call_app c) (call_kind c) (call_req c) (call_members c) id now (with_idgen g st)
    end.
Proof.
  revert fuel st; induction n as [|n IH]; intros [|fuel] st Hf; try lia; simpl.
  - replace (with_idgen (idgen st) st) with st by by destruct st.
    destruct (insert_commit _ _ _ _ _ _ st) as [st' r]. by destruct fuel.
  - destruct (next_id (idgen st)) as [g [id'|e]]; [|by destruct fuel].
    rewrite IH by lia. done.
Qed.
End interleaving.

(** ** Properties *)

(** The phases are the operation: run without interruption, a call reaches its
    answer after at most its row count plus three phases, and state and answer are
    those of [insert]. *)
Theorem insert_phases_alone {G : Type} `{IdGeneratorOk G} (now : Z) (c : Call)
  (st : MemoryMessageStore G) :
  run_call (row_count c + 3) now c Check st
  = Some (insert (call_app c) (call_kind c) (call_req c) (call_members c) now st).
Proof.
  replace (row_count c + 3)%nat with (S (S (S (row_count c)))) by lia.
  assert (Hids : run_call (S (S (row_count c))) now c DrawId st = Some
    match insert_ids (call_kind c) (call_members c) (idgen st) with
    | (g, Err e) => (with_idgen g st, Err (Id e))
    | (g, Ok id) =>
      insert_commit (call_app c) (call_kind c) (call_req c) (call_members c) id now (with_idgen g st)
    end).
  { remember (S (row_count c)) as fuel eqn:Ef. cbn [run_call phase_step]. unfold insert_ids. destruct (next_id (idgen st)) as [g [id|e]];
      [|by subst].
    rewrite run_call_burn by lia. simpl. unfold row_count. by destruct (burn_ids _ g) as [g' [?|e]]. }
  unfold insert, insert_check. cbn [run_call phase_step].
  destruct (str_is_empty (im_client_id (call_req c))); [exact Hids|].
  unfold call_key. destruct (idempotency (inner st) !! _) as [[id t]|]; [|exact Hids].
  destruct (fanout_from_memory (inner st) id) as [f|e]; [|done].
  destruct st as [g a [|] o i]; done.
Qed.


Definition race_call (body : string) : Call :=
  mkCall "kim" User (demo_req "alice" "bob" "c1" body) [].

(** Both calls look up, miss, draw their ids and commit, turn by turn. *)
Definition race_end : MemoryMessageStore CountingGen * list Thread :=
  default (demo_store, [])
    (run_schedule 1 [0; 1; 0; 1; 0; 1; 0; 1; 0; 1]%nat (demo_store, started [race_call "a"; race_call "b"])).
Definition race_result (dup : bool) : InsertResult :=
  mkInsertResult 10 1000 dup (fanout_from_write User (demo_req "alice" "bob" "c1" "a") []).

