(* ===== verification/StoreRead.v ===== *)
(** Correctness of the message store's reads: the inbox against the per-conversation
    state, history paging, content visibility, and what a read mark changes. *)

From S2P Require Import Prelude Wire Store StoreInv StoreProps.
Open Scope Z_scope.
Open Scope kim_scope.

(** ** inbox *)

(** A conversation key as rows produce them. *)
Definition conv_ok (kd : MessageKind * string) : Prop := kd.1 = Group -> kd.2 <> ""%string.

Lemma row_conversation_ok row : conv_ok (row_conversation row).
Proof.
  unfold row_conversation, conv_ok, str_is_empty. case_bool_decide; simpl; [by intros [=]|done].
Qed.

Lemma dest_ok_conversation k d row :
  conv_ok (k, d) -> dest_ok k d row = bool_decide (row_conversation row = (k, d)).
Proof.
  unfold conv_ok, dest_ok, row_conversation, str_is_empty. simpl. intros Hg.
  destruct k; repeat case_bool_decide; simpl; naive_solver.
Qed.

Lemma foldl_snoc {A B} (f : A -> B -> A) a l x : foldl f a (l ++ [x]) = f (foldl f a l) x.
Proof. by rewrite foldl_app. Qed.

(** [row] is not newer than the last message of [e]. *)
Definition not_newer (row : InboxRow) (e : InboxEntry) : Prop :=
  r_send_time row < ie_last_send_time e
  \/ (r_send_time row = ie_last_send_time e /\ r_message_id row <= ie_last_message_id e).

Definition entry_spec (app account : string) (i : MInner) (rows : list InboxRow)
  (kd : MessageKind * string) (o : option InboxEntry) : Prop :=
  let last_read := default 0 (reads i !! read_key app account kd.2 kd.1) in
  let version := default 0 (state_versions i !! (app, account, kd.2, kind_i16 kd.1)) in
  let folded := foldl (state_step last_read kd.1 kd.2) (0, 0, false) rows in
  match o with
  | None => folded = (0, 0, false) /\ forall row, row ∈ rows -> row_conversation row <> kd
  | Some e =>
    ie_kind e = kd.1 /\ ie_dest e = kd.2 /\ ie_last_read_message_id e = last_read
    /\ ie_state_version e = version /\ folded = (ie_max_message_id e, ie_unread e, true)
    /\ in_i32 (ie_unread e) /\ ie_last_message_id e <= ie_max_message_id e
    /\ 0 <= ie_max_message_id e
    /\ forall row, row ∈ rows -> row_conversation row = kd -> not_newer row e
  end.

Lemma sat_i32_id z : in_i32 z -> sat_i32 z = z.
Proof. unfold in_i32, sat_i32. lia. Qed.
Lemma sat_i32_range z : in_i32 (sat_i32 z).
Proof. unfold in_i32, sat_i32, i32_min, i32_max. lia. Qed.
Lemma in_i32_0 : in_i32 0.
Proof. unfold in_i32, i32_min, i32_max. lia. Qed.

(** Folding one more row of another conversation. *)
Lemma entry_spec_other app account i rows kd o row :
  conv_ok kd -> row_conversation row <> kd ->
  entry_spec app account i rows kd o -> entry_spec app account i (rows ++ [row]) kd o.
Proof.
  destruct kd as [k d]. intros Hok Hne. unfold entry_spec. simpl.
  rewrite foldl_snoc.
  assert (Hskip : forall lr s, state_step lr k d s row = s).
  { intros lr [[m u] x]. unfold state_step. rewrite dest_ok_conversation by done.
    by rewrite bool_decide_eq_false_2. }
  rewrite Hskip. destruct o as [e|].
  - intros (? & ? & ? & ? & ? & ? & ? & ? & Hn). split_and!; try done.
    intros row' [Hin| ->%list_elem_of_singleton]%elem_of_app; [by apply Hn|done].
  - intros [? Hn]. split; [done|].
    intros row' [Hin| ->%list_elem_of_singleton]%elem_of_app; [by apply Hn|done].
Qed.

Lemma entry_spec_same app account i rows row latest :
  let kd := row_conversation row in
  entry_spec app account i rows kd (latest !! kd) ->
  entry_spec app account i (rows ++ [row]) kd (inbox_step app account i latest row !! kd).
Proof.
  cbv zeta. unfold inbox_step. pose proof (row_conversation_ok row) as Hok.
  destruct (row_conversation row) as [k d] eqn:Ekd. rewrite lookup_insert_eq.
  intros Hspec.
  set (lr := default 0 (reads i !! read_key app account d k)) in *.
  set (ver := default 0 (state_versions i !! (app, account, d, kind_i16 k))) in *.
  set (e0 := default _ (latest !! (k, d))).
  assert (H0 : exists ex, ie_kind e0 = k /\ ie_dest e0 = d /\
    foldl (state_step lr k d) (0, 0, false) rows = (ie_max_message_id e0, ie_unread e0, ex) /\
    in_i32 (ie_unread e0) /\ ie_last_message_id e0 <= ie_max_message_id e0 /\
    0 <= ie_max_message_id e0 /\
    (forall row', row' ∈ rows -> row_conversation row' = (k, d) -> not_newer row' e0)).
  { unfold e0, entry_spec in *. simpl in Hspec. fold lr in Hspec.
    destruct (latest !! (k, d)) as [e|]; simpl.
    - destruct Hspec as (? & ? & ? & ? & ? & ? & ? & ? & ?). by exists true.
    - destruct Hspec as [? Hn]. exists false. split_and!; try done; try apply in_i32_0; try lia.
      intros row' Hr E. by destruct (Hn row' Hr). }
  clearbody e0. destruct H0 as (ex & Hk & Hd & Hf & Hu & Hl & Hm & Hn).
  set (c := (r_direction row =? DIRECTION_RECV) && (lr <? r_message_id row)).
  assert (Hfold : foldl (state_step lr k d) (0, 0, false) (rows ++ [row]) =
    (Z.max (ie_max_message_id e0) (r_message_id row),
     sat_i32 (ie_unread e0 + (if c then 1 else 0)), true)).
  { rewrite foldl_snoc, Hf. unfold state_step. rewrite dest_ok_conversation by done.
    rewrite bool_decide_eq_true_2 by done. simpl. fold c. destruct c; [done|].
    rewrite Z.add_0_r. by rewrite sat_i32_id. }
  set (newer := (ie_last_send_time e0 <? r_send_time row)
      || ((r_send_time row =? ie_last_send_time e0) && (ie_last_message_id e0 <? r_message_id row))).
  unfold entry_spec. simpl. fold lr ver. rewrite Hfold.
  assert (Hnn : forall e, (ie_last_send_time e = r_send_time row /\ ie_last_message_id e = r_message_id row
      /\ newer = true) \/ (ie_last_send_time e = ie_last_send_time e0 /\
      ie_last_message_id e = ie_last_message_id e0 /\ newer = false) ->
    forall row', row' ∈ rows ++ [row] -> row_conversation row' = (k, d) -> not_newer row' e).
  { intros e Hcase row' [Hin| ->%list_elem_of_singleton]%elem_of_app Hconv; unfold not_newer.
    - specialize (Hn row' Hin Hconv). unfold not_newer in Hn.
      destruct Hcase as [(-> & -> & Hnew)|(-> & -> & _)]; [|done]. unfold newer in Hnew.
      apply orb_true_iff in Hnew. rewrite andb_true_iff, !Z.ltb_lt, Z.eqb_eq in Hnew. lia.
    - destruct Hcase as [(-> & -> & _)|(-> & -> & Hnew)]; [lia|]. unfold newer in Hnew.
      apply orb_false_iff in Hnew as [H1 H2]. apply Z.ltb_ge in H1.
      apply andb_false_iff in H2. rewrite Z.eqb_neq, Z.ltb_ge in H2. lia. }
  destruct newer eqn:Enew.
  - destruct (match contents i !! r_message_id row with
      | Some c0 => _ | None => _ end) as [body ty].
    simpl. split_and!; try done; try apply sat_i32_range; try lia.
    apply Hnn. by left.
  - simpl. split_and!; try done; try apply sat_i32_range; try lia.
    apply Hnn. by right.
Qed.

Lemma inbox_fold_spec app account i rows kd :
  conv_ok kd ->
  entry_spec app account i rows kd (foldl (inbox_step app account i) ∅ rows !! kd).
Proof.
  intros Hok. induction rows as [|row rows IH] using rev_ind; simpl.
  - rewrite lookup_empty. split; [done|]. by intros row ?%not_elem_of_nil.
  - rewrite foldl_snoc. destruct (decide (row_conversation row = kd)) as [<-|Hne].
    + by apply entry_spec_same.
    + assert (E : inbox_step app account i (foldl (inbox_step app account i) ∅ rows) row !! kd
        = foldl (inbox_step app account i) ∅ rows !! kd).
      { unfold inbox_step. destruct (row_conversation row) as [k d]. by rewrite lookup_insert_ne. }
      rewrite E. by apply entry_spec_other.
Qed.

Lemma inbox_map_keys app account i kd e : inbox_map app account i !! kd = Some e -> conv_ok kd.
Proof.
  unfold inbox_map. induction (account_rows app account i) as [|row rows IH] using rev_ind; simpl.
  - by rewrite lookup_empty.
  - rewrite foldl_snoc. pose proof (row_conversation_ok row) as Hok. unfold inbox_step at 1.
    destruct (row_conversation row) as [k d]. rewrite lookup_insert_Some.
    intros [[<- _]|[_ ?]]; auto.
Qed.

Lemma inbox_map_entry app account i kd e :
  inbox_map app account i !! kd = Some e ->
  (ie_kind e, ie_dest e) = kd /\ conversation_state app account (ie_dest e) (ie_kind e) i = read_state e
  /\ forall row, row ∈ account_rows app account i -> row_conversation row = kd -> not_newer row e.
Proof.
  intros He. pose proof (inbox_map_keys _ _ _ _ _ He) as Hok.
  pose proof (inbox_fold_spec app account i (account_rows app account i) kd Hok) as Hs.
  unfold inbox_map in He. rewrite He in Hs. destruct kd as [k d].
  destruct Hs as (Hk & Hd & Hl & Hv & Hf & _ & Hle & _ & Hn). simpl in *.
  split_and!; [congruence| |done].
  unfold conversation_state. rewrite Hk, Hd, Hf. unfold read_state.
  rewrite Hk, Hd, Hl, Hv, Z.max_l by done. done.
Qed.

Lemma inbox_map_row app account i row :
  row ∈ account_rows app account i -> is_Some (inbox_map app account i !! row_conversation row).
Proof.
  intros Hr. pose proof (inbox_fold_spec app account i (account_rows app account i)
    (row_conversation row) (row_conversation_ok row)) as Hs.
  unfold inbox_map. destruct (_ !! _); [by eexists|]. destruct Hs as [_ Hn]. by destruct (Hn row Hr).
Qed.

(** The entry shows this row: its id, time and sender, and its content. *)
Definition shows (account : string) (i : MInner) (row : InboxRow) (e : InboxEntry) : Prop :=
  ie_last_message_id e = r_message_id row /\ ie_last_send_time e = r_send_time row /\
  ie_last_sender e = row_sender account row /\
  forall c, contents i !! r_message_id row = Some c -> ie_last_body e = sm_body c /\ ie_last_msg_type e = sm_msg_type c.

(** A conversation of which every message is from before 1970. *)
Definition blank (e : InboxEntry) : Prop :=
  ie_last_message_id e = 0 /\ ie_last_send_time e = 0 /\ ie_last_sender e = ""%string /\
  ie_last_body e = ""%string /\ ie_last_msg_type e = 0.

Lemma inbox_fold_shows app account i rows kd e :
  foldl (inbox_step app account i) ∅ rows !! kd = Some e ->
  (exists row, row ∈ rows /\ row_conversation row = kd /\ shows account i row e) \/ blank e.
Proof.
  revert e; induction rows as [|row rows IH] using rev_ind; intros e; simpl; [by rewrite lookup_empty|].
  rewrite foldl_snoc. unfold inbox_step at 1. destruct (row_conversation row) as [k d] eqn:Ekd.
  rewrite lookup_insert_Some. intros [[<- He]|[Hne He]].
  2:{ destruct (IH _ He) as [(row' & Hin & ?)|?]; [left|by right]. exists row'. rewrite elem_of_app. auto. }
  set (e0 := default _ _) in He.
  assert (H0 : (exists row', row' ∈ rows /\ row_conversation row' = (k, d) /\ shows account i row' e0) \/ blank e0).
  { unfold e0. destruct (foldl _ _ _ !! (k, d)) as [e1|]; [by apply IH|by right]. }
  clearbody e0. destruct (_ || _) in He.
  - left. exists row. split; [apply elem_of_app; right; by left|]. split; [done|].
    destruct (contents i !! r_message_id row) as [c|] eqn:Ec; subst e; split_and!; try done;
      intros c' E; rewrite Ec in E; simplify_eq; by split.
  - subst e. destruct H0 as [(row' & Hin & ? & ?)|?]; [left|by right]. exists row'. rewrite elem_of_app. auto.
Qed.

Lemma inbox_le_total : le_total inbox_le.
Proof.
  intros x y. unfold inbox_le. rewrite !orb_true_iff, !andb_true_iff, !Z.ltb_lt, !Z.eqb_eq, !Z.leb_le. lia.
Qed.
Lemma inbox_le_trans : le_trans inbox_le.
Proof.
  intros x y z. unfold inbox_le.
  rewrite !orb_true_iff, !andb_true_iff, !Z.ltb_lt, !Z.eqb_eq, !Z.leb_le. lia.
Qed.

Lemma elem_of_take_or_drop {A} n (l : list A) x : x ∈ l -> x ∈ take n l \/ x ∈ drop n l.
Proof. rewrite <- (take_drop n l) at 1. by rewrite elem_of_app. Qed.

Lemma drop_nonempty_len {A} n (l : list A) x : x ∈ drop n l -> len (take n l) = Z.of_nat n.
Proof.
  intros Hx. rewrite len_take. unfold len.
  assert (length (drop n l) <> 0%nat) by (destruct (drop n l); [by apply not_elem_of_nil in Hx|done]).
  rewrite length_drop in *. lia.
Qed.

Lemma clamp_page_pos r d m : 0 < d -> 0 < m -> 0 < clamp_page r d m.
Proof. unfold clamp_page. intros. case_match; blia. Qed.

Lemma NoDup_fmap_take {A B} (f : A -> B) n l : NoDup (f <$> l) -> NoDup (f <$> take n l).
Proof. intros Hl. eapply sublist_NoDup; [exact Hl|]. apply fmap_sublist, sublist_take. Qed.

Definition entry_key (e : InboxEntry) : MessageKind * string := (ie_kind e, ie_dest e).

Lemma elem_of_inbox_items app account i e :
  e ∈ (map_to_list (inbox_map app account i)).*2 <->
  inbox_map app account i !! entry_key e = Some e.
Proof.
  rewrite list_elem_of_fmap. split.
  - intros ([kd e'] & -> & Hin%elem_of_map_to_list). simpl.
    destruct (inbox_map_entry _ _ _ _ _ Hin) as [E _]. unfold entry_key. by rewrite E.
  - intros He. exists (entry_key e, e). split; [done|]. by apply elem_of_map_to_list.
Qed.

Lemma inbox_items_keys app account i : NoDup (entry_key <$> (map_to_list (inbox_map app account i)).*2).
Proof.
  assert (E : entry_key <$> (map_to_list (inbox_map app account i)).*2
              = (map_to_list (inbox_map app account i)).*1).
  { rewrite <- list_fmap_compose. apply list_fmap_ext. intros n [kd e] Hin%list_elem_of_lookup_2%elem_of_map_to_list.
    simpl. by destruct (inbox_map_entry _ _ _ _ _ Hin) as [? _]. }
  rewrite E. apply NoDup_fst_map_to_list.
Qed.

(** (C15) The inbox is the conversation state of every conversation, newest first.
    Each entry's read state is what [conversation_states] answers for its
    conversation; its id, time, sender, body and type are those of the newest row of
    the conversation, by time and then id (blank when every row is from before 1970);
    entries are distinct conversations in that order; and a conversation of the
    account that is left out was cut by the page limit, with no row newer than any
    entry shown. *)
Theorem inbox_spec {G : Type} (app account : string) (limit : Z) (st : MemoryMessageStore G)
  (items : list InboxEntry) (Hi : inbox app account limit st = Ok items) :
  let rows := account_rows app account (inner st) in
  (forall e, e ∈ items ->
     conversation_states app account [mkConversationStateKey (ie_dest e) (ie_kind e)] st
       = Ok [read_state e]
     /\ ((exists row, row ∈ rows /\ row_conversation row = entry_key e /\ shows account (inner st) row e) \/ blank e)
     /\ forall row, row ∈ rows -> row_conversation row = entry_key e -> not_newer row e)
  /\ NoDup (entry_key <$> items)
  /\ StronglySorted (fun a b => inbox_le a b = true) items
  /\ forall row, row ∈ rows ->
       row_conversation row ∈ (entry_key <$> items)
       \/ (len items = clamp_page limit INBOX_PAGE INBOX_MAX /\ forall e, e ∈ items -> not_newer row e).
Proof.
  cbv zeta. unfold inbox in Hi. injection Hi as <-.
  set (l := (map_to_list (inbox_map app account (inner st))).*2).
  set (cap := clamp_page limit INBOX_PAGE INBOX_MAX).
  assert (Hcap : 0 < cap) by (apply clamp_page_pos; done).
  pose proof (StronglySorted_sort_by inbox_le l inbox_le_total inbox_le_trans) as Hsorted.
  assert (Hent : forall e, e ∈ sort_by inbox_le l ->
    inbox_map app account (inner st) !! entry_key e = Some e).
  { intros e. rewrite elem_of_sort_by. apply elem_of_inbox_items. }
  split_and!.
  - intros e He%elem_of_take_in%Hent.
    destruct (inbox_map_entry _ _ _ _ _ He) as (_ & Hs & Hn). split_and!; [|by eapply inbox_fold_shows|done].
    unfold conversation_states. cbn. by rewrite Hs.
  - apply NoDup_fmap_take. rewrite sort_by_Permutation. apply inbox_items_keys.
  - by apply StronglySorted_take.
  - intros row Hr. destruct (inbox_map_row _ _ _ _ Hr) as [e He].
    destruct (inbox_map_entry _ _ _ _ _ He) as (Hk & _ & Hn).
    assert (Hin : e ∈ sort_by inbox_le l).
    { rewrite elem_of_sort_by. apply elem_of_inbox_items. unfold entry_key. by rewrite Hk. }
    apply (elem_of_take_or_drop (Z.to_nat cap)) in Hin as [Hin|Hin].
    + left. apply list_elem_of_fmap. by exists e.
    + right. split; [rewrite (drop_nonempty_len _ _ _ Hin); lia|].
      intros e' He'. pose proof (StronglySorted_take_drop _ _ _ _ _ Hsorted He' Hin) as Hle.
      specialize (Hn row Hr eq_refl). unfold not_newer, inbox_le in *.
      rewrite orb_true_iff, andb_true_iff, Z.ltb_lt, Z.eqb_eq, Z.leb_le in Hle. lia.
Qed.

Definition ok_or {A E} (d : A) (r : result A E) : A := match r with Ok a => a | Err _ => d end.
Definition demo_items : list InboxEntry := ok_or [] (inbox "kim" "bob" 10 (run_ops demo_ops demo_store)).

Lemma demo_items_eq : inbox "kim" "bob" 10 (run_ops demo_ops demo_store) = Ok demo_items.
Proof. vm_compute. reflexivity. Qed.

Lemma inbox_spec_witness : NoDup (entry_key <$> demo_items) /\ len demo_items = 2.
Proof.
  split; [|by vm_compute].
  apply (inbox_spec "kim" "bob" 10 (run_ops demo_ops demo_store) demo_items demo_items_eq).
Defined.

(** ** history *)

Section sort_filter.
Context {A : Type} (le : A -> A -> bool).

Lemma filter_insert_by_sorted (P : A -> bool) x l :
  le_trans le -> StronglySorted (fun a b => le a b = true) l ->
  List.filter P (insert_by le x l)
  = if P x then insert_by le x (List.filter P l) else List.filter P l.
Proof.
  intros Htr. induction 1 as [|y l Hs IH Hy]; simpl; [by destruct (P x)|].
  destruct (le x y) eqn:E; simpl.
  - destruct (P x) eqn:Px; [|done]. destruct (P y); simpl; [by rewrite E|].
    destruct (List.filter P l) as [|z k] eqn:F; simpl; [done|].
    assert (Hz : z ∈ l).
    { assert (z ∈ List.filter P l) as Hz by (rewrite F; by left).
      by apply elem_of_list_filter_bool in Hz as [_ ?]. }
    rewrite list.Forall_forall in Hy. by rewrite (Htr x y z E (Hy z Hz)).
  - rewrite IH. destruct (P y), (P x); simpl; by rewrite ?E.
Qed.

Lemma sort_by_filter (P : A -> bool) l :
  le_total le -> le_trans le -> sort_by le (List.filter P l) = List.filter P (sort_by le l).
Proof.
  intros Htot Htr. induction l as [|x l IH]; simpl; [done|].
  rewrite filter_insert_by_sorted by (try done; by apply StronglySorted_sort_by).
  destruct (P x); simpl; by rewrite IH.
Qed.
End sort_filter.

Definition newest_first (a b : HistoryEntry) : bool := he_message_id b <=? he_message_id a.
Lemma newest_first_total : le_total newest_first.
Proof. intros x y. unfold newest_first. rewrite !Z.leb_le. lia. Qed.
Lemma newest_first_trans : le_trans newest_first.
Proof. intros x y z. unfold newest_first. rewrite !Z.leb_le. lia. Qed.

(** The whole history of a conversation, newest first. *)
Definition full_history (app account dest : string) (kind : MessageKind) (i : MInner)
  : list HistoryEntry :=
  sort_by newest_first (omap (history_entry account i) (List.filter (dest_ok kind dest) (account_rows app account i))).

Lemma history_entry_id account i r h : history_entry account i r = Some h -> he_message_id h = r_message_id r.
Proof. unfold history_entry. destruct (contents i !! _); [|done]. by intros [= <-]. Qed.

Lemma omap_history_before account i (P : InboxRow -> bool) before rows :
  omap (history_entry account i)
    (List.filter (fun r => P r && ((before <=? 0) || (r_message_id r <? before))) rows)
  = List.filter (fun h => (before <=? 0) || (he_message_id h <? before))
      (omap (history_entry account i) (List.filter P rows)).
Proof.
  induction rows as [|r rows IH]; simpl; [done|].
  destruct (P r); simpl; [|done].
  destruct (history_entry account i r) as [h|] eqn:E; simpl.
  - rewrite (history_entry_id _ _ _ _ E).
    destruct ((before <=? 0) || (r_message_id r <? before)); simpl; rewrite ?E;
      [f_equal; exact IH | exact IH].
  - destruct ((before <=? 0) || (r_message_id r <? before)); simpl; rewrite ?E; exact IH.
Qed.

Lemma history_full {G} app account dest kind before limit (st : MemoryMessageStore G) :
  history app account dest kind before limit st =
  Ok (take (Z.to_nat (clamp_page limit HISTORY_PAGE HISTORY_MAX))
        (List.filter (fun h => (before <=? 0) || (he_message_id h <? before))
           (full_history app account dest kind (inner st)))).
Proof.
  unfold history, full_history. rewrite omap_history_before.
  rewrite <- sort_by_filter by (apply newest_first_total || apply newest_first_trans). done.
Qed.

(** Behind the [k] newest of a strictly decreasing list. *)
Lemma filter_below l k h :
  StronglySorted (fun a b => newest_first a b = true) l -> NoDup (he_message_id <$> l) ->
  l !! k = Some h ->
  List.filter (fun x => he_message_id x <? he_message_id h) l = drop (S k) l.
Proof.
  intros Hs. revert k; induction Hs as [|x l Hs IH Hx]; intros k Hnd Hk; [done|].
  simpl in Hnd. apply list.NoDup_cons in Hnd as [Hnotin Hnd].
  rewrite list.Forall_forall in Hx. destruct k as [|k]; simpl in *.
  - injection Hk as ->. rewrite Z.ltb_irrefl. rewrite drop_0. apply filter_all.
    intros y Hy. specialize (Hx y Hy). unfold newest_first in Hx. apply Z.leb_le in Hx.
    apply Z.ltb_lt. assert (he_message_id y <> he_message_id h); [|lia].
    intros E. apply Hnotin. rewrite <- E. by apply list_elem_of_fmap_2.
  - assert (Hlt : (he_message_id x <? he_message_id h) = false).
    { apply Z.ltb_ge. specialize (Hx h ltac:(by eapply list_elem_of_lookup_2)).
      unfold newest_first in Hx. by apply Z.leb_le in Hx. }
    rewrite Hlt. by apply IH.
Qed.

(** Paging through a history visits every message once, newest first.  The
    first page is the newest messages of the conversation; the page asked for
    "before" the [k]-th message shown is exactly the next [cap] messages behind
    it, so consecutive pages are consecutive pieces of the full history.  (The
    conversation's message ids are distinct: no account wrote to itself.) *)
Theorem history_pages {G : Type} (app account dest : string) (kind : MessageKind) (limit : Z)
  (st : MemoryMessageStore G) (k : nat) (h : HistoryEntry)
  (Hnd : NoDup (he_message_id <$> full_history app account dest kind (inner st)))
  (Hk : full_history app account dest kind (inner st) !! k = Some h) (Hpos : 0 < he_message_id h) :
  let cap := Z.to_nat (clamp_page limit HISTORY_PAGE HISTORY_MAX) in
  let full := full_history app account dest kind (inner st) in
  history app account dest kind 0 limit st = Ok (take cap full)
  /\ history app account dest kind (he_message_id h) limit st = Ok (take cap (drop (S k) full))
  /\ StronglySorted (fun a b => newest_first a b = true) full
  /\ (0 < cap)%nat.
Proof.
  cbv zeta.
  assert (Hs : StronglySorted (fun a b => newest_first a b = true)
    (full_history app account dest kind (inner st)))
    by (apply StronglySorted_sort_by; [apply newest_first_total|apply newest_first_trans]).
  split_and!.
  - rewrite history_full. simpl. by rewrite filter_all.
  - rewrite history_full. rewrite (proj2 (Z.leb_gt (he_message_id h) 0)) by done. simpl.
    by rewrite (filter_below _ k h).
  - done.
  - assert (0 < clamp_page limit HISTORY_PAGE HISTORY_MAX) by (apply clamp_page_pos; done). lia.
Qed.

Definition history_ops : list (Z * Z * StoreOp) :=
  [(1, 1, OpInsertUser "kim" (demo_req "alice" "bob" "c1" "one"));
   (2, 2, OpInsertUser "kim" (demo_req "bob" "alice" "c2" "two"));
   (3, 3, OpInsertUser "kim" (demo_req "alice" "bob" "c3" "three"))]%string.
Definition history_store : MemoryMessageStore CountingGen := run_ops history_ops demo_store.
Definition history_second : HistoryEntry := mkHistoryEntry 13 1 "two" "" "bob" 1000 0.

Lemma history_store_full :
  full_history "kim" "alice" "bob" User (inner history_store)
  = [mkHistoryEntry 16 1 "three" "" "alice" 1000 1; history_second;
     mkHistoryEntry 10 1 "one" "" "alice" 1000 1].
Proof. vm_compute. reflexivity. Qed.

Lemma history_pages_witness :
  history "kim" "alice" "bob" User 13 2 history_store = Ok [mkHistoryEntry 10 1 "one" "" "alice" 1000 1].
Proof.
  assert (Hnd : NoDup (he_message_id <$> full_history "kim" "alice" "bob" User (inner history_store))).
  { rewrite history_store_full. apply (bool_decide_unpack _). vm_compute. done. }
  assert (Hk : full_history "kim" "alice" "bob" User (inner history_store) !! 1%nat = Some history_second)
    by (by rewrite history_store_full).
  pose proof (proj1 (proj2 (history_pages "kim" "alice" "bob" User 2 history_store 1 history_second
    Hnd Hk ltac:(reflexivity)))) as H.
  rewrite history_store_full in H. exact H.
Defined.

(** ** offline_content *)

Lemma omap_ext_all {A B} (f g : A -> option B) (l : list A) : (forall x, f x = g x) -> omap f l = omap g l.
Proof. intros E. induction l as [|x l IH]; simpl; [done|]. rewrite E. by destruct (g x); [f_equal|]. Qed.

(** Content is shown to exactly the accounts that were written into its index:
    the answer has, for each requested id in order, the content of the message if
    the account has an index row for it, and nothing otherwise.  Nobody reads a
    message by guessing its id, and no recipient is refused. *)
Theorem offline_content_visible {G : Type} `{IdGeneratorOk G} (app account : string) (ids : list Z)
  (st : MemoryMessageStore G) (Hwf : store_wf st) :
  offline_content app account ids st =
  Ok (omap (fun id =>
        if decide (id ∈ (r_message_id <$> account_rows app account (inner st)))
        then option_map (fun c => mkMessageContentRow id (sm_msg_type c) (sm_body c) (sm_extra c))
               (contents (inner st) !! id)
        else None) ids)
  /\ forall id, id ∈ (r_message_id <$> account_rows app account (inner st)) ->
       is_Some (contents (inner st) !! id).
Proof.
  assert (Hrow : forall id, id ∈ (r_message_id <$> account_rows app account (inner st)) ->
    exists c, contents (inner st) !! id = Some c /\ sm_app c = app /\ sm_message_id c = id).
  { intros id (r & -> & Hr)%list_elem_of_fmap.
    destruct (account_row_content _ _ _ _ _ Hwf Hr) as (_ & _ & _ & c & Hc & Ha).
    exists c. split_and!; [done..|]. by eapply (wf_id _ _ Hwf). }
  split; [|intros id (c & -> & _)%Hrow; by eexists].
  unfold offline_content. f_equal. apply omap_ext_all. intros id.
  assert (Hvis : existsb (fun r => r_message_id r =? id) (account_rows app account (inner st)) = true
    <-> id ∈ (r_message_id <$> account_rows app account (inner st))).
  { rewrite existsb_exists, list_elem_of_fmap. split.
    - intros (r & Hin & <-%Z.eqb_eq). exists r. by rewrite list_elem_of_In.
    - intros (r & -> & Hin). exists r. by rewrite <- list_elem_of_In, Z.eqb_refl. }
  case_decide as D.
  - destruct (Hrow id D) as (c & Hc & Ha & Hid). rewrite Hc, bool_decide_eq_true_2 by done. simpl.
    rewrite (proj2 Hvis) by done. simpl. by rewrite Hid.
  - destruct (contents (inner st) !! id) as [c|]; [|done].
    destruct (negb (bool_decide (sm_app c = app))); [done|].
    destruct (existsb _ _) eqn:E; [|done]. destruct D. by apply Hvis.
Qed.

Lemma offline_content_visible_witness :
  offline_content "kim" "bob" [10; 99] (run_ops demo_ops demo_store)
  = Ok [mkMessageContentRow 10 1 "hi" ""].
Proof.
  assert (Hwf : store_wf (run_ops demo_ops demo_store)).
  { apply run_ops_wf; [apply with_ack_wf|]. repeat constructor; discriminate. }
  rewrite (proj1 (offline_content_visible "kim" "bob" [10; 99] _ Hwf)). vm_compute. reflexivity.
Defined.

(** ** mark_read and state versions *)

Lemma bump_version_state app account dest kind_i i a acc d k :
  let i' := bump_version app account dest kind_i i in
  (a, acc, d, kind_i16 k) <> (app, account, dest, kind_i) ->
  conversation_state a acc d k i' = conversation_state a acc d k i.
Proof.
  cbv zeta. intros Hne. unfold conversation_state, account_rows. simpl.
  by rewrite lookup_insert_ne by congruence.
Qed.

(** Nothing about a conversation changes, or its version grows. *)
Definition versioned (a acc d : string) (k : MessageKind) (i i' : MInner) : Prop :=
  conversation_state a acc d k i' = conversation_state a acc d k i
  \/ cs_version (conversation_state a acc d k i) < cs_version (conversation_state a acc d k i').

Lemma versioned_trans a acc d k i1 i2 i3 :
  versioned a acc d k i1 i2 -> versioned a acc d k i2 i3 -> versioned a acc d k i1 i3.
Proof.
  unfold versioned. generalize (conversation_state a acc d k i1) (conversation_state a acc d k i2)
    (conversation_state a acc d k i3). intros s1 s2 s3 [->|E1] [->|E2]; auto. right. lia.
Qed.

Lemma cs_version_eq a acc d k i :
  cs_version (conversation_state a acc d k i) = default 0 (state_versions i !! (a, acc, d, kind_i16 k)).
Proof. unfold conversation_state. by destruct (foldl _ _ _) as [[m u] x]. Qed.

Lemma state_same a acc d k i i' :
  indexes_by_account i' = indexes_by_account i -> reads i' = reads i ->
  state_versions i' = state_versions i ->
  conversation_state a acc d k i' = conversation_state a acc d k i.
Proof. intros E1 E2 E3. unfold conversation_state, account_rows. by rewrite E1, E2, E3. Qed.

Lemma versioned_same a acc d k i i' :
  indexes_by_account i' = indexes_by_account i -> reads i' = reads i ->
  state_versions i' = state_versions i -> versioned a acc d k i i'.
Proof. intros. left. by apply state_same. Qed.

(** The counter has room: the next bump is a new, larger version. *)
Definition room (i : MInner) : Prop := versions_ok i /\ next_version i < u64_max.

Lemma bump_larger i key : room i ->
  default 0 (state_versions i !! key) < sat_u64 (next_version i + 1).
Proof.
  intros [[Hn Hv] Hr]. assert (default 0 (state_versions i !! key) <= next_version i).
  { destruct (state_versions i !! key) as [v|] eqn:E; simpl; [by eapply Hv|lia]. }
  unfold sat_u64. lia.
Qed.

Lemma versioned_push a acc d k row i :
  room i -> conv_ok (k, d) -> versioned a acc d k i (push_index row i).
Proof.
  intros Hroom Hok. unfold versioned. rewrite !cs_version_eq, push_index_versions.
  destruct (decide (row_key row = (a, acc, d, kind_i16 k))) as [E|Hne].
  - right. rewrite <- E, lookup_insert_eq. simpl. by apply bump_larger.
  - left. unfold conversation_state.
    destruct (push_index_fields row i) as (_ & _ & Er & _ & _ & _).
    rewrite push_index_versions, lookup_insert_ne, account_rows_push, Er by done.
    unfold of_account. simpl.
    destruct (bool_decide (r_app row = a)) eqn:Ea; simpl; [|by rewrite app_nil_r].
    destruct (bool_decide (r_account_a row = acc)) eqn:Eb; simpl; [|by rewrite app_nil_r].
    apply bool_decide_eq_true in Ea, Eb. rewrite foldl_snoc.
    assert (Hskip : forall lr s, state_step lr k d s row = s).
    { intros lr [[m u] x]. unfold state_step. rewrite dest_ok_conversation by done.
      rewrite bool_decide_eq_false_2; [done|]. intros E. apply Hne.
      unfold row_key, row_conversation in *. destruct (str_is_empty _); by simplify_eq/=. }
    by rewrite Hskip.
Qed.

Lemma next_version_push_rows rows i :
  versions_ok i -> next_version i <= next_version (push_rows rows i).
Proof.
  unfold push_rows. revert i; induction rows as [|r rows IH]; intros i Hi; simpl; [lia|].
  pose proof (IH (push_index r i) (versions_ok_push r i Hi)).
  destruct (push_index_fields r i) as (_ & _ & _ & _ & _ & En). rewrite En in *.
  destruct Hi as [Hn _]. pose proof (sat_u64_succ _ Hn). lia.
Qed.

Lemma versioned_push_rows a acc d k rows i :
  versions_ok i -> next_version (push_rows rows i) < u64_max -> conv_ok (k, d) ->
  versioned a acc d k i (push_rows rows i).
Proof.
  intros Hi Hlt Hok. revert i Hi Hlt; induction rows as [|r rows IH]; intros i Hi Hlt; [by left|].
  pose proof (next_version_push_rows (r :: rows) i Hi).
  apply (versioned_trans _ _ _ _ _ (push_index r i)).
  - apply versioned_push; [split; [done|lia]|done].
  - apply IH; [by apply versions_ok_push|done].
Qed.

Lemma versioned_insert_write a acc d k app kind req members id now on i :
  versions_ok i -> next_version (insert_write app kind req members id now on i) < u64_max ->
  conv_ok (k, d) -> versioned a acc d k i (insert_write app kind req members id now on i).
Proof.
  unfold insert_write. intros Hi. set (i1 := if str_is_empty _ then i else _). set (i2 := with_contents _ i1).
  destruct (receipts_if_fields on app id req (members_opt kind members) now
    (push_rows (index_rows app kind req members id) i2)) as (_ & Ea & _ & _ & Er & Ev & En & _).
  rewrite En. intros Hlt Hok.
  assert (E : indexes_by_account i2 = indexes_by_account i /\ reads i2 = reads i /\
    state_versions i2 = state_versions i /\ next_version i2 = next_version i)
    by (unfold i2, i1; by destruct (str_is_empty _)).
  destruct E as (E1 & E2 & E3 & E4).
  apply (versioned_trans _ _ _ _ _ i2); [by apply versioned_same|].
  eapply versioned_trans; [|by apply versioned_same].
  apply versioned_push_rows; [|done|done]. unfold versions_ok. by rewrite E3, E4.
Qed.

Section versions.
Context {G : Type} `{IdGeneratorOk G}.
Implicit Types st : MemoryMessageStore G.

Lemma wf_versions_ok st : store_wf st -> versions_ok (inner st).
Proof. intros Hwf. split; [by eapply wf_version|by eapply wf_versions]. Qed.

Lemma versioned_receipts a acc d k on app id req mo now i :
  versioned a acc d k i (receipts_if on app id req mo now i).
Proof.
  destruct (receipts_if_fields on app id req mo now i) as (_ & ? & _ & _ & ? & ? & _).
  by apply versioned_same.
Qed.

Lemma versioned_insert a acc d k app kind req members now st :
  store_wf st -> conv_ok (k, d) ->
  next_version (inner (insert app kind req members now st).1) < u64_max ->
  versioned a acc d k (inner st) (inner (insert app kind req members now st).1).
Proof.
  intros Hwf Hok. unfold insert, insert_check.
  assert (Hrest : next_version (inner
     (match insert_ids kind members (idgen st) with
      | (g, Err e) => (with_idgen g st, Err (Id e))
      | (g, Ok message_id) => insert_commit app kind req members message_id now (with_idgen g st)
      end).1) < u64_max ->
    versioned a acc d k (inner st) (inner
     (match insert_ids kind members (idgen st) with
      | (g, Err e) => (with_idgen g st, Err (Id e))
      | (g, Ok message_id) => insert_commit app kind req members message_id now (with_idgen g st)
      end).1)).
  { destruct (insert_ids kind members (idgen st)) as [g [id|e]]; [|by left].
    unfold insert_commit. pose proof (wf_versions_ok st Hwf).
    destruct (str_is_empty _); simpl; [intros; by apply versioned_insert_write|].
    destruct (idempotency (inner st) !! _) as [[id' t]|]; simpl; intros;
      [apply versioned_receipts|by apply versioned_insert_write]. }
  destruct (str_is_empty _); [exact Hrest|].
  destruct (idempotency (inner st) !! _) as [[id t]|]; [|exact Hrest].
  destruct (fanout_from_memory (inner st) id); [|by left]. intros _. apply versioned_receipts.
Qed.

Lemma versioned_bump_reads a acc d k app account dest kind r i :
  room i -> conv_ok (k, d) -> conv_ok (kind, dest) ->
  versioned a acc d k i
    (bump_version app account dest (kind_i16 kind)
       (with_reads (<[read_key app account dest kind := r]> (reads i)) i)).
Proof.
  intros Hroom Hok Hok'. unfold versioned. rewrite !cs_version_eq. simpl.
  destruct (decide ((app, account, dest, kind_i16 kind) = (a, acc, d, kind_i16 k))) as [E|Hne].
  - right. rewrite <- E, lookup_insert_eq. simpl. by apply bump_larger.
  - left. unfold conversation_state, account_rows. simpl. rewrite (lookup_insert_ne (state_versions i)) by done.
    rewrite lookup_insert_ne; [done|]. unfold read_key, conv_ok in *. simpl in *.
    destruct kind, k; simpl in *; intros E; simplify_eq; naive_solver.
Qed.

Lemma versioned_set_bot_turn a acc d k key id i : versioned a acc d k i (set_bot_turn key id i).
Proof. by apply versioned_same. Qed.

Lemma versioned_bot_reply a acc d k app owner bot irt req now st :
  store_wf st -> conv_ok (k, d) ->
  next_version (inner (insert_bot_reply app owner bot irt req now st).1) < u64_max ->
  versioned a acc d k (inner st) (inner (insert_bot_reply app owner bot irt req now st).1).
Proof.
  intros Hwf Hok. unfold insert_bot_reply. destruct (negb _ || negb _); [by left|].
  destruct (irt <=? 0); [by left|]. destruct (negb (bot_orig_ok _ _ _ _ _)); [by left|].
  destruct (bot_turns (inner st) !! _); [by left|].
  pose proof (wf_versions_ok st Hwf) as Hv.
  assert (Hw : forall id, next_version (insert_write app User req [] id now false (inner st)) < u64_max ->
    versioned a acc d k (inner st) (receipts_if (pending_receipt st) app id req None now
      (set_bot_turn (app, bot, irt) id (insert_write app User req [] id now false (inner st))))).
  { intros id Hlt. eapply versioned_trans; [by apply versioned_insert_write|].
    eapply versioned_trans; [|apply versioned_receipts]. apply versioned_set_bot_turn. }
  assert (Hn : forall id i, next_version (receipts_if (pending_receipt st) app id req None now
    (set_bot_turn (app, bot, irt) id i)) = next_version i).
  { intros id i. destruct (receipts_if_fields (pending_receipt st) app id req None now
      (set_bot_turn (app, bot, irt) id i)) as (_&_&_&_&_&_&E&_). exact E. }
  destruct (str_is_empty _).
  - destruct (next_id (idgen st)) as [g [id|e]]; cbn [fst inner with_inner]; [|by left].
    rewrite Hn. apply Hw.
  - destruct (idempotency (inner st) !! _) as [[id t]|].
    + cbn [fst inner with_inner]. intros _.
      eapply versioned_trans; [|apply versioned_receipts]. apply versioned_set_bot_turn.
    + destruct (next_id (idgen st)) as [g [id|e]]; cbn [fst inner with_inner]; [|by left].
      rewrite Hn. apply Hw.
Qed.

Lemma mark_read_dest_ok kind dest : dest <> ""%string -> conv_ok (kind, dest).
Proof. by intros ? ?. Qed.
End versions.

(** (C16) A client that compares versions misses no change.  Across every operation
    short of a purge, each conversation state of each account either stays exactly
    as it was or gets a strictly larger version (while the 64-bit counter is not
    exhausted): new rows, read marks and bot replies never change what
    [conversation_states] answers under an old version. *)
Theorem state_version_covers {G : Type} `{IdGeneratorOk G} (now unix : Z) (op : StoreOp)
  (st : MemoryMessageStore G) (app account dest : string) (kind : MessageKind)
  (Hwf : store_wf st) (Hnp : no_purge op) (Hconv : conv_ok (kind, dest))
  (Hroom : next_version (inner (apply_op now unix op st)) < u64_max) :
  versioned app account dest kind (inner st) (inner (apply_op now unix op st)).
Proof.
  destruct op; simpl in *.
  - by apply versioned_insert.
  - by apply versioned_insert.
  - unfold ack. case_match; [by case_match; left|]. case_match; [by left|].
    destruct (foldl _ _ _) as [p obs]. by apply versioned_same.
  - unfold offline_index. repeat case_match; by left.
  - unfold backfill_delivery. case_match; [by left|]. by apply versioned_same.
  - by apply versioned_same.
  - revert Hroom. unfold mark_read, str_is_empty. case_bool_decide as D; [by left|]. simpl.
    destruct (0 <? message_id); [|by left]. intros Hroom.
    apply versioned_bump_reads; [|done|by apply mark_read_dest_ok].
    pose proof (wf_versions_ok st Hwf) as Hv. split; [done|]. simpl in Hroom.
    destruct Hv as [Hn _]. pose proof (sat_u64_succ _ Hn). lia.
  - by apply versioned_bot_reply.
  - done.
Qed.

Lemma state_version_covers_witness :
  versioned "kim" "bob" "alice" User (inner demo_store)
    (inner (apply_op 1 1 (OpInsertUser "kim" (demo_req "alice" "bob" "c1" "hi")) demo_store)).
Proof.
  apply state_version_covers; [apply with_ack_wf|done|by intros [=]|]. vm_compute. reflexivity.
Defined.

(** The rows [mark_read] and the inbox count as unread. *)
Definition unread_rows (last_read : Z) (kind : MessageKind) (dest : string) (rows : list InboxRow)
  : list InboxRow :=
  List.filter (fun r => dest_ok kind dest r && (r_direction r =? DIRECTION_RECV)
                        && (last_read <? r_message_id r)) rows.

Lemma fold_unread lr k d rows :
  (foldl (state_step lr k d) (0, 0, false) rows).1.2 = Z.min i32_max (len (unread_rows lr k d rows)).
Proof.
  unfold unread_rows. induction rows as [|row rows IH] using rev_ind; [done|].
  rewrite foldl_snoc, List.filter_app, len_app. destruct (foldl _ _ rows) as [[m u] x]. simpl in IH. subst u.
  simpl. destruct (dest_ok k d row); simpl; [|by rewrite Z.add_0_r].
  destruct (_ && _); simpl; [|by rewrite Z.add_0_r].
  change (len [row]) with 1. pose proof (len_nonneg (unread_rows lr k d rows)). unfold unread_rows in *.
  unfold sat_i32, i32_min, i32_max. lia.
Qed.

Lemma conversation_state_fields app account dest kind i :
  let s := conversation_state app account dest kind i in
  let last_read := default 0 (reads i !! read_key app account dest kind) in
  cs_last_read_message_id s = last_read /\
  cs_unread s = Z.min i32_max (len (unread_rows last_read kind dest (account_rows app account i))).
Proof.
  cbv zeta. unfold conversation_state. rewrite <- fold_unread.
  by destruct (foldl _ _ _) as [[m u] x].
Qed.

Lemma read_key_inj app account d k a acc d' k' :
  conv_ok (k, d) -> conv_ok (k', d') -> (k = User -> d <> ""%string) -> 
  read_key app account d k = read_key a acc d' k' -> (app, account, d, k) = (a, acc, d', k').
Proof.
  unfold conv_ok, read_key. simpl. intros H1 H2 H3. destruct k, k'; intros [=]; subst; naive_solver.
Qed.

(** A read mark only moves forward and only in its conversation.  Marking a
    conversation read up to [id] sets its mark to the larger of the old mark and
    [id], answers with the state then in force, whose unread count is the number
    of received messages beyond the mark (capped at [i32::MAX]), and leaves every
    other conversation state and every message as it was. *)
Theorem mark_read_effect {G : Type} (app account dest : string) (kind : MessageKind) (id : Z)
  (st : MemoryMessageStore G) (Hdest : dest <> ""%string) (Hid : 0 < id) :
  let out := mark_read app account dest kind id st in
  let i := inner st in
  let last_read := Z.max (cs_last_read_message_id (conversation_state app account dest kind i)) id in
  let s := conversation_state app account dest kind (inner out.1) in
  out.2 = Ok s
  /\ cs_last_read_message_id s = last_read
  /\ cs_unread s = Z.min i32_max (len (unread_rows last_read kind dest (account_rows app account i)))
  /\ (forall a acc d k, conv_ok (k, d) -> (a, acc, d, k) <> (app, account, dest, kind) ->
       conversation_state a acc d k (inner out.1) = conversation_state a acc d k i)
  /\ contents (inner out.1) = contents i /\ indexes_by_account (inner out.1) = indexes_by_account i.
Proof.
  cbv zeta. destruct (conversation_state_fields app account dest kind (inner st)) as [-> _].
  destruct (conversation_state_fields app account dest kind
    (inner (mark_read app account dest kind id st).1)) as [-> ->].
  unfold mark_read. unfold str_is_empty. rewrite bool_decide_eq_false_2 by done.
  rewrite (proj2 (Z.ltb_lt 0 id)) by done.
  set (slot := default 0 (reads (inner st) !! read_key app account dest kind)).
  assert (Hslot : (if slot <? id then id else slot) = Z.max slot id).
  { destruct (Z.ltb_spec slot id); lia. }
  rewrite Hslot. cbn [fst snd inner with_inner reads bump_version with_reads].
  rewrite lookup_insert_eq.
  split_and!; try done.
  intros a acc d k Hok Hne. unfold conversation_state, account_rows. simpl.
  rewrite (lookup_insert_ne (state_versions (inner st))).
  - rewrite lookup_insert_ne; [done|]. intros E. apply Hne. symmetry.
    apply (read_key_inj _ _ _ _ _ _ _ _ (mark_read_dest_ok kind dest Hdest) Hok); [done|exact E].
  - intros E. apply Hne. destruct kind, k; simpl in *; congruence.
Qed.

Lemma mark_read_effect_witness :
  cs_unread (conversation_state "kim" "bob" "alice" User
    (inner (mark_read "kim" "bob" "alice" User 10 (run_ops (take 1 demo_ops) demo_store)).1)) = 0.
Proof.
  rewrite (proj1 (proj2 (proj2 (mark_read_effect "kim" "bob" "alice" User 10
    (run_ops (take 1 demo_ops) demo_store) ltac:(discriminate) ltac:(reflexivity))))).
  vm_compute. reflexivity.
Defined.
