(* ===== verification/PurgeSpec.v ===== *)
(** What removing a friend does to a direct thread, as the readers of the store see
    it: both sides lose the thread, everybody keeps everything else. *)

From S2P Require Import Prelude Wire Store StoreInv StoreProps StoreRead.
Open Scope Z_scope.
Open Scope kim_scope.

Section purge_spec.
Context (app account peer : string).
Notation Q := (kept_row app account peer).

(** The conversation is one of the two views of the purged thread. *)
Definition purged_view (a x : string) (d : string) (k : MessageKind) : Prop :=
  a = app /\ k = User /\ same_pair account peer x d.
#[export] Instance purged_view_dec a x d k : Decision (purged_view a x d k).
Proof. unfold purged_view. apply _. Defined.

Lemma foldl_state_step lr kind dest l s :
  foldl (state_step lr kind dest) s l
  = foldl (state_step lr kind dest) s (List.filter (dest_ok kind dest) l).
Proof.
  revert s; induction l as [|r l IH]; intros s; simpl; [done|].
  destruct (dest_ok kind dest r) eqn:E; simpl; [apply IH|].
  rewrite IH. unfold state_step at 2. rewrite E. by destruct s as [[? ?] ?].
Qed.

(** A row that is dropped is of one of the two views; a row of a view is dropped. *)
Lemma kept_row_view a x d k r :
  conv_ok (k, d) -> r_app r = a -> r_account_a r = x -> dest_ok k d r = true ->
  Q r = negb (bool_decide (purged_view a x d k)).
Proof.
  intros Hk <- <- Hd. unfold kept_row, peer_row, purged_view, same_pair, dest_ok, conv_ok in *.
  f_equal. apply eq_bool_prop_intro. rewrite !Is_true_true. rewrite !andb_true_iff, orb_true_iff, !andb_true_iff.
  unfold str_is_empty in *. rewrite !bool_decide_eq_true.
  destruct k; simpl in *.
  - apply andb_true_iff in Hd as [E%bool_decide_eq_true F%bool_decide_eq_true]. subst. naive_solver.
  - apply bool_decide_eq_true in Hd as <-. specialize (Hk eq_refl). naive_solver.
Qed.

Lemma view_rows bound i a x d k :
  inner_wf bound i -> conv_ok (k, d) ->
  List.filter (dest_ok k d) (List.filter Q (account_rows a x i))
  = if decide (purged_view a x d k) then [] else List.filter (dest_ok k d) (account_rows a x i).
Proof.
  intros Hwf Hk. rewrite filter_comm.
  assert (HQ : forall r, r ∈ List.filter (dest_ok k d) (account_rows a x i) ->
    Q r = negb (bool_decide (purged_view a x d k))).
  { intros r [Hd Hr]%elem_of_list_filter_bool.
    destruct (account_row_content bound i a x r Hwf Hr) as (_ & Ea & Ex & _). by apply kept_row_view. }
  case_decide as D.
  - apply filter_none. intros r ->%HQ. by rewrite bool_decide_eq_true_2.
  - apply filter_all. intros r ->%HQ. by rewrite bool_decide_eq_false_2.
Qed.

Lemma lookup_filtered {K} `{Countable K} (m m' : gmap K Z) (k : K) (P : Prop) `{Decision P} :
  (forall v, m' !! k = Some v <-> m !! k = Some v /\ ~ P) ->
  m' !! k = if decide P then None else m !! k.
Proof.
  intros E. case_decide as D.
  - destruct (m' !! k) as [v|] eqn:F; [|done]. destruct (proj1 (E v) eq_refl). done.
  - destruct (m !! k) as [v|] eqn:F; [by apply E|].
    destruct (m' !! k) as [v|] eqn:F'; [|done]. by destruct (proj1 (E v) eq_refl).
Qed.

Context {G : Type} `{IdGeneratorOk G}.
Implicit Types st : MemoryMessageStore G.

Lemma purge_view_state st a x d k :
  store_wf st -> purge_on account peer -> conv_ok (k, d) ->
  conversation_state a x d k (inner (purge_peer_dm app account peer st).1)
  = if decide (purged_view a x d k) then missing d k else conversation_state a x d k (inner st).
Proof.
  intros Hwf Hon Hk.
  destruct (purge_fields app account peer st Hwf Hon) as (_ & Ea & _ & _ & _ & _ & _ & Er & Es & _).
  unfold conversation_state. rewrite Ea, foldl_state_step, (view_rows _ _ a x d k Hwf Hk).
  rewrite (foldl_state_step _ k d (account_rows a x (inner st))).
  assert (Hr : reads (inner (purge_peer_dm app account peer st).1) !! read_key a x d k
    = if decide (purged_view a x d k) then None else reads (inner st) !! read_key a x d k).
  { apply lookup_filtered. intros v. unfold read_key, purged_view, conv_ok in *.
    destruct k; rewrite Er; [naive_solver|]. specialize (Hk eq_refl). simpl in Hk. naive_solver. }
  assert (Hv : state_versions (inner (purge_peer_dm app account peer st).1) !! (a, x, d, kind_i16 k)
    = if decide (purged_view a x d k) then None else state_versions (inner st) !! (a, x, d, kind_i16 k)).
  { apply lookup_filtered. intros v. unfold purged_view. rewrite Es. destruct k; simpl; naive_solver. }
  rewrite Hr, Hv. by case_decide.
Qed.

Lemma purge_content st id c :
  store_wf st -> purge_on account peer -> contents (inner st) !! id = Some c ->
  contents (inner (purge_peer_dm app account peer st).1) !! id
  = if decide (sm_app c = app /\ sm_kind c = User /\ same_pair account peer (sm_sender c) (sm_dest c))
    then None else Some c.
Proof.
  intros Hwf Hon Hc.
  destruct (purge_fields app account peer st Hwf Hon) as (_ & _ & _ & Ec & _). rewrite Ec, Hc.
  pose proof Hon as (_ & _ & Hne). apply decide_ext.
  rewrite (elem_of_purged_ids _ _ _ _ (inner st) id Hwf Hne).
  destruct (wf_rows _ _ Hwf _ _ Hc) as [ms ->]. unfold rows_of.
  pose proof (wf_group _ _ Hwf _ _ Hc) as Hg. destruct (sm_kind c) eqn:K; simpl.
  - assert (EQ : forall dir x y, same_pair (sm_sender c) (sm_dest c) x y ->
      Q (mkInboxRow (sm_app c) x y dir (sm_message_id c) "" (sm_send_time c))
      = negb (bool_decide (sm_app c = app /\ same_pair account peer (sm_sender c) (sm_dest c)))).
    { intros dir x y Hxy.
      rewrite (kept_row_view (sm_app c) x y User
        (mkInboxRow (sm_app c) x y dir (sm_message_id c) "" (sm_send_time c)) ltac:(by intros [=]) eq_refl eq_refl).
      2:{ simpl. by rewrite bool_decide_eq_true_2. }
      f_equal. apply bool_decide_ext. unfold purged_view, same_pair in *. naive_solver. }
    rewrite !EQ by (unfold same_pair; tauto).
    case_bool_decide as D; simpl; [|naive_solver].
    split; [tauto|]. intros _. split; [|done]. eexists. split; [left|]. by rewrite EQ by (unfold same_pair; tauto).
  - split; [|naive_solver]. intros [(r & (m & -> & _)%list_elem_of_fmap & Hq) _]. exfalso.
    unfold kept_row, peer_row, str_is_empty in Hq. simpl in Hq.
    rewrite (bool_decide_eq_false_2 (sm_dest c = ""%string)) in Hq by auto.
    by rewrite andb_false_r in Hq.
Qed.
End purge_spec.

(** (C17) Purging a thread.  After [purge_peer_dm] both sides see their conversation
    with the other as one that never was (no messages, no read mark, version 0),
    the contents of exactly its messages are gone, and every other conversation
    state, of these accounts or any other, in this app or another, and every other
    content is what it was. *)
Theorem purge_thread {G : Type} `{IdGeneratorOk G} (app account peer : string)
  (st : MemoryMessageStore G) (Hwf : store_wf st) (Hon : purge_on account peer) :
  let st' := (purge_peer_dm app account peer st).1 in
  (forall a x d k, (k = Group -> d <> ""%string) ->
     conversation_state a x d k (inner st')
     = if decide (a = app /\ k = User /\ same_pair account peer x d) then missing d k
       else conversation_state a x d k (inner st)) /\
  (forall id c, contents (inner st) !! id = Some c ->
     contents (inner st') !! id
     = if decide (sm_app c = app /\ sm_kind c = User /\ same_pair account peer (sm_sender c) (sm_dest c))
       then None else Some c) /\
  (forall id, contents (inner st) !! id = None -> contents (inner st') !! id = None).
Proof.
  intros st'. split_and!.
  - intros a x d k Hk. exact (purge_view_state app account peer st a x d k Hwf Hon Hk).
  - intros id c Hc. exact (purge_content app account peer st id c Hwf Hon Hc).
  - intros id Hc. destruct (purge_fields app account peer st Hwf Hon) as (_ & _ & _ & Ec & _).
    unfold st'. rewrite Ec. by case_decide.
Qed.

Lemma purge_thread_witness :
  let st := run_ops demo_ops demo_store in
  conversation_state "kim" "bob" "alice" User (inner (purge_peer_dm "kim" "alice" "bob" st).1)
  = missing "alice" User.
Proof.
  intros st.
  rewrite (proj1 (purge_thread "kim" "alice" "bob" st
    ltac:(apply run_ops_wf; [apply with_ack_wf|repeat constructor; simpl; discriminate])
    ltac:(split_and!; discriminate)) "kim" "bob" "alice" User ltac:(discriminate))%string.
  reflexivity.
Defined.
