(* ===== verification/StoreReceipts.v ===== *)
(** Delivery receipts of the message store: who gets one, that it stays until it is
    acknowledged, purged or expired, that fetching pages and acknowledging them
    drains the backlog, and what garbage collection may drop. *)

From S2P Require Import Prelude Wire Store StoreInv StoreProps StoreRead.
Open Scope Z_scope.
Open Scope kim_scope.

(** ** Live receipts *)

Definition is_live (now : Z) (e : PendingEntry) : Prop := pe_acked_at e = None /\ now < pe_expires_at e.

Lemma elem_of_live_receipts app account tid now i c id :
  (c, id) ∈ live_receipts app account tid now i <->
  exists e, pending i !! (app, account, tid, id) = Some e /\ is_live now e /\ pe_created_at e = c.
Proof.
  unfold live_receipts. rewrite elem_of_sort_by, list_elem_of_fmap. split.
  - intros ([[[[a acc] t] id'] e] & E & Hin). simpl in E. injection E as -> ->.
    apply elem_of_list_filter_bool in Hin as [Hl Hin%elem_of_map_to_list]. unfold live_receipt in Hl.
    rewrite !andb_true_iff, !bool_decide_eq_true, Z.ltb_lt in Hl.
    destruct Hl as [[[[-> ->] ->] ?] ?]. by exists e.
  - intros (e & He & [Ha Hx] & <-). exists ((app, account, tid, id), e). split; [done|].
    apply elem_of_list_filter_bool. split; [|by apply elem_of_map_to_list].
    unfold live_receipt. rewrite !bool_decide_eq_true_2 by done. simpl. by apply Z.ltb_lt.
Qed.

Lemma pair_le_total : le_total pair_le.
Proof. intros x y. unfold pair_le. rewrite !orb_true_iff, !andb_true_iff, !Z.ltb_lt, !Z.eqb_eq, !Z.leb_le. lia. Qed.
Lemma pair_le_trans : le_trans pair_le.
Proof.
  intros x y z. unfold pair_le. rewrite !orb_true_iff, !andb_true_iff, !Z.ltb_lt, !Z.eqb_eq, !Z.leb_le. lia.
Qed.
#[export] Instance pair_le_antisymm : AntiSymm (=) (fun x y => pair_le x y = true).
Proof.
  intros [a b] [c d]. unfold pair_le. simpl.
  rewrite !orb_true_iff, !andb_true_iff, !Z.ltb_lt, !Z.eqb_eq, !Z.leb_le. intros. f_equal; lia.
Qed.

Lemma live_receipts_sorted app account tid now i :
  StronglySorted (fun x y => pair_le x y = true) (live_receipts app account tid now i).
Proof. apply StronglySorted_sort_by; [apply pair_le_total|apply pair_le_trans]. Qed.

Lemma sublist_list_filter {A} (P : A -> bool) l : sublist (List.filter P l) l.
Proof. induction l as [|x l IH]; simpl; [done|]. destruct (P x); by constructor. Qed.

Lemma NoDup_live_receipts app account tid now i : NoDup (live_receipts app account tid now i).*2.
Proof.
  unfold live_receipts. rewrite sort_by_Permutation, <- list_fmap_compose.
  set (l := List.filter _ _).
  assert (Hl : forall x, x ∈ l -> x.1.1 = (app, account, tid)).
  { intros [[[[a acc] t] id] e] [Hx _]%elem_of_list_filter_bool. unfold live_receipt in Hx.
    rewrite !andb_true_iff, !bool_decide_eq_true in Hx. destruct Hx as [[[[-> ->] ->] _] _]. done. }
  assert (Hnd : NoDup l.*1).
  { eapply sublist_NoDup; [apply (NoDup_fst_map_to_list (pending i))|].
    apply fmap_sublist, sublist_list_filter. }
  clearbody l. induction l as [|x l IH]; simpl in *; [constructor|].
  apply list.NoDup_cons in Hnd as [Hx Hnd]. apply list.NoDup_cons. split.
  - rewrite list_elem_of_fmap. intros (y & E & Hy). apply Hx. apply list_elem_of_fmap. exists y.
    split; [|done]. pose proof (Hl x ltac:(by left)). pose proof (Hl y ltac:(by right)).
    destruct x as [[x1 x2] x3], y as [[y1 y2] y3]; simpl in *; congruence.
  - apply IH; [intros; apply Hl; by right|done].
Qed.

(** ** Acknowledging *)

(** The receipts after [ack]: the listed ones of the target are acked now, unless
    they were already. *)
Lemma ack_fold_entry app account tid now ids p obs key :
  (foldl (ack_step app account tid now) (p, obs) ids).1 !! key =
  match p !! key with
  | Some e =>
    if decide (key.1 = (app, account, tid) /\ key.2 ∈ ids /\ pe_acked_at e = None)
    then Some (mkPendingEntry (pe_created_at e) (pe_expires_at e) (Some now)) else Some e
  | None => None
  end.
Proof.
  revert p obs; induction ids as [|id ids IH]; intros p obs.
  { simpl. destruct (p !! key); [|done]. rewrite decide_False; [done|].
    intros (_ & H & _). by apply not_elem_of_nil in H. }
  cbn [foldl]. destruct (ack_step app account tid now (p, obs) id) as [p' obs'] eqn:E. rewrite IH. clear IH.
  simpl in E. destruct key as [k kid]. simpl.
  destruct (p !! (app, account, tid, id)) as [row|] eqn:F.
  - destruct (pe_acked_at row) as [t|] eqn:Ft; injection E as <- <-.
    + destruct (p !! (k, kid)) as [e|] eqn:G; [|done]. apply decide_ext. rewrite elem_of_cons.
      split; [tauto|]. intros (-> & [->|?] & Hn); [|tauto]. rewrite F in G. injection G as ->. congruence.
    + destruct (decide ((k, kid) = (app, account, tid, id))) as [[= -> ->]|Hne].
      * rewrite lookup_insert_eq, F. rewrite (decide_True (P := _ /\ _ ∈ id :: _ /\ _)).
        2:{ split_and!; [done|left|done]. }
        rewrite decide_False; [done|]. simpl. by intros (_ & _ & ?).
      * rewrite lookup_insert_ne by congruence. destruct (p !! (k, kid)) as [e|]; [|done].
        apply decide_ext. rewrite elem_of_cons. split; [tauto|].
        intros (-> & [->|?] & ?); [congruence|tauto].
  - injection E as <- <-. destruct (p !! (k, kid)) as [e|] eqn:G; [|done]. apply decide_ext.
    rewrite elem_of_cons. split; [tauto|]. intros (-> & [->|?] & ?); [congruence|tauto].
Qed.

Lemma ack_pending {G} app account tid ids now (st : MemoryMessageStore G) key :
  pending_receipt st = true -> tid <> ""%string ->
  pending (inner (ack app account tid ids now st).1) !! key =
  match pending (inner st) !! key with
  | Some e =>
    if decide (key.1 = (app, account, tid) /\ key.2 ∈ ids /\ pe_acked_at e = None)
    then Some (mkPendingEntry (pe_created_at e) (pe_expires_at e) (Some now)) else Some e
  | None => None
  end.
Proof.
  intros Hp Ht. unfold ack, str_is_empty. rewrite Hp, bool_decide_eq_false_2 by done. simpl.
  case_bool_decide as D.
  - subst ids. simpl. destruct (pending (inner st) !! key); [|done]. rewrite decide_False; [done|].
    intros (_ & H & _). by apply not_elem_of_nil in H.
  - pose proof (ack_fold_entry app account tid now ids (pending (inner st)) [] key) as H.
    destruct (foldl _ _ _) as [p obs]. exact H.
Qed.

(** ** Receipts stay *)

Definition pending_grows (i i' : MInner) : Prop :=
  forall k e, pending i !! k = Some e -> pending i' !! k = Some e.

#[export] Instance pending_grows_preorder : PreOrder pending_grows.
Proof. split; [by intros i k e|]. intros i1 i2 i3 H1 H2 k e Hk. by apply H2, H1. Qed.

Lemma pending_grows_same i i' : pending i' = pending i -> pending_grows i i'.
Proof. intros E k e. by rewrite E. Qed.

Lemma pending_grows_or_insert keys e i : pending_grows i (with_pending (or_insert_all keys e (pending i)) i).
Proof. intros k x Hk. simpl. by rewrite lookup_or_insert_all, Hk. Qed.

Lemma pending_grows_receipts on app id req members now i :
  pending_grows i (receipts_if on app id req members now i).
Proof. destruct on; simpl; [|done]. rewrite upsert_receipts_eq. apply pending_grows_or_insert. Qed.

Lemma pending_insert_write app kind req members id now on i :
  pending (insert_write app kind req members id now on i) =
  pending (receipts_if on app id req (members_opt kind members) now i).
Proof.
  unfold insert_write. set (i1 := if str_is_empty _ then i else _). set (i2 := with_contents _ i1).
  destruct (push_rows_fields (index_rows app kind req members id) i2) as (_ & _ & _ & Fp & _).
  assert (E : pending i2 = pending i) by (unfold i2, i1; by destruct (str_is_empty _)).
  destruct on; simpl; rewrite Fp, E; done.
Qed.

Lemma pending_grows_write app kind req members id now on i :
  pending_grows i (insert_write app kind req members id now on i).
Proof. intros k e Hk. rewrite pending_insert_write. by apply pending_grows_receipts. Qed.

Lemma lookup_foldl_delete {K V} `{Countable K} (keys : list K) (m : gmap K V) k :
  foldl (fun p k => delete k p) m keys !! k = if decide (k ∈ keys) then None else m !! k.
Proof.
  revert m; induction keys as [|k' keys IH]; intros m; cbn [foldl].
  { rewrite decide_False; [done|apply not_elem_of_nil]. }
  rewrite IH. destruct (decide (k ∈ keys)) as [Hin|Hin].
  { rewrite decide_True; [done|by right]. }
  destruct (decide (k = k')) as [->|Hne].
  - rewrite decide_True by left. apply lookup_delete_eq.
  - rewrite decide_False by (rewrite elem_of_cons; tauto). by apply lookup_delete_ne.
Qed.

(** The receipts a collection at [now] drops. *)
Definition expired_keys (now : Z) (i : MInner) : list (Z * pending_key) :=
  sort_by (fun a b => a.1 <=? b.1)
    ((fun x : pending_key * PendingEntry => (pe_expires_at x.2, x.1))
       <$> List.filter (fun x : pending_key * PendingEntry => pe_expires_at x.2 <? now)
             (map_to_list (pending i))).

Lemma elem_of_expired_keys now i x k :
  (x, k) ∈ expired_keys now i <-> exists e, pending i !! k = Some e /\ pe_expires_at e = x /\ x < now.
Proof.
  unfold expired_keys. rewrite elem_of_sort_by, list_elem_of_fmap. split.
  - intros ([k2 e] & [= -> ->] & [Hlt Hin%elem_of_map_to_list]%elem_of_list_filter_bool).
    apply Z.ltb_lt in Hlt. by exists e.
  - intros (e & He & <- & Hlt). exists (k, e). split; [done|]. apply elem_of_list_filter_bool.
    split; [by apply Z.ltb_lt|by apply elem_of_map_to_list].
Qed.

Lemma gc_pending {G} limit now (st : MemoryMessageStore G) k :
  pending (inner (gc_expired_deliveries limit now st).1) !! k =
  if decide (k ∈ (take (Z.to_nat (Z.max limit 0)) (expired_keys now (inner st))).*2) then None
  else pending (inner st) !! k.
Proof.
  unfold gc_expired_deliveries. cbn [fst inner with_inner pending with_pending].
  rewrite foldl_snd_delete. apply lookup_foldl_delete.
Qed.

Section kept.
Context {G : Type} `{IdGeneratorOk G}.
Implicit Types st : MemoryMessageStore G.

Lemma insert_pending_grows app kind req members now st :
  pending_grows (inner st) (inner (insert app kind req members now st).1).
Proof.
  unfold insert, insert_check. destruct (str_is_empty _) eqn:Ee.
  - destruct (insert_ids kind members (idgen st)) as [g [id|e]]; [|done].
    unfold insert_commit. rewrite Ee. apply pending_grows_write.
  - destruct (idempotency (inner st) !! _) as [[id t]|] eqn:E.
    + destruct (fanout_from_memory _ _); [apply pending_grows_receipts|done].
    + destruct (insert_ids kind members (idgen st)) as [g [id|e]]; [|done].
      unfold insert_commit. rewrite Ee. simpl. rewrite E. apply pending_grows_write.
Qed.

Lemma bot_reply_pending_grows app owner bot irt req now st :
  pending_grows (inner st) (inner (insert_bot_reply app owner bot irt req now st).1).
Proof.
  unfold insert_bot_reply. repeat (case_match; [done|]). destruct (bot_turns _ !! _); [done|].
  assert (Hw : forall g r, pending_grows (inner st) (inner (match r with
      | Err e => (with_idgen g st, Err (Id e))
      | Ok message_id =>
        let i := insert_write app User req [] message_id now false (inner st) in
        let i := set_bot_turn (app, bot, irt) message_id i in
        let i := receipts_if (pending_receipt st) app message_id req None now i in
        (with_inner i (with_idgen g st),
         Ok (mkInsertResult message_id (im_send_time req) false (fanout_from_write User req [])))
      end).1)).
  { intros g [id|e]; [|done]. cbn [fst inner with_inner].
    etransitivity; [apply (pending_grows_write app User req [] id now false)|].
    exact (pending_grows_receipts (pending_receipt st) app id req None now
             (set_bot_turn (app, bot, irt) id (insert_write app User req [] id now false (inner st)))). }
  destruct (str_is_empty _); [destruct (next_id _) as [g r]; exact (Hw g r)|].
  destruct (idempotency _ !! _) as [[id t]|].
  - exact (pending_grows_receipts (pending_receipt st) app id req None now
             (set_bot_turn (app, bot, irt) id (inner st))).
  - destruct (next_id _) as [g r]; exact (Hw g r).
Qed.

(** An operation at [now] that leaves a receipt alone: it does not acknowledge it,
    does not purge, and garbage collection comes before it expires. *)
Definition keeps (key : pending_key) (expires now : Z) (op : StoreOp) : Prop :=
  match op with
  | OpPurge _ _ _ => False
  | OpAck app account tid ids => (app, account, tid) = key.1 -> key.2 ∉ ids
  | OpGc _ => now <= expires
  | _ => True
  end.

Lemma apply_op_keeps now unix op st key e :
  keeps key (pe_expires_at e) now op -> pending (inner st) !! key = Some e ->
  pending (inner (apply_op now unix op st)) !! key = Some e.
Proof.
  intros Hk He. destruct op; cbn [apply_op keeps] in *.
  - by apply insert_pending_grows.
  - by apply insert_pending_grows.
  - destruct (pending_receipt st && negb (str_is_empty target_id)) eqn:D.
    + apply andb_true_iff in D as [Hp Ht%negb_true_iff].
      rewrite ack_pending, He; [|done|by apply bool_decide_eq_false in Ht].
      rewrite decide_False; [done|]. intros (E & Hin & _). by apply Hk.
    + unfold ack. replace (negb (pending_receipt st) || str_is_empty target_id) with true.
      { by case_match. }
      destruct (pending_receipt st), (str_is_empty target_id); done.
  - unfold offline_index. repeat case_match; done.
  - unfold backfill_delivery. case_match; [done|]. simpl.
    rewrite (or_insert_all_fmap (fun id => (app, account, target_id, id))).
    by rewrite lookup_or_insert_all, He.
  - rewrite gc_pending, decide_False; [done|].
    rewrite list_elem_of_fmap. intros ([x k'] & -> & Hin%elem_of_take_in).
    apply elem_of_expired_keys in Hin as (e' & He' & <- & Hlt). simpl in *. simplify_eq. lia.
  - unfold mark_read. case_match; [done|]. simpl. by destruct (0 <? message_id).
  - by apply bot_reply_pending_grows.
  - done.
Qed.
End kept.

#[export] Instance DeliveryTarget_eq_dec : EqDecision DeliveryTarget.
Proof. solve_decision. Defined.

Section lifecycle.
Context {G : Type} `{IdGeneratorOk G}.
Implicit Types st : MemoryMessageStore G.

Lemma run_ops_keeps ops st key e :
  Forall (fun o => keeps key (pe_expires_at e) o.1.1 o.2) ops -> pending (inner st) !! key = Some e ->
  pending (inner (run_ops ops st)) !! key = Some e.
Proof.
  unfold run_ops. intros Hk. revert st. induction Hk as [|o ops Ho Hk IH]; intros st He; [done|].
  cbn [foldl]. by apply IH, apply_op_keeps.
Qed.

Lemma insert_fresh_inner app kind req members now st st' r :
  store_wf st -> insert app kind req members now st = (st', Ok r) -> ir_duplicate r = false ->
  inner st' = insert_write app kind req members (ir_message_id r) now (pending_receipt st) (inner st)
  /\ contents (inner st) !! ir_message_id r = None /\ pending_receipt st' = pending_receipt st.
Proof.
  intros Hwf Hi Hd. unfold insert in Hi.
  destruct (insert_check _ _ _ _ _ st) as [st1 [x|]] eqn:E.
  - unfold insert_check in E. destruct (str_is_empty _); [done|].
    destruct (idempotency (inner st) !! _) as [[id t]|]; [|done].
    destruct (fanout_from_memory _ _); simplify_eq/=.
  - destruct (insert_check_cases _ _ _ _ _ _ _ _ E) as (_ & _ & Hn). destruct (Hn eq_refl) as [-> Hk].
    destruct (insert_ids kind members (idgen st)) as [g [id|e]] eqn:F; [|done].
    pose proof (insert_ids_fresh kind members st g id Hwf F) as Hf.
    unfold insert_commit in Hi. destruct (str_is_empty _); [by simplify_eq|]. simpl in Hi.
    destruct (idempotency (inner st) !! _) as [[id' t]|]; [|by simplify_eq].
    destruct (fanout_from_memory _ _); simplify_eq/=.
Qed.

Lemma fresh_receipts app kind req members now st st' r acc tid :
  store_wf st -> pending_receipt st = true ->
  insert app kind req members now st = (st', Ok r) -> ir_duplicate r = false ->
  pending (inner st') !! (app, acc, tid, ir_message_id r) =
  if decide (acc ∈ recv_accounts req (members_opt kind members) /\ tid <> ""%string /\
             mkDeliveryTarget acc tid ∈ im_online_targets req)
  then Some (mkPendingEntry now (now + RECEIPT_TTL) None) else None.
Proof.
  intros Hwf Hp Hi Hd. destruct (insert_fresh_inner _ _ _ _ _ _ _ _ Hwf Hi Hd) as (E & Hf & _).
  rewrite E, pending_insert_write, Hp. cbn [receipts_if]. rewrite upsert_receipts_eq. cbn [pending with_pending].
  rewrite lookup_or_insert_all.
  destruct (pending (inner st) !! (app, acc, tid, ir_message_id r)) as [e|] eqn:F.
  { destruct (wf_pending _ _ Hwf _ _ _ _ _ F) as (c & Hc & _). congruence. }
  apply decide_ext. rewrite elem_of_receipt_keys. tauto.
Qed.

Lemma live_of_pending app acc tid id e t (i : MInner) :
  pending i !! (app, acc, tid, id) = Some e -> pe_acked_at e = None -> t < pe_expires_at e ->
  (pe_created_at e, id) ∈ live_receipts app acc tid t i.
Proof. intros. apply elem_of_live_receipts. by exists e. Qed.
End lifecycle.

(** (C13) The life of a receipt.  A message that is written (not a duplicate) gets
    one receipt for every online target of its recipients and for nobody else; and
    each such receipt, whatever else the store does short of a purge, stays live for
    its target until that target acknowledges this message or the receipt has been
    out for its 15 days: no other acknowledgement, retry, login or collection
    loses it. *)
Theorem receipt_until_acked {G : Type} `{IdGeneratorOk G} (st st1 : MemoryMessageStore G)
  (app : string) (kind : MessageKind) (req : InsertMessage) (members : list string) (now : Z)
  (r : InsertResult) (Hwf : store_wf st) (Hon : pending_receipt st = true)
  (Hins : insert app kind req members now st = (st1, Ok r)) (Hnew : ir_duplicate r = false)
  (acc tid : string) (key := (app, acc, tid, ir_message_id r)) :
  let addressed := acc ∈ recv_accounts req (members_opt kind members) /\ tid <> ""%string /\
                   mkDeliveryTarget acc tid ∈ im_online_targets req in
  (pending (inner st1) !! key = None <-> ~ addressed) /\
  (addressed -> forall ops t,
     Forall (fun o => keeps key (now + RECEIPT_TTL) o.1.1 o.2) ops -> t < now + RECEIPT_TTL ->
     (now, ir_message_id r) ∈ live_receipts app acc tid t (inner (run_ops ops st1))).
Proof.
  intros addressed. pose proof (fresh_receipts app kind req members now st st1 r acc tid Hwf Hon Hins Hnew) as E.
  fold key in E. fold addressed in E. split.
  - rewrite E. case_decide; [|done]. split; [done|tauto].
  - intros Ha ops t Hk Ht. rewrite decide_True in E by done.
    pose (e := mkPendingEntry now (now + RECEIPT_TTL) None).
    exact (live_of_pending app acc tid _ e t _ (run_ops_keeps ops st1 key e Hk E) eq_refl Ht).
Qed.

Lemma receipt_until_acked_witness :
  let out := insert "kim" User (demo_req "alice" "bob" "c1" "hi") [] 1 demo_store in
  (1, 10) ∈ live_receipts "kim" "bob" "t1" 5
    (inner (run_ops [(2, 2, OpAck "kim" "bob" "t1" [11; 12]); (3, 3, OpGc 100)] out.1)).
Proof.
  intros out. pose (res := mkInsertResult 10 1000 false
    (fanout_from_write User (demo_req "alice" "bob" "c1" "hi") [])).
  refine (proj2 (receipt_until_acked demo_store out.1 "kim" User (demo_req "alice" "bob" "c1" "hi") [] 1
    res _ eq_refl eq_refl eq_refl "bob" "t1") _ _ 5 _ _).
  - apply with_ack_wf.
  - split_and!; [apply (bool_decide_unpack _); vm_compute; exact I|discriminate|left].
  - repeat constructor; cbn; [|unfold RECEIPT_TTL, NANOS; lia].
    intros _ Hin. rewrite !elem_of_cons in Hin. destruct Hin as [?|[?|Hin]]; try discriminate.
    by apply not_elem_of_nil in Hin.
  - unfold RECEIPT_TTL, NANOS. lia.
Defined.

(** ** Acknowledging and collecting *)

(** Sorted lists of pairs with the same members are equal. *)
Lemma sorted_pairs_eq (l k : list (Z * Z)) :
  StronglySorted (fun x y => pair_le x y = true) l -> StronglySorted (fun x y => pair_le x y = true) k ->
  NoDup l.*2 -> NoDup k.*2 -> (forall c id, (c, id) ∈ l <-> (c, id) ∈ k) -> l = k.
Proof.
  intros Hl Hk Nl Nk Heq.
  apply (StronglySorted_unique (fun x y => pair_le x y = true)); [done|done|].
  apply list.NoDup_Permutation; [by eapply NoDup_fmap_1|by eapply NoDup_fmap_1|].
  intros [c id]. apply Heq.
Qed.

Lemma StronglySorted_list_filter {A} (R : A -> A -> Prop) P (l : list A) :
  StronglySorted R l -> StronglySorted R (List.filter P l).
Proof.
  induction 1 as [|x l Hs IH Hx]; simpl; [constructor|]. destruct (P x); [|done]. constructor; [done|].
  apply list.Forall_forall. intros y [_ Hy]%elem_of_list_filter_bool.
  by eapply list.Forall_forall in Hx.
Qed.

Definition unlisted (ids : list Z) (x : Z * Z) : bool := negb (bool_decide (x.2 ∈ ids)).

Lemma live_receipts_ack {G} app acc tid ids now (st : MemoryMessageStore G) t :
  pending_receipt st = true -> tid <> ""%string ->
  live_receipts app acc tid t (inner (ack app acc tid ids now st).1)
  = List.filter (unlisted ids) (live_receipts app acc tid t (inner st)).
Proof.
  intros Hp Ht. apply sorted_pairs_eq.
  - apply live_receipts_sorted.
  - apply StronglySorted_list_filter, live_receipts_sorted.
  - apply NoDup_live_receipts.
  - eapply sublist_NoDup; [apply NoDup_live_receipts|]. apply fmap_sublist, sublist_list_filter.
  - intros c id. rewrite elem_of_list_filter_bool, !elem_of_live_receipts. unfold unlisted. simpl.
    rewrite negb_true_iff, bool_decide_eq_false, ack_pending by done. split.
    + intros (e & He & [Ha Hx] & <-). destruct (pending (inner st) !! _) as [e0|]; [|done].
      case_decide as D; simplify_eq. split; [|by exists e]. intros Hin. apply D. done.
    + intros [Hin (e & He & [Ha Hx] & <-)]. exists e. rewrite He, decide_False; [done|].
      by intros (_ & ? & _).
Qed.

Lemma live_receipts_ack_other {G} app acc tid ids now (st : MemoryMessageStore G) app' acc' tid' t :
  pending_receipt st = true -> tid <> ""%string -> (app', acc', tid') <> (app, acc, tid) ->
  live_receipts app' acc' tid' t (inner (ack app acc tid ids now st).1)
  = live_receipts app' acc' tid' t (inner st).
Proof.
  intros Hp Ht Hne. apply sorted_pairs_eq; try apply live_receipts_sorted; try apply NoDup_live_receipts.
  intros c id. rewrite !elem_of_live_receipts, ack_pending by done.
  destruct (pending (inner st) !! _) as [e0|]; [|done]. rewrite decide_False; [done|].
  by intros (? & _ & _).
Qed.

(** Acked rows are not observed again. *)
Lemma ack_fold_done app account tid now ids p obs :
  (forall id e, id ∈ ids -> p !! (app, account, tid, id) = Some e -> pe_acked_at e <> None) ->
  foldl (ack_step app account tid now) (p, obs) ids = (p, obs).
Proof.
  induction ids as [|id ids IH]; intros Hd; [done|]. cbn [foldl]. unfold ack_step at 2.
  destruct (p !! _) as [e|] eqn:E; [|apply IH; intros; eapply Hd; [by right|done]].
  pose proof (Hd id e ltac:(by left) E). destruct (pe_acked_at e); [|done].
  apply IH. intros; eapply Hd; [by right|done].
Qed.

Lemma with_pending_id i : with_pending (pending i) i = i.
Proof. by destruct i. Qed.

Lemma ack_twice {G} app acc tid ids now now' (st : MemoryMessageStore G) :
  pending_receipt st = true -> tid <> ""%string ->
  ack app acc tid ids now' (ack app acc tid ids now st).1 = ((ack app acc tid ids now st).1, Ok tt).
Proof.
  intros Hp Ht. set (st' := (ack app acc tid ids now st).1).
  assert (Hp' : pending_receipt st' = true).
  { unfold st', ack. rewrite Hp. case_match; [by case_match|]. case_match; [done|]. by destruct (foldl _ _ _). }
  unfold ack at 1. unfold str_is_empty. rewrite Hp', bool_decide_eq_false_2 by done. simpl.
  case_bool_decide as D; [done|].
  rewrite ack_fold_done.
  - clearbody st'. destruct st' as [g a p o i]. simpl in *. subst p. rewrite with_pending_id. destruct o; simpl; [|done].
    by rewrite app_nil_r.
  - intros id e Hin. unfold st'. rewrite ack_pending by done.
    destruct (pending (inner st) !! _) as [e0|]; [|done].
    case_decide as D2; intros [= <-]; [done|]. intros Ha. by apply D2.
Qed.

(** (C14) What an acknowledgement settles.  With receipts on, an ack from a target
    removes from its backlog exactly the listed messages and keeps the rest in
    order, at every later time; the backlogs of all other targets, another session
    of the same account included, are unchanged, as are messages and indexes; and
    the same ack sent again, at any time, changes nothing, the latency log
    included. *)
Theorem ack_settles {G : Type} (app acc tid : string) (ids : list Z) (now : Z)
  (st : MemoryMessageStore G) (Hon : pending_receipt st = true) (Ht : tid <> ""%string) :
  let st' := (ack app acc tid ids now st).1 in
  (ack app acc tid ids now st).2 = Ok tt /\
  (forall t, live_receipts app acc tid t (inner st')
             = List.filter (unlisted ids) (live_receipts app acc tid t (inner st))) /\
  (forall app' acc' tid' t, (app', acc', tid') <> (app, acc, tid) ->
     live_receipts app' acc' tid' t (inner st') = live_receipts app' acc' tid' t (inner st)) /\
  (forall now', ack app acc tid ids now' st' = (st', Ok tt)) /\
  inner st' = with_pending (pending (inner st')) (inner st).
Proof.
  intros st'. split_and!.
  - unfold ack. case_match; [by case_match|]. case_match; [done|]. by destruct (foldl _ _ _).
  - intros t. by apply live_receipts_ack.
  - intros app' acc' tid' t Hne. by apply live_receipts_ack_other.
  - intros now'. by apply ack_twice.
  - unfold st', ack. case_match; [by case_match; rewrite with_pending_id|].
    case_match; [by rewrite with_pending_id|]. by destruct (foldl _ _ _).
Qed.

Lemma ack_settles_witness :
  let st := (insert "kim" User (demo_req "alice" "bob" "c1" "hi") [] 1 demo_store).1 in
  let st' := (ack "kim" "bob" "t1" [10] 2 st).1 in
  ack "kim" "bob" "t1" [10] 9 st' = (st', Ok tt) /\
  live_receipts "kim" "bob" "t1" 3 (inner st) = [(1, 10)].
Proof.
  intros st st'. split; [|vm_compute; reflexivity].
  exact (proj1 (proj2 (proj2 (proj2 (ack_settles "kim" "bob" "t1" [10] 2 st eq_refl ltac:(discriminate))))) 9).
Defined.

Lemma NoDup_expired_keys now i : NoDup (expired_keys now i).*2.
Proof.
  unfold expired_keys. rewrite sort_by_Permutation, <- list_fmap_compose.
  eapply sublist_NoDup; [apply (NoDup_fst_map_to_list (pending i))|].
  change (sublist (fst <$> List.filter (fun x : pending_key * PendingEntry => pe_expires_at x.2 <? now)
    (map_to_list (pending i))) (map_to_list (pending i)).*1).
  apply fmap_sublist, sublist_list_filter.
Qed.

Lemma expired_keys_sorted now i :
  StronglySorted (fun x y => (x.1 <=? y.1) = true) (expired_keys now i).
Proof.
  apply StronglySorted_sort_by; intros x y; [|intros z]; rewrite !Z.leb_le; lia.
Qed.

Lemma size_foldl_delete {K V} `{Countable K} (keys : list K) (m : gmap K V) :
  NoDup keys -> (forall k, k ∈ keys -> is_Some (m !! k)) ->
  (size (foldl (fun p k => delete k p) m keys) + length keys = size m)%nat.
Proof.
  revert m; induction keys as [|k keys IH]; intros m Hnd Hin; cbn [foldl length]; [lia|].
  apply list.NoDup_cons in Hnd as [Hk Hnd]. rewrite Nat.add_succ_r, IH; [|done|].
  - destruct (Hin k ltac:(by left)) as [v Hv].
    rewrite map_size_delete_Some by (by eexists). assert (size m <> 0%nat); [|lia].
    intros E%map_size_empty_inv. by rewrite E in Hv.
  - intros k' Hk'. rewrite lookup_delete_ne by congruence. apply Hin. by right.
Qed.

Lemma take_sorted_before {A} (R : A -> A -> Prop) n (l : list A) x y :
  StronglySorted R l -> x ∈ take n l -> y ∈ drop n l -> R x y.
Proof.
  revert n; induction l as [|a l IH]; intros [|n] Hs Hx Hy; simpl in *;
    try (by apply not_elem_of_nil in Hx); [].
  inversion Hs as [|? ? Hs' Ha]; subst. apply elem_of_cons in Hx as [->|Hx]; [|by eapply IH].
  eapply list.Forall_forall in Ha; [exact Ha|]. rewrite <- (take_drop n l). apply elem_of_app. by right.
Qed.

Lemma gc_taken m now i k e :
  pending i !! k = Some e -> k ∈ (take m (expired_keys now i)).*2 ->
  (pe_expires_at e, k) ∈ take m (expired_keys now i) /\ pe_expires_at e < now.
Proof.
  intros He ([x k'] & -> & Hin)%list_elem_of_fmap. simpl in *.
  pose proof (elem_of_take_in _ _ _ Hin) as (e' & He' & <- & Hlt)%elem_of_expired_keys.
  rewrite He in He'. by injection He' as <-.
Qed.

Lemma gc_not_taken m now i k e :
  pending i !! k = Some e -> k ∉ (take m (expired_keys now i)).*2 -> pe_expires_at e < now ->
  (pe_expires_at e, k) ∈ drop m (expired_keys now i).
Proof.
  intros He Hn Hlt. assert (Hin : (pe_expires_at e, k) ∈ expired_keys now i).
  { apply elem_of_expired_keys. by exists e. }
  apply (elem_of_take_or_drop m) in Hin as [Hin|Hin]; [|done].
  destruct Hn. apply list_elem_of_fmap. by exists (pe_expires_at e, k).
Qed.

Lemma gc_size {G} limit now (st : MemoryMessageStore G) :
  (size (pending (inner (gc_expired_deliveries limit now st).1))
   + length (take (Z.to_nat (Z.max limit 0)) (expired_keys now (inner st)))
   = size (pending (inner st)))%nat.
Proof.
  unfold gc_expired_deliveries. cbn [fst inner with_inner pending with_pending].
  rewrite foldl_snd_delete, <- (length_fmap snd (take _ (expired_keys _ _))). apply size_foldl_delete.
  - eapply sublist_NoDup; [apply (NoDup_expired_keys now (inner st))|]. apply fmap_sublist, sublist_take.
  - intros k ([x k'] & -> & (e & He & _)%elem_of_take_in%elem_of_expired_keys)%list_elem_of_fmap. by exists e.
Qed.

(** What garbage collection takes.  A run removes at most [limit] receipts,
    all of them expired, the earliest to expire first, and reports their number;
    when it reports fewer than the limit nothing expired is left.  What is not
    expired stays as it is, so no backlog read at that time or later can tell that
    a collection ran. *)
Theorem gc_takes_expired {G : Type} (limit now : Z) (st : MemoryMessageStore G) :
  let p := pending (inner st) in
  let p' := pending (inner (gc_expired_deliveries limit now st).1) in
  let n := Z.of_nat (size p) - Z.of_nat (size p') in
  (gc_expired_deliveries limit now st).2 = Ok n /\ n <= Z.max limit 0 /\
  (forall k e, p !! k = Some e -> p' !! k <> Some e -> p' !! k = None /\ pe_expires_at e < now) /\
  (forall k, p !! k = None -> p' !! k = None) /\
  (forall k e k' e', p !! k = Some e -> p' !! k = None -> p' !! k' = Some e' ->
     pe_expires_at e <= pe_expires_at e') /\
  (n < limit -> forall k e, p' !! k = Some e -> now <= pe_expires_at e) /\
  (forall app acc tid t, now <= t ->
     live_receipts app acc tid t (inner (gc_expired_deliveries limit now st).1)
     = live_receipts app acc tid t (inner st)).
Proof.
  intros p p' n. pose proof (gc_pending limit now st) as Hp. fold p p' in Hp.
  pose proof (gc_size limit now st) as Hs. fold p p' in Hs.
  set (m := Z.to_nat (Z.max limit 0)) in *. set (ks := expired_keys now (inner st)) in *.
  assert (Hn : n = len (take m ks)) by (unfold n, len; lia).
  split_and!; [by rewrite Hn| | | | | |].
  - rewrite Hn, len_take. unfold m. lia.
  - intros k e He Hne. rewrite Hp in Hne |- *. case_decide as D; [|done].
    by apply (gc_taken m now (inner st) k e He) in D as [_ ?].
  - intros k Hk. rewrite Hp, Hk. by case_decide.
  - intros k e k' e' He Hg He'. rewrite (Hp k) in Hg. rewrite (Hp k') in He'.
    destruct (decide (k ∈ (take m ks).*2)) as [Dk|]; [|congruence].
    destruct (decide (k' ∈ (take m ks).*2)) as [|Dk']; [done|].
    destruct (gc_taken m now (inner st) k e He Dk) as [Hin Hlt].
    destruct (Z_lt_le_dec (pe_expires_at e') now) as [Hx|Hx]; [|lia].
    pose proof (take_sorted_before _ m ks _ _ (expired_keys_sorted _ _) Hin
                  (gc_not_taken m now _ _ _ He' Dk' Hx)) as Hle.
    by apply Z.leb_le.
  - intros Hlt k e He. rewrite Hp in He. case_decide as D; [done|].
    destruct (Z_lt_le_dec (pe_expires_at e) now) as [Hx|Hx]; [|lia].
    pose proof (drop_nonempty_len _ _ _ (gc_not_taken m now _ _ _ He D Hx)) as Hin.
    fold ks in Hin. rewrite Hn, Hin in Hlt. unfold m in Hlt. lia.
  - intros app acc tid t Ht. apply sorted_pairs_eq; try apply live_receipts_sorted; try apply NoDup_live_receipts.
    intros c id. rewrite !elem_of_live_receipts. fold p p'. split.
    + intros (e & He & ?). exists e. split; [|done]. rewrite Hp in He. by case_decide.
    + intros (e & He & [Ha Hx] & ?). exists e. split; [|done]. rewrite Hp. case_decide as D; [|done].
      apply (gc_taken m now (inner st) _ e He) in D as [_ ?]. lia.
Qed.

(** ** Every receipt has its index row

    A receipt without a row of its account is one no index lists.  The store writes
    both together; a repeat of a client id that names other recipients adds receipts
    to the message it repeats. *)

(** The account has an index row of the message. *)
Definition has_row (app account : string) (id : Z) (i : MInner) : Prop :=
  exists r, r ∈ message_rows id i /\ r_app r = app /\ r_account_a r = account.
Definition rowed (i : MInner) : Prop :=
  forall app account tid id e, pending i !! (app, account, tid, id) = Some e -> has_row app account id i.

(** If the client id is known, the message it names went to the recipients of [req]. *)
Definition repeat_ok (app : string) (req : InsertMessage) (members : option (list string)) (i : MInner) : Prop :=
  im_client_id req <> ""%string -> forall id t, idempotency i !! (app, im_sender req, im_client_id req) = Some (id, t) ->
  forall account, account ∈ recv_accounts req members -> has_row app account id i.
Definition op_repeats (op : StoreOp) (i : MInner) : Prop :=
  match op with
  | OpInsertUser app req => repeat_ok app req None i
  | OpInsertGroup app req members => repeat_ok app req (Some members) i
  | OpBotReply app _ _ _ req => repeat_ok app req None i
  | _ => True
  end.

(** A history in which a client id is only reused for the same recipients. *)
Fixpoint repeats_ok {G} `{IdGenerator G} (ops : list (Z * Z * StoreOp)) (st : MemoryMessageStore G) : Prop :=
  match ops with
  | [] => True
  | o :: ops => op_repeats o.2 (inner st) /\ repeats_ok ops (apply_op o.1.1 o.1.2 o.2 st)
  end.

Lemma has_row_index bound i app account id : inner_wf bound i -> has_row app account id i ->
  is_Some (find_index_row app account id i).
Proof.
  intros Hwf (r & Hr & Ha & Hb). unfold find_index_row.
  destruct (List.find _ _) as [row|] eqn:E; [by eexists|].
  assert (Hin : r ∈ List.filter (of_message id) (account_rows app account i)).
  { rewrite (wf_index _ _ Hwf). apply elem_of_list_filter_bool. split; [|done].
    unfold of_account. by rewrite !bool_decide_eq_true_2. }
  apply elem_of_list_filter_bool in Hin as [Hid Hin%list_elem_of_In].
  pose proof (find_none _ _ E _ Hin) as Hn. unfold of_message in Hid. cbn in Hn. by rewrite Hid in Hn.
Qed.

Lemma rowed_step bound i i' : inner_wf bound i -> extends i i' -> rowed i ->
  (forall app account tid id e, pending i' !! (app, account, tid, id) = Some e ->
     is_Some (pending i !! (app, account, tid, id)) \/ has_row app account id i') -> rowed i'.
Proof.
  intros Hwf Hx Hr Hn app account tid id e He. destruct (Hn _ _ _ _ _ He) as [[e' He']|]; [|done].
  destruct (Hr _ _ _ _ _ He') as (r & Hin & ?). exists r. split; [|done].
  destruct (wf_pending _ _ Hwf _ _ _ _ _ He') as (c & Hc & _).
  by rewrite (proj2 (ext_contents _ _ Hx _ _ Hc)).
Qed.

Lemma receipts_if_rowed on app id req members now i i0 :
  (forall account, account ∈ recv_accounts req members -> has_row app account id i) -> pending i = pending i0 ->
  forall a acc tid id' e, pending (receipts_if on app id req members now i) !! (a, acc, tid, id') = Some e ->
    is_Some (pending i0 !! (a, acc, tid, id')) \/ has_row a acc id' (receipts_if on app id req members now i).
Proof.
  intros Hrow <- a acc tid id' e. destruct on; cbn [receipts_if]; [|by left].
  rewrite upsert_receipts_eq. cbn [pending with_pending]. rewrite lookup_or_insert_all.
  destruct (pending i !! _); [by left; eexists|]. case_decide as D; [|done]. intros _. right.
  apply elem_of_receipt_keys in D as (-> & -> & Hacc & _). exact (Hrow _ Hacc).
Qed.

Lemma write_has_rows app kind req members id now on i :
  forall account, account ∈ recv_accounts req (members_opt kind members) ->
    has_row app account id (insert_write app kind req members id now on i).
Proof.
  intros account Ha.
  assert (Hrow : exists r, r ∈ index_rows app kind req members id /\ r_message_id r = id /\ r_app r = app /\ r_account_a r = account).
  { destruct kind; cbn [members_opt recv_accounts index_rows] in *.
    - apply list_elem_of_singleton in Ha as ->. eexists. split; [right; left|done].
    - unfold unique_accounts in Ha. rewrite elem_of_unique in Ha. apply elem_of_list_filter_bool in Ha as [_ Ha].
      eexists. split; [apply list_elem_of_fmap; by exists account|done]. }
  destruct Hrow as (r & Hr & Hid & ?). exists r. split; [|done]. unfold insert_write.
  set (i1 := if str_is_empty _ then i else _). set (i2 := with_contents _ i1).
  assert (E : message_rows id (receipts_if on app id req (members_opt kind members) now (push_rows (index_rows app kind req members id) i2))
    = message_rows id (push_rows (index_rows app kind req members id) i2)).
  { unfold message_rows. by destruct on. }
  rewrite E, message_rows_push_rows. apply elem_of_app. right. apply elem_of_list_filter_bool.
  split; [by apply Z.eqb_eq|done].
Qed.

Section rowed.
Context {G : Type} `{IdGeneratorOk G}.
Implicit Types st : MemoryMessageStore G.

Lemma receipts_repeat_rowed app id t req members now st :
  rowed (inner st) -> im_client_id req <> ""%string -> repeat_ok app req members (inner st) ->
  idempotency (inner st) !! (app, im_sender req, im_client_id req) = Some (id, t) -> store_wf st ->
  forall i, extends (inner st) i -> pending i = pending (inner st) ->
  rowed (receipts_if (pending_receipt st) app id req members now i).
Proof.
  intros Hr Hc Hrep Hid Hwf i Hx Hp. apply (rowed_step (id_bound (idgen st)) (inner st)); [exact Hwf| |exact Hr|].
  - etransitivity; [exact Hx|apply extends_receipts].
  - apply receipts_if_rowed; [|done]. intros account Ha.
    destruct (Hrep Hc id t Hid account Ha) as (r & Hin & ?). exists r. split; [|done].
    destruct (wf_idem _ _ Hwf _ _ _ _ _ Hid) as (c & Ec & _). by rewrite (proj2 (ext_contents _ _ Hx _ _ Ec)).
Qed.

Lemma write_rowed app kind req members id now on bound i : inner_wf bound i -> contents i !! id = None ->
  (im_client_id req <> ""%string -> idempotency i !! (app, im_sender req, im_client_id req) = None) ->
  rowed i -> rowed (insert_write app kind req members id now on i).
Proof.
  intros Hwf Hf Hk Hr. apply (rowed_step bound i); [done|by apply extends_insert_write|done|].
  intros a acc tid id' e. rewrite pending_insert_write. intros He.
  destruct on; cbn [receipts_if] in He; [|by left; eexists].
  rewrite upsert_receipts_eq in He. cbn [pending with_pending] in He. rewrite lookup_or_insert_all in He.
  destruct (pending i !! _); [by left; eexists|]. case_decide as D; [|done]. right.
  apply elem_of_receipt_keys in D as (-> & -> & Hacc & _). by apply write_has_rows.
Qed.

Lemma insert_rowed app kind req members now st : store_wf st -> rowed (inner st) ->
  repeat_ok app req (members_opt kind members) (inner st) -> rowed (inner (insert app kind req members now st).1).
Proof.
  intros Hwf Hr Hrep. unfold insert, insert_check, str_is_empty. case_bool_decide as D.
  - destruct (insert_ids kind members (idgen st)) as [g [id|e]] eqn:F; [|done].
    unfold insert_commit, str_is_empty. rewrite bool_decide_eq_true_2 by done.
    eapply write_rowed; [exact Hwf|exact (insert_ids_fresh _ _ st _ _ Hwf F)|done|done].
  - destruct (idempotency (inner st) !! _) as [[id t]|] eqn:E.
    + destruct (fanout_from_memory _ _); [|done]. by eapply receipts_repeat_rowed.
    + destruct (insert_ids kind members (idgen st)) as [g [id|e]] eqn:F; [|done].
      unfold insert_commit, str_is_empty. rewrite bool_decide_eq_false_2 by done. cbn [inner with_idgen]. rewrite E.
      eapply write_rowed; [exact Hwf|exact (insert_ids_fresh _ _ st _ _ Hwf F)|done|done].
Qed.

Lemma bot_reply_rowed app owner bot irt req now st : store_wf st -> rowed (inner st) ->
  repeat_ok app req None (inner st) -> rowed (inner (insert_bot_reply app owner bot irt req now st).1).
Proof.
  intros Hwf Hr Hrep. unfold insert_bot_reply.
  destruct (negb _ || negb _); [done|]. destruct (irt <=? 0); [done|]. destruct (negb (bot_orig_ok _ _ _ _ _)); [done|].
  destruct (bot_turns _ !! _) eqn:Et; [done|].
  assert (Hw : forall g r, next_id (idgen st) = (g, r) ->
    (im_client_id req <> ""%string -> idempotency (inner st) !! (app, im_sender req, im_client_id req) = None) ->
    rowed (inner (match r with
      | Err e => (with_idgen g st, Err (Id e))
      | Ok message_id =>
        let i := insert_write app User req [] message_id now false (inner st) in
        let i := set_bot_turn (app, bot, irt) message_id i in
        let i := receipts_if (pending_receipt st) app message_id req None now i in
        (with_inner i (with_idgen g st),
         Ok (mkInsertResult message_id (im_send_time req) false (fanout_from_write User req [])))
      end).1)).
  { intros g [id|e] E Hk; [|done]. apply next_id_ok in E. cbn [fst inner with_inner].
    assert (Hf : contents (inner st) !! id = None) by (eapply wf_fresh_id; [exact Hwf|lia]).
    pose proof (write_rowed app User req [] id now false _ _ Hwf Hf Hk Hr) as Hrw.
    pose proof (write_has_rows app User req [] id now false (inner st)) as Hrows.
    set (i1 := insert_write app User req [] id now false (inner st)) in *.
    intros a acc tid id' e He.
    destruct (receipts_if_rowed (pending_receipt st) app id req None now (set_bot_turn (app, bot, irt) id i1) i1
      Hrows eq_refl _ _ _ _ _ He) as [[e' He']|]; [|done].
    destruct (Hrw _ _ _ _ _ He') as (r & Hin & ?). exists r. split; [|done]. by destruct (pending_receipt st). }
  unfold str_is_empty. case_bool_decide as D.
  - destruct (next_id (idgen st)) as [g r] eqn:E. by apply (Hw g r).
  - destruct (idempotency (inner st) !! _) as [[id t]|] eqn:F.
    + cbn [fst inner with_inner]. eapply receipts_repeat_rowed; try done. split; [done|done|].
      intros k x Hx. cbn [bot_turns set_bot_turn with_bot_turns]. rewrite lookup_insert_ne; [done|]. intros <-. congruence.
    + destruct (next_id (idgen st)) as [g r] eqn:E. by apply (Hw g r).
Qed.

(** Receipts only change or go, the rows stay. *)
Lemma rowed_fewer i i' : indexes_by_message i' = indexes_by_message i ->
  (forall k e, pending i' !! k = Some e -> is_Some (pending i !! k)) -> rowed i -> rowed i'.
Proof.
  intros Em Hp Hr app account tid id e He. destruct (Hp _ _ He) as [e' He'].
  destruct (Hr _ _ _ _ _ He') as (r & Hin & ?). exists r. split; [|done]. unfold message_rows in *. by rewrite Em.
Qed.

Lemma purge_unguarded (account peer : string) :
  str_is_empty account || str_is_empty peer || bool_decide (account = peer) = false -> purge_on account peer.
Proof.
  unfold str_is_empty. intros [[E1 E2]%orb_false_iff E3]%orb_false_iff.
  apply bool_decide_eq_false in E1, E2, E3. by split_and!.
Qed.

Lemma purge_rowed app account peer st : store_wf st -> rowed (inner st) ->
  rowed (inner (purge_peer_dm app account peer st).1).
Proof.
  intros Hwf Hr. destruct (str_is_empty account || str_is_empty peer || bool_decide (account = peer)) eqn:Eg.
  { unfold purge_peer_dm. by rewrite Eg. }
  pose proof (purge_unguarded _ _ Eg) as Hon.
  destruct (purge_fields app account peer st Hwf Hon) as (_ & _ & Em & _ & _ & _ & Ep & _).
  intros a acc tid id e [He Hn]%Ep. destruct (Hr _ _ _ _ _ He) as (r & Hin & Ha & Hb).
  exists r. split; [|done]. rewrite Em. apply elem_of_list_filter_bool. split; [|done].
  destruct (kept_row app account peer r) eqn:Ek; [done|]. destruct Hn. split.
  - rewrite <- Ha. unfold kept_row in Ek. by apply negb_false_iff, andb_true_iff in Ek as [?%bool_decide_eq_true _].
  - apply (elem_of_purged_ids _ _ _ _ (inner st) id Hwf (proj2 (proj2 Hon))). by exists r.
Qed.

Lemma backfill_rowed app account tid now unix st : store_wf st -> rowed (inner st) ->
  rowed (inner (backfill_delivery app account tid now unix st).1).
Proof.
  intros Hwf Hr. unfold backfill_delivery. case_match; [done|]. cbn [fst inner with_inner].
  rewrite (or_insert_all_fmap (fun id => (app, account, tid, id))).
  intros a acc t id e. cbn [pending with_pending]. rewrite lookup_or_insert_all.
  destruct (pending (inner st) !! _) as [e0|] eqn:E; [intros _; exact (Hr _ _ _ _ _ E)|].
  case_decide as D; [|done]. intros _.
  apply list_elem_of_fmap in D as (id' & [= -> -> -> ->] & Hid).
  apply list_elem_of_fmap in Hid as (r & -> & [_ Hin]%elem_of_list_filter_bool).
  destruct (account_row_content _ _ _ _ _ Hwf Hin) as (? & ? & ? & _). by exists r.
Qed.

Lemma apply_op_rowed now unix op st : store_wf st -> rowed (inner st) -> op_repeats op (inner st) ->
  rowed (inner (apply_op now unix op st)).
Proof.
  intros Hwf Hr Hop. destruct op; cbn [apply_op op_repeats] in *.
  - by apply insert_rowed.
  - by apply insert_rowed.
  - unfold ack. case_match; [by case_match|]. case_match; [done|].
    destruct (foldl _ _ _) as [p obs] eqn:E. cbn [fst inner]. apply (rowed_fewer (inner st)); [done| |done].
    intros k e He. apply (ack_fold_lookup app account target_id now ids (pending (inner st)) [] k e). by rewrite E.
  - unfold offline_index. repeat case_match; done.
  - by apply backfill_rowed.
  - apply (rowed_fewer (inner st)); [done| |done]. intros k e. rewrite gc_pending. case_decide; [done|]. by eexists.
  - unfold mark_read. case_match; [done|]. cbn [fst inner with_inner]. destruct (0 <? message_id); [|done].
    apply (rowed_fewer (inner st)); [done| |done]. intros k e He. by exists e.
  - by apply bot_reply_rowed.
  - by apply purge_rowed.
Qed.

(** In a history whose repeats name the same recipients every receipt has its row. *)
Lemma run_ops_rowed ops st : store_wf st -> Forall (fun o => op_ok o.2) ops -> repeats_ok ops st ->
  rowed (inner st) -> rowed (inner (run_ops ops st)).
Proof.
  revert st; induction ops as [|o ops IH]; intros st Hwf Hok Hrep Hr; [done|].
  inversion Hok; subst. destruct Hrep as [Ho Hrep]. apply (IH (apply_op o.1.1 o.1.2 o.2 st)); [|done|done|].
  - by apply apply_op_wf.
  - by apply apply_op_rowed.
Qed.

(** *** Ids are positive *)

Definition positive st : Prop :=
  1 <= id_bound (idgen st) /\ forall id, id <= 0 -> contents (inner st) !! id = None.

Lemma purge_positive app account peer st : store_wf st -> positive st -> positive (purge_peer_dm app account peer st).1.
Proof.
  intros Hwf [Hb Hc]. destruct (str_is_empty account || str_is_empty peer || bool_decide (account = peer)) eqn:Eg.
  { unfold purge_peer_dm. by rewrite Eg. }
  destruct (purge_fields app account peer st Hwf (purge_unguarded _ _ Eg)) as (Eg' & _ & _ & Ec & _).
  split; [by rewrite Eg'|]. intros id Hid. rewrite Ec, (Hc id Hid). by destruct (decide _).
Qed.

Lemma apply_op_positive now unix op st : store_wf st -> positive st -> positive (apply_op now unix op st).
Proof.
  intros Hwf Hpos. assert (Hn : no_purge op -> positive (apply_op now unix op st)).
  { intros [Hg Hf]%(apply_op_ids now unix op st). destruct Hpos as [Hb Hc].
    split; [lia|]. intros id Hid. apply Hf; [lia|by apply Hc]. }
  destruct op; try exact (Hn I). by apply purge_positive.
Qed.

Lemma run_ops_positive ops st : store_wf st -> Forall (fun o => op_ok o.2) ops -> positive st -> positive (run_ops ops st).
Proof.
  revert st; induction ops as [|o ops IH]; intros st Hwf Hok Hp; [done|]. inversion Hok; subst.
  apply (IH (apply_op o.1.1 o.1.2 o.2 st)); [by apply apply_op_wf|done|by apply apply_op_positive].
Qed.

Lemma apply_op_receipts_on now unix op st :
  pending_receipt (apply_op now unix op st) = pending_receipt st.
Proof.
  assert (Hi : forall app kind req members, pending_receipt (insert app kind req members now st).1 = pending_receipt st).
  { intros app kind req members. unfold insert, insert_check, insert_commit. repeat (case_match; simplify_eq/=; try done). }
  destruct op; cbn [apply_op]; [apply Hi|apply Hi|..].
  - unfold ack. repeat (case_match; try done).
  - unfold offline_index. repeat (case_match; try done).
  - unfold backfill_delivery. by case_match.
  - done.
  - unfold mark_read. by case_match.
  - unfold insert_bot_reply. repeat (case_match; simplify_eq/=; try done).
  - unfold purge_peer_dm. repeat (case_match; try done).
Qed.
Lemma run_ops_receipts_on ops st : pending_receipt (run_ops ops st) = pending_receipt st.
Proof.
  revert st; induction ops as [|o ops IH]; intros st; [done|].
  transitivity (pending_receipt (apply_op o.1.1 o.1.2 o.2 st)); [apply IH|apply apply_op_receipts_on].
Qed.

Lemma rowed_empty (g : G) on observer : rowed (inner (with_ack g on observer)).
Proof. intros app account tid id e He. cbn in He. by rewrite lookup_empty in He. Qed.
End rowed.
