(* ===== verification/Filter.v ===== *)
(** The talk content filters of services/chat/src/filter.rs. *)

From S2P Require Import Prelude Wire Pkt.
Open Scope Z_scope.
Open Scope kim_scope.

(** [haystack.contains(needle)]. *)
Fixpoint starts_with (needle s : string) : bool :=
  match needle, s with
  | EmptyString, _ => true
  | String a needle', String b s' => bool_decide (a = b) && starts_with needle' s'
  | String _ _, EmptyString => false
  end.
Fixpoint contains (s needle : string) : bool :=
  starts_with needle s || match s with EmptyString => false | String _ s' => contains s' needle end.

(** The implementations of the trait; [TextWordFilter] and [ImageFilter] hold the
    lists as their [new] keeps them. *)
Inductive ContentFilter : Type :=
| NoopFilter
| TextWordFilter (words : list string)
| ImageFilter (blocked : list string)
| FilterChain (filters : list ContentFilter).

Definition nonempty_words (words : list string) : list string :=
  List.filter (fun w => negb (str_is_empty w)) words.
Definition TextWordFilter_new (words : list string) : ContentFilter := TextWordFilter (nonempty_words words).
Definition ImageFilter_new (blocked : list string) : ContentFilter := ImageFilter (nonempty_words blocked).
Definition FilterChain_new : ContentFilter := FilterChain [].
Definition FilterChain_with (f chain : ContentFilter) : ContentFilter :=
  match chain with FilterChain fs => FilterChain (fs ++ [f]) | other => other end.

Fixpoint check (f : ContentFilter) (req : MessageReq) : result unit Status :=
  match f with
  | NoopFilter => Ok tt
  | TextWordFilter words =>
    if negb (mr_type req =? MESSAGE_TYPE_TEXT) then Ok tt
    else if existsb (contains (mr_body req)) words then Err ContentBlocked else Ok tt
  | ImageFilter blocked =>
    if negb (mr_type req =? MESSAGE_TYPE_IMAGE) then Ok tt
    else if existsb (fun w => contains (mr_body req) w || contains (mr_extra req) w) blocked
    then Err ContentBlocked else Ok tt
  | FilterChain fs =>
    (fix go fs := match fs with
      | [] => Ok tt
      | f :: fs => match check f req with Ok _ => go fs | Err e => Err e end
      end) fs
  end.

Definition builtin_talk_filter (text_words image_blocked : list string) : ContentFilter :=
  FilterChain_with (ImageFilter_new image_blocked)
    (FilterChain_with (TextWordFilter_new text_words) FilterChain_new).

(** ** Lemmas *)

Lemma starts_with_spec needle s : starts_with needle s = true <-> exists t, s = (needle ++ t)%string.
Proof.
  revert s; induction needle as [|a needle IH]; intros s; simpl; [split; [by exists s|done]|].
  destruct s as [|b s]; [split; [done|by intros [t ?]]|].
  rewrite andb_true_iff, bool_decide_eq_true, IH. split.
  - intros [-> [t ->]]. by exists t.
  - intros [t [= -> ->]]. split; [done|by exists t].
Qed.

Lemma contains_spec s needle :
  contains s needle = true <-> exists a b, s = (a ++ needle ++ b)%string.
Proof.
  induction s as [|c s IH]; simpl; rewrite orb_true_iff, starts_with_spec.
  - split.
    + intros [[t E]|?]; [|done]. by exists ""%string, t.
    + intros (a & b & E). left. destruct a; [by exists b|done].
  - rewrite IH. split.
    + intros [[t E]|(a & b & ->)]; [by exists ""%string, t|by exists (String c a), b].
    + intros ([|c' a] & b & E); [left; by exists b|]. injection E as -> ->. right. by exists a, b.
Qed.

Lemma existsb_nonempty (P : string -> bool) ws :
  existsb P (nonempty_words ws) = true <-> exists w, w ∈ ws /\ w <> ""%string /\ P w = true.
Proof.
  rewrite existsb_exists. unfold nonempty_words. setoid_rewrite filter_In.
  setoid_rewrite list_elem_of_In. unfold str_is_empty. setoid_rewrite negb_true_iff.
  setoid_rewrite bool_decide_eq_false. naive_solver.
Qed.

(** What the production filter lets through.  A talk is rejected, with
    [ContentBlocked], exactly when it is a text whose body has one of the
    configured words in it or an image whose body or extra has one of the denied
    pieces in it; empty entries of the lists block nothing and other message types
    always pass. *)
Theorem builtin_talk_filter_spec (words blocked : list string) (req : MessageReq) :
  let inside w s := exists a b, s = (a ++ w ++ b)%string in
  check (builtin_talk_filter words blocked) req <> Ok tt <->
  check (builtin_talk_filter words blocked) req = Err ContentBlocked /\
  ((mr_type req = MESSAGE_TYPE_TEXT /\ exists w, w ∈ words /\ w <> ""%string /\ inside w (mr_body req)) \/
   (mr_type req = MESSAGE_TYPE_IMAGE /\ exists w, w ∈ blocked /\ w <> ""%string /\
      (inside w (mr_body req) \/ inside w (mr_extra req)))).
Proof.
  intros inside. unfold builtin_talk_filter. cbn [FilterChain_with FilterChain_new app check].
  unfold TextWordFilter_new, ImageFilter_new. cbn [check].
  assert (HT : existsb (contains (mr_body req)) (nonempty_words words) = true <->
    exists w, w ∈ words /\ w <> ""%string /\ inside w (mr_body req)).
  { rewrite existsb_nonempty. by setoid_rewrite contains_spec. }
  assert (HI : existsb (fun w => contains (mr_body req) w || contains (mr_extra req) w)
      (nonempty_words blocked) = true <->
    exists w, w ∈ blocked /\ w <> ""%string /\ (inside w (mr_body req) \/ inside w (mr_extra req))).
  { rewrite existsb_nonempty. setoid_rewrite orb_true_iff. by setoid_rewrite contains_spec. }
  rewrite <- HT, <- HI. clear HT HI.
  destruct (Z.eqb_spec (mr_type req) MESSAGE_TYPE_TEXT) as [Et|Et];
    destruct (Z.eqb_spec (mr_type req) MESSAGE_TYPE_IMAGE) as [Ei|Ei];
    [rewrite Et in Ei; discriminate| | |]; cbn [negb];
    repeat match goal with |- context [existsb ?P ?l] => destruct (existsb P l) end;
    naive_solver.
Qed.

(** A filter rejects with one status only. *)
Lemma check_rejects : forall (f : ContentFilter) (req : MessageReq) (status : Status),
  check f req = Err status -> status = ContentBlocked.
Proof.
  fix IH 1. intros [|words|blocked|fs] req status; cbn [check].
  - done.
  - destruct (negb _); [done|]. destruct (existsb _ _); [by intros [= <-]|done].
  - destruct (negb _); [done|]. destruct (existsb _ _); [by intros [= <-]|done].
  - induction fs as [|f fs IHfs]; [done|]. destruct (check f req) as [[]|e] eqn:E; [exact IHfs|].
    intros [= <-]. exact (IH f req e E).
Qed.
