(* ===== verification/Social.v ===== *)
(** Friend requests, friendships and blocks: [MemorySocialDirectory] of
    services/chat/src/social.rs, and what its histories mean. *)

From S2P Require Import Prelude.
From stdpp Require Import gmap sets list strings.
Open Scope Z_scope.
Open Scope kim_scope.

(** ** Data *)

Inductive SocialError : Type :=
| SelfOp | SocialNotFound | SocialBlocked | SocialBotDenied | SocialBackend (msg : string).

Inductive FriendRequestOutcome : Type := Sent | AutoAccepted | AlreadyFriends.

Definition ordered_pair (a b : string) : string * string := if str_le a b then (a, b) else (b, a).

(** (app, from, to), (app, smaller, larger) and (app, account, blocked peer). *)
Abbreviation triple := (string * string * string)%type.

Record SocialInner := mkSocialInner {
  requests : gset triple;
  friends : gset triple;
  blocks : gset triple
}.
Definition SocialInner_default : SocialInner := mkSocialInner ∅ ∅ ∅.

Definition friend_key (app a b : string) : triple :=
  let '(x, y) := ordered_pair a b in (app, x, y).

Definition with_requests (r : gset triple) (s : SocialInner) : SocialInner := mkSocialInner r (friends s) (blocks s).
Definition with_friends (f : gset triple) (s : SocialInner) : SocialInner := mkSocialInner (requests s) f (blocks s).
Definition with_blocks (b : gset triple) (s : SocialInner) : SocialInner := mkSocialInner (requests s) (friends s) b.

(** ** Operations *)

(** The test every operation makes; [is_blocked_either] answers with it. *)
Definition blocked_pair (app a b : string) (s : SocialInner) : bool :=
  bool_decide ((app, a, b) ∈ blocks s) || bool_decide ((app, b, a) ∈ blocks s).
Definition is_blocked_either (app a b : string) (s : SocialInner) : result bool SocialError :=
  Ok (blocked_pair app a b s).

Definition friend_request (app from to : string) (s : SocialInner)
  : SocialInner * result FriendRequestOutcome SocialError :=
  if str_is_empty from || str_is_empty to || bool_decide (from = to) then (s, Err SelfOp)
  else if blocked_pair app from to s then (s, Err SocialBlocked)
  else if bool_decide (friend_key app from to ∈ friends s) then (s, Ok AlreadyFriends)
  else
    let reverse := (app, to, from) in
    if bool_decide (reverse ∈ requests s) then
      let s := with_requests (requests s ∖ {[reverse]} ∖ {[(app, from, to)]}) s in
      (with_friends ({[friend_key app from to]} ∪ friends s) s, Ok AutoAccepted)
    else (with_requests ({[(app, from, to)]} ∪ requests s) s, Ok Sent).

Definition friend_accept (app account from : string) (s : SocialInner)
  : SocialInner * result unit SocialError :=
  if bool_decide (account = from) then (s, Err SelfOp)
  else if blocked_pair app account from s then (s, Err SocialBlocked)
  else
    let pending := (app, from, account) in
    let removed := bool_decide (pending ∈ requests s) in
    let s := with_requests (requests s ∖ {[pending]}) s in
    if negb removed && negb (bool_decide (friend_key app account from ∈ friends s))
    then (s, Err SocialNotFound)
    else (with_friends ({[friend_key app account from]} ∪ friends s) s, Ok tt).

Definition friend_reject (app account from : string) (s : SocialInner)
  : SocialInner * result unit SocialError :=
  (with_requests (requests s ∖ {[(app, from, account)]}) s, Ok tt).

Definition friend_remove (app account peer : string) (s : SocialInner)
  : SocialInner * result unit SocialError :=
  (with_friends (friends s ∖ {[friend_key app account peer]}) s, Ok tt).

Definition list_friends (app account : string) (s : SocialInner) : result (list string) SocialError :=
  Ok (sort_by str_le
        ((fun t : triple => let '(_, a, b) := t in if decide (a = account) then b else a)
           <$> List.filter (fun t : triple => let '(row_app, a, b) := t in
                 bool_decide (row_app = app) && (bool_decide (a = account) || bool_decide (b = account)))
                 (elements (friends s)))).

Definition incoming (app account : string) (s : SocialInner) : result (list string) SocialError :=
  Ok (sort_by str_le
        ((fun t : triple => t.1.2)
           <$> List.filter (fun t : triple => bool_decide (t.1.1 = app) && bool_decide (t.2 = account))
                 (elements (requests s)))).

Definition is_friend (app a b : string) (s : SocialInner) : result bool SocialError :=
  if bool_decide (a = b) then Ok true else Ok (bool_decide (friend_key app a b ∈ friends s)).

Definition block (app account peer : string) (s : SocialInner) : SocialInner * result unit SocialError :=
  if bool_decide (account = peer) then (s, Err SelfOp)
  else
    let s := with_blocks ({[(app, account, peer)]} ∪ blocks s) s in
    let s := with_friends (friends s ∖ {[friend_key app account peer]}) s in
    (with_requests (requests s ∖ {[(app, account, peer)]} ∖ {[(app, peer, account)]}) s, Ok tt).

Definition unblock (app account peer : string) (s : SocialInner) : SocialInner * result unit SocialError :=
  (with_blocks (blocks s ∖ {[(app, account, peer)]}) s, Ok tt).

Definition list_blocked (app account : string) (s : SocialInner) : result (list string) SocialError :=
  Ok (sort_by str_le
        ((fun t : triple => t.2)
           <$> List.filter (fun t : triple => bool_decide (t.1.1 = app) && bool_decide (t.1.2 = account))
                 (elements (blocks s)))).

Definition ensure_friends (app a b : string) (s : SocialInner) : SocialInner * result unit SocialError :=
  if str_is_empty a || str_is_empty b || bool_decide (a = b) then (s, Err SelfOp)
  else (with_friends ({[friend_key app a b]} ∪ friends s) s, Ok tt).

(** ** Histories *)

Inductive SocialOp : Type :=
| SRequest (app from to : string)
| SAccept (app account from : string)
| SReject (app account from : string)
| SRemove (app account peer : string)
| SBlock (app account peer : string)
| SUnblock (app account peer : string)
| SEnsure (app a b : string).

Definition social_step (s : SocialInner) (op : SocialOp) : SocialInner :=
  match op with
  | SRequest app from to => (friend_request app from to s).1
  | SAccept app account from => (friend_accept app account from s).1
  | SReject app account from => (friend_reject app account from s).1
  | SRemove app account peer => (friend_remove app account peer s).1
  | SBlock app account peer => (block app account peer s).1
  | SUnblock app account peer => (unblock app account peer s).1
  | SEnsure app a b => (ensure_friends app a b s).1
  end.
Definition social_run (ops : list SocialOp) : SocialInner := foldl social_step SocialInner_default ops.

(** ** The contract: every two accounts have a relation of their own *)

(** The relation of [a] with [b], as [a] sees it. *)
Record Pair := mkPair {
  p_asked : bool;        (** [a] has a request open *)
  p_asks : bool;         (** [b] has a request open *)
  p_friends : bool;
  p_blocked : bool;      (** [a] blocked [b] *)
  p_blocks : bool        (** [b] blocked [a] *)
}.
#[export] Instance Pair_eq_dec : EqDecision Pair.
Proof. solve_decision. Defined.

Definition flip (p : Pair) : Pair :=
  mkPair (p_asks p) (p_asked p) (p_friends p) (p_blocks p) (p_blocked p).

(** What [a] can do. *)
Inductive Act : Type := Ask | Accept | Reject | Remove | Block | Unblock | Befriend.
#[export] Instance Act_eq_dec : EqDecision Act.
Proof. solve_decision. Defined.

Definition pair_act (act : Act) (p : Pair) : Pair :=
  let 'mkPair asked asks pals blocked blocks := p in
  match act with
  | Ask =>
    if blocked || blocks || pals then p
    else if asks then mkPair false false true blocked blocks
    else mkPair true asks pals blocked blocks
  | Accept =>
    if blocked || blocks then p else mkPair asked false (asks || pals) blocked blocks
  | Reject => mkPair asked false pals blocked blocks
  | Remove => mkPair asked asks false blocked blocks
  | Block => mkPair false false false true blocks
  | Unblock => mkPair asked asks pals false blocks
  | Befriend => mkPair asked asks true blocked blocks
  end.

(** Who does what to whom. *)
Definition op_act (op : SocialOp) : string * string * string * Act :=
  match op with
  | SRequest app a b => (app, a, b, Ask)
  | SAccept app a b => (app, a, b, Accept)
  | SReject app a b => (app, a, b, Reject)
  | SRemove app a b => (app, a, b, Remove)
  | SBlock app a b => (app, a, b, Block)
  | SUnblock app a b => (app, a, b, Unblock)
  | SEnsure app a b => (app, a, b, Befriend)
  end.

(** What an operation is to the pair [a], [b]: an act of [a], an act of [b], or nothing. *)
Definition act_of_a (app a b : string) (op : SocialOp) : option Act :=
  let '(app', x, y, act) := op_act op in
  if decide ((app', x, y) = (app, a, b)) then Some act else None.

Definition pair_step (app a b : string) (p : Pair) (op : SocialOp) : Pair :=
  match act_of_a app a b op, act_of_a app b a op with
  | Some act, _ => pair_act act p
  | None, Some act => flip (pair_act act (flip p))
  | None, None => p
  end.

(** What the directory holds of a pair. *)
Definition view (app a b : string) (s : SocialInner) : Pair :=
  mkPair (bool_decide ((app, a, b) ∈ requests s)) (bool_decide ((app, b, a) ∈ requests s))
    (bool_decide (friend_key app a b ∈ friends s))
    (bool_decide ((app, a, b) ∈ blocks s)) (bool_decide ((app, b, a) ∈ blocks s)).

(** ** Lemmas *)

Lemma ordered_pair_sym a b : ordered_pair a b = ordered_pair b a.
Proof.
  unfold ordered_pair. destruct (str_le a b) eqn:E1, (str_le b a) eqn:E2; try done.
  - by rewrite (str_le_antisym a b).
  - destruct (str_le_total a b); congruence.
Qed.
Lemma friend_key_sym app a b : friend_key app a b = friend_key app b a.
Proof. unfold friend_key. by rewrite ordered_pair_sym. Qed.
Lemma friend_key_inj app app' a b x y :
  friend_key app' x y = friend_key app a b ->
  app' = app /\ ((x = a /\ y = b) \/ (x = b /\ y = a)).
Proof.
  unfold friend_key, ordered_pair. destruct (str_le x y), (str_le a b); intros [= -> -> ->]; tauto.
Qed.
Lemma friend_key_iff app app' a b x y :
  friend_key app' x y = friend_key app a b <->
  app' = app /\ ((x = a /\ y = b) \/ (x = b /\ y = a)).
Proof.
  split; [apply friend_key_inj|]. intros (-> & [[-> ->]|[-> ->]]); [done|apply friend_key_sym].
Qed.

Lemma view_flip app a b s : view app b a s = flip (view app a b s).
Proof. unfold view, flip. simpl. by rewrite (friend_key_sym app b a). Qed.

Lemma op_act_run op s : social_step s op =
  let '(app, x, y, act) := op_act op in
  social_step s (match act with
    | Ask => SRequest app x y | Accept => SAccept app x y | Reject => SReject app x y
    | Remove => SRemove app x y | Block => SBlock app x y | Unblock => SUnblock app x y
    | Befriend => SEnsure app x y end).
Proof. by destruct op. Qed.

(** Membership tests after the set updates of the operations. *)
Lemma bool_decide_insert {A} `{Countable A} (x y : A) (X : gset A) :
  bool_decide (x ∈ {[y]} ∪ X) = bool_decide (x = y) || bool_decide (x ∈ X).
Proof. rewrite <- bool_decide_or. apply bool_decide_ext. set_solver. Qed.
Lemma bool_decide_delete {A} `{Countable A} (x y : A) (X : gset A) :
  bool_decide (x ∈ X ∖ {[y]}) = negb (bool_decide (x = y)) && bool_decide (x ∈ X).
Proof. rewrite <- bool_decide_not, <- bool_decide_and. apply bool_decide_ext. set_solver. Qed.

Section pairs.
Context (app a b : string) (Ha : a <> ""%string) (Hb : b <> ""%string) (Hab : a <> b).

Ltac bd := repeat (rewrite bool_decide_insert || rewrite bool_decide_delete).
Ltac bd_solve :=
  repeat match goal with
  | |- context [bool_decide (?P)] =>
    match P with _ = _ => first
      [ rewrite (bool_decide_eq_true_2 P) by (apply friend_key_iff || done; naive_solver)
      | rewrite (bool_decide_eq_false_2 P) by (rewrite ?friend_key_iff; naive_solver) ]
    end
  end; simpl; rewrite ?andb_false_r, ?andb_true_r, ?orb_false_r.

(** An operation of [a] on [b] is [a]'s act. *)
Lemma view_own (s : SocialInner) op act : op_act op = (app, a, b, act) ->
  view app a b (social_step s op) = pair_act act (view app a b s).
Proof.
  intros E. rewrite op_act_run, E.
  assert (Eab : bool_decide (a = b) = false) by by apply bool_decide_eq_false_2.
  assert (Ea : str_is_empty a = false) by by apply bool_decide_eq_false_2.
  assert (Eb : str_is_empty b = false) by by apply bool_decide_eq_false_2.
  destruct act; cbn [social_step];
    unfold friend_request, friend_accept, friend_reject, friend_remove, block, unblock, ensure_friends, blocked_pair;
    rewrite ?Eab, ?Ea, ?Eb; cbn [orb fst]; unfold view; cbn [pair_act].
  - destruct (bool_decide ((app, a, b) ∈ blocks s)) eqn:B1, (bool_decide ((app, b, a) ∈ blocks s)) eqn:B2;
      cbn [orb fst]; rewrite ?B1, ?B2; try done.
    destruct (bool_decide (friend_key app a b ∈ friends s)) eqn:F; cbn [fst]; rewrite ?F, ?B1, ?B2; [done|].
    destruct (bool_decide ((app, b, a) ∈ requests s)) eqn:R; cbn [fst requests friends blocks with_friends with_requests];
      bd; bd_solve; by rewrite ?R, ?F, ?B1, ?B2.
  - destruct (bool_decide ((app, a, b) ∈ blocks s)) eqn:B1, (bool_decide ((app, b, a) ∈ blocks s)) eqn:B2;
      cbn [orb fst]; rewrite ?B1, ?B2; try done.
    destruct (bool_decide ((app, b, a) ∈ requests s)) eqn:R;
      destruct (bool_decide (friend_key app a b ∈ friends (with_requests (requests s ∖ {[(app, b, a)]}) s))) eqn:F;
      cbn [negb andb fst requests friends blocks with_friends with_requests] in *;
      bd; bd_solve; by rewrite ?R, ?F, ?B1, ?B2.
  - cbn [requests friends blocks with_requests]. bd; by bd_solve.
  - cbn [requests friends blocks with_friends]. bd; by bd_solve.
  - cbn [requests friends blocks with_requests with_friends with_blocks]. bd; by bd_solve.
  - cbn [requests friends blocks with_blocks]. bd; by bd_solve.
  - cbn [requests friends blocks with_friends]. bd; by bd_solve.
Qed.

(** An operation on another pair leaves this one alone. *)
Lemma view_other (s : SocialInner) op app' x y act : op_act op = (app', x, y, act) ->
  (app', x, y) <> (app, a, b) -> (app', x, y) <> (app, b, a) ->
  view app a b (social_step s op) = view app a b s.
Proof.
  intros E N1 N2. rewrite op_act_run, E.
  assert (K : friend_key app a b <> friend_key app' x y).
  { rewrite friend_key_iff. naive_solver. }
  assert (F : bool_decide (friend_key app a b = friend_key app' x y) = false) by by apply bool_decide_eq_false_2.
  assert (F1 : bool_decide ((app, a, b) = (app', x, y)) = false) by (apply bool_decide_eq_false_2; congruence).
  assert (F2 : bool_decide ((app, b, a) = (app', x, y)) = false) by (apply bool_decide_eq_false_2; congruence).
  assert (F3 : bool_decide ((app, a, b) = (app', y, x)) = false) by (apply bool_decide_eq_false_2; congruence).
  assert (F4 : bool_decide ((app, b, a) = (app', y, x)) = false) by (apply bool_decide_eq_false_2; congruence).
  destruct act; cbn [social_step];
    unfold friend_request, friend_accept, friend_reject, friend_remove, block, unblock, ensure_friends;
    repeat match goal with |- context [if ?c then _ else _] => destruct c end;
    unfold view; cbn [fst requests friends blocks with_requests with_friends with_blocks];
    bd; rewrite ?F, ?F1, ?F2, ?F3, ?F4; reflexivity.
Qed.
End pairs.

(** (C22) Relations between accounts do not interfere.  Whatever the directory
    holds, an operation changes the relation of the one pair of accounts it names
    and of no other, and that relation changes exactly as the small machine
    [pair_act] says: a request to somebody who asked first makes friends, blocking
    ends friendship and requests both ways, and between accounts one of which
    blocked the other neither a request nor an acceptance does anything. *)
Theorem social_pairs (app a b : string) (s : SocialInner) (op : SocialOp)
  (Ha : a <> ""%string) (Hb : b <> ""%string) (Hab : a <> b) :
  view app a b (social_step s op) = pair_step app a b (view app a b s) op.
Proof.
  unfold pair_step, act_of_a. destruct (op_act op) as [[[app' x] y] act] eqn:E.
  case_decide as D1; [simplify_eq; by apply view_own|].
  case_decide as D2; [|by eapply view_other].
  simplify_eq. rewrite view_flip. rewrite (view_own app b a Hb Ha) with (act := act) by done.
  by rewrite view_flip.
Qed.

Lemma social_pairs_witness :
  let ops := [SRequest "kim" "alice" "bob"; SAccept "kim" "bob" "alice"; SBlock "kim" "bob" "alice"]%string in
  view "kim" "alice" "bob" (social_run ops) = mkPair false false false false true.
Proof.
  intros ops. unfold ops, social_run. cbn [foldl].
  rewrite !social_pairs by discriminate. vm_compute. reflexivity.
Defined.

(** ** Consent *)

(** [x] asked [y], and the request was neither turned down nor blocked since. *)
Definition asked_in (app x y : string) (ops : list SocialOp) : Prop :=
  exists before mid, ops = before ++ SRequest app x y :: mid /\
    forall o, o ∈ mid -> o <> SReject app y x /\ o <> SBlock app x y /\ o <> SBlock app y x.

(** One of the two asked, the other agreed while the request stood (by accepting it
    or asking back), and neither has removed or blocked the other since. *)
Definition agreed_in (app a b : string) (ops : list SocialOp) : Prop :=
  exists x y before o after, ((x, y) = (a, b) \/ (x, y) = (b, a)) /\
    ops = before ++ o :: after /\ asked_in app x y before /\
    (o = SAccept app y x \/ o = SRequest app y x) /\
    forall o', o' ∈ after ->
      o' <> SRemove app a b /\ o' <> SRemove app b a /\ o' <> SBlock app a b /\ o' <> SBlock app b a.

Section consent.
Context (app : string).

Record consensual (a b : string) (ops : list SocialOp) (p : Pair) : Prop := {
  c_asked : p_asked p = true -> asked_in app a b ops;
  c_asks : p_asks p = true -> asked_in app b a ops;
  c_friends : p_friends p = true -> agreed_in app a b ops;
  c_severed : p_blocked p || p_blocks p = true -> p_asked p = false /\ p_asks p = false /\ p_friends p = false;
  c_settled : p_friends p = true -> p_asked p = false /\ p_asks p = false;
  c_one : p_asked p && p_asks p = false
}.

Lemma agreed_sym a b ops : agreed_in app a b ops -> agreed_in app b a ops.
Proof.
  intros (x & y & before & o & after & Hxy & -> & Hb & Ho & Ha). exists x, y, before, o, after.
  split_and!; [tauto|done|done|done|]. intros o' Ho'. destruct (Ha _ Ho') as (?&?&?&?). done.
Qed.

Lemma consensual_flip a b ops p : consensual a b ops p -> consensual b a ops (flip p).
Proof.
  intros [H1 H2 H3 H4 H5 H6]. split; simpl; try done.
  - intros Hf. by apply agreed_sym, H3.
  - rewrite orb_comm. intros Hx. destruct (H4 Hx) as (?&?&?). done.
  - intros Hf. destruct (H5 Hf). done.
  - by rewrite andb_comm.
Qed.

Lemma asked_snoc x y ops o : asked_in app x y ops ->
  o <> SReject app y x -> o <> SBlock app x y -> o <> SBlock app y x -> asked_in app x y (ops ++ [o]).
Proof.
  intros (before & mid & -> & Hm) N1 N2 N3. exists before, (mid ++ [o]).
  split; [by rewrite <- app_assoc|]. intros o' [Ho| ->%list_elem_of_singleton]%elem_of_app; [by apply Hm|done].
Qed.
Lemma asked_now x y ops : asked_in app x y (ops ++ [SRequest app x y]).
Proof. exists ops, []. split; [done|]. intros o Ho. by apply not_elem_of_nil in Ho. Qed.

Lemma agreed_snoc a b ops o : agreed_in app a b ops ->
  o <> SRemove app a b -> o <> SRemove app b a -> o <> SBlock app a b -> o <> SBlock app b a ->
  agreed_in app a b (ops ++ [o]).
Proof.
  intros (x & y & before & o0 & after & Hxy & -> & Hb & Ho & Ha) N1 N2 N3 N4.
  exists x, y, before, o0, (after ++ [o]). split_and!; [done| |done|done|].
  - by rewrite <- app_assoc.
  - intros o' [Ho'| ->%list_elem_of_singleton]%elem_of_app; [by apply Ha|done].
Qed.
Lemma agreed_now a b ops o : asked_in app b a ops -> o = SAccept app a b \/ o = SRequest app a b ->
  agreed_in app a b (ops ++ [o]).
Proof.
  intros Hb Ho. exists b, a, ops, o, []. split_and!; [by right|done|done|done|].
  intros o' Ho'. by apply not_elem_of_nil in Ho'.
Qed.

Ltac kept := solve [first [apply asked_snoc | apply agreed_snoc]; [auto|congruence..]].

(** An operation that leaves the relation as it was keeps its reasons. *)
Lemma consensual_same a b ops p o : consensual a b ops p ->
  (forall x y, (x, y) = (a, b) \/ (x, y) = (b, a) ->
     o <> SReject app x y /\ o <> SBlock app x y /\ o <> SRemove app x y) ->
  consensual a b (ops ++ [o]) p.
Proof.
  intros [H1 H2 H3 H4 H5 H6] Ho. destruct (Ho a b) as (?&?&?), (Ho b a) as (?&?&?); auto.
  split; auto; intros; kept.
Qed.

Lemma consensual_own a b ops p o act : a <> b -> op_act o = (app, a, b, act) -> act <> Befriend ->
  consensual a b ops p -> consensual a b (ops ++ [o]) (pair_act act p).
Proof.
  intros Hab Eo Hne Hc. pose proof Hc as [H1 H2 H3 H4 H5 H6].
  assert (Eop : o = match act with
    | Ask => SRequest app a b | Accept => SAccept app a b | Reject => SReject app a b
    | Remove => SRemove app a b | Block => SBlock app a b | Unblock => SUnblock app a b
    | Befriend => SEnsure app a b end) by (destruct o; simpl in Eo; by simplify_eq).
  destruct p as [asked asks pals blocked blocks]. cbn [p_asked p_asks p_friends p_blocked p_blocks] in *.
  destruct act; try done; subst o; cbn [pair_act].
  - destruct (blocked || blocks || pals) eqn:E; [by apply consensual_same|].
    apply orb_false_iff in E as [E ->]. destruct asks.
    + split; cbn; try done; [intros _; apply agreed_now; auto|rewrite E; done].
    + split; cbn; try done; [intros _; apply asked_now|rewrite E; done].
  - destruct (blocked || blocks) eqn:E; [by apply consensual_same|].
    split; cbn; try done.
    + intros Hx. apply H1 in Hx. kept.
    + intros Hp. destruct asks; [apply agreed_now; auto|]. apply H3 in Hp. kept.
    + rewrite E. done.
    + intros Hp. split; [|done]. destruct asks; [by rewrite andb_true_r in H6|]. by apply H5.
    + by rewrite andb_false_r.
  - split; cbn; try done.
    + intros Hx. apply H1 in Hx. kept.
    + intros Hp. apply H3 in Hp. kept.
    + intros Hx. by destruct (H4 Hx) as (?&?&?).
    + intros Hx. by destruct (H5 Hx).
    + by rewrite andb_false_r.
  - split; cbn; try done.
    + intros Hx. apply H1 in Hx. kept.
    + intros Hx. apply H2 in Hx. kept.
    + intros Hx. by destruct (H4 Hx) as (?&?&?).
  - split; cbn; try done.
    + intros Hx. apply H1 in Hx. kept.
    + intros Hx. apply H2 in Hx. kept.
    + intros Hx. apply H3 in Hx. kept.
    + intros Hx. apply H4. by rewrite Hx, orb_true_r.
Qed.
End consent.

(** Friendship takes both.  In every history of the directory in which
    nobody makes these two friends by decree (only the creation of a bot does), two
    accounts are friends only if one of them asked, the other accepted or asked
    back while the request stood, and neither removed or blocked the other since;
    a request is open only if it was made and neither turned down nor blocked
    since.  Two accounts never ask each other at the same time, friends have no
    request open, and a block leaves neither friendship nor requests. *)
Theorem friendship_consent (app a b : string) (ops : list SocialOp)
  (Ha : a <> ""%string) (Hb : b <> ""%string) (Hab : a <> b)
  (Hdecree : SEnsure app a b ∉ ops /\ SEnsure app b a ∉ ops) :
  let s := social_run ops in
  (is_friend app a b s = Ok true -> agreed_in app a b ops) /\
  ((app, a, b) ∈ requests s -> asked_in app a b ops) /\
  ~ ((app, a, b) ∈ requests s /\ (app, b, a) ∈ requests s) /\
  (is_friend app a b s = Ok true -> (app, a, b) ∉ requests s) /\
  (is_blocked_either app a b s = Ok true -> is_friend app a b s = Ok false /\ (app, a, b) ∉ requests s).
Proof.
  intros s.
  assert (Hc : consensual app a b ops (view app a b s)).
  { unfold s, social_run. induction ops as [|o ops IH] using rev_ind.
    - split; vm_compute; intros; try done; by split_and!.
    - rewrite foldl_app. cbn [foldl]. rewrite social_pairs by done.
      destruct Hdecree as [D1 D2]. rewrite not_elem_of_app, list_elem_of_singleton in D1, D2.
      specialize (IH ltac:(tauto)). unfold pair_step, act_of_a.
      destruct (op_act o) as [[[app' x] y] act] eqn:E.
      assert (Hne : (app', x, y) = (app, a, b) \/ (app', x, y) = (app, b, a) -> act <> Befriend).
      { intros Hxy ->. destruct o; simpl in E; simplify_eq. destruct Hxy; simplify_eq; tauto. }
      case_decide as N1; [simplify_eq; eapply consensual_own; eauto|].
      case_decide as N2.
      + simplify_eq. apply consensual_flip in IH. apply consensual_flip.
        eapply consensual_own; eauto.
      + apply consensual_same; [done|]. intros x' y' Hxy.
        split_and!; intros ->; simpl in E; simplify_eq; naive_solver. }
  assert (Hf : is_friend app a b s = Ok (p_friends (view app a b s))).
  { unfold is_friend. by rewrite bool_decide_eq_false_2. }
  assert (Hbl : is_blocked_either app a b s = Ok (p_blocked (view app a b s) || p_blocks (view app a b s))) by done.
  rewrite Hf, Hbl. destruct Hc as [H1 H2 H3 H4 H5 H6].
  assert (Hr : forall x y, (app, x, y) ∈ requests s <-> bool_decide ((app, x, y) ∈ requests s) = true)
    by (intros; by rewrite bool_decide_eq_true).
  setoid_rewrite Hr. split_and!.
  - intros [= Hx]. by apply H3.
  - exact H1.
  - intros [Hx Hy]. cbn [view p_asked p_asks] in H6. by rewrite Hx, Hy in H6.
  - intros [= Hx]. destruct (H5 Hx) as [Hq _]. cbn [view p_asked] in Hq. by rewrite Hq.
  - intros [= Hx]. destruct (H4 Hx) as (Hq & _ & ->). split; [done|]. cbn [view p_asked] in Hq. by rewrite Hq.
Qed.

Lemma friendship_consent_witness :
  let ops := [SRequest "kim" "alice" "bob"; SRequest "kim" "bob" "alice"]%string in
  is_friend "kim" "alice" "bob" (social_run ops) = Ok true /\ agreed_in "kim" "alice" "bob" ops.
Proof.
  intros ops. assert (E : is_friend "kim" "alice" "bob" (social_run ops) = Ok true) by (vm_compute; reflexivity).
  split; [exact E|].
  refine (proj1 (friendship_consent "kim" "alice" "bob" ops _ _ _ _) E); try discriminate.
  split; unfold ops; rewrite !not_elem_of_cons; (split_and!; [discriminate..|apply not_elem_of_nil]).
Defined.

(** ** The lists *)

Definition friends_wf (s : SocialInner) : Prop :=
  forall app x y, (app, x, y) ∈ friends s -> friend_key app x y = (app, x, y) /\ x <> y.


Lemma friends_wf_insert app a b s : a <> b -> friends_wf s ->
  friends_wf (with_friends ({[friend_key app a b]} ∪ friends s) s).
Proof.
  intros Hab Hwf app' x y Hin. apply elem_of_union in Hin as [E%elem_of_singleton|Hin]; [|by apply Hwf].
  revert E. unfold friend_key, ordered_pair. destruct (str_le a b) eqn:E1; intros [= -> -> ->].
  - by rewrite E1.
  - split; [|done]. destruct (str_le_total a b) as [?|E2]; [congruence|]. by rewrite E2.
Qed.
Lemma friends_wf_same s s' : friends s' ⊆ friends s -> friends_wf s -> friends_wf s'.
Proof. intros Hs Hwf app x y Hin. apply Hwf. by apply Hs. Qed.

Lemma friends_wf_step s op : friends_wf s -> friends_wf (social_step s op).
Proof.
  intros Hwf.
  destruct op as [ap x y|ap x y|ap x y|ap x y|ap x y|ap x y|ap x y]; cbn [social_step];
    unfold friend_request, friend_accept, friend_reject, friend_remove, block, unblock, ensure_friends;
    repeat match goal with |- context [if ?c then _ else _] => destruct c eqn:? end;
    try (eapply friends_wf_same; [|exact Hwf]; cbn [fst friends with_friends with_requests with_blocks]; set_solver).
  all: apply friends_wf_insert; [intros ->|exact Hwf].
  all: match goal with H : context [bool_decide (?x = ?x)] |- _ =>
    rewrite (bool_decide_eq_true_2 (x = x)), ?orb_true_r in H by done; discriminate end.
Qed.

Lemma friends_wf_run ops : friends_wf (social_run ops).
Proof.
  unfold social_run. induction ops as [|o ops IH] using rev_ind.
  - intros app x y Hin. by apply elem_of_empty in Hin.
  - rewrite foldl_app. by apply friends_wf_step.
Qed.

Lemma sorted_image {A} (f : A -> string) (l : list A) :
  NoDup l -> (forall x y, x ∈ l -> y ∈ l -> f x = f y -> x = y) ->
  StronglySorted (fun a b => str_le a b = true) (sort_by str_le (f <$> l)) /\
  NoDup (sort_by str_le (f <$> l)) /\
  (forall s, s ∈ sort_by str_le (f <$> l) <-> exists x, s = f x /\ x ∈ l).
Proof.
  intros Hl Hf. split_and!.
  - apply sort_by_str_sorted.
  - apply NoDup_sort_by. clear -Hl Hf. induction Hl as [|x l Hx Hl IH]; [constructor|]. simpl. constructor.
    + intros (y & E & Hy)%list_elem_of_fmap. apply Hx. rewrite (Hf x y); [done|by left|by right|done].
    + apply IH. intros. apply Hf; [by right..|done].
  - intros s. by rewrite elem_of_sort_by, list_elem_of_fmap.
Qed.

(** [r] lists, sorted and once each, the accounts [P] holds of. *)
Definition shows (r : result (list string) SocialError) (P : string -> Prop) : Prop :=
  exists l, r = Ok l /\ StronglySorted (fun x y => str_le x y = true) l /\ NoDup l /\ (forall x, x ∈ l <-> P x).

Lemma NoDup_filter_elements (p : triple -> bool) (X : gset triple) : NoDup (List.filter p (elements X)).
Proof. apply NoDup_ListNoDup, List.NoDup_filter, NoDup_ListNoDup, NoDup_elements. Qed.

(** The friends of [a] are read off the ordered pairs [a] is in. *)
Lemma friends_shown app a s : friends_wf s ->
  shows (list_friends app a s) (fun x => x <> a /\ is_friend app a x s = Ok true).
Proof.
  intros Hwf. eexists. split; [reflexivity|].
  edestruct (sorted_image (fun t : triple => let '(_, x, y) := t in if decide (x = a) then y else x)) as (H1 & H2 & H3);
    [apply NoDup_filter_elements| |split; [exact H1|split; [exact H2|]]].
  - intros [[ap x] y] [[ap' x'] y'] [Hp Hi]%elem_of_list_filter_bool [Hp' Hi']%elem_of_list_filter_bool.
    apply andb_true_iff in Hp as [->%bool_decide_eq_true Hp], Hp' as [->%bool_decide_eq_true Hp'].
    rewrite orb_true_iff, !bool_decide_eq_true in Hp, Hp'. apply elem_of_elements, Hwf in Hi as [K Hi], Hi' as [K' Hi'].
    rewrite <- K, <- K'. repeat case_decide; intros; apply friend_key_iff; naive_solver.
  - intros x. rewrite H3. unfold is_friend. split.
    + intros ([[ap u] v] & -> & [Hp Hi]%elem_of_list_filter_bool).
      apply andb_true_iff in Hp as [->%bool_decide_eq_true Hp]. rewrite orb_true_iff, !bool_decide_eq_true in Hp.
      apply elem_of_elements in Hi. destruct (Hwf _ _ _ Hi) as [K Hne].
      case_decide as D; subst; (split; [naive_solver|]); rewrite bool_decide_eq_false_2 by naive_solver;
        rewrite bool_decide_eq_true_2; [done|by rewrite K|done|].
      destruct Hp as [?| ->]; [done|]. by rewrite friend_key_sym, K.
    + intros [Hne Hx]. rewrite bool_decide_eq_false_2 in Hx by auto. injection Hx as Hx%bool_decide_eq_true.
      destruct (friend_key app a x) as [[ap u] v] eqn:K. exists (ap, u, v).
      pose proof K as K'. destruct (Hwf _ _ _ Hx) as [K'' Huv]. rewrite <- K'' in K'.
      apply friend_key_inj in K' as (-> & Hor). split.
      { case_decide; naive_solver. }
      apply elem_of_list_filter_bool. split; [|by apply elem_of_elements].
      rewrite bool_decide_eq_true_2 by done. apply orb_true_iff. rewrite !bool_decide_eq_true. naive_solver.
Qed.

(** Requests and blocks are kept as ordered triples: [key] and [col] name the
    account the list is for and the accounts it shows. *)
Lemma triples_shown (key col : triple -> string) (mk : string -> triple) (app a : string) (X : gset triple) :
  (forall t, t.1.1 = app -> key t = a -> mk (col t) = t) -> (forall x, (mk x).1.1 = app /\ key (mk x) = a /\ col (mk x) = x) ->
  shows (Ok (sort_by str_le (col <$> List.filter (fun t => bool_decide (t.1.1 = app) && bool_decide (key t = a)) (elements X))))
    (fun x => mk x ∈ X).
Proof.
  intros Hmk Hcol. eexists. split; [reflexivity|].
  edestruct (sorted_image col) as (H1 & H2 & H3); [apply NoDup_filter_elements| |split; [exact H1|split; [exact H2|]]].
  - intros t t' [Hp _]%elem_of_list_filter_bool [Hp' _]%elem_of_list_filter_bool E.
    apply andb_true_iff in Hp as [Ha%bool_decide_eq_true Hk%bool_decide_eq_true].
    apply andb_true_iff in Hp' as [Ha'%bool_decide_eq_true Hk'%bool_decide_eq_true].
    by rewrite <- (Hmk t), <- (Hmk t'), E.
  - intros x. rewrite H3. split.
    + intros (t & -> & [Hp Ht]%elem_of_list_filter_bool).
      apply andb_true_iff in Hp as [Ha%bool_decide_eq_true Hk%bool_decide_eq_true]. rewrite Hmk by done. by apply elem_of_elements.
    + intros Hx. exists (mk x). destruct (Hcol x) as (Ha & Hk & Hc). split; [done|]. apply elem_of_list_filter_bool.
      split; [by rewrite !bool_decide_eq_true_2|by apply elem_of_elements].
Qed.

(** The lists a client is shown.  After any history, each list is sorted,
    names nobody twice, and names exactly: the accounts [is_friend] answers true
    for, other than the account itself; the accounts whose request to this account
    is open; the accounts this account blocked. *)
Theorem social_lists (app a : string) (ops : list SocialOp) :
  let s := social_run ops in
  shows (list_friends app a s) (fun x => x <> a /\ is_friend app a x s = Ok true) /\
  shows (incoming app a s) (fun x => (app, x, a) ∈ requests s) /\
  shows (list_blocked app a s) (fun x => (app, a, x) ∈ blocks s).
Proof.
  intros s. split_and!; [apply friends_shown, friends_wf_run|..].
  - apply (triples_shown (fun t => t.2) (fun t => t.1.2) (fun x => (app, x, a)) app a); [|done].
    intros [[? ?] ?]. naive_solver.
  - apply (triples_shown (fun t => t.1.2) (fun t => t.2) (fun x => (app, a, x)) app a); [|done].
    intros [[? ?] ?]. naive_solver.
Qed.
