(* ===== verification/Groups.v ===== *)
(** Groups and their members: [MemoryGroupDirectory] of services/chat/src/directory.rs. *)

From S2P Require Import Prelude Wire Pkt Location SessionStore Store.
From stdpp Require Import gmap sets list strings.
Open Scope Z_scope.
Open Scope kim_scope.

(** ** Data *)

Inductive GroupError : Type :=
| GroupId (e : IdError) | GroupNotFound | GroupBackend (msg : string).

Record CreateGroup := mkCreateGroup {
  cg_name : string;
  cg_avatar : string;
  cg_introduction : string;
  cg_owner : string;
  cg_members : list string
}.

Record GroupInfo := mkGroupInfo {
  gi_id : string;
  gi_name : string;
  gi_avatar : string;
  gi_introduction : string;
  gi_owner : string;
  gi_members : list string
}.

Record GroupSummary := mkGroupSummary {
  gs_id : string;
  gs_name : string;
  gs_avatar : string
}.

(** The record [Group]. *)
Record GroupRow := mkGroupRow {
  g_name : string;
  g_avatar : string;
  g_introduction : string;
  g_owner : string;
  g_members : list string
}.

Record MemoryGroupDirectory (G : Type) := mkGroupDirectory {
  gd_idgen : G;
  groups : gmap (string * string) GroupRow
}.
Arguments mkGroupDirectory {G}.
Arguments gd_idgen {G}.
Arguments groups {G}.

Definition with_groups {G : Type} (m : gmap (string * string) GroupRow) (d : MemoryGroupDirectory G)
  : MemoryGroupDirectory G := mkGroupDirectory (gd_idgen d) m.
Definition with_members (members : list string) (g : GroupRow) : GroupRow :=
  mkGroupRow (g_name g) (g_avatar g) (g_introduction g) (g_owner g) members.

(** ** Helpers *)

Definition normalize_members (owner : string) (members : list string) : list string :=
  let out := unique members in
  if negb (str_is_empty owner) && negb (bool_decide (owner ∈ members)) then owner :: out else out.

(** A digit of the alphabet 0..9, A..Z. *)
Definition base36_digit (d : Z) : u8 := u8_of_Z (if d <? 10 then 48 + d else 55 + d).

(** [while v > 0]: the digits, last first; a 64-bit number has at most 13. *)
Fixpoint base36_digits (fuel : nat) (v : Z) : bytes :=
  match fuel with
  | O => []
  | S fuel => if 0 <? v then base36_digit (v mod 36) :: base36_digits fuel (v / 36) else []
  end.
Definition base36_upper (n : Z) : string :=
  if n =? 0 then "0" else string_of_bytes (rev (base36_digits 13 (Z.abs n))).

(** ** Operations *)

Section directory.
Context {G : Type} `{IdGenerator G}.
Abbreviation dir := (MemoryGroupDirectory G).
Implicit Types d : dir.

Definition group_create (app : string) (req : CreateGroup) d : dir * result string GroupError :=
  match next_id (gd_idgen d) with
  | (g, Err e) => (mkGroupDirectory g (groups d), Err (GroupId e))
  | (g, Ok id) =>
    let group_id := base36_upper id in
    let group := mkGroupRow (cg_name req) (cg_avatar req) (cg_introduction req) (cg_owner req)
                   (normalize_members (cg_owner req) (cg_members req)) in
    (mkGroupDirectory g (<[(app, group_id) := group]> (groups d)), Ok group_id)
  end.

Definition group_members (app group_id : string) d : result (list string) GroupError :=
  match groups d !! (app, group_id) with
  | None => Err GroupNotFound
  | Some g => Ok (g_members g)
  end.

Definition group_join (app group_id account : string) d : dir * result unit GroupError :=
  if str_is_empty account then (d, Err (GroupBackend "empty account"))
  else match groups d !! (app, group_id) with
  | None => (d, Err GroupNotFound)
  | Some g =>
    (if bool_decide (account ∈ g_members g) then d
     else with_groups (<[(app, group_id) := with_members (g_members g ++ [account]) g]> (groups d)) d,
     Ok tt)
  end.

Definition group_quit (app group_id account : string) d : dir * result unit GroupError :=
  match groups d !! (app, group_id) with
  | None => (d, Err GroupNotFound)
  | Some g =>
    (with_groups
       (<[(app, group_id) :=
            with_members (List.filter (fun m => negb (bool_decide (m = account))) (g_members g)) g]> (groups d)) d,
     Ok tt)
  end.

Definition group_detail (app group_id : string) d : result GroupInfo GroupError :=
  match groups d !! (app, group_id) with
  | None => Err GroupNotFound
  | Some g =>
    Ok (mkGroupInfo group_id (g_name g) (g_avatar g) (g_introduction g) (g_owner g) (g_members g))
  end.

(** The default [summaries] of the trait: groups not found are left out. *)
Fixpoint group_summaries (app : string) (ids : list string) d : result (list GroupSummary) GroupError :=
  match ids with
  | [] => Ok []
  | id :: ids =>
    match group_detail app id d with
    | Ok g => let? out := group_summaries app ids d in Ok (mkGroupSummary (gi_id g) (gi_name g) (gi_avatar g) :: out)
    | Err GroupNotFound => group_summaries app ids d
    | Err e => Err e
    end
  end.
End directory.

(** ** Group ids *)

Definition base36_val (b : u8) : Z := let z := u8_to_Z b in if z <? 65 then z - 48 else z - 55.
Fixpoint base36_value (l : bytes) : Z :=
  match l with [] => 0 | b :: l => base36_val b + 36 * base36_value l end.

Lemma base36_val_digit d : 0 <= d < 36 -> base36_val (base36_digit d) = d.
Proof.
  intros Hd. unfold base36_val, base36_digit. rewrite u8_to_of_Z. destruct (d <? 10) eqn:E.
  - apply Z.ltb_lt in E. rewrite Z.mod_small by lia. rewrite (proj2 (Z.ltb_lt _ _)) by lia. lia.
  - apply Z.ltb_ge in E. rewrite Z.mod_small by lia. rewrite (proj2 (Z.ltb_ge _ _)) by lia. lia.
Qed.

Lemma base36_value_digits fuel v : 0 <= v < 36 ^ Z.of_nat fuel -> base36_value (base36_digits fuel v) = v.
Proof.
  revert v; induction fuel as [|fuel IH]; intros v Hv.
  - change (36 ^ Z.of_nat 0) with 1 in Hv. simpl. lia.
  - rewrite Nat2Z.inj_succ, Z.pow_succ_r in Hv by lia. cbn [base36_digits].
    destruct (Z.ltb_spec 0 v); [|simpl; lia]. cbn [base36_value].
    rewrite base36_val_digit by (apply Z.mod_pos_bound; lia). rewrite IH.
    + pose proof (Z.div_mod v 36). lia.
    + split; [apply Z.div_pos; lia|apply Z.div_lt_upper_bound; lia].
Qed.

Lemma base36_upper_inj n m : 0 <= n <= i64_max -> 0 <= m <= i64_max ->
  base36_upper n = base36_upper m -> n = m.
Proof.
  intros Hn Hm. unfold base36_upper.
  assert (V : forall k, 0 <= k <= i64_max -> base36_value (base36_digits 13 (Z.abs k)) = k).
  { intros k Hk. rewrite base36_value_digits; [lia|]. unfold i64_max in Hk. lia. }
  assert (Z0 : forall k, 0 < k <= i64_max -> "0"%string <> string_of_bytes (rev (base36_digits 13 (Z.abs k)))).
  { intros k Hk E. apply (f_equal (fun s => rev (bytes_of s))) in E.
    rewrite bytes_of_string_of, rev_involutive in E. apply (f_equal base36_value) in E.
    rewrite V in E by lia. vm_compute in E. lia. }
  destruct (Z.eqb_spec n 0), (Z.eqb_spec m 0); [lia| | |].
  - intros E. exfalso. apply (Z0 m); [lia|done].
  - intros E. exfalso. apply (Z0 n); [lia|done].
  - intros E. apply (f_equal (fun s => rev (bytes_of s))) in E. rewrite !bytes_of_string_of, !rev_involutive in E.
    apply (f_equal base36_value) in E. by rewrite !V in E.
Qed.

(** ** Histories *)

Inductive GroupOp : Type :=
| GCreate (app : string) (req : CreateGroup)
| GJoin (app group_id account : string)
| GQuit (app group_id account : string).

(** What an operation that succeeded did. *)
Inductive GroupEvent : Type :=
| Created (app group_id owner : string) (members : list string)
| Joined (app group_id account : string)
| Left (app group_id account : string).

Section histories.
Context {G : Type} `{IdGeneratorOk G}.
Abbreviation dir := (MemoryGroupDirectory G).
Implicit Types d : dir.

Definition group_op (op : GroupOp) d : dir * list GroupEvent :=
  match op with
  | GCreate app req =>
    match group_create app req d with
    | (d, Ok id) => (d, [Created app id (cg_owner req) (cg_members req)])
    | (d, Err _) => (d, [])
    end
  | GJoin app id account =>
    match group_join app id account d with (d, Ok _) => (d, [Joined app id account]) | (d, Err _) => (d, []) end
  | GQuit app id account =>
    match group_quit app id account d with (d, Ok _) => (d, [Left app id account]) | (d, Err _) => (d, []) end
  end.

Fixpoint group_run (ops : list GroupOp) d : dir * list GroupEvent :=
  match ops with
  | [] => (d, [])
  | op :: ops =>
    let '(d, ev) := group_op op d in
    let '(d, evs) := group_run ops d in (d, ev ++ evs)
  end.

(** [x] got in, with the creation or by joining, and did not leave since. *)
Definition got_in (app id x : string) (evs : list GroupEvent) : Prop :=
  exists before ev after, evs = before ++ ev :: after /\
    (ev = Joined app id x \/
     exists owner members, ev = Created app id owner members /\ (x ∈ members \/ (x = owner /\ owner <> ""%string))) /\
    Left app id x ∉ after.

Definition created_in (app id : string) (evs : list GroupEvent) : Prop :=
  exists owner members, Created app id owner members ∈ evs.

Record groups_wf (evs : list GroupEvent) d : Prop := {
  gw_ids : forall app id g, groups d !! (app, id) = Some g ->
    exists n, 0 <= n < id_bound (gd_idgen d) /\ n <= i64_max /\ id = base36_upper n;
  gw_created : forall app id, is_Some (groups d !! (app, id)) <-> created_in app id evs;
  gw_once : forall app id o m before after, evs = before ++ Created app id o m :: after -> ~ created_in app id before;
  gw_joined : forall app id x, Joined app id x ∈ evs -> created_in app id evs;
  gw_nodup : forall app id g, groups d !! (app, id) = Some g -> NoDup (g_members g);
  gw_members : forall app id g x, groups d !! (app, id) = Some g -> x ∈ g_members g <-> got_in app id x evs
}.

Lemma elem_of_normalize owner members x :
  x ∈ normalize_members owner members <-> x ∈ members \/ (x = owner /\ owner <> ""%string).
Proof.
  unfold normalize_members, str_is_empty. repeat case_bool_decide; simpl;
    rewrite ?elem_of_cons, elem_of_unique; naive_solver.
Qed.
Lemma NoDup_normalize owner members : NoDup (normalize_members owner members).
Proof.
  unfold normalize_members. destruct (negb _ && negb _) eqn:E; [|apply NoDup_unique].
  apply andb_true_iff in E as [_ E]. apply negb_true_iff, bool_decide_eq_false in E.
  constructor; [by rewrite elem_of_unique|apply NoDup_unique].
Qed.

Lemma got_in_snoc app id x evs ev : ev <> Left app id x -> got_in app id x evs -> got_in app id x (evs ++ [ev]).
Proof.
  intros Hne (before & e & after & -> & He & Hl). exists before, e, (after ++ [ev]). rewrite <- app_assoc.
  split_and!; [done|done|]. rewrite not_elem_of_app, list_elem_of_singleton. naive_solver.
Qed.
Lemma got_in_snoc_inv app id x evs ev : got_in app id x (evs ++ [ev]) ->
  (ev = Joined app id x \/ exists owner members, ev = Created app id owner members /\
     (x ∈ members \/ (x = owner /\ owner <> ""%string))) \/ (ev <> Left app id x /\ got_in app id x evs).
Proof.
  intros (before & e & after & E & He & Hl). destruct after as [|e' after _] using rev_ind.
  - apply app_inj_tail in E as [-> ->]. by left.
  - rewrite app_comm_cons, app_assoc in E. apply app_inj_tail in E as [-> ->]. right.
    rewrite not_elem_of_app, list_elem_of_singleton in Hl. split; [naive_solver|].
    exists before, e, after. split_and!; [done|done|tauto].
Qed.
Lemma got_in_now app id x evs ev :
  (ev = Joined app id x \/ exists owner members, ev = Created app id owner members /\
     (x ∈ members \/ (x = owner /\ owner <> ""%string))) -> got_in app id x (evs ++ [ev]).
Proof. intros He. exists evs, ev, []. split_and!; [done|done|apply not_elem_of_nil]. Qed.
Lemma got_in_created app id x evs d : groups_wf evs d -> got_in app id x evs -> created_in app id evs.
Proof.
  intros Hwf (b & e & a & -> & [->|(o & m & -> & _)] & _); [|exists o, m; apply elem_of_app; right; by left].
  apply (gw_joined _ _ Hwf) with x. apply elem_of_app. right. by left.
Qed.
Lemma created_in_snoc app id evs ev :
  created_in app id (evs ++ [ev]) <-> created_in app id evs \/ exists o m, ev = Created app id o m.
Proof. unfold created_in. setoid_rewrite elem_of_app. setoid_rewrite list_elem_of_singleton. naive_solver. Qed.

(** An event that creates or joins nothing new. *)
Lemma groups_wf_nil evs d d' : groups_wf evs d -> groups d' = groups d ->
  id_bound (gd_idgen d) <= id_bound (gd_idgen d') -> groups_wf (evs ++ []) d'.
Proof.
  intros [H1 H2 H3 H4 H5 H6] Hg Hb. rewrite app_nil_r. split; rewrite ?Hg; try done.
  intros app id g Hx. destruct (H1 _ _ _ Hx) as (n & ? & ? & ?). exists n. split_and!; [lia|lia|done|done].
Qed.

(** Members of one group change, by an event of that group. *)
Lemma groups_wf_update evs d app id g members ev :
  groups_wf evs d -> groups d !! (app, id) = Some g -> NoDup members ->
  (forall o m, ev <> Created app id o m) ->
  (forall app' id' o m, ev <> Created app' id' o m) ->
  (forall app' id' x, ev = Joined app' id' x -> (app', id') = (app, id)) ->
  (forall x, x ∈ members <-> got_in app id x (evs ++ [ev])) ->
  (forall app' id' x, (app', id') <> (app, id) -> got_in app' id' x (evs ++ [ev]) <-> got_in app' id' x evs) ->
  groups_wf (evs ++ [ev]) (with_groups (<[(app, id) := with_members members g]> (groups d)) d).
Proof.
  intros [H1 H2 H3 Hj H4 H5] Hg Hn Hc Hc' Hev Hm Ho.
  assert (HC : forall app' id', created_in app' id' (evs ++ [ev]) <-> created_in app' id' evs).
  { intros app' id'. rewrite created_in_snoc. naive_solver. }
  split; cbn [groups with_groups gd_idgen].
  - intros app' id' g' [[[= <- <-] <-]|[_ Hx]]%lookup_insert_Some; eauto.
  - intros app' id'. rewrite HC, <- H2. destruct (decide ((app', id') = (app, id))) as [[= -> ->]|D].
    + rewrite lookup_insert_eq, Hg. split; eauto.
    + by rewrite lookup_insert_ne.
  - intros app' id' o m before after E. destruct after as [|e after _] using rev_ind.
    + apply app_inj_tail in E as [-> E]. by apply Hc' in E.
    + rewrite app_comm_cons, app_assoc in E. apply app_inj_tail in E as [-> _]. by eapply H3.
  - intros app' id' x. rewrite HC, elem_of_app, list_elem_of_singleton. intros [Hx|Ex]; [by eapply Hj|].
    assert (E := Hev app' id' x (eq_sym Ex)). injection E as -> ->. apply H2. by eexists.
  - intros app' id' g' [[[= <- <-] <-]|[_ Hx]]%lookup_insert_Some; [done|eauto].
  - intros app' id' g' x [[[= <- <-] <-]|[Hne Hx]]%lookup_insert_Some; [apply Hm|].
    rewrite Ho by congruence. by apply H5.
Qed.

Lemma got_in_other app id x evs ev : ev <> Left app id x -> ev <> Joined app id x ->
  (forall o m, ev <> Created app id o m) -> got_in app id x (evs ++ [ev]) <-> got_in app id x evs.
Proof.
  intros N1 N2 N3. split; [|by apply got_in_snoc].
  intros [[->|(o & m & -> & _)]|[_ ?]]%got_in_snoc_inv; naive_solver.
Qed.

Lemma groups_wf_step evs op d : groups_wf evs d -> groups_wf (evs ++ (group_op op d).2) (group_op op d).1.
Proof.
  intros Hwf. pose proof Hwf as [H1 H2 H3 Hj H4 H5]. destruct op as [app req|app id account|app id account]; cbn [group_op].
  - unfold group_create. destruct (next_id (gd_idgen d)) as [gen [n|e]] eqn:E.
    2:{ apply next_id_err in E. by apply groups_wf_nil with d. }
    pose proof (next_id_i64 _ _ _ E) as [_ Hn]. apply next_id_ok in E. pose proof (id_bound_pos (gd_idgen d)).
    set (id := base36_upper n).
    assert (Hf : groups d !! (app, id) = None /\ forall app', groups d !! (app', id) = None).
    { assert (Hf : forall app', groups d !! (app', id) = None); [|by split].
      intros app'. destruct (groups d !! (app', id)) eqn:Eg; [|done]. exfalso.
      destruct (H1 _ _ _ Eg) as (m & ? & ? & Em). apply base36_upper_inj in Em; lia. }
    destruct Hf as [Hf Hf']. assert (Hnc : forall app', ~ created_in app' id evs).
    { intros app' Hc. apply H2 in Hc as [? Hc]. by rewrite Hf' in Hc. }
    set (ev := Created app id (cg_owner req) (cg_members req)).
    assert (HC : forall app' id', created_in app' id' (evs ++ [ev]) <-> created_in app' id' evs \/ (app', id') = (app, id)).
    { intros app' id'. rewrite created_in_snoc. unfold ev. naive_solver. }
    split; cbn [fst snd groups gd_idgen].
    + intros app' id' g' [[[= <- <-] _]|[_ Hx]]%lookup_insert_Some.
      * exists n. split_and!; [lia|lia|done|done].
      * destruct (H1 _ _ _ Hx) as (m & ? & ? & ?). exists m. split_and!; [lia|lia|done|done].
    + intros app' id'. rewrite HC, <- H2. destruct (decide ((app', id') = (app, id))) as [[= -> ->]|D].
      * rewrite lookup_insert_eq. split; eauto.
      * rewrite lookup_insert_ne by done. naive_solver.
    + intros app' id' o m before after Eb. destruct after as [|e after _] using rev_ind.
      * apply app_inj_tail in Eb as [<- [= -> -> _ _]]. apply Hnc.
      * rewrite app_comm_cons, app_assoc in Eb. apply app_inj_tail in Eb as [-> _]. by eapply H3.
    + intros app' id' x Hx. apply elem_of_app in Hx as [Hx|Hx%list_elem_of_singleton]; [|done].
      rewrite created_in_snoc. left. by eapply Hj.
    + intros app' id' g' [[_ <-]|[_ Hx]]%lookup_insert_Some; [apply NoDup_normalize|eauto].
    + intros app' id' g' x [[[= <- <-] <-]|[Hne Hx]]%lookup_insert_Some; cbn [g_members].
      * rewrite elem_of_normalize. split.
        -- intros Hx. apply got_in_now. right. by exists (cg_owner req), (cg_members req).
        -- intros [[?|(o & m & [= <- <-] & Hx)]|[_ Hg]]%got_in_snoc_inv; [done|done|].
           exfalso. eapply Hnc, got_in_created; eauto.
      * rewrite (H5 _ _ _ x Hx). unfold ev. symmetry. apply got_in_other; [done|done|]. intros o m [= <- <- _ _]. congruence.
  - unfold group_join. destruct (str_is_empty account) eqn:Ea; [by apply groups_wf_nil with d|].
    destruct (groups d !! (app, id)) as [g|] eqn:Eg; [|by apply groups_wf_nil with d].
    cbn [fst snd]. case_bool_decide as D.
    + assert (Hself : d = with_groups (<[(app, id) := with_members (g_members g) g]> (groups d)) d).
      { destruct d as [gen gs], g. unfold with_groups, with_members. simpl in *. by rewrite insert_id. }
      rewrite Hself at 1. eapply groups_wf_update; try done; [by eapply H4|naive_solver| |].
      * intros x. rewrite (H5 _ _ _ x Eg). split; [by apply got_in_snoc|].
        intros [[[= ->]|(o & m & ? & _)]|[_ ?]]%got_in_snoc_inv; [by rewrite <- (H5 _ _ _ _ Eg)|done|done].
      * intros app' id' x Hne. apply got_in_other; [done| |done]. intros [= <- <- <-]. congruence.
    + eapply groups_wf_update; try done; [|naive_solver| |].
      * apply NoDup_app. split_and!; [by eapply H4| |apply NoDup_singleton]. intros y Hy ->%list_elem_of_singleton. done.
      * intros x. rewrite elem_of_app, list_elem_of_singleton, (H5 _ _ _ x Eg). split.
        -- intros [Hx| ->]; [by apply got_in_snoc|]. apply got_in_now. by left.
        -- intros [[[= ->]|(o & m & ? & _)]|[_ ?]]%got_in_snoc_inv; [by right|done|by left].
      * intros app' id' x Hne. apply got_in_other; [done| |done]. intros [= <- <- <-]. congruence.
  - unfold group_quit. destruct (groups d !! (app, id)) as [g|] eqn:Eg; [|by apply groups_wf_nil with d].
    cbn [fst snd]. eapply groups_wf_update; try done.
    + apply NoDup_ListNoDup, List.NoDup_filter, NoDup_ListNoDup. by eapply H4.
    + intros x. rewrite elem_of_list_filter_bool, negb_true_iff, bool_decide_eq_false, (H5 _ _ _ x Eg). split.
      * intros [Hne Hx]. apply got_in_snoc; [congruence|done].
      * intros [[?|(o & m & ? & _)]|[Hne ?]]%got_in_snoc_inv; [done|done|]. split; [congruence|done].
    + intros app' id' x Hne. apply got_in_other; [|done|done]. intros [= <- <- <-]. congruence.
Qed.

Lemma groups_wf_run ops d evs : groups_wf evs d ->
  groups_wf (evs ++ (group_run ops d).2) (group_run ops d).1.
Proof.
  revert d evs; induction ops as [|op ops IH]; intros d evs Hwf; cbn [group_run]; [by rewrite app_nil_r|].
  apply (groups_wf_step _ op) in Hwf. destruct (group_op op d) as [d1 ev]. cbn [fst snd] in Hwf.
  specialize (IH _ _ Hwf). destruct (group_run ops d1) as [d2 evs2]. cbn [fst snd] in *. by rewrite app_assoc.
Qed.
End histories.

(** (C23) Who is in a group.  After any history of creations, joins and departures
    (failing ones included) a group exists exactly when its creation succeeded, no
    creation ever returned the id of a group that existed, and its member list
    names, once each, exactly those who came with the creation (its owner among
    them) or joined, and have not left since. *)
Theorem group_membership {G : Type} `{IdGeneratorOk G} (gen : G) (ops : list GroupOp) (app id : string) :
  let '(d, evs) := group_run ops (mkGroupDirectory gen ∅) in
  (group_members app id d = Err GroupNotFound <-> ~ created_in app id evs) /\
  (forall owner members before after, evs = before ++ Created app id owner members :: after ->
     ~ created_in app id before /\ ~ created_in app id after) /\
  (forall l, group_members app id d = Ok l -> NoDup l /\ forall x, x ∈ l <-> got_in app id x evs).
Proof.
  assert (H0' : groups_wf [] (mkGroupDirectory gen ∅)).
  { split; cbn [groups]; try (intros *; rewrite lookup_empty; done).
    - intros app' id'. rewrite lookup_empty. split; [by intros [? ?]|]. intros (o & m & Hin). by apply not_elem_of_nil in Hin.
    - intros app' id' o m before after E. by destruct before.
    - intros app' id' x Hx. by apply not_elem_of_nil in Hx. }
  pose proof (groups_wf_run ops _ _ H0') as Hwf. destruct (group_run ops _) as [d evs]. cbn [fst snd] in Hwf. change ([] ++ evs) with evs in Hwf.
  destruct Hwf as [H1 H2 H3 Hj H4 H5]. unfold group_members. split_and!.
  - rewrite <- H2. destruct (groups d !! (app, id)) eqn:E.
    + split; [done|]. intros Hn. exfalso. apply Hn. by eexists.
    + split; [|done]. by intros _ [? ?].
  - intros o m before after ->. split; [by eapply H3|]. intros (o' & m' & (a1 & a2 & ->)%list_elem_of_split).
    apply (H3 app id o' m' (before ++ Created app id o m :: a1) a2); [by rewrite <- app_assoc|].
    exists o, m. apply elem_of_app. right. by left.
  - intros l. destruct (groups d !! (app, id)) as [g|] eqn:E; [|done]. intros [= <-].
    split; [by eapply H4|]. intros x. by eapply H5.
Qed.
