(* ===== verification/Users.v ===== *)
(** Accounts, profiles and bots: [MemoryUserDirectory] of services/chat/src/users.rs. *)

From S2P Require Import Prelude Wire Pkt Location SessionStore Store Social Groups Filter.
From stdpp Require Import gmap sets list strings.
Open Scope Z_scope.
Open Scope kim_scope.

(** ** Data *)

Definition NICKNAME_MAX_CHARS : Z := 32.
Definition BIO_MAX_CHARS : Z := 160.
Definition AVATAR_MAX_CHARS : Z := 512.
Definition SEARCH_LIMIT : Z := 20.
Definition BOT_MAX_PER_OWNER : Z := 20.
Definition BOT_VISIBILITY_PRIVATE : string := "private".
Definition BOT_VISIBILITY_OWNER_CARD : string := "owner_card".
Definition BOT_VISIBILITY_PUBLIC : string := "public".
Definition BOT_MODEL_MAX_CHARS : Z := 256.
Definition BOT_THINKING_MAX_CHARS : Z := 32.
Definition BOT_CONTEXT_TOKENS_MAX : Z := 2000000.

Inductive UserError : Type :=
| UserConflict | UserMissing | InvalidProfile | Limit | NotOwner | UserBackend (msg : string).

Record BotConfig := mkBotConfig {
  bc_model : string;
  bc_thinking_effort : string;
  bc_context_tokens : option Z;
  bc_visibility : string
}.

Record CreateBot := mkCreateBot {
  cb_owner : string;
  cb_client_profile_id : string;
  cb_nickname : string;
  cb_avatar : string;
  cb_bio : string;
  cb_model : string;
  cb_thinking_effort : string;
  cb_context_tokens : option Z;
  cb_visibility : string
}.
Definition CreateBot_config (r : CreateBot) : BotConfig :=
  mkBotConfig (cb_model r) (cb_thinking_effort r) (cb_context_tokens r) (cb_visibility r).

Record ProfilePatch := mkProfilePatch { pp_nickname : string; pp_avatar : string; pp_bio : string }.

Record BotPatch := mkBotPatch {
  bp_nickname : string;
  bp_avatar : string;
  bp_bio : string;
  bp_model : string;
  bp_thinking_effort : string;
  bp_context_tokens : option Z;
  bp_visibility : string
}.
Definition BotPatch_config (p : BotPatch) : BotConfig :=
  mkBotConfig (bp_model p) (bp_thinking_effort p) (bp_context_tokens p) (bp_visibility p).
Definition profile_patch (p : BotPatch) : ProfilePatch :=
  mkProfilePatch (bp_nickname p) (bp_avatar p) (bp_bio p).

Record UserPresence := mkUserPresence {
  up_exists : bool;
  up_kind : Z;
  up_owner_account : string
}.

Record UserProfile := mkUserProfile {
  pf_account : string;
  pf_nickname : string;
  pf_avatar : string;
  pf_bio : string;
  pf_kind : Z
}.
Definition from_account (account : string) : UserProfile := mkUserProfile account account "" "" PROFILE_KIND_USER.
Definition is_bot (p : UserProfile) : bool := pf_kind p =? PROFILE_KIND_BOT.
Definition display_name (p : UserProfile) : string :=
  if str_is_empty (pf_nickname p) then pf_account p else pf_nickname p.

Record BotRecord := mkBotRecord { br_profile : UserProfile; br_config : BotConfig }.

Record UserRecord := mkUserRecord {
  u_password_hash : option string;
  u_nickname : string;
  u_avatar : string;
  u_bio : string;
  u_token_epoch : Z;
  u_kind : Z;
  u_owner_account : string;
  u_client_profile_id : string;
  u_bot_config : option BotConfig
}.

Definition human_record (account : string) (password_hash : option string) : UserRecord :=
  mkUserRecord password_hash account "" "" 0 PROFILE_KIND_USER "" "" None.

Definition with_hash (h : string) (r : UserRecord) : UserRecord :=
  mkUserRecord (Some h) (u_nickname r) (u_avatar r) (u_bio r) (u_token_epoch r) (u_kind r) (u_owner_account r)
    (u_client_profile_id r) (u_bot_config r).
Definition with_epoch (e : Z) (r : UserRecord) : UserRecord :=
  mkUserRecord (u_password_hash r) (u_nickname r) (u_avatar r) (u_bio r) e (u_kind r) (u_owner_account r)
    (u_client_profile_id r) (u_bot_config r).
Definition with_patch (p : ProfilePatch) (r : UserRecord) : UserRecord :=
  mkUserRecord (u_password_hash r) (pp_nickname p) (pp_avatar p) (pp_bio p) (u_token_epoch r) (u_kind r)
    (u_owner_account r) (u_client_profile_id r) (u_bot_config r).
Definition with_config (c : BotConfig) (r : UserRecord) : UserRecord :=
  mkUserRecord (u_password_hash r) (u_nickname r) (u_avatar r) (u_bio r) (u_token_epoch r) (u_kind r)
    (u_owner_account r) (u_client_profile_id r) (Some c).

Abbreviation UserRows := (gmap (string * string) UserRecord).

(** The social directory and the id generator are shared with the rest of the service. *)
Record MemoryUserDirectory (G : Type) := mkUserDirectory {
  rows : UserRows;
  ud_social : option SocialInner;
  ud_idgen : option G
}.
Arguments mkUserDirectory {G}.
Arguments rows {G}.
Arguments ud_social {G}.
Arguments ud_idgen {G}.

Definition with_rows {G : Type} (m : UserRows) (d : MemoryUserDirectory G) : MemoryUserDirectory G :=
  mkUserDirectory m (ud_social d) (ud_idgen d).

(** ** Helpers *)

(** [chars().count()]. *)
Definition chars_count (s : string) : Z := len (List.filter (fun b => negb (is_cont b)) (bytes_of s)).

Definition normalize_bot_config (raw : BotConfig) : result BotConfig UserError :=
  let v := str_trim (bc_visibility raw) in
  let? visibility :=
    if str_is_empty v || bool_decide (v = BOT_VISIBILITY_PRIVATE) then Ok BOT_VISIBILITY_PRIVATE
    else if bool_decide (v = BOT_VISIBILITY_OWNER_CARD) then Ok BOT_VISIBILITY_OWNER_CARD
    else if bool_decide (v = BOT_VISIBILITY_PUBLIC) then Ok BOT_VISIBILITY_PUBLIC
    else Err InvalidProfile in
  if (BOT_MODEL_MAX_CHARS <? chars_count (bc_model raw))
     || (BOT_THINKING_MAX_CHARS <? chars_count (bc_thinking_effort raw))
  then Err InvalidProfile
  else
    let? context_tokens :=
      match bc_context_tokens raw with
      | Some n => if n <=? 0 then Ok None
                  else if BOT_CONTEXT_TOKENS_MAX <? n then Err InvalidProfile else Ok (Some n)
      | None => Ok None
      end in
    Ok (mkBotConfig (str_trim (bc_model raw)) (str_trim (bc_thinking_effort raw)) context_tokens visibility).

Definition valid_client_profile_id (raw : string) : bool :=
  let n := len (bytes_of raw) in
  (1 <=? n) && (n <=? 64)
  && forallb (fun c => is_ascii_alphanumeric c || (u8_to_Z c =? 95) || (u8_to_Z c =? 45)) (bytes_of raw).

Definition presence_from_record (rec : UserRecord) : UserPresence :=
  mkUserPresence true (u_kind rec) (u_owner_account rec).

Definition kind_from_db (raw : string) : Z :=
  if bool_decide (raw = "bot"%string) then PROFILE_KIND_BOT else PROFILE_KIND_USER.

Definition record_to_profile (account : string) (rec : UserRecord) : UserProfile :=
  mkUserProfile account (if str_is_empty (u_nickname rec) then account else u_nickname rec)
    (u_avatar rec) (u_bio rec) (u_kind rec).

Definition validate_patch (patch : ProfilePatch) : result ProfilePatch UserError :=
  let nickname := str_trim (pp_nickname patch) in
  if str_is_empty nickname || (NICKNAME_MAX_CHARS <? chars_count nickname) then Err InvalidProfile
  else if AVATAR_MAX_CHARS <? chars_count (pp_avatar patch) then Err InvalidProfile
  else if BIO_MAX_CHARS <? chars_count (pp_bio patch) then Err InvalidProfile
  else Ok (mkProfilePatch nickname (str_trim (pp_avatar patch)) (str_trim (pp_bio patch))).

(** The texts of the errors a backend error carries. *)
Definition SocialError_text (e : SocialError) : string :=
  match e with
  | SelfOp => "self" | SocialNotFound => "not found" | SocialBlocked => "blocked"
  | SocialBotDenied => "bot social denied" | SocialBackend m => m
  end.
Definition IdError_text (e : IdError) : string :=
  match e with
  | Init m => "snowflake init: " +:+ m
  | Next m => "snowflake next: " +:+ m
  | Overflow => "snowflake id overflows i64"
  end.

(** ** Operations *)

Section directory.
Context {G : Type} `{IdGenerator G}.
(** The order a [HashMap] is iterated in: unspecified. *)
Context (iter : UserRows -> list ((string * string) * UserRecord)).
Abbreviation dir := (MemoryUserDirectory G).
Implicit Types d : dir.

Definition user_upsert (app account : string) d : dir * result unit UserError :=
  (with_rows (or_insert (app, account) (human_record account None) (rows d)) d, Ok tt).

Definition user_create (app account password_hash : string) d : dir * result unit UserError :=
  match rows d !! (app, account) with
  | Some _ => (d, Err UserConflict)
  | None => (with_rows (<[(app, account) := human_record account (Some password_hash)]> (rows d)) d, Ok tt)
  end.

Definition user_password_hash (app account : string) d : result (option string) UserError :=
  Ok (rows d !! (app, account) ≫= u_password_hash).

Definition user_exists (app account : string) d : result bool UserError :=
  Ok (bool_decide (is_Some (rows d !! (app, account)))).

Definition user_profile (app account : string) d : result (option UserProfile) UserError :=
  Ok (option_map (record_to_profile account) (rows d !! (app, account))).

(** [get_mut(key).ok_or(NotFound)?] and a change of the row. *)
Definition update_row {A} (app account : string) (f : UserRecord -> UserRecord) (answer : UserRecord -> A) d
  : dir * result A UserError :=
  match rows d !! (app, account) with
  | None => (d, Err UserMissing)
  | Some rec => (with_rows (<[(app, account) := f rec]> (rows d)) d, Ok (answer (f rec)))
  end.

Definition update_profile (app account : string) (patch : ProfilePatch) d : dir * result UserProfile UserError :=
  match validate_patch patch with
  | Err e => (d, Err e)
  | Ok patch => update_row app account (with_patch patch) (record_to_profile account) d
  end.

Definition user_profiles (app : string) (accounts : list string) d : result (list UserProfile) UserError :=
  Ok (omap (fun acc => option_map (record_to_profile acc) (rows d !! (app, acc))) accounts).

(** The scan of [search], until [cap] hits are found. *)
Fixpoint search_scan (app q q_lower : string) (exclude : list string) (cap : Z)
  (l : list ((string * string) * UserRecord)) (out : list UserProfile) : list UserProfile :=
  match l with
  | [] => out
  | ((row_app, account), rec) :: l =>
    if negb (bool_decide (row_app = app)) || (u_kind rec =? PROFILE_KIND_BOT) || bool_decide (account ∈ exclude)
    then search_scan app q q_lower exclude cap l out
    else
      let nick := if str_is_empty (u_nickname rec) then account else u_nickname rec in
      let acc_hit := bool_decide (str_to_ascii_lowercase account = str_to_ascii_lowercase q) in
      let nick_hit := starts_with q_lower (str_to_ascii_lowercase nick) in
      let out := if acc_hit || nick_hit then out ++ [record_to_profile account rec] else out in
      if cap <=? len out then out else search_scan app q q_lower exclude cap l out
  end.

Definition user_search (app query : string) (exclude : list string) (limit : Z) d
  : result (list UserProfile) UserError :=
  let q := str_trim query in
  if str_is_empty q then Ok []
  else
    let cap := if limit =? 0 then SEARCH_LIMIT else limit in
    let out := search_scan app q (str_to_ascii_lowercase q) exclude cap (iter (rows d)) [] in
    Ok (sort_by (fun a b => str_le (pf_account a) (pf_account b)) out).

Definition set_password (app account password_hash : string) d : dir * result unit UserError :=
  update_row app account (with_hash password_hash) (fun _ => tt) d.

Definition token_epoch (app account : string) d : result Z UserError :=
  Ok (default 0 (option_map u_token_epoch (rows d !! (app, account)))).

(** [saturating_add(1)] on a [u32]. *)
Definition next_epoch (r : UserRecord) : UserRecord := with_epoch (Z.min u32_max (u_token_epoch r + 1)) r.

Definition bump_token_epoch (app account : string) d : dir * result Z UserError :=
  update_row app account next_epoch u_token_epoch d.

Definition set_password_and_bump_epoch (app account password_hash : string) d : dir * result Z UserError :=
  update_row app account (fun r => next_epoch (with_hash password_hash r)) u_token_epoch d.

(** *** Bots *)

Definition lookup_user (app account : string) d : result (option UserPresence) UserError :=
  Ok (option_map presence_from_record (rows d !! (app, account))).

Definition bot_of (app owner client_profile_id : string) (x : (string * string) * UserRecord) : bool :=
  let '((row_app, account), rec) := x in
  bool_decide (row_app = app) && (u_kind rec =? PROFILE_KIND_BOT)
  && bool_decide (u_owner_account rec = owner) && bool_decide (u_client_profile_id rec = client_profile_id).
Definition find_bot_by_profile (m : UserRows) (app owner client_profile_id : string)
  : option (string * UserRecord) :=
  option_map (fun x : (string * string) * UserRecord => (x.1.2, x.2))
    (List.find (bot_of app owner client_profile_id) (iter m)).

Definition count_bots (app owner : string) d : result Z UserError :=
  let n := len (List.filter (fun x : (string * string) * UserRecord =>
    bool_decide (x.1.1 = app) && (u_kind x.2 =? PROFILE_KIND_BOT) && bool_decide (u_owner_account x.2 = owner))
    (iter (rows d))) in
  if u32_max <? n then Err (UserBackend "out of range integral type conversion attempted") else Ok n.

Definition bot_row (req : CreateBot) (config : BotConfig) (nickname avatar bio : string) : UserRecord :=
  mkUserRecord None nickname avatar bio 0 PROFILE_KIND_BOT (cb_owner req) (cb_client_profile_id req) (Some config).

(** The texts of a new bot. *)
Definition bot_texts (req : CreateBot) (account : string) : result (string * string * string) UserError :=
  let? nickname :=
    if str_is_empty (str_trim (cb_nickname req)) then Ok account
    else let? p := validate_patch (mkProfilePatch (cb_nickname req) (cb_avatar req) (cb_bio req)) in
         Ok (pp_nickname p) in
  let avatar := str_trim (cb_avatar req) in
  let bio := str_trim (cb_bio req) in
  if (AVATAR_MAX_CHARS <? chars_count avatar) || (BIO_MAX_CHARS <? chars_count bio)
  then Err InvalidProfile else Ok (nickname, avatar, bio).

(** [create_bot] takes its locks one after the other; what the others do in between is
    not its business.  A phase is what it does under one lock. *)
Inductive BotPhase : Type :=
| BotLook                                                    (* read: is there a bot of the profile? *)
| BotAdopt (account : string) (rec : UserRecord)             (* write: the new configuration *)
| BotCount                                                   (* read: how many has the owner? *)
| BotDraw                                                    (* the id generator *)
| BotInsert (account nickname avatar bio : string)           (* write: look again, then insert *)
| BotBefriend (account : string) (answer : BotRecord)        (* the social directory *)
| BotDone (r : result BotRecord UserError).

Definition bot_phase (app : string) (req : CreateBot) (config : BotConfig) (ph : BotPhase) d : dir * BotPhase :=
  match ph with
  | BotLook =>
    (d, match find_bot_by_profile (rows d) app (cb_owner req) (cb_client_profile_id req) with
        | Some (account, rec) => BotAdopt account rec
        | None => BotCount
        end)
  | BotAdopt account rec =>
    (match rows d !! (app, account) with
     | Some row => with_rows (<[(app, account) := with_config config row]> (rows d)) d
     | None => d
     end, BotBefriend account (mkBotRecord (record_to_profile account rec) config))
  | BotCount =>
    (d, match count_bots app (cb_owner req) d with
        | Err e => BotDone (Err e)
        | Ok count => if BOT_MAX_PER_OWNER <=? count then BotDone (Err Limit) else BotDraw
        end)
  | BotDraw =>
    match ud_idgen d with
    | None => (d, BotDone (Err (UserBackend "create_bot requires idgen")))
    | Some g =>
      let '(g, id) := next_id g in
      (mkUserDirectory (rows d) (ud_social d) (Some g),
       match id with
       | Err e => BotDone (Err (UserBackend (IdError_text e)))
       | Ok id =>
         let account := "b_" +:+ base36_upper id in
         match bot_texts req account with
         | Err e => BotDone (Err e)
         | Ok (nickname, avatar, bio) => BotInsert account nickname avatar bio
         end
       end)
    end
  | BotInsert account nickname avatar bio =>
    match find_bot_by_profile (rows d) app (cb_owner req) (cb_client_profile_id req) with
    | Some (existing, rec) => (d, BotAdopt existing rec)
    | None =>
      match rows d !! (app, account) with
      | Some _ => (d, BotDone (Err UserConflict))
      | None =>
        (with_rows (<[(app, account) := bot_row req config nickname avatar bio]> (rows d)) d,
         BotBefriend account (mkBotRecord (mkUserProfile account nickname avatar bio PROFILE_KIND_BOT) config))
      end
    end
  | BotBefriend account answer =>
    match ud_social d with
    | None => (d, BotDone (Err (UserBackend "create_bot requires social")))
    | Some s =>
      let '(s, r) := ensure_friends app (cb_owner req) account s in
      (mkUserDirectory (rows d) (Some s) (ud_idgen d),
       BotDone match r with Err e => Err (UserBackend (SocialError_text e)) | Ok _ => Ok answer end)
    end
  | BotDone r => (d, BotDone r)
  end.

(** What is checked before any lock; the configuration the bot gets. *)
Definition bot_request (req : CreateBot) d : result BotConfig UserError :=
  match ud_social d, ud_idgen d with
  | None, _ => Err (UserBackend "create_bot requires social")
  | Some _, None => Err (UserBackend "create_bot requires idgen")
  | Some _, Some _ =>
    if negb (valid_client_profile_id (cb_client_profile_id req)) then Err InvalidProfile
    else if str_is_empty (cb_owner req) then Err InvalidProfile
    else normalize_bot_config (CreateBot_config req)
  end.

Fixpoint bot_phases (n : nat) (app : string) (req : CreateBot) (config : BotConfig) (ph : BotPhase) d : dir * BotPhase :=
  match n with
  | O => (d, ph)
  | S n => let '(d, ph) := bot_phase app req config ph d in bot_phases n app req config ph d
  end.
(** A call nothing comes in between of: it takes six locks at most. *)
Definition create_bot (app : string) (req : CreateBot) d : dir * result BotRecord UserError :=
  match bot_request req d with
  | Err e => (d, Err e)
  | Ok config =>
    let '(d, ph) := bot_phases 6 app req config BotLook d in
    (d, match ph with BotDone r => r | _ => Err (UserBackend "") end)
  end.

(** The bot [account], if [owner] owns it. *)
Definition owned_bot (app owner account : string) d : result UserRecord UserError :=
  match rows d !! (app, account) with
  | None => Err UserMissing
  | Some rec =>
    if negb (u_kind rec =? PROFILE_KIND_BOT) then Err UserMissing
    else if negb (bool_decide (u_owner_account rec = owner)) then Err NotOwner
    else Ok rec
  end.

Definition update_bot (app owner account : string) (patch : BotPatch) d : dir * result BotRecord UserError :=
  match owned_bot app owner account d with
  | Err e => (d, Err e)
  | Ok _ =>
    match validate_patch (profile_patch patch) with
    | Err e => (d, Err e)
    | Ok p =>
      match normalize_bot_config (BotPatch_config patch) with
      | Err e => (d, Err e)
      | Ok config =>
        update_row app account (fun r => with_config config (with_patch p r))
          (fun r => mkBotRecord (record_to_profile account r) config) d
      end
    end
  end.

Definition bot_config (app owner account : string) d : result BotConfig UserError :=
  let? rec := owned_bot app owner account d in
  Ok (default (mkBotConfig "" "" None BOT_VISIBILITY_PRIVATE) (u_bot_config rec)).

Definition bot_owner (app account : string) d : result (option string) UserError :=
  let? p := lookup_user app account d in
  Ok (p ≫= fun p =>
    if (up_kind p =? PROFILE_KIND_BOT) && negb (str_is_empty (up_owner_account p))
    then Some (up_owner_account p) else None).

Definition delete_bot (app owner account : string) d : dir * result unit UserError :=
  match owned_bot app owner account d with
  | Err e => (d, Err e)
  | Ok _ =>
    (mkUserDirectory (delete (app, account) (rows d))
       (option_map (fun s => (friend_remove app owner account s).1) (ud_social d)) (ud_idgen d), Ok tt)
  end.
End directory.
