(* ===== verification/UsersSpec.v ===== *)
(** Correctness of the account directory: accounts and passwords are kept, bots stay
    within their owner's quota, profile texts stay within their limits. *)

From S2P Require Import Prelude Wire Pkt Location SessionStore Store StoreProps Social Groups Filter Users.
From stdpp Require Import gmap sets list strings.
Open Scope Z_scope.
Open Scope kim_scope.

(** ** Histories *)

Inductive UserOp : Type :=
| UUpsert (app account : string)
| UCreate (app account password_hash : string)
| UUpdateProfile (app account : string) (patch : ProfilePatch)
| USetPassword (app account password_hash : string)
| UBumpEpoch (app account : string)
| USetPasswordBump (app account password_hash : string)
| UCreateBot (app : string) (req : CreateBot)
| UUpdateBot (app owner account : string) (patch : BotPatch)
| UDeleteBot (app owner account : string).

(** ** Trimming never lengthens *)

Lemma strip_suffix f n l : (forall l l', f l = Some l' -> exists p, l = p ++ l') -> exists p, l = p ++ strip f n l.
Proof.
  intros Hf. revert l; induction n as [|n IH]; intros l; simpl; [by exists []|].
  destruct (f l) as [l'|] eqn:E; [|by exists []]. destruct (Hf _ _ E) as [p ->], (IH l') as [q Hq].
  exists (p ++ q). by rewrite <- app_assoc, <- Hq.
Qed.

Ltac peel := repeat match goal with |- context [match ?x with _ => _ end] => destruct x; try discriminate end.

Lemma ws_prefix_suffix l l' : ws_prefix l = Some l' -> exists p, l = p ++ l'.
Proof.
  unfold ws_prefix. destruct l as [|a [|b [|c l]]]; try done; peel; intros [= <-];
    first [by exists [a]|by exists [a; b]|by exists [a; b; c]].
Qed.
Lemma ws_suffix_suffix l l' : ws_suffix l = Some l' -> exists p, l = p ++ l'.
Proof.
  unfold ws_suffix. destruct l as [|a [|b [|c l]]]; try done; peel; intros [= <-];
    first [by exists [a]|by exists [a; b]|by exists [a; b; c]].
Qed.

Lemma chars_count_trim s : chars_count (str_trim s) <= chars_count s.
Proof.
  unfold chars_count, str_trim. rewrite bytes_of_string_of. unfold trim_end, trim_start.
  destruct (strip_suffix ws_prefix (length (bytes_of s)) (bytes_of s) ws_prefix_suffix) as [p Hp].
  set (l := strip ws_prefix _ _) in *. rewrite Hp at 1.
  destruct (strip_suffix ws_suffix (length l) (rev l) ws_suffix_suffix) as [q Hq].
  set (k := strip ws_suffix _ _) in *. apply (f_equal (@rev _)) in Hq. rewrite rev_involutive, rev_app_distr in Hq.
  rewrite Hq, !List.filter_app, !len_app. pose proof (len_nonneg (List.filter (fun b => negb (is_cont b)) p)).
  pose proof (len_nonneg (List.filter (fun b => negb (is_cont b)) (rev q))). lia.
Qed.

(** ** What an operation does to the rows *)

Definition same_identity (r r' : UserRecord) : Prop :=
  u_kind r' = u_kind r /\ u_owner_account r' = u_owner_account r /\ u_client_profile_id r' = u_client_profile_id r.

(** The limits of the profile texts: an account that was never named goes by its id. *)
Definition text_ok (account : string) (r : UserRecord) : Prop :=
  chars_count (u_avatar r) <= AVATAR_MAX_CHARS /\ chars_count (u_bio r) <= BIO_MAX_CHARS /\
  (u_nickname r = account \/ (u_nickname r <> ""%string /\ chars_count (u_nickname r) <= NICKNAME_MAX_CHARS)).
Definition same_texts (r r' : UserRecord) : Prop :=
  u_avatar r' = u_avatar r /\ u_bio r' = u_bio r /\ u_nickname r' = u_nickname r.

Definition is_bot_of (app owner : string) (x : (string * string) * UserRecord) : bool :=
  bool_decide (x.1.1 = app) && (u_kind x.2 =? PROFILE_KIND_BOT) && bool_decide (u_owner_account x.2 = owner).

Section users.
Context {G : Type} `{IdGenerator G}.
Context (iter : UserRows -> list ((string * string) * UserRecord)).
Context (iter_perm : forall m, iter m ≡ₚ map_to_list m).
Abbreviation dir := (MemoryUserDirectory G).
Implicit Types d : dir.

Definition user_step d (op : UserOp) : dir :=
  match op with
  | UUpsert app account => (user_upsert app account d).1
  | UCreate app account hash => (user_create app account hash d).1
  | UUpdateProfile app account patch => (update_profile app account patch d).1
  | USetPassword app account hash => (set_password app account hash d).1
  | UBumpEpoch app account => (bump_token_epoch app account d).1
  | USetPasswordBump app account hash => (set_password_and_bump_epoch app account hash d).1
  | UCreateBot app req => (create_bot iter app req d).1
  | UUpdateBot app owner account patch => (update_bot app owner account patch d).1
  | UDeleteBot app owner account => (delete_bot app owner account d).1
  end.
Definition user_run (ops : list UserOp) d : dir := foldl user_step d ops.

(** The bots of an owner. *)
Definition bots (app owner : string) (m : UserRows) : list ((string * string) * UserRecord) :=
  List.filter (is_bot_of app owner) (map_to_list m).

(** The five things an operation can do to the rows; [new] is the owner of a bot it adds. *)
Inductive row_change (m : UserRows) : option (string * string) -> UserRows -> Prop :=
| ch_same : row_change m None m
| ch_edit k r r' : m !! k = Some r -> same_identity r r' ->
    (same_texts r r' \/ text_ok k.2 r') -> row_change m None (<[k := r']> m)
| ch_human k hash : m !! k = None -> row_change m None (<[k := human_record k.2 hash]> m)
| ch_bot app account r : m !! (app, account) = None -> u_kind r = PROFILE_KIND_BOT -> text_ok account r ->
    (forall x, x ∈ bots app (u_owner_account r) m -> u_client_profile_id x.2 <> u_client_profile_id r) ->
    row_change m (Some (app, u_owner_account r)) (<[(app, account) := r]> m)
| ch_delete k r : m !! k = Some r -> u_kind r = PROFILE_KIND_BOT -> row_change m None (delete k m).
Definition changed (m m' : UserRows) : Prop := exists new, row_change m new m'.

Lemma update_row_change {A} app account f (answer : UserRecord -> A) d :
  (forall r, rows d !! (app, account) = Some r ->
     same_identity r (f r) /\ (same_texts r (f r) \/ text_ok account (f r))) ->
  row_change (rows d) None (rows (update_row app account f answer d).1).
Proof.
  intros Hf. unfold update_row. destruct (rows d !! (app, account)) as [r|] eqn:E; [|constructor].
  destruct (Hf r eq_refl). by eapply ch_edit.
Qed.

Lemma validate_patch_ok account patch p r : validate_patch patch = Ok p -> text_ok account (with_patch p r).
Proof.
  unfold validate_patch. destruct (_ || _) eqn:En; [done|].
  apply orb_false_iff in En as [En1%bool_decide_eq_false En2%Z.ltb_ge].
  destruct (Z.ltb_spec AVATAR_MAX_CHARS (chars_count (pp_avatar patch))); [done|].
  destruct (Z.ltb_spec BIO_MAX_CHARS (chars_count (pp_bio patch))); [done|]. intros [= <-].
  split_and!; simpl; [etransitivity; [apply chars_count_trim|done]..|]. by right.
Qed.

Lemma find_bot_Some m app owner pid account rec :
  find_bot_by_profile iter m app owner pid = Some (account, rec) ->
  m !! (app, account) = Some rec /\ u_kind rec = PROFILE_KIND_BOT /\ u_owner_account rec = owner /\
  u_client_profile_id rec = pid.
Proof.
  unfold find_bot_by_profile. destruct (List.find _ _) as [[[app' acc] r]|] eqn:E; [|done]. intros [= -> ->].
  apply List.find_some in E as [Hin E]. apply list_elem_of_In in Hin. rewrite iter_perm in Hin.
  apply elem_of_map_to_list in Hin. unfold bot_of in E.
  rewrite !andb_true_iff, !bool_decide_eq_true, Z.eqb_eq in E. naive_solver.
Qed.
Lemma find_bot_None m app owner pid : find_bot_by_profile iter m app owner pid = None ->
  forall x, x ∈ bots app owner m -> u_client_profile_id x.2 <> pid.
Proof.
  unfold find_bot_by_profile. destruct (List.find _ _) eqn:E; [done|]. intros _ [[app' acc] r] Hx Hp.
  apply elem_of_list_filter_bool in Hx as [Hb Hx]. rewrite <- iter_perm in Hx. apply list_elem_of_In in Hx.
  apply (List.find_none _ _ E) in Hx. unfold bot_of, is_bot_of in *. simpl in *.
  rewrite Hp, (bool_decide_eq_true_2 (pid = pid)), andb_true_r in Hx by done. congruence.
Qed.
Lemma count_bots_bots app owner d n : count_bots iter app owner d = Ok n -> n = len (bots app owner (rows d)).
Proof.
  unfold count_bots. destruct (_ <? _); [done|]. intros [= <-]. unfold bots, len. f_equal. apply Permutation_length.
  exact (filter_bool_Permutation (is_bot_of app owner) _ _ (iter_perm _)).
Qed.

Lemma bot_texts_ok req account n a b config : bot_texts req account = Ok (n, a, b) ->
  text_ok account (bot_row req config n a b).
Proof.
  unfold bot_texts. destruct (if str_is_empty _ then _ else _) as [n'|e] eqn:En; [|done]. simpl.
  destruct (Z.ltb_spec AVATAR_MAX_CHARS (chars_count (str_trim (cb_avatar req)))); [done|].
  destruct (Z.ltb_spec BIO_MAX_CHARS (chars_count (str_trim (cb_bio req)))); [done|]. intros [= <- <- <-].
  split_and!; [done..|]. simpl. destruct (str_is_empty _) in En; [injection En as <-; by left|].
  destruct (validate_patch _) as [p|e] eqn:Ep; [|done]. injection En as <-.
  by destruct (validate_patch_ok account _ _ (human_record "" None) Ep) as (_ & _ & ?).
Qed.

(** The texts a call inserts are those it checked. *)
Definition phase_ok (req : CreateBot) (ph : BotPhase) : Prop :=
  match ph with BotInsert account n a b => bot_texts req account = Ok (n, a, b) | _ => True end.
Definition adds (app : string) (req : CreateBot) (ph : BotPhase) : option (string * string) :=
  match ph with BotInsert _ _ _ _ => Some (app, cb_owner req) | _ => None end.

Lemma bot_phase_change app req config ph d d' ph' :
  bot_phase iter app req config ph d = (d', ph') -> phase_ok req ph ->
  phase_ok req ph' /\ (row_change (rows d) None (rows d') \/ row_change (rows d) (adds app req ph) (rows d')).
Proof.
  intros E Ho. destruct ph as [|account rec| | |account n a b|account answer|r]; cbn [bot_phase] in E.
  - injection E as <- <-. split; [by destruct (find_bot_by_profile _ _ _ _ _) as [[]|]|left; constructor].
  - injection E as <- <-. split; [done|left]. destruct (rows d !! (app, account)) as [row|] eqn:Er; [|constructor].
    eapply ch_edit; [exact Er|done|by left].
  - injection E as <- <-. split; [|left; constructor]. destruct (count_bots _ _ _ _); [|done]. by destruct (_ <=? _).
  - destruct (ud_idgen d) as [g|]; [|injection E as <- <-; split; [done|left; constructor]].
    destruct (next_id g) as [g' [id|e]]; injection E as <- <-; (split; [|left; constructor]); [|done].
    by destruct (bot_texts req _) as [[[n a] b]|e] eqn:Et.
  - destruct (find_bot_by_profile _ _ _ _ _) as [[ex rec]|] eqn:Ef; [injection E as <- <-; split; [done|left; constructor]|].
    destruct (rows d !! (app, account)) eqn:Er; injection E as <- <-; (split; [done|]); [left; constructor|right].
    apply (ch_bot (rows d) app account (bot_row req config n a b)); [exact Er|done|by eapply bot_texts_ok|by apply find_bot_None].
  - destruct (ud_social d) as [s|]; [|injection E as <- <-; split; [done|left; constructor]].
    destruct (ensure_friends app (cb_owner req) account s) as [s' r]. injection E as <- <-. split; [done|left; constructor].
  - injection E as <- <-. split; [done|left; constructor].
Qed.

(** Locks a phase is away from the end, at most: every phase comes one nearer. *)
Definition phases_left (ph : BotPhase) : nat :=
  match ph with
  | BotLook => 6 | BotCount => 5 | BotDraw => 4 | BotInsert _ _ _ _ => 3 | BotAdopt _ _ => 2 | BotBefriend _ _ => 1
  | BotDone _ => 0
  end%nat.
Lemma bot_phase_left app req config ph d :
  (phases_left (bot_phase iter app req config ph d).2 <= Nat.pred (phases_left ph))%nat.
Proof. destruct ph; simpl; repeat (case_match; simplify_eq/=); lia. Qed.
(** A call of [create_bot] that nothing comes in between of ends. *)
Lemma bot_phases_end n app req config ph d : (phases_left ph <= n)%nat ->
  exists r, (bot_phases iter n app req config ph d).2 = BotDone r.
Proof.
  revert ph d; induction n as [|n IH]; intros ph d Hn; cbn [bot_phases].
  - destruct ph; simpl in Hn; try lia. by eexists.
  - pose proof (bot_phase_left app req config ph d) as Hl. destruct (bot_phase _ _ _ _ ph d) as [d' ph'].
    apply IH. cbn in Hl. lia.
Qed.

Lemma bot_phases_change n app req config ph d : phase_ok req ph ->
  rtc changed (rows d) (rows (bot_phases iter n app req config ph d).1).
Proof.
  revert ph d. induction n as [|n IH]; intros ph d Ho; [constructor|]. cbn [bot_phases].
  destruct (bot_phase iter app req config ph d) as [d1 ph1] eqn:E.
  destruct (bot_phase_change _ _ _ _ _ _ _ E Ho) as [Ho1 Hc]. eapply rtc_l; [|by apply IH].
  destruct Hc; by eexists.
Qed.

Lemma create_bot_change app req d : rtc changed (rows d) (rows (create_bot iter app req d).1).
Proof.
  unfold create_bot. destruct (bot_request req d) as [config|e]; [|constructor].
  pose proof (bot_phases_change 6 app req config BotLook d I) as Hc. by destruct (bot_phases _ _ _ _ _ _ d) as [d' ph].
Qed.

Lemma owned_bot_Ok app owner account d r : owned_bot app owner account d = Ok r ->
  rows d !! (app, account) = Some r /\ u_kind r = PROFILE_KIND_BOT.
Proof.
  unfold owned_bot. destruct (rows d !! _) as [r0|]; [|done].
  destruct (Z.eqb_spec (u_kind r0) PROFILE_KIND_BOT); [|done]. simpl. by destruct (negb _); [|intros [= ->]].
Qed.

Definition creates (op : UserOp) : bool := match op with UCreateBot _ _ => true | _ => false end.
Lemma user_edit_change d op : creates op = false -> row_change (rows d) None (rows (user_step d op)).
Proof.
  intros Hc. destruct op as [app acc|app acc h|app acc p|app acc h|app acc|app acc h|app req|app owner acc p|app owner acc];
    cbn [user_step]; try done.
  - unfold user_upsert, or_insert. cbn [fst rows with_rows].
    destruct (rows d !! (app, acc)) eqn:E; [constructor|]. by apply (ch_human (rows d) (app, acc)).
  - unfold user_create. destruct (rows d !! (app, acc)) eqn:E; [constructor|]. by apply (ch_human (rows d) (app, acc)).
  - unfold update_profile. destruct (validate_patch p) as [p'|e] eqn:E; [|constructor].
    apply update_row_change. intros r _. split; [done|]. right. by eapply validate_patch_ok.
  - apply update_row_change. intros r _. split; [done|by left].
  - apply update_row_change. intros r _. split; [done|by left].
  - apply update_row_change. intros r _. split; [done|by left].
  - unfold update_bot. destruct (owned_bot _ _ _ _); [|constructor].
    destruct (validate_patch _) as [p'|e] eqn:E; [|constructor]. destruct (normalize_bot_config _); [|constructor].
    apply update_row_change. intros r _. split; [done|]. right. by apply (validate_patch_ok _ _ _ r E).
  - unfold delete_bot. destruct (owned_bot _ _ _ _) as [r|] eqn:E; [|constructor].
    apply owned_bot_Ok in E as [E Ek]. by eapply ch_delete.
Qed.

Lemma user_step_change d op : rtc changed (rows d) (rows (user_step d op)).
Proof.
  destruct (creates op) eqn:E; [|apply rtc_once; eexists; by apply user_edit_change].
  destruct op; try done. apply create_bot_change.
Qed.

(** ** The quota of bots *)

Lemma bots_insert app owner m k r : m !! k = None ->
  bots app owner (<[k := r]> m) ≡ₚ (if is_bot_of app owner (k, r) then [(k, r)] else []) ++ bots app owner m.
Proof. intros E. unfold bots. rewrite map_to_list_insert by done. simpl. by destruct (is_bot_of _ _ _). Qed.
Lemma bots_split app owner m k r : m !! k = Some r ->
  bots app owner m ≡ₚ (if is_bot_of app owner (k, r) then [(k, r)] else []) ++ bots app owner (delete k m).
Proof.
  intros E. rewrite <- (insert_delete_id m k r E) at 1. apply bots_insert. apply lookup_delete_eq.
Qed.

(** How many bots an owner has, and that no two of them are for one profile of the client. *)
Definition bots_ok (m : UserRows) : Prop := forall app owner,
  NoDup ((fun x : (string * string) * UserRecord => u_client_profile_id x.2) <$> bots app owner m).

Lemma bots_change m new m' app owner : row_change m new m' ->
  len (bots app owner m') <= len (bots app owner m) + (if bool_decide (new = Some (app, owner)) then 1 else 0) /\
  (bots_ok m -> NoDup ((fun x : (string * string) * UserRecord => u_client_profile_id x.2) <$> bots app owner m')).
Proof.
  intros Hc. pose proof (fun Hok : bots_ok m => Hok app owner) as Hn.
  destruct Hc as [|k r r' E (I1 & I2 & I3) _|k h E|app' acc r E Ek _ Hp|k r E Ek].
  - rewrite bool_decide_eq_false_2 by done. split; [lia|done].
  - rewrite bool_decide_eq_false_2 by done. assert (Ep : bots app owner (<[k := r']> m) ≡ₚ
      (if is_bot_of app owner (k, r) then [(k, r')] else []) ++ bots app owner (delete k m)).
    { rewrite <- insert_delete_eq, bots_insert by apply lookup_delete_eq. unfold is_bot_of. simpl. by rewrite I1, I2. }
    rewrite (bots_split _ _ _ _ _ E) in Hn |- *. rewrite Ep.
    destruct (is_bot_of app owner (k, r)); simpl in *; rewrite ?I3, ?len_cons; (split; [lia|exact Hn]).
  - rewrite bool_decide_eq_false_2 by done. rewrite bots_insert by done. unfold is_bot_of. simpl. rewrite andb_false_r.
    split; [simpl; lia|done].
  - rewrite bots_insert by done. unfold is_bot_of. simpl. rewrite Ek, Z.eqb_refl, andb_true_r.
    destruct (bool_decide (app' = app) && bool_decide (u_owner_account r = owner)) eqn:Eb.
    + rewrite andb_true_iff, !bool_decide_eq_true in Eb. destruct Eb as [<- <-]. rewrite bool_decide_eq_true_2 by done.
      cbn [app]. rewrite len_cons. split; [lia|]. intros Hok. simpl. constructor; [|by apply Hn].
      intros (x & Ex & Hx)%list_elem_of_fmap. by apply (Hp x).
    + rewrite bool_decide_eq_false_2; [split; [simpl; lia|done]|]. intros [= E1 E2].
      by rewrite E1, E2, !bool_decide_eq_true_2 in Eb.
  - rewrite bool_decide_eq_false_2 by done. rewrite (bots_split _ _ _ _ _ E) in Hn |- *.
    destruct (is_bot_of app owner (k, r)); simpl in *; rewrite ?len_cons; (split; [lia|]); [|done].
    intros Hok. specialize (Hn Hok). by inversion Hn.
Qed.
Lemma bots_ok_change m m' : changed m m' -> bots_ok m -> bots_ok m'.
Proof. intros [new Hc] Hok app owner. exact (proj2 (bots_change m new m' app owner Hc) Hok). Qed.

Lemma changed_ind (P : UserRows -> Prop) m m' :
  (forall m m', changed m m' -> P m -> P m') -> rtc changed m m' -> P m -> P m'.
Proof. intros Hs Hc. induction Hc as [m|m1 m2 m3 H1 _ IH]; [done|]. intros HP. apply IH. by eapply Hs. Qed.
Lemma user_run_ind (P : UserRows -> Prop) ops d :
  P (rows d) -> (forall m m', changed m m' -> P m -> P m') -> P (rows (user_run ops d)).
Proof.
  intros H0 Hs. unfold user_run. induction ops as [|op ops IH] using rev_ind; [done|].
  rewrite foldl_app. cbn [foldl]. eapply changed_ind; [exact Hs|apply user_step_change|exact IH].
Qed.

Lemma bots_empty app owner : bots app owner ∅ = [].
Proof. unfold bots. by rewrite map_to_list_empty. Qed.

Lemma bots_unique m app owner a1 a2 r1 r2 : bots_ok m ->
  m !! (app, a1) = Some r1 -> m !! (app, a2) = Some r2 ->
  u_kind r1 = PROFILE_KIND_BOT -> u_kind r2 = PROFILE_KIND_BOT ->
  u_owner_account r1 = owner -> u_owner_account r2 = owner ->
  u_client_profile_id r1 = u_client_profile_id r2 -> a1 = a2.
Proof.
  intros Hok E1 E2 K1 K2 O1 O2 Ep. pose proof (Hok app owner) as Hn.
  assert (I : forall a r, m !! (app, a) = Some r -> u_kind r = PROFILE_KIND_BOT -> u_owner_account r = owner ->
    ((app, a), r) ∈ bots app owner m).
  { intros a r E K O. apply elem_of_list_filter_bool. split; [|by apply elem_of_map_to_list].
    unfold is_bot_of. simpl. by rewrite K, O, !bool_decide_eq_true_2. }
  pose proof (I _ _ E1 K1 O1) as [i Hi]%list_elem_of_lookup. pose proof (I _ _ E2 K2 O2) as [j Hj]%list_elem_of_lookup.
  assert (i = j) as <-.
  { eapply (NoDup_lookup _ _ _ _ Hn); rewrite list_lookup_fmap; [rewrite Hi|rewrite Hj]; simpl; [done|]. by rewrite Ep. }
  congruence.
Qed.
End users.

(** ** Calls that overlap *)

(** A call of [create_bot] between two of its locks. *)
Record Creating := mkCreating { cr_app : string; cr_req : CreateBot; cr_config : BotConfig; cr_phase : BotPhase }.
Definition with_phase (ph : BotPhase) (c : Creating) : Creating := mkCreating (cr_app c) (cr_req c) (cr_config c) ph.
(** It found a place for its bot and has not taken it. *)
Definition counted (app owner : string) (c : Creating) : bool :=
  bool_decide (cr_app c = app) && bool_decide (cb_owner (cr_req c) = owner) &&
  match cr_phase c with BotDraw | BotInsert _ _ _ _ => true | _ => false end.

Section overlap.
Context {G : Type} `{IdGenerator G}.
Context (iter : UserRows -> list ((string * string) * UserRecord)).
Context (iter_perm : forall m, iter m ≡ₚ map_to_list m).
Abbreviation world := (MemoryUserDirectory G * list Creating)%type.

(** The directory and the calls under way: another operation, a call that begins, a call
    that takes its next lock, a call that ends or is dropped. *)
Inductive dir_step : world -> world -> Prop :=
| step_op d l op : creates op = false -> dir_step (d, l) (user_step iter d op, l)
| step_begin d l app req config : bot_request req d = Ok config ->
    dir_step (d, l) (d, mkCreating app req config BotLook :: l)
| step_phase d l1 c l2 d' ph : bot_phase iter (cr_app c) (cr_req c) (cr_config c) (cr_phase c) d = (d', ph) ->
    dir_step (d, l1 ++ c :: l2) (d', l1 ++ with_phase ph c :: l2)
| step_end d l1 c l2 : dir_step (d, l1 ++ c :: l2) (d, l1 ++ l2).

(** At no time more than [k] calls for the owner are between their count and their insertion. *)
Definition within (k : Z) (app owner : string) (w : world) : Prop := len (List.filter (counted app owner) w.2) <= k.
Definition overlap_step (k : Z) (app owner : string) (w w' : world) : Prop := dir_step w w' /\ within k app owner w'.

Definition overlap_ok (k : Z) (app owner : string) (w : world) : Prop :=
  bots_ok (rows w.1) /\ Forall (fun c => phase_ok (cr_req c) (cr_phase c)) w.2 /\
  len (bots app owner (rows w.1)) + len (List.filter (counted app owner) w.2) <= BOT_MAX_PER_OWNER - 1 + k.

Lemma filter_counted app owner l1 c l2 :
  len (List.filter (counted app owner) (l1 ++ c :: l2)) =
  len (List.filter (counted app owner) (l1 ++ l2)) + (if counted app owner c then 1 else 0).
Proof. rewrite !List.filter_app. cbn [List.filter]. destruct (counted app owner c); rewrite !len_app, ?len_cons; lia. Qed.

(** A call is counted when its count was low enough; it stops being counted when it
    inserts, or at once when it inserts nothing. *)
Lemma phase_counts app owner c d d' ph : phase_ok (cr_req c) (cr_phase c) ->
  bot_phase iter (cr_app c) (cr_req c) (cr_config c) (cr_phase c) d = (d', ph) ->
  let n := len (bots app owner (rows d)) in
  let n' := len (bots app owner (rows d')) in
  let a := (if counted app owner c then 1 else 0) in
  let a' := (if counted app owner (with_phase ph c) then 1 else 0) in
  n' + a' <= n + a \/ (n' <= BOT_MAX_PER_OWNER - 1 /\ a = 0).
Proof.
  intros Ho E n n' a a'. destruct (bot_phase_change iter iter_perm _ _ _ _ _ _ _ E Ho) as [_ Hc].
  assert (Hn : n' <= n + (if bool_decide (adds (cr_app c) (cr_req c) (cr_phase c) = Some (app, owner)) then 1 else 0)).
  { destruct Hc as [Hc|Hc]; destruct (bots_change _ _ _ app owner Hc) as [Hl _]; [|exact Hl].
    rewrite bool_decide_eq_false_2 in Hl by done. fold n n' in Hl. case_bool_decide; lia. }
  unfold a, a', counted, with_phase in *. cbn [cr_app cr_req cr_phase] in *.
  destruct (bool_decide (cr_app c = app) && bool_decide (cb_owner (cr_req c) = owner)) eqn:Eb.
  2:{ cbn [andb]. left. rewrite bool_decide_eq_false_2 in Hn; [lia|]. intros Ha.
      destruct (cr_phase c); try done. injection Ha as <- <-. by rewrite !bool_decide_eq_true_2 in Eb. }
  rewrite andb_true_iff, !bool_decide_eq_true in Eb. destruct Eb as [Ea Ew]. cbn [andb].
  destruct (cr_phase c) as [|account rec| | |account nk av bi|account answer|r]; cbn [adds bot_phase] in *;
    try (rewrite bool_decide_eq_false_2 in Hn by done).
  - left. injection E as <- <-. destruct (find_bot_by_profile _ _ _ _ _) as [[? ?]|]; lia.
  - left. injection E as <- <-. lia.
  - destruct (count_bots iter (cr_app c) (cb_owner (cr_req c)) d) as [count|e] eqn:Ec; injection E as <- <-; [|left; lia].
    apply (count_bots_bots iter iter_perm) in Ec. rewrite Ea, Ew in Ec. fold n in Ec.
    destruct (Z.leb_spec BOT_MAX_PER_OWNER count); [left; lia|right; lia].
  - left. destruct ph; lia.
  - destruct Hc as [Hc|Hc].
    + destruct (bots_change _ _ _ app owner Hc) as [Hl _]. rewrite bool_decide_eq_false_2 in Hl by done. fold n n' in Hl.
      left. destruct ph; lia.
    + left. destruct (find_bot_by_profile _ _ _ _ _) as [[? ?]|]; [injection E as <- <-; unfold n' in *; lia|].
      destruct (rows d !! _); injection E as <- <-; [unfold n' in *; lia|]. case_bool_decide; lia.
  - left. destruct (ud_social d) as [s|]; [|injection E as <- <-; lia].
    destruct (ensure_friends _ _ _ s) as [s' r]. injection E as <- <-. lia.
  - left. injection E as <- <-. lia.
Qed.

Lemma overlap_step_ok k app owner w w' : overlap_step k app owner w w' -> overlap_ok k app owner w -> overlap_ok k app owner w'.
Proof.
  intros [Hs Hk] (Hu & Hp & Hq). unfold within in Hk. unfold overlap_ok.
  destruct Hs as [d l op Hc|d l app' req config Hr|d l1 c l2 d' ph E|d l1 c l2]; cbn [fst snd] in *.
  - pose proof (user_edit_change iter d op Hc) as Hch. split_and!; [|done|].
    + eapply bots_ok_change; [by eexists|done].
    + destruct (bots_change _ _ _ app owner Hch) as [Hl _]. rewrite bool_decide_eq_false_2 in Hl by done. lia.
  - split_and!; [done|by constructor|]. cbn [List.filter]. unfold counted at 1. cbn [cr_phase]. rewrite andb_false_r. exact Hq.
  - rewrite filter_counted in Hq, Hk |- *. apply List.Forall_app in Hp as [Hp1 Hp2].
    inversion Hp2 as [|? ? Hpc Hp3]; subst. destruct (bot_phase_change iter iter_perm _ _ _ _ _ _ _ E Hpc) as [Hph Hch].
    split_and!.
    + destruct Hch as [Hch|Hch]; (eapply bots_ok_change; [by eexists|done]).
    + apply List.Forall_app. split; [done|]. by constructor.
    + destruct (phase_counts app owner c d d' ph Hpc E) as [?|[? ?]]; lia.
  - rewrite filter_counted in Hq. split_and!; [done| |destruct (counted app owner c); lia].
    apply List.Forall_app in Hp as [Hp1 Hp2]. inversion Hp2; subst. apply List.Forall_app. by split.
Qed.
End overlap.

(** (C26) Quota of bots.  Calls of [create_bot] may overlap with each other and with every
    other operation, from the empty directory on, and be dropped at any of their locks,
    in whatever order the hash map is scanned.  As long as never more than [k] calls for
    an owner are between their count and their insertion at a time, the owner has at most
    [BOT_MAX_PER_OWNER - 1 + k] bots: twenty, when they come one after the other.  No two
    bots of an owner are ever for one profile of the client, and a further call
    for a profile that has a bot answers with that bot and adds no account, when nothing
    comes in between. *)
Theorem bots_quota {G : Type} `{IdGenerator G}
  (iter : UserRows -> list ((string * string) * UserRecord)) (Hiter : forall m, iter m ≡ₚ map_to_list m)
  (social : option SocialInner) (gen : option G) (k : Z) (app owner : string) d calls :
  0 < k -> rtc (overlap_step iter k app owner) (mkUserDirectory ∅ social gen, []) (d, calls) ->
  (forall n, count_bots iter app owner d = Ok n -> n <= BOT_MAX_PER_OWNER - 1 + k) /\
  (forall a1 a2 r1 r2, rows d !! (app, a1) = Some r1 -> rows d !! (app, a2) = Some r2 ->
     u_kind r1 = PROFILE_KIND_BOT -> u_kind r2 = PROFILE_KIND_BOT -> u_owner_account r1 = u_owner_account r2 ->
     u_client_profile_id r1 = u_client_profile_id r2 -> a1 = a2) /\
  (forall account r req d' b, rows d !! (app, account) = Some r -> u_kind r = PROFILE_KIND_BOT ->
     u_owner_account r = cb_owner req -> u_client_profile_id r = cb_client_profile_id req ->
     create_bot iter app req d = (d', Ok b) ->
     pf_account (br_profile b) = account /\ dom (rows d') = dom (rows d)).
Proof.
  intros Hk Hr. assert (Hok : overlap_ok k app owner (d, calls)).
  { eapply rtc_ind_r; [|intros ? ? _ Hs; exact (overlap_step_ok iter Hiter k app owner _ _ Hs)|exact Hr].
    split_and!; [intros ? ?; cbn; rewrite bots_empty; constructor|constructor|cbn; rewrite bots_empty; unfold BOT_MAX_PER_OWNER, len; simpl; lia]. }
  destruct Hok as (Hu & _ & Hq). cbn [fst snd] in *. split_and!.
  - intros n Hn%(count_bots_bots iter Hiter). subst n. pose proof (len_nonneg (List.filter (counted app owner) calls)). lia.
  - intros a1 a2 r1 r2 E1 E2 K1 K2 Eo Ep. by eapply (bots_unique (rows d) app (u_owner_account r2)).
  - intros account r req d' b Er Ek Eo Ep. unfold create_bot. destruct (bot_request req d) as [config|e]; [|done].
    cbn [bot_phases bot_phase]. destruct (find_bot_by_profile _ _ _ _ _) as [[acc rec]|] eqn:Ef.
    + apply (find_bot_Some iter Hiter) in Ef as (Ea & Ka & Oa & Pa).
      assert (acc = account) as -> by (eapply bots_unique; eauto; congruence).
      cbn [bot_phase]. rewrite Ea. cbn [bot_phase ud_social with_rows]. destruct (ud_social d) as [s|]; cbn [bot_phases bot_phase].
      2:{ by intros [=]. }
      destruct (ensure_friends _ _ _ _) as [s' [[]|e]]; cbn [bot_phase]; [|by intros [=]].
      intros [= <- <-]. cbn [rows br_profile record_to_profile pf_account]. split; [done|].
      rewrite dom_insert_L. apply elem_of_dom_2 in Ea. set_solver.
    + exfalso. apply (find_bot_None iter Hiter _ _ _ _ Ef ((app, account), r)); [|done].
      apply elem_of_list_filter_bool. split; [|by apply elem_of_map_to_list].
      unfold is_bot_of. simpl. by rewrite Ek, Eo, !bool_decide_eq_true_2.
Qed.

(** Limits of profile texts.  Whatever has happened to the directory, the
    avatar and the bio of every account are within their limits, counted in
    characters, and its nickname is either the account's own name or a non-empty
    text within its limit. *)
Theorem profiles_bounded {G : Type} `{IdGenerator G}
  (iter : UserRows -> list ((string * string) * UserRecord)) (Hiter : forall m, iter m ≡ₚ map_to_list m)
  (social : option SocialInner) (gen : option G) (ops : list UserOp) (app account : string) (p : UserProfile)
  (Hp : user_profile app account (user_run iter ops (mkUserDirectory ∅ social gen)) = Ok (Some p)) :
  chars_count (pf_avatar p) <= AVATAR_MAX_CHARS /\ chars_count (pf_bio p) <= BIO_MAX_CHARS /\
  (pf_nickname p = account \/ (pf_nickname p <> ""%string /\ chars_count (pf_nickname p) <= NICKNAME_MAX_CHARS)).
Proof.
  assert (Hok : forall k r, rows (user_run iter ops (mkUserDirectory ∅ social gen)) !! k = Some r -> text_ok k.2 r).
  { apply (user_run_ind iter Hiter (fun m => forall k r, m !! k = Some r -> text_ok k.2 r)).
    - intros k r Hk. cbn [rows] in Hk. by rewrite lookup_empty in Hk.
    - intros m m' [new Hc] Hm k r Hk. destruct Hc as [|k0 r0 r0' E _ Ht|k0 h E|ap acc r0 E _ Ht|k0 r0 E].
      + by apply Hm.
      + apply lookup_insert_Some in Hk as [[<- <-]|[_ Hk]]; [|by apply Hm].
        destruct Ht as [(Ta & Tb & Tn)|Ht]; [|done]. specialize (Hm _ _ E). unfold text_ok. by rewrite Ta, Tb, Tn.
      + apply lookup_insert_Some in Hk as [[<- <-]|[_ Hk]]; [|by apply Hm]. split_and!; [done..|by left].
      + by apply lookup_insert_Some in Hk as [[<- <-]|[_ Hk]]; [|by apply Hm].
      + apply lookup_delete_Some in Hk as [_ Hk]. by apply Hm. }
  unfold user_profile in Hp. destruct (rows _ !! (app, account)) as [r|] eqn:E; [|done].
  injection Hp as <-. destruct (Hok _ _ E) as (Ha & Hb & Hn). cbn [record_to_profile pf_avatar pf_bio pf_nickname].
  split_and!; [done..|]. destruct (str_is_empty (u_nickname r)); [by left|done].
Qed.

(** ** Accounts *)

(** The password an operation gives to an account, and whether it revokes its tokens. *)
Definition sets_password (k : string * string) (op : UserOp) : option string :=
  match op with
  | USetPassword app account h | USetPasswordBump app account h =>
    if decide ((app, account) = k) then Some h else None
  | _ => None
  end.
Definition bumps (k : string * string) (op : UserOp) : bool :=
  match op with
  | UBumpEpoch app account | USetPasswordBump app account _ => bool_decide ((app, account) = k)
  | _ => false
  end.

(** The password and the token epoch after a history. *)
Definition last_password (k : string * string) (ops : list UserOp) (h : option string) : option string :=
  foldl (fun h op => match sets_password k op with Some h' => Some h' | None => h end) h ops.
Definition bump_count (k : string * string) (ops : list UserOp) : Z := len (List.filter (bumps k) ops).

Section accounts.
Context {G : Type} `{IdGenerator G}.
Context (iter : UserRows -> list ((string * string) * UserRecord)).
Context (iter_perm : forall m, iter m ≡ₚ map_to_list m).
Implicit Types d : MemoryUserDirectory G.

(** The credentials of a human account. *)
Definition human_with (h : option string) (epoch : Z) (r : UserRecord) : Prop :=
  u_kind r = PROFILE_KIND_USER /\ u_password_hash r = h /\ u_token_epoch r = epoch.

Lemma update_row_human {A} app account f (answer : UserRecord -> A) d k r h e h' e' :
  rows d !! k = Some r -> human_with h e r ->
  (forall r, u_kind (f r) = u_kind r) ->
  (if decide ((app, account) = k) then u_password_hash (f r) = h' /\ u_token_epoch (f r) = e' else h' = h /\ e' = e) ->
  exists r', rows (update_row app account f answer d).1 !! k = Some r' /\ human_with h' e' r'.
Proof.
  intros E (Hk & Hh & He) Hf Hd. unfold update_row. destruct (decide ((app, account) = k)) as [<-|D].
  - rewrite E. exists (f r). cbn [fst rows with_rows]. rewrite lookup_insert_eq. split; [done|].
    split_and!; [by rewrite Hf|tauto|tauto].
  - destruct Hd as [-> ->]. exists r. split; [|done]. destruct (rows d !! (app, account)); [|done].
    cbn [fst rows with_rows]. by rewrite lookup_insert_ne.
Qed.

(** The row of a person is not what a phase writes: a new bot has a new key, and what a
    call adopts was a bot when it looked. *)
Lemma bot_phase_human app req config ph d k r :
  rows d !! k = Some r -> (forall account rec, ph = BotAdopt account rec -> (app, account) <> k) ->
  rows (bot_phase iter app req config ph d).1 !! k = Some r.
Proof.
  intros E Hn. destruct ph as [|account rec| | |account n a b|account answer|r0]; cbn [bot_phase]; try done.
  - specialize (Hn account rec eq_refl). destruct (rows d !! (app, account)); [|done].
    cbn [fst rows with_rows]. by rewrite lookup_insert_ne.
  - destruct (ud_idgen d) as [g|]; [|done]. by destruct (next_id g).
  - destruct (find_bot_by_profile _ _ _ _ _) as [[? ?]|]; [done|].
    destruct (rows d !! (app, account)) eqn:Er; [done|]. cbn [fst rows with_rows]. rewrite lookup_insert_ne; [done|congruence].
  - destruct (ud_social d) as [s|]; [|done]. by destruct (ensure_friends _ _ _ s).
Qed.
Lemma bot_phases_human n app req config ph d k r : rows d !! k = Some r -> u_kind r = PROFILE_KIND_USER ->
  (forall account rec, ph = BotAdopt account rec -> (app, account) <> k) ->
  rows (bot_phases iter n app req config ph d).1 !! k = Some r.
Proof.
  revert ph d. induction n as [|n IH]; intros ph d E Hk Hn; [done|]. cbn [bot_phases].
  destruct (bot_phase iter app req config ph d) as [d' ph'] eqn:Ep.
  pose proof (bot_phase_human app req config ph d k r E Hn) as E'. rewrite Ep in E'. apply IH; [done|done|].
  intros account rec -> <-. destruct ph as [|? ?| | |ac n0 a0 b0|? ?|r0]; cbn [bot_phase] in Ep.
  - destruct (find_bot_by_profile _ _ _ _ _) as [[acc rec']|] eqn:Ef; [|done]. injection Ep as _ -> ->.
    apply (find_bot_Some iter iter_perm) in Ef as (Ea & Ka & _). rewrite E in Ea. injection Ea as <-. by rewrite Hk in Ka.
  - done.
  - destruct (count_bots _ _ _ _); [|done]. by destruct (_ <=? _).
  - destruct (ud_idgen d) as [g|]; [|done]. destruct (next_id g) as [g' [id|e]]; [|done]. by destruct (bot_texts _ _) as [[[? ?] ?]|].
  - destruct (find_bot_by_profile _ _ _ _ _) as [[acc rec']|] eqn:Ef; [|by destruct (rows d !! (app, ac))]. injection Ep as _ -> ->.
    apply (find_bot_Some iter iter_perm) in Ef as (Ea & Ka & _). cbn in E'. rewrite E in Ea. injection Ea as <-. by rewrite Hk in Ka.
  - destruct (ud_social d) as [s|]; [|done]. by destruct (ensure_friends _ _ _ s).
  - done.
Qed.
Lemma create_bot_human app req d k r : rows d !! k = Some r -> u_kind r = PROFILE_KIND_USER ->
  rows (create_bot iter app req d).1 !! k = Some r.
Proof.
  intros E Hk. unfold create_bot. destruct (bot_request req d) as [config|e]; [|done].
  pose proof (bot_phases_human 6 app req config BotLook d k r E Hk ltac:(done)) as Hb.
  by destruct (bot_phases _ _ _ _ _ _ d).
Qed.

Lemma user_step_human d op k r h e : rows d !! k = Some r -> human_with h e r ->
  exists r', rows (user_step iter d op) !! k = Some r' /\
    human_with (match sets_password k op with Some h' => Some h' | None => h end)
      (if bumps k op then Z.min u32_max (e + 1) else e) r'.
Proof.
  intros E Hh. pose proof Hh as (Hk & Hp & He).
  assert (Hsame : forall m : UserRows, m !! k = rows d !! k -> exists r', m !! k = Some r' /\ human_with h e r').
  { intros m ->. by exists r. }
  destruct op as [app acc|app acc h'|app acc p|app acc h'|app acc|app acc h'|app req|app owner acc p|app owner acc];
    cbn [user_step sets_password bumps].
  - apply Hsame. unfold user_upsert, or_insert. cbn [fst rows with_rows].
    destruct (rows d !! (app, acc)) eqn:Ea; [done|]. rewrite lookup_insert_ne; congruence.
  - apply Hsame. unfold user_create. destruct (rows d !! (app, acc)) eqn:Ea; [done|].
    cbn [fst rows with_rows]. rewrite lookup_insert_ne; congruence.
  - unfold update_profile. destruct (validate_patch p); [|by apply Hsame].
    eapply update_row_human; [done..|]. by destruct (decide _).
  - eapply update_row_human; [done..|]. by destruct (decide _).
  - eapply update_row_human; [done..|]. destruct (decide _) as [D|D].
    + rewrite bool_decide_eq_true_2 by done. simpl. by rewrite Hp, He.
    + by rewrite bool_decide_eq_false_2.
  - eapply update_row_human; [done..|]. destruct (decide _) as [D|D].
    + rewrite bool_decide_eq_true_2 by done. simpl. by rewrite He.
    + by rewrite bool_decide_eq_false_2.
  - exists r. split; [by apply create_bot_human|done].
  - unfold update_bot. destruct (owned_bot _ _ _ _); [|by apply Hsame].
    destruct (validate_patch _); [|by apply Hsame]. destruct (normalize_bot_config _); [|by apply Hsame].
    eapply update_row_human; [done..|]. by destruct (decide _).
  - unfold delete_bot. destruct (owned_bot _ _ _ _) as [rb|] eqn:Eb; [|by apply Hsame].
    apply owned_bot_Ok in Eb as [Eb Kb]. apply Hsame. cbn [fst rows]. rewrite lookup_delete_ne; [done|].
    intros <-. rewrite E in Eb. injection Eb as <-. rewrite Hk in Kb. discriminate.
Qed.

Lemma user_run_human ops d k r h e : rows d !! k = Some r -> human_with h e r -> e <= u32_max ->
  exists r', rows (user_run iter ops d) !! k = Some r' /\
    human_with (last_password k ops h) (Z.min u32_max (e + bump_count k ops)) r'.
Proof.
  unfold user_run, last_password. revert d r h e; induction ops as [|op ops IH]; intros d r h e E Hh He; cbn [foldl].
  - exists r. split; [done|]. replace (Z.min _ _) with e; [done|]. unfold bump_count. simpl. unfold len. simpl. lia.
  - destruct (user_step_human d op k r h e E Hh) as (r1 & E1 & Hh1).
    assert (Hle : (if bumps k op then Z.min u32_max (e + 1) else e) <= u32_max) by (destruct (bumps k op); lia).
    destruct (IH _ _ _ _ E1 Hh1 Hle) as (r' & E' & Hh'). exists r'. split; [exact E'|].
    replace (Z.min u32_max (e + bump_count k (op :: ops))) with
      (Z.min u32_max ((if bumps k op then Z.min u32_max (e + 1) else e) + bump_count k ops)); [done|].
    unfold bump_count. cbn [List.filter]. pose proof (len_nonneg (List.filter (bumps k) ops)).
    destruct (bumps k op); rewrite ?len_cons; lia.
Qed.
End accounts.

(** (C25) Accounts are kept.  Once a person's account exists, no operation of the
    directory removes it, turns it into a bot or lets somebody register it again;
    its password is the last one set for this very account, whatever happens to
    other accounts; and its token epoch counts, up to the largest 32-bit number,
    exactly the revocations asked for it, so a revoked token never becomes valid
    again. *)
Theorem accounts_kept {G : Type} `{IdGenerator G}
  (iter : UserRows -> list ((string * string) * UserRecord)) (Hiter : forall m, iter m ≡ₚ map_to_list m)
  (d : MemoryUserDirectory G) (ops : list UserOp) (app account hash : string) (r : UserRecord)
  (Hr : rows d !! (app, account) = Some r) (Hhuman : u_kind r = PROFILE_KIND_USER)
  (Hepoch : u_token_epoch r <= u32_max) :
  let d' := user_run iter ops d in
  let k := (app, account) in
  user_create app account hash d' = (d', Err UserConflict) /\
  (exists p, lookup_user app account d' = Ok (Some p) /\ up_exists p = true /\ up_kind p = PROFILE_KIND_USER) /\
  user_password_hash app account d' = Ok (last_password k ops (u_password_hash r)) /\
  token_epoch app account d' = Ok (Z.min u32_max (u_token_epoch r + bump_count k ops)).
Proof.
  intros d' k. destruct (user_run_human iter Hiter ops d k r (u_password_hash r) (u_token_epoch r) Hr) as
    (r' & E' & Hk & Hp & He); [done|done|]. fold d' in E'. unfold k in *. split_and!.
  - unfold user_create. by rewrite E'.
  - unfold lookup_user. rewrite E'. by eexists.
  - unfold user_password_hash. rewrite E'. simpl. by rewrite Hp.
  - unfold token_epoch. rewrite E'. simpl. by rewrite He.
Qed.

(** ** A concrete directory *)

Definition demo_create : CreateBot := mkCreateBot "alice" "p1" "Helper" "" "" "m" "" None "".
Definition demo_users : list UserOp :=
  [UCreate "kim" "alice" "h1"; UCreateBot "kim" demo_create; USetPasswordBump "kim" "alice" "h2";
   UCreate "kim" "alice" "h3"; UUpdateProfile "kim" "alice" (mkProfilePatch " Al " "" "hi")]%string.
Definition demo_iter (m : UserRows) : list ((string * string) * UserRecord) := map_to_list m.
Definition demo_directory : MemoryUserDirectory CountingGen :=
  mkUserDirectory ∅ (Some SocialInner_default) (Some (mkCountingGen 36)).

Lemma demo_iter_perm m : demo_iter m ≡ₚ map_to_list m.
Proof. done. Qed.
Lemma demo_bot_found :
  create_bot demo_iter "kim" demo_create (user_run demo_iter demo_users demo_directory)
  = (user_run demo_iter demo_users demo_directory,
     Ok (mkBotRecord (mkUserProfile "b_10" "Helper" "" "" PROFILE_KIND_BOT) (mkBotConfig "m" "" None "private"))).
Proof. vm_compute. reflexivity. Qed.

(** *** Two calls that overlap *)

(** A request for the profile [n], and the call for it in a phase. *)
Definition nth_create (n : Z) : CreateBot := mkCreateBot "alice" ("p" +:+ nat_to_dec n) "" "" "" "m" "" None "".
Definition nth_config : BotConfig := mkBotConfig "m" "" None "private".
Definition nth_phases (m : nat) (n : Z) (ph : BotPhase) := bot_phases demo_iter m "kim" (nth_create n) nth_config ph.
(** With 19 bots there, two calls count before either inserts. *)
Definition overrun (d : MemoryUserDirectory CountingGen) : MemoryUserDirectory CountingGen :=
  let '(d, ph1) := nth_phases 3 90 BotLook d in
  let '(d, ph2) := nth_phases 3 91 BotLook d in
  let '(d, _) := nth_phases 2 90 ph1 d in
  (nth_phases 2 91 ph2 d).1.
Definition bots_of (n : nat) : list UserOp := (fun i => UCreateBot "kim" (nth_create (Z.of_nat i))) <$> seq 0 n.
(** The limit is exceeded: the count and the insertion take different locks. *)
Example quota_overrun :
  count_bots demo_iter "kim" "alice" (user_run demo_iter (bots_of 25) demo_directory) = Ok 20 /\
  count_bots demo_iter "kim" "alice" (overrun (user_run demo_iter (bots_of 19) demo_directory)) = Ok 21.
Proof. vm_compute. split; reflexivity. Qed.

(** Two calls for one profile that overlap: the second finds the bot of the first when it inserts. *)
Definition call_in (ph : BotPhase) : Creating := mkCreating "kim" demo_create nth_config ph.
Definition demo_phases (m : nat) (ph : BotPhase) (d : MemoryUserDirectory CountingGen) :=
  bot_phases demo_iter m "kim" demo_create nth_config ph d.
Definition first_counts := demo_phases 3 BotLook demo_directory.
Definition second_counts := demo_phases 3 BotLook first_counts.1.
Definition first_ends := demo_phases 2 first_counts.2 second_counts.1.
Definition second_ends := demo_phases 3 second_counts.2 first_ends.1.

Lemma phase_runs m k app owner (d d' : MemoryUserDirectory CountingGen) l1 c l2 ph :
  bot_phases demo_iter m (cr_app c) (cr_req c) (cr_config c) (cr_phase c) d = (d', ph) ->
  len l1 + len l2 + 1 <= k ->
  rtc (overlap_step demo_iter k app owner) (d, l1 ++ c :: l2) (d', l1 ++ with_phase ph c :: l2).
Proof.
  revert d c. induction m as [|m IH]; intros d c E Hk; cbn [bot_phases] in E.
  - injection E as <- <-. destruct c. constructor.
  - destruct (bot_phase _ _ _ _ _ d) as [d1 ph1] eqn:E1. eapply rtc_l; [split; [by eapply step_phase|]|].
    + unfold within. cbn [snd]. etransitivity; [|exact Hk]. rewrite filter_counted. unfold len.
      pose proof (List.filter_length_le (counted app owner) (l1 ++ l2)) as Hl. rewrite length_app in Hl.
      destruct (counted _ _ _); lia.
    + by apply (IH d1 (with_phase ph1 c)).
Qed.

Lemma twice_reached : rtc (overlap_step demo_iter 2 "kim" "alice") (demo_directory, [])
  (second_ends.1, [call_in second_ends.2; call_in first_ends.2]).
Proof.
  eapply rtc_l; [split; [by apply (step_begin demo_iter _ _ "kim" demo_create nth_config)|by vm_compute]|].
  eapply rtc_l; [split; [by apply (step_begin demo_iter _ _ "kim" demo_create nth_config)|by vm_compute]|].
  etrans; [apply (phase_runs 3 2 _ _ _ first_counts.1 [call_in BotLook] (call_in BotLook) [] first_counts.2); [apply surjective_pairing|done]|].
  etrans; [apply (phase_runs 3 2 _ _ _ second_counts.1 [] (call_in BotLook) [call_in first_counts.2] second_counts.2); [apply surjective_pairing|done]|].
  etrans; [apply (phase_runs 2 2 _ _ _ first_ends.1 [call_in second_counts.2] (call_in first_counts.2) [] first_ends.2); [apply surjective_pairing|done]|].
  apply (phase_runs 3 2 _ _ _ second_ends.1 [] (call_in second_counts.2) [call_in first_ends.2] second_ends.2); [apply surjective_pairing|done].
Qed.
Lemma twice_counted : count_bots demo_iter "kim" "alice" second_ends.1 = Ok 1.
Proof. vm_compute. reflexivity. Qed.
Lemma twice_again : create_bot demo_iter "kim" demo_create second_ends.1 =
  (second_ends.1, Ok (mkBotRecord (mkUserProfile "b_10" "Helper" "" "" PROFILE_KIND_BOT) nth_config)).
Proof. vm_compute. reflexivity. Qed.
Lemma bots_quota_witness :
  (forall n, count_bots demo_iter "kim" "alice" second_ends.1 = Ok n -> n <= 21) /\
  pf_account (br_profile (mkBotRecord (mkUserProfile "b_10" "Helper" "" "" PROFILE_KIND_BOT) nth_config)) = "b_10"%string.
Proof.
  destruct (bots_quota demo_iter demo_iter_perm (Some SocialInner_default) (Some (mkCountingGen 36)) 2
    "kim" "alice" _ _ eq_refl twice_reached) as (Hn & _ & Hb).
  split; [exact Hn|]. refine (proj1 (Hb "b_10"%string _ demo_create _ _ _ _ _ _ twice_again)); vm_compute; reflexivity.
Defined.

Lemma profiles_bounded_witness :
  exists p, user_profile "kim" "alice" (user_run demo_iter demo_users demo_directory) = Ok (Some p) /\
    pf_nickname p = "Al"%string /\ chars_count (pf_bio p) <= BIO_MAX_CHARS.
Proof.
  eexists. split; [vm_compute; reflexivity|]. split; [reflexivity|].
  refine (proj1 (proj2 (profiles_bounded demo_iter demo_iter_perm (Some SocialInner_default) (Some (mkCountingGen 36))
    demo_users "kim" "alice" _ _))). vm_compute. reflexivity.
Defined.

Lemma accounts_kept_witness :
  user_password_hash "kim" "alice" (user_run demo_iter demo_users demo_directory) = Ok (Some "h2"%string) /\
  token_epoch "kim" "alice" (user_run demo_iter demo_users demo_directory) = Ok 1.
Proof.
  set (d := mkUserDirectory (G := CountingGen) {[("kim", "alice")%string := human_record "alice" (Some "h1"%string)]}
              (Some SocialInner_default) (Some (mkCountingGen 36))).
  assert (E : user_run demo_iter demo_users demo_directory = user_run demo_iter demo_users d) by (vm_compute; reflexivity).
  rewrite E.
  destruct (accounts_kept demo_iter demo_iter_perm d demo_users "kim" "alice" "h3" (human_record "alice" (Some "h1"%string)))
    as (_ & _ & Hp & He); [vm_compute; reflexivity|reflexivity|vm_compute; discriminate|].
  rewrite Hp, He. split; vm_compute; reflexivity.
Defined.
