(* ===== verification/Interest.v ===== *)
(** Room interest: who is viewing which conversation, services/chat/src/interest.rs.

    The memory store keeps two maps of strings, as the redis store keeps two
    families of keys: the viewers of a conversation, and the conversations a
    connection views, so that the end of the connection can clear them.  The
    theorem says that the strings can be forgotten: the store is a relation. *)

From S2P Require Import Prelude Wire.
From stdpp Require Import gmap sets list strings.
Open Scope Z_scope.
Open Scope kim_scope.

(** ** Text *)

(** [str::rsplit_once] at one ASCII character. *)
Fixpoint rsplit_once (c : ascii) (s : string) : option (string * string) :=
  match s with
  | EmptyString => None
  | String.String a s' =>
    match rsplit_once c s' with
    | Some (x, y) => Some (String.String a x, y)
    | None => if decide (a = c) then Some (""%string, s') else None
    end
  end.

(** An [i32] as [format!] writes it. *)
Definition i32_to_string (z : Z) : string :=
  if z <? 0 then ("-" ++ nat_to_dec (- z))%string else nat_to_dec z.

Definition digit_val (a : ascii) : option Z :=
  let n := Z.of_nat (Ascii.nat_of_ascii a) in
  if (48 <=? n) && (n <=? 57) then Some (n - 48) else None.
Fixpoint digits_val (acc : Z) (s : string) : option Z :=
  match s with
  | EmptyString => Some acc
  | String.String a s' => d ← digit_val a; digits_val (10 * acc + d) s'
  end.

(** [str::parse::<i32>]: an optional sign, at least one digit, in range. *)
Definition parse_digits (sign : Z) (s : string) : option Z :=
  if str_is_empty s then None
  else n ← digits_val 0 s;
       let z := sign * n in
       if (i32_min <=? z) && (z <=? i32_max) then Some z else None.
Definition parse_i32 (s : string) : option Z :=
  match s with
  | String.String a s' =>
    if Ascii.eqb a "-" then parse_digits (-1) s'
    else if Ascii.eqb a "+" then parse_digits 1 s' else parse_digits 1 s
  | EmptyString => None
  end.

(** ** Keys *)

Inductive InterestError : Type := InterestBackend (msg : string).

Record ViewerRef := mkViewerRef { vr_account : string; vr_channel_id : string }.
#[export] Instance ViewerRef_eq_dec : EqDecision ViewerRef.
Proof. solve_decision. Defined.

Definition viewer_encode (v : ViewerRef) : string := (vr_account v ++ "#" ++ vr_channel_id v)%string.
Definition viewer_decode (raw : string) : option ViewerRef :=
  match split_once "#"%char raw with
  | Some (account, channel_id) =>
    if str_is_empty account || str_is_empty channel_id then None else Some (mkViewerRef account channel_id)
  | None => None
  end.

Definition interest_key (app dest : string) (kind : Z) : string :=
  ("room:interest:" ++ app ++ ":" ++ dest ++ ":" ++ i32_to_string kind)%string.
Definition viewing_key (app account channel : string) : string :=
  ("room:viewing:" ++ app ++ ":" ++ account ++ ":" ++ channel)%string.
Definition dest_token (dest : string) (kind : Z) : string := (dest ++ ":" ++ i32_to_string kind)%string.
Definition parse_dest_token (raw : string) : option (string * Z) :=
  match rsplit_once ":"%char raw with
  | Some (dest, kind) =>
    match parse_i32 kind with
    | Some kind => if str_is_empty dest then None else Some (dest, kind)
    | None => None
    end
  | None => None
  end.

(** ** MemoryRoomInterest *)

Abbreviation Sets := (gmap string (gset string)).
Record MemoryRoomInterest := mkRoomInterest { interest : Sets; viewing : Sets }.
Definition MemoryRoomInterest_new : MemoryRoomInterest := mkRoomInterest ∅ ∅.

Definition add_member (key member : string) (m : Sets) : Sets :=
  <[key := {[member]} ∪ default ∅ (m !! key)]> m.
Definition remove_member (key member : string) (m : Sets) : Sets :=
  match m !! key with
  | None => m
  | Some s => let s := s ∖ {[member]} in if decide (s = ∅) then delete key m else <[key := s]> m
  end.

(** The order in which a [HashSet] yields its elements. *)
Section store.
Context (iter : gset string -> list string).

Definition enter (app viewer channel dest : string) (kind : Z) (s : MemoryRoomInterest)
  : MemoryRoomInterest * result unit InterestError :=
  let member := viewer_encode (mkViewerRef viewer channel) in
  (mkRoomInterest (add_member (interest_key app dest kind) member (interest s))
     (add_member (viewing_key app viewer channel) (dest_token dest kind) (viewing s)), Ok tt).

Definition leave (app viewer channel dest : string) (kind : Z) (s : MemoryRoomInterest)
  : MemoryRoomInterest * result unit InterestError :=
  let member := viewer_encode (mkViewerRef viewer channel) in
  (mkRoomInterest (remove_member (interest_key app dest kind) member (interest s))
     (remove_member (viewing_key app viewer channel) (dest_token dest kind) (viewing s)), Ok tt).

Definition clear_token (app member : string) (m : Sets) (token : string) : Sets :=
  match parse_dest_token token with
  | Some (dest, kind) => remove_member (interest_key app dest kind) member m
  | None => m
  end.

Definition clear_channel (app viewer channel : string) (s : MemoryRoomInterest)
  : MemoryRoomInterest * result unit InterestError :=
  let vk := viewing_key app viewer channel in
  let tokens := default ∅ (viewing s !! vk) in
  let s := mkRoomInterest (interest s) (delete vk (viewing s)) in
  if decide (tokens = ∅) then (s, Ok tt)
  else
    let member := viewer_encode (mkViewerRef viewer channel) in
    (mkRoomInterest (foldl (clear_token app member) (interest s) (iter tokens)) (viewing s), Ok tt).

Definition viewers (app dest : string) (kind : Z) (s : MemoryRoomInterest) : result (list ViewerRef) InterestError :=
  match interest s !! interest_key app dest kind with
  | None => Ok []
  | Some set => Ok (omap viewer_decode (iter set))
  end.

Inductive RoomOp : Type :=
| REnter (app viewer channel dest : string) (kind : Z)
| RLeave (app viewer channel dest : string) (kind : Z)
| RClear (app viewer channel : string).

Definition room_step (s : MemoryRoomInterest) (op : RoomOp) : MemoryRoomInterest :=
  match op with
  | REnter app v c d k => (enter app v c d k s).1
  | RLeave app v c d k => (leave app v c d k s).1
  | RClear app v c => (clear_channel app v c s).1
  end.
Definition room_run (ops : list RoomOp) : MemoryRoomInterest := foldl room_step MemoryRoomInterest_new ops.
End store.

(** ** The relation the store stands for *)

(** App, conversation, kind, viewer, connection. *)
Abbreviation View := (string * string * Z * string * string)%type.

Definition spec_step (r : gset View) (op : RoomOp) : gset View :=
  match op with
  | REnter app v c d k => {[(app, d, k, v, c)]} ∪ r
  | RLeave app v c d k => r ∖ {[(app, d, k, v, c)]}
  | RClear app v c =>
    filter (fun x : View => ~ (x.1.1.1.1 = app /\ x.1.2 = v /\ x.2 = c)) r
  end.
Definition spec_run (ops : list RoomOp) : gset View := foldl spec_step ∅ ops.

(** The names the handlers use: an account of [AccountId::parse], an app and a
    connection, a conversation that is not empty, a kind of the wire. *)
Definition name_ok (app viewer channel : string) : Prop :=
  no_char ":" app = true /\ no_char ":" viewer = true /\ no_char "#" viewer = true /\
  viewer <> ""%string /\ channel <> ""%string.
Definition view_ok (dest : string) (kind : Z) : Prop := dest <> ""%string /\ in_i32 kind.
Definition room_op_ok (op : RoomOp) : Prop :=
  match op with
  | REnter app v c d k | RLeave app v c d k => name_ok app v c /\ view_ok d k
  | RClear app v c => name_ok app v c
  end.

(** ** The strings determine what they were made of *)

Lemma no_char_app c x y : no_char c (x ++ y)%string = no_char c x && no_char c y.
Proof. induction x as [|a x IH]; simpl; [done|]. by rewrite IH, andb_assoc. Qed.

Lemma rsplit_once_None c s : no_char c s = true -> rsplit_once c s = None.
Proof.
  induction s as [|a s IH]; simpl; [done|]. intros [Ha Hs]%andb_true_iff. rewrite IH by done.
  apply negb_true_iff, Ascii.eqb_neq in Ha. by rewrite decide_False.
Qed.

Lemma rsplit_once_app c x y : no_char c y = true -> rsplit_once c (x ++ String.String c y)%string = Some (x, y).
Proof.
  intros Hy. induction x as [|a x IH]; simpl; [|by rewrite IH].
  by rewrite rsplit_once_None, decide_True.
Qed.

Lemma digit_val_char d : 0 <= d < 10 -> digit_val (digit_char d) = Some d.
Proof.
  intros Hd. unfold digit_val, digit_char. rewrite Ascii.nat_ascii_embedding by lia.
  rewrite Z2Nat.id by lia. replace (48 <=? 48 + d) with true by lia. replace (48 + d <=? 57) with true by lia.
  simpl. f_equal. lia.
Qed.

Lemma digits_val_of fuel n acc : 0 <= n < 10 ^ Z.of_nat fuel ->
  digits_val 0 (digits_of fuel n acc) = digits_val n acc.
Proof.
  revert n acc. induction fuel as [|fuel IH]; intros n acc Hn; [simpl in *; by replace n with 0 by lia|].
  rewrite Nat2Z.inj_succ, Z.pow_succ_r in Hn by lia. cbn [digits_of].
  pose proof (Z.div_mod n 10 ltac:(lia)) as E. pose proof (Z.mod_pos_bound n 10 ltac:(lia)).
  destruct (Z.eqb_spec (n / 10) 0) as [E0|E0].
  - cbn [digits_val]. rewrite digit_val_char by done. simpl. f_equal. lia.
  - rewrite IH.
    + cbn [digits_val]. rewrite digit_val_char by done. simpl. f_equal. lia.
    + split; [apply Z.div_pos; lia|]. apply Z.div_lt_upper_bound; lia.
Qed.

Lemma nat_to_dec_val n : 0 <= n < 10 ^ 20 -> digits_val 0 (nat_to_dec n) = Some n.
Proof. intros Hn. unfold nat_to_dec. by rewrite digits_val_of. Qed.

(** Digits only, and at least one. *)
Fixpoint all_digits (s : string) : bool :=
  match s with EmptyString => true | String.String a s' => bool_decide (is_Some (digit_val a)) && all_digits s' end.

Lemma digits_of_all fuel n acc : 0 <= n -> all_digits acc = true -> all_digits (digits_of fuel n acc) = true.
Proof.
  revert n acc. induction fuel as [|fuel IH]; intros n acc Hn Ha; [done|]. cbn [digits_of].
  pose proof (Z.mod_pos_bound n 10 ltac:(lia)).
  assert (Hd : all_digits (String.String (digit_char (n mod 10)) acc) = true).
  { simpl. rewrite digit_val_char, Ha by done. by rewrite bool_decide_eq_true_2 by by eexists. }
  destruct (n / 10 =? 0); [done|]. apply IH; [apply Z.div_pos; lia|done].
Qed.

Lemma digits_of_cons fuel n acc : digits_of (S fuel) n acc <> ""%string.
Proof.
  revert n acc. induction fuel as [|fuel IH]; intros n acc; cbn [digits_of]; [by destruct (_ =? 0)|].
  destruct (_ =? 0); [done|]. exact (IH (n / 10) _).
Qed.

Lemma nat_to_dec_digits n : 0 <= n ->
  exists a s, nat_to_dec n = String.String a s /\ is_Some (digit_val a) /\ all_digits (nat_to_dec n) = true.
Proof.
  intros Hn. pose proof (digits_of_all 20 n "" Hn eq_refl) as Ha. pose proof (digits_of_cons 19 n "") as Hc.
  unfold nat_to_dec. destruct (digits_of 20 n "") as [|a s]; [done|]. exists a, s. split; [done|]. split; [|done].
  simpl in Ha. by apply andb_true_iff in Ha as [Ha%bool_decide_eq_true _].
Qed.

Lemma all_digits_no_char c s : digit_val c = None -> all_digits s = true -> no_char c s = true.
Proof.
  intros Hc. induction s as [|a s IH]; simpl; [done|]. intros [Ha%bool_decide_eq_true Hs]%andb_true_iff.
  rewrite IH by done. destruct (Ascii.eqb_spec a c) as [->|]; [|done]. rewrite Hc in Ha. by destruct Ha.
Qed.

Lemma i32_to_string_colon z : no_char ":" (i32_to_string z) = true.
Proof.
  unfold i32_to_string. destruct (Z.ltb_spec z 0).
  - destruct (nat_to_dec_digits (- z)) as (_ & _ & _ & _ & Hd); [lia|]. rewrite no_char_app. simpl.
    by apply all_digits_no_char.
  - destruct (nat_to_dec_digits z) as (_ & _ & _ & _ & Hd); [lia|]. by apply all_digits_no_char.
Qed.

Lemma parse_digits_dec sign n : (sign = 1 \/ sign = -1) -> 0 <= n -> in_i32 (sign * n) ->
  parse_digits sign (nat_to_dec n) = Some (sign * n).
Proof.
  intros Hs Hn [Hlo Hhi]. destruct (nat_to_dec_digits n Hn) as (a & s & E & _).
  unfold parse_digits, str_is_empty. rewrite bool_decide_eq_false_2 by by rewrite E.
  rewrite nat_to_dec_val by (unfold i32_min, i32_max in *; lia). simpl.
  by replace ((i32_min <=? sign * n) && (sign * n <=? i32_max)) with true by lia.
Qed.

Lemma parse_i32_to_string z : in_i32 z -> parse_i32 (i32_to_string z) = Some z.
Proof.
  intros Hz. unfold i32_to_string. destruct (Z.ltb_spec z 0).
  - change (parse_i32 ("-" ++ nat_to_dec (- z))) with (parse_digits (-1) (nat_to_dec (- z))).
    rewrite parse_digits_dec; [f_equal; lia|by right|lia|by replace (-1 * - z) with z by lia].
  - destruct (nat_to_dec_digits z) as (a & s & E & Ha & _); [lia|].
    rewrite E. cbn [parse_i32]. rewrite <- E.
    destruct (Ascii.eqb_spec a "-") as [->|]; [by destruct Ha|].
    destruct (Ascii.eqb_spec a "+") as [->|]; [by destruct Ha|].
    rewrite parse_digits_dec; [f_equal; lia|by left|lia|by replace (1 * z) with z by lia].
Qed.

Lemma string_app_inj x y z : (x ++ y = x ++ z)%string -> y = z.
Proof. induction x as [|a x IH]; simpl; [done|]. by intros [= ?%IH]. Qed.
Lemma string_app_split c x y x' y' : no_char c x = true -> no_char c x' = true ->
  (x ++ String.String c y = x' ++ String.String c y')%string -> x = x' /\ y = y'.
Proof. intros Hx Hx' E. apply (f_equal (split_once c)) in E. rewrite !split_once_app in E by done. by simplify_eq. Qed.

Lemma parse_dest_token_dest_token d k : view_ok d k -> parse_dest_token (dest_token d k) = Some (d, k).
Proof.
  intros [Hd Hk]. unfold parse_dest_token, dest_token.
  rewrite (rsplit_once_app ":" d (i32_to_string k) (i32_to_string_colon k) : rsplit_once ":" (d ++ ":" ++ i32_to_string k) = _).
  rewrite parse_i32_to_string by done.
  unfold str_is_empty. by rewrite bool_decide_eq_false_2.
Qed.

Lemma dest_token_inj d k d' k' : view_ok d k -> view_ok d' k' -> dest_token d k = dest_token d' k' -> d = d' /\ k = k'.
Proof.
  intros H H' E. apply (f_equal parse_dest_token) in E. rewrite !parse_dest_token_dest_token in E by done. by simplify_eq.
Qed.

Lemma interest_key_inj app d k app' d' k' : no_char ":" app = true -> no_char ":" app' = true ->
  view_ok d k -> view_ok d' k' -> interest_key app d k = interest_key app' d' k' -> app = app' /\ d = d' /\ k = k'.
Proof.
  unfold interest_key. intros Ha Ha' H H' E%string_app_inj. apply string_app_split in E as [-> E]; [|done..].
  by apply dest_token_inj in E as [-> ->].
Qed.

Lemma viewing_key_inj app v c app' v' c' : name_ok app v c -> name_ok app' v' c' ->
  viewing_key app v c = viewing_key app' v' c' -> app = app' /\ v = v' /\ c = c'.
Proof.
  unfold viewing_key. intros (Ha & Hv & _) (Ha' & Hv' & _) E%string_app_inj.
  apply string_app_split in E as [-> E]; [|done..]. by apply string_app_split in E as [-> ->].
Qed.

Lemma viewer_decode_encode app v c : name_ok app v c -> viewer_decode (viewer_encode (mkViewerRef v c)) = Some (mkViewerRef v c).
Proof.
  intros (_ & _ & Hv & Hne & Hc). unfold viewer_decode, viewer_encode. cbn [vr_account vr_channel_id].
  rewrite (split_once_app "#" v c Hv : split_once "#" (v ++ "#" ++ c) = _). unfold str_is_empty. by rewrite !bool_decide_eq_false_2.
Qed.

(** ** Maps of sets *)

Definition member (m : Sets) (key y : string) : Prop := y ∈ default ∅ (m !! key).
(** No key is left behind with nothing under it. *)
Definition tight (m : Sets) : Prop := forall key, m !! key <> Some ∅.

Lemma member_add m key y key' y' : member (add_member key y m) key' y' <-> (key', y') = (key, y) \/ member m key' y'.
Proof.
  unfold member, add_member. destruct (decide (key' = key)) as [->|Hne].
  - rewrite lookup_insert_eq. simpl. set_solver.
  - rewrite lookup_insert_ne by done. set_solver.
Qed.

Lemma member_remove m key y key' y' :
  member (remove_member key y m) key' y' <-> member m key' y' /\ (key', y') <> (key, y).
Proof.
  unfold member, remove_member. destruct (m !! key) as [s|] eqn:E.
  - case_decide as Es; destruct (decide (key' = key)) as [->|Hne];
      rewrite ?lookup_delete_eq, ?lookup_insert_eq, ?lookup_delete_ne, ?lookup_insert_ne, ?E by done; simpl; set_solver.
  - split; [|by intros [? _]]. intros Hm. split; [done|]. intros [= -> ->]. rewrite E in Hm. by apply elem_of_empty in Hm.
Qed.

Lemma tight_add key y m : tight m -> tight (add_member key y m).
Proof.
  intros Hm key'. unfold add_member. destruct (decide (key' = key)) as [->|Hne].
  - rewrite lookup_insert_eq. intros [=]. set_solver.
  - rewrite lookup_insert_ne by done. apply Hm.
Qed.
Lemma tight_remove key y m : tight m -> tight (remove_member key y m).
Proof.
  intros Hm key'. unfold remove_member. destruct (m !! key) as [s|] eqn:E; [|apply Hm].
  case_decide; destruct (decide (key' = key)) as [->|Hne];
    rewrite ?lookup_delete_eq, ?lookup_insert_eq, ?lookup_delete_ne, ?lookup_insert_ne by done; [done|apply Hm|congruence|apply Hm].
Qed.
Lemma tight_delete key m : tight m -> tight (delete key m).
Proof.
  intros Hm key'. destruct (decide (key' = key)) as [->|Hne]; [by rewrite lookup_delete_eq|].
  rewrite lookup_delete_ne by done. apply Hm.
Qed.
Lemma tight_empty m : tight m -> (forall key y, ~ member m key y) -> m = ∅.
Proof.
  intros Ht Hn. apply map_empty. intros key. destruct (m !! key) as [s|] eqn:E; [|done].
  destruct (Ht key). rewrite E. f_equal. apply set_eq. intros y. split; [|set_solver].
  intros Hy. destruct (Hn key y). unfold member. by rewrite E.
Qed.

(** ** The invariant *)

Definition view_names (x : View) : Prop :=
  let '(app, d, k, v, c) := x in name_ok app v c /\ view_ok d k.
Definition interest_entry (x : View) : string * string :=
  let '(app, d, k, v, c) := x in (interest_key app d k, viewer_encode (mkViewerRef v c)).
Definition viewing_entry (x : View) : string * string :=
  let '(app, d, k, v, c) := x in (viewing_key app v c, dest_token d k).

Lemma interest_entry_inj x y : view_names x -> view_names y -> interest_entry x = interest_entry y -> x = y.
Proof.
  destruct x as [[[[a d] k] v] c], y as [[[[a' d'] k'] v'] c']. intros [Hn Hd] [Hn' Hd'] [Ek Ev]%pair_equal_spec.
  apply (f_equal viewer_decode) in Ev. rewrite (viewer_decode_encode _ _ _ Hn), (viewer_decode_encode _ _ _ Hn') in Ev.
  apply interest_key_inj in Ek as (-> & -> & ->); [|apply Hn|apply Hn'|done..]. by simplify_eq.
Qed.
Lemma viewing_entry_inj x y : view_names x -> view_names y -> viewing_entry x = viewing_entry y -> x = y.
Proof.
  destruct x as [[[[a d] k] v] c], y as [[[[a' d'] k'] v'] c']. intros [Hn Hd] [Hn' Hd'] [Ek Ev]%pair_equal_spec.
  apply viewing_key_inj in Ek as (-> & -> & ->); [|done..]. by apply dest_token_inj in Ev as [-> ->].
Qed.

(** [m] holds exactly the entries of the views of [r]. *)
Definition holds (f : View -> string * string) (m : Sets) (r : gset View) : Prop :=
  forall key y, member m key y <-> exists x, x ∈ r /\ f x = (key, y).

Record represents (s : MemoryRoomInterest) (r : gset View) : Prop := {
  rp_names : forall x, x ∈ r -> view_names x;
  rp_interest : holds interest_entry (interest s) r;
  rp_viewing : holds viewing_entry (viewing s) r;
  rp_tight : tight (interest s) /\ tight (viewing s)
}.

Lemma holds_add f x m r : holds f m r -> holds f (add_member (f x).1 (f x).2 m) ({[x]} ∪ r).
Proof.
  intros Hm key y. rewrite member_add, (Hm key y), <- surjective_pairing. split.
  - intros [E|(z & Hz & E)]; [exists x; set_solver|exists z; set_solver].
  - intros (z & [->%elem_of_singleton|Hz]%elem_of_union & E); [by left|right; by exists z].
Qed.

Lemma holds_remove f x m r : (forall z, z ∈ r -> f z = f x -> z = x) -> holds f m r ->
  holds f (remove_member (f x).1 (f x).2 m) (r ∖ {[x]}).
Proof.
  intros Hinj Hm key y. rewrite member_remove, (Hm key y), <- surjective_pairing. split.
  - intros [(z & Hz & E) Hne]. exists z. split; [|done]. apply elem_of_difference. split; [done|].
    intros ->%elem_of_singleton. congruence.
  - intros (z & [Hz Hne]%elem_of_difference & E). split; [by exists z|]. intros E'. apply Hne, elem_of_singleton, Hinj; [done|congruence].
Qed.

Lemma NoDup_omap_inj {A B} (f : A -> option B) (l : list A) :
  (forall x y z, x ∈ l -> y ∈ l -> f x = Some z -> f y = Some z -> x = y) -> NoDup l -> NoDup (omap f l).
Proof.
  induction l as [|x l IH]; intros Hf Hn; [constructor|]. apply list.NoDup_cons in Hn as [Hx Hn].
  assert (IH' : NoDup (omap f l)) by (apply IH; [|done]; intros ??? ??; apply Hf; by right).
  cbn [omap list_omap]. destruct (f x) as [z|] eqn:E; [|exact IH']. constructor; [|exact IH'].
  intros (y & Hy & Ey)%list_elem_of_omap. apply Hx. by rewrite (Hf x y z); [|by left|by right|..].
Qed.

Section run.
Context (iter : gset string -> list string) (Hiter : forall s, iter s ≡ₚ elements s).

Lemma elem_of_iter t s : t ∈ iter s <-> t ∈ s.
Proof. by rewrite (Hiter s), elem_of_elements. Qed.

Lemma clear_fold app member_ tokens m :
  tight m -> let m' := foldl (clear_token app member_) m tokens in
  tight m' /\ forall key y, member m' key y <-> member m key y /\
    ~ exists t d k, t ∈ tokens /\ parse_dest_token t = Some (d, k) /\ (key, y) = (interest_key app d k, member_).
Proof.
  revert m. induction tokens as [|t tokens IH]; intros m Ht; cbn [foldl].
  { split; [done|]. intros key y. split; [|by intros []]. intros Hm. split; [done|]. intros (t & d & k & H & _). by apply not_elem_of_nil in H. }
  assert (Ht' : tight (clear_token app member_ m t)).
  { unfold clear_token. destruct (parse_dest_token t) as [[d k]|]; [by apply tight_remove|done]. }
  destruct (IH _ Ht') as [Ht'' Hm]. split; [done|]. intros key y. rewrite Hm.
  assert (Hstep : member (clear_token app member_ m t) key y <-> member m key y /\
    ~ exists d k, parse_dest_token t = Some (d, k) /\ (key, y) = (interest_key app d k, member_)).
  { unfold clear_token. destruct (parse_dest_token t) as [[d k]|]; [rewrite member_remove|]; naive_solver. }
  rewrite Hstep. setoid_rewrite elem_of_cons. naive_solver.
Qed.

Lemma represents_enter app v c d k s r : name_ok app v c -> view_ok d k -> represents s r ->
  represents (enter app v c d k s).1 ({[(app, d, k, v, c)]} ∪ r).
Proof.
  intros Hn Hd [Hr Hi Hv [Ti Tv]]. split.
  - intros x [->%elem_of_singleton|Hx]%elem_of_union; [done|by apply Hr].
  - exact (holds_add interest_entry (app, d, k, v, c) _ _ Hi).
  - exact (holds_add viewing_entry (app, d, k, v, c) _ _ Hv).
  - split; by apply tight_add.
Qed.

Lemma represents_leave app v c d k s r : name_ok app v c -> view_ok d k -> represents s r ->
  represents (leave app v c d k s).1 (r ∖ {[(app, d, k, v, c)]}).
Proof.
  intros Hn Hd [Hr Hi Hv [Ti Tv]]. split.
  - intros x [Hx _]%elem_of_difference. by apply Hr.
  - apply (holds_remove interest_entry (app, d, k, v, c)); [|done]. intros z Hz. apply interest_entry_inj; [by apply Hr|done].
  - apply (holds_remove viewing_entry (app, d, k, v, c)); [|done]. intros z Hz. apply viewing_entry_inj; [by apply Hr|done].
  - split; by apply tight_remove.
Qed.

(** The conversations the cleared connection had entered. *)
Lemma cleared_tokens app v c s r t : name_ok app v c -> represents s r ->
  t ∈ default ∅ (viewing s !! viewing_key app v c) <-> exists d k, (app, d, k, v, c) ∈ r /\ t = dest_token d k.
Proof.
  intros Hn [Hr Hi Hv _]. change (t ∈ _) with (member (viewing s) (viewing_key app v c) t). rewrite (Hv _ _). split.
  - intros ([[[[a d] k] v'] c'] & Hx & [E1 E2]%pair_equal_spec). destruct (Hr _ Hx) as [Hn' Hd'].
    apply viewing_key_inj in E1 as (-> & -> & ->); [|done..]. by exists d, k.
  - intros (d & k & Hx & ->). by exists (app, d, k, v, c).
Qed.

Lemma represents_clear app v c s r : name_ok app v c -> represents s r ->
  represents (clear_channel iter app v c s).1 (filter (fun x : View => ~ (x.1.1.1.1 = app /\ x.1.2 = v /\ x.2 = c)) r).
Proof.
  intros Hn Hs. pose proof (fun t => cleared_tokens app v c s r t Hn Hs) as Htok. destruct Hs as [Hr Hi Hv [Ti Tv]].
  set (r' := filter _ r). set (tokens := default ∅ (viewing s !! viewing_key app v c)) in *.
  destruct (clear_fold app (viewer_encode (mkViewerRef v c)) (iter tokens) (interest s) Ti) as [Ti' Hm].
  assert (Ec : (clear_channel iter app v c s).1 =
    mkRoomInterest (foldl (clear_token app (viewer_encode (mkViewerRef v c))) (interest s) (iter tokens))
      (delete (viewing_key app v c) (viewing s))).
  { unfold clear_channel. fold tokens. case_decide as Et; [|done]. cbn [fst interest viewing].
    assert (iter tokens = []) as ->; [|done]. apply Permutation_nil. by rewrite Hiter, Et, elements_empty. }
  rewrite Ec. split; cbn [interest viewing].
  - intros x [_ Hx]%elem_of_filter. by apply Hr.
  - intros key y. rewrite Hm, (Hi key y). split.
    + intros [([[[[a d] k] v'] c'] & Hx & E) Hno]. exists (a, d, k, v', c'). split; [|done]. apply elem_of_filter.
      split; [|done]. cbn. intros (-> & -> & ->). apply Hno. exists (dest_token d k), d, k. split_and!; [|by apply parse_dest_token_dest_token, (Hr _ Hx)|done].
      apply elem_of_iter, Htok. by exists d, k.
    + intros (x & [Hnx Hx]%elem_of_filter & E). split; [by exists x|]. intros (t & d & k & Ht & Hp & Ekey).
      apply elem_of_iter, Htok in Ht as (d' & k' & Hx' & ->). rewrite parse_dest_token_dest_token in Hp by apply (Hr _ Hx').
      injection Hp as -> ->. assert (x = (app, d, k, v, c)) as ->; [|by apply Hnx].
      apply interest_entry_inj; [by apply Hr|by apply Hr|]. rewrite E, Ekey. done.
  - intros key y. unfold member. destruct (decide (key = viewing_key app v c)) as [->|Hne].
    + rewrite lookup_delete_eq. split; [by intros ?%elem_of_empty|].
      intros ([[[[a d] k] v'] c'] & [Hnx Hx]%elem_of_filter & [E1 _]%pair_equal_spec). destruct Hnx.
      apply viewing_key_inj in E1 as (-> & -> & ->); [done|apply (Hr _ Hx)|done].
    + rewrite lookup_delete_ne by done. change (y ∈ _) with (member (viewing s) key y). rewrite (Hv key y).
      split; intros ([[[[a d] k] v'] c'] & Hx & E).
      * exists (a, d, k, v', c'). split; [|done]. apply elem_of_filter. split; [|done]. cbn. intros (-> & -> & ->). by injection E as <- _.
      * exists (a, d, k, v', c'). by apply elem_of_filter in Hx as [_ Hx].
  - split; [done|by apply tight_delete].
Qed.

Lemma represents_run ops : Forall room_op_ok ops -> represents (room_run iter ops) (spec_run ops).
Proof.
  unfold room_run, spec_run. induction ops as [|op ops IH] using rev_ind; intros Hok.
  - split; [by intros x ?%elem_of_empty| | |].
    1,2: intros key y; unfold member; cbn [interest viewing room_run foldl MemoryRoomInterest_new]; rewrite lookup_empty;
      split; [by intros ?%elem_of_empty|by intros (x & ?%elem_of_empty & _)].
    split; intros key; cbn; by rewrite lookup_empty.
  - apply Forall_app in Hok as [Hops [Hop _]%list.Forall_cons]. rewrite !foldl_app. specialize (IH Hops). cbn [foldl].
    destruct op as [app v c d k|app v c d k|app v c]; cbn [room_op_ok room_step spec_step] in *.
    + destruct Hop. by apply represents_enter.
    + destruct Hop. by apply represents_leave.
    + by apply represents_clear.
Qed.

Lemma viewers_represented s r app dest kind : represents s r -> no_char ":" app = true -> view_ok dest kind ->
  exists l, viewers iter app dest kind s = Ok l /\ NoDup l /\
    forall v, v ∈ l <-> (app, dest, kind, vr_account v, vr_channel_id v) ∈ r.
Proof.
  intros [Hr Hi _ _] Happ Hview.
  assert (Hdec : forall v, (app, dest, kind, vr_account v, vr_channel_id v) ∈ r -> viewer_decode (viewer_encode v) = Some v).
  { intros v Hx. destruct (Hr _ Hx) as [Hn _]. destruct v. by eapply viewer_decode_encode. }
  assert (Hmem : forall y, y ∈ default ∅ (interest s !! interest_key app dest kind) <->
      exists v, (app, dest, kind, vr_account v, vr_channel_id v) ∈ r /\ y = viewer_encode v).
  { intros y. change (y ∈ _) with (member (interest s) (interest_key app dest kind) y). rewrite (Hi _ _). split.
    - intros ([[[[a d] k] v'] c'] & Hx & [E1 E2]%pair_equal_spec). destruct (Hr _ Hx) as [Hn' Hd'].
      apply interest_key_inj in E1 as (-> & -> & ->); [|apply Hn'|done..]. by exists (mkViewerRef v' c').
    - intros (v & Hx & ->). eexists. split; [exact Hx|]. by destruct v. }
  unfold viewers. destruct (interest s !! interest_key app dest kind) as [set|]; cbn [default from_option id] in Hmem.
  - eexists. split; [reflexivity|]. split.
    + apply NoDup_omap_inj; [|rewrite Hiter; apply NoDup_elements].
      intros y y' v (u & Hu & ->)%elem_of_iter%Hmem (u' & Hu' & ->)%elem_of_iter%Hmem E E'.
      rewrite (Hdec _ Hu) in E. rewrite (Hdec _ Hu') in E'. congruence.
    + intros v. rewrite list_elem_of_omap. split.
      * intros (y & (u & Hx & ->)%elem_of_iter%Hmem & E). rewrite (Hdec _ Hx) in E. by injection E as ->.
      * intros Hx. exists (viewer_encode v). split; [|by apply Hdec]. apply elem_of_iter, Hmem. by exists v.
  - exists []. split; [done|]. split; [constructor|]. intros v. split; [by intros ?%not_elem_of_nil|].
    intros Hx. assert (Hin : viewer_encode v ∈ (∅ : gset string)) by (apply Hmem; by exists v). by apply elem_of_empty in Hin.
Qed.

(** Rooms are a relation.  After any history of entries, departures and ended
    connections, the viewers of a conversation are exactly the accounts and
    connections that entered it and neither left it nor ended since, each listed
    once, whatever characters the conversation's name has; a store that nobody
    views anything in is empty, so it does not grow with what has been. *)
Theorem rooms_refine_relation (ops : list RoomOp) (Hok : Forall room_op_ok ops) (app dest : string) (kind : Z)
  (Happ : no_char ":" app = true) (Hview : view_ok dest kind) :
  (exists l, viewers iter app dest kind (room_run iter ops) = Ok l /\ NoDup l /\
     forall v, v ∈ l <-> (app, dest, kind, vr_account v, vr_channel_id v) ∈ spec_run ops) /\
  (spec_run ops = ∅ -> room_run iter ops = MemoryRoomInterest_new).
Proof.
  pose proof (represents_run ops Hok) as Hrun. split; [by apply viewers_represented|].
  destruct Hrun as [_ Hi Hv [Ti Tv]]. intros E. destruct (room_run iter ops) as [i w]. cbn [interest viewing] in *.
  unfold MemoryRoomInterest_new. f_equal; (apply tight_empty; [done|]); intros key y Hm.
  - apply Hi in Hm as (x & Hx & _). rewrite E in Hx. by apply elem_of_empty in Hx.
  - apply Hv in Hm as (x & Hx & _). rewrite E in Hx. by apply elem_of_empty in Hx.
Qed.
End run.

Definition room_ops : list RoomOp :=
  [REnter "kim" "alice" "ch:1#a" "bob:x" 0; REnter "kim" "carol" "ch2" "bob:x" 0; RClear "kim" "alice" "ch:1#a"]%string.

Lemma rooms_refine_relation_witness :
  exists l, viewers elements "kim" "bob:x" 0 (room_run elements room_ops) = Ok l /\ NoDup l /\
    forall v, v ∈ l <-> ("kim", "bob:x", 0, vr_account v, vr_channel_id v)%string ∈ spec_run room_ops.
Proof.
  apply (rooms_refine_relation elements (fun s => reflexivity _) room_ops); [|reflexivity|split; [discriminate|]].
  - repeat (apply List.Forall_cons; [repeat split; done|]). apply List.Forall_nil.
  - done.
Defined.
