(* ===== verification/AgentStore.v ===== *)
(** The agent specs an owner's devices share: the memory store of
    services/chat/src/agent_spec.rs.  The last writer wins, by the time the device
    gave; devices that sent the same updates in different orders see the same. *)

From S2P Require Import Prelude.
From stdpp Require Import gmap sets list strings.
Open Scope Z_scope.
Open Scope kim_scope.

Record AgentSpecRecord := mkAgentSpecRecord {
  ar_profile_id : string;
  ar_nickname : string;
  ar_server_account : string;
  ar_spec : bytes;
  ar_key_ciphertext : bytes;
  ar_updated_at : Z;
  ar_deleted_at : Z
}.

Record AgentProviderAccount := mkAgentProviderAccount {
  ap_id : string;
  ap_vendor_id : string;
  ap_base_url : string;
  ap_key_ref : string;
  ap_display_name : string;
  ap_models : list string;
  ap_updated_at : Z;
  ap_deleted_at : Z
}.

Inductive AgentSpecError : Type := SpecInvalid | SpecNotOwner | SpecBackend (msg : string).

(** App, owner, item. *)
Abbreviation OwnerItemKey := (string * string * string)%type.

Record MemoryAgentSpecStore := mkAgentSpecStore {
  as_inner : gmap OwnerItemKey AgentSpecRecord;
  as_accounts : gmap OwnerItemKey AgentProviderAccount
}.
Definition MemoryAgentSpecStore_new : MemoryAgentSpecStore := mkAgentSpecStore ∅ ∅.

Section items.
Context {T : Type} (item_id : T -> string) (updated_at : T -> Z).

(** The items of an owner, by their id. *)
Definition list_items (app owner : string) (m : gmap OwnerItemKey T) : list T :=
  sort_by (fun a b => str_le (item_id a) (item_id b))
    (snd <$> List.filter (fun x : OwnerItemKey * T => bool_decide (x.1.1.1 = app) && bool_decide (x.1.1.2 = owner)) (map_to_list m)).

(** The stored item stays when it is newer, and is then the answer. *)
Definition upsert_item (app owner : string) (rec : T) (m : gmap OwnerItemKey T) : gmap OwnerItemKey T * T :=
  let key := (app, owner, item_id rec) in
  match m !! key with
  | Some stored => if updated_at rec <? updated_at stored then (m, stored) else (<[key := rec]> m, rec)
  | None => (<[key := rec]> m, rec)
  end.
End items.

Definition spec_list (app owner : string) (s : MemoryAgentSpecStore) : result (list AgentSpecRecord) AgentSpecError :=
  Ok (list_items ar_profile_id app owner (as_inner s)).
Definition spec_upsert (app owner : string) (rec : AgentSpecRecord) (s : MemoryAgentSpecStore)
  : MemoryAgentSpecStore * result AgentSpecRecord AgentSpecError :=
  if str_is_empty (ar_profile_id rec) || bool_decide (ar_spec rec = []) then (s, Err SpecInvalid)
  else
    let '(m, stored) := upsert_item ar_profile_id ar_updated_at app owner rec (as_inner s) in
    (mkAgentSpecStore m (as_accounts s), Ok stored).
Definition spec_list_accounts (app owner : string) (s : MemoryAgentSpecStore)
  : result (list AgentProviderAccount) AgentSpecError :=
  Ok (list_items ap_id app owner (as_accounts s)).
Definition spec_upsert_account (app owner : string) (rec : AgentProviderAccount) (s : MemoryAgentSpecStore)
  : MemoryAgentSpecStore * result AgentProviderAccount AgentSpecError :=
  if str_is_empty (ap_id rec) then (s, Err SpecInvalid)
  else
    let '(m, stored) := upsert_item ap_id ap_updated_at app owner rec (as_accounts s) in
    (mkAgentSpecStore (as_inner s) m, Ok stored).

Inductive SpecOp : Type :=
| SpUpsert (app owner : string) (rec : AgentSpecRecord)
| SpAccount (app owner : string) (rec : AgentProviderAccount).

Definition spec_step (s : MemoryAgentSpecStore) (op : SpecOp) : MemoryAgentSpecStore :=
  match op with
  | SpUpsert app owner rec => (spec_upsert app owner rec s).1
  | SpAccount app owner rec => (spec_upsert_account app owner rec s).1
  end.
Definition spec_run (ops : list SpecOp) : MemoryAgentSpecStore := foldl spec_step MemoryAgentSpecStore_new ops.

(** ** The last writer *)

Section writers.
Context {T : Type} (updated_at : T -> Z).
Implicit Types (r x : T) (l : list T).

Definition later (cur : option T) (rec : T) : option T :=
  match cur with
  | Some stored => if updated_at rec <? updated_at stored then Some stored else Some rec
  | None => Some rec
  end.
Definition last_writer l : option T := foldl later None l.

(** The newest of a sequence of writes, of equally new ones the last. *)
Definition newest l r : Prop :=
  exists before after, l = before ++ r :: after /\
    (forall x, x ∈ before -> updated_at x <= updated_at r) /\ (forall x, x ∈ after -> updated_at x < updated_at r).

Lemma newest_snoc l c r : newest l c ->
  if updated_at r <? updated_at c then newest (l ++ [r]) c else newest (l ++ [r]) r.
Proof.
  intros (b & a & -> & Hb & Ha). destruct (Z.ltb_spec (updated_at r) (updated_at c)) as [Hlt|Hge].
  - exists b, (a ++ [r]). split; [by rewrite <- app_assoc|]. split; [done|].
    intros x [Hx|Hx]%elem_of_app; [by apply Ha|]. by apply list_elem_of_singleton in Hx as ->.
  - exists (b ++ c :: a), []. split; [done|]. split; [|by intros x ?%not_elem_of_nil].
    intros x [Hx|[->|Hx]%elem_of_cons]%elem_of_app; [apply Hb in Hx|..|apply Ha in Hx]; lia.
Qed.

Lemma last_writer_newest l : match last_writer l with Some r => newest l r | None => l = [] end.
Proof.
  induction l as [|r l IH] using rev_ind; [done|]. unfold last_writer in *. rewrite foldl_app. cbn [foldl].
  destruct (foldl later None l) as [c|]; simpl.
  - pose proof (newest_snoc _ c r IH). by destruct (_ <? _).
  - subst l. exists [], []. split; [done|]. split; intros x ?%not_elem_of_nil; done.
Qed.

Lemma newest_unique l r r' : newest l r -> newest l r' -> r = r'.
Proof.
  intros (b & a & -> & Hb & Ha) (b' & a' & E & Hb' & Ha').
  revert b' E Hb'. induction b as [|x b IH]; intros [|x' b'] E Hb'; simpl in E.
  - by injection E.
  - injection E as -> ->. assert (H1 := Hb' x' ltac:(by left)). assert (H2 : updated_at r' < updated_at x') by (apply Ha, elem_of_app; right; by left). lia.
  - injection E as -> <-. assert (H1 := Hb r' ltac:(by left)). assert (H2 : updated_at r < updated_at r') by (apply Ha', elem_of_app; right; by left). lia.
  - injection E as -> E. apply (IH (fun y Hy => Hb y ltac:(by right)) b' E). intros y Hy. apply Hb'. by right.
Qed.

(** With distinct times the newest does not depend on the order. *)
Lemma newest_perm l l' r r' : l ≡ₚ l' -> NoDup (updated_at <$> l) -> newest l r -> newest l' r' -> r = r'.
Proof.
  intros Hp Hn (b & a & El & Hb & Ha) (b' & a' & El' & Hb' & Ha').
  assert (Hr : r ∈ l') by (rewrite <- Hp, El; set_solver). assert (Hr' : r' ∈ l) by (rewrite Hp, El'; set_solver).
  assert (Hle : updated_at r' <= updated_at r).
  { rewrite El in Hr'. apply elem_of_app in Hr' as [H%Hb|[->|H%Ha]%elem_of_cons]; lia. }
  assert (Hle' : updated_at r <= updated_at r').
  { rewrite El' in Hr. apply elem_of_app in Hr as [H%Hb'|[->|H%Ha']%elem_of_cons]; lia. }
  assert (Heq : updated_at r = updated_at r') by lia. clear -Hn El Hr' Heq. subst l.
  rewrite fmap_app in Hn. cbn [fmap list_fmap] in Hn. apply list.NoDup_app in Hn as (_ & Hd & [Hna _]%list.NoDup_cons).
  apply elem_of_app in Hr' as [H|[->|H]%elem_of_cons]; [|done|].
  - destruct (Hd (updated_at r')); [by apply list_elem_of_fmap_2|]. rewrite <- Heq. by left.
  - destruct Hna. rewrite Heq. by apply list_elem_of_fmap_2.
Qed.

End writers.

Section lookups.
Context {T : Type} (item_id : T -> string) (updated_at : T -> Z).
Implicit Types (r x : T) (l : list T) (m : gmap OwnerItemKey T).

Lemma upsert_item_lookup app owner rec m key :
  (upsert_item item_id updated_at app owner rec m).1 !! key =
  if decide (key = (app, owner, item_id rec)) then later updated_at (m !! key) rec else m !! key.
Proof.
  unfold upsert_item, later. case_decide as E; [subst key|].
  - destruct (m !! _) as [stored|] eqn:Es; [|apply lookup_insert_eq]. destruct (_ <? _); [done|apply lookup_insert_eq].
  - destruct (m !! (app, owner, _)) as [stored|]; [destruct (_ <? _); [done|]|]; by apply lookup_insert_ne.
Qed.

Lemma elem_of_list_items app owner m r : (forall key x, m !! key = Some x -> item_id x = key.2) ->
  r ∈ list_items item_id app owner m <-> m !! (app, owner, item_id r) = Some r.
Proof.
  intros Hk. unfold list_items. rewrite elem_of_sort_by, list_elem_of_fmap. split.
  - intros ([[[a o] i] x] & -> & [Hp Hx%elem_of_map_to_list]%elem_of_list_filter_bool). cbn [fst snd] in *.
    apply andb_true_iff in Hp as [->%bool_decide_eq_true ->%bool_decide_eq_true]. by rewrite (Hk _ _ Hx).
  - intros Hr. exists ((app, owner, item_id r), r). split; [done|]. apply elem_of_list_filter_bool. cbn [fst snd].
    rewrite !bool_decide_eq_true_2 by done. split; [done|]. by apply elem_of_map_to_list.
Qed.

Lemma list_items_sorted app owner m :
  StronglySorted (fun a b => str_le (item_id a) (item_id b) = true) (list_items item_id app owner m).
Proof.
  apply StronglySorted_sort_by.
  - intros x y. apply str_le_total.
  - intros x y z. apply str_le_trans.
Qed.
End lookups.

(** The accepted writes of a history to one item. *)
Definition spec_writes (ops : list SpecOp) (key : OwnerItemKey) : list AgentSpecRecord :=
  omap (fun op => match op with
    | SpUpsert app owner rec =>
      if str_is_empty (ar_profile_id rec) || bool_decide (ar_spec rec = []) then None
      else if decide ((app, owner, ar_profile_id rec) = key) then Some rec else None
    | SpAccount _ _ _ => None
    end) ops.
Definition account_writes (ops : list SpecOp) (key : OwnerItemKey) : list AgentProviderAccount :=
  omap (fun op => match op with
    | SpAccount app owner rec =>
      if str_is_empty (ap_id rec) then None
      else if decide ((app, owner, ap_id rec) = key) then Some rec else None
    | SpUpsert _ _ _ => None
    end) ops.

Lemma spec_run_lookup ops key :
  as_inner (spec_run ops) !! key = last_writer ar_updated_at (spec_writes ops key) /\
  as_accounts (spec_run ops) !! key = last_writer ap_updated_at (account_writes ops key).
Proof.
  unfold spec_run, spec_writes, account_writes. induction ops as [|op ops IH] using rev_ind; [split; apply lookup_empty|].
  destruct IH as [IH1 IH2]. rewrite !foldl_app, !omap_app. cbn [foldl omap list_omap]. unfold last_writer in *. rewrite !foldl_app, <- IH1, <- IH2.
  destruct op as [app owner rec|app owner rec]; cbn [spec_step]; unfold spec_upsert, spec_upsert_account.
  - destruct (_ || _); [done|]. pose proof (upsert_item_lookup ar_profile_id ar_updated_at app owner rec
      (as_inner (foldl spec_step MemoryAgentSpecStore_new ops)) key) as E.
    destruct (upsert_item _ _ _ _ _ _) as [m stored]. cbn [fst as_inner as_accounts] in *. rewrite E. split; [|done].
    repeat case_decide; subst; try done; by exfalso.
  - destruct (str_is_empty _); [done|]. pose proof (upsert_item_lookup ap_id ap_updated_at app owner rec
      (as_accounts (foldl spec_step MemoryAgentSpecStore_new ops)) key) as E.
    destruct (upsert_item _ _ _ _ _ _) as [m stored]. cbn [fst as_inner as_accounts] in *. rewrite E. split; [done|].
    repeat case_decide; subst; try done; by exfalso.
Qed.

Lemma last_writer_perm {T} (t : T -> Z) l l' : l ≡ₚ l' -> NoDup (t <$> l) -> last_writer t l = last_writer t l'.
Proof.
  intros Hp Hn. pose proof (last_writer_newest t l) as H. pose proof (last_writer_newest t l') as H'.
  destruct (last_writer t l) as [r|], (last_writer t l') as [r'|]; [| | |done].
  - f_equal. exact (newest_perm t l l' r r' Hp Hn H H').
  - subst l'. apply Permutation_nil_r in Hp as ->. by destruct H as ([] & ? & ? & _).
  - subst l. apply Permutation_nil_l in Hp as <-. by destruct H' as ([] & ? & ? & _).
Qed.

Lemma spec_writes_id ops key rec : rec ∈ spec_writes ops key -> ar_profile_id rec = key.2.
Proof.
  intros (op & _ & E)%list_elem_of_omap. destruct op as [app owner r|]; [|done].
  destruct (_ || _); [done|]. case_decide; [|done]. by simplify_eq.
Qed.

(** Devices converge.  What the store lists for an owner is, sorted and for
    each profile, the accepted write with the greatest time (of equal ones the
    last); so when two devices' updates arrive in different orders, and no two
    writes of an item carry the same time, every order leaves the same specs and
    the same provider accounts. *)
Theorem specs_converge (ops : list SpecOp) :
  (forall app owner rec,
     (exists l, spec_list app owner (spec_run ops) = Ok l /\
        StronglySorted (fun a b => str_le (ar_profile_id a) (ar_profile_id b) = true) l /\
        (rec ∈ l <-> newest ar_updated_at (spec_writes ops (app, owner, ar_profile_id rec)) rec))) /\
  (forall ops', ops ≡ₚ ops' ->
     (forall key, NoDup (ar_updated_at <$> spec_writes ops key) /\ NoDup (ap_updated_at <$> account_writes ops key)) ->
     spec_run ops = spec_run ops').
Proof.
  split.
  - intros app owner rec. eexists. split; [reflexivity|]. split; [apply list_items_sorted|].
    rewrite elem_of_list_items.
    + rewrite (proj1 (spec_run_lookup ops _)). pose proof (last_writer_newest ar_updated_at (spec_writes ops (app, owner, ar_profile_id rec))) as Hn.
      destruct (last_writer _ _) as [r|].
      * split; [by intros [= <-]|]. intros Hr. f_equal. by eapply newest_unique.
      * split; [done|]. rewrite Hn. by intros ([] & ? & ? & _).
    + intros key x. rewrite (proj1 (spec_run_lookup ops key)). intros E.
      pose proof (last_writer_newest ar_updated_at (spec_writes ops key)) as Hn. rewrite E in Hn.
      destruct Hn as (b & a & Ew & _). apply (spec_writes_id ops key x). rewrite Ew. apply elem_of_app. right. by left.
  - intros ops' Hp Hd.
    assert (E : as_inner (spec_run ops) = as_inner (spec_run ops') /\ as_accounts (spec_run ops) = as_accounts (spec_run ops')).
    { split; apply map_eq; intros key; destruct (spec_run_lookup ops key) as [E1 E2], (spec_run_lookup ops' key) as [E1' E2'].
      - rewrite E1, E1'. apply last_writer_perm; [by apply omap_Permutation|apply Hd].
      - rewrite E2, E2'. apply last_writer_perm; [by apply omap_Permutation|apply Hd]. }
    destruct (spec_run ops), (spec_run ops'), E; simpl in *; by subst.
Qed.

Definition spec_of (nickname : string) (time : Z) : AgentSpecRecord :=
  mkAgentSpecRecord "p1" nickname "" (bytes_of "{}") [] time 0.

Lemma specs_converge_witness :
  spec_run [SpUpsert "kim" "alice" (spec_of "old" 1); SpUpsert "kim" "alice" (spec_of "new" 2)] =
  spec_run [SpUpsert "kim" "alice" (spec_of "new" 2); SpUpsert "kim" "alice" (spec_of "old" 1)].
Proof.
  refine (proj2 (specs_converge _) _ (Permutation_swap _ _ _) _). intros key.
  unfold spec_writes, account_writes. cbn. split; [|constructor].
  destruct (decide _); [|constructor]. apply (bool_decide_unpack _). vm_compute. exact I.
Defined.
