(* ===== verification/Effects.v ===== *)
(** The service handlers as programs over the calls they await.

    A handler of services/chat is an async function that calls a dispatcher, the
    session storage, the message store and the directories: a [Proc A], a program
    over the calls [Eff].  A [tokio::time::timeout] is [timeout]: the limit may
    pass at any awaited call, before it takes effect or after; a push that took
    effect has been polled to its end. *)

From S2P Require Import Prelude Prog Wire Pkt Location SessionStore Store Social Groups Users Interest AgentStore.
Open Scope Z_scope.
Open Scope kim_scope.

(** ** Errors and data of the interfaces *)

Inductive RouterError : Type :=
| RDispatcher (msg : string) | RSession (e : SessionError) | RProtocol (e : ProtocolError)
| ROther (msg : string).

(** ** Calls *)

(** The three time limits of the talk path, and that of the lookup of members. *)
Inductive Deadline : Type := DirectoryBudget | TargetsBudget | PushBudget | MemberLookupBudget.
(** What a time limit does at an awaited call: not yet, before the call takes
    effect, after it took effect but before its answer is seen. *)
Inductive Cut : Type := Go | CutBefore | CutDuring.

Inductive Eff : Type -> Type :=
| EPush (gateway : GatewayId) (channels : list ChannelId) (pkt : LogicPkt) : Eff (result unit RouterError)
| ESessionAdd (session : Session) : Eff (result unit SessionError)
| ESessionDelete (account : AccountId) (channel : ChannelId) : Eff (result unit SessionError)
| EGetLocations (accounts : list AccountId) : Eff (result (list Location) SessionError)
| EListLocations (account : AccountId) : Eff (result (list Location) SessionError)
| ELookup (app account : string) : Eff (result (option UserPresence) UserError)
| EUpsert (app account : string) : Eff (result unit UserError)
| EBlockedEither (app a b : string) : Eff (result bool SocialError)
| EIsFriend (app a b : string) : Eff (result bool SocialError)
| EMembers (app group : string) : Eff (result (list string) GroupError)
| EInsertUser (app : string) (req : InsertMessage) : Eff (result InsertResult StoreError)
| EInsertGroup (app : string) (req : InsertMessage) (members : list string)
  : Eff (result InsertResult StoreError)
| EAck (app account target_id : string) (ids : list Z) : Eff (result unit StoreError)
| EOfflineIndex (app account target_id : string) (message_id : Z) (resume : bool)
  : Eff (result (list MessageIndexRow * bool) StoreError)
| EOfflineContent (app account : string) (ids : list Z) : Eff (result (list MessageContentRow) StoreError)
| EBackfill (app account target_id : string) : Eff (result unit StoreError)
| EGroupCreate (app : string) (req : CreateGroup) : Eff (result string GroupError)
| EGroupJoin (app group account : string) : Eff (result unit GroupError)
| EGroupQuit (app group account : string) : Eff (result unit GroupError)
| EGroupDetail (app group : string) : Eff (result GroupInfo GroupError)
| EGroupSummaries (app : string) (groups : list string) : Eff (result (list GroupSummary) GroupError)
| EFriendRequest (app from to : string) : Eff (result FriendRequestOutcome SocialError)
| EFriendAccept (app account from : string) : Eff (result unit SocialError)
| EFriendReject (app account from : string) : Eff (result unit SocialError)
| EFriendRemove (app account peer : string) : Eff (result unit SocialError)
| EBlock (app account peer : string) : Eff (result unit SocialError)
| EUnblock (app account peer : string) : Eff (result unit SocialError)
| EListFriends (app account : string) : Eff (result (list string) SocialError)
| EIncoming (app account : string) : Eff (result (list string) SocialError)
| EListBlocked (app account : string) : Eff (result (list string) SocialError)
| EUserExists (app account : string) : Eff (result bool UserError)
| EProfile (app account : string) : Eff (result (option UserProfile) UserError)
| EProfiles (app : string) (accounts : list string) : Eff (result (list UserProfile) UserError)
| EUpdateProfile (app account : string) (patch : ProfilePatch) : Eff (result UserProfile UserError)
| ESearch (app query : string) (exclude : list string) (limit : Z) : Eff (result (list UserProfile) UserError)
| ECreateBot (app : string) (req : CreateBot) : Eff (result BotRecord UserError)
| EUpdateBot (app owner account : string) (patch : BotPatch) : Eff (result BotRecord UserError)
| EDeleteBot (app owner account : string) : Eff (result unit UserError)
| EInsertBotReply (app owner bot : string) (in_reply_to : Z) (req : InsertMessage)
  : Eff (result InsertResult StoreError)
| EBotPending (app owner bot : string) (limit : Z) : Eff (result (list BotPendingItem) StoreError)
| EPurge (app account peer : string) : Eff (result unit StoreError)
| EInbox (app account : string) (limit : Z) : Eff (result (list InboxEntry) StoreError)
| EHistory (app account dest : string) (kind : MessageKind) (before_id limit : Z)
  : Eff (result (list HistoryEntry) StoreError)
| EMarkRead (app account dest : string) (kind : MessageKind) (message_id : Z)
  : Eff (result ConversationReadState StoreError)
| EStates (app account : string) (keys : list ConversationStateKey)
  : Eff (result (list ConversationReadState) StoreError)
| EEnter (app viewer channel dest : string) (kind : Z) : Eff (result unit InterestError)
| ELeave (app viewer channel dest : string) (kind : Z) : Eff (result unit InterestError)
| EViewers (app dest : string) (kind : Z) : Eff (result (list ViewerRef) InterestError)
| ESpecs (app owner : string) : Eff (result (list AgentSpecRecord) AgentSpecError)
| ESpecAccounts (app owner : string) : Eff (result (list AgentProviderAccount) AgentSpecError)
| ESpecUpsert (app owner : string) (rec : AgentSpecRecord) : Eff (result AgentSpecRecord AgentSpecError)
| ESpecUpsertAccount (app owner : string) (rec : AgentProviderAccount)
  : Eff (result AgentProviderAccount AgentSpecError)
| ESessionGet (channel : ChannelId) : Eff (result Session SessionError)
| EHubAdded (app account : string) : Eff unit
| EHubRemoved (app account channel : string) : Eff unit
| EDispatchFail (label : string) : Eff unit
| ENow : Eff Z
| ECut (deadline : Deadline) : Eff Cut.

(** Synchronous calls are no await points. *)
Definition awaited {X} (e : Eff X) : bool :=
  match e with EDispatchFail _ | ENow | ECut _ => false | _ => true end.

(** A push is over once it takes effect: nothing is awaited between the queue of the
    gateway's connection taking the frame and the handler going on (dispatch_via in
    services/chat/src/lib.rs, Container::push, Server::push, push_frame), and a limit
    polls its program before its clock. *)
Definition settles {X} (e : Eff X) : bool :=
  match e with EPush _ _ _ => true | _ => false end.

(** ** Programs *)

Abbreviation Proc := (Prog Eff).
Abbreviation Event := (EventOf Eff).

(** [tokio::time::timeout(budget, p)]: [None] when the limit cut it. *)
Fixpoint timeout {A} (d : Deadline) (p : Proc A) : Proc (option A) :=
  match p with
  | Ret a => Ret (Some a)
  | Vis e k =>
    if awaited e then
      Vis (ECut d) (fun c =>
        match c with
        | Go => Vis e (fun x => timeout d (k x))
        | CutBefore => Ret None
        | CutDuring => Vis e (fun x => if settles e then timeout d (k x) else Ret None)
        end)
    else Vis e (fun x => timeout d (k x))
  end.

(** Cuts a time limit, never reached, asks for. *)
Definition uncut (d : Deadline) (tr : list Event) : Prop :=
  forall c, Ev (ECut d) c ∈ tr -> c = Go.

Lemma uncut_app d tr tr' : uncut d (tr ++ tr') <-> uncut d tr /\ uncut d tr'.
Proof. unfold uncut. setoid_rewrite elem_of_app. naive_solver. Qed.

Definition cut_in (ev : Event) : option (Deadline * Cut) :=
  match ev with @Ev _ X e x => match e in Eff X return X -> _ with
  | ECut d => fun c => Some (d, c)
  | _ => fun _ => None
  end x end.

(** An interpreter that never lets a limit pass. *)
Lemma uncut_run {S A} (h : forall X, Eff X -> S -> S * X) d (p : Proc A) s :
  (forall s, (h Cut (ECut d) s).2 = Go) -> uncut d (run h p s).1.2.
Proof.
  intros Hh. revert s. induction p as [a|X e k IH]; intros s c; simpl.
  - intros Hc. by apply not_elem_of_nil in Hc.
  - destruct (h X e s) as [s1 x] eqn:E. specialize (IH x s1). destruct (run h (k x) s1) as [[s2 tr] a].
    intros [Hc|Hc]%elem_of_cons; [|by apply IH].
    apply (f_equal cut_in) in Hc. simpl in Hc. destruct e; try done.
    injection Hc as <- ->. specialize (Hh s). by rewrite E in Hh.
Qed.

(** The calls of a trace: the questions of the time limits left out. *)
Definition real (ev : Event) : list Event :=
  match ev with Ev e _ => match e with ECut _ => [] | _ => [ev] end end.
Definition calls (tr : list Event) : list Event := flat_map real tr.

Lemma calls_cons ev tr : calls (ev :: tr) = real ev ++ calls tr.
Proof. done. Qed.
Lemma calls_app tr tr' : calls (tr ++ tr') = calls tr ++ calls tr'.
Proof. apply flat_map_app. Qed.

Section limits.
Context {A : Type}.
Implicit Types p : Proc A.

Lemma uncut_cons d ev tr : uncut d (ev :: tr) -> uncut d tr.
Proof. intros H c Hc. apply H. by right. Qed.

Lemma not_uncut d c tr : c <> Go -> ~ uncut d (Ev (ECut d) c :: tr).
Proof. intros Hc H. apply Hc, H. by left. Qed.

(** [I] holds of the calls made wherever a time limit can cut [p]. *)
Fixpoint cutp p (I : list Event -> Prop) : Prop :=
  match p with
  | Ret _ => True
  | Vis e k => (awaited e = true -> I []) /\ forall x,
      (awaited e = true -> settles e = false -> I (real (Ev e x))) /\ cutp (k x) (fun l => I (real (Ev e x) ++ l))
  end.

Lemma satp_cutp p I : satp p (fun tr => I (calls tr)) -> cutp p I.
Proof.
  revert I. induction p as [a|X e k IH]; simpl; intros I; [done|]. intros [H0 Hp]. split; [done|]. intros x.
  assert (Hx : satp (k x) (fun tr => I (real (Ev e x) ++ calls tr))) by exact (Hp x).
  split; [|exact (IH x (fun l => I (real (Ev e x) ++ l)) Hx)]. intros _ _.
  apply satp_nil in Hx. by rewrite app_nil_r in Hx.
Qed.

(** A time-limited program makes the calls it makes alone, or the first of them;
    it returns nothing only when the limit passed. *)
Lemma sat_timeout d p (P : list Event -> A -> Prop) (I : list Event -> Prop) :
  sat p (fun tr a => P (calls tr) a) -> cutp p I ->
  sat (timeout d p) (fun tr o =>
    match o with Some a => P (calls tr) a | None => I (calls tr) /\ ~ uncut d tr end).
Proof.
  revert P I. induction p as [a|X e k IH]; simpl; intros P I Hs; [done|]. intros [H0 Hp].
  assert (Hstep : forall pre x, sat (timeout d (k x)) (fun tr o =>
    match o with
    | Some a => P (calls (pre ++ Ev e x :: tr)) a
    | None => I (calls (pre ++ Ev e x :: tr)) /\ ~ uncut d (pre ++ Ev e x :: tr)
    end) \/ calls pre <> []).
  { intros pre x. destruct (calls pre) eqn:Epre; [left|by right].
    eapply sat_mono; [|apply (IH x (fun l a => P (real (Ev e x) ++ l) a) (fun l => I (real (Ev e x) ++ l)))].
    - intros tr [a|]; rewrite calls_app, Epre; [done|]. intros [HI Hc]. split; [exact HI|].
      intros Hu. apply Hc. apply uncut_app in Hu as [_ Hu]. by eapply uncut_cons.
    - exact (Hs x).
    - exact (proj2 (Hp x)). }
  destruct (awaited e).
  - intros [| |]; simpl.
    + intros x. by destruct (Hstep [Ev (ECut d) Go] x).
    + split; [by apply H0|]. by apply not_uncut.
    + intros x. destruct (settles e) eqn:Es; [by destruct (Hstep [Ev (ECut d) CutDuring] x)|].
      split; [|by apply not_uncut]. simpl. rewrite app_nil_r. by apply (Hp x).
  - intros x. by destruct (Hstep [] x).
Qed.

(** The same for a program of which only the prefixes matter. *)
Lemma satp_timeout d p (I : list Event -> Prop) :
  satp p (fun tr => I (calls tr)) -> satp (timeout d p) (fun tr => I (calls tr)).
Proof.
  revert I. induction p as [a|X e k IH]; simpl; intros I [H0 Hp]; [done|].
  assert (Hx : forall x, satp (timeout d (k x)) (fun tr => I (real (Ev e x) ++ calls tr))).
  { intros x. apply (IH x (fun l => I (real (Ev e x) ++ l))). exact (Hp x). }
  destruct (awaited e); simpl; (split; [done|]); [|exact Hx].
  intros [| |]; simpl.
  - split; [done|]. exact Hx.
  - done.
  - split; [done|]. intros x. destruct (settles e); [exact (Hx x)|]. split; [|done]. exact (satp_nil _ _ (Hp x)).
Qed.
End limits.

(** An environment in which calls succeed and every directory is empty. *)
Definition quiet : forall X, Eff X -> unit -> unit * X :=
  fun X e s => (s, match e in Eff X return X with
  | EPush _ _ _ => Ok tt
  | ESessionAdd _ => Ok tt
  | ESessionDelete _ _ => Ok tt
  | EGetLocations _ => Err NotFound
  | EListLocations _ => Err NotFound
  | ELookup _ _ => Ok None
  | EUpsert _ _ => Ok tt
  | EBlockedEither _ _ _ => Ok false
  | EIsFriend _ _ _ => Ok false
  | EMembers _ _ => Err GroupNotFound
  | EInsertUser _ _ => Err (Invalid "")
  | EInsertGroup _ _ _ => Err (Invalid "")
  | EAck _ _ _ _ => Ok tt
  | EOfflineIndex _ _ _ _ _ => Ok ([], false)
  | EOfflineContent _ _ _ => Ok []
  | EBackfill _ _ _ => Ok tt
  | EGroupCreate _ _ => Err GroupNotFound
  | EGroupJoin _ _ _ => Ok tt
  | EGroupQuit _ _ _ => Ok tt
  | EGroupDetail _ _ => Err GroupNotFound
  | EGroupSummaries _ _ => Ok []
  | EFriendRequest _ _ _ => Ok Sent
  | EFriendAccept _ _ _ => Ok tt
  | EFriendReject _ _ _ => Ok tt
  | EFriendRemove _ _ _ => Ok tt
  | EBlock _ _ _ => Ok tt
  | EUnblock _ _ _ => Ok tt
  | EListFriends _ _ => Ok []
  | EIncoming _ _ => Ok []
  | EListBlocked _ _ => Ok []
  | EUserExists _ _ => Ok false
  | EProfile _ _ => Ok None
  | EProfiles _ _ => Ok []
  | EUpdateProfile _ _ _ => Err UserMissing
  | ESearch _ _ _ _ => Ok []
  | ECreateBot _ _ => Err Limit
  | EUpdateBot _ _ _ _ => Err UserMissing
  | EDeleteBot _ _ _ => Ok tt
  | EInsertBotReply _ _ _ _ _ => Err (Invalid "")
  | EBotPending _ _ _ _ => Ok []
  | EPurge _ _ _ => Ok tt
  | EInbox _ _ _ => Ok []
  | EHistory _ _ _ _ _ _ => Ok []
  | EMarkRead _ _ _ _ _ => Err (Invalid "")
  | EStates _ _ _ => Ok []
  | EEnter _ _ _ _ _ => Ok tt
  | ELeave _ _ _ _ _ => Ok tt
  | EViewers _ _ _ => Ok []
  | ESpecs _ _ => Ok []
  | ESpecAccounts _ _ => Ok []
  | ESpecUpsert _ _ _ => Err SpecInvalid
  | ESpecUpsertAccount _ _ _ => Err SpecInvalid
  | ESessionGet _ => Err NotFound
  | EHubAdded _ _ => tt
  | EHubRemoved _ _ _ => tt
  | EDispatchFail _ => tt
  | ENow => 0
  | ECut _ => Go
  end).
