(* ===== verification/Router.v ===== *)
(** Command routing and replies of crates/kim-router: [Context] (context.rs) answers
    the sender and fans pushes out by gateway, [Router] (router.rs) picks the
    handler of a command.  With it come the notify helpers and the echo handler of
    services/chat (notify.rs, echo.rs) and the packet [ContainerDispatcher] hands
    to the container (lib.rs). *)

From S2P Require Import Prelude Prog Wire Pkt Location SessionStore Store Social Groups Users Effects.
Open Scope Z_scope.
Open Scope kim_scope.

(** [p.await?]: an error ends the caller. *)
Definition bind_ok {A B E} (p : Proc (result A E)) (f : A -> Proc (result B E)) : Proc (result B E) :=
  r ← p; match r with Ok a => f a | Err e => Ret (Err e) end.
Notation "'let*' x := p 'in' q" := (bind_ok p (fun x => q))
  (at level 200, x name, p at level 100, q at level 200) : kim_scope.
(** [p.await?; return Ok(())]. *)
Abbreviation Answer := (Proc (result unit RouterError)).
Definition then_ok (p : Answer) : Answer := let* _ := p in Ret (Ok tt).

(** ** context.rs *)

Record Context := mkContext { request : LogicPkt; session : Session }.

Definition header (ctx : Context) : Header := l_header (request ctx).

Definition response_packet (ctx : Context) (status : Status) : LogicPkt :=
  let packet := LogicPkt_new_from (header ctx) in
  mkLogicPkt (h_with_flag Response (h_with_status status (l_header packet))) (l_body packet).

Definition own_gate (ctx : Context) : GatewayId := mkGatewayId (s_gate_id (session ctx)).
Definition own_channel (ctx : Context) : ChannelId := mkChannelId (s_channel_id (session ctx)).

Definition push_to_sender (ctx : Context) (packet : LogicPkt) : Answer :=
  call (EPush (own_gate ctx) [own_channel ctx] packet).

Definition resp {B} `{Message B} (ctx : Context) (status : Status) (body : option B) : Answer :=
  let packet := response_packet ctx status in
  push_to_sender ctx (match body with Some b => write_body packet b | None => packet end).

Definition resp_bytes (ctx : Context) (status : Status) (body : bytes) : Answer :=
  let packet := response_packet ctx status in
  push_to_sender ctx (mkLogicPkt (h_with_body_length (wrap32 (len body)) (l_header packet)) body).

Definition resp_with_error (ctx : Context) (status : Status) : Answer := resp_bytes ctx status [].

(** Receivers grouped by gateway, the gateways in order of first appearance. *)
Definition group_step (skip : Location -> bool) (s : gmap GatewayId (list ChannelId) * list GatewayId)
  (recv : Location) : gmap GatewayId (list ChannelId) * list GatewayId :=
  let '(group, order) := s in
  let gate := loc_gate_id recv in
  if skip recv then s
  else match group !! gate with
  | None => (<[gate := [loc_channel_id recv]]> group, order ++ [gate])
  | Some ids => (<[gate := ids ++ [loc_channel_id recv]]> group, order)
  end.
Definition group_by_gateway (skip : Location -> bool) (recvs : list Location)
  : gmap GatewayId (list ChannelId) * list GatewayId :=
  foldl (group_step skip) (∅, []) recvs.

(** One push per gateway; the first error is kept, the others are only logged. *)
Fixpoint push_all (group : gmap GatewayId (list ChannelId)) (packet : LogicPkt) (order : list GatewayId)
  (first_err : option RouterError) : Proc (option RouterError) :=
  match order with
  | [] => Ret first_err
  | gw :: order =>
    match group !! gw with
    | None => push_all group packet order first_err
    | Some ids =>
      r ← call (EPush gw ids packet);
      push_all group packet order
        (match r, first_err with Err e, None => Some e | _, _ => first_err end)
    end
  end.

Definition push_groups (skip : Location -> bool) (packet : LogicPkt) (recvs : list Location) : Answer :=
  let '(group, order) := group_by_gateway skip recvs in
  first_err ← push_all group packet order None;
  Ret (match first_err with Some e => Err e | None => Ok tt end).

Definition push_packet {B} `{Message B} (ctx : Context) (command : string) (body : B) : LogicPkt :=
  let packet := LogicPkt_new_from (header ctx) in
  write_body (mkLogicPkt (h_with_flag PushFlag (h_with_command command (l_header packet)))
                (l_body packet)) body.

Definition is_own (ctx : Context) (recv : Location) : bool :=
  bool_decide (channel_str (loc_channel_id recv) = s_channel_id (session ctx)).

Definition dispatch_cmd {B} `{Message B} (ctx : Context) (command : string) (body : B)
  (recvs : list Location) : Answer :=
  match recvs with
  | [] => Ret (Ok tt)
  | _ => push_groups (is_own ctx) (push_packet ctx command body) recvs
  end.

Definition dispatch {B} `{Message B} (ctx : Context) (body : B) (recvs : list Location) : Answer :=
  dispatch_cmd ctx (h_command (header ctx)) body recvs.

(** ** notify.rs and echo.rs of services/chat *)

Definition notify_account {B} `{Message B} (ctx : Context) (account command : string) (body : B)
  : Proc unit :=
  r ← call (EListLocations (mkAccountId account));
  match r with
  | Ok (_ :: _ as locs) => _ ← dispatch_cmd ctx command body locs; Ret tt
  | _ => Ret tt
  end.

Definition notify_locations {B} `{Message B} (skip_channel command : string) (body : B)
  (recvs : list Location) : Answer :=
  match recvs with
  | [] => Ret (Ok tt)
  | _ =>
    let packet := LogicPkt_new command 0 [] in
    let packet := write_body (mkLogicPkt (h_with_flag PushFlag (l_header packet)) (l_body packet)) body in
    push_groups
      (fun recv => negb (str_is_empty skip_channel)
                   && bool_decide (channel_str (loc_channel_id recv) = skip_channel))
      packet recvs
  end.

Definition do_echo (ctx : Context) : Answer :=
  then_ok (resp_bytes ctx Success (l_body (request ctx))).

(** ** router.rs *)

Abbreviation HandlerFn := (Context -> Answer).
Record Router := mkRouter { handlers : Command -> option HandlerFn }.

Definition Router_new : Router := mkRouter (fun _ => None).
Definition handle (command : Command) (f : HandlerFn) (r : Router) : Router :=
  mkRouter (fun c => if decide (c = command) then Some f else handlers r c).

Definition serve (r : Router) (packet : LogicPkt) (session : Session) : Answer :=
  match parse (h_command (l_header packet)) ≫= handlers r with
  | Some handler => handler (mkContext packet session)
  | None => resp_bytes (mkContext packet session) CommandNotFound []
  end.

(** ** lib.rs of services/chat: what the container is given to push *)

Definition join_comma (l : list string) : string := String.concat "," l.

Definition dispatch_packet (gateway : GatewayId) (channels : list ChannelId) (pkt : LogicPkt) : LogicPkt :=
  let pkt := set_meta META_DEST_SERVER (gateway_str gateway) pkt in
  set_meta META_DEST_CHANNELS (join_comma (channel_str <$> channels)) pkt.

(** ** Grouping *)

Section grouping.
Context (skip : Location -> bool).

Definition gates_of (recvs : list Location) : list GatewayId :=
  unique (loc_gate_id <$> List.filter (fun l => negb (skip l)) recvs).
Definition channels_at (g : GatewayId) (recvs : list Location) : list ChannelId :=
  loc_channel_id <$> List.filter (fun l => bool_decide (loc_gate_id l = g))
                       (List.filter (fun l => negb (skip l)) recvs).

Lemma unique_from_snoc {A} `{EqDecision A} (seen l : list A) x :
  unique_from seen (l ++ [x]) = unique_from seen l ++ (if decide (x ∈ seen ++ l) then [] else [x]).
Proof.
  revert seen; induction l as [|y l IH]; intros seen; cbn [unique_from app].
  - by rewrite app_nil_r.
  - assert (E : forall P Q : list A, (x ∈ P <-> x ∈ Q) ->
      (if decide (x ∈ P) then [] else [x]) = (if decide (x ∈ Q) then [] else [x])).
    { intros P Q EPQ. by apply decide_ext. }
    case_decide as D; rewrite IH; [|cbn [app]; f_equal]; f_equal; apply E; set_solver.
Qed.

Lemma filter_snoc {A} (P : A -> bool) l x :
  List.filter P (l ++ [x]) = List.filter P l ++ (if P x then [x] else []).
Proof. by rewrite filter_app. Qed.

Lemma channels_at_nil g recvs : channels_at g recvs = [] <-> g ∉ gates_of recvs.
Proof.
  unfold channels_at, gates_of. rewrite elem_of_unique, list_elem_of_fmap. split.
  - intros E (l & -> & Hl). apply fmap_nil_inv in E. apply (not_elem_of_nil l). rewrite <- E.
    apply elem_of_list_filter_bool. by rewrite bool_decide_eq_true_2.
  - intros Hn. rewrite filter_none; [done|]. intros l Hl. apply bool_decide_eq_false_2.
    intros <-. apply Hn. by exists l.
Qed.

Lemma gates_of_snoc recvs x :
  gates_of (recvs ++ [x]) =
    if skip x then gates_of recvs
    else if decide (loc_gate_id x ∈ gates_of recvs) then gates_of recvs
    else gates_of recvs ++ [loc_gate_id x].
Proof.
  unfold gates_of. rewrite filter_snoc. destruct (skip x); simpl; [by rewrite app_nil_r|].
  rewrite fmap_app. simpl. unfold unique. rewrite unique_from_snoc. simpl.
  assert (E := elem_of_unique_from [] (loc_gate_id <$> List.filter (fun l => negb (skip l)) recvs) (loc_gate_id x)).
  case_decide as D; case_decide as D'; [by rewrite app_nil_r|set_solver|set_solver|done].
Qed.

Lemma channels_at_snoc g recvs x :
  channels_at g (recvs ++ [x]) =
  channels_at g recvs ++
    (if negb (skip x) && bool_decide (loc_gate_id x = g) then [loc_channel_id x] else []).
Proof.
  unfold channels_at. rewrite !filter_snoc. destruct (skip x); simpl; [by rewrite !app_nil_r|].
  rewrite filter_app, fmap_app. simpl. by destruct (bool_decide _).
Qed.

(** The two results of the grouping loop. *)
Lemma group_by_gateway_spec recvs :
  (group_by_gateway skip recvs).2 = gates_of recvs /\
  forall g, (group_by_gateway skip recvs).1 !! g =
    if decide (g ∈ gates_of recvs) then Some (channels_at g recvs) else None.
Proof.
  induction recvs as [|x l IH] using rev_ind; [done|].
  unfold group_by_gateway in *. rewrite foldl_app. cbn [foldl].
  destruct (foldl (group_step skip) (∅, []) l) as [group order]. simpl in IH. destruct IH as [-> IH].
  unfold group_step. rewrite gates_of_snoc.
  destruct (skip x) eqn:Es.
  { split; [done|]. intros g. by rewrite channels_at_snoc, Es, app_nil_r. }
  rewrite IH. destruct (decide (loc_gate_id x ∈ gates_of l)) as [D|D]; (split; [done|]);
    intros g; rewrite channels_at_snoc, Es; cbn [negb andb fst];
    (destruct (decide (loc_gate_id x = g)) as [<-|Hne];
      [rewrite lookup_insert_eq, bool_decide_eq_true_2 by done
      |rewrite lookup_insert_ne, IH, bool_decide_eq_false_2, app_nil_r by done]).
  - by rewrite decide_True.
  - done.
  - rewrite decide_True by (apply elem_of_app; right; left).
    by rewrite (proj2 (channels_at_nil (loc_gate_id x) l)).
  - apply decide_ext. rewrite elem_of_app, list_elem_of_singleton. naive_solver.
Qed.
End grouping.

(** ** Fan-out *)

Definition first_error (rs : list (result unit RouterError)) : option RouterError :=
  head (omap (fun r => match r with Err e => Some e | Ok _ => None end) rs).

Definition push_event (skip : Location -> bool) (packet : LogicPkt) (recvs : list Location)
  (g : GatewayId) (r : result unit RouterError) : Event :=
  Ev (EPush g (channels_at skip g recvs) packet) r.

Lemma zip_with_ext_elem {A B C} (f g : A -> B -> C) l k :
  (forall x y, x ∈ l -> f x y = g x y) -> zip_with f l k = zip_with g l k.
Proof.
  revert k; induction l as [|x l IH]; intros [|y k] H; simpl; try done.
  rewrite H by left. f_equal. apply IH. intros. apply H. by right.
Qed.

Lemma push_all_sat group packet order first :
  (forall g, g ∈ order -> is_Some (group !! g)) ->
  sat (push_all group packet order first) (fun tr a => exists rs,
    length rs = length order /\
    tr = zip_with (fun g r => Ev (EPush g (default [] (group !! g)) packet) r) order rs /\
    a = match first with Some e => Some e | None => first_error rs end).
Proof.
  revert first; induction order as [|g order IH]; intros first Hg; cbn [push_all].
  - exists []. by destruct first.
  - destruct (Hg g ltac:(by left)) as [ids Eg]. rewrite Eg. cbn. intros r.
    eapply sat_mono; [|apply IH; intros; apply Hg; by right].
    intros tr a (rs & Hl & -> & ->). exists (r :: rs). cbn. rewrite Eg. split_and!; [lia|done|].
    destruct r, first; done.
Qed.

Lemma push_groups_sat skip packet recvs :
  sat (push_groups skip packet recvs) (fun tr a => exists rs,
    length rs = length (gates_of skip recvs) /\
    tr = zip_with (push_event skip packet recvs) (gates_of skip recvs) rs /\
    a = match first_error rs with Some e => Err e | None => Ok tt end).
Proof.
  unfold push_groups. destruct (group_by_gateway_spec skip recvs) as [Eo Eg].
  destruct (group_by_gateway skip recvs) as [group order]. simpl in Eo, Eg. subst order.
  eapply sat_bind_use.
  { apply push_all_sat. intros g Hg. rewrite Eg, decide_True by done. by eexists. }
  intros tr a (rs & Hl & -> & ->). cbn. exists rs. rewrite app_nil_r. split_and!; [done| |done].
  apply zip_with_ext_elem. intros g r Hg. unfold push_event. by rewrite Eg, decide_True.
Qed.

Lemma dispatch_cmd_sat {B} `{Message B} ctx command (body : B) recvs :
  sat (dispatch_cmd ctx command body recvs) (fun tr a => exists rs,
    length rs = length (gates_of (is_own ctx) recvs) /\
    tr = zip_with (push_event (is_own ctx) (push_packet ctx command body) recvs)
           (gates_of (is_own ctx) recvs) rs /\
    a = match first_error rs with Some e => Err e | None => Ok tt end).
Proof. destruct recvs; [by exists []|]. apply push_groups_sat. Qed.

(** *** What a trace sends *)

Definition sent_in (flag : Flag) (ev : Event) : option (GatewayId * list ChannelId * LogicPkt) :=
  match ev with Ev e _ => match e with
  | EPush g channels pkt =>
    if h_flag (l_header pkt) =? Flag_as_i32 flag then Some (g, channels, pkt) else None
  | _ => None
  end end.
Definition sent (flag : Flag) (tr : list Event) : list (GatewayId * list ChannelId * LogicPkt) :=
  omap (sent_in flag) tr.
Abbreviation responses := (sent Response).
Abbreviation pushes := (sent PushFlag).

Lemma sent_cons flag ev tr :
  sent flag (ev :: tr) = match sent_in flag ev with Some x => x :: sent flag tr | None => sent flag tr end.
Proof. done. Qed.
Lemma sent_app flag tr tr' : sent flag (tr ++ tr') = sent flag tr ++ sent flag tr'.
Proof. unfold sent. apply omap_app. Qed.
Lemma sent_calls flag tr : sent flag (calls tr) = sent flag tr.
Proof.
  induction tr as [|[X e x] tr IH]; [done|]. rewrite calls_cons, sent_app, IH, sent_cons.
  destruct e; try done. simpl. by destruct (_ =? _).
Qed.

(** The pushes of a fan-out that is not cut short. *)
Definition plan {B} `{Message B} (ctx : Context) (command : string) (body : B) (recvs : list Location)
  : list (GatewayId * list ChannelId * LogicPkt) :=
  (fun g => (g, channels_at (is_own ctx) g recvs, push_packet ctx command body))
    <$> gates_of (is_own ctx) recvs.

Lemma sent_push_events skip packet recvs gs rs :
  h_flag (l_header packet) = 2 ->
  responses (zip_with (push_event skip packet recvs) gs rs) = [] /\
  pushes (zip_with (push_event skip packet recvs) gs rs)
  = take (length rs) ((fun g => (g, channels_at skip g recvs, packet)) <$> gs).
Proof.
  intros Hf. revert rs; induction gs as [|g gs IH]; intros [|r rs]; try done.
  cbn [zip_with fmap list_fmap length take]. rewrite !sent_cons. destruct (IH rs) as [-> ->].
  unfold push_event, sent_in. by rewrite Hf.
Qed.

Lemma push_all_satp group packet order first :
  (forall g, g ∈ order -> is_Some (group !! g)) ->
  satp (push_all group packet order first) (fun tr => exists rs,
    tr = zip_with (fun g r => Ev (EPush g (default [] (group !! g)) packet) r) order rs).
Proof.
  revert first; induction order as [|g order IH]; intros first Hg; cbn [push_all].
  - by split; [exists []|].
  - destruct (Hg g ltac:(by left)) as [ids Eg]. rewrite Eg. cbn. split; [by exists []|]. intros r.
    eapply satp_mono; [|apply IH; intros; apply Hg; by right].
    intros tr (rs & ->). exists (r :: rs). cbn. by rewrite Eg.
Qed.

Lemma dispatch_cmd_satp {B} `{Message B} ctx command (body : B) recvs :
  satp (dispatch_cmd ctx command body recvs) (fun tr => exists n,
    responses tr = [] /\ pushes tr = take n (plan ctx command body recvs) /\
    exists rs, tr = zip_with (push_event (is_own ctx) (push_packet ctx command body) recvs)
                      (gates_of (is_own ctx) recvs) rs).
Proof.
  assert (Hpre : forall rs, let tr := zip_with (push_event (is_own ctx) (push_packet ctx command body) recvs)
      (gates_of (is_own ctx) recvs) rs in
    exists n, responses tr = [] /\ pushes tr = take n (plan ctx command body recvs) /\
    exists rs, tr = zip_with (push_event (is_own ctx) (push_packet ctx command body) recvs)
                      (gates_of (is_own ctx) recvs) rs).
  { intros rs tr. destruct (sent_push_events (is_own ctx) (push_packet ctx command body) recvs
      (gates_of (is_own ctx) recvs) rs eq_refl) as [E1 E2].
    exists (length rs). split_and!; [exact E1|exact E2|by exists rs]. }
  destruct recvs as [|loc recvs]; [split; [|done]; exact (Hpre [])|]. unfold dispatch_cmd, push_groups.
  destruct (group_by_gateway_spec (is_own ctx) (loc :: recvs)) as [Eo Eg].
  destruct (group_by_gateway (is_own ctx) (loc :: recvs)) as [group order]. simpl in Eo, Eg. subst order.
  assert (Hg : forall g, g ∈ gates_of (is_own ctx) (loc :: recvs) -> is_Some (group !! g)).
  { intros g Hin. rewrite Eg, decide_True by done. by eexists. }
  assert (Hz : forall rs, zip_with (fun g r => Ev (EPush g (default [] (group !! g)) (push_packet ctx command body)) r)
      (gates_of (is_own ctx) (loc :: recvs)) rs
    = zip_with (push_event (is_own ctx) (push_packet ctx command body) (loc :: recvs))
        (gates_of (is_own ctx) (loc :: recvs)) rs).
  { intros rs. apply zip_with_ext_elem. intros g r Hin. unfold push_event. by rewrite Eg, decide_True. }
  apply satp_bind.
  - eapply satp_mono; [|by apply push_all_satp]. intros tr [rs ->]. rewrite Hz. apply Hpre.
  - eapply sat_mono; [|by apply push_all_sat]. intros tr a (rs & _ & -> & _). simpl.
    split; [|done]. rewrite app_nil_r, Hz. apply Hpre.
Qed.

Lemma dispatch_cmd_done {B} `{Message B} ctx command (body : B) recvs :
  sat (dispatch_cmd ctx command body recvs) (fun tr _ =>
    responses tr = [] /\ pushes tr = plan ctx command body recvs /\
    exists rs, tr = zip_with (push_event (is_own ctx) (push_packet ctx command body) recvs)
                      (gates_of (is_own ctx) recvs) rs).
Proof.
  eapply sat_mono; [|apply dispatch_cmd_sat]. intros tr a (rs & Hl & -> & _).
  destruct (sent_push_events (is_own ctx) (push_packet ctx command body) recvs
    (gates_of (is_own ctx) recvs) rs eq_refl) as [E1 E2].
  split_and!; [exact E1| |by exists rs]. rewrite E2. unfold plan. rewrite take_ge; [done|]. rewrite length_fmap. lia.
Qed.

(** (C21) Fan-out by gateway.  However the pushes go, [dispatch_cmd] makes exactly
    one push per gateway of the receivers, in order of first appearance, all with
    the same packet: the push of a gateway names exactly the receivers there,
    in order, less the sender's own channel; a failed push keeps none of the
    others back, and the first error is what the caller gets. *)
Theorem dispatch_coalesces {B} `{Message B} (ctx : Context) (command : string) (body : B)
  (recvs : list Location) (tr : list Event) (r : result unit RouterError)
  (Hrun : exec (dispatch_cmd ctx command body recvs) tr r) :
  let others := List.filter (fun l => negb (is_own ctx l)) recvs in
  let gates := unique (loc_gate_id <$> others) in
  let at_gate g := loc_channel_id <$> List.filter (fun l => bool_decide (loc_gate_id l = g)) others in
  exists rs, length rs = length gates /\
    tr = zip_with (fun g => Ev (EPush g (at_gate g) (push_packet ctx command body))) gates rs /\
    r = match first_error rs with Some e => Err e | None => Ok tt end /\
    (forall loc, loc ∈ recvs -> channel_str (loc_channel_id loc) <> s_channel_id (session ctx) ->
       loc_gate_id loc ∈ gates /\ loc_channel_id loc ∈ at_gate (loc_gate_id loc)) /\
    (forall g, g ∈ gates -> mkChannelId (s_channel_id (session ctx)) ∉ at_gate g).
Proof.
  intros others gates at_gate. destruct (sat_exec _ _ _ _ (dispatch_cmd_sat ctx command body recvs) Hrun)
    as (rs & Hl & Htr & Hr). exists rs. split_and!; [exact Hl|exact Htr|exact Hr| |].
  - intros loc Hin Hne. assert (Ho : loc ∈ others).
    { apply elem_of_list_filter_bool. split; [|done]. unfold is_own. by rewrite bool_decide_eq_false_2. }
    split; [apply elem_of_unique, list_elem_of_fmap; by exists loc|].
    apply list_elem_of_fmap. exists loc. split; [done|]. apply elem_of_list_filter_bool.
    by rewrite bool_decide_eq_true_2.
  - intros g _ Hin. apply list_elem_of_fmap in Hin as (loc & E & [_ [Hn _]%elem_of_list_filter_bool]%elem_of_list_filter_bool).
    unfold is_own in Hn. rewrite <- E in Hn. by rewrite bool_decide_eq_true_2 in Hn.
Qed.

Definition demo_ctx : Context :=
  mkContext (LogicPkt_new "chat.user.talk" 7 [])
    (mkSession "ch-1" "gate-a" "alice" "" "" "" "web" "kim" [] "jti-1" "").
Definition demo_locs : list Location :=
  let loc c g := mkLocation (mkChannelId c) (mkGatewayId g) "web" "j" in
  [loc "ch-2" "gate-b"; loc "ch-1" "gate-a"; loc "ch-3" "gate-a"; loc "ch-4" "gate-b"]%string.

Lemma dispatch_coalesces_witness :
  let p := @dispatch_cmd string countable_message demo_ctx "chat.user.talk" "hi"%string demo_locs in
  length (run quiet p tt).1.2 = 2%nat.
Proof.
  intros p. destruct (@dispatch_coalesces string countable_message demo_ctx "chat.user.talk" "hi"%string
    demo_locs _ _ (exec_run quiet p tt)) as (rs & Hl & _). vm_compute in Hl |- *. reflexivity.
Defined.
