(* ===== verification/Talk.v ===== *)
(** The talk handlers of services/chat/src/talk.rs: checks, insertion, reply, fan-out. *)

From S2P Require Import Prelude Prog Wire Pkt Location SessionStore Store Social Groups Users Effects Router Filter.
Open Scope Z_scope.
Open Scope kim_scope.

(** ** Helpers *)

Definition fanout_matches_req (kind : MessageKind) (dest : string) (req : MessageReq) (f : Fanout) : bool :=
  bool_decide (fo_kind f = kind) && bool_decide (fo_dest f = dest) && (fo_msg_type f =? mr_type req)
  && bool_decide (fo_body f = mr_body req) && bool_decide (fo_extra f = mr_extra req).

(** The targets of one account: its sessions with a token id. *)
Definition targets_of (account : string) (locs : list Location) : list DeliveryTarget :=
  omap (fun loc => if str_is_empty (loc_jti loc) then None
                   else Some (mkDeliveryTarget account (loc_jti loc))) locs.

Fixpoint collect_targets (accounts : list string) (out : list DeliveryTarget)
  : Proc (list DeliveryTarget) :=
  match accounts with
  | [] => Ret out
  | account :: accounts =>
    r ← call (EGetLocations [mkAccountId account]);
    collect_targets accounts
      (match r with Ok locs => out ++ targets_of account locs | Err _ => out end)
  end.

Definition fallback_targets (accounts : list string) : Proc (list DeliveryTarget) :=
  r ← timeout TargetsBudget (collect_targets accounts []);
  Ret (default [] r).

Section talk.
Context `{Message MessageReq, Message MessageResp, Message MessagePush}.

Definition on_dispatch_fail (metrics : bool) (label : string) : Proc unit :=
  if metrics then call (EDispatchFail label) else Ret tt.

Definition message_push (inserted : InsertResult) : MessagePush :=
  let f := ir_fanout inserted in
  mkMessagePush (ir_message_id inserted) (fo_msg_type f) (fo_body f) (fo_extra f) (fo_sender f)
    (ir_send_time inserted).

Definition push_recipients (ctx : Context) (inserted : InsertResult) (label : string) (metrics : bool)
  (push_command : string) : Proc unit :=
  let accounts := unique_accounts (fo_recipients (ir_fanout inserted)) in
  match accounts with
  | [] => on_dispatch_fail metrics label
  | _ =>
    r ← call (EGetLocations (mkAccountId <$> accounts));
    locs ← match r with
      | Ok v => Ret v
      | Err NotFound => Ret []
      | Err _ => _ ← on_dispatch_fail metrics label; Ret []
      end;
    match locs with
    | [] => Ret tt
    | _ =>
      r ← dispatch_cmd ctx push_command (message_push inserted) locs;
      match r with Ok _ => Ret tt | Err _ => on_dispatch_fail metrics label end
    end
  end.

Definition persist_then_push (ctx : Context) (inserted : InsertResult) (label : string) (metrics : bool)
  (push_command : string) : Answer :=
  let* _ := resp ctx Success (Some (mkMessageResp (ir_message_id inserted) (ir_send_time inserted))) in
  r ← timeout PushBudget (push_recipients ctx inserted label metrics push_command);
  _ ← match r with Some _ => Ret tt | None => on_dispatch_fail metrics label end;
  Ret (Ok tt).

(** ** do_user_talk *)

(** The directory checks: [None] when they answered the sender themselves. *)
Definition directory_check (ctx : Context) (receiver : string)
  : Proc (result (option bool) RouterError) :=
  let app := s_app (session ctx) in
  let me := s_account (session ctx) in
  let refuse status := let* _ := resp_with_error ctx status in Ret (Ok None) in
  found ← call (ELookup app receiver);
  let social owned_bot :=
    if bool_decide (receiver = me) then Ret (Ok (Some owned_bot))
    else
      blocked ← call (EBlockedEither app me receiver);
      match blocked with
      | Ok true => refuse Blocked
      | Err _ => refuse SystemException
      | Ok false =>
        friend ← call (EIsFriend app me receiver);
        match friend with
        | Ok true => Ret (Ok (Some owned_bot))
        | Ok false => refuse NotFriends
        | Err _ => refuse SystemException
        end
      end in
  match found with
  | Ok (Some p) =>
    if negb (up_exists p) then refuse UserNotFound
    else if (up_kind p =? PROFILE_KIND_BOT) && negb (bool_decide (up_owner_account p = me))
    then refuse UserNotFound
    else social ((up_kind p =? PROFILE_KIND_BOT) && bool_decide (up_owner_account p = me))
  | Ok None => refuse UserNotFound
  | Err _ => refuse SystemException
  end.

Definition insert_message (ctx : Context) (dest : string) (send_time : Z) (req : MessageReq)
  (online_targets : list DeliveryTarget) : InsertMessage :=
  mkInsertMessage (s_account (session ctx)) dest send_time (mr_type req) (mr_body req) (mr_extra req)
    (mr_client_id req) online_targets.

(** What follows an insertion, for both handlers. *)
Definition answer_insert (ctx : Context) (kind : MessageKind) (dest : string) (req : MessageReq)
  (label : string) (metrics : bool) (r : result InsertResult StoreError) : Answer :=
  match r with
  | Err _ => then_ok (resp_with_error ctx SystemException)
  | Ok inserted =>
    if ir_duplicate inserted && negb (fanout_matches_req kind dest req (ir_fanout inserted))
    then then_ok (resp (B := MessageResp) ctx IdempotencyConflict None)
    else then_ok (persist_then_push ctx inserted label metrics (h_command (header ctx)))
  end.

Definition do_user_talk (filter : ContentFilter) (metrics : bool) (ctx : Context) : Answer :=
  let receiver := h_dest (header ctx) in
  if str_is_empty receiver then then_ok (resp_with_error ctx NoDestination)
  else match read_body (request ctx) with
  | Err _ => then_ok (resp_with_error ctx InvalidPacketBody)
  | Ok req =>
    match check filter req with
    | Err status => then_ok (resp_with_error ctx status)
    | Ok _ =>
      directory ← timeout DirectoryBudget (directory_check ctx receiver);
      match directory with
      | None => then_ok (resp_with_error ctx SystemException)
      | Some (Err err) => Ret (Err err)
      | Some (Ok None) => Ret (Ok tt)
      | Some (Ok (Some owned_bot)) =>
        send_time ← call ENow;
        online_targets ←
          fallback_targets [if owned_bot : bool then s_account (session ctx) else receiver];
        r ← call (EInsertUser (s_app (session ctx))
                    (insert_message ctx receiver send_time req online_targets));
        answer_insert ctx User receiver req "user" metrics r
      end
    end
  end.

(** ** do_group_talk *)

Definition do_group_talk (filter : ContentFilter) (metrics : bool) (ctx : Context) : Answer :=
  let group := h_dest (header ctx) in
  let me := s_account (session ctx) in
  if str_is_empty group then then_ok (resp_with_error ctx NoDestination)
  else match read_body (request ctx) with
  | Err _ => then_ok (resp_with_error ctx InvalidPacketBody)
  | Ok req =>
    match check filter req with
    | Err status => then_ok (resp_with_error ctx status)
    | Ok _ =>
      send_time ← call ENow;
      found ← call (EMembers (s_app (session ctx)) group);
      match found with
      | Err GroupNotFound => then_ok (resp_with_error ctx NotGroupMember)
      | Err _ => then_ok (resp_with_error ctx SystemException)
      | Ok members =>
        if negb (bool_decide (me ∈ members)) then then_ok (resp_with_error ctx NotGroupMember)
        else
          online_targets ← fallback_targets (List.filter (fun m => negb (bool_decide (m = me))) members);
          r ← call (EInsertGroup (s_app (session ctx))
                      (insert_message ctx group send_time req online_targets) members);
          answer_insert ctx Group group req "group" metrics r
      end
    end
  end.
End talk.

(** ** What a trace inserts *)

Record Insertion := mkInsertion {
  in_app : string;
  in_kind : MessageKind;
  in_req : InsertMessage;
  in_members : list string;
  in_result : result InsertResult StoreError
}.
Definition inserted_in (ev : Event) : option Insertion :=
  match ev with @Ev _ X e x =>
    match e in Eff X return X -> option Insertion with
    | EInsertUser app req => fun r => Some (mkInsertion app User req [] r)
    | EInsertGroup app req members => fun r => Some (mkInsertion app Group req members r)
    | _ => fun _ => None
    end x
  end.
Definition inserts (tr : list Event) : list Insertion := omap inserted_in tr.

Lemma inserts_cons ev tr :
  inserts (ev :: tr) = match inserted_in ev with Some x => x :: inserts tr | None => inserts tr end.
Proof. done. Qed.
Lemma inserts_app tr tr' : inserts (tr ++ tr') = inserts tr ++ inserts tr'.
Proof. unfold inserts. apply omap_app. Qed.
Lemma inserts_calls tr : inserts (calls tr) = inserts tr.
Proof.
  induction tr as [|[X e x] tr IH]; [done|]. rewrite calls_cons, inserts_app, IH, inserts_cons.
  by destruct e.
Qed.
Lemma elem_of_calls ev tr : ev ∈ calls tr -> ev ∈ tr.
Proof.
  induction tr as [|[X e x] tr IH]; [done|]. rewrite calls_cons, elem_of_app, elem_of_cons.
  intros [Hev|?]; [left|right; by apply IH]. destruct e; simpl in Hev; set_solver.
Qed.

Lemma inserts_push_events skip packet recvs gs rs :
  inserts (zip_with (push_event skip packet recvs) gs rs) = [].
Proof. revert rs; induction gs as [|g gs IH]; intros [|r rs]; try done. exact (IH rs). Qed.

(** ** Specifications of the parts *)

Section talk_specs.
Context `{Message MessageReq, Message MessageResp, Message MessagePush}.

Definition success_packet (ctx : Context) (inserted : InsertResult) : LogicPkt :=
  write_body (response_packet ctx Success)
    (mkMessageResp (ir_message_id inserted) (ir_send_time inserted)).

(** The calls of the push phase, so far: nothing but pushes of the plan for
    locations of the recipients. *)
Definition push_phase (ctx : Context) (inserted : InsertResult) (command : string) (all : bool)
  (tr : list Event) : Prop :=
  responses tr = [] /\ inserts tr = [] /\
  exists locs n, (locs = [] \/
      Ev (EGetLocations (mkAccountId <$> unique_accounts (fo_recipients (ir_fanout inserted)))) (Ok locs) ∈ tr) /\
    pushes tr = take n (plan ctx command (message_push inserted) locs) /\
    (all = true -> pushes tr = plan ctx command (message_push inserted) locs).

Lemma push_phase_silent ctx inserted command all tr :
  responses tr = [] -> inserts tr = [] -> pushes tr = [] -> push_phase ctx inserted command all tr.
Proof. intros Hr Hi Hp. split_and!; [done..|]. exists [], 0%nat. rewrite Hp. split_and!; [by left|done|done]. Qed.

Lemma push_phase_weaken ctx inserted command tr :
  push_phase ctx inserted command true tr -> push_phase ctx inserted command false tr.
Proof. intros (Hr & Hi & locs & n & Hl & Hp & _). split_and!; [done..|]. by exists locs, n. Qed.

(** The fan-out call, finished or not, followed by calls that send nothing. *)
Lemma push_phase_dispatch ctx inserted command (all : bool) locs tr tr' :
  (exists n, responses tr = [] /\ pushes tr = take n (plan ctx command (message_push inserted) locs) /\
   exists rs, tr = zip_with (push_event (is_own ctx) (push_packet ctx command (message_push inserted)) locs)
                     (gates_of (is_own ctx) locs) rs) ->
  (all = true -> pushes tr = plan ctx command (message_push inserted) locs) ->
  responses tr' = [] -> inserts tr' = [] -> pushes tr' = [] ->
  push_phase ctx inserted command all (calls
    (Ev (EGetLocations (mkAccountId <$> unique_accounts (fo_recipients (ir_fanout inserted)))) (Ok locs)
      :: tr ++ tr')).
Proof.
  intros (n & Hr & Hp & rs & Etr) Hall Hr' Hi' Hp'. rewrite calls_cons, calls_app. split_and!.
  - by rewrite !sent_app, !sent_calls, Hr, Hr'.
  - by rewrite !inserts_app, !inserts_calls, Etr, inserts_push_events, Hi'.
  - exists locs, n. split_and!.
    + right. left.
    + by rewrite !sent_app, !sent_calls, Hp, Hp', app_nil_r.
    + intros Ha. by rewrite !sent_app, !sent_calls, Hall, Hp', app_nil_r.
Qed.

Lemma push_recipients_satp ctx inserted label metrics command :
  satp (push_recipients ctx inserted label metrics command)
    (fun tr => push_phase ctx inserted command false (calls tr)).
Proof.
  unfold push_recipients.
  pose proof (push_phase_dispatch ctx inserted command false) as Hd.
  set (accounts := unique_accounts _) in *. destruct accounts as [|a accounts'] eqn:Ea.
  { destruct metrics; simpl; repeat (split; intros); try done; by apply push_phase_silent. }
  rewrite <- Ea in *. simpl. split; [by apply push_phase_silent|]. intros [locs|e].
  2:{ destruct e, metrics; simpl; repeat (split; intros); try done; by apply push_phase_silent. }
  simpl. destruct locs as [|loc locs]; [split; [|done]; by apply push_phase_silent|].
  apply satp_bind.
  - eapply satp_mono; [|apply dispatch_cmd_satp]. intros tr Ht. rewrite <- (app_nil_r tr). by apply Hd.
  - eapply sat_mono; [|apply dispatch_cmd_done]. intros tr a0 (Hr & Hp & Hz).
    assert (Ht : exists n, responses tr = [] /\
      pushes tr = take n (plan ctx command (message_push inserted) (loc :: locs)) /\
      exists rs, tr = zip_with (push_event (is_own ctx)
        (push_packet ctx command (message_push inserted)) (loc :: locs)) (gates_of (is_own ctx) (loc :: locs)) rs).
    { exists (length (plan ctx command (message_push inserted) (loc :: locs))). by rewrite take_ge. }
    destruct a0, metrics; simpl; repeat (split; intros); try done; by apply Hd.
Qed.

Lemma push_recipients_sat ctx inserted label metrics command :
  sat (push_recipients ctx inserted label metrics command)
    (fun tr _ => push_phase ctx inserted command true (calls tr)).
Proof.
  unfold push_recipients.
  pose proof (push_phase_dispatch ctx inserted command true) as Hd.
  set (accounts := unique_accounts _) in *. destruct accounts as [|a accounts'] eqn:Ea.
  { destruct metrics; simpl; intros; by apply push_phase_silent. }
  rewrite <- Ea in *. simpl. intros [locs|e].
  2:{ destruct e, metrics; simpl; intros; by apply push_phase_silent. }
  simpl. destruct locs as [|loc locs]; [by apply push_phase_silent|].
  apply sat_bind. eapply sat_mono; [|apply dispatch_cmd_done]. intros tr a0 (Hr & Hp & Hz).
  assert (Ht : exists n, responses tr = [] /\
    pushes tr = take n (plan ctx command (message_push inserted) (loc :: locs)) /\
    exists rs, tr = zip_with (push_event (is_own ctx)
      (push_packet ctx command (message_push inserted)) (loc :: locs)) (gates_of (is_own ctx) (loc :: locs)) rs).
  { exists (length (plan ctx command (message_push inserted) (loc :: locs))). by rewrite take_ge. }
  destruct a0, metrics; simpl; intros; by apply Hd.
Qed.

(** *** The answer to an insertion *)

Abbreviation sending := (GatewayId * list ChannelId * LogicPkt)%type.
Definition to_sender (ctx : Context) (pkt : LogicPkt) : sending := (own_gate ctx, [own_channel ctx], pkt).
Definition refusal (ctx : Context) (status : Status) : sending := to_sender ctx (response_packet ctx status).

(** A send that reused a client id for another message. *)
Definition conflict (kind : MessageKind) (dest : string) (req : MessageReq) (inserted : InsertResult) : bool :=
  ir_duplicate inserted && negb (fanout_matches_req kind dest req (ir_fanout inserted)).

Definition answer_shape (ctx : Context) (kind : MessageKind) (dest : string) (req : MessageReq)
  (x : result InsertResult StoreError) (tr : list Event) (r : result unit RouterError) : Prop :=
  inserts tr = [] /\
  match x with
  | Err _ => responses tr = [refusal ctx SystemException] /\ pushes tr = []
  | Ok inserted =>
    if conflict kind dest req inserted
    then responses tr = [refusal ctx IdempotencyConflict] /\ pushes tr = []
    else exists rr rest,
      tr = Ev (EPush (own_gate ctx) [own_channel ctx] (success_packet ctx inserted)) rr :: rest /\ r = rr /\
      push_phase ctx inserted (h_command (header ctx)) false (calls rest) /\
      (rr = Ok tt -> uncut PushBudget rest ->
         push_phase ctx inserted (h_command (header ctx)) true (calls rest))
  end.

Lemma persist_then_push_sat ctx inserted label metrics command :
  sat (persist_then_push ctx inserted label metrics command) (fun tr r => exists rr rest,
    tr = Ev (EPush (own_gate ctx) [own_channel ctx] (success_packet ctx inserted)) rr :: rest /\ r = rr /\
    push_phase ctx inserted command false (calls rest) /\
    (rr = Ok tt -> uncut PushBudget rest -> push_phase ctx inserted command true (calls rest))).
Proof.
  unfold persist_then_push. simpl. intros [[]|e].
  2:{ simpl. exists (Err e), []. split_and!; [done|done| |done]. by apply push_phase_silent. }
  apply sat_bind.
  eapply sat_mono; [|apply (sat_timeout PushBudget _
    (fun l _ => push_phase ctx inserted command true l) (push_phase ctx inserted command false));
    [apply push_recipients_sat|apply satp_cutp, push_recipients_satp]].
  intros tr [[]|]; simpl.
  - intros Hph. exists (Ok tt), tr. rewrite app_nil_r.
    split_and!; [done|done|by apply push_phase_weaken|done].
  - intros [Hph Hc].
    assert (Hend : forall tr', calls tr' = [] \/ (exists x, calls tr' = [Ev (EDispatchFail label) x]) ->
      exists rr rest,
        Ev (EPush (own_gate ctx) [own_channel ctx] (success_packet ctx inserted)) (Ok tt) :: tr ++ tr' =
        Ev (EPush (own_gate ctx) [own_channel ctx] (success_packet ctx inserted)) rr :: rest /\ Ok tt = rr /\
        push_phase ctx inserted command false (calls rest) /\
        (rr = Ok tt -> uncut PushBudget rest -> push_phase ctx inserted command true (calls rest))).
    { intros tr' Ht'. exists (Ok tt), (tr ++ tr'). split_and!; [done|done| |].
      - destruct Hph as (Hr & Hi & locs & n & Hl & Hp & _). rewrite calls_app.
        assert (E : responses (calls tr') = [] /\ inserts (calls tr') = [] /\ pushes (calls tr') = []).
        { destruct Ht' as [->|[x ->]]; done. }
        destruct E as (E1 & E2 & E3).
        split_and!; [by rewrite sent_app, Hr, E1|by rewrite inserts_app, Hi, E2|].
        exists locs, n. split_and!; [|by rewrite sent_app, Hp, E3, app_nil_r|done].
        destruct Hl as [->|Hl]; [by left|right]. apply elem_of_app. by left.
      - intros _ Hu. apply uncut_app in Hu as [Hu _]. done. }
    destruct metrics; simpl; intros; [apply (Hend [Ev (EDispatchFail label) _]); right; by eexists|].
    apply (Hend []). by left.
Qed.

Lemma answer_insert_sat ctx kind dest req label metrics x :
  sat (answer_insert ctx kind dest req label metrics x) (answer_shape ctx kind dest req x).
Proof.
  unfold answer_insert, answer_shape. destruct x as [inserted|e].
  - fold (conflict kind dest req inserted). destruct (conflict kind dest req inserted).
    + simpl. by intros [[]|e].
    + apply sat_bind. eapply sat_mono; [|apply persist_then_push_sat].
      intros tr r (rr & rest & -> & -> & Hph & Ha). destruct rr as [[]|e]; simpl.
      * rewrite app_nil_r. split.
        { destruct Hph as (_ & Hi & _). change (inserts rest = []). by rewrite <- inserts_calls. }
        by exists (Ok tt), rest.
      * rewrite app_nil_r. split.
        { destruct Hph as (_ & Hi & _). change (inserts rest = []). by rewrite <- inserts_calls. }
        by exists (Err e), rest.
  - simpl. by intros [[]|e'].
Qed.

(** *** The directory checks *)

(** What a send to [receiver] needs: an account that exists and is no one else's
    bot, and, unless it is the sender, no block either way and friendship. *)
Definition cleared (ctx : Context) (receiver : string) (tr : list Event) : Prop :=
  (exists p, Ev (ELookup (s_app (session ctx)) receiver) (Ok (Some p)) ∈ tr /\ up_exists p = true /\
     (up_kind p = PROFILE_KIND_BOT -> up_owner_account p = s_account (session ctx))) /\
  (receiver <> s_account (session ctx) ->
     Ev (EBlockedEither (s_app (session ctx)) (s_account (session ctx)) receiver) (Ok false) ∈ tr /\
     Ev (EIsFriend (s_app (session ctx)) (s_account (session ctx)) receiver) (Ok true) ∈ tr).

Definition silent (tr : list Event) : Prop := inserts tr = [] /\ pushes tr = [] /\ responses tr = [].
Definition refused (ctx : Context) (tr : list Event) : Prop :=
  inserts tr = [] /\ pushes tr = [] /\
  exists status, status <> Success /\ responses tr = [refusal ctx status].

Lemma silent_app tr tr' : silent tr -> silent tr' -> silent (tr ++ tr').
Proof.
  intros (A & B & C) (A' & B' & C'). split_and!; [rewrite inserts_app|rewrite sent_app..]; 
    by rewrite ?A, ?A', ?B, ?B', ?C, ?C'.
Qed.
Lemma silent_calls tr : silent (calls tr) <-> silent tr.
Proof. unfold silent. by rewrite inserts_calls, !sent_calls. Qed.
Lemma refused_calls ctx tr : refused ctx (calls tr) <-> refused ctx tr.
Proof. unfold refused. by rewrite inserts_calls, !sent_calls. Qed.
Lemma cleared_calls ctx receiver tr : cleared ctx receiver (calls tr) -> cleared ctx receiver tr.
Proof.
  intros [(p & Hp & Hx) Hs]. split; [exists p; split; [by apply elem_of_calls|done]|].
  intros Hne. destruct (Hs Hne). by split; apply elem_of_calls.
Qed.

(** A reply to the sender that is not [Success]. *)
Ltac solve_refused := split_and!; [done|done|eexists; split; [|reflexivity]; discriminate].

Lemma directory_check_sat ctx receiver :
  sat (directory_check ctx receiver) (fun tr a =>
    match a with
    | Ok (Some _) => silent (calls tr) /\ cleared ctx receiver (calls tr)
    | _ => refused ctx (calls tr)
    end).
Proof.
  unfold directory_check. simpl. intros [[p|]|e]; simpl.
  2,3: intros [[]|e']; solve_refused.
  destruct (up_exists p) eqn:Ex; simpl.
  2:{ intros [[]|e']; solve_refused. }
  assert (Hkind : ((up_kind p =? PROFILE_KIND_BOT) && negb (bool_decide (up_owner_account p = s_account (session ctx)))) = false ->
    up_kind p = PROFILE_KIND_BOT -> up_owner_account p = s_account (session ctx)).
  { intros E Ek. rewrite Ek in E. cbn in E. by apply negb_false_iff, bool_decide_eq_true in E. }
  destruct (_ && negb _) eqn:Ek; simpl.
  { intros [[]|e']; solve_refused. }
  specialize (Hkind eq_refl).
  destruct (bool_decide (receiver = s_account (session ctx))) eqn:Er; simpl;
    [apply bool_decide_eq_true in Er|].
  { split; [done|]. split; [|done]. exists p. split_and!; [left|done|done]. }
  intros [[]|e]; simpl.
  1,3: intros [[]|e']; solve_refused.
  intros [[]|e]; simpl.
  2,3: intros [[]|e']; solve_refused.
  split; [done|]. split; [|intros _; split; [right; left|right; right; left]].
  exists p. split_and!; [left|done|done].
Qed.

Ltac solve_cuts :=
  repeat first
    [ progress simpl
    | match goal with
      | |- cutp (match ?x with _ => _ end) _ => destruct x
      | |- cutp (if ?x then _ else _) _ => destruct x
      | |- silent _ => solve [split_and!; reflexivity]
      | |- true = false -> _ => intros [=]
      | |- _ -> _ => intros _
      | |- forall x, _ => intros x
      | |- _ /\ _ => split
      | |- True => exact I
      end ].

(** Until a limit passes, the checks answered nothing. *)
Lemma directory_check_cutp ctx receiver : cutp (directory_check ctx receiver) silent.
Proof. unfold directory_check. solve_cuts. Qed.

(** *** The receipt targets *)

Definition targets_ok (accounts : list string) (ts : list DeliveryTarget) : Prop :=
  forall t, t ∈ ts -> dt_account t ∈ accounts /\ dt_target_id t <> ""%string.

Lemma targets_of_ok account locs t :
  t ∈ targets_of account locs -> dt_account t = account /\ dt_target_id t <> ""%string.
Proof.
  unfold targets_of. rewrite list_elem_of_omap. intros (loc & _ & E). unfold str_is_empty in E.
  case_bool_decide; [done|]. by injection E as <-.
Qed.

Lemma collect_targets_sat accounts all out :
  targets_ok all out -> (forall a, a ∈ accounts -> a ∈ all) ->
  sat (collect_targets accounts out) (fun tr ts => silent (calls tr) /\ targets_ok all ts) /\
  satp (collect_targets accounts out) (fun tr => silent (calls tr)).
Proof.
  revert out; induction accounts as [|a accounts IH]; intros out Hout Hsub; simpl; [done|].
  assert (Hx : forall r : result (list Location) SessionError, targets_ok all (match r with Ok locs => out ++ targets_of a locs | Err _ => out end)).
  { intros [locs|e]; [|done]. intros t [Ht|Ht]%elem_of_app; [by apply Hout|].
    apply targets_of_ok in Ht as [-> ?]. split; [apply Hsub; left|done]. }
  split.
  - intros r. eapply sat_mono; [|apply (IH _ (Hx r)); intros; apply Hsub; by right].
    by intros tr ts.
  - split; [done|]. intros r. eapply satp_mono; [|apply (IH _ (Hx r)); intros; apply Hsub; by right].
    by intros tr.
Qed.

Lemma fallback_targets_sat accounts :
  sat (fallback_targets accounts) (fun tr ts => silent tr /\ targets_ok accounts ts).
Proof.
  assert (Hnil : targets_ok accounts []) by (intros t Ht; by apply not_elem_of_nil in Ht).
  destruct (collect_targets_sat accounts accounts [] Hnil) as [Hs Hp]; [done|].
  unfold fallback_targets. apply sat_bind.
  eapply sat_mono; [|apply (sat_timeout TargetsBudget _ (fun l ts => silent l /\ targets_ok accounts ts) silent Hs (satp_cutp _ _ Hp))].
  intros tr [ts|]; simpl; rewrite app_nil_r, silent_calls; [done|]. by intros [? _].
Qed.

(** *** The handlers *)

Definition user_talk_shape (filter : ContentFilter) (ctx : Context) (tr : list Event)
  (r : result unit RouterError) : Prop :=
  let dest := h_dest (header ctx) in
  refused ctx tr \/
  exists before req time targets x after,
    tr = before ++ Ev (EInsertUser (s_app (session ctx)) (insert_message ctx dest time req targets)) x :: after /\
    silent before /\ read_body (request ctx) = Ok req /\ check filter req = Ok tt /\
    dest <> ""%string /\ cleared ctx dest before /\
    targets_ok [s_account (session ctx); dest] targets /\
    answer_shape ctx User dest req x after r.

Ltac solve_declined := left; split_and!; [done|done|eexists; split; [|reflexivity]].

Lemma do_user_talk_sat filter metrics ctx :
  (forall req status, check filter req = Err status -> status <> Success) ->
  sat (do_user_talk filter metrics ctx) (user_talk_shape filter ctx).
Proof.
  intros Hf. unfold do_user_talk, user_talk_shape. set (dest := h_dest (header ctx)). unfold str_is_empty.
  case_bool_decide as Ed; [simpl; intros [[]|e]; solve_declined; discriminate|].
  destruct (read_body (request ctx)) as [req|err] eqn:Eb;
    [|simpl; intros [[]|e]; solve_declined; discriminate].
  destruct (check filter req) as [[]|status] eqn:Ec.
  2:{ simpl. intros [[]|e]; solve_declined; by eapply Hf. }
  eapply sat_bind_use.
  { exact (sat_timeout DirectoryBudget _ (fun l a => match a with
      | Ok (Some _) => silent l /\ cleared ctx dest l | _ => refused ctx l end)
      silent (directory_check_sat ctx dest) (directory_check_cutp ctx dest)). }
  intros tr [[[owned|]|e]|].
  - intros [Hsil Hcl]. rewrite silent_calls in Hsil. apply cleared_calls in Hcl.
    apply sat_call. intros time. eapply sat_bind_use; [apply fallback_targets_sat|].
    intros tr2 ts [Hsil2 Hts]. apply sat_call. intros x. eapply sat_mono; [|apply answer_insert_sat].
    intros after r Hr. right.
    exists (tr ++ Ev ENow time :: tr2), req, time, ts, x, after. split_and!; try done.
    + by rewrite <- !app_assoc.
    + apply silent_app; [done|]. exact Hsil2.
    + destruct Hcl as [(p & Hp & Hx) Hs]. split.
      * exists p. split; [apply elem_of_app; by left|done].
      * intros Hne. destruct (Hs Hne). split; apply elem_of_app; by left.
    + intros t Ht. destruct (Hts t Ht) as [->%list_elem_of_singleton ?]. split; [|done].
      destruct owned; [left|right; left].
  - rewrite refused_calls. intros Hr. simpl. rewrite app_nil_r. by left.
  - rewrite refused_calls. intros Hr. simpl. rewrite app_nil_r. by left.
  - rewrite silent_calls. intros [(A & B & C) _]. simpl.
    intros [[]|e]; left; (split_and!; [by rewrite inserts_app, A|by rewrite sent_app, B|exists SystemException]);
      by rewrite sent_app, C.
Qed.

Definition group_talk_shape (filter : ContentFilter) (ctx : Context) (tr : list Event)
  (r : result unit RouterError) : Prop :=
  let dest := h_dest (header ctx) in
  refused ctx tr \/
  exists before req time targets members x after,
    tr = before ++ Ev (EInsertGroup (s_app (session ctx)) (insert_message ctx dest time req targets) members) x
           :: after /\
    silent before /\ read_body (request ctx) = Ok req /\ check filter req = Ok tt /\
    dest <> ""%string /\ Ev (EMembers (s_app (session ctx)) dest) (Ok members) ∈ before /\
    s_account (session ctx) ∈ members /\
    targets_ok (List.filter (fun m => negb (bool_decide (m = s_account (session ctx)))) members) targets /\
    answer_shape ctx Group dest req x after r.

Lemma do_group_talk_sat filter metrics ctx :
  (forall req status, check filter req = Err status -> status <> Success) ->
  sat (do_group_talk filter metrics ctx) (group_talk_shape filter ctx).
Proof.
  intros Hf. unfold do_group_talk, group_talk_shape. set (dest := h_dest (header ctx)). unfold str_is_empty.
  case_bool_decide as Ed; [simpl; intros [[]|e]; left; solve_refused|].
  destruct (read_body (request ctx)) as [req|err] eqn:Eb; [|simpl; intros [[]|e]; left; solve_refused].
  destruct (check filter req) as [[]|status] eqn:Ec.
  2:{ simpl. intros [[]|e]; left; (split_and!; [done|done|]); exists status; (split; [by eapply Hf|done]). }
  apply sat_call. intros time. apply sat_call. intros [members|e].
  2:{ destruct e; simpl; intros [[]|e']; left; solve_refused. }
  case_bool_decide as Em; cbn [negb]; [|simpl; intros [[]|e']; left; solve_refused].
  eapply sat_bind_use; [apply fallback_targets_sat|]. intros tr ts [Hsil Hts]. apply sat_call. intros x.
  eapply sat_mono; [|apply answer_insert_sat]. intros after r Hr. right.
  exists (Ev ENow time :: Ev (EMembers (s_app (session ctx)) dest) (Ok members) :: tr), req, time, ts, members, x, after.
  split_and!; try done. right. left.
Qed.
End talk_specs.
