(* ===== verification/TalkSpec.v ===== *)
(** Theorems about the talk handlers, over every behaviour of the session storage,
    the directories, the store, the gateways and the clock. *)

From S2P Require Import Prelude Prog Wire Pkt Location SessionStore Store Social Groups Users Effects Router Filter Talk.
Open Scope Z_scope.
Open Scope kim_scope.

Section talk_theorems.
Context `{Message MessageReq, Message MessageResp, Message MessagePush}.

Lemma check_not_success filter req status : check filter req = Err status -> status <> Success.
Proof. by intros ->%check_rejects. Qed.

Definition talk (kind : MessageKind) : ContentFilter -> bool -> Context -> Answer :=
  match kind with User => do_user_talk | Group => do_group_talk end.

(** The one insertion of a trace. *)
Lemma insertion_split before ev after before' ev' after' :
  before ++ ev :: after = before' ++ ev' :: after' ->
  inserts before = [] -> inserts after = [] -> is_Some (inserted_in ev) -> is_Some (inserted_in ev') ->
  before = before' /\ inserted_in ev = inserted_in ev' /\ after = after'.
Proof.
  revert before'; induction before as [|e before IH]; intros [|e' before'] E Hb Ha [i Hi] [i' Hi']; simpl in E.
  - by injection E as -> ->.
  - injection E as -> ->. rewrite inserts_app, inserts_cons, Hi' in Ha. by destruct (inserts before').
  - injection E as -> _. rewrite inserts_cons, Hi' in Hb. done.
  - injection E as -> E. rewrite inserts_cons in Hb. destruct (inserted_in e'); [done|].
    destruct (IH before' E Hb Ha) as (-> & ? & ->); [by eexists..|]. done.
Qed.

Lemma no_insertion tr before ev after :
  inserts tr = [] -> tr = before ++ ev :: after -> inserted_in ev = None.
Proof.
  intros Hi ->. rewrite inserts_app, inserts_cons in Hi. destruct (inserted_in ev); [|done].
  by destruct (inserts before).
Qed.
End talk_theorems.

(** (C7) A direct message is stored only after every check passed.  In whatever
    way the other components answer, [do_user_talk] inserts at most once, and
    before that, without having answered or pushed anything: the body decoded and
    passed the filter, the directory reported the receiver as existing and not as
    somebody else's bot, and, unless the sender writes to itself, the social graph
    answered "not blocked" and "friends" for this pair.  The message stored says
    what the request said, in the sender's name. *)
Theorem user_talk_checked `{Message MessageReq, Message MessageResp, Message MessagePush}
  (filter : ContentFilter) (metrics : bool) (ctx : Context) (tr : list Event)
  (r : result unit RouterError) (Hrun : exec (do_user_talk filter metrics ctx) tr r)
  (before after : list Event) (app : string) (ireq : InsertMessage) (x : result InsertResult StoreError)
  (Hins : tr = before ++ Ev (EInsertUser app ireq) x :: after) :
  let me := s_account (session ctx) in
  let dest := h_dest (header ctx) in
  app = s_app (session ctx) /\ dest <> ""%string /\
  (exists req time targets, read_body (request ctx) = Ok req /\ check filter req = Ok tt /\
     ireq = mkInsertMessage me dest time (mr_type req) (mr_body req) (mr_extra req) (mr_client_id req) targets) /\
  (exists p, Ev (ELookup app dest) (Ok (Some p)) ∈ before /\ up_exists p = true /\
     (up_kind p = PROFILE_KIND_BOT -> up_owner_account p = me)) /\
  (dest <> me -> Ev (EBlockedEither app me dest) (Ok false) ∈ before /\
                 Ev (EIsFriend app me dest) (Ok true) ∈ before) /\
  inserts before = [] /\ responses before = [] /\ pushes before = [] /\ inserts after = [].
Proof.
  intros me dest.
  pose proof (sat_exec _ _ _ _ (do_user_talk_sat filter metrics ctx (check_not_success filter)) Hrun) as Hshape.
  destruct Hshape as [(Hn & _)|(b & req & time & ts & x' & a & Etr & (B1 & B2 & B3) & Hb & Hc & Hd & [Hl Hs] & _ & Hi & _)].
  { by apply (no_insertion _ _ _ _ Hn) in Hins. }
  rewrite Etr in Hins. destruct (insertion_split _ _ _ _ _ _ Hins B1 Hi) as (-> & E & ->); [by eexists..|].
  simpl in E. injection E as <- <- <-. split_and!; try done. by exists req, time, ts.
Qed.

(** (C8) A group message is stored only for a member of the group, addressed to
    the members the directory named, and with receipts for no one but the other
    members; the body decoded and passed the filter.  There is at most one
    insertion, and nothing is answered or pushed before it. *)
Theorem group_talk_checked `{Message MessageReq, Message MessageResp, Message MessagePush}
  (filter : ContentFilter) (metrics : bool) (ctx : Context) (tr : list Event)
  (r : result unit RouterError) (Hrun : exec (do_group_talk filter metrics ctx) tr r)
  (before after : list Event) (app : string) (ireq : InsertMessage) (members : list string)
  (x : result InsertResult StoreError)
  (Hins : tr = before ++ Ev (EInsertGroup app ireq members) x :: after) :
  let me := s_account (session ctx) in
  let dest := h_dest (header ctx) in
  app = s_app (session ctx) /\ dest <> ""%string /\
  Ev (EMembers app dest) (Ok members) ∈ before /\ me ∈ members /\
  (exists req time targets, read_body (request ctx) = Ok req /\ check filter req = Ok tt /\
     ireq = mkInsertMessage me dest time (mr_type req) (mr_body req) (mr_extra req) (mr_client_id req) targets /\
     forall t, t ∈ targets -> dt_account t ∈ members /\ dt_account t <> me /\ dt_target_id t <> ""%string) /\
  inserts before = [] /\ responses before = [] /\ pushes before = [] /\ inserts after = [].
Proof.
  intros me dest.
  pose proof (sat_exec _ _ _ _ (do_group_talk_sat filter metrics ctx (check_not_success filter)) Hrun) as Hshape.
  destruct Hshape as [(Hn & _)|(b & req & time & ts & ms & x' & a & Etr & (B1 & B2 & B3) & Hb & Hc & Hd & Hm & Hin & Ht & Hi & _)].
  { by apply (no_insertion _ _ _ _ Hn) in Hins. }
  rewrite Etr in Hins. destruct (insertion_split _ _ _ _ _ _ Hins B1 Hi) as (-> & E & ->); [by eexists..|].
  simpl in E. injection E as <- <- <- <-. split_and!; try done. exists req, time, ts. split_and!; try done.
  intros t [Hacc Hid]%Ht. apply elem_of_list_filter_bool in Hacc as [Hne ?].
  by apply negb_true_iff, bool_decide_eq_false in Hne.
Qed.

Section talk_answers.
Context `{Message MessageReq, Message MessageResp, Message MessagePush}.

(** What both handlers have in common once they insert. *)
Lemma talk_insert_shape kind filter metrics ctx tr r before ev after ins :
  exec (talk kind filter metrics ctx) tr r -> tr = before ++ ev :: after -> inserted_in ev = Some ins ->
  exists req, read_body (request ctx) = Ok req /\ silent before /\ inserts after = [] /\
    answer_shape ctx kind (h_dest (header ctx)) req (in_result ins) after r.
Proof.
  intros Hrun Htr Hev. destruct kind; simpl in Hrun.
  - destruct (sat_exec _ _ _ _ (do_user_talk_sat filter metrics ctx (check_not_success filter)) Hrun)
      as [(Hn & _)|(b & req & time & ts & x' & a & Etr & Hb & Hreq & _ & _ & _ & _ & Ha)].
    { apply (no_insertion _ _ _ _ Hn) in Htr. congruence. }
    pose proof Ha as [Hi _]. rewrite Etr in Htr.
    destruct (insertion_split _ _ _ _ _ _ Htr (proj1 Hb) Hi) as (-> & E & ->); [by eexists..|].
    rewrite Hev in E. simpl in E. injection E as <-. by exists req.
  - destruct (sat_exec _ _ _ _ (do_group_talk_sat filter metrics ctx (check_not_success filter)) Hrun)
      as [(Hn & _)|(b & req & time & ts & ms & x' & a & Etr & Hb & Hreq & _ & _ & _ & _ & _ & Ha)].
    { apply (no_insertion _ _ _ _ Hn) in Htr. congruence. }
    pose proof Ha as [Hi _]. rewrite Etr in Htr.
    destruct (insertion_split _ _ _ _ _ _ Htr (proj1 Hb) Hi) as (-> & E & ->); [by eexists..|].
    rewrite Hev in E. simpl in E. injection E as <-. by exists req.
Qed.

Lemma answer_shape_responses ctx kind dest req x tr r :
  answer_shape ctx kind dest req x tr r ->
  exists pkt, responses tr = [to_sender ctx pkt] /\
    ((exists status, status <> Success /\ pkt = response_packet ctx status /\ pushes tr = []) \/
     (exists inserted, x = Ok inserted /\ conflict kind dest req inserted = false /\
        pkt = success_packet ctx inserted)).
Proof.
  intros [_ Ha]. destruct x as [inserted|e].
  - destruct (conflict kind dest req inserted) eqn:Ec.
    + destruct Ha as [-> Hp]. eexists. split; [reflexivity|]. left. by exists IdempotencyConflict.
    + destruct Ha as (rr & rest & -> & _ & (Hr & _) & _). exists (success_packet ctx inserted).
      rewrite sent_cons. simpl. rewrite sent_calls in Hr. rewrite Hr. split; [done|]. right. by exists inserted.
  - destruct Ha as [-> Hp]. eexists. split; [reflexivity|]. left. by exists SystemException.
Qed.
End talk_answers.

(** (C9) Persist, answer, push, in that order.  When the store reports a message
    as stored (and not as a conflicting retry), the next thing the handler does is
    to answer the sender [Success] with the stored id and time; only then it pushes
    the stored message, command and all, to locations the registry gives for the
    recipients, by gateway and never to the sender's own channel.  Neither a
    gateway failure nor the push time limit turns the answer into an error: the
    result is that of sending the reply.  Unless the limit passed, every gateway
    of those locations was pushed to. *)
Theorem talk_persist_then_push `{Message MessageReq, Message MessageResp, Message MessagePush}
  (kind : MessageKind) (filter : ContentFilter) (metrics : bool) (ctx : Context) (tr : list Event)
  (r : result unit RouterError) (Hrun : exec (talk kind filter metrics ctx) tr r)
  (before after : list Event) (ev : Event) (ins : Insertion) (inserted : InsertResult) (req : MessageReq)
  (Htr : tr = before ++ ev :: after) (Hev : inserted_in ev = Some ins)
  (Hok : in_result ins = Ok inserted) (Hreq : read_body (request ctx) = Ok req)
  (Hnc : conflict kind (h_dest (header ctx)) req inserted = false) :
  let command := h_command (header ctx) in
  let recipients := unique (fo_recipients (ir_fanout inserted)) in
  responses before = [] /\ pushes before = [] /\
  exists rest, after = Ev (EPush (own_gate ctx) [own_channel ctx] (success_packet ctx inserted)) r :: rest /\
    responses rest = [] /\
    exists locs n,
      (locs = [] \/ Ev (EGetLocations (mkAccountId <$> recipients)) (Ok locs) ∈ rest) /\
      pushes rest = take n (plan ctx command (message_push inserted) locs) /\
      (r = Ok tt -> uncut PushBudget rest -> exists locs,
         (locs = [] \/ Ev (EGetLocations (mkAccountId <$> recipients)) (Ok locs) ∈ rest) /\
         pushes rest = plan ctx command (message_push inserted) locs).
Proof.
  intros command recipients.
  destruct (talk_insert_shape _ _ _ _ _ _ _ _ _ _ Hrun Htr Hev) as (req' & Hreq' & (_ & Bp & Br) & _ & _ & Ha).
  rewrite Hreq in Hreq'. injection Hreq' as <-. rewrite Hok, Hnc in Ha.
  destruct Ha as (rr & rest & -> & <- & (R & _ & locs & n & Hl & Hp & _) & Hall).
  rewrite sent_calls in R, Hp. split_and!; [done..|]. exists rest. split_and!; [done|done|].
  exists locs, n. split_and!; [destruct Hl; [by left|right; by apply elem_of_calls]|done|].
  intros Hr Hu. destruct (Hall Hr Hu) as (_ & _ & locs' & n' & Hl' & _ & Hp'). exists locs'.
  rewrite sent_calls in Hp'. split; [|by apply Hp'].
  destruct Hl'; [by left|right; by apply elem_of_calls].
Qed.

(** (C6) The answer to a talk.  Both handlers answer exactly once, wherever a time
    limit passes, and the answer goes to the sender.  A [Success] answer is only ever
    sent for a message the store reported as stored, with its id and time; pushes are
    made only then. *)
Theorem talk_answers `{Message MessageReq, Message MessageResp, Message MessagePush}
  (kind : MessageKind) (filter : ContentFilter) (metrics : bool) (ctx : Context) (tr : list Event)
  (r : result unit RouterError) (Hrun : exec (talk kind filter metrics ctx) tr r) :
  length (responses tr) = 1%nat /\
  forall s, s ∈ responses tr -> exists pkt, s = (own_gate ctx, [own_channel ctx], pkt) /\
    ((exists status, status <> Success /\ pkt = response_packet ctx status /\ pushes tr = []) \/
     (exists ins inserted, inserts tr = [ins] /\ in_result ins = Ok inserted /\
        pkt = success_packet ctx inserted)).
Proof.
  assert (Hdone : forall before ev after ins req, tr = before ++ ev :: after -> silent before ->
      inserted_in ev = Some ins -> sent_in Response ev = None -> sent_in PushFlag ev = None ->
      answer_shape ctx kind (h_dest (header ctx)) req (in_result ins) after r ->
      responses tr = responses after /\ pushes tr = pushes after /\ inserts tr = [ins]).
  { intros before ev after ins req -> (B1 & B2 & B3) E1 E2 E3 [Hi _].
    rewrite !sent_app, !sent_cons, inserts_app, inserts_cons, B1, B2, B3, E1, E2, E3, Hi. done. }
  assert (Hcase : refused ctx tr \/ exists before ev after ins req, tr = before ++ ev :: after /\ silent before /\
      inserted_in ev = Some ins /\ sent_in Response ev = None /\ sent_in PushFlag ev = None /\
      answer_shape ctx kind (h_dest (header ctx)) req (in_result ins) after r).
  { destruct kind; simpl in Hrun.
    - destruct (sat_exec _ _ _ _ (do_user_talk_sat filter metrics ctx (check_not_success filter)) Hrun)
        as [Hd|(b & req & time & ts & x & a & -> & Hb & _ & _ & _ & _ & _ & Ha)]; [by left|right].
      eexists b, _, a, _, req. split_and!; [done|done|reflexivity|done|done|exact Ha].
    - destruct (sat_exec _ _ _ _ (do_group_talk_sat filter metrics ctx (check_not_success filter)) Hrun)
        as [Hd|(b & req & time & ts & ms & x & a & -> & Hb & _ & _ & _ & _ & _ & _ & Ha)];
        [by left|right].
      eexists b, _, a, _, req. split_and!; [done|done|reflexivity|done|done|exact Ha]. }
  destruct Hcase as [(_ & Hp & st & Hs & Hr)|(b & ev & a & ins & req & Etr & Hb & E1 & E2 & E3 & Ha)].
  - rewrite Hr. split; [done|]. intros s ->%list_elem_of_singleton. eexists. split; [done|]. left. by exists st.
  - destruct (Hdone _ _ _ _ _ Etr Hb E1 E2 E3 Ha) as (-> & -> & Hi).
    destruct (answer_shape_responses _ _ _ _ _ _ _ Ha) as (pkt & -> & Hpkt). simpl.
    split; [done|]. intros s ->%list_elem_of_singleton. exists pkt. split; [done|].
    destruct Hpkt as [Hl|(inserted & Ex & _ & ->)]; [by left|right]. by exists ins, inserted.
Qed.

(** ** A concrete run: alice writes "hi" to bob, both known and friends *)

#[local] Instance demo_MessageReq : Message MessageReq := {|
  encode_to_vec r := bytes_of (mr_body r);
  decode_msg l := Some (mkMessageReq MESSAGE_TYPE_TEXT (string_of_bytes l) "" "")
|}.
#[local] Instance demo_MessageResp : Message MessageResp := {|
  encode_to_vec r := u8_of_Z <$> [mp_message_id r];
  decode_msg l := None
|}.
#[local] Instance demo_MessagePush : Message MessagePush := {|
  encode_to_vec r := bytes_of (push_body r);
  decode_msg l := None
|}.
Definition demo_talk_ctx : Context :=
  mkContext (set_dest "bob" (mkLogicPkt (l_header (LogicPkt_new "chat.user.talk" 7 [])) (bytes_of "hi")))
    (session demo_ctx).
Definition demo_inserted : InsertResult :=
  mkInsertResult 10 5 false (mkFanout MESSAGE_TYPE_TEXT "hi" "" "alice" "bob" User ["alice"; "bob"]).

Definition lively : forall X, Eff X -> unit -> unit * X :=
  fun X e s => (s, match e in Eff X return X -> X with
  | EGetLocations _ => fun _ => Ok demo_locs
  | ELookup _ _ => fun _ => Ok (Some (mkUserPresence true PROFILE_KIND_USER ""))
  | EIsFriend _ _ _ => fun _ => Ok true
  | EMembers _ _ => fun _ => Ok ["alice"; "bob"]%string
  | EInsertUser _ _ => fun _ => Ok demo_inserted
  | EInsertGroup _ _ _ => fun _ => Ok demo_inserted
  | _ => fun x => x
  end (quiet X e s).2).

Definition demo_run := run lively (do_user_talk NoopFilter true demo_talk_ctx) tt.
Definition demo_group_run := run lively (do_group_talk NoopFilter true demo_talk_ctx) tt.

Lemma demo_exec : exec (talk User NoopFilter true demo_talk_ctx) demo_run.1.2 demo_run.2.
Proof. exact (exec_run lively (do_user_talk NoopFilter true demo_talk_ctx) tt). Qed.
Lemma demo_group_exec : exec (do_group_talk NoopFilter true demo_talk_ctx) demo_group_run.1.2 demo_group_run.2.
Proof. exact (exec_run lively (do_group_talk NoopFilter true demo_talk_ctx) tt). Qed.

Definition demo_insert_req (targets : list DeliveryTarget) : InsertMessage :=
  mkInsertMessage "alice" "bob" 0 MESSAGE_TYPE_TEXT "hi" "" "" targets.
Definition demo_targets : list DeliveryTarget := replicate 4 (mkDeliveryTarget "bob" "j").
Definition demo_before : list Event := take 9 demo_run.1.2.
Definition demo_after : list Event := drop 10 demo_run.1.2.
Definition demo_group_before : list Event := take 4 demo_group_run.1.2.
Definition demo_group_after : list Event := drop 5 demo_group_run.1.2.

Lemma demo_split : demo_run.1.2 =
  demo_before ++ Ev (EInsertUser "kim" (demo_insert_req demo_targets)) (Ok demo_inserted) :: demo_after.
Proof. vm_compute. reflexivity. Qed.
Lemma demo_group_split : demo_group_run.1.2 =
  demo_group_before ++ Ev (EInsertGroup "kim" (demo_insert_req demo_targets) ["alice"; "bob"]%string)
    (Ok demo_inserted) :: demo_group_after.
Proof. vm_compute. reflexivity. Qed.

Lemma user_talk_checked_witness :
  Ev (EIsFriend "kim" "alice" "bob") (Ok true) ∈ demo_before /\ inserts demo_after = [].
Proof.
  destruct (user_talk_checked NoopFilter true demo_talk_ctx demo_run.1.2 demo_run.2
    demo_exec demo_before demo_after "kim" (demo_insert_req demo_targets) (Ok demo_inserted)
    demo_split) as (_ & _ & _ & _ & Hs & _ & _ & _ & Hi).
  split; [|exact Hi]. exact (proj2 (Hs ltac:(discriminate))).
Defined.

Lemma group_talk_checked_witness :
  Ev (EMembers "kim" "bob") (Ok ["alice"; "bob"]%string) ∈ demo_group_before.
Proof.
  destruct (group_talk_checked NoopFilter true demo_talk_ctx demo_group_run.1.2 demo_group_run.2
    demo_group_exec demo_group_before demo_group_after "kim" (demo_insert_req demo_targets)
    ["alice"; "bob"]%string (Ok demo_inserted) demo_group_split) as (_ & _ & Hm & _).
  exact Hm.
Defined.

Lemma talk_persist_then_push_witness : responses demo_before = [] /\ length (pushes demo_after) = 2%nat.
Proof.
  destruct (talk_persist_then_push User NoopFilter true demo_talk_ctx demo_run.1.2 demo_run.2
    demo_exec demo_before demo_after _ _ demo_inserted
    (mkMessageReq MESSAGE_TYPE_TEXT "hi" "" "") demo_split eq_refl eq_refl eq_refl eq_refl) as (Hr & _ & _).
  split; [exact Hr|]. vm_compute. reflexivity.
Defined.

Lemma talk_answers_witness : length (responses demo_run.1.2) = 1%nat.
Proof.
  exact (proj1 (talk_answers User NoopFilter true demo_talk_ctx demo_run.1.2 demo_run.2 demo_exec)).
Defined.
