(* ===== verification/Offline.v ===== *)
(** Acknowledgement and offline catch-up handlers of services/chat: ack.rs and
    offline.rs. *)

From S2P Require Import Prelude Prog Wire Pkt Location SessionStore Store Social Groups Users Effects Router Filter Talk.
Open Scope Z_scope.
Open Scope kim_scope.

Definition own_app (ctx : Context) : string := s_app (session ctx).
Definition own_account (ctx : Context) : string := s_account (session ctx).
(** [session.jti.trim()]. *)
Definition own_jti (ctx : Context) : string := str_trim (s_jti (session ctx)).

Section handlers.
Context `{Message MessageAckReq, Message MessageIndexReq, Message MessageIndexResp}.
Context `{Message MessageContentReq, Message MessageContentResp}.

Definition do_talk_ack (pending_receipt : bool) (ctx : Context) : Answer :=
  match read_body (request ctx) with
  | Err _ => then_ok (resp_with_error ctx InvalidPacketBody)
  | Ok req =>
    let ids := collect_ack_ids (ack_message_id req) (ack_message_ids req) in
    if MESSAGE_MAX_COUNT_PER_PAGE <? len ids then then_ok (resp_with_error ctx InvalidPacketBody)
    else
      let acked (r : result unit StoreError) :=
        match r with
        | Err _ => then_ok (resp_with_error ctx SystemException)
        | Ok _ => then_ok (resp_bytes ctx Success [])
        end in
      if pending_receipt then
        if bool_decide (ids = []) || str_is_empty (own_jti ctx)
        then then_ok (resp_bytes ctx Success [])
        else r ← call (EAck (own_app ctx) (own_account ctx) (own_jti ctx) ids); acked r
      else r ← call (EAck (own_app ctx) (own_account ctx) "" ids); acked r
  end.

Definition index_to_proto (r : MessageIndexRow) : MessageIndex :=
  mkMessageIndex (mx_message_id r) (mx_direction r) (mx_send_time r) (mx_account_b r) (mx_group r).

Definition do_offline_index (pending_receipt : bool) (ctx : Context) : Answer :=
  match read_body (request ctx) with
  | Err _ => then_ok (resp_with_error ctx InvalidPacketBody)
  | Ok req =>
    let reply (r : result (list MessageIndexRow * bool) StoreError) :=
      match r with
      | Err _ => then_ok (resp_with_error ctx SystemException)
      | Ok (rows, has_more) =>
        then_ok (resp ctx Success (Some (mkMessageIndexResp (index_to_proto <$> rows) has_more)))
      end in
    if pending_receipt then
      if str_is_empty (own_jti ctx) then reply (Ok ([], false))
      else
        r ← call (EOfflineIndex (own_app ctx) (own_account ctx) (own_jti ctx)
                    (ireq_message_id req) (ireq_resume req));
        reply r
    else
      r ← call (EOfflineIndex (own_app ctx) (own_account ctx) "" (ireq_message_id req) false);
      reply r
  end.

Definition content_to_proto (r : MessageContentRow) : PktMessage :=
  mkPktMessage (mc_message_id r) (mc_msg_type r) (mc_body r) (mc_extra r).

Definition do_offline_content (ctx : Context) : Answer :=
  match read_body (request ctx) with
  | Err _ => then_ok (resp_with_error ctx InvalidPacketBody)
  | Ok req =>
    if MESSAGE_MAX_COUNT_PER_PAGE <? len (creq_message_ids req)
    then then_ok (resp_with_error ctx InvalidPacketBody)
    else
      r ← call (EOfflineContent (own_app ctx) (own_account ctx) (creq_message_ids req));
      match r with
      | Err _ => then_ok (resp_with_error ctx SystemException)
      | Ok rows => then_ok (resp ctx Success (Some (mkMessageContentResp (content_to_proto <$> rows))))
      end
  end.
End handlers.
