(* ===== verification/Login.v ===== *)
(** Sign-in and sign-out of services/chat/src/login.rs. *)

From S2P Require Import Prelude Prog Wire Pkt Location SessionStore Store Social Groups Users Effects Router Filter Talk.
Open Scope Z_scope.
Open Scope kim_scope.

Definition with_zone (zone : string) (s : Session) : Session :=
  mkSession (s_channel_id s) (s_gate_id s) (s_account s) zone (s_isp s) (s_remote_ip s) (s_device s)
    (s_app s) (s_tags s) (s_jti s) (s_device_id s).

(** The other exclusive-device sessions of the account. *)
Definition victims (channel : ChannelId) (existing : list Location) : list Location :=
  List.filter (fun loc => negb (bool_decide (loc_channel_id loc = channel)) && exclusive_device (loc_device loc))
    existing.

Section login.
Context `{Message Session, Message KickoutNotify, Message LoginResp}.

Fixpoint kick_all (ctx : Context) (olds : list Location) : Proc unit :=
  match olds with
  | [] => Ret tt
  | old :: olds =>
    _ ← dispatch ctx (mkKickoutNotify (channel_str (loc_channel_id old))) [old];
    kick_all ctx olds
  end.

(** The end of a successful sign-in. *)
Definition login_done (presence : bool) (body : Session) (ctx : Context) : Answer :=
  _ ← (if presence then call (EHubAdded (s_app body) (s_account body)) else Ret tt);
  then_ok (resp ctx Success (Some (mkLoginResp (s_channel_id body)))).

(** The sign-in is undone when its backlog cannot be set up. *)
Definition login_undo (account : AccountId) (channel : ChannelId) (ctx : Context) : Answer :=
  _ ← call (ESessionDelete account channel);
  then_ok (resp_bytes ctx SystemException []).

(** From the registration on. *)
Definition login_register (store pending_receipt presence : bool) (body : Session) (ctx : Context) : Answer :=
  let account := mkAccountId (s_account body) in
  let channel := mkChannelId (s_channel_id body) in
  added ← call (ESessionAdd body);
  match added with
  | Err _ => then_ok (resp_bytes ctx SystemException [])
  | Ok _ =>
    if negb pending_receipt then login_done presence body ctx
    else
      let jti := str_trim (s_jti body) in
      if str_is_empty jti || negb store then login_undo account channel ctx
      else
        backfilled ← call (EBackfill (s_app body) (s_account body) jti);
        match backfilled with
        | Err _ => login_undo account channel ctx
        | Ok _ => login_done presence body ctx
        end
  end.

Definition do_sys_login_with_zone (zone : string) (store : bool) (pending_receipt presence : bool)
  (ctx : Context) : Answer :=
  match read_body (T := Session) (request ctx) with
  | Err _ => then_ok (resp_bytes ctx InvalidPacketBody [])
  | Ok body =>
    if str_is_empty (s_account body) then then_ok (resp_bytes ctx InvalidPacketBody [])
    else
      let body := if str_is_empty zone then body else with_zone zone body in
      let fail := then_ok (resp_bytes ctx SystemException []) in
      found ← call (ELookup (s_app body) (s_account body));
      match found with
      | Err _ => fail
      | Ok p =>
        if match p with Some p => up_kind p =? PROFILE_KIND_BOT | None => false end
        then then_ok (resp_bytes ctx Unauthorized [])
        else
          upserted ← call (EUpsert (s_app body) (s_account body));
          match upserted with
          | Err _ => fail
          | Ok _ =>
            let account := mkAccountId (s_account body) in
            let channel := mkChannelId (s_channel_id body) in
            r ← call (EListLocations account);
            let go existing :=
              _ ← (if exclusive_device (s_device body) then kick_all ctx (victims channel existing) else Ret tt);
              login_register store pending_receipt presence body ctx in
            match r with
            | Ok existing => go existing
            | Err NotFound => go []
            | Err _ => fail
            end
          end
      end
  end.

Definition do_sys_login : Context -> Answer := do_sys_login_with_zone "" false false false.

Definition do_sys_logout (presence : bool) (ctx : Context) : Answer :=
  let account := mkAccountId (s_account (session ctx)) in
  let channel := mkChannelId (s_channel_id (session ctx)) in
  r ← call (ESessionDelete account channel);
  match r with
  | Ok _ =>
    _ ← (if presence then call (EHubRemoved (s_app (session ctx)) (account_str account) (channel_str channel))
         else Ret tt);
    then_ok (resp_bytes ctx Success [])
  | Err _ => then_ok (resp_bytes ctx SystemException [])
  end.
End login.

(** ** What a trace registers *)

Inductive RegOp : Type :=
| Added (s : Session) (r : result unit SessionError)
| Deleted (a : AccountId) (c : ChannelId) (r : result unit SessionError)
| Backfilled (app account target : string) (r : result unit StoreError).
Definition registered_in (ev : Event) : option RegOp :=
  match ev with @Ev _ X e x =>
    match e in Eff X return X -> option RegOp with
    | ESessionAdd s => fun r => Some (Added s r)
    | ESessionDelete a c => fun r => Some (Deleted a c r)
    | EBackfill app account target => fun r => Some (Backfilled app account target r)
    | _ => fun _ => None
    end x
  end.
Definition registry (tr : list Event) : list RegOp := omap registered_in tr.

Lemma registry_app tr tr' : registry (tr ++ tr') = registry tr ++ registry tr'.
Proof. unfold registry. apply omap_app. Qed.

Lemma registry_push_events skip packet recvs gs rs :
  registry (zip_with (push_event skip packet recvs) gs rs) = [].
Proof. revert rs; induction gs as [|g gs IH]; intros [|r rs]; try done. exact (IH rs). Qed.

(** ** Specifications *)

Section login_specs.
Context `{Message Session, Message KickoutNotify, Message LoginResp}.

Definition kick_packet (ctx : Context) (old : Location) : LogicPkt :=
  push_packet ctx (h_command (header ctx)) (mkKickoutNotify (channel_str (loc_channel_id old))).

(** Kick-outs: one push per session to drop, to its own channel and gateway. *)
Definition kick_plan (ctx : Context) (olds : list Location) : list (GatewayId * list ChannelId * LogicPkt) :=
  (fun old => (loc_gate_id old, [loc_channel_id old], kick_packet ctx old))
    <$> List.filter (fun old => negb (is_own ctx old)) olds.

Lemma plan_singleton ctx command (body : KickoutNotify) old :
  plan ctx command body [old] =
  if is_own ctx old then [] else [(loc_gate_id old, [loc_channel_id old], push_packet ctx command body)].
Proof.
  unfold plan, gates_of, channels_at. simpl. destruct (is_own ctx old); [done|]. simpl.
  by rewrite bool_decide_eq_true_2.
Qed.

Lemma kick_all_sat ctx olds :
  sat (kick_all ctx olds) (fun tr _ => responses tr = [] /\ registry tr = [] /\ pushes tr = kick_plan ctx olds).
Proof.
  induction olds as [|old olds IH]; [done|]. cbn [kick_all].
  eapply sat_bind_use; [apply dispatch_cmd_done|]. intros tr a (Hr & Hp & rs & Etr).
  eapply sat_mono; [|exact IH]. intros tr' [] (Hr' & Hg' & Hp').
  rewrite !sent_app, registry_app, Hr, Hr', Hg', Hp, Hp', plan_singleton. split_and!; [done| |].
  - rewrite Etr. by rewrite registry_push_events.
  - unfold kick_plan. simpl. by destruct (is_own ctx old).
Qed.

(** One reply that is not [Success]. *)
Definition answered_with (ctx : Context) (status : Status) (tr : list Event) : Prop :=
  responses tr = [refusal ctx status].

Definition login_ok_packet (ctx : Context) (body : Session) : LogicPkt :=
  write_body (response_packet ctx Success) (mkLoginResp (s_channel_id body)).

(** The session a sign-in registers. *)
Definition login_session (zone : string) (body : Session) : Session :=
  if str_is_empty zone then body else with_zone zone body.

(** The three ways a sign-in that reached the registry ends. *)
Definition login_end (pending_receipt : bool) (ctx : Context) (body : Session) (tr : list Event) : Prop :=
  let backfill r := Backfilled (s_app body) (s_account body) (str_trim (s_jti body)) r in
  (exists e, registry tr = [Added body (Err e)] /\ responses tr = [refusal ctx SystemException]) \/
  (responses tr = [to_sender ctx (login_ok_packet ctx body)] /\
   registry tr = Added body (Ok tt) :: (if pending_receipt then [backfill (Ok tt)] else []) /\
   (pending_receipt = true -> str_trim (s_jti body) <> ""%string)) \/
  (responses tr = [refusal ctx SystemException] /\ exists tried undone,
   registry tr = Added body (Ok tt) :: tried ++ [Deleted (mkAccountId (s_account body)) (mkChannelId (s_channel_id body)) undone] /\
   (tried = [] \/ exists e, tried = [backfill (Err e)])).

Definition login_kicks (ctx : Context) (body : Session) (existing : list Location)
  : list (GatewayId * list ChannelId * LogicPkt) :=
  if exclusive_device (s_device body)
  then kick_plan ctx (victims (mkChannelId (s_channel_id body)) existing) else [].

Definition login_shape (zone : string) (pending_receipt : bool) (ctx : Context) (tr : list Event) : Prop :=
  (exists status, status <> Success /\ responses tr = [refusal ctx status] /\ registry tr = [] /\ pushes tr = []) \/
  exists body0 p existing, let body := login_session zone body0 in
    read_body (request ctx) = Ok body0 /\ s_account body <> ""%string /\
    Ev (ELookup (s_app body) (s_account body)) (Ok p) ∈ tr /\
    (forall q, p = Some q -> up_kind q <> PROFILE_KIND_BOT) /\
    (existing = [] \/ Ev (EListLocations (mkAccountId (s_account body))) (Ok existing) ∈ tr) /\
    pushes tr = login_kicks ctx body existing /\ login_end pending_receipt ctx body tr.

Ltac solve_login_refused :=
  intros [[]|]; left; eexists; (split; [|split; [reflexivity|done]]); discriminate.

Lemma login_register_sat store pending_receipt presence ctx body :
  sat (login_register store pending_receipt presence body ctx)
    (fun tr _ => pushes tr = [] /\ login_end pending_receipt ctx body tr).
Proof.
  unfold login_register. cbv zeta. apply sat_call. intros [[]|e].
  2:{ simpl. intros [[]|e']; (split; [done|]); left; by exists e. }
  destruct pending_receipt; cbn [negb].
  2:{ unfold login_done. destruct presence; simpl.
      - intros [] [[]|e']; (split; [done|]); right; left; (split_and!; [done|done|done]).
      - intros [[]|e']; (split; [done|]); right; left; (split_and!; [done|done|done]). }
  destruct (str_is_empty (str_trim (s_jti body)) || negb store) eqn:Ej.
  { unfold login_undo. simpl. intros x [[]|e']; (split; [done|]); right; right;
      (split; [done|]); exists [], x; (split; [done|by left]). }
  apply orb_false_iff in Ej as [Ej%bool_decide_eq_false _].
  apply sat_call. intros [[]|e].
  - unfold login_done. destruct presence; simpl.
    + intros [] [[]|e']; (split; [done|]); right; left; (split_and!; [done|done|done]).
    + intros [[]|e']; (split; [done|]); right; left; (split_and!; [done|done|done]).
  - unfold login_undo. simpl. intros x [[]|e']; (split; [done|]); right; right;
      (split; [done|]); eexists [_], x; (split; [done|right; by eexists]).
Qed.

Lemma login_end_app pending_receipt ctx body tr tr' :
  responses tr = [] -> registry tr = [] ->
  login_end pending_receipt ctx body tr' -> login_end pending_receipt ctx body (tr ++ tr').
Proof. intros Hr Hg. unfold login_end. by rewrite sent_app, registry_app, Hr, Hg. Qed.

Lemma do_sys_login_sat zone store pending_receipt presence ctx :
  sat (do_sys_login_with_zone zone store pending_receipt presence ctx)
    (fun tr _ => login_shape zone pending_receipt ctx tr).
Proof.
  unfold do_sys_login_with_zone.
  destruct (read_body (request ctx)) as [body0|err] eqn:Eb; [|simpl; solve_login_refused].
  destruct (str_is_empty (s_account body0)) eqn:Ea; [simpl; solve_login_refused|].
  apply bool_decide_eq_false in Ea.
  cbv zeta. fold (login_session zone body0). set (body := login_session zone body0).
  assert (Eacc : s_account body = s_account body0).
  { unfold body, login_session. by destruct (str_is_empty zone). }
  apply sat_call. intros [p|e]; [|simpl; solve_login_refused].
  destruct (match p with Some p => up_kind p =? PROFILE_KIND_BOT | None => false end) eqn:Ek;
    [simpl; solve_login_refused|].
  apply sat_call. intros [[]|e]; [|simpl; solve_login_refused].
  apply sat_call. intros r.
  assert (Hsat : forall existing r', (existing = [] \/ r' = Ok existing) ->
    sat (_ ← (if exclusive_device (s_device body)
              then kick_all ctx (victims (mkChannelId (s_channel_id body)) existing) else Ret tt);
         login_register store pending_receipt presence body ctx)
      (fun tr _ => login_shape zone pending_receipt ctx
         ([Ev (ELookup (s_app body) (s_account body)) (Ok p);
           Ev (EUpsert (s_app body) (s_account body)) (Ok tt);
           Ev (EListLocations (mkAccountId (s_account body))) r'] ++ tr))).
  { intros existing r' He. eapply (sat_bind_use _ _ _
      (fun tr _ => responses tr = [] /\ registry tr = [] /\ pushes tr = login_kicks ctx body existing)).
    - unfold login_kicks. destruct (exclusive_device _); [|done].
      eapply sat_mono; [|apply kick_all_sat]. tauto.
    - intros tr [] (Hr & Hg & Hp). eapply sat_mono; [|apply login_register_sat].
      intros tr' _ (Hp' & He'). right. exists body0, p, existing. fold body. split_and!; try done.
      + congruence.
      + left.
      + intros q ->. by apply Z.eqb_neq.
      + destruct He as [->| ->]; [by left|right; right; right; left].
      + by rewrite !sent_app, Hp, Hp', app_nil_r.
      + apply login_end_app; [done|done|]. by apply login_end_app. }
  destruct r as [existing|e]; [apply (Hsat existing (Ok existing)); by right|].
  destruct e.
  { exact (Hsat [] (Err NotFound) (or_introl eq_refl)). }
  all: simpl; intros [[]|]; left; exists SystemException; (split; [discriminate|]); (split; [reflexivity|]); split; reflexivity.
Qed.
End login_specs.

(** The session a list of registrations leaves behind. *)
Definition reg_op_step (left : option Session) (op : RegOp) : option Session :=
  match op, left with
  | Added s (Ok _), _ => Some s
  | Deleted a c (Ok _), Some s =>
    if bool_decide (a = mkAccountId (s_account s)) && bool_decide (c = mkChannelId (s_channel_id s)) then None else left
  | _, _ => left
  end.
Definition left_registered (l : list RegOp) : option Session := foldl reg_op_step None l.

(** Session registrations of a sign-in that fails: none, a failed one, or one that is
    deleted at the end, whatever comes of the deletion. *)
Definition taken_back (l : list RegOp) : Prop :=
  l = [] \/ (exists s e, l = [Added s (Err e)]) \/
  exists s tried undone,
    l = Added s (Ok tt) :: tried ++ [Deleted (mkAccountId (s_account s)) (mkChannelId (s_channel_id s)) undone]
    /\ forall x, x ∈ tried -> exists app account target e, x = Backfilled app account target (Err e).

Lemma taken_back_left l : taken_back l -> forall s, left_registered l = Some s ->
  exists e, list.last l = Some (Deleted (mkAccountId (s_account s)) (mkChannelId (s_channel_id s)) (Err e)).
Proof.
  intros [->|[(s0 & e & ->)|(s0 & tried & undone & -> & Ht)]] s; [done..|].
  unfold left_registered. cbn [foldl reg_op_step]. rewrite foldl_app.
  assert (Et : foldl reg_op_step (Some s0) tried = Some s0).
  { clear -Ht. induction tried as [|x tried IH]; [done|]. cbn [foldl]. destruct (Ht x ltac:(by left)) as (? & ? & ? & ? & ->).
    apply IH. intros; apply Ht; by right. }
  rewrite Et. cbn [foldl reg_op_step]. destruct undone as [u|e].
  - by rewrite !bool_decide_eq_true_2.
  - intros [= <-]. exists e. rewrite app_comm_cons. apply list.last_snoc.
Qed.

(** (C19) Sign-in is all or nothing.  Whatever storage, directories and gateways
    answer, the client gets exactly one answer.  [Success] is given only when the
    session of the body (in the zone of this server) was registered, the account is
    no bot and, with receipts on, the backlog of its non-empty token id was set up;
    on any other answer nothing was registered, or its registration failed, or it was
    deleted at the end, and it stays registered only when that deletion failed.  Only a
    sign-in on an exclusive device kicks anybody out: other sessions of this account, on
    exclusive devices, each told its own channel id. *)
Theorem login_all_or_nothing `{Message Session, Message KickoutNotify, Message LoginResp}
  (zone : string) (store pending_receipt presence : bool) (ctx : Context) (tr : list Event)
  (r : result unit RouterError)
  (Hrun : exec (do_sys_login_with_zone zone store pending_receipt presence ctx) tr r) :
  ((exists status, status <> Success /\ responses tr = [refusal ctx status] /\ taken_back (registry tr) /\
      forall s, left_registered (registry tr) = Some s -> exists e,
        list.last (registry tr) = Some (Deleted (mkAccountId (s_account s)) (mkChannelId (s_channel_id s)) (Err e))) \/
   (exists body0, let body := login_session zone body0 in
      read_body (request ctx) = Ok body0 /\ s_account body <> ""%string /\
      responses tr = [to_sender ctx (login_ok_packet ctx body)] /\
      registry tr = Added body (Ok tt) ::
        (if pending_receipt
         then [Backfilled (s_app body) (s_account body) (str_trim (s_jti body)) (Ok tt)] else []) /\
      (pending_receipt = true -> str_trim (s_jti body) <> ""%string) /\
      exists p, Ev (ELookup (s_app body) (s_account body)) (Ok p) ∈ tr /\
        forall q, p = Some q -> up_kind q <> PROFILE_KIND_BOT)) /\
  (forall g cs pkt, (g, cs, pkt) ∈ pushes tr -> exists body0 existing old,
     let body := login_session zone body0 in
     read_body (request ctx) = Ok body0 /\ exclusive_device (s_device body) = true /\
     Ev (EListLocations (mkAccountId (s_account body))) (Ok existing) ∈ tr /\ old ∈ existing /\
     exclusive_device (loc_device old) = true /\ channel_str (loc_channel_id old) <> s_channel_id body /\
     g = loc_gate_id old /\ cs = [loc_channel_id old] /\ pkt = kick_packet ctx old).
Proof.
  destruct (sat_exec _ _ _ _ (do_sys_login_sat zone store pending_receipt presence ctx) Hrun)
    as [(st & Hs & Hr & Hg & Hp)|(body0 & p & existing & Hb & Ha & Hl & Hk & He & Hp & Hend)].
  { rewrite Hp. split; [left; exists st; rewrite Hg; split_and!; [done|done|by left|done]|].
    intros g cs pkt Hin. by apply not_elem_of_nil in Hin. }
  set (body := login_session zone body0) in *. split.
  - destruct Hend as [(e & Hg & Hr)|[(Hr & Hg & Hj)|(Hr & tried & undone & Hg & Ht)]].
    + left. exists SystemException. rewrite Hg. split_and!; [done|done| |done]. right. left. by exists body, e.
    + right. exists body0. split_and!; try done. by exists p.
    + assert (Hb' : taken_back (registry tr)).
      { right. right. exists body, tried, undone. split; [done|].
        intros x Hx. destruct Ht as [->|(e & ->)]; [by apply not_elem_of_nil in Hx|].
        apply list_elem_of_singleton in Hx as ->. by eexists _, _, _, e. }
      left. exists SystemException. split_and!; [done|done|done|by apply taken_back_left].
  - intros g cs pkt Hin. rewrite Hp in Hin. unfold login_kicks in Hin.
    destruct (exclusive_device (s_device body)) eqn:Ex; [|by apply not_elem_of_nil in Hin].
    apply list_elem_of_fmap in Hin as (old & E & [_ [Hv Hin]%elem_of_list_filter_bool]%elem_of_list_filter_bool).
    injection E as -> -> ->. apply andb_true_iff in Hv as [Hc%negb_true_iff Hd].
    apply bool_decide_eq_false in Hc. exists body0, existing, old. split_and!; try done.
    + destruct He as [->|He]; [by apply not_elem_of_nil in Hin|done].
    + intros E. apply Hc. destruct (loc_channel_id old). simpl in E. by subst.
Qed.

(** ** A concrete run *)

#[local] Instance demo_Session : Message Session := {|
  encode_to_vec s := bytes_of (s_account s);
  decode_msg l := Some (mkSession "ch-9" "gate-a" (string_of_bytes l) "" "" "" "ios" "kim" [] "jti-9" "")
|}.
#[local] Instance demo_KickoutNotify : Message KickoutNotify := {|
  encode_to_vec k := bytes_of (ko_channel_id k); decode_msg l := None |}.
#[local] Instance demo_LoginResp : Message LoginResp := {|
  encode_to_vec l := bytes_of (lr_channel_id l); decode_msg l := None |}.

Definition demo_login_ctx : Context :=
  mkContext (mkLogicPkt (l_header (LogicPkt_new "login.signin" 3 [])) (bytes_of "alice"))
    (mkSession "ch-9" "gate-a" "" "" "" "" "" "" [] "" "").
Definition demo_login_run := run quiet (do_sys_login_with_zone "eu" true true true demo_login_ctx) tt.

Lemma login_all_or_nothing_witness :
  length (responses demo_login_run.1.2) = 1%nat /\ length (registry demo_login_run.1.2) = 2%nat.
Proof.
  destruct (login_all_or_nothing "eu" true true true demo_login_ctx demo_login_run.1.2 demo_login_run.2
    (exec_run quiet (do_sys_login_with_zone "eu" true true true demo_login_ctx) tt)) as
    [[(st & _ & Hr & _)|(body & _ & _ & Hr & Hg & _)] _].
  - split; [by rewrite Hr|vm_compute; reflexivity].
  - split; [by rewrite Hr|by rewrite Hg].
Defined.
