(* ===== verification/GroupCmds.v ===== *)
(** The group commands: services/chat/src/group.rs. *)

From S2P Require Import Prelude Prog Wire Pkt Msgs Location SessionStore Store Social Groups Users Effects Router Offline.
Open Scope Z_scope.
Open Scope kim_scope.

Definition MAX_GROUP_MEMBERS : Z := 500.

Definition dest_or_body_group (header_dest body_group : string) : string :=
  if negb (str_is_empty header_dest) then header_dest else body_group.

Definition is_member (info : GroupInfo) (account : string) : bool :=
  existsb (fun m => bool_decide (m = account)) (gi_members info).

Definition group_lookup_status (err : GroupError) : Status :=
  match err with GroupNotFound => NotGroupMember | GroupId _ | GroupBackend _ => SystemException end.

(** [HashSet::insert] in the loop of [do_group_invite]: the trimmed accounts that
    are new to the list and to the group, in order. *)
Fixpoint new_accounts (existing seen accounts : list string) : list string :=
  match accounts with
  | [] => []
  | account :: accounts =>
    let account := str_trim account in
    if str_is_empty account || bool_decide (account ∈ seen) then new_accounts existing seen accounts
    else if bool_decide (account ∈ existing) then new_accounts existing (account :: seen) accounts
    else account :: new_accounts existing (account :: seen) accounts
  end.

Section handlers.
Context `{Prost}.

Definition load_group (app group_id : string) : Proc (result GroupInfo GroupError) :=
  call (EGroupDetail app group_id).

(** [Ok (Err (()))], the refusal that was answered, is [Ok false]. *)
Fixpoint check_humans (ctx : Context) (accounts : list string) : Proc (result bool RouterError) :=
  match accounts with
  | [] => Ret (Ok true)
  | account :: accounts =>
    let refuse status := let* _ := resp_with_error ctx status in Ret (Ok false) in
    found ← call (ELookup (own_app ctx) account);
    match found with
    | Ok (Some p) =>
      if up_exists p && negb (up_kind p =? PROFILE_KIND_BOT) then check_humans ctx accounts
      else refuse UserNotFound
    | Ok None => refuse UserNotFound
    | Err _ => refuse SystemException
    end
  end.

Definition ensure_human_accounts (ctx : Context) (accounts : list string) : Proc (result bool RouterError) :=
  deadline ← timeout MemberLookupBudget (check_humans ctx accounts);
  match deadline with
  | Some (Ok b) => Ret (Ok b)
  | Some (Err err) => Ret (Err err)
  | None => let* _ := resp_with_error ctx SystemException in Ret (Ok false)
  end.

Definition do_group_create (ctx : Context) : Answer :=
  match read_body (request ctx) with
  | Err _ => then_ok (resp_with_error ctx InvalidPacketBody)
  | Ok req =>
    let owner := own_account ctx in
    let members := normalize_members owner (group_create_req_members req) in
    if MAX_GROUP_MEMBERS <? len members then then_ok (resp_with_error ctx InvalidPacketBody)
    else
      let others := List.filter (fun m => negb (bool_decide (m = owner))) members in
      let* human := ensure_human_accounts ctx others in
      if negb human then Ret (Ok tt)
      else
        created ← call (EGroupCreate (own_app ctx)
          (mkCreateGroup (group_create_req_name req) (group_create_req_avatar req)
             (group_create_req_introduction req) owner members));
        match created with
        | Err _ => then_ok (resp_with_error ctx SystemException)
        | Ok group_id =>
          let done := then_ok (resp ctx Success (Some (mkGroupCreateResp group_id))) in
          found ← call (EGetLocations (mkAccountId <$> members));
          match found with
          | Ok [] | Err NotFound => done
          | Ok locs =>
            pushed ← dispatch ctx (mkGroupCreateNotify group_id members) locs;
            match pushed with
            | Err _ => then_ok (resp_with_error ctx SystemException)
            | Ok _ => done
            end
          | Err _ => then_ok (resp_with_error ctx SystemException)
          end
        end
  end.

Definition do_group_join (ctx : Context) : Answer :=
  match read_body (request ctx) with
  | Err _ => then_ok (resp_with_error ctx InvalidPacketBody)
  | Ok req =>
    let group_id := dest_or_body_group (h_dest (header ctx)) (group_join_req_group_id req) in
    if str_is_empty group_id then then_ok (resp_with_error ctx NoDestination)
    else if negb (str_is_empty (group_join_req_account req))
            && negb (bool_decide (group_join_req_account req = own_account ctx))
    then then_ok (resp_bytes ctx Unauthorized [])
    else
      found ← load_group (own_app ctx) group_id;
      match found with
      | Ok info =>
        if is_member info (own_account ctx) then then_ok (resp_bytes ctx Success [])
        else then_ok (resp_bytes ctx Unauthorized [])
      | Err err => then_ok (resp_with_error ctx (group_lookup_status err))
      end
  end.

(** [None] when every account joined. *)
Fixpoint join_all (app group_id : string) (accounts : list string) : Proc (option GroupError) :=
  match accounts with
  | [] => Ret None
  | account :: accounts =>
    r ← call (EGroupJoin app group_id account);
    match r with Err err => Ret (Some err) | Ok _ => join_all app group_id accounts end
  end.

Definition do_group_invite (ctx : Context) : Answer :=
  match read_body (request ctx) with
  | Err _ => then_ok (resp_with_error ctx InvalidPacketBody)
  | Ok req =>
    let group_id := dest_or_body_group (h_dest (header ctx)) (group_invite_req_group_id req) in
    if str_is_empty group_id then then_ok (resp_with_error ctx NoDestination)
    else if bool_decide (group_invite_req_accounts req = []) then then_ok (resp_bytes ctx InvalidPacketBody [])
    else
      found ← load_group (own_app ctx) group_id;
      match found with
      | Err err => then_ok (resp_with_error ctx (group_lookup_status err))
      | Ok info =>
        if negb (is_member info (own_account ctx)) then then_ok (resp_bytes ctx NotGroupMember [])
        else
          let added := new_accounts (gi_members info) [] (group_invite_req_accounts req) in
          if MAX_GROUP_MEMBERS <? len (gi_members info) + len added
          then then_ok (resp_with_error ctx InvalidPacketBody)
          else
            let* human := ensure_human_accounts ctx added in
            if negb human then Ret (Ok tt)
            else
              failed ← join_all (own_app ctx) group_id added;
              match failed with
              | Some err => then_ok (resp_with_error ctx (group_lookup_status err))
              | None =>
                if bool_decide (added = []) then then_ok (resp_bytes ctx Success [])
                else
                  r ← call (EMembers (own_app ctx) group_id);
                  match r with
                  | Err err => then_ok (resp_with_error ctx (group_lookup_status err))
                  | Ok members =>
                    found ← call (EGetLocations (mkAccountId <$> added));
                    _ ← match found with
                        | Ok (_ :: _ as locs) =>
                          _ ← dispatch ctx (mkGroupCreateNotify group_id members) locs; Ret tt
                        | _ => Ret tt
                        end;
                    then_ok (resp_bytes ctx Success [])
                  end
              end
      end
  end.

Definition do_group_quit (ctx : Context) : Answer :=
  match read_body (request ctx) with
  | Err _ => then_ok (resp_with_error ctx InvalidPacketBody)
  | Ok req =>
    let group_id := dest_or_body_group (h_dest (header ctx)) (group_quit_req_group_id req) in
    if str_is_empty group_id then then_ok (resp_with_error ctx NoDestination)
    else if negb (str_is_empty (group_quit_req_account req))
            && negb (bool_decide (group_quit_req_account req = own_account ctx))
    then then_ok (resp_bytes ctx Unauthorized [])
    else
      found ← load_group (own_app ctx) group_id;
      match found with
      | Ok info =>
        if is_member info (own_account ctx) then
          r ← call (EGroupQuit (own_app ctx) group_id (own_account ctx));
          match r with
          | Ok _ => then_ok (resp_bytes ctx Success [])
          | Err err => then_ok (resp_with_error ctx (group_lookup_status err))
          end
        else then_ok (resp_bytes ctx NotGroupMember [])
      | Err err => then_ok (resp_with_error ctx (group_lookup_status err))
      end
  end.

Definition do_group_detail (ctx : Context) : Answer :=
  if str_is_empty (h_dest (header ctx)) then then_ok (resp_with_error ctx NoDestination)
  else
    found ← load_group (own_app ctx) (h_dest (header ctx));
    match found with
    | Ok info =>
      if is_member info (own_account ctx) then
        then_ok (resp ctx Success (Some (mkGroupDetail (gi_id info) (gi_name info) (gi_avatar info)
                                           (gi_introduction info) (gi_owner info) (gi_members info))))
      else then_ok (resp_bytes ctx NotGroupMember [])
    | Err err => then_ok (resp_with_error ctx (group_lookup_status err))
    end.

Definition do_group_members (ctx : Context) : Answer :=
  if str_is_empty (h_dest (header ctx)) then then_ok (resp_with_error ctx NoDestination)
  else
    found ← load_group (own_app ctx) (h_dest (header ctx));
    match found with
    | Ok info =>
      if is_member info (own_account ctx) then
        then_ok (resp ctx Success (Some (mkGroupMembersResp (gi_members info))))
      else then_ok (resp_bytes ctx NotGroupMember [])
    | Err err => then_ok (resp_with_error ctx (group_lookup_status err))
    end.
End handlers.
