(* ===== verification/PeopleCmds.v ===== *)
(** The commands about people: friends.rs and profile.rs of services/chat/src. *)

From S2P Require Import Prelude Prog Wire Pkt Msgs Location SessionStore Store Social Groups Users Effects Router Offline.
Open Scope Z_scope.
Open Scope kim_scope.

(** ** friends.rs *)

Inductive FriendCmdError : Type := FcNoDestination | FcSelfOp.

Definition dest_account (ctx : Context) : result string FriendCmdError :=
  let dest := h_dest (header ctx) in
  if str_is_empty dest then Err FcNoDestination
  else if bool_decide (dest = own_account ctx) then Err FcSelfOp else Ok dest.

Definition social_status (err : SocialError) : Status :=
  match err with
  | SelfOp => InvalidPacketBody
  | SocialNotFound => UserNotFound
  | SocialBlocked => Blocked
  | SocialBotDenied => BotSocialDenied
  | SocialBackend _ => SystemException
  end.

Section handlers.
Context `{Prost}.

(** The peer of a command, or the refusal. *)
Definition with_peer (ctx : Context) (f : string -> Answer) : Answer :=
  match dest_account ctx with
  | Err FcNoDestination => then_ok (resp_with_error ctx NoDestination)
  | Err FcSelfOp => then_ok (resp_with_error ctx InvalidPacketBody)
  | Ok peer => f peer
  end.

Definition reject_bot_social (app session peer : string) : Proc (result unit Status) :=
  found ← call (ELookup app peer);
  Ret (match found with
       | Ok (Some p) =>
         if up_kind p =? PROFILE_KIND_BOT then
           if bool_decide (up_owner_account p = session) then Err BotSocialDenied else Err UserNotFound
         else Ok tt
       | Ok None => Ok tt
       | Err _ => Err SystemException
       end).

Definition require_user (app account : string) : Proc (result bool UserError) := call (EUserExists app account).

Definition notify_peer (ctx : Context) (account : string) (body : FriendRequestNotify) : Proc unit :=
  notify_account ctx account (h_command (header ctx)) body.

(** What answers a call of the social directory. *)
Definition answer_social (ctx : Context) (r : result unit SocialError) : Answer :=
  match r with
  | Ok _ => then_ok (resp_bytes ctx Success [])
  | Err err => then_ok (resp_with_error ctx (social_status err))
  end.

Definition do_friend_request (ctx : Context) : Answer :=
  with_peer ctx (fun peer =>
    bot ← reject_bot_social (own_app ctx) (own_account ctx) peer;
    match bot with
    | Err status => then_ok (resp_bytes ctx status [])
    | Ok _ =>
      user ← require_user (own_app ctx) peer;
      match user with
      | Ok false => then_ok (resp_bytes ctx UserNotFound [])
      | Err _ => then_ok (resp_with_error ctx SystemException)
      | Ok true =>
        let from := own_account ctx in
        found ← call (EProfile (own_app ctx) from);
        let nickname := match found with Ok (Some p) => display_name p | _ => from end in
        r ← call (EFriendRequest (own_app ctx) from peer);
        match r with
        | Ok (Sent | AutoAccepted) =>
          _ ← notify_peer ctx peer (mkFriendRequestNotify from nickname);
          then_ok (resp_bytes ctx Success [])
        | Ok AlreadyFriends => then_ok (resp_bytes ctx Success [])
        | Err err => then_ok (resp_with_error ctx (social_status err))
        end
      end
    end).

Definition do_friend_accept (ctx : Context) : Answer :=
  with_peer ctx (fun peer =>
    r ← call (EFriendAccept (own_app ctx) (own_account ctx) peer);
    match r with
    | Ok _ =>
      found ← call (EProfile (own_app ctx) (own_account ctx));
      let nickname := match found with Ok (Some p) => display_name p | _ => own_account ctx end in
      _ ← notify_peer ctx peer (mkFriendRequestNotify (own_account ctx) nickname);
      then_ok (resp_bytes ctx Success [])
    | Err err => then_ok (resp_with_error ctx (social_status err))
    end).

Definition do_friend_reject (ctx : Context) : Answer :=
  with_peer ctx (fun peer =>
    r ← call (EFriendReject (own_app ctx) (own_account ctx) peer); answer_social ctx r).

Definition do_friend_remove (ctx : Context) : Answer :=
  with_peer ctx (fun peer =>
    bot ← reject_bot_social (own_app ctx) (own_account ctx) peer;
    match bot with
    | Err status => then_ok (resp_bytes ctx status [])
    | Ok _ => r ← call (EFriendRemove (own_app ctx) (own_account ctx) peer); answer_social ctx r
    end).

Definition to_pb (p : UserProfile) : PbUserProfile :=
  mkPbUserProfile (pf_account p) (pf_nickname p) (pf_avatar p) (pf_bio p) (pf_kind p).

Definition profiles_pb (app : string) (accounts : list string) : Proc (result (list PbUserProfile) UserError) :=
  r ← call (EProfiles app accounts);
  Ret (match r with Ok rows => Ok (List.map to_pb rows) | Err e => Err e end).

(** The accounts of a social list, answered with their profiles. *)
Definition answer_list (ctx : Context) (r : result (list string) SocialError) : Answer :=
  match r with
  | Ok accounts =>
    list ← profiles_pb (own_app ctx) accounts;
    match list with
    | Ok list => then_ok (resp ctx Success (Some (mkUserListResp list)))
    | Err _ => then_ok (resp_with_error ctx SystemException)
    end
  | Err err => then_ok (resp_with_error ctx (social_status err))
  end.

Definition do_friend_list (ctx : Context) : Answer :=
  r ← call (EListFriends (own_app ctx) (own_account ctx)); answer_list ctx r.
Definition do_friend_incoming (ctx : Context) : Answer :=
  r ← call (EIncoming (own_app ctx) (own_account ctx)); answer_list ctx r.

Definition do_block_add (ctx : Context) : Answer :=
  with_peer ctx (fun peer =>
    bot ← reject_bot_social (own_app ctx) (own_account ctx) peer;
    match bot with
    | Err status => then_ok (resp_bytes ctx status [])
    | Ok _ =>
      user ← require_user (own_app ctx) peer;
      match user with
      | Ok false => then_ok (resp_bytes ctx UserNotFound [])
      | Err _ => then_ok (resp_with_error ctx SystemException)
      | Ok true => r ← call (EBlock (own_app ctx) (own_account ctx) peer); answer_social ctx r
      end
    end).

Definition do_block_remove (ctx : Context) : Answer :=
  with_peer ctx (fun peer =>
    bot ← reject_bot_social (own_app ctx) (own_account ctx) peer;
    match bot with
    | Err status => then_ok (resp_bytes ctx status [])
    | Ok _ => r ← call (EUnblock (own_app ctx) (own_account ctx) peer); answer_social ctx r
    end).

Definition do_block_list (ctx : Context) : Answer :=
  r ← call (EListBlocked (own_app ctx) (own_account ctx)); answer_list ctx r.

(** ** profile.rs *)

Definition do_user_profile (ctx : Context) : Answer :=
  let dest := h_dest (header ctx) in
  let account := if str_is_empty dest then own_account ctx else dest in
  let show :=
    found ← call (EProfile (own_app ctx) account);
    match found with
    | Ok (Some p) => then_ok (resp ctx Success (Some (to_pb p)))
    | Ok None => then_ok (resp_bytes ctx UserNotFound [])
    | Err _ => then_ok (resp_with_error ctx SystemException)
    end in
  if negb (str_is_empty dest) && negb (bool_decide (dest = own_account ctx)) then
    found ← call (ELookup (own_app ctx) dest);
    match found with
    | Ok (Some p) =>
      if (up_kind p =? PROFILE_KIND_BOT) && negb (bool_decide (up_owner_account p = own_account ctx))
      then then_ok (resp_bytes ctx UserNotFound []) else show
    | Ok None => show
    | Err _ => then_ok (resp_with_error ctx SystemException)
    end
  else show.

Fixpoint notify_each {B} `{Message B} (ctx : Context) (accounts : list string) (command : string) (body : B)
  : Proc unit :=
  match accounts with
  | [] => Ret tt
  | account :: accounts =>
    _ ← notify_account ctx account command body; notify_each ctx accounts command body
  end.

Definition push_profile_updated (ctx : Context) (body : PbUserProfile) : Proc unit :=
  let me := own_account ctx in
  r ← call (EListFriends (own_app ctx) me);
  _ ← match r with
      | Ok friends => notify_each ctx friends CMD_USER_UPDATED body
      | Err _ => Ret tt
      end;
  notify_account ctx me CMD_USER_UPDATED body.

Definition do_user_update (ctx : Context) : Answer :=
  match read_body (request ctx) with
  | Err _ => then_ok (resp_with_error ctx InvalidPacketBody)
  | Ok req =>
    let dest := h_dest (header ctx) in
    if negb (str_is_empty dest) && negb (bool_decide (dest = own_account ctx))
    then then_ok (resp_bytes ctx Unauthorized [])
    else
      let patch := mkProfilePatch (user_profile_update_nickname req) (user_profile_update_avatar req)
                     (user_profile_update_bio req) in
      match validate_patch patch with
      | Err InvalidProfile => then_ok (resp_bytes ctx InvalidPacketBody [])
      | _ =>
        r ← call (EUpdateProfile (own_app ctx) (own_account ctx) patch);
        match r with
        | Ok p =>
          let body := to_pb p in
          let* _ := resp ctx Success (Some body) in
          _ ← push_profile_updated ctx body;
          Ret (Ok tt)
        | Err UserMissing => then_ok (resp_bytes ctx UserNotFound [])
        | Err InvalidProfile => then_ok (resp_bytes ctx InvalidPacketBody [])
        | Err _ => then_ok (resp_with_error ctx SystemException)
        end
      end
  end.

(** The found users, those in a block with the searcher left out. *)
Fixpoint unblocked (ctx : Context) (rows : list UserProfile) (out : list PbUserProfile)
  : Proc (result (list PbUserProfile) SocialError) :=
  match rows with
  | [] => Ret (Ok out)
  | p :: rows =>
    r ← call (EBlockedEither (own_app ctx) (own_account ctx) (pf_account p));
    match r with
    | Ok true => unblocked ctx rows out
    | Ok false => unblocked ctx rows (out ++ [to_pb p])
    | Err err => Ret (Err err)
    end
  end.

Definition do_user_search (ctx : Context) : Answer :=
  match read_body (request ctx) with
  | Err _ => then_ok (resp_with_error ctx InvalidPacketBody)
  | Ok req =>
    let me := own_account ctx in
    listed ← call (EListBlocked (own_app ctx) me);
    match listed with
    | Err _ => then_ok (resp_with_error ctx SystemException)
    | Ok blocked =>
      r ← call (ESearch (own_app ctx) (user_search_req_query req) (me :: blocked) SEARCH_LIMIT);
      match r with
      | Err _ => then_ok (resp_with_error ctx SystemException)
      | Ok rows =>
        shown ← unblocked ctx rows [];
        match shown with
        | Ok users => then_ok (resp ctx Success (Some (mkUserSearchResp users)))
        | Err _ => then_ok (resp_with_error ctx SystemException)
        end
      end
    end
  end.
End handlers.
