(* ===== verification/InboxCmds.v ===== *)
(** The conversation commands: services/chat/src/inbox.rs. *)

From S2P Require Import Prelude Prog Wire Pkt Msgs Location SessionStore Store Social Groups Users Effects Router Offline.
From stdpp Require Import gmap.
Open Scope Z_scope.
Open Scope kim_scope.

Definition kind_of (kind : Z) : option MessageKind :=
  if kind =? INBOX_KIND_USER then Some User
  else if kind =? INBOX_KIND_GROUP then Some Group else None.
Definition parse_kind (kind : Z) : option MessageKind := kind_of kind.
Definition inbox_kind (kind : MessageKind) : Z :=
  match kind with User => INBOX_KIND_USER | Group => INBOX_KIND_GROUP end.

(** store/mod.rs [ConversationReadState::to_proto]. *)
Definition state_to_proto (s : ConversationReadState) : PbConversationReadState :=
  mkPbConversationReadState (cs_dest s) (inbox_kind (cs_kind s)) (cs_last_read_message_id s)
    (cs_max_message_id s) (cs_unread s) (cs_version s) (cs_exists s).

(** The name and picture of a conversation. *)
Definition title_of (by_account : gmap string UserProfile) (by_group : gmap string (string * string))
  (row : InboxEntry) : string * string :=
  match ie_kind row with
  | User => match by_account !! ie_dest row with
            | Some p => (display_name p, pf_avatar p)
            | None => (ie_dest row, ""%string)
            end
  | Group => match by_group !! ie_dest row with
             | Some (name, avatar) => (name, avatar)
             | None => (ie_dest row, ""%string)
             end
  end.

Definition inbox_item (by_account : gmap string UserProfile) (by_group : gmap string (string * string))
  (row : InboxEntry) : PbInboxItem :=
  let '(title, avatar) := title_of by_account by_group row in
  mkPbInboxItem (ie_dest row) (inbox_kind (ie_kind row)) title avatar (ie_last_body row) (ie_last_sender row)
    (ie_last_message_id row) (ie_last_send_time row) (ie_unread row) (Some (state_to_proto (read_state row))).

Definition history_to_proto (r : HistoryEntry) : PbHistoryItem :=
  mkPbHistoryItem (he_message_id r) (he_msg_type r) (he_body r) (he_extra r) (he_sender r)
    (he_send_time r) (he_direction r).

Definition is_kind (k : MessageKind) (row : InboxEntry) : bool := bool_decide (ie_kind row = k).

(** The keys of a states request, or nothing when one of them is not valid. *)
Fixpoint state_keys (conversations : list PbConversationStateKey) : option (list ConversationStateKey) :=
  match conversations with
  | [] => Some []
  | key :: conversations =>
    match parse_kind (pb_conversation_state_key_kind key) with
    | None => None
    | Some kind =>
      if str_is_empty (pb_conversation_state_key_dest key) then None
      else option_map (cons (mkConversationStateKey (pb_conversation_state_key_dest key) kind))
             (state_keys conversations)
    end
  end.

Section handlers.
Context `{Prost}.

Definition do_inbox_list (ctx : Context) : Answer :=
  let limit := match read_body (request ctx) with Ok r => inbox_req_limit r | Err _ => 0 end in
  found ← call (EInbox (own_app ctx) (own_account ctx) limit);
  match found with
  | Err _ => then_ok (resp_with_error ctx SystemException)
  | Ok rows =>
    let user_dests := ie_dest <$> List.filter (is_kind User) rows in
    profiles ← match user_dests with
      | [] => Ret []
      | _ => r ← call (EProfiles (own_app ctx) user_dests); Ret (match r with Ok v => v | Err _ => [] end)
      end;
    let by_account := foldl (fun m p => <[pf_account p := p]> m) ∅ profiles in
    let group_dests := ie_dest <$> List.filter (is_kind Group) rows in
    details ← match group_dests with
      | [] => Ret []
      | _ => r ← call (EGroupSummaries (own_app ctx) group_dests); Ret (match r with Ok v => v | Err _ => [] end)
      end;
    let by_group := foldl (fun m g => <[gs_id g := (gs_name g, gs_avatar g)]> m) ∅ details in
    then_ok (resp ctx Success (Some (mkInboxResp (inbox_item by_account by_group <$> rows))))
  end.

Definition do_history (ctx : Context) : Answer :=
  if str_is_empty (h_dest (header ctx)) then then_ok (resp_bytes ctx NoDestination [])
  else match read_body (request ctx) with
  | Err _ => then_ok (resp_with_error ctx InvalidPacketBody)
  | Ok req =>
    match parse_kind (history_req_kind req) with
    | None => then_ok (resp_bytes ctx InvalidPacketBody [])
    | Some kind =>
      r ← call (EHistory (own_app ctx) (own_account ctx) (h_dest (header ctx)) kind
                  (history_req_before_id req) (history_req_limit req));
      match r with
      | Ok rows => then_ok (resp ctx Success (Some (mkHistoryResp (List.map history_to_proto rows))))
      | Err _ => then_ok (resp_with_error ctx SystemException)
      end
    end
  end.

Definition do_inbox_read (ctx : Context) : Answer :=
  if str_is_empty (h_dest (header ctx)) then then_ok (resp_bytes ctx NoDestination [])
  else match read_body (request ctx) with
  | Err _ => then_ok (resp_with_error ctx InvalidPacketBody)
  | Ok req =>
    match parse_kind (conversation_read_req_kind req) with
    | None => then_ok (resp_bytes ctx InvalidPacketBody [])
    | Some kind =>
      let dest := h_dest (header ctx) in
      let reader := own_account ctx in
      r ← call (EMarkRead (own_app ctx) reader dest kind (conversation_read_req_message_id req));
      match r with
      | Ok state =>
        let proto := state_to_proto state in
        let* _ := resp ctx Success (Some proto) in
        _ ← (if bool_decide (kind = User) && (0 <? cs_last_read_message_id state)
             then notify_account ctx dest CMD_RECEIPT_READ
                    (mkReadReceiptPush reader dest INBOX_KIND_USER (cs_last_read_message_id state))
             else Ret tt);
        _ ← (if cs_exists state
             then notify_account ctx reader CMD_INBOX_READ_SYNC (mkConversationReadSyncPush reader (Some proto))
             else Ret tt);
        Ret (Ok tt)
      | Err _ => then_ok (resp_with_error ctx SystemException)
      end
    end
  end.

Definition do_inbox_states (ctx : Context) : Answer :=
  match read_body (request ctx) with
  | Err _ => then_ok (resp_with_error ctx InvalidPacketBody)
  | Ok req =>
    if 100 <? len (conversation_states_req_conversations req) then then_ok (resp_bytes ctx InvalidPacketBody [])
    else match state_keys (conversation_states_req_conversations req) with
    | None => then_ok (resp_bytes ctx InvalidPacketBody [])
    | Some keys =>
      r ← call (EStates (own_app ctx) (own_account ctx) keys);
      match r with
      | Ok states => then_ok (resp ctx Success (Some (mkConversationStatesResp (List.map state_to_proto states))))
      | Err _ => then_ok (resp_with_error ctx SystemException)
      end
    end
  end.
End handlers.
