(* ===== verification/BotCmds.v ===== *)
(** The bot, typing and room commands and the agent spec commands: bot.rs, typing.rs,
    room.rs and the handlers of agent_spec.rs in services/chat/src. *)

From S2P Require Import Prelude Prog Wire Pkt Msgs Location SessionStore Store Filter Social Groups Users.
From S2P Require Import Interest AgentStore Effects Router Talk Offline PeopleCmds.
Open Scope Z_scope.
Open Scope kim_scope.

(** ** bot.rs *)

Definition to_pb_config (c : BotConfig) : PbBotConfig :=
  mkPbBotConfig (bc_model c) (bc_thinking_effort c) (bc_context_tokens c) (bc_visibility c).

Definition store_status (err : StoreError) : Status :=
  match err with
  | Invalid _ => InvalidPacketBody
  | StoreNotFound => UserNotFound
  | Http status _ =>
    if status =? 400 then InvalidPacketBody
    else if status =? 403 then NotBotOwner
    else if status =? 404 then UserNotFound else SystemException
  | _ => SystemException
  end.

Definition user_status (err : UserError) : Status :=
  match err with
  | UserMissing => UserNotFound
  | InvalidProfile | Limit => InvalidPacketBody
  | NotOwner => NotBotOwner
  | UserConflict => InvalidPacketBody
  | UserBackend _ => SystemException
  end.

Section handlers.
Context `{Prost}.

Definition lookup_bot (app account : string) : Proc (result UserPresence Status) :=
  found ← call (ELookup app account);
  Ret (match found with
       | Ok (Some p) => if up_exists p && (up_kind p =? PROFILE_KIND_BOT) then Ok p else Err UserNotFound
       | Ok None => Err UserNotFound
       | Err _ => Err SystemException
       end).

(** The bot [dest] when it is the sender's own, or the refusal. *)
Definition with_own_bot (ctx : Context) (dest : string) (f : Answer) : Answer :=
  found ← lookup_bot (own_app ctx) dest;
  match found with
  | Err status => then_ok (resp_bytes ctx status [])
  | Ok presence =>
    if negb (bool_decide (up_owner_account presence = own_account ctx)) then then_ok (resp_bytes ctx NotBotOwner [])
    else f
  end.

Definition answer_bot (ctx : Context) (r : result BotRecord UserError) : Answer :=
  match r with
  | Ok record =>
    then_ok (resp ctx Success
      (Some (mkBotCreateResp (Some (to_pb (br_profile record))) (Some (to_pb_config (br_config record))))))
  | Err err => then_ok (resp_with_error ctx (user_status err))
  end.

Definition do_bot_create (ctx : Context) : Answer :=
  match read_body (request ctx) with
  | Err _ => then_ok (resp_with_error ctx InvalidPacketBody)
  | Ok req =>
    if negb (valid_client_profile_id (bot_create_req_client_profile_id req))
    then then_ok (resp_bytes ctx InvalidPacketBody [])
    else
      r ← call (ECreateBot (own_app ctx)
        (mkCreateBot (own_account ctx) (bot_create_req_client_profile_id req) (bot_create_req_nickname req)
           (bot_create_req_avatar req) (bot_create_req_bio req) (bot_create_req_model req)
           (bot_create_req_thinking_effort req) (bot_create_req_context_tokens req)
           (bot_create_req_visibility req)));
      answer_bot ctx r
  end.

Definition do_bot_delete (ctx : Context) : Answer :=
  let dest := h_dest (header ctx) in
  if str_is_empty dest then then_ok (resp_with_error ctx NoDestination)
  else with_own_bot ctx dest (
    let owner := own_account ctx in
    let app := own_app ctx in
    r ← call (EDeleteBot app owner dest);
    match r with
    | Ok _ =>
      purged ← call (EPurge app owner dest);
      match purged with
      | Err err => then_ok (resp_with_error ctx (store_status err))
      | Ok _ => then_ok (resp_bytes ctx Success [])
      end
    | Err err => then_ok (resp_with_error ctx (user_status err))
    end).

Definition do_bot_update (ctx : Context) : Answer :=
  let dest := h_dest (header ctx) in
  if str_is_empty dest then then_ok (resp_with_error ctx NoDestination)
  else with_own_bot ctx dest (
    match read_body (request ctx) with
    | Err _ => then_ok (resp_with_error ctx InvalidPacketBody)
    | Ok req =>
      r ← call (EUpdateBot (own_app ctx) (own_account ctx) dest
        (mkBotPatch (bot_update_req_nickname req) (bot_update_req_avatar req) (bot_update_req_bio req)
           (bot_update_req_model req) (bot_update_req_thinking_effort req) (bot_update_req_context_tokens req)
           (bot_update_req_visibility req)));
      answer_bot ctx r
    end).

Definition do_bot_reply (filter : ContentFilter) (metrics : bool) (ctx : Context) : Answer :=
  let dest := h_dest (header ctx) in
  if str_is_empty dest then then_ok (resp_with_error ctx NoDestination)
  else match read_body (request ctx) with
  | Err _ => then_ok (resp_with_error ctx InvalidPacketBody)
  | Ok req =>
    if bot_reply_req_in_reply_to req <=? 0 then then_ok (resp_bytes ctx InvalidPacketBody [])
    else match bot_reply_req_message req with
    | None => then_ok (resp_bytes ctx InvalidPacketBody [])
    | Some message =>
      match check filter message with
      | Err status => then_ok (resp_with_error ctx status)
      | Ok _ =>
        with_own_bot ctx dest (
          let owner := own_account ctx in
          online_targets ← fallback_targets [owner];
          send_time ← call ENow;
          r ← call (EInsertBotReply (own_app ctx) owner dest (bot_reply_req_in_reply_to req)
            (mkInsertMessage dest owner send_time (mr_type message) (mr_body message) (mr_extra message)
               (mr_client_id message) online_targets));
          match r with
          | Err err => then_ok (resp_with_error ctx (store_status err))
          | Ok inserted => then_ok (persist_then_push ctx inserted "bot" metrics CMD_CHAT_USER_TALK)
          end)
      end
    end
  end.

Definition pending_to_pb (i : BotPendingItem) : PbBotPendingItem :=
  mkPbBotPendingItem (bp_message_id i) (bp_body i) (bp_send_time i).

Definition do_bot_pending (ctx : Context) : Answer :=
  let dest := h_dest (header ctx) in
  if str_is_empty dest then then_ok (resp_with_error ctx NoDestination)
  else with_own_bot ctx dest (
    let limit := match read_body (request ctx) with Ok r => inbox_req_limit r | Err _ => 20 end in
    r ← call (EBotPending (own_app ctx) (own_account ctx) dest limit);
    match r with
    | Ok items => then_ok (resp ctx Success (Some (mkBotPendingResp (List.map pending_to_pb items))))
    | Err err => then_ok (resp_with_error ctx (store_status err))
    end).

(** ** typing.rs *)

Definition fanout_typing_to_account (ctx : Context) (account : string) (body : TypingPush) : Proc unit :=
  match AccountId_parse account with
  | Err _ => Ret tt
  | Ok account_id =>
    found ← call (EListLocations account_id);
    match found with
    | Ok (_ :: _ as locs) => _ ← dispatch_cmd ctx CMD_TYPING body locs; Ret tt
    | _ => Ret tt
    end
  end.

Definition do_bot_typing (ctx : Context) : Answer :=
  let bot := h_dest (header ctx) in
  if str_is_empty bot then then_ok (resp_with_error ctx NoDestination)
  else match read_body (request ctx) with
  | Err _ => then_ok (resp_with_error ctx InvalidPacketBody)
  | Ok req =>
    if negb (typing_req_kind req =? INBOX_KIND_USER) then then_ok (resp_bytes ctx InvalidPacketBody [])
    else with_own_bot ctx bot (
      let owner := own_account ctx in
      let* _ := resp_bytes ctx Success [] in
      _ ← fanout_typing_to_account ctx owner
            (mkTypingPush bot owner INBOX_KIND_USER (typing_req_active req) (typing_req_phase req));
      Ret (Ok tt))
  end.

(** The friend check shared by both arms of [do_typing] and by [do_room_enter]. *)
Definition with_friend (ctx : Context) (dest : string) (f : Answer) : Answer :=
  friend ← call (EIsFriend (own_app ctx) (own_account ctx) dest);
  match friend with
  | Ok true => f
  | Ok false => then_ok (resp_bytes ctx NotFriends [])
  | Err _ => then_ok (resp_with_error ctx SystemException)
  end.
Definition with_unblocked (ctx : Context) (dest : string) (f : Answer) : Answer :=
  blocked ← call (EBlockedEither (own_app ctx) (own_account ctx) dest);
  match blocked with
  | Ok true => then_ok (resp_bytes ctx Blocked [])
  | Ok false => f
  | Err _ => then_ok (resp_with_error ctx SystemException)
  end.

(** The fan-out of a typing notice to the peer's connections in the room. *)
Definition push_typing (ctx : Context) (dest : string) (body : TypingPush) : Answer :=
  seen ← call (EViewers (own_app ctx) (own_account ctx) INBOX_KIND_USER);
  match seen with
  | Err _ => Ret (Ok tt)
  | Ok viewers =>
    let peer_channels := vr_channel_id <$> List.filter (fun v => bool_decide (vr_account v = dest)) viewers in
    if bool_decide (peer_channels = []) then Ret (Ok tt)
    else match AccountId_parse dest with
    | Err _ => then_ok (resp_bytes ctx InvalidPacketBody [])
    | Ok dest_id =>
      found ← call (EListLocations dest_id);
      match found with
      | Err _ => Ret (Ok tt)
      | Ok locs =>
        match List.filter (fun l => bool_decide (channel_str (loc_channel_id l) ∈ peer_channels)) locs with
        | [] => Ret (Ok tt)
        | recvs => _ ← dispatch_cmd ctx CMD_TYPING body recvs; Ret (Ok tt)
        end
      end
    end
  end.

Definition do_typing (ctx : Context) : Answer :=
  match read_body (request ctx) with
  | Err _ => then_ok (resp_with_error ctx InvalidPacketBody)
  | Ok req =>
    let me := own_account ctx in
    let dest := str_trim (typing_req_dest req) in
    let kind := typing_req_kind req in
    if str_is_empty dest || bool_decide (dest = me) then then_ok (resp_bytes ctx InvalidPacketBody [])
    else if negb (kind =? INBOX_KIND_USER) then then_ok (resp_bytes ctx InvalidPacketBody [])
    else with_unblocked ctx dest (
      let body := mkTypingPush me dest kind (typing_req_active req) (typing_req_phase req) in
      found ← call (ELookup (own_app ctx) dest);
      let owned_bot := match found with
        | Ok (Some p) => up_exists p && (up_kind p =? PROFILE_KIND_BOT) && bool_decide (up_owner_account p = me)
        | _ => false
        end in
      if owned_bot : bool then
        with_friend ctx dest (
          let* _ := resp_bytes ctx Success [] in
          _ ← fanout_typing_to_account ctx me body;
          Ret (Ok tt))
      else
        with_friend ctx dest (
          let* _ := resp_bytes ctx Success [] in
          push_typing ctx dest body))
  end.

(** ** room.rs *)

Definition PRESENCE_OFFLINE : Z := 1.
Definition PRESENCE_ONLINE : Z := 2.
(** presence.rs *)
Definition snapshot_status (locs : list Location) : Z :=
  match locs with [] => PRESENCE_OFFLINE | _ => PRESENCE_ONLINE end.
Definition presence_of (account : string) (locs : list Location) : Presence :=
  mkPresence account (snapshot_status locs) 0.

Definition own_channel_id (ctx : Context) : string := s_channel_id (session ctx).

Definition do_room_enter (ctx : Context) : Answer :=
  match read_body (request ctx) with
  | Err _ => then_ok (resp_with_error ctx InvalidPacketBody)
  | Ok req =>
    let me := own_account ctx in
    let dest := str_trim (room_enter_req_dest req) in
    let kind := room_enter_req_kind req in
    if str_is_empty dest || bool_decide (dest = me) then then_ok (resp_bytes ctx InvalidPacketBody [])
    else if negb (kind =? INBOX_KIND_USER) then then_ok (resp_bytes ctx InvalidPacketBody [])
    else with_unblocked ctx dest (with_friend ctx dest (
      entered ← call (EEnter (own_app ctx) me (own_channel_id ctx) dest kind);
      match entered with
      | Err _ => then_ok (resp_with_error ctx SystemException)
      | Ok _ =>
        match AccountId_parse dest with
        | Err _ => then_ok (resp_bytes ctx InvalidPacketBody [])
        | Ok dest_id =>
          found ← call (EListLocations dest_id);
          let answer locs := then_ok (resp ctx Success (Some (mkRoomEnterResp [presence_of dest locs]))) in
          match found with
          | Ok locs => answer locs
          | Err NotFound => answer []
          | Err _ => then_ok (resp_with_error ctx SystemException)
          end
        end
      end))
  end.

Definition do_room_leave (ctx : Context) : Answer :=
  match read_body (request ctx) with
  | Err _ => then_ok (resp_with_error ctx InvalidPacketBody)
  | Ok req =>
    let dest := str_trim (room_leave_req_dest req) in
    if str_is_empty dest then then_ok (resp_bytes ctx InvalidPacketBody [])
    else
      r ← call (ELeave (own_app ctx) (own_account ctx) (own_channel_id ctx) dest (room_leave_req_kind req));
      match r with
      | Err _ => then_ok (resp_with_error ctx SystemException)
      | Ok _ => then_ok (resp_bytes ctx Success [])
      end
  end.
End handlers.

Definition record_to_pb (r : AgentSpecRecord) : PbAgentSpecRecord :=
  mkPbAgentSpecRecord (ar_profile_id r) (ar_nickname r) (ar_server_account r) (ar_spec r)
    (ar_key_ciphertext r) (ar_updated_at r) (ar_deleted_at r).
Definition record_from_pb (r : PbAgentSpecRecord) : AgentSpecRecord :=
  mkAgentSpecRecord (pb_agent_spec_record_profile_id r) (pb_agent_spec_record_nickname r)
    (pb_agent_spec_record_server_account r) (pb_agent_spec_record_spec r)
    (pb_agent_spec_record_key_ciphertext r) (pb_agent_spec_record_updated_at r)
    (pb_agent_spec_record_deleted_at r).
Definition account_to_pb (a : AgentProviderAccount) : PbAgentProviderAccount :=
  mkPbAgentProviderAccount (ap_id a) (ap_vendor_id a) (ap_base_url a) (ap_key_ref a)
    (ap_display_name a) (ap_models a) (ap_updated_at a) (ap_deleted_at a).
Definition account_from_pb (a : PbAgentProviderAccount) : AgentProviderAccount :=
  mkAgentProviderAccount (pb_agent_provider_account_id a) (pb_agent_provider_account_vendor_id a)
    (pb_agent_provider_account_base_url a) (pb_agent_provider_account_key_ref a)
    (pb_agent_provider_account_display_name a) (pb_agent_provider_account_models a)
    (pb_agent_provider_account_updated_at a) (pb_agent_provider_account_deleted_at a).

Definition spec_status_of (err : AgentSpecError) : Status :=
  match err with SpecInvalid => InvalidPacketBody | SpecNotOwner => NotBotOwner | SpecBackend _ => SystemException end.

Definition owner_or_deny (ctx : Context) : result string Status :=
  let dest := h_dest (header ctx) in
  if negb (str_is_empty dest) && negb (bool_decide (dest = own_account ctx)) then Err NotBotOwner
  else Ok (own_account ctx).

Section handlers.
Context `{Prost}.

Definition do_agent_spec_sync (ctx : Context) : Answer :=
  match owner_or_deny ctx with
  | Err status => then_ok (resp_bytes ctx status [])
  | Ok owner =>
    listed ← call (ESpecs (own_app ctx) owner);
    match listed with
    | Err err => then_ok (resp_with_error ctx (spec_status_of err))
    | Ok records =>
      listed ← call (ESpecAccounts (own_app ctx) owner);
      match listed with
      | Err err => then_ok (resp_with_error ctx (spec_status_of err))
      | Ok accounts =>
        then_ok (resp ctx Success
          (Some (mkAgentSpecSyncResp (List.map record_to_pb records) (List.map account_to_pb accounts))))
      end
    end
  end.

(** What follows the account of a request, when it has one. *)
Definition upsert_record (ctx : Context) (owner : string) (record : option PbAgentSpecRecord) : Answer :=
  match record with
  | None => then_ok (resp ctx Success (Some (mkAgentSpecUpsertResp None)))
  | Some pb =>
    let rec := record_from_pb pb in
    if str_is_empty (ar_profile_id rec) || bool_decide (ar_spec rec = [])
    then then_ok (resp_bytes ctx InvalidPacketBody [])
    else
      r ← call (ESpecUpsert (own_app ctx) owner rec);
      match r with
      | Ok stored => then_ok (resp ctx Success (Some (mkAgentSpecUpsertResp (Some (record_to_pb stored)))))
      | Err err => then_ok (resp_with_error ctx (spec_status_of err))
      end
  end.

Definition do_agent_spec_upsert (ctx : Context) : Answer :=
  match owner_or_deny ctx with
  | Err status => then_ok (resp_bytes ctx status [])
  | Ok owner =>
    match read_body (request ctx) with
    | Err _ => then_ok (resp_with_error ctx InvalidPacketBody)
    | Ok req =>
      match agent_spec_upsert_req_account req, agent_spec_upsert_req_record req with
      | None, None => then_ok (resp_bytes ctx InvalidPacketBody [])
      | None, record => upsert_record ctx owner record
      | Some acc, record =>
        let rec := account_from_pb acc in
        if str_is_empty (ap_id rec) then then_ok (resp_bytes ctx InvalidPacketBody [])
        else
          r ← call (ESpecUpsertAccount (own_app ctx) owner rec);
          match r with
          | Err err => then_ok (resp_with_error ctx (spec_status_of err))
          | Ok _ => upsert_record ctx owner record
          end
      end
    end
  end.
End handlers.
