(* ===== verification/Service.v ===== *)
(** The chat service as a whole: the routing table and [ChatHandler::receive] of
    services/chat/src/lib.rs.  Every packet a gateway forwards comes through
    [receive]. *)

From S2P Require Import Prelude Prog Wire Pkt Msgs Location SessionStore Store Social Groups Users Interest.
From S2P Require Import AgentStore Effects Router Filter Talk Offline Login GroupCmds PeopleCmds InboxCmds BotCmds.
Open Scope Z_scope.
Open Scope kim_scope.

(** What the service is built with: its zone, whether delivery receipts are on, the
    content filter, and whether metrics are installed. *)
Record ChatSvc := mkChatSvc {
  svc_zone : string;
  svc_pending_receipt : bool;
  svc_filter : ContentFilter;
  svc_metrics : bool
}.

Section service.
Context `{Prost} (svc : ChatSvc).

(** The handlers in the order [with_agent_specs] registers them. *)
Definition chat_handlers : list (Command * HandlerFn) :=
  [(LoginSignIn, do_sys_login_with_zone (svc_zone svc) true (svc_pending_receipt svc) true);
   (LoginSignOut, do_sys_logout true);
   (DemoEcho, do_echo);
   (UserTalk, do_user_talk (svc_filter svc) (svc_metrics svc));
   (GroupTalk, do_group_talk (svc_filter svc) (svc_metrics svc));
   (Wire.GroupCreate, do_group_create);
   (Wire.GroupJoin, do_group_join);
   (Wire.GroupInvite, do_group_invite);
   (Wire.GroupQuit, do_group_quit);
   (Wire.GroupDetail, do_group_detail);
   (Wire.GroupMembers, do_group_members);
   (TalkAck, do_talk_ack (svc_pending_receipt svc));
   (OfflineIndex, do_offline_index (svc_pending_receipt svc));
   (OfflineContent, do_offline_content);
   (Wire.UserProfile, do_user_profile);
   (UserUpdate, do_user_update);
   (UserSearch, do_user_search);
   (RoomEnter, do_room_enter);
   (RoomLeave, do_room_leave);
   (Typing, do_typing);
   (Wire.FriendRequest, do_friend_request);
   (Wire.FriendAccept, do_friend_accept);
   (Wire.FriendReject, do_friend_reject);
   (Wire.FriendRemove, do_friend_remove);
   (FriendList, do_friend_list);
   (FriendIncoming, do_friend_incoming);
   (BlockAdd, do_block_add);
   (BlockRemove, do_block_remove);
   (BlockList, do_block_list);
   (InboxList, do_inbox_list);
   (InboxRead, do_inbox_read);
   (InboxStates, do_inbox_states);
   (Wire.History, do_history);
   (BotCreate, do_bot_create);
   (BotDelete, do_bot_delete);
   (BotUpdate, do_bot_update);
   (BotReply, do_bot_reply (svc_filter svc) (svc_metrics svc));
   (BotPending, do_bot_pending);
   (BotTyping, do_bot_typing);
   (AgentSpecSync, do_agent_spec_sync);
   (AgentSpecUpsert, do_agent_spec_upsert)].

Definition chat_router : Router :=
  foldl (fun r (h : Command * HandlerFn) => handle h.1 h.2 r) Router_new chat_handlers.

(** The packet refused before routing, sent back to where it came from. *)
Definition error_packet (status : Status) (pkt : LogicPkt) : LogicPkt :=
  mkLogicPkt (h_with_flag Response (h_with_status status (l_header pkt))) (l_body pkt).
Definition resp_err (status : Status) (pkt : LogicPkt) : Proc unit :=
  let gw := default ""%string (get_meta META_DEST_SERVER pkt) in
  _ ← call (EPush (mkGatewayId gw) [mkChannelId (h_channel_id (l_header pkt))] (error_packet status pkt));
  Ret tt.

(** The session a sign-in starts from. *)
Definition auto_session (pkt : LogicPkt) : Session :=
  mkSession (h_channel_id (l_header pkt)) (default ""%string (get_meta META_DEST_SERVER pkt))
    "" "" "" "" "" "" ["AutoGenerated"%string] "" "".

Definition receive (payload : bytes) : Proc unit :=
  match read_logic payload with
  | Err _ => Ret tt
  | Ok pkt =>
    let command := parse (h_command (l_header pkt)) in
    let serve_as session := _ ← serve chat_router pkt session; Ret tt in
    if bool_decide (command = Some LoginSignIn) then serve_as (auto_session pkt)
    else
      found ← call (ESessionGet (mkChannelId (h_channel_id (l_header pkt))));
      match found with
      | Err NotFound => resp_err SessionNotFound pkt
      | Err _ => resp_err SystemException pkt
      | Ok session =>
        if negb (bool_decide (s_app session = ALLOWED_APP)) then resp_err Unauthorized pkt
        else serve_as session
      end
  end.
End service.
