(* ===== verification/HandlerLogic.v ===== *)
(** Reasoning about what the handlers of services/chat call, whatever answers them.

    [always P p] says that every call of the program [p] is in [P]; [replies p Q n]
    that [p], started when [n] answers were sent, ends with a number of answers and a
    result in [Q].  The lemmas follow the combinators the handlers are written with,
    so that the tactics [walk] and [count] verify a handler by going along its text. *)

From S2P Require Import Prelude Prog Wire Pkt Location SessionStore Store Social Groups Users Interest AgentStore.
From S2P Require Import Effects Router Filter Talk.
Open Scope Z_scope.
Open Scope kim_scope.

(** ** Every call *)

Abbreviation CallPred := (forall X, Eff X -> Prop).

Fixpoint always {A} (P : CallPred) (p : Proc A) : Prop :=
  match p with
  | Ret _ => True
  | Vis e k => P _ e /\ forall x, always P (k x)
  end.

Lemma always_exec {A} (P : CallPred) (p : Proc A) tr a :
  always P p -> exec p tr a -> forall X (e : Eff X) x, Ev e x ∈ tr -> P X e.
Proof.
  intros Ha He. induction He as [a|Y e k y tr a He IH]; intros X e' x Hin.
  - by apply not_elem_of_nil in Hin.
  - destruct Ha as [H0 Hk]. apply elem_of_cons in Hin as [E|Hin]; [|by eapply IH].
    change ((fun ev : Event => match ev with Ev e' _ => P _ e' end) (Ev e' x)). by rewrite E.
Qed.

Lemma always_mono {A} (P Q : CallPred) (p : Proc A) :
  (forall X e, P X e -> Q X e) -> always P p -> always Q p.
Proof. intros HPQ. induction p as [a|X e k IH]; [done|]. intros [H0 Hk]. split; auto. Qed.

(** The calls no handler needs a right for: time, limits, the registry of locations. *)
Definition plumbing {X} (e : Eff X) : bool :=
  match e with
  | EGetLocations _ | EListLocations _ | EDispatchFail _ | ENow | ECut _ => true
  | _ => false
  end.

(** The header of an answer is that of its request but for flag, status, length. *)
Definition answers_to (request reply : LogicPkt) : Prop :=
  let h := l_header request in let h' := l_header reply in
  h_flag h' = Flag_as_i32 Response /\ h_command h' = h_command h /\ h_sequence h' = h_sequence h /\
  h_channel_id h' = h_channel_id h /\ h_dest h' = h_dest h /\ h_meta h' = h_meta h.

(** What the plumbing of the handlers calls is allowed. *)
Class Plain (P : CallPred) : Prop := {
  plain_push : forall gateway channels pkt,
    h_flag (l_header pkt) = Flag_as_i32 PushFlag -> P _ (EPush gateway channels pkt);
  plain_plumbing : forall X (e : Eff X), plumbing e = true -> P X e
}.
(** The session may also be answered. *)
Class Polite (ctx : Context) (P : CallPred) : Prop := {
  polite_plain :: Plain P;
  polite_reply : forall pkt, answers_to (request ctx) pkt -> P _ (EPush (own_gate ctx) [own_channel ctx] pkt)
}.

Section always.
Context (P : CallPred).

Lemma always_ret {A} (a : A) : always P (Ret a).
Proof. done. Qed.

Lemma always_call {X} (e : Eff X) : P X e -> always P (call e).
Proof. by split. Qed.

Lemma always_bind {A B} (p : Proc A) (f : A -> Proc B) :
  always P p -> (forall a, always P (f a)) -> always P (p ≫= f).
Proof. intros Hp Hf. induction p as [a|X e k IH]; [by apply Hf|]. destruct Hp. split; [done|]. intros x. by apply IH. Qed.

Lemma always_bind_ok {A B E} (p : Proc (result A E)) (f : A -> Proc (result B E)) :
  always P p -> (forall a, always P (f a)) -> always P (bind_ok p f).
Proof. intros Hp Hf. apply always_bind; [done|]. by intros [a|e]. Qed.

Lemma always_then_ok (p : Answer) : always P p -> always P (then_ok p).
Proof. intros Hp. by apply always_bind_ok. Qed.

Context `{!Plain P}.

Lemma always_timeout {A} d (p : Proc A) : always P p -> always P (timeout d p).
Proof.
  induction p as [a|X e k IH]; [done|]. intros [H0 Hk]. cbn. destruct (awaited e); [|split; auto].
  split; [by apply plain_plumbing|]. intros []; cbn; auto. split; [done|]. intros x. destruct (settles e); [auto|done].
Qed.

Lemma always_push_all group packet order first :
  h_flag (l_header packet) = Flag_as_i32 PushFlag -> always P (push_all group packet order first).
Proof.
  intros Hf. revert first; induction order as [|g order IH]; intros first; [done|]. cbn [push_all].
  destruct (group !! g); [|apply IH]. split; [by apply plain_push|]. intros r. apply IH.
Qed.

Lemma always_push_groups skip packet recvs :
  h_flag (l_header packet) = Flag_as_i32 PushFlag -> always P (push_groups skip packet recvs).
Proof.
  intros Hf. unfold push_groups. destruct (group_by_gateway skip recvs).
  apply always_bind; [by apply always_push_all|]. by intros [].
Qed.

Lemma always_dispatch_cmd {B} `{Message B} ctx command (body : B) recvs :
  always P (dispatch_cmd ctx command body recvs).
Proof. destruct recvs; [done|]. by apply always_push_groups. Qed.

Lemma always_notify_account {B} `{Message B} ctx account command (body : B) :
  always P (notify_account ctx account command body).
Proof.
  apply always_bind; [by apply always_call, plain_plumbing|]. intros [[|loc locs]|]; [done| |done].
  apply always_bind; [apply always_dispatch_cmd|done].
Qed.

Lemma always_collect_targets accounts out : always P (collect_targets accounts out).
Proof.
  revert out; induction accounts as [|a accounts IH]; intros out; [done|].
  apply always_bind; [by apply always_call, plain_plumbing|]. intros r. apply IH.
Qed.

Lemma always_fallback_targets accounts : always P (fallback_targets accounts).
Proof. apply always_bind; [|done]. apply always_timeout, always_collect_targets. Qed.

Lemma always_on_dispatch_fail metrics label : always P (on_dispatch_fail metrics label).
Proof. destruct metrics; [|done]. by apply always_call, plain_plumbing. Qed.

Context `{Message MessageReq, Message MessageResp, Message MessagePush}.

Lemma always_push_recipients ctx inserted label metrics command :
  always P (push_recipients ctx inserted label metrics command).
Proof.
  unfold push_recipients. destruct (unique_accounts _) as [|a l]; [apply always_on_dispatch_fail|].
  apply always_bind; [by apply always_call, plain_plumbing|]. intros r. apply always_bind.
  - destruct r as [v|[]]; try done; (apply always_bind; [apply always_on_dispatch_fail|done]).
  - intros [|loc locs]; [done|]. apply always_bind; [apply always_dispatch_cmd|].
    intros []; [done|]. apply always_on_dispatch_fail.
Qed.
End always.

Section replies_of_context.
Context (ctx : Context) (P : CallPred) `{!Polite ctx P}.


Lemma always_resp {B} `{Message B} status (body : option B) : always P (resp ctx status body).
Proof. apply always_call, polite_reply. by destruct body. Qed.
Lemma always_resp_bytes status body : always P (resp_bytes ctx status body).
Proof. by apply always_call, polite_reply. Qed.
Lemma always_resp_with_error status : always P (resp_with_error ctx status).
Proof. apply always_resp_bytes. Qed.

Context `{Message MessageReq, Message MessageResp, Message MessagePush}.

Lemma always_persist_then_push inserted label metrics command :
  always P (persist_then_push ctx inserted label metrics command).
Proof.
  apply always_bind_ok; [apply always_resp|]. intros []. apply always_bind.
  { apply always_timeout; [apply _|]. by apply always_push_recipients, _. }
  intros [[]|]; (apply always_bind; [|done]); [done|by apply always_on_dispatch_fail, _].
Qed.
End replies_of_context.

(** ** Counting the answers *)

Definition is_response {X} (e : Eff X) : bool :=
  match e with EPush _ _ pkt => h_flag (l_header pkt) =? Flag_as_i32 Response | _ => false end.

Fixpoint replies {A} (p : Proc A) (Q : nat -> A -> Prop) (n : nat) : Prop :=
  match p with
  | Ret a => Q n a
  | Vis e k => forall x, replies (k x) Q (if is_response e then S n else n)
  end.

(** Programs that end with the first answer they give. *)
Fixpoint answers_last {A} (p : Proc A) : Prop :=
  match p with
  | Ret _ => True
  | Vis e k => forall x, if is_response e then match k x with Ret _ => True | Vis _ _ => False end else answers_last (k x)
  end.

Lemma responses_cons {X} (e : Eff X) x tr :
  length (responses (Ev e x :: tr)) = ((if is_response e then 1 else 0) + length (responses tr))%nat.
Proof. rewrite sent_cons. destruct e; try done. cbn. by destruct (_ =? _). Qed.

Lemma replies_exec {A} (p : Proc A) Q n tr a :
  replies p Q n -> exec p tr a -> Q (n + length (responses tr))%nat a.
Proof.
  intros Hp He. revert n Hp. induction He as [a|X e k x tr a He IH]; intros n Hp.
  - by rewrite Nat.add_0_r.
  - rewrite responses_cons. replace (n + _)%nat with
      ((if is_response e then S n else n) + length (responses tr))%nat by (destruct (is_response e); lia).
    apply IH, Hp.
Qed.

(** Calls that are no answer. *)
Definition Silent : CallPred := fun X e => is_response e = false.
#[export] Instance Silent_plain : Plain Silent.
Proof. split; [intros g chs pkt Hf; unfold Silent; cbn; by rewrite Hf|by intros X []]. Qed.

Section replies.

Lemma replies_mono {A} (p : Proc A) (Q R : nat -> A -> Prop) n :
  (forall n a, Q n a -> R n a) -> replies p Q n -> replies p R n.
Proof. intros HQ. revert n; induction p as [a|X e k IH]; intros n; [apply HQ|]. intros Hp x. by apply IH, Hp. Qed.

Lemma replies_ret {A} (a : A) (Q : nat -> A -> Prop) n : Q n a -> replies (Ret a) Q n.
Proof. done. Qed.

Lemma replies_bind {A B} (p : Proc A) (f : A -> Proc B) Q n :
  replies p (fun n a => replies (f a) Q n) n -> replies (p ≫= f) Q n.
Proof. revert n; induction p as [a|X e k IH]; intros n; [done|]. intros Hp x. by apply IH, Hp. Qed.

Lemma replies_silent {A} (p : Proc A) (Q : nat -> A -> Prop) n : always Silent p -> (forall a, Q n a) -> replies p Q n.
Proof.
  intros Hp HQ. induction p as [a|X e k IH]; [apply HQ|]. destruct Hp as [H0 Hk]. intros x.
  rewrite (H0 : is_response e = false). by apply IH.
Qed.

Lemma replies_silent_bind {A B} (p : Proc A) (f : A -> Proc B) Q n :
  always Silent p -> (forall a, replies (f a) Q n) -> replies (p ≫= f) Q n.
Proof. intros Hp Hf. by apply replies_bind, replies_silent. Qed.

Lemma replies_bind_ok {A B E} (p : Proc (result A E)) (f : A -> Proc (result B E)) Q n :
  replies p (fun n r => match r with Ok a => replies (f a) Q n | Err e => Q n (Err e) end) n ->
  replies (bind_ok p f) Q n.
Proof. intros Hp. apply replies_bind. eapply replies_mono; [|exact Hp]. by intros ? [a|e]. Qed.

Lemma replies_then_ok (p : Answer) (Q : nat -> result unit RouterError -> Prop) n :
  replies p Q n -> replies (then_ok p) Q n.
Proof. intros Hp. apply replies_bind_ok. eapply replies_mono; [|exact Hp]. by intros ? [[]|e]. Qed.

(** A time limit cannot come between an answer and the end of its program: whenever
    it passes, nothing was answered yet. *)
Lemma replies_timeout {A} d (p : Proc A) (Q : nat -> option A -> Prop) n :
  answers_last p -> replies p (fun n a => Q n (Some a)) n -> Q n None -> replies (timeout d p) Q n.
Proof.
  intros Hl Hp H0. revert Hl Hp. induction p as [a|X e k IH]; intros Hl Hp; [exact Hp|]. cbn [timeout].
  assert (Hx : forall x, replies (timeout d (k x)) Q (if is_response e then S n else n)).
  { intros x. specialize (Hl x). specialize (Hp x). destruct (is_response e); [|by apply IH].
    by destruct (k x). }
  destruct (awaited e); [|exact Hx]. intros []; [exact Hx|exact H0|]. intros x. destruct (settles e) eqn:Es; [exact (Hx x)|].
  by destruct e.
Qed.

Lemma replies_resp {B} `{Message B} ctx status (body : option B) (Q : nat -> result unit RouterError -> Prop) n :
  (forall r, Q (S n) r) -> replies (resp ctx status body) Q n.
Proof. intros HQ r. destruct body; apply HQ. Qed.
Lemma replies_resp_bytes ctx status body (Q : nat -> result unit RouterError -> Prop) n :
  (forall r, Q (S n) r) -> replies (resp_bytes ctx status body) Q n.
Proof. intros HQ r. apply HQ. Qed.
Lemma replies_resp_with_error ctx status (Q : nat -> result unit RouterError -> Prop) n :
  (forall r, Q (S n) r) -> replies (resp_with_error ctx status) Q n.
Proof. apply replies_resp_bytes. Qed.

Context `{Message MessageReq, Message MessageResp, Message MessagePush}.

Lemma replies_persist_then_push ctx inserted label metrics command (Q : nat -> result unit RouterError -> Prop) n :
  (forall r, Q (S n) r) -> replies (persist_then_push ctx inserted label metrics command) Q n.
Proof.
  intros HQ. apply replies_bind_ok, replies_resp. intros [[]|e]; [|apply HQ]. apply replies_silent_bind.
  { apply always_timeout; [apply _|]. by apply always_push_recipients, _. }
  intros r. apply replies_silent_bind; [|intros; apply HQ]. destruct r; [done|]. by apply always_on_dispatch_fail, _.
Qed.
End replies.

(** ** Going along a handler *)

Create HintDb handlers discriminated.

(** The next call is allowed: the goal is about the call itself. *)
Ltac call_ok := first [reflexivity | solve [apply plain_plumbing; reflexivity] | solve [auto 2 with nocore] | solve [repeat split; assumption]].

Ltac walk_step :=
  lazymatch goal with
  | |- forall _, _ => intros ?
  | |- always _ (Ret _) => exact I
  | |- always _ (then_ok _) => apply always_then_ok
  | |- always _ (resp_bytes _ _ _) => apply always_resp_bytes; apply _
  | |- always _ (resp_with_error _ _) => apply always_resp_with_error; apply _
  | |- always _ (resp _ _ _) => apply always_resp; apply _
  | |- always _ (persist_then_push _ _ _ _ _) => apply always_persist_then_push; apply _
  | |- always _ (notify_account _ _ _ _) => apply always_notify_account; apply _
  | |- always _ (dispatch_cmd _ _ _ _) => apply always_dispatch_cmd; apply _
  | |- always _ (dispatch _ _ _) => apply always_dispatch_cmd; apply _
  | |- always _ (fallback_targets _) => apply always_fallback_targets; apply _
  | |- always _ (timeout _ _) => apply always_timeout; [apply _|]
  | |- always _ (bind_ok _ _) => apply always_bind_ok
  | |- always _ (mbind _ _) => apply always_bind
  | |- always _ (call _) => apply always_call; call_ok
  | |- always _ (match ?x with _ => _ end) => destruct x
  | |- _ => solve [auto 2 with handlers nocore]
  end.
Ltac walk := autounfold with handlers; cbv beta zeta; repeat walk_step.

(** The part of the program up to the next answer sends none. *)
Ltac silent := solve [walk].

Ltac count_step :=
  lazymatch goal with
  | |- forall _, _ => intros ?
  | |- replies (Ret _) _ _ => apply replies_ret
  | |- replies (then_ok _) _ _ => apply replies_then_ok
  | |- replies (resp_bytes _ _ _) _ _ => apply replies_resp_bytes
  | |- replies (resp_with_error _ _) _ _ => apply replies_resp_with_error
  | |- replies (resp _ _ _) _ _ => apply replies_resp
  | |- replies (persist_then_push _ _ _ _ _) _ _ => apply replies_persist_then_push
  | |- replies (bind_ok _ _) _ _ => apply replies_bind_ok
  | |- replies (mbind _ _) _ _ => first [apply replies_silent_bind; [silent|] | apply replies_bind]
  | |- replies (match ?x with _ => _ end) _ _ => destruct x eqn:?
  | |- replies _ _ _ => first [apply replies_silent; [silent|] | solve [auto 2 with handlers nocore]]
  | |- match ?x with _ => _ end => destruct x eqn:?
  | |- _ => first [done | solve [auto 2]]
  end.
Ltac count := autounfold with handlers; cbv beta zeta; repeat count_step.

Ltac head_of t := lazymatch t with ?f _ => head_of f | _ => t end.
