(* ===== verification/ServiceSpec.v ===== *)
(** What the chat service guarantees of every command: it acts for the session of
    the packet's channel only, and answers each packet once. *)

From S2P Require Import Prelude Prog Wire Pkt Msgs Location SessionStore Store Social Groups Users Interest.
From S2P Require Import AgentStore Effects Router Filter Talk Offline Login GroupCmds PeopleCmds InboxCmds BotCmds Service.
From S2P Require Import HandlerLogic.
Open Scope Z_scope.
Open Scope kim_scope.

(** ** Acting for a session *)

(** The call is made in the session's app and, where it changes or reads what
    belongs to an account or a connection, for the session's own.  Exceptions: a join
    of a group is only tied to the app (a member may invite others, see
    [GroupSpec.group_members_checked]), and pushes are the subject of [echoes] and of
    the theorems about the handlers. *)
Definition acts_as (s : Session) X (e : Eff X) : Prop :=
  let app := s_app s in
  let me := s_account s in
  match e with
  | EPush _ _ _ | EGetLocations _ | EListLocations _ | EDispatchFail _ | ENow | ECut _ => True
  | ESessionAdd _ | ESessionGet _ | EUpsert _ _ | EBackfill _ _ _ | EHubAdded _ _ => False
  | ESessionDelete account channel => account = mkAccountId me /\ channel = mkChannelId (s_channel_id s)
  | EHubRemoved a account channel => a = app /\ account = me /\ channel = s_channel_id s
  | ELookup a _ | EUserExists a _ | EProfile a _ | EProfiles a _ | EMembers a _ | EGroupDetail a _
  | EGroupSummaries a _ | EGroupJoin a _ _ => a = app
  | EBlockedEither a x _ | EIsFriend a x _ => a = app /\ x = me
  | EInsertUser a req | EInsertGroup a req _ => a = app /\ im_sender req = me
  | EInsertBotReply a owner bot _ req => a = app /\ owner = me /\ im_sender req = bot /\ im_dest req = me
  | EAck a account _ _ | EOfflineIndex a account _ _ _ | EOfflineContent a account _ => a = app /\ account = me
  | EInbox a account _ | EHistory a account _ _ _ _ | EMarkRead a account _ _ _ | EStates a account _
  | EPurge a account _ => a = app /\ account = me
  | EGroupCreate a req => a = app /\ cg_owner req = me
  | EGroupQuit a _ account => a = app /\ account = me
  | EFriendRequest a from _ => a = app /\ from = me
  | EFriendAccept a account _ | EFriendReject a account _ | EFriendRemove a account _
  | EBlock a account _ | EUnblock a account _ => a = app /\ account = me
  | EListFriends a account | EIncoming a account | EListBlocked a account => a = app /\ account = me
  | EUpdateProfile a account _ => a = app /\ account = me
  | ESearch a _ _ _ => a = app
  | ECreateBot a req => a = app /\ cb_owner req = me
  | EUpdateBot a owner _ _ | EDeleteBot a owner _ | EBotPending a owner _ _ => a = app /\ owner = me
  | EEnter a viewer channel _ _ | ELeave a viewer channel _ _ =>
    a = app /\ viewer = me /\ channel = s_channel_id s
  | EViewers a dest _ => a = app /\ dest = me
  | ESpecs a owner | ESpecAccounts a owner | ESpecUpsert a owner _ | ESpecUpsertAccount a owner _ =>
    a = app /\ owner = me
  end.

(** An answer goes to the connection of the session and repeats the request's header. *)
Definition echoes (ctx : Context) X (e : Eff X) : Prop :=
  match e with
  | EPush gateway channels pkt =>
    h_flag (l_header pkt) = Flag_as_i32 Response ->
    gateway = own_gate ctx /\ channels = [own_channel ctx] /\ answers_to (request ctx) pkt
  | _ => True
  end.
Definition obeys (ctx : Context) : CallPred := fun X e => acts_as (session ctx) X e /\ echoes ctx X e.

#[export] Instance echoes_polite ctx : Polite ctx (echoes ctx).
Proof. split; [split|]; [by intros g c pkt E1 E2; rewrite E1 in E2|by intros X []|done]. Qed.
#[export] Instance obeys_polite ctx : Polite ctx (obeys ctx).
Proof. split; [split|]; [by intros g c pkt E1; split; [done|intros E2; rewrite E1 in E2]|by intros X []|done]. Qed.

#[export] Hint Unfold with_peer answer_social answer_list reject_bot_social require_user profiles_pb notify_peer
  with_own_bot lookup_bot answer_bot with_friend with_unblocked push_typing fanout_typing_to_account
  push_profile_updated load_group upsert_record login_done login_undo login_register answer_insert : handlers.

Section acts.
Context `{Prost} (ctx : Context).
Implicit Types P : CallPred.

(** The loops of the handlers, over any predicate on calls. *)
Section loops.
Context P `{!Polite ctx P}.

Lemma check_humans_always accounts : (forall a, P _ (ELookup (own_app ctx) a)) -> always P (check_humans ctx accounts).
Proof. intros Hl. induction accounts as [|a accounts IH]; cbn [check_humans]; walk. Qed.
Lemma ensure_human_always accounts :
  (forall a, P _ (ELookup (own_app ctx) a)) -> always P (ensure_human_accounts ctx accounts).
Proof. intros Hl. pose proof (check_humans_always accounts Hl). unfold ensure_human_accounts. walk. Qed.
Lemma directory_check_always receiver : (forall a, P _ (ELookup (own_app ctx) a)) ->
  (forall a, P _ (EBlockedEither (own_app ctx) (own_account ctx) a)) ->
  (forall a, P _ (EIsFriend (own_app ctx) (own_account ctx) a)) -> always P (directory_check ctx receiver).
Proof. intros Hl Hb Hf. unfold directory_check. walk. Qed.
End loops.

Section plain_loops.
Context P `{!Plain P}.

Lemma join_all_always app group accounts :
  (forall a, P _ (EGroupJoin app group a)) -> always P (join_all app group accounts).
Proof. intros Hj. induction accounts as [|a accounts IH]; cbn [join_all]; walk. Qed.
Lemma unblocked_always rows out :
  (forall a, P _ (EBlockedEither (own_app ctx) (own_account ctx) a)) -> always P (unblocked ctx rows out).
Proof. intros Hb. revert out; induction rows as [|p rows IH]; intros out; cbn [unblocked]; walk. Qed.
Lemma notify_each_plain {B} `{Message B} accounts command (body : B) :
  always P (notify_each ctx accounts command body).
Proof. induction accounts as [|a accounts IH]; cbn [notify_each]; walk. Qed.
Lemma kick_all_plain olds : always P (kick_all ctx olds).
Proof. induction olds as [|old olds IH]; cbn [kick_all]; walk. Qed.
End plain_loops.
End acts.

#[export] Hint Extern 1 (always _ (ensure_human_accounts _ _)) =>
  (apply ensure_human_always; first [apply _ | intros; call_ok]) : handlers.
#[export] Hint Extern 1 (always _ (directory_check _ _)) =>
  (apply directory_check_always; first [apply _ | intros; call_ok]) : handlers.
#[export] Hint Extern 1 (always _ (join_all _ _ _)) => (apply join_all_always; first [apply _ | intros; call_ok]) : handlers.
#[export] Hint Extern 1 (always _ (unblocked _ _ _)) => (apply unblocked_always; first [apply _ | intros; call_ok]) : handlers.
#[export] Hint Extern 1 (always _ (notify_each _ _ _ _)) => (apply notify_each_plain; apply _) : handlers.
#[export] Hint Extern 1 (always _ (kick_all _ _)) => (apply kick_all_plain; apply _) : handlers.

(** One goal per handler, its definition unfolded. *)
Ltac each_handler :=
  repeat first [apply List.Forall_nil | apply List.Forall_cons]; cbn [fst snd]; intros;
  lazymatch goal with
  | |- always _ ?p => let h := head_of p in unfold h
  | |- replies ?p _ _ => let h := head_of p in unfold h
  end.

Section table.
Context `{Prost} (ctx : Context).

Lemma owner_is_own owner : owner_or_deny ctx = Ok owner -> owner = own_account ctx.
Proof. unfold owner_or_deny. destruct (_ && _); congruence. Qed.

Lemma handlers_obey svc :
  Forall (fun h : Command * HandlerFn => h.1 <> LoginSignIn -> always (obeys ctx) (h.2 ctx)) (chat_handlers svc).
Proof.
  pose proof owner_is_own as Ho. each_handler; [congruence|..];
    try (destruct (owner_or_deny ctx) as [owner|]; [rewrite (Ho owner eq_refl)|]); walk.
Qed.
Lemma login_echoes zone store pending presence :
  always (echoes ctx) (do_sys_login_with_zone zone store pending presence ctx).
Proof. each_handler; walk. Qed.

(** ** One answer *)


(** Both programs run under a time limit refuse at their end. *)
Lemma check_humans_answers accounts : replies (check_humans ctx accounts)
  (fun n r => n = match r with Ok true => 0 | _ => 1 end)%nat 0.
Proof. induction accounts as [|a accounts IH]; cbn [check_humans]; count. Qed.
Lemma check_humans_last accounts : answers_last (check_humans ctx accounts).
Proof.
  induction accounts as [|a accounts IH]; [done|]. intros [[p|]|e]; [|by intros []..].
  cbn. destruct (up_exists p && _); [exact IH|by intros []].
Qed.
Lemma directory_check_last receiver : answers_last (directory_check ctx receiver).
Proof.
  intros [[p|]|e]; [|by intros []..]. cbn. destruct (negb (up_exists p)); [by intros []|].
  destruct (_ && negb _); [by intros []|]. case_bool_decide; [done|]. cbn.
  intros [[]|]; [by intros []| |by intros []]. cbn. intros [[]|]; [done|by intros []..].
Qed.

Lemma ensure_human_answers accounts (Q : nat -> result bool RouterError -> Prop) :
  Q 0%nat (Ok true) -> Q 1%nat (Ok false) -> (forall e, Q 1%nat (Err e)) ->
  replies (ensure_human_accounts ctx accounts) Q 0.
Proof.
  intros Ht Hf He. apply replies_bind, replies_timeout; [apply check_humans_last| |count].
  eapply replies_mono; [|apply check_humans_answers]. intros n [[]|e] ->; [exact Ht|exact Hf|apply He].
Qed.
Lemma directory_check_answers receiver (Q : nat -> option (result (option bool) RouterError) -> Prop) :
  (forall b, Q 0%nat (Some (Ok (Some b)))) -> Q 1%nat (Some (Ok None)) -> (forall e, Q 1%nat (Some (Err e))) ->
  Q 0%nat None -> replies (timeout DirectoryBudget (directory_check ctx receiver)) Q 0.
Proof.
  intros Hc Hr He Hn. apply replies_timeout; [apply directory_check_last| |done]. unfold directory_check. count.
Qed.

(** A typing notice to something that is no account name. *)
Definition untypable (pkt : LogicPkt) : Prop := parse (h_command (l_header pkt)) = Some Wire.Typing /\
  exists req err, read_body pkt = Ok req /\ AccountId_parse (str_trim (typing_req_dest req)) = Err err.
Definition once (pkt : LogicPkt) (n : nat) (_ : result unit RouterError) : Prop :=
  n = 1%nat \/ n = 2%nat /\ untypable pkt.

Lemma handlers_answer svc : Forall (fun h : Command * HandlerFn =>
  parse (h_command (header ctx)) = Some h.1 -> replies (h.2 ctx) (once (request ctx)) 0) (chat_handlers svc).
Proof.
  each_handler; count; try (left; reflexivity);
    first [apply ensure_human_answers; [cbv beta iota|by left..]; cbn [negb]; count
          | apply directory_check_answers; intros; [|by left..|]; cbv beta iota; count
          | right; split; [reflexivity|]; split; [assumption|]; by do 2 eexists];
    try (left; reflexivity).
Qed.

End table.

(** ** The routing table *)

Lemma handlers_foldl (l : list (Command * HandlerFn)) r c f :
  handlers (foldl (fun r (h : Command * HandlerFn) => handle h.1 h.2 r) r l) c = Some f ->
  (c, f) ∈ l \/ handlers r c = Some f.
Proof.
  revert r; induction l as [|[c' f'] l IH]; intros r; [by right|]. cbn [foldl fst snd].
  intros [Hin|Hr]%IH; [left; by right|]. cbn in Hr. case_decide; [|by right]. left. injection Hr as <-. subst c. left.
Qed.

(** A property of the handlers and of the refusal of unknown commands is one of the
    service. *)
Lemma serve_cases `{Prost} svc pkt s (Q : Answer -> Prop) :
  (forall c f, parse (h_command (l_header pkt)) = Some c -> (c, f) ∈ chat_handlers svc -> Q (f (mkContext pkt s))) ->
  Q (resp_bytes (mkContext pkt s) CommandNotFound []) -> Q (serve (chat_router svc) pkt s).
Proof.
  intros Hf Hn. unfold serve. destruct (parse _) as [c|] eqn:Ep; [|done]. cbn [mbind option_bind].
  destruct (handlers (chat_router svc) c) as [f|] eqn:Ef; [|done].
  apply handlers_foldl in Ef as [Hin|]; [|done]. by apply (Hf c).
Qed.

Section serve.
Context `{Prost} (svc : ChatSvc) (pkt : LogicPkt) (s : Session).
Let command := parse (h_command (l_header pkt)).
Let ctx := mkContext pkt s.

Lemma serve_obeys : command <> Some LoginSignIn -> always (obeys ctx) (serve (chat_router svc) pkt s).
Proof.
  intros Hc. apply serve_cases; [|apply always_resp_bytes; apply _]. intros c f Ec Hin.
  apply (proj1 (list.Forall_forall _ _) (handlers_obey ctx svc) (c, f) Hin).
  cbn. intros ->. by apply Hc.
Qed.

Lemma serve_echoes : always (echoes ctx) (serve (chat_router svc) pkt s).
Proof.
  destruct (decide (command = Some LoginSignIn)) as [Hc|Hc].
  - unfold serve. fold command. rewrite Hc. exact (login_echoes ctx _ _ _ _).
  - eapply always_mono; [|by apply serve_obeys]. by intros X e [_ He].
Qed.

Lemma serve_answers : replies (serve (chat_router svc) pkt s) (once pkt) 0.
Proof.
  apply (serve_cases _ _ _ (fun p => replies p (once pkt) 0)); [|by apply replies_resp_bytes; intros ?; left].
  intros c f Ec Hin. by apply (proj1 (list.Forall_forall _ _) (handlers_answer ctx svc) (c, f) Hin).
Qed.
End serve.

(** ** The reception of a packet *)

Lemma echoes_responses {A} ctx (p : Proc A) tr a : always (echoes ctx) p -> exec p tr a ->
  forall x, x ∈ responses tr -> exists reply, x = (own_gate ctx, [own_channel ctx], reply) /\ answers_to (request ctx) reply.
Proof.
  intros Ha He x ([X e y] & Hin & Hx)%list_elem_of_omap. pose proof (always_exec _ _ _ _ Ha He _ _ _ Hin) as Hp.
  destruct e; try done. cbn in Hx, Hp. destruct (_ =? _) eqn:Ef; [|done]. injection Hx as <-.
  apply Z.eqb_eq in Ef. destruct (Hp Ef) as (-> & -> & ?). by eexists.
Qed.

Lemma error_answers status pkt : answers_to pkt (error_packet status pkt).
Proof. by destruct pkt. Qed.

Section receive.
Context `{Prost} (svc : ChatSvc) (payload : bytes) (pkt : LogicPkt) (Hread : read_logic payload = Ok pkt).
Let channel := mkChannelId (h_channel_id (l_header pkt)).

Definition refused (status : Status) (tr : list Event) : Prop := exists r,
  tr = [Ev (EPush (own_gate (mkContext pkt (auto_session pkt))) [own_channel (mkContext pkt (auto_session pkt))]
              (error_packet status pkt)) r].

(** What a run of [receive] is. *)
Lemma receive_exec tr a : exec (receive svc payload) tr a ->
  if bool_decide (parse (h_command (l_header pkt)) = Some LoginSignIn)
  then exists r, exec (serve (chat_router svc) pkt (auto_session pkt)) tr r
  else exists found rest, tr = Ev (ESessionGet channel) found :: rest /\
    match found with
    | Ok s => if bool_decide (s_app s = ALLOWED_APP) then exists r, exec (serve (chat_router svc) pkt s) rest r
              else refused Unauthorized rest
    | Err e => exists status, status <> Success /\ refused status rest
    end.
Proof.
  assert (Hserve : forall s tr a, exec (_ ← serve (chat_router svc) pkt s; Ret tt) tr a ->
    exists r, exec (serve (chat_router svc) pkt s) tr r).
  { intros s tr' a' (tr1 & r & tr2 & -> & He & [-> _]%exec_inv)%exec_bind_inv. exists r. by rewrite app_nil_r. }
  assert (Herr : forall status tr a, exec (resp_err status pkt) tr a -> refused status tr).
  { by intros status tr' a' (r & tr2 & -> & [-> _]%exec_inv)%exec_call_inv; exists r. }
  unfold receive. rewrite Hread. case_bool_decide; [apply Hserve|].
  intros (found & rest & -> & He)%exec_call_inv. exists found, rest. split; [done|]. destruct found as [s|[]].
  1: destruct (bool_decide (s_app s = ALLOWED_APP)); [exact (Hserve _ _ _ He)|exact (Herr _ _ _ He)].
  all: eexists; split; [|exact (Herr _ _ _ He)]; done.
Qed.
End receive.

(** The answers [replies] to a packet, sent to the connection of [s]. *)
Definition sent_back (s : Session) (reply : LogicPkt) : GatewayId * list ChannelId * LogicPkt :=
  (mkGatewayId (s_gate_id s), [mkChannelId (s_channel_id s)], reply).
Definition answered `{Prost} (pkt : LogicPkt) (s : Session) (tr : list Event) (replies : list LogicPkt) : Prop :=
  responses tr = sent_back s <$> replies /\ Forall (answers_to pkt) replies /\
  (length replies = 1%nat \/ length replies = 2%nat /\ untypable pkt).

Lemma answered_one `{Prost} pkt s tr replies : answered pkt s tr replies -> ~ untypable pkt ->
  exists reply, responses tr = [sent_back s reply] /\ answers_to pkt reply.
Proof.
  intros (Hr & Ha & Hl) Hu. destruct Hl as [Hl|[_ ?]]; [|done].
  destruct replies as [|reply [|]]; [cbn in Hl; lia| |cbn in Hl; lia].
  inversion_clear Ha. exists reply. split; [exact Hr|done].
Qed.

(** A list of which every element is an image is an image. *)
Lemma images {A B} (f : A -> B) (P : A -> Prop) (l : list B) :
  (forall x, x ∈ l -> exists a, x = f a /\ P a) -> exists k, l = f <$> k /\ Forall P k.
Proof.
  induction l as [|x l IH]; intros Hl; [by exists []|]. destruct (Hl x) as (a & -> & Ha); [by left|].
  destruct IH as (k & -> & Hk); [intros y Hy; apply Hl; by right|]. exists (a :: k). split; [done|by constructor].
Qed.

(** One answer to every packet, to the connection of its session. *)
Lemma receive_answers `{Prost} (svc : ChatSvc) (payload : bytes) (pkt : LogicPkt) (tr : list Event) (a : unit)
  (Hread : read_logic payload = Ok pkt) (Hrun : exec (receive svc payload) tr a) :
  exists s replies, answered pkt s tr replies /\
    (s = auto_session pkt \/ Ev (ESessionGet (mkChannelId (h_channel_id (l_header pkt)))) (Ok s) ∈ tr).
Proof.
  assert (Hserve : forall s tr r, exec (serve (chat_router svc) pkt s) tr r -> exists replies, answered pkt s tr replies).
  { intros s tr' r He.
    destruct (images (sent_back s) (answers_to pkt) (responses tr')) as (replies & Hr & Ha).
    { exact (echoes_responses _ _ _ _ (serve_echoes svc pkt s) He). }
    exists replies. split_and!; [done..|].
    pose proof (replies_exec _ _ _ _ _ (serve_answers svc pkt s) He) as Hn. by rewrite Hr, length_fmap in Hn. }
  apply (receive_exec svc payload pkt Hread) in Hrun. case_bool_decide.
  - destruct Hrun as [r He]. destruct (Hserve _ _ _ He) as [replies ?]. exists (auto_session pkt), replies. auto.
  - destruct Hrun as (found & rest & -> & Hf).
    assert (Hr : forall status, refused pkt status rest -> exists replies, answered pkt (auto_session pkt) rest replies).
    { intros status [r ->]. exists [error_packet status pkt]. split_and!; [done| |by left].
      apply list.Forall_singleton, error_answers. }
    destruct found as [s|e]; [case_bool_decide|].
    + destruct Hf as [r He]. destruct (Hserve _ _ _ He) as [replies ?]. exists s, replies.
      split; [done|]. right. by left.
    + destruct (Hr _ Hf) as [replies ?]. exists (auto_session pkt), replies. auto.
    + destruct Hf as (status & _ & Hf). destruct (Hr _ Hf) as [replies ?]. exists (auto_session pkt), replies. auto.
Qed.

(** A service over empty directories in which "ch-1" is the connection of "alice". *)
Definition blocking : LogicPkt :=
  mkLogicPkt (mkHeader CMD_BLOCK_ADD "ch-1" 7 0 0 "bob" 0 [mkMeta META_DEST_SERVER "gate-a"]) [].
Definition plain_svc : ChatSvc := mkChatSvc "" true NoopFilter false.
Definition alice_online : Session := mkSession "ch-1" "gate-a" "alice" "" "" "" "web" "kim" [] "jti-1" "".
Definition online : forall X, Eff X -> unit -> unit * X := fun X e u =>
  match e in Eff X return unit * X -> unit * X with
  | ESessionGet _ => fun _ => (tt, Ok alice_online)
  | EUserExists _ _ => fun _ => (tt, Ok true)
  | _ => fun r => r
  end (quiet X e u).

Section demo.
#[local] Existing Instance demo_prost.
#[local] Existing Instance demo_prost_ok.

Definition blocking_bytes : bytes := marshal (Logic blocking).
Lemma blocking_read : read_logic blocking_bytes = Ok blocking.
Proof. vm_compute. reflexivity. Qed.
Lemma blocking_command : parse (h_command (l_header blocking)) = Some BlockAdd.
Proof. vm_compute. reflexivity. Qed.
End demo.

(** (C2) No command without a session.  For every packet that is not a sign-in the
    service first asks the session store for the session of the packet's channel.
    Without one, or with one of another app, it only sends one error answer back.
    With one, every call of every one of its handlers is made in the session's app
    and, where it writes for or reads what belongs to an account or a connection,
    for the account and the connection of the session, whatever the packet says.
    Joins of groups are tied to the app alone. *)
Theorem handlers_act_as_session `{Prost} (svc : ChatSvc) (payload : bytes) (pkt : LogicPkt) (tr : list Event) (a : unit)
  (Hread : read_logic payload = Ok pkt) (Hlogin : parse (h_command (l_header pkt)) <> Some LoginSignIn)
  (Hrun : exec (receive svc payload) tr a) :
  exists found rest, tr = Ev (ESessionGet (mkChannelId (h_channel_id (l_header pkt)))) found :: rest /\
    ((exists s, found = Ok s /\ s_app s = ALLOWED_APP /\ forall X (e : Eff X) x, Ev e x ∈ rest -> acts_as s X e) \/
     (forall s, found = Ok s -> s_app s <> ALLOWED_APP) /\
     exists status, status <> Success /\ refused pkt status rest).
Proof.
  apply (receive_exec svc payload pkt Hread) in Hrun. rewrite bool_decide_eq_false_2 in Hrun by done.
  destruct Hrun as (found & rest & -> & Hf). exists found, rest. split; [done|]. destruct found as [s|e].
  - destruct (bool_decide_reflect (s_app s = ALLOWED_APP)) as [Ha|Ha].
    + left. exists s. split_and!; [done..|]. intros X e x Hin. destruct Hf as [r He].
      exact (proj1 (always_exec _ _ _ _ (serve_obeys svc pkt s Hlogin) He _ _ _ Hin)).
    + right. split; [by intros s' [= <-]|]. by exists Unauthorized.
  - right. by split.
Qed.

Lemma handlers_act_as_session_witness : exists found rest,
  (run online (@receive demo_prost plain_svc blocking_bytes) tt).1.2
  = Ev (ESessionGet (mkChannelId "ch-1")) found :: rest.
Proof.
  destruct (@handlers_act_as_session demo_prost plain_svc _ blocking _ _ blocking_read
    ltac:(rewrite blocking_command; discriminate) (exec_run online (@receive demo_prost plain_svc blocking_bytes) tt))
    as (found & rest & E & _).
  exact (ex_intro _ found (ex_intro _ rest E)).
Defined.

(** (C3) One answer.  Every packet the service can read is answered exactly once,
    whatever the services behind it do, wherever a time limit passes and whichever of
    the 41 handlers, or none, its command has: by one push to the connection of the
    session (for a sign-in, an unknown channel or a foreign app that the packet came
    from), with the command, sequence number and destination of the packet.  Only a
    typing notice to something that is no account name may be answered twice. *)
Theorem service_answers_once `{Prost} (svc : ChatSvc) (payload : bytes) (pkt : LogicPkt) (tr : list Event) (a : unit)
  (Hread : read_logic payload = Ok pkt) (Hrun : exec (receive svc payload) tr a) :
  exists s replies, responses tr = sent_back s <$> replies /\ Forall (answers_to pkt) replies /\
    (length replies = 1%nat \/ length replies = 2%nat /\ untypable pkt) /\
    (s = auto_session pkt \/ Ev (ESessionGet (mkChannelId (h_channel_id (l_header pkt)))) (Ok s) ∈ tr).
Proof. destruct (receive_answers _ _ _ _ _ Hread Hrun) as (s & replies & (? & ? & ?) & ?). by exists s, replies. Qed.

Lemma service_answers_once_witness : length (responses
  (run online (@receive demo_prost plain_svc blocking_bytes) tt).1.2) = 1%nat.
Proof.
  destruct (@service_answers_once demo_prost plain_svc _ blocking _ _ blocking_read
    (exec_run online (@receive demo_prost plain_svc blocking_bytes) tt)) as (s & replies & E & _ & Hl & _).
  rewrite E, length_fmap. destruct Hl as [Hl|[_ [Ht _]]]; [exact Hl|]. rewrite blocking_command in Ht. discriminate Ht.
Defined.
