(* ===== verification/GroupSpec.v ===== *)
(** Whom the group commands let into a group. *)

From S2P Require Import Prelude Prog Wire Pkt Msgs Location SessionStore Store Social Groups Users Interest.
From S2P Require Import AgentStore Effects Router Filter Talk Offline Login GroupCmds PeopleCmds InboxCmds BotCmds Service.
From S2P Require Import HandlerLogic ServiceSpec.
Open Scope Z_scope.
Open Scope kim_scope.

(** ** What a trace lets in *)

Definition join_in (ev : Event) : option (string * string * string) :=
  match ev with Ev e _ => match e with
  | EGroupJoin app group account => Some (app, group, account)
  | _ => None
  end end.
Definition joins (tr : list Event) : list (string * string * string) := omap join_in tr.
Definition create_in (ev : Event) : option (string * CreateGroup) :=
  match ev with Ev e _ => match e with EGroupCreate app req => Some (app, req) | _ => None end end.
Definition creates (tr : list Event) : list (string * CreateGroup) := omap create_in tr.

(** The account was found, and no bot. *)
Definition vouched (app : string) (tr : list Event) (account : string) : Prop := exists p,
  Ev (ELookup app account) (Ok (Some p)) ∈ tr /\ up_exists p = true /\ up_kind p <> PROFILE_KIND_BOT.

Definition Closed : CallPred := fun X e =>
  match e with EGroupJoin _ _ _ | EGroupCreate _ _ => False | _ => True end.
#[export] Instance Closed_plain : Plain Closed.
Proof. split; [done|by intros X []]. Qed.
#[export] Instance Closed_polite ctx : Polite ctx Closed.
Proof. split; [apply _|done]. Qed.

Lemma joins_app tr tr' : joins (tr ++ tr') = joins tr ++ joins tr'.
Proof. apply omap_app. Qed.
Lemma creates_app tr tr' : creates (tr ++ tr') = creates tr ++ creates tr'.
Proof. apply omap_app. Qed.

Lemma vouched_mono app tr tr' account : (forall ev, ev ∈ tr -> ev ∈ tr') -> vouched app tr account -> vouched app tr' account.
Proof. intros Hs (p & Hin & ?). exists p. split; [by apply Hs|done]. Qed.

Lemma closed_exec {A} (p : Proc A) tr a : always Closed p -> exec p tr a -> joins tr = [] /\ creates tr = [].
Proof.
  intros Ha He. pose proof (always_exec _ _ _ _ Ha He) as Hc. clear Ha He.
  induction tr as [|[X e x] tr IH]; [done|].
  destruct IH as [Ej Ec]; [intros Y e' y Hin; apply (Hc _ _ y); by right|].
  specialize (Hc X e x ltac:(left)). unfold joins, creates in *. cbn [omap list_omap]. rewrite Ej, Ec. by destruct e.
Qed.

(** ** The lookups *)

Section checks.
Context `{Prost} (ctx : Context).

Lemma refuse_sat status (Q : list Event -> Prop) :
  sat (bind_ok (resp_with_error ctx status) (fun _ => Ret (Ok false))) (fun tr a => a = Ok true -> Q tr).
Proof. by intros [[]|]. Qed.

Lemma check_humans_vouched accounts : sat (check_humans ctx accounts) (fun tr a =>
  a = Ok true -> Forall (vouched (own_app ctx) (calls tr)) accounts).
Proof.
  induction accounts as [|account accounts IH]; [by constructor|]. cbn [check_humans].
  apply sat_call. intros [[p|]|e]; [|apply (refuse_sat _ (fun tr => Forall _ _))..].
  destruct (up_exists p && negb (up_kind p =? PROFILE_KIND_BOT)) eqn:E;
    [|apply (refuse_sat _ (fun tr => Forall _ _))].
  apply andb_true_iff in E as [He Hb]. apply negb_true_iff, Z.eqb_neq in Hb.
  eapply sat_mono; [|exact IH]. intros tr a Ha Ea. rewrite calls_cons. constructor.
  - exists p. split; [by left|done].
  - eapply list.Forall_impl; [exact (Ha Ea)|]. intros x. apply vouched_mono. intros ev Hev. by right.
Qed.

Lemma ensure_human_vouched accounts tr : exec (ensure_human_accounts ctx accounts) tr (Ok true) ->
  joins tr = [] /\ creates tr = [] /\ forall account, account ∈ accounts -> vouched (own_app ctx) tr account.
Proof.
  intros He. destruct (closed_exec _ _ _ (ensure_human_always ctx Closed accounts (fun _ => I)) He) as [Hj Hc].
  split_and!; [done..|]. apply exec_bind_inv in He as (tr1 & o & tr2 & -> & H1 & H2).
  pose proof (sat_exec _ _ _ _ (sat_timeout MemberLookupBudget _
    (fun l a => a = Ok true -> Forall (vouched (own_app ctx) l) accounts) (fun _ => True)
    (check_humans_vouched accounts) (satp_cutp _ _ (satp_True _))) H1) as Ho.
  destruct o as [[b|e]|]; [|by apply exec_inv in H2 as [_ ?]|].
  - apply exec_inv in H2 as [-> [= <-]]. intros account Hin.
    specialize (proj1 (list.Forall_forall _ _) (Ho eq_refl) _ Hin). apply vouched_mono. intros ev Hev.
    apply elem_of_app. left. by apply elem_of_calls.
  - by apply exec_call_inv in H2 as ([[]|] & tr3 & _ & [_ ?]%exec_inv).
Qed.

Lemma join_all_exec app group accounts tr r : exec (join_all app group accounts) tr r ->
  creates tr = [] /\ exists n, joins tr = (fun a => (app, group, a)) <$> take n accounts.
Proof.
  revert tr; induction accounts as [|a accounts IH]; intros tr; cbn [join_all].
  - intros [-> _]%exec_inv. split; [done|by exists 0%nat].
  - intros ([[]|e] & tr' & -> & He)%exec_call_inv.
    + destruct (IH _ He) as (Hc & n & Hj). split; [exact Hc|]. exists (S n). cbn. by rewrite <- Hj.
    + apply exec_inv in He as [-> _]. split; [done|by exists 1%nat; destruct accounts].
Qed.
End checks.

(** ** What the handlers let in *)

Lemma new_accounts_spec existing seen accounts :
  NoDup (new_accounts existing seen accounts) /\
  forall a, a ∈ new_accounts existing seen accounts -> a ∉ existing /\ a ∉ seen.
Proof.
  revert seen; induction accounts as [|a accounts IH]; intros seen; [by split; [constructor|intros a Ha; inversion Ha]|].
  cbn [new_accounts]. destruct (str_is_empty _ || bool_decide _) eqn:E; [apply IH|].
  apply orb_false_iff in E as [_ E]. apply bool_decide_eq_false in E. destruct (IH (str_trim a :: seen)) as [Hn Hi].
  case_bool_decide as He.
  - split; [done|]. intros x [? Hx]%Hi. set_solver.
  - split; [apply list.NoDup_cons; split; [|done]; intros [_ Hs]%Hi; set_solver|].
    intros x [->|[? Hx]%Hi]%elem_of_cons; set_solver.
Qed.

Section admits.
Context `{Prost} (ctx : Context).

(** Nobody joins, or the accounts of one invitation by a member of the group do. *)
Definition joins_checked (tr : list Event) : Prop :=
  joins tr = [] \/ exists before after group info accounts, tr = before ++ after /\ joins before = [] /\
    joins tr = (fun a => (own_app ctx, group, a)) <$> accounts /\ NoDup accounts /\
    Ev (EGroupDetail (own_app ctx) group) (Ok info) ∈ before /\ own_account ctx ∈ gi_members info /\
    len (gi_members info) + len accounts <= MAX_GROUP_MEMBERS /\
    forall a, a ∈ accounts -> a ∉ gi_members info /\ vouched (own_app ctx) before a.
(** No group is created, or one of the session's account. *)
Definition creates_checked (tr : list Event) : Prop :=
  creates tr = [] \/ exists before after req, tr = before ++ after /\ creates before = [] /\
    creates tr = [(own_app ctx, req)] /\ cg_owner req = own_account ctx /\
    NoDup (cg_members req) /\ len (cg_members req) <= MAX_GROUP_MEMBERS /\
    forall m, m ∈ cg_members req -> m = own_account ctx \/ vouched (own_app ctx) before m.
(** The rest of a handler, after calls that let nobody in. *)
Definition closed (tr : list Event) : Prop := joins tr = [] /\ creates tr = [].
Definition admits_after (before : list Event) (p : Answer) : Prop :=
  forall tr r, exec p tr r -> joins_checked (before ++ tr) /\ creates_checked (before ++ tr).

Lemma closed_app tr tr' : closed tr -> closed tr' -> closed (tr ++ tr').
Proof. intros [E1 E2] [E3 E4]. split; [by rewrite joins_app, E1, E3|by rewrite creates_app, E2, E4]. Qed.

Lemma closed_after before p : closed before -> always Closed p -> admits_after before p.
Proof.
  intros Hb Ha tr r He. destruct (closed_app _ _ Hb (closed_exec _ _ _ Ha He)). split; by left.
Qed.

Lemma call_after {X} before (e : Eff X) f :
  (forall x, admits_after (before ++ [Ev e x]) (f x)) -> admits_after before (call e ≫= f).
Proof.
  intros Hf tr r (x & tr' & -> & He)%exec_call_inv. specialize (Hf x _ _ He). by rewrite <- app_assoc in Hf.
Qed.

Lemma ensure_after before accounts (f : bool -> Answer) : closed before -> always Closed (f false) ->
  (forall checked, closed checked -> (forall a, a ∈ accounts -> vouched (own_app ctx) checked a) ->
     admits_after (before ++ checked) (f true)) ->
  admits_after before (bind_ok (ensure_human_accounts ctx accounts) f).
Proof.
  intros Hb Hf Ht tr r (tr1 & [[]|e] & tr2 & -> & He & H2)%exec_bind_inv.
  - destruct (ensure_human_vouched _ _ _ He) as (? & ? & ?). rewrite app_assoc. by apply (Ht tr1 ltac:(done) ltac:(done) _ r).
  - pose proof (closed_exec _ _ _ (ensure_human_always ctx Closed accounts (fun _ => I)) He).
    rewrite app_assoc. apply (closed_after _ _ (closed_app _ _ Hb H0) Hf _ _ H2).
  - pose proof (closed_exec _ _ _ (ensure_human_always ctx Closed accounts (fun _ => I)) He).
    rewrite app_assoc. apply (closed_after _ (Ret (Err e)) (closed_app _ _ Hb H0) I _ _ H2).
Qed.

Lemma group_create_admits : admits_after [] (do_group_create ctx).
Proof.
  unfold do_group_create. destruct (read_body _) as [req|]; [|apply closed_after; [done|walk]].
  cbv zeta. destruct (MAX_GROUP_MEMBERS <? _) eqn:Em; [apply closed_after; [done|walk]|]. apply Z.ltb_ge in Em.
  apply ensure_after; [done|exact I|]. intros checked [Hj Hc] Hv tr r He. cbn [negb] in He.
  apply exec_call_inv in He as (created & tr' & -> & He). 
  assert (closed tr') as [Hj' Hc'] by (refine (closed_exec _ _ _ _ He); walk). split.
  - left. cbn [app]. rewrite joins_app, Hj. exact Hj'.
  - right. eexists checked, _, _. split; [done|]. split; [done|]. split.
    { cbn [app]. rewrite creates_app, Hc. unfold creates in *. cbn [omap list_omap create_in]. by rewrite Hc'. }
    split_and!; [done|apply NoDup_normalize|exact Em|].
    intros m Hm. destruct (decide (m = own_account ctx)) as [|Hne]; [by left|right]. apply Hv.
    apply elem_of_list_filter_bool. by rewrite bool_decide_eq_false_2.
Qed.

Lemma group_invite_admits : admits_after [] (do_group_invite ctx).
Proof.
  unfold do_group_invite. destruct (read_body _) as [req|]; [|apply closed_after; [done|walk]].
  cbv zeta. set (group := dest_or_body_group _ _). set (accounts := group_invite_req_accounts req).
  destruct (str_is_empty group); [apply closed_after; [done|walk]|].
  destruct (bool_decide (accounts = [])); [apply closed_after; [done|walk]|].
  apply call_after. intros [info|e]; [|apply closed_after; [done|walk]].
  destruct (negb (GroupCmds.is_member info (own_account ctx))) eqn:Eme; [apply closed_after; [done|walk]|].
  destruct (MAX_GROUP_MEMBERS <? _) eqn:Em; [apply closed_after; [done|walk]|].
  apply negb_false_iff, existsb_exists in Eme as (m & Hm%list_elem_of_In & ->%bool_decide_eq_true). apply Z.ltb_ge in Em.
  destruct (new_accounts_spec (gi_members info) [] accounts) as [Hnd Hnew]. set (added := new_accounts _ _ _) in *.
  apply ensure_after; [done|exact I|]. intros checked Hck Hv tr r He. cbn [negb] in He.
  apply exec_bind_inv in He as (tr1 & failed & tr2 & -> & H1 & H2).
  destruct (join_all_exec _ _ _ _ _ H1) as (Hc & n & Hj).
  assert (closed tr2) as [Hj2 Hc2] by (refine (closed_exec _ _ _ _ H2); walk).
  destruct Hck as [Hcj Hcc]. split.
  - right. eexists (_ ++ checked), (tr1 ++ tr2), group, info, (take n added). split_and!; [done| | | | |done| |].
    + by rewrite joins_app, Hcj.
    + rewrite (joins_app _ (tr1 ++ tr2)), (joins_app tr1), Hj, Hj2, app_nil_r. by rewrite joins_app, Hcj.
    + rewrite <- (take_drop n added) in Hnd. by apply list.NoDup_app in Hnd as [? _].
    + by left.
    + rewrite len_take. unfold len in *. lia.
    + intros a Ha%elem_of_take_in. split; [apply (Hnew _ Ha)|]. eapply vouched_mono, Hv, Ha. intros ev Hin. set_solver.
  - left. by rewrite !creates_app, Hcc, Hc, Hc2.
Qed.
End admits.

(** (C24) Who gets into a group.  In every run of every command of the service, the
    only accounts that join a group are those of an invitation whose sender the
    group's member list names; each was found in the directory of the session's app
    and is no bot, in this run and before the first of them joins; none was a member
    or joins twice; and with them the group has at most 500 members.  A group is
    created only for the session's account, and its other members were checked the
    same way before. *)
Theorem group_members_checked `{Prost} (svc : ChatSvc) (pkt : LogicPkt) (s : Session) (tr : list Event)
  (r : result unit RouterError) (Hrun : exec (serve (chat_router svc) pkt s) tr r) :
  joins_checked (mkContext pkt s) tr /\ creates_checked (mkContext pkt s) tr.
Proof.
  revert tr r Hrun. change (admits_after (mkContext pkt s) [] (serve (chat_router svc) pkt s)).
  set (ctx := mkContext pkt s). apply serve_cases; [|apply closed_after; [done|walk]].
  intros c f _ Hin. revert c f Hin.
  enough (Forall (fun h : Command * HandlerFn => admits_after ctx [] (h.2 ctx)) (chat_handlers svc)) as Hall.
  { intros c f Hin. exact (proj1 (list.Forall_forall _ _) Hall (c, f) Hin). }
  repeat first [apply List.Forall_nil | apply List.Forall_cons]; cbn [snd];
    first [apply group_create_admits | apply group_invite_admits | apply closed_after; [done|]].
  all: lazymatch goal with |- always _ ?p => let h := head_of p in unfold h end; walk.
Qed.

(** An invitation of "bob" into the group of "alice". *)
Definition inviting : LogicPkt :=
  mkLogicPkt (mkHeader CMD_GROUP_INVITE "ch-1" 8 0 0 "g1" 0 [])
    (@encode_to_vec _ (@prost_message _ demo_prost _) (mkGroupInviteReq "g1" ["bob"%string])).
Definition group_online : forall X, Eff X -> unit -> unit * X := fun X e u =>
  match e in Eff X return unit * X -> unit * X with
  | EGroupDetail _ g => fun _ => (tt, Ok (mkGroupInfo g "" "" "" "alice" ["alice"%string]))
  | ELookup _ _ => fun _ => (tt, Ok (Some (mkUserPresence true 0 "")))
  | _ => fun r => r
  end (quiet X e u).
Definition invite_run : list Event := (run group_online (serve (@chat_router demo_prost plain_svc) inviting alice_online) tt).1.2.
Lemma invite_joins : joins invite_run = [("kim", "g1", "bob")%string].
Proof. vm_compute. reflexivity. Qed.

Lemma group_members_checked_witness : vouched "kim" invite_run "bob".
Proof.
  destruct (proj1 (@group_members_checked demo_prost plain_svc inviting alice_online _ _ (exec_run group_online _ tt)))
    as [E|(before & after & group & info & accounts & E & _ & Ej & _ & _ & _ & _ & Hv)].
  - exfalso. pose proof invite_joins as H. unfold invite_run in H. rewrite E in H. discriminate H.
  - pose proof invite_joins as H. unfold invite_run in H |- *. rewrite Ej in H.
    destruct accounts as [|a accounts]; [discriminate H|]. injection H as _ Ha _. cbn [prod_map] in Ha.
    destruct (Hv a ltac:(left)) as [_ Hb]. rewrite Ha in Hb. refine (vouched_mono _ _ _ _ _ Hb).
    intros ev Hev. rewrite E. apply elem_of_app. left. exact Hev.
Defined.
