(* ===== verification/Gateway.v ===== *)
(** The gateway: services/gateway/src/lib.rs and the token claims of
    crates/kim-protocol/src/token.rs.

    The handler of a gateway signs connections in, stamps and forwards what they
    send, answers heartbeats and forwards the sign-out of a connection that ends.
    A method is a program over the calls [GEff]: the questions to the revoke store,
    the container, the connection, and the short critical sections on the handler's
    own maps, which [local] executes on a [GwState]. *)

From S2P Require Import Prelude Prog Wire Pkt Msgs.
From stdpp Require Import gmap.
Open Scope Z_scope.
Open Scope kim_scope.

(** ** token.rs *)

Record Claims := mkClaims {
  cl_account : string;
  cl_app : string;
  cl_exp : Z;
  cl_jti : option string;
  cl_ver : Z;
  cl_did : option string
}.

Definition check_account (account : string) : result unit ProtocolError :=
  if str_is_empty account || existsb is_ascii_control (bytes_of account) then Err InvalidAccount else Ok tt.

(** [.map(str::trim).filter(|s| !s.is_empty())]. *)
Definition trimmed (s : option string) : option string :=
  s ← s; let s := str_trim s in if str_is_empty s then None else Some s.

(** The claims [generate_with_device] signs, or the account it refuses. *)
Definition device_claims (account app : string) (exp : Z) (jti : string) (ver : Z) (did : option string)
  : result Claims ProtocolError :=
  let? _ := check_account account in
  Ok (mkClaims account app exp (trimmed (Some jti)) ver (trimmed did)).

(** ** kim-core and kim-container errors, as far as the handler makes them *)

Inductive GwError : Type := Handshake (msg : string) | HandshakeTimeout | GwIo (msg : string) | GwOther (msg : string).

(** ** The handler's state *)

Definition HEARTBEAT_REVOKE_ERROR_GRACE : Z := 3.

Record ChannelMeta := mkChannelMeta {
  cm_app : string;
  cm_account : string;
  cm_jti : string;
  cm_ver : Z;
  cm_did : string;
  cm_idle_exp : Z;
  cm_jwt_exp : Z;
  cm_revoke_errors : Z
}.
Definition ChannelMeta_new (app account jti : string) (ver : Z) (did : string) (jwt_exp : Z) : ChannelMeta :=
  mkChannelMeta app account jti ver did 0 jwt_exp 0.
Definition with_idle (t : Z) (m : ChannelMeta) : ChannelMeta :=
  mkChannelMeta (cm_app m) (cm_account m) (cm_jti m) (cm_ver m) (cm_did m) t (cm_jwt_exp m) (cm_revoke_errors m).
Definition with_jwt (t : Z) (m : ChannelMeta) : ChannelMeta :=
  mkChannelMeta (cm_app m) (cm_account m) (cm_jti m) (cm_ver m) (cm_did m) (cm_idle_exp m) t (cm_revoke_errors m).
Definition with_errors (n : Z) (m : ChannelMeta) : ChannelMeta :=
  mkChannelMeta (cm_app m) (cm_account m) (cm_jti m) (cm_ver m) (cm_did m) (cm_idle_exp m) (cm_jwt_exp m) n.

(** What a gateway is built with; of the optional parts, whether they are there. *)
Record GatewayConfig := mkGatewayConfig {
  gc_id : string;
  gc_ttl_secs : Z;
  gc_require_jti : bool;
  gc_revoke : bool;
  gc_redis : bool;
  gc_server : bool
}.
(** [GatewayHandler::with_ttl]. *)
Definition ttl_of (token_ttl_secs : Z) : Z := if 0 <? token_ttl_secs then token_ttl_secs else 86400.

Record GwState := mkGwState {
  gs_seq : Z;
  gs_pending : gmap string LogicPkt;
  gs_meta : gmap string ChannelMeta
}.
Definition GwState_new : GwState := mkGwState 1 ∅ ∅.
Definition with_meta (m : gmap string ChannelMeta) (s : GwState) : GwState := mkGwState (gs_seq s) (gs_pending s) m.
Definition with_pending (p : gmap string LogicPkt) (s : GwState) : GwState := mkGwState (gs_seq s) p (gs_meta s).

(** ** Calls *)

Inductive GEff : Type -> Type :=
| GDecode (token : string) : GEff (result Claims ProtocolError)
| GEncode (claims : Claims) : GEff (result string ProtocolError)
| GRevoked (jti : string) : GEff (result bool string)
| GTokenEpoch (account : string) : GEff (result Z string)
| GDeviceOk (account did : string) : GEff (result bool string)
| GTouch (account channel_id : string) : GEff (result unit string)
| GNow : GEff Z
| GWriteStatus (pkt : LogicPkt) : GEff (result unit GwError)
| GForward (service : string) (pkt : LogicPkt) : GEff (result unit string)
| GContainerPush (channel_id : string) (pkt : LogicPkt) : GEff (result unit string)
| GHandlePush (pkt : Packet) : GEff (result unit GwError)
| GClose (channel_id : string) : GEff unit
| GNextSeq : GEff Z
| GInsertMeta (channel_id : string) (m : ChannelMeta) : GEff unit
| GGetMeta (channel_id : string) : GEff (option ChannelMeta)
| GNoteError (channel_id : string) : GEff Z
| GClearErrors (channel_id : string) : GEff unit
| GRenewMeta (channel_id : string) (idle jwt : Z) : GEff unit
| GRemoveMeta (channel_id : string) : GEff unit
| GPutPending (channel_id : string) (pkt : LogicPkt) : GEff unit
| GTakePending (channel_id : string) : GEff (option LogicPkt).

Abbreviation GProc := (Prog GEff).

(** The critical sections. *)
Definition next_seq (s : GwState) : GwState * Z :=
  (mkGwState ((gs_seq s + 1) mod 2 ^ 64) (gs_pending s) (gs_meta s), gs_seq s).
Definition note_revoke_error (channel_id : string) (s : GwState) : GwState * Z :=
  match gs_meta s !! channel_id with
  | Some m => let n := Z.min u32_max (cm_revoke_errors m + 1) in
              (with_meta (<[channel_id := with_errors n m]> (gs_meta s)) s, n)
  | None => (s, HEARTBEAT_REVOKE_ERROR_GRACE)
  end.
Definition clear_revoke_errors (channel_id : string) (s : GwState) : GwState :=
  with_meta (alter (with_errors 0) channel_id (gs_meta s)) s.
Definition renew_meta (channel_id : string) (idle jwt : Z) (s : GwState) : GwState :=
  with_meta (alter (fun m => with_jwt jwt (with_idle idle m)) channel_id (gs_meta s)) s.
Definition remove_meta (channel_id : string) (s : GwState) : GwState :=
  with_meta (delete channel_id (gs_meta s)) s.

(** What a call does to the state; the answer of the others is given. *)
Definition local {X} (e : GEff X) (s : GwState) : X -> GwState * X :=
  match e in GEff X return X -> GwState * X with
  | GNextSeq => fun _ => next_seq s
  | GInsertMeta id m => fun _ => (with_meta (<[id := m]> (gs_meta s)) s, tt)
  | GGetMeta id => fun _ => (s, gs_meta s !! id)
  | GNoteError id => fun _ => note_revoke_error id s
  | GClearErrors id => fun _ => (clear_revoke_errors id s, tt)
  | GRenewMeta id idle jwt => fun _ => (renew_meta id idle jwt s, tt)
  | GRemoveMeta id => fun _ => (remove_meta id s, tt)
  | GPutPending id pkt => fun _ => (with_pending (<[id := pkt]> (gs_pending s)) s, tt)
  | GTakePending id => fun _ => (with_pending (delete id (gs_pending s)) s, gs_pending s !! id)
  | _ => fun x => (s, x)
  end.

(** ** Methods *)

Section gateway.
Context `{Prost} (cfg : GatewayConfig).

(** token.rs [parse]. *)
Definition parse_token (token : string) : GProc (result Claims ProtocolError) :=
  r ← call (GDecode token);
  Ret (let? claims := r in let? _ := check_account (cl_account claims) in Ok claims).

Definition status_packet (h : Header) (status : Status) : LogicPkt :=
  let pkt := LogicPkt_new_from h in
  mkLogicPkt (h_with_flag Response (h_with_status status (l_header pkt))) (l_body pkt).

(** [write_status(..).await?; return Err(Error::Handshake(..))]. *)
Definition refuse {A} (h : Header) (status : Status) (why : string) : GProc (result A GwError) :=
  r ← call (GWriteStatus (status_packet h status));
  Ret (Err (match r with Err e => e | Ok _ => Handshake why end)).

Definition channel_id_of (account : string) (n : Z) : string :=
  (gc_id cfg ++ "_" ++ account ++ "_" ++ nat_to_dec n)%string.
Definition generate_channel_id (account : string) : GProc string :=
  n ← call GNextSeq; Ret (channel_id_of account n).

Definition insert_meta (channel_id : string) (m : ChannelMeta) : GProc unit :=
  now ← call GNow;
  call (GInsertMeta channel_id (with_idle (sat_i64 (now + gc_ttl_secs cfg)) m)).

(** The checks of a token: [None] lets it pass. *)
Definition check_epoch (h : Header) (claims : Claims) {A} (k : GProc (result A GwError)) : GProc (result A GwError) :=
  r ← call (GTokenEpoch (cl_account claims));
  match r with
  | Ok epoch => if cl_ver claims <? epoch then refuse h Unauthorized "revoked" else k
  | Err _ => refuse h Unauthorized "revoke check failed"
  end.
Definition check_revoked (h : Header) (jti : option string) {A} (k : GProc (result A GwError)) : GProc (result A GwError) :=
  match jti with
  | None => k
  | Some jti =>
    r ← call (GRevoked jti);
    match r with
    | Ok true => refuse h Unauthorized "revoked"
    | Ok false => k
    | Err _ => refuse h Unauthorized "revoke check failed"
    end
  end.
Definition check_device (h : Header) (claims : Claims) (did : option string) (cred : string)
  {A} (k : GProc (result A GwError)) : GProc (result A GwError) :=
  if bool_decide (did = None) && str_is_empty cred then k
  else match did with
  | None => refuse h Unauthorized "unauthorized"
  | Some did =>
    r ← call (GDeviceOk (cl_account claims) did);
    match r with
    | Ok true => k
    | Ok false => refuse h Unauthorized "unauthorized"
    | Err _ => refuse h Unauthorized "revoke check failed"
    end
  end.
Definition check_token (h : Header) (claims : Claims) (jti did : option string) (cred : string)
  {A} (k : GProc (result A GwError)) : GProc (result A GwError) :=
  if bool_decide (jti <> None) || bool_decide (did <> None) || negb (str_is_empty cred) then
    if negb (gc_revoke cfg) then refuse h Unauthorized "revoke store required"
    else check_revoked h jti (check_epoch h claims (check_device h claims did cred k))
  else if gc_revoke cfg then check_epoch h claims k else k.

(** The session of a sign-in. *)
Definition accept_session (id : string) (claims : Claims) (remote_ip device jti did : string) : Session :=
  mkSession id (gc_id cfg) (cl_account claims) "" "" remote_ip device (cl_app claims) [] jti did.

(** The accepted connection: its id, and its sign-in kept until it is ready. *)
Definition accepted (pkt : LogicPkt) (claims : Claims) (remote_ip device jti did : string)
  : GProc (result string GwError) :=
  id ← generate_channel_id (cl_account claims);
  let pkt := mkLogicPkt (h_with_channel_id id (l_header pkt)) (l_body pkt) in
  let pkt := write_body pkt (accept_session id claims remote_ip device jti did) in
  _ ← insert_meta id (ChannelMeta_new (cl_app claims) (cl_account claims) jti (cl_ver claims) did (cl_exp claims));
  _ ← call (GPutPending id pkt);
  Ret (Ok id).

(** [frame] is what arrived within the time limit. *)
Definition accept (remote_ip : string) (frame : result bytes GwError) : GProc (result string GwError) :=
  match frame with
  | Err e => Ret (Err e)
  | Ok payload =>
    match read_logic payload with
    | Err _ => Ret (Err (Handshake "expected login.signin"))
    | Ok pkt =>
      let h := l_header pkt in
      if negb (bool_decide (h_command h = CMD_LOGIN_SIGN_IN)) then refuse h InvalidCommand "invalid command"
      else match read_body (T := LoginReq) pkt with
      | Err _ => refuse h InvalidPacketBody "invalid packet body"
      | Ok req =>
        parsed ← parse_token (login_req_token req);
        match parsed with
        | Err _ => refuse h Unauthorized "unauthorized"
        | Ok claims =>
          if negb (bool_decide (cl_app claims = ALLOWED_APP)) then refuse h Unauthorized "app not allowed"
          else
            let jti := trimmed (cl_jti claims) in
            if gc_require_jti cfg && bool_decide (jti = None) then refuse h Unauthorized "unauthorized"
            else
              let did := trimmed (cl_did claims) in
              check_token h claims jti did (str_trim (login_req_device_credential req))
                (accepted pkt claims remote_ip (login_req_device req)
                   (default ""%string jti) (default ""%string did))
        end
      end
    end
  end.

Definition on_accept_abandoned (channel_id : string) : GProc unit :=
  _ ← call (GTakePending channel_id); call (GRemoveMeta channel_id).

Definition inject_meta (pkt : LogicPkt) : GProc LogicPkt :=
  m ← call (GGetMeta (h_channel_id (l_header pkt)));
  Ret (match m with
       | Some m => set_meta META_ACCOUNT (cm_account m) (set_meta META_APP (cm_app m) pkt)
       | None => pkt
       end).

Definition forward_logic (service : string) (pkt : LogicPkt) : GProc (result unit GwError) :=
  pkt ← inject_meta pkt;
  r ← call (GForward service pkt);
  Ret (match r with Ok _ => Ok tt | Err e => Err (GwOther e) end).

Definition on_channel_ready (channel_id : string) : GProc (result unit GwError) :=
  pkt ← call (GTakePending channel_id);
  match pkt with
  | None => Ret (Err (GwOther "pending login missing"))
  | Some pkt =>
    let resp := status_packet (l_header pkt) ServiceUnavailable in
    r ← forward_logic SN_LOGIN pkt;
    match r with
    | Err err =>
      _ ← call (GRemoveMeta channel_id);
      _ ← call (GContainerPush channel_id resp);
      Ret (Err err)
    | Ok _ => Ret (Ok tt)
    end
  end.

Definition disconnect (channel_id : string) : GProc (result unit GwError) :=
  let logout := LogicPkt_new CMD_LOGIN_SIGN_OUT 0 [] in
  _ ← forward_logic SN_LOGIN (mkLogicPkt (h_with_channel_id channel_id (l_header logout)) (l_body logout));
  _ ← call (GRemoveMeta channel_id);
  Ret (Ok tt).

(** *** heartbeat *)

Definition close_now (channel_id : string) : GProc unit :=
  if gc_server cfg then call (GClose channel_id) else Ret tt.

(** A check of the store failed: whether the heartbeat goes on, without renewal. *)
Definition revoke_error {A} (channel_id : string) (k : bool -> GProc (result A unit)) : GProc (result A unit) :=
  consecutive ← call (GNoteError channel_id);
  if HEARTBEAT_REVOKE_ERROR_GRACE <=? consecutive then _ ← close_now channel_id; Ret (Err tt) else k true.
Definition closed {A} (channel_id : string) : GProc (result A unit) :=
  _ ← close_now channel_id; Ret (Err tt).

Definition beat_revoked {A} (id : string) (m : ChannelMeta) (k : bool -> GProc (result A unit)) : GProc (result A unit) :=
  if str_is_empty (cm_jti m) then k false
  else
    r ← call (GRevoked (cm_jti m));
    match r with
    | Ok true => closed id
    | Ok false => _ ← call (GClearErrors id); k false
    | Err _ => revoke_error id k
    end.
Definition beat_epoch {A} (id : string) (m : ChannelMeta) (skip : bool) (k : bool -> GProc (result A unit))
  : GProc (result A unit) :=
  r ← call (GTokenEpoch (cm_account m));
  match r with
  | Ok epoch => if cm_ver m <? epoch then closed id else k skip
  | Err _ => revoke_error id k
  end.
Definition beat_device {A} (id : string) (m : ChannelMeta) (skip : bool) (k : bool -> GProc (result A unit))
  : GProc (result A unit) :=
  if str_is_empty (cm_did m) then k skip
  else
    r ← call (GDeviceOk (cm_account m) (cm_did m));
    match r with
    | Ok true => k skip
    | Ok false => closed id
    | Err _ => revoke_error id k
    end.

Definition renew_packet (id token account did : string) (exp : Z) : LogicPkt :=
  let pkt := LogicPkt_new CMD_LOGIN_RENEW 0 [] in
  write_body (mkLogicPkt (h_with_channel_id id (h_with_flag PushFlag (l_header pkt))) (l_body pkt))
    (mkAuthResp token exp account did "").

(** [generate_with_device]. *)
Definition generate_token (account app : string) (exp : Z) (jti : string) (ver : Z) (did : option string)
  : GProc (result string ProtocolError) :=
  match device_claims account app exp jti ver did with
  | Err e => Ret (Err e)
  | Ok claims => call (GEncode claims)
  end.

Definition beat_renew (id : string) (m : ChannelMeta) (skip_renew : bool) : GProc (result (option LogicPkt) unit) :=
  now ← call GNow;
  if (0 <? cm_idle_exp m) && (cm_idle_exp m <=? now) then closed id
  else
    let next_idle := sat_i64 (now + gc_ttl_secs cfg) in
    let remaining := sat_i64 (cm_jwt_exp m - now) in
    let half := gc_ttl_secs cfg / 2 in
    let renew := (remaining <? half) && negb (str_is_empty (cm_jti m)) && negb skip_renew in
    let next_jwt := if renew then next_idle else cm_jwt_exp m in
    _ ← call (GRenewMeta id next_idle next_jwt);
    _ ← (if gc_redis cfg then _ ← call (GTouch (cm_account m) id); Ret tt else Ret tt);
    if negb renew then Ret (Ok None)
    else
      token ← generate_token (cm_account m) (cm_app m) next_jwt (cm_jti m) (cm_ver m)
                (if str_is_empty (cm_did m) then None else Some (cm_did m));
      match token with
      | Ok token => Ret (Ok (Some (renew_packet id token (cm_account m) (cm_did m) next_jwt)))
      | Err _ => Ret (Ok None)
      end.

Definition heartbeat (id : string) : GProc (result (option LogicPkt) unit) :=
  meta ← call (GGetMeta id);
  match meta with
  | None => Ret (Ok None)
  | Some m =>
    if gc_revoke cfg then
      beat_revoked id m (fun skip => beat_epoch id m skip (fun skip => beat_device id m skip (fun skip =>
        beat_renew id m skip)))
    else beat_renew id m false
  end.

(** *** receive *)

Definition receive (id : string) (payload : bytes) : GProc unit :=
  match read payload with
  | Err _ => Ret tt
  | Ok (Basic p) =>
    if b_code p =? CODE_PING then
      renew ← heartbeat id;
      match renew with
      | Err _ => Ret tt
      | Ok renew =>
        _ ← call (GHandlePush (Basic BasicPkt_pong));
        match renew with
        | Some pkt => _ ← call (GHandlePush (Logic pkt)); Ret tt
        | None => Ret tt
        end
      end
    else Ret tt
  | Ok (Logic logic) =>
    let logic := mkLogicPkt (h_with_channel_id id (l_header logic)) (l_body logic) in
    r ← forward_logic (LogicPkt_service_name logic) logic;
    match r with
    | Ok _ => Ret tt
    | Err _ => _ ← call (GHandlePush (Logic (status_packet (l_header logic) ServiceUnavailable))); Ret tt
    end
  end.
End gateway.

(** ** Hooks and addresses *)

(** Whether [KickHook] closes the channel after a push to it. *)
Definition kick_closes `{Prost} (channel_id : string) (pkt : LogicPkt) : bool :=
  (h_flag (l_header pkt) =? Flag_as_i32 PushFlag) && bool_decide (h_command (l_header pkt) = CMD_LOGIN_SIGN_IN)
  && match read_body pkt with
     | Ok notify => bool_decide (ko_channel_id notify = channel_id)
     | Err _ => false
     end.
