(* ===== verification/GatewaySpec.v ===== *)
(** What the gateway guarantees of sign-ins, of what it forwards and of heartbeats. *)

From S2P Require Import Prelude Prog Tasks Wire Pkt Msgs Interest Gateway.
From stdpp Require Import gmap.
Open Scope Z_scope.
Open Scope kim_scope.

Abbreviation GEvent := (EventOf GEff).

(** ** Sign-in *)

(** Calls that change nothing at the gateway. *)
Definition asks {X} (e : GEff X) : bool :=
  match e with
  | GDecode _ | GRevoked _ | GTokenEpoch _ | GDeviceOk _ _ | GNow | GGetMeta _ => true
  | _ => false
  end.
Definition asking (tr : list GEvent) : Prop := Forall (fun ev => match ev with Ev e _ => asks e = true end) tr.

Lemma asking_app tr tr' : asking (tr ++ tr') <-> asking tr /\ asking tr'.
Proof. apply list.Forall_app. Qed.
Lemma asking_cons {X} (e : GEff X) x tr : asks e = true -> asking tr -> asking (Ev e x :: tr).
Proof. by constructor. Qed.

(** A refusal: questions, then one status other than [Success]. *)
Definition turned_away {A} (tr : list GEvent) (r : result A GwError) : Prop :=
  exists q pkt sent e, tr = q ++ [Ev (GWriteStatus pkt) sent] /\ asking q /\ r = Err e /\
    h_flag (l_header pkt) = Flag_as_i32 Response /\ h_status (l_header pkt) <> Status_as_i32 Success.

Lemma turned_away_cons {A X} (e : GEff X) x tr (r : result A GwError) :
  asks e = true -> turned_away tr r -> turned_away (Ev e x :: tr) r.
Proof.
  intros He (q & pkt & sent & err & -> & Hq & -> & Hf & Hs).
  exists (Ev e x :: q), pkt, sent, err. split_and!; try done. by apply asking_cons.
Qed.

Lemma turned_away_app {A} tr tr' (r : result A GwError) :
  asking tr -> turned_away tr' r -> turned_away (tr ++ tr') r.
Proof. intros Hq Ht. induction Hq as [|[X e x] tr He Hq IH]; [done|]. by apply turned_away_cons. Qed.

Section checks.
Context `{Prost} (cfg : GatewayConfig).

Lemma refuse_turns_away {A} h status why : status <> Success -> sat (refuse (A := A) h status why) turned_away.
Proof.
  intros Hs r. eexists [], _, r, _. split_and!; [done|constructor|done|done|].
  by destruct status.
Qed.

(** The questions that let a token pass. *)
Record passes (claims : Claims) (jti did : option string) (cred : string) (tr : list GEvent) : Prop := {
  pass_asking : asking tr;
  pass_revoke : jti <> None \/ did <> None \/ cred <> ""%string -> gc_revoke cfg = true;
  pass_jti : forall j, jti = Some j -> Ev (GRevoked j) (Ok false) ∈ tr;
  pass_epoch : gc_revoke cfg = true ->
    exists epoch, Ev (GTokenEpoch (cl_account claims)) (Ok epoch) ∈ tr /\ epoch <= cl_ver claims;
  pass_did : forall d, did = Some d -> Ev (GDeviceOk (cl_account claims) d) (Ok true) ∈ tr;
  pass_cred : cred <> ""%string -> did <> None
}.

(** [p] goes on as [k] after questions that are in [W], or turns the client away. *)
Definition step_ok (W : list GEvent -> Prop) {A} (p k : GProc (result A GwError)) : Prop :=
  forall P : list GEvent -> result A GwError -> Prop,
    (forall tr, asking tr -> W tr -> sat k (fun tr' => P (tr ++ tr'))) ->
    (forall tr r, turned_away tr r -> P tr r) -> sat p P.

Section step_ok.
Context {A : Type}.
Implicit Types (p k : GProc (result A GwError)) (W : list GEvent -> Prop).

Lemma step_ok_skip W k : W [] -> step_ok W k k.
Proof. intros HW P Hk Hr. apply (Hk []); [constructor|done]. Qed.

Lemma step_ok_refuse W h status why k : status <> Success -> step_ok W (refuse h status why) k.
Proof. intros Hs P Hk Hr. eapply sat_mono; [|by apply refuse_turns_away]. exact Hr. Qed.

Lemma step_ok_call {X} (e : GEff X) f W k :
  asks e = true -> (forall x, step_ok (fun tr => W (Ev e x :: tr)) (f x) k) -> step_ok W (call e ≫= f) k.
Proof.
  intros He Hf P Hk Hr. apply sat_call. intros x. apply Hf; [|intros; by apply Hr, turned_away_cons].
  intros tr Hq HW. apply (Hk (Ev e x :: tr)); [by apply asking_cons|done].
Qed.

Lemma step_ok_comp W1 W2 p p' k :
  step_ok W1 p p' -> step_ok W2 p' k ->
  step_ok (fun tr => exists tr1 tr2, tr = tr1 ++ tr2 /\ W1 tr1 /\ W2 tr2) p k.
Proof.
  intros H1 H2 P Hk Hr. apply H1; [|done]. intros tr1 Hq1 HW1. apply H2; [|intros; by apply Hr, turned_away_app].
  intros tr2 Hq2 HW2. eapply sat_mono; [|apply (Hk (tr1 ++ tr2)); [by apply asking_app|by exists tr1, tr2]].
  intros tr r. cbn beta. by rewrite app_assoc.
Qed.

Lemma step_ok_mono W W' p k : (forall tr, asking tr -> W tr -> W' tr) -> step_ok W p k -> step_ok W' p k.
Proof. intros HW Hs P Hk Hr. apply Hs; [|done]. intros tr Hq Hw. apply Hk; auto. Qed.

Lemma check_epoch_ok h claims k :
  step_ok (fun tr => exists epoch, Ev (GTokenEpoch (cl_account claims)) (Ok epoch) ∈ tr /\ epoch <= cl_ver claims)
    (check_epoch h claims k) k.
Proof.
  apply step_ok_call; [done|]. intros [epoch|e]; [|by apply step_ok_refuse].
  destruct (Z.ltb_spec (cl_ver claims) epoch); [by apply step_ok_refuse|].
  apply step_ok_skip. exists epoch. split; [left|lia].
Qed.

Lemma check_revoked_ok h jti k :
  step_ok (fun tr => forall j, jti = Some j -> Ev (GRevoked j) (Ok false) ∈ tr) (check_revoked h jti k) k.
Proof.
  destruct jti as [j|]; [|by apply step_ok_skip]. apply step_ok_call; [done|].
  intros [[]|e]; [by apply step_ok_refuse| |by apply step_ok_refuse]. apply step_ok_skip. intros ? [= <-]. left.
Qed.

Lemma check_device_ok h claims did cred k :
  step_ok (fun tr => (forall d, did = Some d -> Ev (GDeviceOk (cl_account claims) d) (Ok true) ∈ tr) /\
                     (cred <> ""%string -> did <> None)) (check_device h claims did cred k) k.
Proof.
  unfold check_device. destruct did as [d|]; cbn [andb].
  - rewrite bool_decide_eq_false_2 by done. cbn [andb]. apply step_ok_call; [done|].
    intros [[]|e]; [|by apply step_ok_refuse..]. apply step_ok_skip. split; [intros ? [= <-]; left|done].
  - rewrite bool_decide_eq_true_2 by done. destruct cred; [by apply step_ok_skip|by apply step_ok_refuse].
Qed.

Lemma check_token_ok h claims jti did cred k :
  step_ok (passes claims jti did cred) (check_token cfg h claims jti did cred k) k.
Proof.
  unfold check_token.
  assert (Hcred : cred <> ""%string <-> negb (str_is_empty cred) = true) by (unfold str_is_empty; case_bool_decide; naive_solver).
  destruct (bool_decide (jti <> None) || bool_decide (did <> None) || negb (str_is_empty cred)) eqn:Et.
  - destruct (gc_revoke cfg) eqn:Ec; cbn [negb]; [|by apply step_ok_refuse].
    eapply step_ok_mono;
      [|eapply step_ok_comp; [apply check_revoked_ok|eapply step_ok_comp; [apply check_epoch_ok|apply check_device_ok]]].
    intros tr Hq (tr1 & ? & -> & Hj & tr2 & tr3 & -> & (epoch & He & Hle) & Hd & Hc).
    split; [done..| | | |done]; [intros j Ej|intros _; exists epoch|intros d Ed]; rewrite ?elem_of_app; naive_solver.
  - apply orb_false_iff in Et as [[Ej Ed]%orb_false_iff Hc]. apply bool_decide_eq_false in Ej, Ed.
    assert (Hn : ~ (jti <> None \/ did <> None \/ cred <> ""%string)) by (rewrite Hcred, Hc; naive_solver).
    assert (Hpass : forall tr, asking tr -> (gc_revoke cfg = true -> exists epoch,
      Ev (GTokenEpoch (cl_account claims)) (Ok epoch) ∈ tr /\ epoch <= cl_ver claims) -> passes claims jti did cred tr).
    { intros tr Hq He. split; [done|by intros []%Hn|intros j ->|done|intros d ->|]; try naive_solver. }
    destruct (gc_revoke cfg) eqn:Ec; [eapply step_ok_mono; [|apply check_epoch_ok]; naive_solver|].
    apply step_ok_skip, Hpass; [constructor|done].
Qed.
End step_ok.
End checks.

(** The sign-in kept for a connection: the client's packet with the channel id and a
    session made of the token's claims. *)
Definition sign_in_packet `{Prost} (cfg : GatewayConfig) (pkt : LogicPkt) (claims : Claims) (remote_ip device id : string)
  : LogicPkt :=
  write_body (mkLogicPkt (h_with_channel_id id (l_header pkt)) (l_body pkt))
    (accept_session cfg id claims remote_ip device (default ""%string (trimmed (cl_jti claims)))
       (default ""%string (trimmed (cl_did claims)))).
Definition sign_in_meta (cfg : GatewayConfig) (claims : Claims) (now : Z) : ChannelMeta :=
  with_idle (sat_i64 (now + gc_ttl_secs cfg))
    (ChannelMeta_new (cl_app claims) (cl_account claims) (default ""%string (trimmed (cl_jti claims))) (cl_ver claims)
       (default ""%string (trimmed (cl_did claims))) (cl_exp claims)).

Section accept.
Context `{Prost} (cfg : GatewayConfig).

(** What was asked and stored when [accept] took a connection in. *)
Definition taken_in (remote_ip : string) (frame : result bytes GwError) (id : string) (tr : list GEvent) : Prop :=
  exists payload pkt req claims q n now u u',
    frame = Ok payload /\ read_logic payload = Ok pkt /\ h_command (l_header pkt) = CMD_LOGIN_SIGN_IN /\
    read_body pkt = Ok req /\
    check_account (cl_account claims) = Ok tt /\ cl_app claims = ALLOWED_APP /\
    (gc_require_jti cfg = true -> trimmed (cl_jti claims) <> None) /\
    passes cfg claims (trimmed (cl_jti claims)) (trimmed (cl_did claims)) (str_trim (login_req_device_credential req)) q /\
    id = channel_id_of cfg (cl_account claims) n /\
    tr = Ev (GDecode (login_req_token req)) (Ok claims) :: q ++
      [Ev GNextSeq n; Ev GNow now; Ev (GInsertMeta id (sign_in_meta cfg claims now)) u;
       Ev (GPutPending id (sign_in_packet cfg pkt claims remote_ip (login_req_device req) id)) u'].

Definition sign_in_end (remote_ip : string) (frame : result bytes GwError) (tr : list GEvent) (r : result string GwError) : Prop :=
  match r with
  | Ok id => taken_in remote_ip frame id tr
  | Err _ => tr = [] \/ turned_away tr r
  end.

Lemma sign_in_end_refused remote_ip frame tr r : turned_away tr r -> sign_in_end remote_ip frame tr r.
Proof. intros Ht. pose proof Ht as (? & ? & ? & ? & _ & _ & -> & _). by right. Qed.

Lemma refuse_end remote_ip frame pre h st why : asking pre -> st <> Success ->
  sat (refuse h st why) (fun tr => sign_in_end remote_ip frame (pre ++ tr)).
Proof.
  intros Hq Hs. eapply sat_mono; [|by apply refuse_turns_away]. intros tr r Ht.
  by apply sign_in_end_refused, turned_away_app.
Qed.

Lemma accept_sat remote_ip frame : sat (accept cfg remote_ip frame) (sign_in_end remote_ip frame).
Proof.
  unfold accept. destruct frame as [payload|e]; [|by left].
  destruct (read_logic payload) as [pkt|e] eqn:Er; [|by left].
  destruct (bool_decide_reflect (h_command (l_header pkt) = CMD_LOGIN_SIGN_IN)) as [Ec|_]; cbn [negb];
    [|by apply (refuse_end _ _ []); [constructor|]].
  destruct (read_body pkt) as [req|e] eqn:Eb; [|by apply (refuse_end _ _ []); [constructor|]].
  set (de := GDecode (login_req_token req)).
  intros r0. assert (Hq : asking [Ev de r0]) by (by apply asking_cons; [|constructor]).
  destruct r0 as [claims|e]; [|by apply (refuse_end _ _ [_])]. cbn [try_bind mbind Prog_bind].
  destruct (check_account (cl_account claims)) as [[]|e] eqn:Ea; [|by apply (refuse_end _ _ [_])]. cbn [try_bind].
  destruct (bool_decide_reflect (cl_app claims = ALLOWED_APP)) as [Eapp|_]; cbn [negb]; [|by apply (refuse_end _ _ [_])].
  destruct (gc_require_jti cfg && bool_decide (trimmed (cl_jti claims) = None)) eqn:Ej; [by apply (refuse_end _ _ [_])|].
  apply check_token_ok; [|intros tr r Ht; by apply sign_in_end_refused, turned_away_cons].
  intros q _ Hp n now u u'. exists payload, pkt, req, claims, q, n, now, u, u'.
  split_and!; try done. intros Ereq. rewrite Ereq in Ej. by apply bool_decide_eq_false in Ej.
Qed.
End accept.

(** ** Forwarding *)

(** The packet of a client as it leaves the gateway. *)
Definition stamped (id : string) (m : option ChannelMeta) (p : LogicPkt) : LogicPkt :=
  let p := mkLogicPkt (h_with_channel_id id (l_header p)) (l_body p) in
  match m with
  | Some m => set_meta META_ACCOUNT (cm_account m) (set_meta META_APP (cm_app m) p)
  | None => p
  end.

Lemma stamped_same id m p : l_body (stamped id m p) = l_body p /\ h_channel_id (l_header (stamped id m p)) = id /\
  h_command (l_header (stamped id m p)) = h_command (l_header p) /\
  h_sequence (l_header (stamped id m p)) = h_sequence (l_header p) /\
  h_dest (l_header (stamped id m p)) = h_dest (l_header p) /\
  h_flag (l_header (stamped id m p)) = h_flag (l_header p).
Proof. by destruct m. Qed.

Lemma stamped_meta id m p : get_meta META_ACCOUNT (stamped id (Some m) p) = Some (cm_account m) /\
  get_meta META_APP (stamped id (Some m) p) = Some (cm_app m).
Proof. unfold stamped. split; [apply get_meta_set_meta_eq|]. by rewrite get_meta_set_meta_ne, get_meta_set_meta_eq. Qed.

(** No sign-in can be addressed to the chat service by its command. *)
Lemma chat_command_no_sign_in command : service_name command = SN_LOGIN -> parse command <> Some LoginSignIn.
Proof.
  intros Hs Hp. apply parse_from_Some in Hp as [Hp _]. subst command. by destruct (service_name_login LoginSignIn) as [_ []]; [left|].
Qed.

Section receive.
Context `{Prost} (cfg : GatewayConfig).

Lemma forward_logic_exec service pkt tr r : exec (forward_logic service pkt) tr r ->
  exists m x, r = (match x with Ok _ => Ok tt | Err e => Err (GwOther e) end) /\
    tr = [Ev (GGetMeta (h_channel_id (l_header pkt))) m; 
          Ev (GForward service (match m with
             | Some m => set_meta META_ACCOUNT (cm_account m) (set_meta META_APP (cm_app m) pkt) | None => pkt end)) x].
Proof.
  intros (m & ? & -> & (x & ? & -> & [-> ->]%exec_inv)%exec_call_inv)%exec_call_inv. by exists m, x.
Qed.

Lemma receive_logic_exec id payload p tr a : read payload = Ok (Logic p) -> exec (receive cfg id payload) tr a ->
  exists m sent rest, tr = Ev (GGetMeta id) m :: Ev (GForward (LogicPkt_service_name p) (stamped id m p)) sent :: rest /\
    match sent with
    | Ok _ => rest = []
    | Err _ => exists x, rest =
        [Ev (GHandlePush (Logic (status_packet (h_with_channel_id id (l_header p)) ServiceUnavailable))) x]
    end.
Proof.
  intros Hr He. unfold receive in He. rewrite Hr in He.
  apply exec_bind_inv in He as (tr1 & r & tr2 & -> & (m & sent & -> & ->)%forward_logic_exec & He).
  exists m, sent, tr2. split; [by destruct m|]. destruct sent as [u|e].
  - by apply exec_inv in He as [-> _].
  - apply exec_call_inv in He as (x & ? & -> & [-> _]%exec_inv). by exists x.
Qed.
End receive.

(** ** Heartbeats *)

(** The answers with which a heartbeat may go on. *)
Definition fine (m : ChannelMeta) (ev : GEvent) : Prop :=
  match ev with @Ev _ X e x => match e in GEff X return X -> Prop with
  | GRevoked _ => fun x => x <> Ok true
  | GTokenEpoch _ => fun x => forall epoch, x = Ok epoch -> epoch <= cm_ver m
  | GDeviceOk _ _ => fun x => x <> Ok false
  | GNow => fun now => cm_idle_exp m <= 0 \/ now < cm_idle_exp m
  | GClose _ => fun _ => False
  | _ => fun _ => True
  end x end.
(** The answers with which it may renew the token, too. *)
Definition answered (ev : GEvent) : Prop :=
  match ev with @Ev _ X e x => match e in GEff X return X -> Prop with
  | GRevoked _ => fun x => is_ok x = true
  | GTokenEpoch _ => fun x => is_ok x = true
  | GDeviceOk _ _ => fun x => is_ok x = true
  | _ => fun _ => True
  end x end.
(** The token a renewal signs is for the same account, app and device, not weaker. *)
Definition renews (m : ChannelMeta) (ev : GEvent) : Prop :=
  match ev with @Ev _ X e x => match e in GEff X return X -> Prop with
  | GEncode c => fun _ => cl_account c = cm_account m /\ cl_app c = cm_app m /\ cl_ver c = cm_ver m /\
      cl_jti c = trimmed (Some (cm_jti m)) /\
      cl_did c = trimmed (if str_is_empty (cm_did m) then None else Some (cm_did m)) /\ cm_jti m <> ""%string
  | _ => fun _ => True
  end x end.
Definition signs (ev : GEvent) : bool := match ev with Ev e _ => match e with GEncode _ => true | _ => false end end.

Section heartbeat.
Context `{Prost} (cfg : GatewayConfig) (id : string) (m : ChannelMeta).

(** What one run of the checks, or of all, may end with. *)
Definition beat_end (skip : bool) (tr : list GEvent) (r : result (option LogicPkt) unit) : Prop :=
  match r with
  | Ok _ => Forall (fine m) tr /\ Forall (renews m) tr /\
            (existsb signs tr = true -> skip = false /\ Forall answered tr)
  | Err _ => exists tr', tr = tr' ++ (if gc_server cfg then [Ev (GClose id) tt] else []) /\
            existsb signs tr = false
  end.

Lemma closed_sat : sat (closed (A := option LogicPkt) cfg id)
  (fun tr r => r = Err tt /\ tr = if gc_server cfg then [Ev (GClose id) tt] else []).
Proof. unfold closed, close_now. by destruct (gc_server cfg); [intros []|]. Qed.

Lemma closed_end skip : sat (closed (A := option LogicPkt) cfg id) (beat_end skip).
Proof.
  eapply sat_mono; [|apply closed_sat]. intros tr r [-> ->]. exists []. split; [done|]. by destruct (gc_server cfg).
Qed.

Lemma beat_end_cons {X} skip (e : GEff X) x tr r :
  fine m (Ev e x) -> answered (Ev e x) -> signs (Ev e x) = false -> renews m (Ev e x) ->
  beat_end skip tr r -> beat_end skip (Ev e x :: tr) r.
Proof.
  intros Hf Ha Hs Hr. unfold beat_end. destruct r as [o|[]].
  - intros (H1 & H2 & H3). cbn [existsb]. rewrite Hs. split_and!; [by constructor..|].
    intros [? ?]%H3. split; [done|by constructor].
  - intros (tr' & -> & Hn). exists (Ev e x :: tr'). split; [done|]. cbn [existsb app]. by rewrite Hs.
Qed.

(** After a failed check there is no renewal. *)
Lemma beat_end_skip {X} skip (e : GEff X) x tr r :
  fine m (Ev e x) -> signs (Ev e x) = false -> renews m (Ev e x) ->
  beat_end true tr r -> beat_end skip (Ev e x :: tr) r.
Proof.
  intros Hf Hs Hr. unfold beat_end. destruct r as [o|[]].
  - intros (H1 & H2 & H3). cbn [existsb]. rewrite Hs. split_and!; [by constructor..|]. by intros [? ?]%H3.
  - intros (tr' & -> & Hn). exists (Ev e x :: tr'). split; [done|]. cbn [existsb app]. by rewrite Hs.
Qed.

Lemma ends_unsigned {X} skip (e : GEff X) x : signs (Ev e x) = false ->
  sat (closed (A := option LogicPkt) cfg id) (fun tr => beat_end skip (Ev e x :: tr)).
Proof.
  intros Hs. eapply sat_mono; [|apply closed_sat]. intros tr r [-> ->]. exists [Ev e x]. split; [done|].
  cbn [existsb app]. rewrite Hs. by destruct (gc_server cfg).
Qed.

(** A check of the store that failed. *)
Lemma revoke_error_end {X} skip (e : GEff X) x k :
  fine m (Ev e x) -> signs (Ev e x) = false -> renews m (Ev e x) ->
  sat (k true) (beat_end true) -> sat (revoke_error cfg id k) (fun tr => beat_end skip (Ev e x :: tr)).
Proof.
  intros Hf Hs Hr Hk. apply sat_call. intros n. destruct (HEARTBEAT_REVOKE_ERROR_GRACE <=? n).
  - eapply sat_mono; [|apply closed_sat]. intros tr r [-> ->]. exists [Ev e x; Ev (GNoteError id) n]. split; [done|].
    cbn [existsb app]. rewrite Hs. by destruct (gc_server cfg).
  - eapply sat_mono; [|exact Hk]. intros tr r He. by apply beat_end_skip, beat_end_cons.
Qed.

Lemma beat_revoked_end k : (forall skip, sat (k skip) (beat_end skip)) -> sat (beat_revoked cfg id m k) (beat_end false).
Proof.
  intros Hk. unfold beat_revoked. destruct (str_is_empty _); [apply Hk|]. apply sat_call.
  intros [[]|e]; [by apply ends_unsigned| |by apply revoke_error_end]. apply sat_call. intros u.
  eapply sat_mono; [|apply Hk]. intros tr r He. apply beat_end_cons; [done..|]. by apply beat_end_cons.
Qed.

Lemma beat_epoch_end skip k : (forall skip, sat (k skip) (beat_end skip)) -> sat (beat_epoch cfg id m skip k) (beat_end skip).
Proof.
  intros Hk. apply sat_call. intros [epoch|e]; [|by apply revoke_error_end].
  destruct (Z.ltb_spec (cm_ver m) epoch); [by apply ends_unsigned|].
  eapply sat_mono; [|apply Hk]. intros tr r He. apply beat_end_cons; try done. intros ? [= <-]. lia.
Qed.

Lemma beat_device_end skip k : (forall skip, sat (k skip) (beat_end skip)) -> sat (beat_device cfg id m skip k) (beat_end skip).
Proof.
  intros Hk. unfold beat_device. destruct (str_is_empty _); [apply Hk|]. apply sat_call.
  intros [[]|e]; [|by apply ends_unsigned|by apply revoke_error_end].
  eapply sat_mono; [|apply Hk]. intros tr r He. by apply beat_end_cons.
Qed.

Lemma renew_token_end exp : cm_jti m <> ""%string ->
  sat (token ← generate_token (cm_account m) (cm_app m) exp (cm_jti m) (cm_ver m)
         (if str_is_empty (cm_did m) then None else Some (cm_did m));
       match token with
       | Ok token => Ret (Ok (Some (renew_packet id token (cm_account m) (cm_did m) exp)))
       | Err _ => Ret (Ok None)
       end) (beat_end false).
Proof.
  intros Hj. unfold generate_token, device_claims.
  destruct (check_account (cm_account m)) as [[]|e]; cbn [try_bind]; [|by repeat constructor].
  intros [token|e]; (split_and!; [by repeat constructor..|]); intros _; (split; [done|by repeat constructor]).
Qed.

Lemma beat_renew_end skip : sat (beat_renew cfg id m skip) (beat_end skip).
Proof.
  apply sat_call. intros now. destruct ((0 <? cm_idle_exp m) && (cm_idle_exp m <=? now)) eqn:Ei; [by apply ends_unsigned|].
  assert (Hi : fine m (Ev GNow now)) by (cbn; apply andb_false_iff in Ei as [?|?]; blia).
  cbv zeta. match goal with |- context [if ?b then sat_i64 _ else _] => destruct b eqn:Er end; cbn [negb].
  2: { apply sat_call. intros u. destruct (gc_redis cfg); [intros r|]; repeat (apply beat_end_cons; [done..|]); by repeat constructor. }
  apply andb_true_iff in Er as [[_ Hj]%andb_true_iff Hs]. apply negb_true_iff in Hj, Hs. subst skip.
  apply bool_decide_eq_false in Hj. apply sat_call. intros u. destruct (gc_redis cfg); [intros r|];
    (eapply sat_mono; [|by apply renew_token_end]); intros tr a He; repeat (apply beat_end_cons; [done..|]); exact He.
Qed.

Lemma checks_end (revoke : bool) : sat
  (if revoke then beat_revoked cfg id m (fun skip => beat_epoch cfg id m skip (fun skip => beat_device cfg id m skip (fun skip =>
     beat_renew cfg id m skip))) else beat_renew cfg id m false) (beat_end false).
Proof.
  destruct revoke; [|apply beat_renew_end].
  apply beat_revoked_end. intros s1. apply beat_epoch_end. intros s2. apply beat_device_end. intros s3. apply beat_renew_end.
Qed.

(** The checks are made. *)
Definition grows (W : list GEvent -> Prop) : Prop := forall ev tr, W tr -> W (ev :: tr).
Definition ok_then (W : list GEvent -> Prop) (tr : list GEvent) (r : result (option LogicPkt) unit) : Prop :=
  is_ok r = true -> W tr.

Lemma closed_asks W : sat (closed (A := option LogicPkt) cfg id) (ok_then W).
Proof. eapply sat_mono; [|apply closed_sat]. by intros tr r [-> _]. Qed.

Lemma ok_then_cons ev W tr r : grows W -> ok_then W tr r -> ok_then W (ev :: tr) r.
Proof. intros Hg Hw Hr. by apply Hg, Hw. Qed.

Lemma revoke_error_asks W k : grows W -> sat (k true) (ok_then W) -> sat (revoke_error cfg id k) (ok_then W).
Proof.
  intros Hg Hk. apply sat_call. intros n.
  destruct (HEARTBEAT_REVOKE_ERROR_GRACE <=? n); (eapply sat_mono; [intros tr r; by apply ok_then_cons|]);
    [apply closed_asks|done].
Qed.

(** One question, asked before anything else. *)
Lemma ask_first {X} (e : GEff X) W (f : X -> GProc (result (option LogicPkt) unit)) :
  grows W -> (forall x, sat (f x) (ok_then W)) ->
  sat (call e ≫= f) (ok_then (fun tr => (exists x, Ev e x ∈ tr) /\ W tr)).
Proof.
  intros Hg Hf. apply sat_call. intros x. eapply sat_mono; [|apply Hf]. intros tr r Hw Hr.
  split; [exists x; left|by apply Hg, Hw].
Qed.

Lemma grows_asked {X} (e : GEff X) W : grows W -> grows (fun tr => (exists x, Ev e x ∈ tr) /\ W tr).
Proof. intros Hg ev tr [[x Hx] Hw]. split; [exists x; by right|by apply Hg]. Qed.

Lemma beat_revoked_asks W k : grows W -> (forall s, sat (k s) (ok_then W)) ->
  sat (beat_revoked cfg id m k)
    (ok_then (fun tr => (cm_jti m <> ""%string -> exists x, Ev (GRevoked (cm_jti m)) x ∈ tr) /\ W tr)).
Proof.
  intros Hg Hk. unfold beat_revoked. destruct (str_is_empty (cm_jti m)) eqn:Ej.
  - apply bool_decide_eq_true in Ej. eapply sat_mono; [|apply Hk]. intros tr r Hw Hr. by split; [|apply Hw].
  - eapply sat_mono; [|eapply (ask_first _ W); [done|]]; [intros tr r Hw Hr; destruct (Hw Hr); by split|].
    intros [[]|e]; [apply closed_asks| |by apply revoke_error_asks].
    apply sat_call. intros u. eapply sat_mono; [|apply Hk]. intros tr r. by apply ok_then_cons.
Qed.

Lemma beat_epoch_asks W skip k : grows W -> (forall s, sat (k s) (ok_then W)) ->
  sat (beat_epoch cfg id m skip k) (ok_then (fun tr => (exists x, Ev (GTokenEpoch (cm_account m)) x ∈ tr) /\ W tr)).
Proof.
  intros Hg Hk. apply ask_first; [done|]. intros [epoch|e]; [|by apply revoke_error_asks].
  destruct (_ <? epoch); [apply closed_asks|apply Hk].
Qed.

Lemma beat_device_asks skip k : sat (beat_device cfg id m skip k)
  (ok_then (fun tr => cm_did m <> ""%string -> exists x, Ev (GDeviceOk (cm_account m) (cm_did m)) x ∈ tr)).
Proof.
  assert (Ht : forall p : GProc (result (option LogicPkt) unit), sat p (ok_then (fun _ => True))).
  { intros p. eapply sat_mono; [|apply exec_sat]. done. }
  unfold beat_device. destruct (str_is_empty (cm_did m)) eqn:Ed.
  - apply bool_decide_eq_true in Ed. eapply sat_mono; [|apply Ht]. intros tr r _ _. by rewrite Ed.
  - eapply sat_mono; [|eapply (ask_first _ (fun _ => True)); [done|intros x; apply Ht]].
    intros tr r Hw Hr _. by destruct (Hw Hr).
Qed.

(** All three questions, where they apply. *)
Definition all_asked (tr : list GEvent) : Prop :=
  (cm_jti m <> ""%string -> exists x, Ev (GRevoked (cm_jti m)) x ∈ tr) /\
  (exists x, Ev (GTokenEpoch (cm_account m)) x ∈ tr) /\
  (cm_did m <> ""%string -> exists x, Ev (GDeviceOk (cm_account m) (cm_did m)) x ∈ tr).

Lemma checks_ask : sat
  (beat_revoked cfg id m (fun skip => beat_epoch cfg id m skip (fun skip => beat_device cfg id m skip (fun skip =>
     beat_renew cfg id m skip)))) (ok_then all_asked).
Proof.
  assert (Hd : grows (fun tr => cm_did m <> ""%string -> exists x, Ev (GDeviceOk (cm_account m) (cm_did m)) x ∈ tr)).
  { intros ev tr Hw Hn. destruct (Hw Hn) as [x Hx]. exists x. by right. }
  apply beat_revoked_asks; [by apply grows_asked|]. intros s. apply beat_epoch_asks; [done|]. intros s'.
  apply beat_device_asks.
Qed.
End heartbeat.

(** *** A store that answers in part *)

(** A revoke store with fixed answers, at a fixed time; everything else succeeds. *)
Record StoreAnswers := mkStoreAnswers {
  sa_revoked : result bool string;
  sa_epoch : result Z string;
  sa_device : result bool string;
  sa_now : Z;
  sa_token : result Claims ProtocolError
}.
Definition store_answer (a : StoreAnswers) {X} (e : GEff X) : X :=
  match e in GEff X return X with
  | GDecode _ => sa_token a
  | GEncode _ => Ok "token"%string
  | GRevoked _ => sa_revoked a
  | GTokenEpoch _ => sa_epoch a
  | GDeviceOk _ _ => sa_device a
  | GTouch _ _ => Ok tt
  | GNow => sa_now a
  | GWriteStatus _ => Ok tt
  | GForward _ _ => Ok tt
  | GContainerPush _ _ => Ok tt
  | GHandlePush _ => Ok tt
  | GClose _ => tt
  | GNextSeq => 0
  | GInsertMeta _ _ => tt
  | GGetMeta _ => None
  | GNoteError _ => 0
  | GClearErrors _ => tt
  | GRenewMeta _ _ _ => tt
  | GRemoveMeta _ => tt
  | GPutPending _ _ => tt
  | GTakePending _ => None
  end.
Definition answering (a : StoreAnswers) X (e : GEff X) (s : GwState) : GwState * X := local e s (store_answer a e).

(** [n] heartbeats of a connection, up to the one that ends it: whether it is open. *)
Fixpoint beats `{Prost} (cfg : GatewayConfig) (id : string) (n : nat) : GProc bool :=
  match n with
  | O => Ret true
  | S n => r ← heartbeat cfg id; match r with Ok _ => beats cfg id n | Err _ => Ret false end
  end.

Section outages.
Context `{Prost} (cfg : GatewayConfig) (id : string) (now : Z).
Context (Hrevoke : gc_revoke cfg = true) (Httl : 0 < gc_ttl_secs cfg) (Hnow : 0 <= now < i64_max).

(** The connection as its heartbeat found it, with [n] errors noted. *)
Definition kept (m : ChannelMeta) (n : Z) (s : GwState) : Prop := exists m',
  gs_meta s !! id = Some m' /\ cm_revoke_errors m' = n /\ cm_jti m' = cm_jti m /\ cm_did m' = cm_did m /\
  (cm_idle_exp m' <= 0 \/ now < cm_idle_exp m').

Lemma note_kept m n s : kept m n s -> 0 <= n < u32_max ->
  (note_revoke_error id s).2 = n + 1 /\ kept m (n + 1) (note_revoke_error id s).1.
Proof.
  intros (m' & Hm & Hn & Hr) Hb. unfold note_revoke_error. rewrite Hm. cbn [fst snd]. subst n. split; [lia|].
  eexists. split; [apply lookup_insert_eq|]. split; [cbn; lia|done].
Qed.
Lemma clear_kept m n s : kept m n s -> kept m 0 (clear_revoke_errors id s).
Proof. intros (m' & Hm & _ & Hr). eexists. unfold clear_revoke_errors. cbn. by rewrite lookup_alter_eq, Hm. Qed.
Lemma renew_kept m n s jwt : kept m n s -> kept m n (renew_meta id (sat_i64 (now + gc_ttl_secs cfg)) jwt s).
Proof.
  intros (m' & Hm & Hn & Hj & Hd & _). eexists. unfold renew_meta. cbn. rewrite lookup_alter_eq, Hm. split; [done|].
  split_and!; [done..|]. right. cbn. unfold sat_i64. unfold i64_min, i64_max in *. lia.
Qed.

Ltac tick := apply ends_bind, ends_call; cbn [answering local store_answer fst snd sa_revoked sa_epoch sa_device sa_now].

(** The end of a heartbeat whose checks passed or were skipped. *)
Lemma beat_renew_kept a m n s : sa_now a = now -> (cm_idle_exp m <= 0 \/ now < cm_idle_exp m) -> kept m n s ->
  ends (answering a) (beat_renew cfg id m true) (fun s' r => kept m n s' /\ is_ok r = true) s.
Proof.
  intros Ha Hi Hk. unfold beat_renew. tick. rewrite Ha.
  replace ((0 <? cm_idle_exp m) && (cm_idle_exp m <=? now)) with false
    by (symmetry; apply andb_false_iff; rewrite Z.ltb_ge, Z.leb_gt; lia).
  rewrite !andb_false_r. cbv zeta. tick. apply (renew_kept _ _ _ (cm_jwt_exp m)) in Hk.
  destruct (gc_redis cfg); cbn [negb]; by split.
Qed.

(** A connection that may be renewed. *)
Definition open_meta (s : GwState) : Prop := exists m n,
  gs_meta s !! id = Some m /\ cm_jti m <> ""%string /\ kept m n s.

Lemma open_meta_kept m n s : cm_jti m <> ""%string -> kept m n s -> open_meta s.
Proof. intros Hj (m' & Hm & Hn & Hj' & _ & Hi). exists m', n. split_and!; [done|congruence|]. by exists m'. Qed.

Lemma kept_idle m n s : gs_meta s !! id = Some m -> kept m n s -> cm_idle_exp m <= 0 \/ now < cm_idle_exp m.
Proof. intros Hm (m' & Hm' & _ & _ & _ & Hi). by simplify_eq. Qed.

Lemma skip_jti {A} (k : bool -> GProc (result A unit)) m : cm_jti m <> ""%string ->
  beat_revoked cfg id m k = (r ← call (GRevoked (cm_jti m));
    match r with
    | Ok true => closed cfg id
    | Ok false => _ ← call (GClearErrors id); k false
    | Err _ => revoke_error cfg id k
    end).
Proof. intros Hj. unfold beat_revoked. by rewrite (bool_decide_eq_false_2 _ Hj : str_is_empty (cm_jti m) = false). Qed.

(** A heartbeat while the epochs cannot be read: the connection stays, whatever was
    counted before. *)
Lemma beat_epoch_down (e : string) t s : open_meta s ->
  ends (answering (mkStoreAnswers (Ok false) (Err e) (Ok true) now t)) (heartbeat cfg id)
    (fun s' r => open_meta s' /\ is_ok r = true) s.
Proof.
  intros (m & n & Hm & Hj & Hk). pose proof (kept_idle _ _ _ Hm Hk) as Hi. unfold heartbeat. tick. rewrite Hm, Hrevoke.
  rewrite skip_jti by done. tick. tick. apply clear_kept, note_kept in Hk as [Hn Hk]; [|done].
  unfold beat_epoch. tick. unfold revoke_error. tick. rewrite Hn. change (HEARTBEAT_REVOKE_ERROR_GRACE <=? 0 + 1) with false.
  cbv iota. eapply (ends_mono _ _ (fun s' r => kept m (0 + 1) s' /\ is_ok r = true)).
  { intros s' r [Hk' Hr]. split; [by eapply open_meta_kept|exact Hr]. }
  unfold beat_device. destruct (str_is_empty (cm_did m)); [|tick]; by apply beat_renew_kept.
Qed.

Lemma beats_epoch_down e t n s : open_meta s ->
  ends (answering (mkStoreAnswers (Ok false) (Err e) (Ok true) now t)) (beats cfg id n) (fun _ r => r = true) s.
Proof.
  revert s. induction n as [|n IH]; intros s Hs; [done|]. apply ends_bind. eapply ends_mono; [|by apply beat_epoch_down].
  intros s' [r|[]] [Ho ?]; [by apply IH|done].
Qed.

(** A heartbeat while nothing can be read, of a connection without noted errors: a
    device-bound one counts three failures and ends, another two. *)
Lemma beat_all_down e t m s : gs_meta s !! id = Some m -> cm_jti m <> ""%string -> kept m 0 s ->
  ends (answering (mkStoreAnswers (Err e) (Err e) (Err e) now t)) (heartbeat cfg id)
    (fun s' r => is_ok r = str_is_empty (cm_did m)) s.
Proof.
  intros Hm Hj Hk. pose proof (kept_idle _ _ _ Hm Hk) as Hi. unfold heartbeat. tick. rewrite Hm, Hrevoke.
  rewrite skip_jti by done. tick. apply note_kept in Hk as [Hn Hk]; [|done].
  unfold revoke_error at 1. tick. rewrite Hn. change (HEARTBEAT_REVOKE_ERROR_GRACE <=? 0 + 1) with false. cbv iota.
  apply note_kept in Hk as [Hn2 Hk]; [|done]. unfold beat_epoch. tick.
  unfold revoke_error at 1. tick. rewrite Hn2. change (HEARTBEAT_REVOKE_ERROR_GRACE <=? 0 + 1 + 1) with false. cbv iota.
  unfold beat_device. destruct (str_is_empty (cm_did m)) eqn:Ed.
  - eapply ends_mono; [|by apply beat_renew_kept]. by intros ? ? [_ Hr].
  - tick. unfold revoke_error. tick. apply note_kept in Hk as [Hn3 _]; [|done]. rewrite Hn3. cbn.
    unfold close_now. by destruct (gc_server cfg).
Qed.
End outages.

(** ** Channel ids *)

Lemma nat_to_dec_inj n k : 0 <= n <= u64_max -> 0 <= k <= u64_max -> nat_to_dec n = nat_to_dec k -> n = k.
Proof.
  intros Hn Hk E. assert (Hd : Some n = Some k); [|by injection Hd].
  rewrite <- (nat_to_dec_val n), <- (nat_to_dec_val k), E by (unfold u64_max in *; lia). done.
Qed.

Lemma string_app_inj_l (p s t : string) : (p ++ s)%string = (p ++ t)%string -> s = t.
Proof. induction p as [|a p IH]; [done|]. cbn. intros [= E]. by apply IH. Qed.

Lemma string_app_assoc (a b c : string) : ((a ++ b) ++ c)%string = (a ++ (b ++ c))%string.
Proof. induction a as [|x a IH]; [done|]. exact (f_equal (String.String x) IH). Qed.

Lemma channel_id_rsplit cfg account n : 0 <= n ->
  rsplit_once "_" (channel_id_of cfg account n) = Some ((gc_id cfg ++ "_" ++ account)%string, nat_to_dec n).
Proof.
  intros Hn. unfold channel_id_of.
  replace (gc_id cfg ++ "_" ++ account ++ "_" ++ nat_to_dec n)%string
    with ((gc_id cfg ++ "_" ++ account) ++ String.String "_" (nat_to_dec n))%string by by rewrite !string_app_assoc.
  apply rsplit_once_app. destruct (nat_to_dec_digits n Hn) as (_ & _ & _ & _ & Hd). by apply all_digits_no_char.
Qed.

Lemma channel_id_inj cfg a a' n n' : 0 <= n <= u64_max -> 0 <= n' <= u64_max ->
  channel_id_of cfg a n = channel_id_of cfg a' n' -> a = a' /\ n = n'.
Proof.
  intros Hn Hn' E. pose proof (channel_id_rsplit cfg a n) as H1. rewrite E, channel_id_rsplit in H1 by lia.
  injection (H1 ltac:(lia)) as Ha Hd. apply string_app_inj_l in Ha. injection Ha as Ha.
  split; [done|]. by apply nat_to_dec_inj.
Qed.

(** The ids [generate_channel_id] makes for accounts that ask one after the other. *)
Fixpoint issue (cfg : GatewayConfig) (accounts : list string) (s : GwState) : list string :=
  match accounts with
  | [] => []
  | a :: accounts => let '(s', n) := next_seq s in channel_id_of cfg a n :: issue cfg accounts s'
  end.

Lemma next_seq_small s : 0 <= gs_seq s < u64_max ->
  next_seq s = (mkGwState (gs_seq s + 1) (gs_pending s) (gs_meta s), gs_seq s).
Proof. intros Hs. unfold next_seq. by rewrite Z.mod_small by (unfold u64_max in *; lia). Qed.

Lemma issued_ids cfg accounts s id : 0 <= gs_seq s -> gs_seq s + len accounts <= u64_max ->
  id ∈ issue cfg accounts s -> exists a n, gs_seq s <= n < gs_seq s + len accounts /\ id = channel_id_of cfg a n.
Proof.
  revert s. induction accounts as [|a accounts IH]; intros s Hs Hw; [by intros ?%not_elem_of_nil|].
  rewrite len_cons in *. pose proof (len_nonneg accounts). cbn [issue]. rewrite next_seq_small by lia.
  intros [->|Hin]%elem_of_cons; [exists a, (gs_seq s); split; [lia|done]|].
  apply IH in Hin as (a' & n & Hn & ->); [|cbn [gs_seq]; lia..]. cbn [gs_seq] in Hn. exists a', n. split; [lia|done].
Qed.

(** ** A concrete gateway *)

Section demo.
#[local] Existing Instance demo_prost.
#[local] Existing Instance demo_prost_ok.

Definition demo_gateway : GatewayConfig := mkGatewayConfig "gate-a" 3600 true true false true.
Definition demo_claims : Claims := mkClaims "alice" "kim" 2000 (Some "jti-1"%string) 3 (Some "did-1"%string).
Definition demo_sign_in : bytes :=
  marshal (Logic (write_body (LogicPkt_new CMD_LOGIN_SIGN_IN 1 []) (mkLoginReq "t" "web" ""))).
Definition demo_answers : StoreAnswers := mkStoreAnswers (Ok false) (Ok 3) (Ok true) 1000 (Ok demo_claims).
Definition demo_talk : bytes := marshal (Logic (LogicPkt_new CMD_CHAT_USER_TALK 9 [])).
Definition demo_online : GwState :=
  (run (answering demo_answers) (@accept demo_prost demo_gateway "10.0.0.1" (Ok demo_sign_in)) GwState_new).1.1.

Example demo_accept :
  (run (answering demo_answers) (@accept demo_prost demo_gateway "10.0.0.1" (Ok demo_sign_in)) GwState_new).2
  = Ok "gate-a_alice_1"%string.
Proof. vm_compute. reflexivity. Qed.

Lemma demo_talk_read : read demo_talk = Ok (Logic (LogicPkt_new CMD_CHAT_USER_TALK 9 [])).
Proof. vm_compute. reflexivity. Qed.
End demo.

(** ** Properties *)

(** (C30) A gateway takes in who proved who they are.  A connection is taken in only
    when its first frame is a sign-in whose token decoded to the claims of a valid
    account of the app "kim", with a token id where that is required, which the
    revoke store knows to be neither revoked, nor older than the account's epoch,
    nor of another device, and with a device where a device credential is shown;
    what is stored is then the meta and the sign-in made of these claims, under a
    channel id with the account and a fresh number.  In every other case nothing is
    stored, and whoever sent a packet is told one status other than [Success]. *)
Theorem accept_checked `{Prost} (cfg : GatewayConfig) (remote_ip : string) (frame : result bytes GwError)
  (tr : list GEvent) (r : result string GwError) (Hrun : exec (accept cfg remote_ip frame) tr r) :
  match r with
  | Ok id => taken_in cfg remote_ip frame id tr
  | Err _ => tr = [] \/ turned_away tr r
  end.
Proof. exact (sat_exec _ _ _ _ (accept_sat cfg remote_ip frame) Hrun). Qed.

Lemma accept_checked_witness :
  taken_in (H := demo_prost) demo_gateway "10.0.0.1" (Ok demo_sign_in) "gate-a_alice_1"
    (run (answering demo_answers) (@accept demo_prost demo_gateway "10.0.0.1" (Ok demo_sign_in)) GwState_new).1.2.
Proof.
  pose proof (@accept_checked demo_prost demo_gateway "10.0.0.1" (Ok demo_sign_in) _ _
    (exec_run (answering demo_answers) (@accept demo_prost demo_gateway "10.0.0.1" (Ok demo_sign_in)) GwState_new)) as Hc.
  rewrite demo_accept in Hc. exact Hc.
Defined.

(** (C31) A gateway vouches for what it forwards.  A packet a client sends goes up
    once, to the service its command names, with the connection's channel id and,
    for a connection known, the account and app of its sign-in, whatever the client
    wrote there, and otherwise unchanged.  If it cannot be forwarded the client is
    told so once, with its own sequence number.  No packet that reaches the chat
    service this way is a sign-in. *)
Theorem receive_stamped `{Prost} (cfg : GatewayConfig) (id : string) (payload : bytes) (p : LogicPkt)
  (tr : list GEvent) (a : unit) (Hread : read payload = Ok (Logic p)) (Hrun : exec (receive cfg id payload) tr a) :
  exists found up sent rest, tr = Ev (GGetMeta id) found :: Ev (GForward (LogicPkt_service_name p) up) sent :: rest /\
    l_body up = l_body p /\ h_channel_id (l_header up) = id /\ h_command (l_header up) = h_command (l_header p) /\
    h_sequence (l_header up) = h_sequence (l_header p) /\ h_dest (l_header up) = h_dest (l_header p) /\
    (forall m, found = Some m -> get_meta META_ACCOUNT up = Some (cm_account m) /\ get_meta META_APP up = Some (cm_app m)) /\
    (LogicPkt_service_name p = SN_LOGIN -> parse (h_command (l_header up)) <> Some LoginSignIn) /\
    match sent with
    | Ok _ => rest = []
    | Err _ => exists pkt x, rest = [Ev (GHandlePush (Logic pkt)) x] /\
        h_status (l_header pkt) = Status_as_i32 ServiceUnavailable /\ h_flag (l_header pkt) = Flag_as_i32 Response /\
        h_channel_id (l_header pkt) = id /\ h_command (l_header pkt) = h_command (l_header p) /\
        h_sequence (l_header pkt) = h_sequence (l_header p)
    end.
Proof.
  destruct (receive_logic_exec cfg id payload p tr a Hread Hrun) as (m & sent & rest & -> & Hs).
  destruct (stamped_same id m p) as (Hb & Hc & Hcmd & Hseq & Hd & _).
  exists m, (stamped id m p), sent, rest. split_and!; try done.
  - intros m' ->. apply stamped_meta.
  - rewrite Hcmd. apply chat_command_no_sign_in.
  - destruct sent as [u|e]; [done|]. destruct Hs as [x ->]. by eexists _, x.
Qed.

Lemma receive_stamped_witness : exists found up sent rest,
  (run (answering demo_answers) (@receive demo_prost demo_gateway "gate-a_alice_1" demo_talk) demo_online).1.2
  = Ev (GGetMeta "gate-a_alice_1") found :: Ev (GForward "chat" up) sent :: rest.
Proof.
  destruct (@receive_stamped demo_prost demo_gateway "gate-a_alice_1" demo_talk _ _ _ demo_talk_read
    (exec_run (answering demo_answers) (@receive demo_prost demo_gateway "gate-a_alice_1" demo_talk) demo_online))
    as (found & up & sent & rest & E & _).
  exact (ex_intro _ found (ex_intro _ up (ex_intro _ sent (ex_intro _ rest E)))).
Defined.

(** Heartbeats enforce revocation.  With a revoke store, a heartbeat that leaves a
    connection open asked whether its token is revoked, which epoch the account is at
    and whether the device is still its own, and got no answer against the
    connection; the connection was not idle too long; and it signed a new token only
    when every answer was given, for the same account, app, token id, epoch and
    device.  A heartbeat that is refused closes the connection where the gateway
    can, and signs nothing. *)
Theorem heartbeat_enforces `{Prost} (cfg : GatewayConfig) (id : string) (tr : list GEvent)
  (r : result (option LogicPkt) unit) (Hrun : exec (heartbeat cfg id) tr r) :
  exists found rest, tr = Ev (GGetMeta id) found :: rest /\
    match found with
    | None => rest = [] /\ r = Ok None
    | Some m =>
      match r with
      | Ok _ => Forall (fine m) rest /\ Forall (renews m) rest /\ (existsb signs rest = true -> Forall answered rest) /\
                (gc_revoke cfg = true -> all_asked m rest)
      | Err _ => (exists before, rest = before ++ (if gc_server cfg then [Ev (GClose id) tt] else [])) /\
                 existsb signs rest = false
      end
    end.
Proof.
  apply exec_call_inv in Hrun as (found & rest & -> & He). exists found, rest. split; [done|].
  destruct found as [m|]; [|by apply exec_inv in He].
  pose proof (sat_exec _ _ _ _ (checks_end cfg id m (gc_revoke cfg)) He) as Hend.
  destruct r as [o|[]].
  - destruct Hend as (Hf & Hr & Hs). split_and!; [done|done|by intros []%Hs|].
    intros Hrev. rewrite Hrev in He. by apply (sat_exec _ _ _ _ (checks_ask cfg id m) He).
  - destruct Hend as (before & -> & Hs). split; [by exists before|done].
Qed.

Lemma heartbeat_enforces_witness : exists found rest,
  (run (answering demo_answers) (@heartbeat demo_prost demo_gateway "gate-a_alice_1") demo_online).1.2
  = Ev (GGetMeta "gate-a_alice_1") found :: rest.
Proof.
  destruct (@heartbeat_enforces demo_prost demo_gateway "gate-a_alice_1" _ _
    (exec_run (answering demo_answers) (@heartbeat demo_prost demo_gateway "gate-a_alice_1") demo_online))
    as (found & rest & E & _).
  exact (ex_intro _ found (ex_intro _ rest E)).
Defined.

(** The grace of heartbeats is uneven.  A connection whose token id is known not
    to be revoked stays open through any number of heartbeats at which the epochs
    cannot be read: the check of the token id sets the count of failures back every
    time.  When nothing can be read, the first heartbeat of a device-bound connection
    already counts three failures and ends it, while one without a device stays. *)
Theorem heartbeat_outages `{Prost} (cfg : GatewayConfig) (id : string) (now : Z) (m : ChannelMeta) (s : GwState)
  (e : string) (t : result Claims ProtocolError)
  (Hrevoke : gc_revoke cfg = true) (Httl : 0 < gc_ttl_secs cfg) (Hnow : 0 <= now < i64_max)
  (Hm : gs_meta s !! id = Some m) (Hj : cm_jti m <> ""%string) (Hidle : cm_idle_exp m <= 0 \/ now < cm_idle_exp m) :
  (forall n, (run (answering (mkStoreAnswers (Ok false) (Err e) (Ok true) now t)) (beats cfg id n) s).2 = true) /\
  (cm_revoke_errors m = 0 ->
   is_ok (run (answering (mkStoreAnswers (Err e) (Err e) (Err e) now t)) (heartbeat cfg id) s).2 = str_is_empty (cm_did m)).
Proof.
  assert (Hk : kept id now m (cm_revoke_errors m) s) by by exists m.
  split.
  - intros n. apply (ends_run _ _ (fun _ r => r = true)). apply beats_epoch_down; [done..|]. by exists m, (cm_revoke_errors m).
  - intros H0. rewrite H0 in Hk. apply (ends_run _ _ (fun _ r => is_ok r = str_is_empty (cm_did m))).
    by apply beat_all_down.
Qed.

Lemma heartbeat_outages_witness :
  is_ok (run (answering (mkStoreAnswers (Err "down"%string) (Err "down"%string) (Err "down"%string) 1000 (Err InvalidAccount)))
    (@heartbeat demo_prost demo_gateway "gate-a_alice_1") demo_online).2 = false.
Proof.
  assert (Hm : exists m, gs_meta demo_online !! "gate-a_alice_1"%string = Some m /\ cm_jti m = "jti-1"%string /\
    cm_idle_exp m = 4600 /\ cm_revoke_errors m = 0 /\ cm_did m = "did-1"%string) by (vm_compute; eauto 10).
  destruct Hm as (m & Hm & Hj & Hi & H0 & Hd).
  rewrite (proj2 (@heartbeat_outages demo_prost demo_gateway "gate-a_alice_1" 1000 m demo_online "down" (Err InvalidAccount)
    eq_refl ltac:(reflexivity) ltac:(unfold i64_max; lia) Hm ltac:(rewrite Hj; discriminate)
    ltac:(right; rewrite Hi; lia)) H0), Hd. reflexivity.
Defined.

(** Channel ids of one gateway are distinct.  The numbers are handed out by one
    counter, in the order in which connections, however they overlap, ask for them:
    no two of the ids made for a list of accounts are the same before the counter
    wraps at 2^64. *)
Theorem channel_ids_distinct (cfg : GatewayConfig) (accounts : list string) (s : GwState)
  (Hs : 0 <= gs_seq s) (Hwrap : gs_seq s + len accounts <= u64_max) : NoDup (issue cfg accounts s).
Proof.
  revert s Hs Hwrap. induction accounts as [|a accounts IH]; intros s Hs Hw; [constructor|].
  rewrite len_cons in Hw. pose proof (len_nonneg accounts). cbn [issue].
  rewrite next_seq_small by (unfold u64_max in *; lia). apply list.NoDup_cons. split; [|apply IH; cbn [gs_seq]; lia].
  intros (a' & n & Hn & E)%issued_ids; [|cbn [gs_seq]; lia..]. cbn [gs_seq] in Hn.
  apply channel_id_inj in E as [_ E]; lia.
Qed.

Lemma channel_ids_distinct_witness : NoDup (issue demo_gateway ["alice"; "bob"; "alice"]%string GwState_new).
Proof. apply (channel_ids_distinct demo_gateway); vm_compute; discriminate. Defined.
