(* ===== verification/Container.v ===== *)
(** Instances of a service and the way to them: crates/kim-container (container.rs,
    client_map.rs, selector.rs), the zone selector of the gateway (selector.rs,
    slots.rs of services/gateway) and the registration of crates/kim-naming.

    [forward] takes a packet up to an instance that a [Selector] picks among the
    grown-up ones, [deliver_down] gives a packet from an instance to the channels it
    names.  The table of clients is kept by concurrent tasks, programs over [CEff]
    whose short critical sections [clocal] executes on a [CtState]. *)

From S2P Require Import Prelude Prog Wire Pkt.
From stdpp Require Import gmap.
Open Scope Z_scope.
Open Scope kim_scope.

(** ** registration.rs *)

Record DefaultRegistration := mkRegistration {
  rg_service_id : string;
  rg_service_name : string;
  rg_protocol : string;
  rg_public_address : string;
  rg_public_port : Z;
  rg_tags : list string;
  rg_meta : gmap string string
}.
Definition dial_url (r : DefaultRegistration) : string :=
  (rg_public_address r ++ ":" ++ nat_to_dec (rg_public_port r))%string.

(** ** client_map.rs *)

Definition YOUNG : Z := 0.
Definition ADULT : Z := 1.

(** [sl_client] is the identity of the connection ([Arc::ptr_eq]). *)
Record ClientSlot := mkClientSlot { sl_reg : DefaultRegistration; sl_client : nat; sl_state : Z }.
Abbreviation ClientMap := (gmap string ClientSlot).

Definition adult_services (m : ClientMap) : list DefaultRegistration :=
  sort_by (fun a b => str_le (rg_service_id a) (rg_service_id b))
    (sl_reg <$> List.filter (fun s => sl_state s =? ADULT) (snd <$> map_to_list m)).

(** ** Selectors *)

Class Selector (S : Type) := lookup_service : S -> Header -> list DefaultRegistration -> option string.

Section selectors.
(** crc32fast::hash. *)
Context (crc32 : bytes -> Z).

Definition hash_pick (key : string) (srvs : list DefaultRegistration) : option string :=
  rg_service_id <$> srvs !! Z.to_nat (crc32 (bytes_of key) mod len srvs).

Definition HashSelector_lookup (header : Header) (srvs : list DefaultRegistration) : option string :=
  match srvs with [] => None | _ => hash_pick (h_channel_id header) srvs end.

(** selector.rs of services/gateway *)
Inductive RouteBy : Type := ByAccount | ByApp.
Record ZoneFile := mkZoneFile { zf_id : string; zf_weight : Z }.
Record RouteFile := mkRouteFile {
  rf_route_by : string;
  rf_zones : list ZoneFile;
  rf_whitelist : gmap string string
}.
Record Route := mkRoute {
  rt_route_by : RouteBy;
  rt_zones : list ZoneFile;
  rt_whitelist : gmap string string;
  rt_slots : list nat
}.

Fixpoint build_slots_from (i : nat) (weights : list Z) : list nat :=
  match weights with
  | [] => []
  | w :: weights => replicate (Z.to_nat w) i ++ build_slots_from (S i) weights
  end.
Definition build_slots (weights : list Z) : list nat := build_slots_from 0 weights.

Definition ascii_lower (b : u8) : u8 :=
  if (65 <=? u8_to_Z b) && (u8_to_Z b <=? 90) then u8_of_Z (u8_to_Z b + 32) else b.
Definition eq_ignore_ascii_case (a b : string) : bool :=
  bool_decide (ascii_lower <$> bytes_of a = ascii_lower <$> bytes_of b).

Definition from_config (file : RouteFile) : Route :=
  mkRoute (if eq_ignore_ascii_case (rf_route_by file) "app" then ByApp else ByAccount)
    (rf_zones file) (rf_whitelist file) (build_slots (zf_weight <$> rf_zones file)).

Definition header_meta (h : Header) (key : string) : string :=
  match List.find (fun m => bool_decide (meta_key m = key)) (h_meta h) with
  | Some m => meta_value m
  | None => ""
  end.

Definition in_zone (reg : DefaultRegistration) (zone : string) : bool :=
  bool_decide (rg_meta reg !! "zone"%string = Some zone)
  || existsb (fun t => bool_decide (t = "zone:" ++ zone)%string) (rg_tags reg).

(** The zone of a request, and whether the whitelist gave it. *)
Definition zone_of (route : Route) (h : Header) : option (string * bool) :=
  let app := header_meta h META_APP in
  let account := header_meta h META_ACCOUNT in
  match rt_whitelist route !! account with
  | Some z => Some (z, true)
  | None =>
    if bool_decide (rt_slots route = []) || bool_decide (rt_zones route = []) then None
    else
      let key := match rt_route_by route with
                 | ByApp => app
                 | ByAccount => if str_is_empty account then h_channel_id h else account
                 end in
      let slot := Z.to_nat (crc32 (bytes_of key) mod len (rt_slots route)) in
      zi ← rt_slots route !! slot;
      z ← rt_zones route !! zi;
      Some (zf_id z, false)
  end.

Definition RouteSelector_lookup (route : Route) (h : Header) (srvs : list DefaultRegistration) : option string :=
  let app := header_meta h META_APP in
  let account := header_meta h META_ACCOUNT in
  match srvs with
  | [] => None
  | _ =>
    if str_is_empty app && str_is_empty account then hash_pick (h_channel_id h) srvs
    else match zone_of route h with
    | None => hash_pick (h_channel_id h) srvs
    | Some (zone_id, from_whitelist) =>
      let zone_srvs := List.filter (fun r => in_zone r zone_id) srvs in
      let pick_key := if str_is_empty account then h_channel_id h else account in
      match zone_srvs with
      | [] => if from_whitelist : bool then None else hash_pick pick_key srvs
      | _ => hash_pick pick_key zone_srvs
      end
    end
  end.
End selectors.

(** ** container.rs *)

Record CtState := mkCtState {
  ct_clients : gmap string ClientMap;
  ct_wanted : gmap string (gmap string DefaultRegistration);
  ct_dialing : gset string;
  ct_closed : bool;
  ct_next : nat
}.
Definition CtState_new : CtState := mkCtState ∅ ∅ ∅ false 0.
Definition with_clients (c : gmap string ClientMap) (s : CtState) : CtState :=
  mkCtState c (ct_wanted s) (ct_dialing s) (ct_closed s) (ct_next s).
Definition with_wanted (w : gmap string (gmap string DefaultRegistration)) (s : CtState) : CtState :=
  mkCtState (ct_clients s) w (ct_dialing s) (ct_closed s) (ct_next s).
Definition with_dialing (d : gset string) (s : CtState) : CtState :=
  mkCtState (ct_clients s) (ct_wanted s) d (ct_closed s) (ct_next s).

Definition has_client (service id : string) (s : CtState) : bool :=
  match ct_clients s !! service ≫= (.!! id) with Some _ => true | None => false end.

(** *** forward *)

Inductive ContainerError : Type :=
| CtCore (msg : string) | CtProtocol (e : ProtocolError) | CtOther (msg : string).

(** The instance a packet goes to, and the packet sent there. *)
Definition forward_target `{Message Header} (sel : Header -> list DefaultRegistration -> option string)
  (self_id service_name : string) (pkt : LogicPkt) (s : CtState) : result (nat * LogicPkt) ContainerError :=
  if str_is_empty (h_channel_id (l_header pkt)) || str_is_empty (h_command (l_header pkt))
  then Err (CtOther "empty command or channel_id")
  else
    let pkt := set_meta META_DEST_SERVER self_id pkt in
    match ct_clients s !! service_name with
    | None => Err (CtOther "no adult instances")
    | Some cmap =>
      match adult_services cmap with
      | [] => Err (CtOther "no adult instances")
      | adult =>
        match sel (l_header pkt) adult with
        | None => Err (CtOther "no adult instances")
        | Some id =>
          match cmap !! id with
          | None => Err (CtOther "selected instance missing")
          | Some slot => Ok (sl_client slot, pkt)
          end
        end
      end
    end.

(** *** The tasks that keep the table *)

Inductive CEff : Type -> Type :=
| CClosed : CEff bool
| CHas (service id : string) : CEff bool
| CClaim (key : string) : CEff bool
| CRelease (key : string) : CEff unit
| CConnect (url : string) : CEff (option nat)
| CSpawnRead (service id : string) (client : nat) : CEff unit
| CInsert (service : string) (reg : DefaultRegistration) (client : nat) : CEff bool
| CShutdown (client : nat) : CEff unit
| CSetWanted (service : string) (regs : list DefaultRegistration) : CEff unit
| CWanted (service : string) : CEff (list DefaultRegistration)
| CIds (service : string) : CEff (list (string * nat))
| CRemoveSame (service id : string) (client : nat) : CEff unit
| CSchedulePromote (service id : string) : CEff unit
| CSleepAdult : CEff unit
| CTryPromote (service id : string) : CEff unit
| CForceAdult (service id : string) : CEff unit
| CRead (client : nat) : CEff (option bytes)
| CDeliver (payload : bytes) : CEff unit
| CWake : CEff unit.
Abbreviation CProc := (Prog CEff).

(** [update_clients]: the changes of the table. *)
Definition ct_insert (service : string) (reg : DefaultRegistration) (client : nat) (s : CtState) : CtState * bool :=
  let cmap := default ∅ (ct_clients s !! service) in
  match cmap !! rg_service_id reg with
  | Some _ => (with_clients (<[service := cmap]> (ct_clients s)) s, false)
  | None => (with_clients (<[service := <[rg_service_id reg := mkClientSlot reg client YOUNG]> cmap]> (ct_clients s)) s,
             true)
  end.
Definition ct_remove_same (service id : string) (client : nat) (s : CtState) : CtState :=
  with_clients (alter (fun cmap : ClientMap =>
    match cmap !! id with
    | Some slot => if bool_decide (sl_client slot = client) then delete id cmap else cmap
    | None => cmap
    end) service (ct_clients s)) s.
Definition ct_state_update (f : Z -> Z) (service id : string) (s : CtState) : CtState :=
  with_clients (alter (fun cmap : ClientMap =>
    alter (fun slot => mkClientSlot (sl_reg slot) (sl_client slot) (f (sl_state slot))) id cmap)
    service (ct_clients s)) s.
Definition try_promote (service id : string) (s : CtState) : CtState :=
  ct_state_update (fun st => if st =? YOUNG then ADULT else st) service id s.
Definition force_adult (service id : string) (s : CtState) : CtState :=
  ct_state_update (fun _ => ADULT) service id s.
Definition set_wanted (service : string) (regs : list DefaultRegistration) (s : CtState) : CtState :=
  with_wanted (<[service := foldl (fun m r => <[rg_service_id r := r]> m) ∅ regs]> (ct_wanted s)) s.
Definition wanted_regs (service : string) (s : CtState) : list DefaultRegistration :=
  snd <$> map_to_list (default ∅ (ct_wanted s !! service)).
Definition client_ids (service : string) (s : CtState) : list (string * nat) :=
  (fun p => (p.1, sl_client p.2)) <$> map_to_list (default ∅ (ct_clients s !! service)).

(** What a call does to the state; a connection that is made is a new one. *)
Definition clocal {X} (e : CEff X) (s : CtState) : X -> CtState * X :=
  match e in CEff X return X -> CtState * X with
  | CClosed => fun _ => (s, ct_closed s)
  | CHas service id => fun _ => (s, has_client service id s)
  | CClaim key => fun _ => (with_dialing ({[key]} ∪ ct_dialing s) s, negb (bool_decide (key ∈ ct_dialing s)))
  | CRelease key => fun _ => (with_dialing (ct_dialing s ∖ {[key]}) s, tt)
  | CConnect url => fun r =>
    match r with
    | Some _ => (mkCtState (ct_clients s) (ct_wanted s) (ct_dialing s) (ct_closed s) (S (ct_next s)), Some (ct_next s))
    | None => (s, None)
    end
  | CInsert service reg client => fun _ => ct_insert service reg client s
  | CSetWanted service regs => fun _ => (set_wanted service regs s, tt)
  | CWanted service => fun _ => (s, wanted_regs service s)
  | CIds service => fun _ => (s, client_ids service s)
  | CRemoveSame service id client => fun _ => (ct_remove_same service id client s, tt)
  | CTryPromote service id => fun _ => (try_promote service id s, tt)
  | CForceAdult service id => fun _ => (force_adult service id s, tt)
  | _ => fun x => (s, x)
  end.

Definition dial_key (service id : string) : string := (service ++ "/" ++ id)%string.

Definition claim_dial (service id : string) : CProc bool :=
  has ← call (CHas service id);
  if has : bool then Ret false else call (CClaim (dial_key service id)).
Definition release_dial (service id : string) : CProc unit := call (CRelease (dial_key service id)).

Definition dial_and_insert (service : string) (reg : DefaultRegistration) : CProc bool :=
  let id := rg_service_id reg in
  has ← call (CHas service id);
  if has : bool then Ret false
  else
    connected ← call (CConnect (dial_url reg));
    match connected with
    | None => Ret false
    | Some client =>
      _ ← call (CSpawnRead service id client);
      inserted ← call (CInsert service reg client);
      if inserted : bool then Ret true else _ ← call (CShutdown client); Ret false
    end.

Definition build_client (service : string) (reg : DefaultRegistration) : CProc bool :=
  closed ← call CClosed;
  if (closed : bool) || negb (bool_decide (rg_protocol reg = "tcp"%string)) then Ret false
  else
    claimed ← claim_dial service (rg_service_id reg);
    if negb claimed then Ret false
    else
      result ← dial_and_insert service reg;
      _ ← release_dial service (rg_service_id reg);
      Ret result.

(** The task of [schedule_promote]. *)
Definition promote_task (adult_delay_zero : bool) (service id : string) : CProc unit :=
  if adult_delay_zero then call (CForceAdult service id)
  else _ ← call CSleepAdult; call (CTryPromote service id).

Fixpoint build_all (service : string) (regs : list DefaultRegistration) : CProc unit :=
  match regs with
  | [] => Ret tt
  | reg :: regs =>
    built ← build_client service reg;
    _ ← (if built : bool then call (CSchedulePromote service (rg_service_id reg)) else Ret tt);
    build_all service regs
  end.
Definition reconnect_missing (service : string) : CProc unit :=
  regs ← call (CWanted service); build_all service regs.

Fixpoint drop_stale (service : string) (stale : list (string * nat)) : CProc unit :=
  match stale with
  | [] => Ret tt
  | (id, client) :: stale =>
    _ ← call (CShutdown client); _ ← call (CRemoveSame service id client); drop_stale service stale
  end.
Definition apply_snapshot (service : string) (list_ : list DefaultRegistration) : CProc unit :=
  let tcp := List.filter (fun r => bool_decide (rg_protocol r = "tcp"%string)) list_ in
  _ ← match tcp with [] => Ret tt | _ => call (CSetWanted service tcp) end;
  _ ← build_all service tcp;
  wanted ← call (CWanted service);
  let wanted_ids := List.map rg_service_id wanted in
  match wanted_ids with
  | [] => Ret tt
  | _ =>
    ids ← call (CIds service);
    drop_stale service (List.filter (fun p => negb (bool_decide (p.1 ∈ wanted_ids))) ids)
  end.

(** One connection's reader, for at most [fuel] frames. *)
Fixpoint read_loop (fuel : nat) (service id : string) (client : nat) : CProc unit :=
  match fuel with
  | O => Ret tt
  | S fuel =>
    frame ← call (CRead client);
    match frame with
    | Some payload => _ ← call (CDeliver payload); read_loop fuel service id client
    | None => _ ← call (CRemoveSame service id client); call CWake
    end
  end.

(** *** deliver_down *)

Inductive DEff : Type -> Type :=
| DPush (channel_id : string) (payload : bytes) : DEff (result unit string)
| DAfterPush (hook : nat) (channel_id : string) (pkt : LogicPkt) : DEff unit.

(** [str::split(',')]. *)
Fixpoint split_on (c : ascii) (s : string) : list string :=
  match s with
  | EmptyString => [""%string]
  | String.String a s =>
    if decide (a = c) then ""%string :: split_on c s
    else match split_on c s with
         | x :: l => String.String a x :: l
         | [] => [String.String a EmptyString]
         end
  end.
Definition channels_of (channels : string) : list string :=
  List.filter (fun s => negb (str_is_empty s)) (split_on "," channels).

Fixpoint run_hooks (n : nat) (i : nat) (channel : string) (pkt : LogicPkt) : Prog DEff unit :=
  match n with
  | O => Ret tt
  | S n => _ ← call (DAfterPush i channel pkt); run_hooks n (S i) channel pkt
  end.
Fixpoint push_down (hooks : nat) (payload : bytes) (pkt : LogicPkt) (channels : list string) : Prog DEff unit :=
  match channels with
  | [] => Ret tt
  | channel :: channels =>
    r ← call (DPush channel payload);
    _ ← match r with Ok _ => run_hooks hooks 0 channel pkt | Err _ => Ret tt end;
    push_down hooks payload pkt channels
  end.
Definition deliver_down `{Message Header} (self_id : string) (has_server : bool) (hooks : nat) (payload : bytes)
  : Prog DEff (result unit ContainerError) :=
  match read_logic payload with
  | Err e => Ret (Err (CtProtocol e))
  | Ok pkt =>
    let dest := default ""%string (get_meta META_DEST_SERVER pkt) in
    if negb (bool_decide (dest = self_id)) then Ret (Ok tt)
    else
      let channels := default ""%string (get_meta META_DEST_CHANNELS pkt) in
      let pkt := del_meta META_DEST_CHANNELS (del_meta META_DEST_SERVER pkt) in
      if negb has_server then Ret (Err (CtOther "no server"))
      else
        _ ← push_down hooks (marshal (Logic pkt)) pkt (channels_of channels);
        Ret (Ok tt)
  end.
