(* ===== verification/ContainerSpec.v ===== *)
(** What the container guarantees: its table stays well formed however the tasks
    that keep it interleave, packets go up to grown-up instances of the zone, and
    come down to the channels they were sent to. *)

From S2P Require Import Prelude Prog Tasks Wire Pkt Msgs Location Effects Router Interest Container.
From stdpp Require Import gmap.
Open Scope Z_scope.
Open Scope kim_scope.

(** ** Channel lists *)

Lemma split_on_no_char c s : no_char c s = true -> split_on c s = [s].
Proof.
  induction s as [|a s IH]; [done|]. cbn [no_char split_on]. intros [Ha Hs]%andb_true_iff. rewrite decide_False.
  - by rewrite IH.
  - intros ->. by rewrite Ascii.eqb_refl in Ha.
Qed.

Lemma split_on_app c s t : no_char c s = true -> split_on c (s ++ String.String c t)%string = s :: split_on c t.
Proof.
  induction s as [|a s IH].
  - intros _. change (split_on c (String.String c t) = ""%string :: split_on c t). cbn [split_on]. by case_decide.
  - cbn [no_char]. intros [Ha Hs]%andb_true_iff.
    change (split_on c (String.String a (s ++ String.String c t)) = String.String a s :: split_on c t).
    cbn [split_on]. rewrite decide_False; [by rewrite IH|]. intros ->. by rewrite Ascii.eqb_refl in Ha.
Qed.

(** The names a list of channels can be joined of and split into again. *)
Definition channel_ok (c : ChannelId) : Prop := channel_str c <> ""%string /\ no_char "," (channel_str c) = true.

Lemma split_join (l : list string) : l <> [] -> Forall (fun s => no_char "," s = true) l ->
  split_on "," (join_comma l) = l.
Proof.
  intros Hl Hs. induction Hs as [|s l Hs Hall IH]; [done|]. destruct l as [|t l]; [by apply split_on_no_char|].
  change (join_comma (s :: t :: l)) with (s ++ String.String "," (join_comma (t :: l)))%string.
  by rewrite split_on_app, IH.
Qed.

Lemma channels_of_join (l : list ChannelId) : Forall channel_ok l ->
  channels_of (join_comma (channel_str <$> l)) = channel_str <$> l.
Proof.
  intros Hl. destruct l as [|c l]; [done|]. unfold channels_of. rewrite split_join; [|done|].
  - apply filter_all. intros s (c' & -> & Hin)%list_elem_of_fmap.
    apply negb_true_iff, bool_decide_eq_false. exact (proj1 (proj1 (list.Forall_forall _ _) Hl _ Hin)).
  - apply list.Forall_fmap. eapply list.Forall_impl; [exact Hl|]. by intros c' [_ ?].
Qed.

(** ** deliver_down *)

(** The pushes of a trace, in order. *)
Definition pushed (tr : list (EventOf DEff)) : list (string * bytes) :=
  omap (fun ev => match ev with Ev e _ => match e with DPush c p => Some (c, p) | _ => None end end) tr.

Lemma pushed_app tr tr' : pushed (tr ++ tr') = pushed tr ++ pushed tr'.
Proof. apply omap_app. Qed.

Lemma run_hooks_sat n i channel pkt : sat (run_hooks n i channel pkt) (fun tr _ => pushed tr = []).
Proof. revert i; induction n as [|n IH]; intros i; [done|]. intros u. apply IH. Qed.

Lemma push_down_sat hooks payload pkt channels :
  sat (push_down hooks payload pkt channels) (fun tr _ => pushed tr = (fun c => (c, payload)) <$> channels).
Proof.
  induction channels as [|c channels IH]; [done|]. apply sat_call. intros r.
  eapply (sat_bind_use _ _ _ (fun tr _ => pushed tr = [])); [destruct r; [apply run_hooks_sat|done]|].
  intros tr u Ht. eapply sat_mono; [|exact IH]. intros tr' u' Ht'.
  change (pushed (Ev (DPush c payload) r :: tr ++ tr')) with ((c, payload) :: pushed (tr ++ tr')).
  by rewrite pushed_app, Ht, Ht'.
Qed.

Section metas.
Context (pkt : LogicPkt).

Lemma del_set_same k v : del_meta k (set_meta k v pkt) = del_meta k pkt.
Proof.
  destruct pkt as [h b]. unfold set_meta, del_meta, h_with_meta. cbn. do 2 f_equal.
  by rewrite filter_snoc, filter_filter_id, bool_decide_eq_true_2, app_nil_r.
Qed.
Lemma del_set_other k k' v : k <> k' -> del_meta k' (set_meta k v pkt) = set_meta k v (del_meta k' pkt).
Proof.
  intros Hk. destruct pkt as [h b]. unfold set_meta, del_meta, h_with_meta. cbn. do 2 f_equal.
  by rewrite filter_snoc, filter_comm, bool_decide_eq_false_2.
Qed.
End metas.

(** The addressing [dispatch_packet] adds is what [deliver_down] takes away. *)
Lemma strip_dispatch gateway channels pkt :
  del_meta META_DEST_CHANNELS (del_meta META_DEST_SERVER (dispatch_packet gateway channels pkt))
  = del_meta META_DEST_CHANNELS (del_meta META_DEST_SERVER pkt).
Proof. unfold dispatch_packet. by rewrite del_set_other, del_set_same, del_set_same. Qed.

Lemma read_marshal `{MessageOk Header} p : header_fits p -> read_logic (marshal (Logic p)) = Ok p.
Proof.
  intros Hp. pose proof (LogicPkt_decode_app p [] Hp) as Hd. rewrite app_nil_r in Hd.
  unfold read_logic, marshal, LogicPkt_encode. by rewrite read_logic_magic, Hd.
Qed.

(** What comes down of what was dispatched. *)
Lemma deliver_exec `{MessageOk Header} (gateway : GatewayId) (channels : list ChannelId) (pkt : LogicPkt)
  (self_id : string) (hooks : nat) (tr : list (EventOf DEff)) (r : result unit ContainerError)
  (Hfits : header_fits (dispatch_packet gateway channels pkt)) (Hchannels : Forall channel_ok channels)
  (Hrun : exec (deliver_down self_id true hooks (marshal (Logic (dispatch_packet gateway channels pkt)))) tr r) :
  r = Ok tt /\
  let down := del_meta META_DEST_CHANNELS (del_meta META_DEST_SERVER pkt) in
  pushed tr = if bool_decide (self_id = gateway_str gateway)
              then (fun c => (channel_str c, marshal (Logic down))) <$> channels else [].
Proof.
  unfold deliver_down in Hrun. rewrite read_marshal in Hrun by done. cbv zeta in Hrun.
  rewrite strip_dispatch in Hrun.
  assert (Hd : get_meta META_DEST_SERVER (dispatch_packet gateway channels pkt) = Some (gateway_str gateway)).
  { unfold dispatch_packet. by rewrite get_meta_set_meta_ne, get_meta_set_meta_eq. }
  assert (Hc : get_meta META_DEST_CHANNELS (dispatch_packet gateway channels pkt) = Some (join_comma (channel_str <$> channels)))
    by apply get_meta_set_meta_eq.
  rewrite Hd, Hc in Hrun. cbn [default from_option id negb] in Hrun.
  destruct (bool_decide_reflect (gateway_str gateway = self_id)) as [<-|Hne].
  - rewrite bool_decide_eq_true_2 by done. cbn [negb] in Hrun.
    apply exec_bind_inv in Hrun as (tr1 & u & tr2 & -> & Hp & [-> ->]%exec_inv).
    pose proof (sat_exec _ _ _ _ (push_down_sat _ _ _ _) Hp) as Hpushed. split; [done|]. rewrite app_nil_r.
    cbv zeta. by rewrite Hpushed, channels_of_join, <- list_fmap_compose.
  - rewrite bool_decide_eq_false_2 by congruence. cbn [negb] in Hrun. apply exec_inv in Hrun as [-> ->]. done.
Qed.

(** ** Selectors *)

Section selectors.
Context (crc32 : bytes -> Z).

Lemma hash_pick_in key srvs : srvs <> [] -> exists r, r ∈ srvs /\ hash_pick crc32 key srvs = Some (rg_service_id r).
Proof.
  intros Hs. unfold hash_pick.
  assert (Hlt : (Z.to_nat (crc32 (bytes_of key) mod len srvs) < length srvs)%nat).
  { destruct srvs as [|r srvs]; [done|]. pose proof (Z.mod_pos_bound (crc32 (bytes_of key)) (len (r :: srvs))) as Hb.
    rewrite len_cons in *. pose proof (len_nonneg srvs). unfold len in *. cbn [length]. lia. }
  apply lookup_lt_is_Some in Hlt as [r Hr]. exists r. split; [by eapply list_elem_of_lookup_2|]. by rewrite Hr.
Qed.

(** What a selector promises: one of the instances offered. *)
Definition selects (sel : Header -> list DefaultRegistration -> option string) : Prop :=
  forall h srvs id, sel h srvs = Some id -> exists r, r ∈ srvs /\ rg_service_id r = id.

Lemma hash_selects : selects (HashSelector_lookup crc32).
Proof.
  intros h srvs id. unfold HashSelector_lookup. destruct srvs as [|r srvs]; [done|].
  destruct (hash_pick_in (h_channel_id h) (r :: srvs)) as (r' & Hin & ->); [done|]. intros [= <-]. by exists r'.
Qed.
End selectors.

(** ** Zones *)

(** The request says who it is for. *)
Definition named (h : Header) : Prop := header_meta h META_APP <> ""%string \/ header_meta h META_ACCOUNT <> ""%string.

Section zones.
Context (crc32 : bytes -> Z) (route : Route).

Lemma route_unnamed h srvs : header_meta h META_APP = ""%string -> header_meta h META_ACCOUNT = ""%string ->
  RouteSelector_lookup crc32 route h srvs = HashSelector_lookup crc32 h srvs.
Proof. intros Ea Ec. unfold RouteSelector_lookup. rewrite Ea, Ec. by destruct srvs. Qed.

Lemma route_named h srvs : named h -> srvs <> [] ->
  RouteSelector_lookup crc32 route h srvs =
  let account := header_meta h META_ACCOUNT in
  let pick_key := if str_is_empty account then h_channel_id h else account in
  match zone_of crc32 route h with
  | None => hash_pick crc32 (h_channel_id h) srvs
  | Some (z, from_whitelist) =>
    match List.filter (fun r => in_zone r z) srvs with
    | [] => if from_whitelist : bool then None else hash_pick crc32 pick_key srvs
    | zone_srvs => hash_pick crc32 pick_key zone_srvs
    end
  end.
Proof.
  intros Hn Hs. destruct srvs as [|r srvs]; [done|]. unfold RouteSelector_lookup. cbv zeta.
  assert (E : str_is_empty (header_meta h META_APP) && str_is_empty (header_meta h META_ACCOUNT) = false).
  { apply andb_false_iff. unfold str_is_empty. rewrite !bool_decide_eq_false. by destruct Hn; [left|right]. }
  rewrite E. destruct (zone_of crc32 route h) as [[z w]|]; [|done]. by destruct (List.filter _ _).
Qed.

(** What the choice for a named request is, given its zone. *)
Definition chosen (h : Header) (srvs : list DefaultRegistration) (out : option string) : Prop :=
  match out with
  | Some id => exists r, r ∈ srvs /\ rg_service_id r = id /\ forall z w, zone_of crc32 route h = Some (z, w) ->
      in_zone r z = true \/ w = false /\ forall r', r' ∈ srvs -> in_zone r' z = false
  | None => srvs = [] \/ exists z, zone_of crc32 route h = Some (z, true) /\ forall r, r ∈ srvs -> in_zone r z = false
  end.

Lemma filter_nil_none {A} (P : A -> bool) l : List.filter P l = [] -> forall x, x ∈ l -> P x = false.
Proof.
  intros Hf x Hx. destruct (P x) eqn:E; [|done]. assert (Hin : x ∈ List.filter P l) by by apply elem_of_list_filter_bool.
  rewrite Hf in Hin. by apply not_elem_of_nil in Hin.
Qed.

Lemma route_chosen h srvs : named h -> chosen h srvs (RouteSelector_lookup crc32 route h srvs).
Proof.
  intros Hn. destruct srvs as [|r0 srvs]; [by left|]. rewrite route_named by done. cbv zeta.
  assert (Hp : forall key l, l <> [] -> (forall r, r ∈ l -> r ∈ r0 :: srvs) ->
    (forall r, r ∈ l -> forall z w, zone_of crc32 route h = Some (z, w) -> 
      in_zone r z = true \/ w = false /\ forall r', r' ∈ r0 :: srvs -> in_zone r' z = false) ->
    chosen h (r0 :: srvs) (hash_pick crc32 key l)).
  { intros key l Hl Hsub Hz. destruct (hash_pick_in crc32 key l Hl) as (r & Hin & ->). exists r. split_and!; auto. }
  destruct (zone_of crc32 route h) as [[z w]|] eqn:Ez; [|apply Hp; [done|done|intros; congruence]].
  destruct (List.filter _ _) as [|r l] eqn:Ef.
  - pose proof (filter_nil_none _ _ Ef) as Hnone. destruct w; [right; by exists z|].
    apply Hp; [done|done|]. intros r _ z' w' [= -> <-]. right. auto.
  - apply Hp; [done|..]; intros r' Hin; rewrite <- Ef in Hin; apply elem_of_list_filter_bool in Hin as [Hz Hin]; [done|].
    intros z' w' [= -> <-]. by left.
Qed.

(** An account keeps its zone and its instance on all its connections. *)
Lemma route_sticky h h' srvs : header_meta h META_ACCOUNT <> ""%string ->
  header_meta h' META_ACCOUNT = header_meta h META_ACCOUNT -> header_meta h' META_APP = header_meta h META_APP ->
  zone_of crc32 route h <> None ->
  RouteSelector_lookup crc32 route h' srvs = RouteSelector_lookup crc32 route h srvs.
Proof.
  intros Hn Ea Eb Hz. unfold RouteSelector_lookup, zone_of in *. rewrite Ea, Eb. destruct srvs as [|r srvs]; [done|].
  rewrite (bool_decide_eq_false_2 _ Hn : str_is_empty (header_meta h META_ACCOUNT) = false) in *. rewrite andb_false_r.
  repeat case_match; congruence.
Qed.
End zones.

Lemma route_selects crc32 route : selects (RouteSelector_lookup crc32 route).
Proof.
  intros h srvs id Hl. destruct (decide (header_meta h META_APP = ""%string)) as [Ea|Ea];
    [destruct (decide (header_meta h META_ACCOUNT = ""%string)) as [Ec|Ec]|].
  - rewrite route_unnamed in Hl by done. by eapply hash_selects.
  - pose proof (route_chosen crc32 route h srvs (or_intror Ec)) as Hc. rewrite Hl in Hc.
    destruct Hc as (r & Hin & Hr & _). by exists r.
  - pose proof (route_chosen crc32 route h srvs (or_introl Ea)) as Hc. rewrite Hl in Hc.
    destruct Hc as (r & Hin & Hr & _). by exists r.
Qed.

(** ** The table of clients *)

Record table_ok (deps : list string) (s : CtState) : Prop := {
  tk_deps : forall svc cmap, ct_clients s !! svc = Some cmap -> svc ∈ deps;
  tk_slots : forall svc cmap id slot, ct_clients s !! svc = Some cmap -> cmap !! id = Some slot ->
    rg_service_id (sl_reg slot) = id /\ rg_protocol (sl_reg slot) = "tcp"%string /\
    (sl_state slot = YOUNG \/ sl_state slot = ADULT);
  tk_wanted : forall svc m id r, ct_wanted s !! svc = Some m -> m !! id = Some r -> rg_service_id r = id
}.

(** What tasks may write, and what they rely on. *)
Definition table_guarantee (deps : list string) X (e : CEff X) : Prop :=
  match e with
  | CInsert svc reg _ => svc ∈ deps /\ rg_protocol reg = "tcp"%string
  | _ => True
  end.
Definition anything {E : Type -> Type} X (e : E X) (x : X) : Prop := True.

Section table.
Context (deps : list string).
Implicit Types s : CtState.

Lemma table_new : table_ok deps CtState_new.
Proof. split; intros *; cbn; rewrite lookup_empty; done. Qed.

(** Changing the slots of one service. *)
Lemma table_update s f svc : table_ok deps s ->
  (forall cmap, ct_clients s !! svc = Some cmap -> forall id slot, f cmap !! id = Some slot ->
     rg_service_id (sl_reg slot) = id /\ rg_protocol (sl_reg slot) = "tcp"%string /\
     (sl_state slot = YOUNG \/ sl_state slot = ADULT)) ->
  table_ok deps (with_clients (alter f svc (ct_clients s)) s).
Proof.
  intros Hs Hf. split; cbn [ct_clients ct_wanted with_clients].
  - intros svc' cmap. destruct (decide (svc = svc')) as [<-|Hne].
    + rewrite lookup_alter_eq. intros (c & Hc & _)%fmap_Some. exact (tk_deps _ _ Hs _ _ Hc).
    + rewrite lookup_alter_ne by done. exact (tk_deps _ _ Hs svc' cmap).
  - intros svc' cmap id slot. destruct (decide (svc = svc')) as [<-|Hne].
    + rewrite lookup_alter_eq. intros (c & Hc & ->)%fmap_Some. by eapply Hf.
    + rewrite lookup_alter_ne by done. exact (tk_slots _ _ Hs svc' cmap id slot).
  - exact (tk_wanted _ _ Hs).
Qed.

Lemma table_insert s svc reg client : table_ok deps s -> svc ∈ deps -> rg_protocol reg = "tcp"%string ->
  table_ok deps (ct_insert svc reg client s).1.
Proof.
  intros Hs Hd Hp. unfold ct_insert.
  assert (Hold : forall id slot, default ∅ (ct_clients s !! svc) !! id = Some slot ->
    rg_service_id (sl_reg slot) = id /\ rg_protocol (sl_reg slot) = "tcp"%string /\ (sl_state slot = YOUNG \/ sl_state slot = ADULT)).
  { intros id slot. destruct (ct_clients s !! svc) as [cmap|] eqn:Ec; cbn; [by apply (tk_slots _ _ Hs svc cmap)|by rewrite lookup_empty]. }
  assert (Hput : forall cmap : ClientMap, (forall id slot, cmap !! id = Some slot -> rg_service_id (sl_reg slot) = id /\
      rg_protocol (sl_reg slot) = "tcp"%string /\ (sl_state slot = YOUNG \/ sl_state slot = ADULT)) ->
    table_ok deps (with_clients (<[svc := cmap]> (ct_clients s)) s)).
  { intros cmap Hc. split; cbn [ct_clients ct_wanted with_clients]; [| |exact (tk_wanted _ _ Hs)].
    - intros svc' c [[-> _]|[_ H]]%lookup_insert_Some; [done|]. exact (tk_deps _ _ Hs _ _ H).
    - intros svc' c id slot [[-> <-]|[_ H]]%lookup_insert_Some; [apply Hc|]. exact (tk_slots _ _ Hs _ _ _ _ H). }
  destruct (_ !! rg_service_id reg) eqn:Ei; apply Hput; [done|].
  intros id slot [[<- <-]|[_ H]]%lookup_insert_Some; [by split_and!; [..|left]|by apply Hold].
Qed.

Lemma table_wanted s svc regs : table_ok deps s -> table_ok deps (set_wanted svc regs s).
Proof.
  intros Hs. split; [exact (tk_deps _ _ Hs)|exact (tk_slots _ _ Hs)|]. cbn [set_wanted ct_wanted with_wanted].
  assert (Hm : forall m : gmap string DefaultRegistration, (forall id r, m !! id = Some r -> rg_service_id r = id) ->
    forall id r, foldl (fun m r => <[rg_service_id r := r]> m) m regs !! id = Some r -> rg_service_id r = id).
  { induction regs as [|r0 regs IH]; intros m Hm; [exact Hm|]. apply IH.
    intros id r [[<- <-]|[_ H]]%lookup_insert_Some; [done|by apply Hm]. }
  intros svc' m id r [[-> <-]|[_ H]]%lookup_insert_Some; [|by apply (tk_wanted _ _ Hs svc' m)].
  apply Hm. intros id' r'. by rewrite lookup_empty.
Qed.

Lemma table_state s f svc id : (forall st, st = YOUNG \/ st = ADULT -> f st = YOUNG \/ f st = ADULT) ->
  table_ok deps s -> table_ok deps (ct_state_update f svc id s).
Proof.
  intros Hf Hs. apply table_update; [done|]. intros cmap Hc id' slot.
  destruct (decide (id = id')) as [<-|Hne].
  - rewrite lookup_alter_eq. intros (sl & Hsl & ->)%fmap_Some. destruct (tk_slots _ _ Hs _ _ _ _ Hc Hsl) as (? & ? & ?). cbn. auto.
  - rewrite lookup_alter_ne by done. by apply (tk_slots _ _ Hs svc cmap).
Qed.

Lemma table_remove s svc id client : table_ok deps s -> table_ok deps (ct_remove_same svc id client s).
Proof.
  intros Hs. apply table_update; [done|]. intros cmap Hc id' slot Hl. apply (tk_slots _ _ Hs svc cmap); [done|].
  destruct (cmap !! id) as [sl|]; [|done]. case_bool_decide; [|done]. by apply lookup_delete_Some in Hl as [_ Hl].
Qed.

(** Every call keeps the table well formed. *)
Lemma table_step X (e : CEff X) s x : table_ok deps s -> table_guarantee deps X e -> table_ok deps (clocal e s x).1.
Proof.
  intros Hs Hg. destruct e; try exact Hs; cbn [clocal fst].
  - split; [exact (tk_deps _ _ Hs)|exact (tk_slots _ _ Hs)|exact (tk_wanted _ _ Hs)].
  - split; [exact (tk_deps _ _ Hs)|exact (tk_slots _ _ Hs)|exact (tk_wanted _ _ Hs)].
  - destruct x; [|exact Hs]. split; [exact (tk_deps _ _ Hs)|exact (tk_slots _ _ Hs)|exact (tk_wanted _ _ Hs)].
  - destruct Hg. by apply table_insert.
  - by apply table_wanted.
  - by apply table_remove.
  - apply table_state; [|done]. intros st [->| ->]; auto.
  - apply table_state; [|done]. auto.
Qed.
End table.

(** ** The tasks *)

(** The tasks of a container that depends on [deps]. *)
Inductive container_task (deps : list string) : task CEff -> Prop :=
| ct_snapshot svc regs : svc ∈ deps -> container_task deps (Task (apply_snapshot svc regs))
| ct_reconnect svc : svc ∈ deps -> container_task deps (Task (reconnect_missing svc))
| ct_promote zero svc id : container_task deps (Task (promote_task zero svc id))
| ct_reader fuel svc id client : container_task deps (Task (read_loop fuel svc id client)).

Definition cact X (e : CEff X) (s : CtState) (x : X) (s' : CtState) : Prop := exists x0, clocal e s x0 = (s', x).
Definition container_reach (deps : list string) : list (task CEff) * CtState -> Prop :=
  pool_reach cact (fun _ => container_task deps) CtState_new.

Section tasks.
Context (deps : list string).
Abbreviation keeps p := (guar anything (table_guarantee deps) (fun _ => True) p).

Lemma table_keeps_call {X} (e : CEff X) : table_guarantee deps X e -> keeps (call e).
Proof. by split. Qed.
Lemma table_keeps_bind {A B} (p : CProc A) (f : A -> CProc B) : keeps p -> (forall a, keeps (f a)) -> keeps (p ≫= f).
Proof. intros Hp Hf. by eapply guar_bind_use; [exact Hp|]. Qed.

Lemma build_client_keeps svc reg : svc ∈ deps -> keeps (build_client svc reg).
Proof.
  intros Hd. apply table_keeps_bind; [by apply table_keeps_call|]. intros closed.
  destruct (decide (rg_protocol reg = "tcp"%string)) as [Hp|Hp];
    [rewrite bool_decide_eq_true_2 by done|rewrite bool_decide_eq_false_2, orb_true_r by done; done].
  destruct closed; [done|]. cbn [orb negb]. apply table_keeps_bind.
  { apply table_keeps_bind; [by apply table_keeps_call|]. intros []; [done|]. by apply table_keeps_call. }
  intros []; cbn [negb]; [|done]. apply table_keeps_bind.
  { apply table_keeps_bind; [by apply table_keeps_call|]. intros []; [done|]. apply table_keeps_bind; [by apply table_keeps_call|].
    intros [client|]; [|done]. apply table_keeps_bind; [by apply table_keeps_call|]. intros _. apply table_keeps_bind; [by apply table_keeps_call|].
    intros []; [done|]. apply table_keeps_bind; [by apply table_keeps_call|done]. }
  intros result. apply table_keeps_bind; [by apply table_keeps_call|done].
Qed.

Lemma build_all_keeps svc regs : svc ∈ deps -> keeps (build_all svc regs).
Proof.
  intros Hd. induction regs as [|reg regs IH]; [done|]. apply table_keeps_bind; [by apply build_client_keeps|].
  intros built. apply table_keeps_bind; [destruct built; [by apply table_keeps_call|done]|]. intros _. exact IH.
Qed.

Lemma drop_stale_keeps svc stale : keeps (drop_stale svc stale).
Proof.
  induction stale as [|[id client] stale IH]; [done|]. apply table_keeps_bind; [by apply table_keeps_call|]. intros _.
  apply table_keeps_bind; [by apply table_keeps_call|]. intros _. exact IH.
Qed.

Lemma read_loop_keeps fuel svc id client : keeps (read_loop fuel svc id client).
Proof.
  induction fuel as [|fuel IH]; [done|]. apply table_keeps_bind; [by apply table_keeps_call|].
  intros [payload|]; (apply table_keeps_bind; [by apply table_keeps_call|]; intros _); [exact IH|by apply table_keeps_call].
Qed.

Lemma container_task_keeps t : container_task deps t -> promises anything (table_guarantee deps) t.
Proof.
  intros [svc regs Hd|svc Hd|zero svc id|fuel svc id client]; cbn [promises].
  - unfold apply_snapshot. cbv zeta. apply table_keeps_bind; [destruct (List.filter _ _); [done|by apply table_keeps_call]|]. intros _.
    apply table_keeps_bind; [by apply build_all_keeps|]. intros _. apply table_keeps_bind; [by apply table_keeps_call|]. intros wanted.
    destruct (List.map _ _); [done|]. apply table_keeps_bind; [by apply table_keeps_call|]. intros ids. apply drop_stale_keeps.
  - apply table_keeps_bind; [by apply table_keeps_call|]. intros regs. by apply build_all_keeps.
  - unfold promote_task. destruct zero; [by apply table_keeps_call|]. apply table_keeps_bind; [by apply table_keeps_call|]. intros _. by apply table_keeps_call.
  - apply read_loop_keeps.
Qed.

Lemma reach_table_ok c : container_reach deps c -> table_ok deps c.2.
Proof.
  intros Hr. refine (proj1 (pool_invariant cact _ anything (table_guarantee deps) (table_ok deps) _ _ _ _ (table_new deps) Hr)).
  - intros X e s x s' Hs Hg [x0 E]. split; [|done]. replace s' with (clocal e s x0).1 by by rewrite E. by apply table_step.
  - intros s t _. apply container_task_keeps.
Qed.
End tasks.

(** ** Forwarding *)

Lemma elem_of_adult_services (m : ClientMap) r : r ∈ adult_services m ->
  exists id slot, m !! id = Some slot /\ sl_reg slot = r /\ sl_state slot = ADULT.
Proof.
  unfold adult_services. rewrite elem_of_sort_by. intros (slot & -> & [Ha Hin]%elem_of_list_filter_bool)%list_elem_of_fmap.
  apply list_elem_of_fmap in Hin as ([id slot'] & -> & Hin). apply elem_of_map_to_list in Hin.
  exists id, slot'. split_and!; [done|done|]. by apply Z.eqb_eq.
Qed.

(** What forwarding a packet of a well formed table comes to. *)
Definition forward_end (deps : list string) (self_id service : string) (pkt : LogicPkt) (s : CtState)
  (r : result (nat * LogicPkt) ContainerError) : Prop :=
  match r with
  | Ok (client, sent) => service ∈ deps /\ sent = set_meta META_DEST_SERVER self_id pkt /\
      h_channel_id (l_header pkt) <> ""%string /\ h_command (l_header pkt) <> ""%string /\
      exists cmap id slot, ct_clients s !! service = Some cmap /\ cmap !! id = Some slot /\
        rg_service_id (sl_reg slot) = id /\ sl_state slot = ADULT /\ client = sl_client slot
  | Err e =>
      (h_channel_id (l_header pkt) = ""%string \/ h_command (l_header pkt) = ""%string) /\
        e = CtOther "empty command or channel_id" \/
      e = CtOther "no adult instances"
  end.

Lemma forward_target_end `{Message Header} deps sel self_id service pkt s : table_ok deps s -> selects sel ->
  forward_end deps self_id service pkt s (forward_target sel self_id service pkt s).
Proof.
  intros Hs Hsel. unfold forward_target.
  destruct (str_is_empty (h_channel_id (l_header pkt)) || str_is_empty (h_command (l_header pkt))) eqn:Ee.
  { left. split; [|done]. apply orb_true_iff in Ee as [E|E]; apply bool_decide_eq_true in E; auto. }
  apply orb_false_iff in Ee as [E1 E2]. apply bool_decide_eq_false in E1, E2. cbv zeta.
  destruct (ct_clients s !! service) as [cmap|] eqn:Ec; [|by right].
  destruct (adult_services cmap) as [|r0 l] eqn:Ea; [by right|].
  destruct (sel _ _) as [id|] eqn:Esel; [|by right].
  apply Hsel in Esel as (r & Hin & <-). rewrite <- Ea in Hin.
  apply elem_of_adult_services in Hin as (id & slot & Hslot & <- & Hadult).
  destruct (tk_slots _ _ Hs _ _ _ _ Ec Hslot) as (Hid & _ & _). rewrite Hid, Hslot.
  split_and!; [by apply (tk_deps _ _ Hs _ _ Ec)|done..|]. by exists cmap, id, slot.
Qed.

(** ** A concrete container *)

(** Connections are made at once; every other call succeeds. *)
Definition cworld X (e : CEff X) (s : CtState) : CtState * X :=
  clocal e s (match e in CEff X return X with
    | CClosed => false | CHas _ _ => false | CClaim _ => false | CRelease _ => tt | CConnect _ => Some O
    | CSpawnRead _ _ _ => tt | CInsert _ _ _ => false | CShutdown _ => tt | CSetWanted _ _ => tt | CWanted _ => []
    | CIds _ => [] | CRemoveSame _ _ _ => tt | CSchedulePromote _ _ => tt | CSleepAdult => tt | CTryPromote _ _ => tt
    | CForceAdult _ _ => tt | CRead _ => None | CDeliver _ => tt | CWake => tt
    end).

Definition demo_reg (id zone : string) : DefaultRegistration :=
  mkRegistration id "chat" "tcp" "10.0.0.2" 8100 [("zone:" ++ zone)%string] ∅.
Definition demo_built : CtState :=
  (run cworld (apply_snapshot "chat" [demo_reg "chat-1" "eu"; demo_reg "chat-2" "us"]) CtState_new).1.1.
Definition demo_table : CtState := (run cworld (promote_task false "chat" "chat-1") demo_built).1.1.

Lemma cworld_act X (e : CEff X) s : cact X e s (cworld X e s).2 (cworld X e s).1.
Proof. unfold cact, cworld. eexists. apply surjective_pairing. Qed.

Lemma demo_reached : exists tasks, container_reach ["chat"%string] (tasks, demo_table).
Proof.
  eexists. unfold container_reach, pool_reach. etransitivity.
  - apply (pool_run_spawn cworld _ _ cworld_act (apply_snapshot "chat" [demo_reg "chat-1" "eu"; demo_reg "chat-2" "us"])).
    constructor. left.
  - apply (pool_run_spawn cworld _ _ cworld_act (promote_task false "chat" "chat-1")). constructor.
Qed.

Definition crc_length (b : bytes) : Z := len b.
Lemma crc_selects : selects (HashSelector_lookup crc_length).
Proof. apply hash_selects. Qed.

Definition down_pkt : LogicPkt := LogicPkt_new "chat.user.talk" 7 [].
Definition down_channels : list ChannelId := [mkChannelId "gate-a_alice_1"; mkChannelId "gate-a_bob_2"].
Definition demo_route : Route :=
  from_config (mkRouteFile "account" [mkZoneFile "eu" 1; mkZoneFile "us" 1] {["alice"%string := "us"%string]}).
Definition alice_header : Header :=
  mkHeader "chat.user.talk" "gate-a_alice_1" 1 0 0 "" 0 [mkMeta META_APP "kim"; mkMeta META_ACCOUNT "alice"].

(** ** Properties *)

(** The table of instances stays well formed.  Whatever snapshots arrive and
    whichever dialers, readers and promotions run at once, every service of the table
    is one the container depends on, every instance is kept under its own id, was
    registered for "tcp" and is either young or adult, and so are the instances
    wanted. *)
Theorem container_table_typed (deps : list string) (c : list (task CEff) * CtState) (Hreach : container_reach deps c) :
  table_ok deps c.2.
Proof. by apply reach_table_ok. Qed.

Lemma container_table_typed_witness : table_ok ["chat"%string] demo_table.
Proof.
  exact (match demo_reached with
         | ex_intro _ tasks Hr => container_table_typed ["chat"%string] (tasks, demo_table) Hr end).
Defined.

(** A packet goes up to a grown-up instance.  With a well formed table and any
    selector that chooses among what it is offered, [forward] sends the packet, with
    the container's own id as the address for answers and otherwise unchanged, to the
    connection of an adult instance of the service asked for, which is one the
    container depends on; it refuses packets without channel or command, and services
    without an instance to choose; it never loses the instance it has chosen. *)
Theorem forward_reaches_adult `{Message Header} (deps : list string)
  (sel : Header -> list DefaultRegistration -> option string) (self_id service : string) (pkt : LogicPkt) (s : CtState)
  (Hs : table_ok deps s) (Hsel : selects sel) :
  forward_end deps self_id service pkt s (forward_target sel self_id service pkt s).
Proof. by apply forward_target_end. Qed.

Lemma forward_reaches_adult_witness : forward_end ["chat"%string] "gate-a" "chat"
  (mkLogicPkt alice_header []) demo_table (Ok (0%nat, set_meta META_DEST_SERVER "gate-a" (mkLogicPkt alice_header []))).
Proof.
  exact (match demo_reached with
         | ex_intro _ tasks Hr => @forward_reaches_adult countable_message ["chat"%string] (HashSelector_lookup crc_length)
             "gate-a" "chat" (mkLogicPkt alice_header []) demo_table (reach_table_ok _ _ Hr) crc_selects end).
Defined.

(** A packet comes down to the channels it was sent to.  The bytes the chat service
    makes of an answer for some channels of a gateway are pushed by that gateway to
    exactly these channels, in order, without the addressing that was added and
    otherwise unchanged; any other gateway pushes them to nobody. *)
Theorem dispatched_is_delivered `{MessageOk Header} (gateway : GatewayId) (channels : list ChannelId) (pkt : LogicPkt)
  (self_id : string) (hooks : nat) (tr : list (EventOf DEff)) (r : result unit ContainerError)
  (Hfits : header_fits (dispatch_packet gateway channels pkt)) (Hchannels : Forall channel_ok channels)
  (Hrun : exec (deliver_down self_id true hooks (marshal (Logic (dispatch_packet gateway channels pkt)))) tr r) :
  r = Ok tt /\
  let down := del_meta META_DEST_CHANNELS (del_meta META_DEST_SERVER pkt) in
  pushed tr = if bool_decide (self_id = gateway_str gateway)
              then (fun c => (channel_str c, marshal (Logic down))) <$> channels else [].
Proof. by eapply deliver_exec. Qed.

Definition all_pushed : forall X, DEff X -> unit -> unit * X := fun X e u =>
  (u, match e in DEff X return X with DPush _ _ => Ok tt | DAfterPush _ _ _ => tt end).
Definition demo_down : bytes :=
  @marshal countable_message (Logic (dispatch_packet (mkGatewayId "gate-a") down_channels down_pkt)).

Lemma dispatched_is_delivered_witness :
  fst <$> pushed (run all_pushed (@deliver_down countable_message "gate-a" true 1 demo_down) tt).1.2
  = ["gate-a_alice_1"; "gate-a_bob_2"]%string.
Proof.
  assert (Hf : @header_fits countable_message (dispatch_packet (mkGatewayId "gate-a") down_channels down_pkt))
    by (split; vm_compute; first [discriminate | reflexivity]).
  assert (Hc : Forall channel_ok down_channels) by (repeat constructor; vm_compute; discriminate).
  unfold demo_down. rewrite (proj2 (@dispatched_is_delivered countable_message countable_message_ok (mkGatewayId "gate-a") down_channels
    down_pkt "gate-a" 1 _ _ Hf Hc (exec_run all_pushed _ tt))).
  reflexivity.
Defined.

(** Accounts stay in their zones.  For a request that says who it is for, the zone
    selector picks one of the instances offered: of the zone the whitelist gives its
    account and of no other, or else of the zone its slot gives, if that has any.
    It picks none only when there is none, or none in a zone the whitelist demands.
    Two connections of one account in one app get the same instance. *)
Theorem route_keeps_zone (crc32 : bytes -> Z) (route : Route) (h : Header) (srvs : list DefaultRegistration)
  (Hn : named h) :
  chosen crc32 route h srvs (RouteSelector_lookup crc32 route h srvs) /\
  (forall z, zone_of crc32 route h = Some (z, true) <-> rt_whitelist route !! header_meta h META_ACCOUNT = Some z) /\
  (forall h', header_meta h META_ACCOUNT <> ""%string -> header_meta h' META_ACCOUNT = header_meta h META_ACCOUNT ->
     header_meta h' META_APP = header_meta h META_APP -> zone_of crc32 route h <> None ->
     RouteSelector_lookup crc32 route h' srvs = RouteSelector_lookup crc32 route h srvs).
Proof.
  split_and!; [by apply route_chosen| |intros h' ? ? ? ?; by apply route_sticky].
  intros z. unfold zone_of. destruct (rt_whitelist route !! header_meta h META_ACCOUNT) as [z'|]; [naive_solver|].
  split; [|done]. destruct (_ || _); [done|]. intros Hz.
  apply bind_Some in Hz as (zi & _ & (zf & _ & Hz)%bind_Some). done.
Qed.

Lemma route_keeps_zone_witness :
  RouteSelector_lookup crc_length demo_route alice_header [demo_reg "chat-1" "eu"; demo_reg "chat-2" "us"]
  = Some "chat-2"%string.
Proof.
  destruct (route_keeps_zone crc_length demo_route alice_header [demo_reg "chat-1" "eu"; demo_reg "chat-2" "us"]
    ltac:(left; vm_compute; discriminate)) as (Hc & _ & _).
  vm_compute in Hc |- *. destruct Hc as (r & Hin & Hr & Hz). reflexivity.
Defined.

(** A dial whose connection ends before it is entered into the table: the dial up to
    the start of the reader, the whole reader, the rest of the dial. *)
Definition demo_dial : CProc unit := apply_snapshot "chat" [demo_reg "chat-1" "eu"].
Definition demo_reader : CProc unit := read_loop 1 "chat" "chat-1" 0.
Definition dial_begun : CProc unit * CtState := run_n cworld 7 demo_dial CtState_new.
Definition reader_done : CtState := (run cworld demo_reader dial_begun.2).1.1.
Definition dial_done : CProc unit * CtState := run_n cworld 20 dial_begun.1 reader_done.

Lemma dial_done_reached :
  container_reach ["chat"%string] ([Task dial_done.1; Task (Ret (run cworld demo_reader dial_begun.2).2)], dial_done.2).
Proof.
  unfold container_reach, pool_reach. eapply rtc_l; [apply (pool_spawn _ _ (Task demo_dial)); constructor; left|].
  etransitivity; [exact (pool_run_n cworld _ _ cworld_act 7 demo_dial [] [] CtState_new)|].
  eapply rtc_l; [apply (pool_spawn _ _ (Task demo_reader)); constructor|].
  etransitivity; [exact (pool_run cworld _ _ cworld_act demo_reader [Task dial_begun.1] dial_begun.2)|].
  exact (pool_run_n cworld _ _ cworld_act 20 dial_begun.1 [] [Task (Ret _)] reader_done).
Qed.

Definition finished {E : Type -> Type} (t : task E) : Prop := match t with Task (Ret _) => True | _ => False end.

Lemma build_known_client svc reg s (answer : forall X, CEff X -> X) : has_client svc (rg_service_id reg) s = true ->
  ends (fun X e s => clocal e s (answer X e)) (build_client svc reg) (fun s' built => s' = s /\ built = false) s.
Proof.
  intros Hc. unfold build_client. apply ends_bind, ends_call. cbn [clocal fst snd].
  destruct (_ || _); [done|]. apply ends_bind, ends_bind, ends_call. cbn [clocal fst snd]. by rewrite Hc.
Qed.

(** A connection can die unnoticed.  The reader of a new connection starts before
    the connection is entered into the table: if it ends first, it removes nothing,
    and the dead connection is entered after it.  All tasks then are done while the
    table has the instance with the connection whose reader ended; and as long as the
    table has an instance, no dial of it changes anything. *)
Theorem dead_instance_kept :
  (exists dialer reader s slot, container_reach ["chat"%string] ([dialer; reader], s) /\
     finished dialer /\ reader = Task (Ret (run cworld demo_reader dial_begun.2).2) /\
     ct_clients s !! "chat"%string ≫= (.!! "chat-1"%string) = Some slot /\ sl_client slot = 0%nat) /\
  (forall svc reg s (answer : forall X, CEff X -> X), has_client svc (rg_service_id reg) s = true ->
     (run (fun X e s => clocal e s (answer X e)) (build_client svc reg) s).1.1 = s /\
     (run (fun X e s => clocal e s (answer X e)) (build_client svc reg) s).2 = false).
Proof.
  split.
  - eexists _, _, dial_done.2, _. split_and!; [exact dial_done_reached|vm_compute; exact I|reflexivity|vm_compute; reflexivity|reflexivity].
  - intros svc reg s answer Hc. by apply (ends_run _ _ (fun s' built => s' = s /\ built = false)), build_known_client.
Qed.
