(* ===== verification/System.v ===== *)
(** Gateways, the chat service and its session store together.

    Any number of gateways serve their connections and any number of chat tasks serve
    forwarded packets at once: tasks over the calls of both sides, whose steps act on
    one [World].  Against a token format of which only the valid tokens decode, every
    session the chat service keeps belongs to an account whose token a gateway
    verified, whatever clients send and however the tasks interleave.  The second
    part follows one request from the client's connection to the chat service and its
    answer back to the connection. *)

From S2P Require Import Prelude Prog Tasks Wire Pkt Msgs Location SessionStore Store Social Groups Users Interest.
From S2P Require Import AgentStore Effects Router Filter Talk Offline Login GroupCmds PeopleCmds InboxCmds BotCmds Service.
From S2P Require Import HandlerLogic ServiceSpec Gateway GatewaySpec Container ContainerSpec.
From stdpp Require Import gmap.
Open Scope Z_scope.
Open Scope kim_scope.

(** ** The world *)

Record World (S : Type) := mkWorld {
  w_gates : gmap string GwState;
  w_net : list LogicPkt;
  w_sessions : S
}.
Arguments mkWorld {S}.
Arguments w_gates {S}.
Arguments w_net {S}.
Arguments w_sessions {S}.

Inductive SysEff : Type -> Type :=
| AtGate {X : Type} (g : string) (e : GEff X) : SysEff X
| AtChat {X : Type} (e : Eff X) : SysEff X.

(** The sessions a sign-in may register. *)
Definition adds_only (Q : Session -> Prop) X (e : Eff X) : Prop :=
  match e with ESessionAdd s => Q s | _ => True end.

(** ** The sign-in of the chat service registers the session it was sent *)

Section login.
Context `{Prost} (ctx : Context) (Q : Session -> Prop) `{!Polite ctx (adds_only Q)}.

Lemma login_adds zone store pending presence :
  (forall body, read_body (request ctx) = Ok body -> Q (if str_is_empty zone then body else with_zone zone body)) ->
  always (adds_only Q) (do_sys_login_with_zone zone store pending presence ctx).
Proof.
  intros Hq. unfold do_sys_login_with_zone. destruct (read_body (request ctx)) as [body|e] eqn:Eb; [|walk].
  specialize (Hq body eq_refl). cbv zeta.
  set (body' := if str_is_empty zone then body else with_zone zone body) in *. clearbody body'. walk.
Qed.
End login.

#[export] Instance adds_only_polite ctx Q : Polite ctx (adds_only Q).
Proof. split; [split|]; [done|by intros X []|done]. Qed.

Lemma receive_adds `{Prost} svc payload pkt (Q : Session -> Prop) : read_logic payload = Ok pkt ->
  (parse (h_command (l_header pkt)) = Some LoginSignIn -> forall body, read_body pkt = Ok body ->
     Q (if str_is_empty (svc_zone svc) then body else with_zone (svc_zone svc) body)) ->
  always (adds_only Q) (Service.receive svc payload).
Proof.
  intros Hr Hq. unfold Service.receive. rewrite Hr. cbv zeta.
  assert (Hserve : forall s, parse (h_command (l_header pkt)) <> Some LoginSignIn ->
    always (adds_only Q) (serve (chat_router svc) pkt s)).
  { intros s Hne. eapply always_mono; [|by apply (serve_obeys svc pkt s)]. intros X e [Ha _]. by destruct e. }
  destruct (bool_decide_reflect (parse (h_command (l_header pkt)) = Some LoginSignIn)) as [Ep|Ep].
  - apply always_bind; [|done]. unfold serve. rewrite Ep. by apply login_adds; [apply _|exact (Hq Ep)].
  - apply always_bind; [by apply always_call|]. intros [s|[]];
      first [apply always_bind; [by apply always_call|done] |
             destruct (negb _); apply always_bind; [by apply always_call|done|by apply Hserve|done]].
Qed.

(** ** The steps of the world *)

Section system.
Context `{ProstOk} {S : Type} `{SessionStorageOk S}.
(** The configuration of each gateway, the selector they forward by, the chat service. *)
Context (cfgs : string -> GatewayConfig) (sel : Header -> list DefaultRegistration -> option string) (svc : ChatSvc).
Context (Hsel : selects sel).
(** The tokens that decode, and to what. *)
Context (valid : string -> Claims -> Prop).

Definition gate (w : World S) (g : string) : GwState := default GwState_new (w_gates w !! g).
Definition with_gate (g : string) (s : GwState) (w : World S) : World S :=
  mkWorld (<[g := s]> (w_gates w)) (w_net w) (w_sessions w).
Definition with_net (n : list LogicPkt) (w : World S) : World S := mkWorld (w_gates w) n (w_sessions w).
Definition with_sessions (s : S) (w : World S) : World S := mkWorld (w_gates w) (w_net w) s.

(** A call of gateway [g].  It can forward a packet to the instances of any well
    formed table of its container, which depends on the chat service only. *)
Definition gate_act (g : string) {X} (e : GEff X) (w : World S) : X -> World S -> Prop :=
  match e in GEff X return X -> World S -> Prop with
  | GDecode token => fun r w' => w' = w /\ forall claims, r = Ok claims -> valid token claims
  | GForward service pkt => fun r w' =>
    match r with
    | Ok _ => exists table client sent, table_ok [SN_LOGIN] table /\
        forward_target sel g service pkt table = Ok (client, sent) /\ w' = with_net (sent :: w_net w) w
    | Err _ => w' = w
    end
  | e => fun x w' => exists x0, x = (local e (gate w g) x0).2 /\ w' = with_gate g (local e (gate w g) x0).1 w
  end.

(** A call of the chat service.  A write of the session store takes effect or fails. *)
Definition chat_act {X} (e : Eff X) (w : World S) : X -> World S -> Prop :=
  match e in Eff X return X -> World S -> Prop with
  | ESessionAdd s => fun r w' =>
    match r with
    | Ok _ => exists st, st_add s (w_sessions w) = (st, Ok tt) /\ w' = with_sessions st w
    | Err _ => w' = w
    end
  | ESessionDelete a c => fun r w' =>
    match r with
    | Ok _ => exists st, st_delete a c (w_sessions w) = (st, Ok tt) /\ w' = with_sessions st w
    | Err _ => w' = w
    end
  | ESessionGet c => fun r w' => r = st_get c (w_sessions w) /\ w' = w
  | _ => fun _ w' => w' = w
  end.

Definition sys_act X (e : SysEff X) (w : World S) (x : X) (w' : World S) : Prop :=
  match e in SysEff X return X -> Prop with
  | AtGate g e => fun x => gate_act g e w x w'
  | AtChat e => fun x => chat_act e w x w'
  end x.

(** What runs: for every connection of a gateway its reception, its start, its
    frames and its end, in any order; and a chat task for every packet sent up. *)
Definition at_gate (g : string) {A} (p : GProc A) : Prog SysEff A := lift (fun X e => AtGate g e) p.
Definition at_chat {A} (p : Proc A) : Prog SysEff A := lift (fun X e => AtChat e) p.

Inductive sys_task (w : World S) : task SysEff -> Prop :=
| sys_accept g remote_ip frame : sys_task w (Task (at_gate g (accept (cfgs g) remote_ip frame)))
| sys_abandoned g id : sys_task w (Task (at_gate g (on_accept_abandoned id)))
| sys_ready g id : sys_task w (Task (at_gate g (on_channel_ready id)))
| sys_frame g id payload : sys_task w (Task (at_gate g (Gateway.receive (cfgs g) id payload)))
| sys_disconnect g id : sys_task w (Task (at_gate g (disconnect id)))
| sys_chat pkt payload : pkt ∈ w_net w -> read_logic payload = Ok pkt -> sys_task w (Task (at_chat (Service.receive svc payload))).

Definition sys_reach (st : S) : list (task SysEff) * World S -> Prop :=
  pool_reach sys_act sys_task (mkWorld ∅ [] st).

(** ** What holds of the world *)

(** The session a gateway makes of the claims of a valid token. *)
Definition genuine (s : Session) : Prop := exists g token claims n, valid token claims /\
  check_account (cl_account claims) = Ok tt /\ cl_app claims = ALLOWED_APP /\
  s_account s = cl_account claims /\ s_app s = ALLOWED_APP /\ s_gate_id s = gc_id (cfgs g) /\
  s_channel_id s = channel_id_of (cfgs g) (cl_account claims) n /\
  s_jti s = default ""%string (trimmed (cl_jti claims)) /\ s_device_id s = default ""%string (trimmed (cl_did claims)).
Definition minted (pkt : LogicPkt) : Prop := exists s, read_body pkt = Ok s /\ genuine s.
Definition vouched (m : ChannelMeta) : Prop := exists token claims, valid token claims /\
  cm_account m = cl_account claims /\ cm_app m = ALLOWED_APP.
Definition sign_in_ok (pkt : LogicPkt) : Prop := parse (h_command (l_header pkt)) = Some LoginSignIn -> minted pkt.

Record world_ok (w : World S) : Prop := {
  wo_pending : forall g id pkt, gs_pending (gate w g) !! id = Some pkt -> minted pkt;
  wo_meta : forall g id m, gs_meta (gate w g) !! id = Some m -> vouched m;
  wo_net : Forall sign_in_ok (w_net w);
  wo_live : forall ch s, live ch (w_sessions w) = Some s -> genuine s /\ ch = mkChannelId (s_channel_id s)
}.

Definition sys_guarantee X (e : SysEff X) : Prop :=
  match e with
  | AtGate _ e =>
    match e with
    | GPutPending _ pkt => minted pkt
    | GInsertMeta _ m => vouched m
    | GForward service pkt => service = SN_LOGIN -> sign_in_ok pkt
    | _ => True
    end
  | AtChat e => adds_only genuine _ e
  end.
Definition gate_rely {X} (e : GEff X) : X -> Prop :=
  match e in GEff X return X -> Prop with
  | GDecode token => fun r => forall claims, r = Ok claims -> valid token claims
  | GTakePending _ => fun o => forall pkt, o = Some pkt -> minted pkt
  | _ => fun _ => True
  end.
Definition sys_rely X (e : SysEff X) (x : X) : Prop :=
  match e in SysEff X return X -> Prop with AtGate _ e => gate_rely e | AtChat _ => fun _ => True end x.

(** ** Every step keeps it *)

Definition gate_ok (s : GwState) : Prop :=
  (forall id pkt, gs_pending s !! id = Some pkt -> minted pkt) /\ (forall id m, gs_meta s !! id = Some m -> vouched m).

Lemma gate_ok_meta s f id : gate_ok s -> (forall m, vouched m -> vouched (f m)) ->
  gate_ok (Gateway.with_meta (alter f id (gs_meta s)) s).
Proof.
  intros [Hp Hm] Hf. split; [exact Hp|]. intros id' m. cbn. destruct (decide (id = id')) as [<-|Hne].
  - rewrite lookup_alter_eq. intros (m' & Hm' & ->)%fmap_Some. by eapply Hf, Hm.
  - rewrite lookup_alter_ne by done. apply Hm.
Qed.

Lemma gate_ok_insert s id m : gate_ok s -> vouched m -> gate_ok (Gateway.with_meta (<[id := m]> (gs_meta s)) s).
Proof.
  intros [Hp Hm] Hv. split; [exact Hp|]. intros id' m'. cbn. intros [[_ <-]|[_ Hl]]%lookup_insert_Some; [done|by eapply Hm].
Qed.

Lemma local_ok g X (e : GEff X) s x0 : gate_ok s -> sys_guarantee X (AtGate g e) ->
  gate_ok (local e s x0).1 /\ (match e with GDecode _ => True | _ => gate_rely e (local e s x0).2 end).
Proof.
  intros Hs Hg. pose proof Hs as [Hp Hm]. destruct e; cbn in Hg |- *; try by split.
  - split; [by apply gate_ok_insert|done].
  - unfold note_revoke_error. destruct (gs_meta s !! channel_id) as [m|] eqn:E; cbn; [|done]. split; [|done].
    apply gate_ok_insert; [done|]. exact (Hm _ _ E).
  - split; [|done]. by apply gate_ok_meta.
  - split; [|done]. by apply gate_ok_meta.
  - split; [|done]. split; [exact Hp|]. intros id m. cbn. intros [_ Hl]%lookup_delete_Some. by eapply Hm.
  - split; [|done]. split; [|exact Hm]. intros id pkt'. cbn. intros [[_ <-]|[_ Hl]]%lookup_insert_Some; [done|by eapply Hp].
  - split; [|by intros pkt ?; eapply Hp]. split; [|exact Hm]. intros id pkt'. cbn. intros [_ Hl]%lookup_delete_Some. by eapply Hp.
Qed.

Lemma gate_with_gate g s w g' : gate (with_gate g s w) g' = if decide (g = g') then s else gate w g'.
Proof. unfold gate, with_gate. cbn. case_decide as E; [by rewrite E, lookup_insert_eq|by rewrite lookup_insert_ne]. Qed.

Lemma world_gate_ok w g : world_ok w -> gate_ok (gate w g).
Proof. intros Hw. split; [exact (wo_pending _ Hw g)|exact (wo_meta _ Hw g)]. Qed.

Lemma world_with_gate w g s : world_ok w -> gate_ok s -> world_ok (with_gate g s w).
Proof.
  intros Hw [Hp Hm]. split.
  - intros g' id pkt. rewrite gate_with_gate. case_decide; [apply Hp|apply (wo_pending _ Hw g')].
  - intros g' id m. rewrite gate_with_gate. case_decide; [apply Hm|apply (wo_meta _ Hw g')].
  - exact (wo_net _ Hw).
  - exact (wo_live _ Hw).
Qed.

Lemma sign_in_ok_meta k v pkt : sign_in_ok pkt -> sign_in_ok (set_meta k v pkt).
Proof. intros Hs. exact Hs. Qed.

Lemma world_with_sessions w st : world_ok w ->
  (forall ch s, live ch st = Some s -> genuine s /\ ch = mkChannelId (s_channel_id s)) -> world_ok (with_sessions st w).
Proof. intros Hw Hl. split; [exact (wo_pending _ Hw)|exact (wo_meta _ Hw)|exact (wo_net _ Hw)|exact Hl]. Qed.

Lemma chat_step X (e : Eff X) w x w' : world_ok w -> adds_only genuine X e -> chat_act e w x w' -> world_ok w'.
Proof.
  intros Hw Hg Ha. destruct e; cbn in Ha; try (by subst); try (by destruct Ha as [_ ->]).
  - destruct x; [|by subst]. destruct Ha as (st & Hst & ->). apply world_with_sessions; [done|].
    intros ch s. rewrite (add_live _ _ _ Hst). case_decide as E; [intros [= <-]; by split|apply (wo_live _ Hw)].
  - destruct x; [|by subst]. destruct Ha as (st & Hst & ->). apply world_with_sessions; [done|].
    intros ch s. rewrite (delete_live _ _ _ _ Hst). case_decide; [done|apply (wo_live _ Hw)].
Qed.

Lemma gate_step g X (e : GEff X) w x w' : world_ok w -> sys_guarantee X (AtGate g e) -> gate_act g e w x w' ->
  world_ok w' /\ gate_rely e x.
Proof.
  intros Hw Hg Ha.
  assert (Hl : forall x0, world_ok (with_gate g (local e (gate w g) x0).1 w) /\
    (match e with GDecode _ => True | _ => gate_rely e (local e (gate w g) x0).2 end)).
  { intros x0. destruct (local_ok g X e (gate w g) x0) as [Hok Hrely]; [by apply world_gate_ok|done|].
    split; [by apply world_with_gate|done]. }
  destruct e; try (by destruct Ha as (x0 & -> & ->); apply Hl).
  - destruct Ha as [-> Hv]. by split.
  - split; [|done]. destruct x; [|by cbn in Ha; subst]. cbn in Ha. destruct Ha as (table & client & sent & Ht & Hf & ->).
    pose proof (forward_target_end [SN_LOGIN] sel g service pkt table Ht Hsel) as Hend. rewrite Hf in Hend.
    destruct Hend as (Hin & -> & _). apply list_elem_of_singleton in Hin as ->.
    split; [exact (wo_pending _ Hw)|exact (wo_meta _ Hw)| |exact (wo_live _ Hw)].
    apply list.Forall_cons. split; [by apply sign_in_ok_meta, Hg|exact (wo_net _ Hw)].
Qed.

Lemma world_step X (e : SysEff X) w x w' : world_ok w -> sys_guarantee X e -> sys_act X e w x w' ->
  world_ok w' /\ sys_rely X e x.
Proof.
  intros Hw Hg Ha. destruct e as [X g e|X e]; [exact (gate_step g X e w x w' Hw Hg Ha)|].
  split; [exact (chat_step X e w x w' Hw Hg Ha)|done].
Qed.

(** ** Every task promises it *)

Abbreviation keeps g p := (guar (fun X e => sys_rely X (AtGate g e)) (fun X e => sys_guarantee X (AtGate g e)) (fun _ => True) p).

Lemma keeps_call g {X} (e : GEff X) : sys_guarantee X (AtGate g e) -> keeps g (call e).
Proof. by split. Qed.
Lemma keeps_bind g {A B} (p : GProc A) (f : A -> GProc B) : keeps g p -> (forall a, keeps g (f a)) -> keeps g (p ≫= f).
Proof. intros Hp Hf. by eapply guar_bind_use; [exact Hp|]. Qed.
Lemma keeps_rely g {X B} (e : GEff X) (f : X -> GProc B) : sys_guarantee X (AtGate g e) ->
  (forall x, gate_rely e x -> keeps g (f x)) -> keeps g (call e ≫= f).
Proof. by split. Qed.
End system.

Ltac gate_walk :=
  repeat match goal with
  | |- forall _, _ => intros ?
  | |- guar _ _ _ (Ret _) => exact I
  | |- guar _ _ _ (call _) => apply keeps_call; exact I
  | |- guar _ _ _ (mbind _ _) => apply keeps_bind
  | |- guar _ _ _ (match ?x with _ => _ end) => destruct x
  | _ => progress cbv zeta
  end.

Section tasks.
Context `{ProstOk} {S : Type} `{SessionStorageOk S}.
Context (cfgs : string -> GatewayConfig) (svc : ChatSvc) (valid : string -> Claims -> Prop).
Abbreviation keeps g p := (guar (fun X e => sys_rely cfgs valid X (AtGate g e)) (fun X e => sys_guarantee cfgs valid X (AtGate g e)) (fun _ => True) p).

Lemma refuse_keeps g {A} h status why : keeps g (refuse (A := A) h status why).
Proof. unfold refuse. gate_walk. Qed.

Lemma check_token_keeps g h claims jti did cred {A} (k : GProc (result A GwError)) :
  keeps g k -> keeps g (check_token (cfgs g) h claims jti did cred k).
Proof.
  intros Hk. unfold check_token, check_revoked, check_device, check_epoch. gate_walk; first [exact Hk|apply refuse_keeps].
Qed.

Lemma heartbeat_keeps g id : keeps g (heartbeat (cfgs g) id).
Proof.
  unfold heartbeat, beat_revoked, beat_epoch, beat_device, beat_renew, revoke_error, closed, close_now, generate_token.
  gate_walk.
Qed.

Lemma forward_keeps g service pkt : (service = SN_LOGIN -> sign_in_ok cfgs valid pkt) -> keeps g (forward_logic service pkt).
Proof.
  intros Hs. eapply (guar_bind_use _ _ (fun p => service = SN_LOGIN -> sign_in_ok cfgs valid p)).
  - split; [exact I|]. intros m _. cbn. intros E. by destruct m; apply Hs.
  - intros p Hp. apply keeps_bind; [by apply keeps_call|done].
Qed.

Lemma receive_keeps g id payload : keeps g (Gateway.receive (cfgs g) id payload).
Proof.
  unfold Gateway.receive. destruct (read payload) as [[p|p]|e]; [| |done].
  - destruct (_ =? _); [|done]. apply keeps_bind; [apply heartbeat_keeps|]. gate_walk.
  - cbv zeta. apply keeps_bind; [|intros r; gate_walk]. apply forward_keeps. intros Hs Hp.
    by apply chat_command_no_sign_in in Hs.
Qed.

Lemma accept_keeps g remote_ip frame : keeps g (accept (cfgs g) remote_ip frame).
Proof.
  unfold accept. destruct frame as [payload|e]; [|done]. destruct (read_logic payload) as [pkt|e]; [|done]. cbv zeta.
  destruct (negb _); [apply refuse_keeps|]. destruct (read_body pkt) as [req|e]; [|apply refuse_keeps].
  eapply (guar_bind_use _ _ (fun r => forall claims, r = Ok claims ->
    valid (login_req_token req) claims /\ check_account (cl_account claims) = Ok tt)).
  { split; [exact I|]. intros [claims|e] Hv; cbn; [|done]. intros c. specialize (Hv claims eq_refl).
    destruct (check_account (cl_account claims)) as [[]|] eqn:Ea; [|done]. by intros [= <-]. }
  intros [claims|e] Hv; [|apply refuse_keeps]. destruct (Hv claims eq_refl) as [Hvalid Ha].
  destruct (bool_decide_reflect (cl_app claims = ALLOWED_APP)) as [Eapp|]; cbn [negb]; [|apply refuse_keeps].
  destruct (gc_require_jti _ && _); [apply refuse_keeps|]. apply check_token_keeps.
  eapply (guar_bind_use _ _ (fun id => exists n, id = channel_id_of (cfgs g) (cl_account claims) n)).
  { split; [exact I|]. intros n _. by exists n. }
  intros id [n Hid]. apply keeps_bind.
  { unfold insert_meta. apply keeps_bind; [by apply keeps_call|]. intros now. apply keeps_call.
    by exists (login_req_token req), claims. }
  intros _. apply keeps_bind; [|done]. apply keeps_call. eexists. split; [by apply read_write_body|].
  exists g, (login_req_token req), claims, n. by rewrite Hid.
Qed.

Lemma ready_keeps g id : keeps g (on_channel_ready id).
Proof.
  unfold on_channel_ready. apply (keeps_rely cfgs valid); [exact I|]. intros [pkt|] Hp; [|done].
  apply keeps_bind; [|intros r; gate_walk]. apply forward_keeps. intros _ _. by apply (Hp pkt).
Qed.

Lemma disconnect_keeps g id : keeps g (disconnect id).
Proof. unfold disconnect. apply keeps_bind; [|intros r; gate_walk]. apply forward_keeps. intros _ Hp. by vm_compute in Hp. Qed.
End tasks.

(** ** Every task of the system *)

Section reach.
Context `{ProstOk} {S : Type} `{SessionStorageOk S}.
Context (cfgs : string -> GatewayConfig) (sel : Header -> list DefaultRegistration -> option string) (svc : ChatSvc).
Context (Hsel : selects sel) (valid : string -> Claims -> Prop).

Lemma genuine_zone zone s : genuine cfgs valid s -> genuine cfgs valid (if str_is_empty zone then s else with_zone zone s).
Proof. intros Hs. by destruct (str_is_empty zone). Qed.

Lemma chat_guar (p : Proc unit) : always (adds_only (genuine cfgs valid)) p ->
  promises (sys_rely cfgs valid) (sys_guarantee cfgs valid) (Task (at_chat p)).
Proof.
  intros Hp. cbn [promises]. apply guar_lift. induction p as [a|X e k IH]; [done|]. destruct Hp as [He Hk].
  split; [exact He|]. intros x _. by apply IH.
Qed.

Lemma gate_promises g {A} (p : GProc A) :
  guar (fun X e => sys_rely cfgs valid X (AtGate g e)) (fun X e => sys_guarantee cfgs valid X (AtGate g e)) (fun _ => True) p ->
  promises (sys_rely cfgs valid) (sys_guarantee cfgs valid) (Task (at_gate g p)).
Proof. intros Hp. cbn [promises]. by apply guar_lift. Qed.

Lemma sys_task_promises (w : World S) t : world_ok cfgs valid w -> sys_task cfgs svc w t ->
  promises (sys_rely cfgs valid) (sys_guarantee cfgs valid) t.
Proof.
  intros Hw [g ip frame|g id|g id|g id payload|g id|pkt payload Hin Hread].
  - apply gate_promises, accept_keeps.
  - apply gate_promises. unfold on_accept_abandoned. gate_walk.
  - apply gate_promises, ready_keeps.
  - apply gate_promises, receive_keeps.
  - apply gate_promises, disconnect_keeps.
  - apply chat_guar. eapply receive_adds; [exact Hread|]. intros Hp body Hb. apply genuine_zone.
    destruct (proj1 (list.Forall_forall _ _) (wo_net _ _ _ Hw) pkt Hin Hp) as (s & Hs & Hg). congruence.
Qed.

Lemma reach_world_ok st c : (forall ch, live ch st = None) -> sys_reach cfgs sel svc valid st c ->
  world_ok cfgs valid c.2.
Proof.
  intros Hst Hr.
  refine (proj1 (pool_invariant (sys_act sel valid) (sys_task cfgs svc) (sys_rely cfgs valid) (sys_guarantee cfgs valid)
    (world_ok cfgs valid) _ _ _ _ _ Hr)).
  - intros X e w x w' Hw Hg Ha. by eapply world_step.
  - intros w t Hw Ht. by eapply sys_task_promises.
  - assert (Hg : forall g, gate (mkWorld ∅ [] st) g = GwState_new) by (intros g; unfold gate; cbn [w_gates]; by rewrite lookup_empty).
    split; [intros g id pkt; rewrite Hg; cbn [GwState_new gs_pending gs_meta]; by rewrite lookup_empty..|constructor|].
    intros ch s. cbn. by rewrite Hst.
Qed.
End reach.

(** ** A concrete run: alice signs in *)

Section demo.
#[local] Existing Instance demo_prost.
#[local] Existing Instance demo_prost_ok.

Definition demo_cfgs (g : string) : GatewayConfig := mkGatewayConfig g 3600 true true false true.
Definition demo_valid (token : string) (claims : Claims) : Prop := claims = demo_claims.
Definition demo_svc : ChatSvc := mkChatSvc "" false NoopFilter false.
Definition demo_sel : Header -> list DefaultRegistration -> option string := HashSelector_lookup crc_length.

(** Tokens decode to alice's claims, the container has one adult instance, the
    directories are empty and nothing fails. *)
Definition demo_gate_call (g : string) X (e : GEff X) (w : World Inner) : World Inner * X :=
  match e in GEff X return World Inner * X with
  | GDecode _ => (w, Ok demo_claims)
  | GForward service pkt =>
    match forward_target demo_sel g service pkt demo_table with
    | Ok (_, sent) => (with_net (sent :: w_net w) w, Ok tt)
    | Err _ => (w, Err "no instance"%string)
    end
  | e => let r := answering demo_answers _ e (gate w g) in (with_gate g r.1 w, r.2)
  end.
Definition demo_chat_call X (e : Eff X) (w : World Inner) : World Inner * X :=
  match e in Eff X return World Inner * X with
  | ESessionAdd s => (with_sessions (mem_add s (w_sessions w)).1 w, Ok tt)
  | ESessionDelete a c => (with_sessions (mem_delete a c (w_sessions w)).1 w, Ok tt)
  | ESessionGet c => (w, mem_get c (w_sessions w))
  | e => (w, (quiet _ e tt).2)
  end.
Definition demo_call X (e : SysEff X) (w : World Inner) : World Inner * X :=
  match e in SysEff X return World Inner * X with
  | AtGate g e => demo_gate_call g _ e w
  | AtChat e => demo_chat_call _ e w
  end.

Lemma demo_call_act X (e : SysEff X) w : sys_act demo_sel demo_valid X e w (demo_call X e w).2 (demo_call X e w).1.
Proof.
  destruct e as [X g e|X e].
  - destruct e; cbn [sys_act gate_act demo_call demo_gate_call]; try (match goal with |- context [answering demo_answers _ ?e _] => exists (store_answer demo_answers e) end; split; reflexivity).
    + split; [done|]. by intros c [= <-].
    + destruct (forward_target demo_sel g service pkt demo_table) as [[client sent]|err] eqn:Ef; [|done].
      cbn [fst snd]. destruct demo_reached as [tasks Hr]. exists demo_table, client, sent. split_and!; [|done|done].
      exact (reach_table_ok _ _ Hr).
  - destruct e; cbn [sys_act chat_act demo_call demo_chat_call fst snd]; try done; try (by eexists).
Qed.

Definition demo_w0 : World Inner := mkWorld ∅ [] Inner_default.
Definition demo_w1 : World Inner :=
  (run demo_call (at_gate "gate-a" (accept (demo_cfgs "gate-a") "10.0.0.1" (Ok demo_sign_in))) demo_w0).1.1.
Definition demo_w2 : World Inner := (run demo_call (at_gate "gate-a" (on_channel_ready "gate-a_alice_1")) demo_w1).1.1.
Definition demo_up : LogicPkt := default demo_pkt (head (w_net demo_w2)).
Definition demo_w3 : World Inner := (run demo_call (at_chat (Service.receive demo_svc (marshal (Logic demo_up)))) demo_w2).1.1.

Lemma demo_step {A} (p : Prog SysEff A) c w w' :
  (exists tasks, rtc (pool_step (sys_act demo_sel demo_valid) (sys_task demo_cfgs demo_svc)) c (tasks, w)) ->
  sys_task demo_cfgs demo_svc w (Task p) -> (run demo_call p w).1.1 = w' ->
  exists tasks, rtc (pool_step (sys_act demo_sel demo_valid) (sys_task demo_cfgs demo_svc)) c (tasks, w').
Proof.
  intros [tasks Hr] Ht <-. eexists. etransitivity; [exact Hr|].
  exact (pool_run_spawn demo_call _ _ demo_call_act p tasks w Ht).
Qed.

Lemma demo_up_sent : demo_up ∈ w_net demo_w2.
Proof.
  assert (E : match w_net demo_w2 with [] => false | _ => true end = true) by (vm_compute; reflexivity).
  unfold demo_up. destruct (w_net demo_w2) as [|pkt l]; [done|left].
Qed.
Lemma demo_up_read : read_logic (marshal (Logic demo_up)) = Ok demo_up.
Proof. vm_compute. reflexivity. Qed.

Lemma demo_signed_in : exists tasks, sys_reach demo_cfgs demo_sel demo_svc demo_valid Inner_default (tasks, demo_w3).
Proof.
  refine (demo_step _ _ demo_w2 demo_w3 (demo_step _ _ demo_w1 demo_w2 (demo_step _ _ demo_w0 demo_w1 _ _ eq_refl) _ eq_refl) _ eq_refl).
  - exists []. apply rtc_refl.
  - apply sys_accept.
  - apply sys_ready.
  - exact (sys_chat _ _ _ _ _ demo_up_sent demo_up_read).
Qed.

Lemma demo_live : live (mkChannelId "gate-a_alice_1") (w_sessions demo_w3)
  = Some (mkSession "gate-a_alice_1" "gate-a" "alice" "" "" "10.0.0.1" "web" "kim" [] "jti-1" "did-1").
Proof. vm_compute. reflexivity. Qed.
End demo.

(** (C1) Sessions are authentic.  Start any number of gateways and the chat service
    with an empty session store, and let connections be received, started, served
    and ended, and packets be handled, in any order and interleaving, whatever
    clients send, whatever fails: every session the store ever holds is one a gateway
    made of the claims of a valid token, for the account and app of these claims,
    under the channel id the gateway made for this account; every connection a
    gateway knows is vouched for by a valid token; and every sign-in on its way to
    the chat service carries such a session. *)
Theorem sessions_authentic `{ProstOk} {S : Type} `{SessionStorageOk S} (cfgs : string -> GatewayConfig)
  (sel : Header -> list DefaultRegistration -> option string) (svc : ChatSvc) (valid : string -> Claims -> Prop)
  (st : S) (c : list (task SysEff) * World S) (Hsel : selects sel) (Hst : forall ch, live ch st = None)
  (Hreach : sys_reach cfgs sel svc valid st c) :
  (forall ch s, live ch (w_sessions c.2) = Some s -> genuine cfgs valid s /\ ch = mkChannelId (s_channel_id s)) /\
  (forall g id m, gs_meta (gate c.2 g) !! id = Some m -> vouched valid m) /\
  (forall pkt, pkt ∈ w_net c.2 -> parse (h_command (l_header pkt)) = Some LoginSignIn ->
     exists s, read_body pkt = Ok s /\ genuine cfgs valid s).
Proof.
  pose proof (reach_world_ok cfgs sel svc Hsel valid st c Hst Hreach) as Hw. split_and!.
  - exact (wo_live _ _ _ Hw).
  - exact (wo_meta _ _ _ Hw).
  - intros pkt Hin Hp. exact (proj1 (list.Forall_forall _ _) (wo_net _ _ _ Hw) pkt Hin Hp).
Qed.

Lemma sessions_authentic_witness : genuine demo_cfgs demo_valid
  (mkSession "gate-a_alice_1" "gate-a" "alice" "" "" "10.0.0.1" "web" "kim" [] "jti-1" "did-1").
Proof.
  assert (Hempty : forall ch, live ch Inner_default = None) by (intros ch; reflexivity).
  exact (match demo_signed_in with ex_intro _ tasks Hr =>
    proj1 (proj1 (@sessions_authentic demo_prost demo_prost_ok Inner _ _ demo_cfgs demo_sel demo_svc demo_valid
      Inner_default (tasks, demo_w3) (hash_selects crc_length) Hempty Hr) _ _ demo_live) end).
Defined.

(** ** A request and its answer *)

Section request.
Context `{ProstOk} (cfg : GatewayConfig) (sel : Header -> list DefaultRegistration -> option string) (svc : ChatSvc).

(** The packet a gateway's container hands to an instance of the chat service. *)
Lemma forwarded_same service up table client sent deps : table_ok deps table -> selects sel ->
  forward_target sel (gc_id cfg) service up table = Ok (client, sent) ->
  l_header sent = l_header (set_meta META_DEST_SERVER (gc_id cfg) up) /\ l_body sent = l_body up /\
  get_meta META_DEST_SERVER sent = Some (gc_id cfg).
Proof.
  intros Ht Hs Hf. pose proof (forward_target_end deps sel (gc_id cfg) service up table Ht Hs) as Hend.
  rewrite Hf in Hend. destruct Hend as (_ & -> & _). split_and!; [done|done|apply get_meta_set_meta_eq].
Qed.
End request.

(** The packets a trace forwards. *)
Definition forwarded_in (ev : GEvent) : option (string * LogicPkt) :=
  match ev with Ev e _ => match e with GForward service pkt => Some (service, pkt) | _ => None end end.

Lemma forwarded_of_client `{Prost} cfg id payload p tr a service up x : read payload = Ok (Logic p) ->
  exec (Gateway.receive cfg id payload) tr a -> Ev (GForward service up) x ∈ tr -> exists m, up = stamped id m p.
Proof.
  intros Hr He Hin. destruct (receive_logic_exec cfg id payload p tr a Hr He) as (m & fwd & rest & -> & Hrest).
  exists m. repeat (apply elem_of_cons in Hin as [Hin|Hin]; [by apply (f_equal forwarded_in) in Hin; simplify_eq/=|]).
  destruct fwd as [u|e]; [by subst; apply not_elem_of_nil in Hin|]. destruct Hrest as [y ->].
  apply elem_of_cons in Hin as [Hin|Hin]; [by apply (f_equal forwarded_in) in Hin|by apply not_elem_of_nil in Hin].
Qed.

(** (C4) A request gets its answer.  Follow one packet of a client: the gateway of its
    connection forwards it, the container picks an instance of the chat service, the
    instance handles it, and the gateway delivers what comes back.  If the session
    the store has for the connection's channel is one of this connection, and the
    packet is no typing notice to an invalid name, then the chat service answers exactly
    once, to this gateway for this channel, and the gateway pushes exactly one packet
    for it, to this connection alone: an answer with the command, sequence number and
    destination the client sent. *)
Theorem request_answered `{ProstOk} (cfg : GatewayConfig) (sel : Header -> list DefaultRegistration -> option string)
  (svc : ChatSvc) (deps : list string) (table : CtState) (id service : string) (payload : bytes) (p up sent : LogicPkt)
  (client : nat) (up_tr : list GEvent) (chat_tr : list Event) (a1 a2 : unit)
  (Hread : read payload = Ok (Logic p)) (Hid : channel_ok (mkChannelId id))
  (Hgate : exec (Gateway.receive cfg id payload) up_tr a1) (Hup : Ev (GForward service up) (Ok tt) ∈ up_tr)
  (Htable : table_ok deps table) (Hsel : selects sel)
  (Hforward : forward_target sel (gc_id cfg) service up table = Ok (client, sent)) (Hfits : header_fits sent)
  (Htyping : ~ untypable sent)
  (Hchat : exec (Service.receive svc (marshal (Logic sent))) chat_tr a2)
  (Hsession : forall s, Ev (ESessionGet (mkChannelId id)) (Ok s) ∈ chat_tr -> s_channel_id s = id /\ s_gate_id s = gc_id cfg) :
  let gateway := mkGatewayId (gc_id cfg) in
  let channels := [mkChannelId id] in
  exists reply, responses chat_tr = [(gateway, channels, reply)] /\
    forall hooks down_tr r, header_fits (dispatch_packet gateway channels reply) ->
      exec (deliver_down (gc_id cfg) true hooks (marshal (Logic (dispatch_packet gateway channels reply)))) down_tr r ->
      exists down, pushed down_tr = [(id, marshal (Logic down))] /\
        h_flag (l_header down) = Flag_as_i32 Response /\ h_command (l_header down) = h_command (l_header p) /\
        h_sequence (l_header down) = h_sequence (l_header p) /\ h_dest (l_header down) = h_dest (l_header p) /\
        h_channel_id (l_header down) = id.
Proof.
  cbv zeta. pose proof (forwarded_of_client cfg id payload p up_tr a1 service up _ Hread Hgate Hup) as (m & ->).
  destruct (forwarded_same cfg sel service _ table client sent deps Htable Hsel Hforward) as (Hh & _ & Hdest).
  destruct (stamped_same id m p) as (_ & Hc & Hcmd & Hseq & Hdst & _).
  assert (Hch : h_channel_id (l_header sent) = id) by (rewrite Hh; exact Hc).
  destruct (receive_answers svc (marshal (Logic sent)) sent chat_tr a2 (read_marshal sent Hfits) Hchat)
    as (s & replies & (reply & Hresp & (Hflag & Hcmd' & Hseq' & Hch' & Hdst' & _))%answered_one & Hs); [|done].
  assert (Es : s_channel_id s = id /\ s_gate_id s = gc_id cfg).
  { destruct Hs as [-> |Hs]; [|rewrite Hch in Hs; by apply Hsession]. cbn. by rewrite Hch, Hdest. }
  destruct Es as [Es1 Es2]. unfold sent_back in Hresp. rewrite Es1, Es2 in Hresp. exists reply. split; [done|].
  intros hooks down_tr r Hf Hdown.
  destruct (deliver_exec _ _ _ _ _ _ _ Hf (proj2 (list.Forall_singleton _ _) Hid) Hdown) as [_ Hp].
  rewrite bool_decide_eq_true_2 in Hp by done. eexists. split; [exact Hp|]. cbn.
  rewrite Hflag, Hcmd', Hseq', Hch', Hdst', Hch, Hh. by split_and!.
Qed.

(** *** Alice blocks bob *)

Section demo_request.
#[local] Existing Instance demo_prost.
#[local] Existing Instance demo_prost_ok.

Definition block_bytes : bytes := marshal (Logic (mkLogicPkt (mkHeader CMD_BLOCK_ADD "" 7 0 0 "bob" 0 []) [])).
Definition block_read : LogicPkt := mkLogicPkt (mkHeader CMD_BLOCK_ADD "" 7 0 0 "bob" 0 []) [].
Definition block_id : string := "gate-a_alice_1".
Definition block_up : LogicPkt := stamped block_id (gs_meta demo_online !! block_id) block_read.
Definition block_sent : LogicPkt := set_meta META_DEST_SERVER "gate-a" block_up.

(** The session store has alice's session, "bob" exists. *)
Definition served X (e : Eff X) (u : unit) : unit * X :=
  match e in Eff X return unit * X -> unit * X with
  | ESessionGet _ => fun _ => (tt, mem_get (mkChannelId block_id) (w_sessions demo_w3))
  | EUserExists _ _ => fun _ => (tt, Ok true)
  | _ => fun r => r
  end (quiet X e u).

Definition sessions_got (tr : list Event) : list (result Session SessionError) :=
  omap (fun ev => match ev with @Ev _ X e x => match e in Eff X return X -> _ with
    | ESessionGet _ => fun r => Some r | _ => fun _ => None end x end) tr.

Lemma got_session tr ch s : Ev (ESessionGet ch) (Ok s) ∈ tr -> Ok s ∈ sessions_got tr.
Proof. intros Hin. apply list_elem_of_omap. by eexists. Qed.

Definition block_up_tr : list GEvent := (run (answering demo_answers) (Gateway.receive demo_gateway block_id block_bytes) demo_online).1.2.
Definition block_chat_tr : list Event := (run served (Service.receive demo_svc (marshal (Logic block_sent))) tt).1.2.

Lemma request_answered_witness : length (responses block_chat_tr) = 1%nat.
Proof.
  assert (Hread : read block_bytes = Ok (Logic block_read)) by (vm_compute; reflexivity).
  assert (Hid : channel_ok (mkChannelId block_id)) by (split; vm_compute; [discriminate|reflexivity]).
  assert (Hup : Ev (GForward "chat" block_up) (Ok tt) ∈ block_up_tr).
  { assert (E : block_up_tr = [Ev (GGetMeta block_id) (gs_meta demo_online !! block_id); Ev (GForward "chat" block_up) (Ok tt)])
      by (vm_compute; reflexivity). rewrite E. right; left. }
  assert (Htable : table_ok [SN_LOGIN] demo_table).
  { destruct demo_reached as [tasks Hr]. exact (reach_table_ok _ _ Hr). }
  assert (Hforward : forward_target demo_sel (gc_id demo_gateway) "chat" block_up demo_table = Ok (0%nat, block_sent))
    by (vm_compute; reflexivity).
  assert (Hfits : header_fits block_sent) by (split; vm_compute; first [reflexivity | intros Hlt; discriminate Hlt]).
  assert (Hcmd : parse (h_command (l_header block_sent)) <> Some Wire.Typing) by (vm_compute; intros Hc; discriminate Hc).
  assert (Hgot : sessions_got block_chat_tr
    = [Ok (mkSession block_id "gate-a" "alice" "" "" "10.0.0.1" "web" "kim" [] "jti-1" "did-1")]) by (vm_compute; reflexivity).
  assert (Hsession : forall s, Ev (ESessionGet (mkChannelId block_id)) (Ok s) ∈ block_chat_tr ->
    s_channel_id s = block_id /\ s_gate_id s = gc_id demo_gateway).
  { intros s Hin. apply got_session in Hin. rewrite Hgot in Hin. apply list_elem_of_singleton in Hin. injection Hin as ->. split; reflexivity. }
  destruct (request_answered demo_gateway demo_sel demo_svc [SN_LOGIN] demo_table block_id "chat" block_bytes block_read
    block_up block_sent 0 block_up_tr block_chat_tr _ _ Hread Hid (exec_run _ _ _) Hup Htable (hash_selects crc_length)
    Hforward Hfits (fun E => match Hcmd (proj1 E) with end) (exec_run served _ tt) Hsession) as (reply & E & _).
  rewrite E. reflexivity.
Defined.
End demo_request.
