(* ===== verification/RoyalMsgs.v ===== *)
(** The messages of the HTTP interface between the chat service and the royal
    service (proto/pkt.proto, the bodies of /internal and /api/v1), as prost generates
    them, and their codec.

    [royal_msg] lists the message types, [RoyalProst] is a codec for each of them with
    the law [RoyalProstOk]; the messages the interface shares with the long connection
    are those of Msgs.v.  [demo_royal] is a concrete codec with that law. *)

From S2P Require Import Prelude Wire Pkt Msgs.
Open Scope Z_scope.
Open Scope kim_scope.

(** ** Messages *)

Record PbDeliveryTarget := mkPbDeliveryTarget {
  pb_delivery_target_account : string;
  pb_delivery_target_target_id : string
}.
#[export] Instance PbDeliveryTarget_eq_dec : EqDecision PbDeliveryTarget.
Proof. solve_decision. Defined.
#[export] Instance PbDeliveryTarget_countable : Countable PbDeliveryTarget.
Proof. by refine (inj_countable' (fun '(mkPbDeliveryTarget x0 x1) => (x0, x1))
  (fun '(x0, x1) => mkPbDeliveryTarget x0 x1) _); intros []. Defined.
Record InsertMessageReq := mkInsertMessageReq {
  insert_message_req_sender : string;
  insert_message_req_dest : string;
  insert_message_req_send_time : Z;
  insert_message_req_message : option MessageReq;
  insert_message_req_members : list string;
  insert_message_req_client_id : string;
  insert_message_req_online_targets : list PbDeliveryTarget
}.
#[export] Instance InsertMessageReq_eq_dec : EqDecision InsertMessageReq.
Proof. solve_decision. Defined.
#[export] Instance InsertMessageReq_countable : Countable InsertMessageReq.
Proof. by refine (inj_countable' (fun '(mkInsertMessageReq x0 x1 x2 x3 x4 x5 x6) => (x0, x1, x2, x3, x4, x5, x6))
  (fun '(x0, x1, x2, x3, x4, x5, x6) => mkInsertMessageReq x0 x1 x2 x3 x4 x5 x6) _); intros []. Defined.
Record InsertFanout := mkInsertFanout {
  insert_fanout_type : Z;
  insert_fanout_body : string;
  insert_fanout_extra : string;
  insert_fanout_sender : string;
  insert_fanout_dest : string;
  insert_fanout_kind : Z;
  insert_fanout_recipients : list string
}.
#[export] Instance InsertFanout_eq_dec : EqDecision InsertFanout.
Proof. solve_decision. Defined.
#[export] Instance InsertFanout_countable : Countable InsertFanout.
Proof. by refine (inj_countable' (fun '(mkInsertFanout x0 x1 x2 x3 x4 x5 x6) => (x0, x1, x2, x3, x4, x5, x6))
  (fun '(x0, x1, x2, x3, x4, x5, x6) => mkInsertFanout x0 x1 x2 x3 x4 x5 x6) _); intros []. Defined.
Record InsertMessageResp := mkInsertMessageResp {
  insert_message_resp_message_id : Z;
  insert_message_resp_send_time : Z;
  insert_message_resp_duplicate : bool;
  insert_message_resp_fanout : option InsertFanout
}.
#[export] Instance InsertMessageResp_eq_dec : EqDecision InsertMessageResp.
Proof. solve_decision. Defined.
#[export] Instance InsertMessageResp_countable : Countable InsertMessageResp.
Proof. by refine (inj_countable' (fun '(mkInsertMessageResp x0 x1 x2 x3) => (x0, x1, x2, x3))
  (fun '(x0, x1, x2, x3) => mkInsertMessageResp x0 x1 x2 x3) _); intros []. Defined.
Record AckMessageReq := mkAckMessageReq {
  ack_message_req_account : string;
  ack_message_req_message_id : Z;
  ack_message_req_message_ids : list Z;
  ack_message_req_target_id : string;
  ack_message_req_app : string
}.
#[export] Instance AckMessageReq_eq_dec : EqDecision AckMessageReq.
Proof. solve_decision. Defined.
#[export] Instance AckMessageReq_countable : Countable AckMessageReq.
Proof. by refine (inj_countable' (fun '(mkAckMessageReq x0 x1 x2 x3 x4) => (x0, x1, x2, x3, x4))
  (fun '(x0, x1, x2, x3, x4) => mkAckMessageReq x0 x1 x2 x3 x4) _); intros []. Defined.
Record OfflineIndexReq := mkOfflineIndexReq {
  offline_index_req_account : string;
  offline_index_req_message_id : Z;
  offline_index_req_target_id : string;
  offline_index_req_app : string;
  offline_index_req_resume : bool
}.
#[export] Instance OfflineIndexReq_eq_dec : EqDecision OfflineIndexReq.
Proof. solve_decision. Defined.
#[export] Instance OfflineIndexReq_countable : Countable OfflineIndexReq.
Proof. by refine (inj_countable' (fun '(mkOfflineIndexReq x0 x1 x2 x3 x4) => (x0, x1, x2, x3, x4))
  (fun '(x0, x1, x2, x3, x4) => mkOfflineIndexReq x0 x1 x2 x3 x4) _); intros []. Defined.
Record DeliveryBackfillReq := mkDeliveryBackfillReq {
  delivery_backfill_req_app : string;
  delivery_backfill_req_account : string;
  delivery_backfill_req_target_id : string
}.
#[export] Instance DeliveryBackfillReq_eq_dec : EqDecision DeliveryBackfillReq.
Proof. solve_decision. Defined.
#[export] Instance DeliveryBackfillReq_countable : Countable DeliveryBackfillReq.
Proof. by refine (inj_countable' (fun '(mkDeliveryBackfillReq x0 x1 x2) => (x0, x1, x2))
  (fun '(x0, x1, x2) => mkDeliveryBackfillReq x0 x1 x2) _); intros []. Defined.
Record AuthReq := mkAuthReq {
  auth_req_account : string;
  auth_req_password : string;
  auth_req_device_credential : string;
  auth_req_enroll_device : bool;
  auth_req_password_sealed : bytes;
  auth_req_key_id : string
}.
#[export] Instance AuthReq_eq_dec : EqDecision AuthReq.
Proof. solve_decision. Defined.
#[export] Instance AuthReq_countable : Countable AuthReq.
Proof. by refine (inj_countable' (fun '(mkAuthReq x0 x1 x2 x3 x4 x5) => (x0, x1, x2, x3, x4, x5))
  (fun '(x0, x1, x2, x3, x4, x5) => mkAuthReq x0 x1 x2 x3 x4 x5) _); intros []. Defined.
Record AccountQuery := mkAccountQuery {
  account_query_account : string
}.
#[export] Instance AccountQuery_eq_dec : EqDecision AccountQuery.
Proof. solve_decision. Defined.
#[export] Instance AccountQuery_countable : Countable AccountQuery.
Proof. by refine (inj_countable' (fun '(mkAccountQuery x0) => x0)
  mkAccountQuery _); intros []. Defined.
Record AccountExists := mkAccountExists {
  account_exists_exists : bool;
  account_exists_kind : Z;
  account_exists_owner_account : string
}.
#[export] Instance AccountExists_eq_dec : EqDecision AccountExists.
Proof. solve_decision. Defined.
#[export] Instance AccountExists_countable : Countable AccountExists.
Proof. by refine (inj_countable' (fun '(mkAccountExists x0 x1 x2) => (x0, x1, x2))
  (fun '(x0, x1, x2) => mkAccountExists x0 x1 x2) _); intros []. Defined.
Record KickAccount := mkKickAccount {
  kick_account_account : string;
  kick_account_app : string
}.
#[export] Instance KickAccount_eq_dec : EqDecision KickAccount.
Proof. solve_decision. Defined.
#[export] Instance KickAccount_countable : Countable KickAccount.
Proof. by refine (inj_countable' (fun '(mkKickAccount x0 x1) => (x0, x1))
  (fun '(x0, x1) => mkKickAccount x0 x1) _); intros []. Defined.
Record RevokeQuery := mkRevokeQuery {
  revoke_query_jti : string
}.
#[export] Instance RevokeQuery_eq_dec : EqDecision RevokeQuery.
Proof. solve_decision. Defined.
#[export] Instance RevokeQuery_countable : Countable RevokeQuery.
Proof. by refine (inj_countable' (fun '(mkRevokeQuery x0) => x0)
  mkRevokeQuery _); intros []. Defined.
Record RevokeStatus := mkRevokeStatus {
  revoke_status_revoked : bool
}.
#[export] Instance RevokeStatus_eq_dec : EqDecision RevokeStatus.
Proof. solve_decision. Defined.
#[export] Instance RevokeStatus_countable : Countable RevokeStatus.
Proof. by refine (inj_countable' (fun '(mkRevokeStatus x0) => x0)
  mkRevokeStatus _); intros []. Defined.
Record TokenEpochQuery := mkTokenEpochQuery {
  token_epoch_query_account : string
}.
#[export] Instance TokenEpochQuery_eq_dec : EqDecision TokenEpochQuery.
Proof. solve_decision. Defined.
#[export] Instance TokenEpochQuery_countable : Countable TokenEpochQuery.
Proof. by refine (inj_countable' (fun '(mkTokenEpochQuery x0) => x0)
  mkTokenEpochQuery _); intros []. Defined.
Record TokenEpoch := mkTokenEpoch {
  token_epoch_epoch : Z
}.
#[export] Instance TokenEpoch_eq_dec : EqDecision TokenEpoch.
Proof. solve_decision. Defined.
#[export] Instance TokenEpoch_countable : Countable TokenEpoch.
Proof. by refine (inj_countable' (fun '(mkTokenEpoch x0) => x0)
  mkTokenEpoch _); intros []. Defined.
Record DeviceCheckQuery := mkDeviceCheckQuery {
  device_check_query_account : string;
  device_check_query_device_id : string;
  device_check_query_device_credential : string
}.
#[export] Instance DeviceCheckQuery_eq_dec : EqDecision DeviceCheckQuery.
Proof. solve_decision. Defined.
#[export] Instance DeviceCheckQuery_countable : Countable DeviceCheckQuery.
Proof. by refine (inj_countable' (fun '(mkDeviceCheckQuery x0 x1 x2) => (x0, x1, x2))
  (fun '(x0, x1, x2) => mkDeviceCheckQuery x0 x1 x2) _); intros []. Defined.
Record DeviceCheckStatus := mkDeviceCheckStatus {
  device_check_status_ok : bool
}.
#[export] Instance DeviceCheckStatus_eq_dec : EqDecision DeviceCheckStatus.
Proof. solve_decision. Defined.
#[export] Instance DeviceCheckStatus_countable : Countable DeviceCheckStatus.
Proof. by refine (inj_countable' (fun '(mkDeviceCheckStatus x0) => x0)
  mkDeviceCheckStatus _); intros []. Defined.
Record PasswordChangeReq := mkPasswordChangeReq {
  password_change_req_old_password : string;
  password_change_req_new_password : string;
  password_change_req_old_password_sealed : bytes;
  password_change_req_new_password_sealed : bytes;
  password_change_req_key_id : string
}.
#[export] Instance PasswordChangeReq_eq_dec : EqDecision PasswordChangeReq.
Proof. solve_decision. Defined.
#[export] Instance PasswordChangeReq_countable : Countable PasswordChangeReq.
Proof. by refine (inj_countable' (fun '(mkPasswordChangeReq x0 x1 x2 x3 x4) => (x0, x1, x2, x3, x4))
  (fun '(x0, x1, x2, x3, x4) => mkPasswordChangeReq x0 x1 x2 x3 x4) _); intros []. Defined.
Record PasswordKeyResp := mkPasswordKeyResp {
  password_key_resp_key_id : string;
  password_key_resp_alg : string;
  password_key_resp_public_key_b64 : string
}.
#[export] Instance PasswordKeyResp_eq_dec : EqDecision PasswordKeyResp.
Proof. solve_decision. Defined.
#[export] Instance PasswordKeyResp_countable : Countable PasswordKeyResp.
Proof. by refine (inj_countable' (fun '(mkPasswordKeyResp x0 x1 x2) => (x0, x1, x2))
  (fun '(x0, x1, x2) => mkPasswordKeyResp x0 x1 x2) _); intros []. Defined.
Record AccountPair := mkAccountPair {
  account_pair_account : string;
  account_pair_peer : string
}.
#[export] Instance AccountPair_eq_dec : EqDecision AccountPair.
Proof. solve_decision. Defined.
#[export] Instance AccountPair_countable : Countable AccountPair.
Proof. by refine (inj_countable' (fun '(mkAccountPair x0 x1) => (x0, x1))
  (fun '(x0, x1) => mkAccountPair x0 x1) _); intros []. Defined.
Record InternalBotCreate := mkInternalBotCreate {
  internal_bot_create_owner : string;
  internal_bot_create_client_profile_id : string;
  internal_bot_create_nickname : string;
  internal_bot_create_avatar : string;
  internal_bot_create_bio : string;
  internal_bot_create_model : string;
  internal_bot_create_thinking_effort : string;
  internal_bot_create_context_tokens : option Z;
  internal_bot_create_visibility : string
}.
#[export] Instance InternalBotCreate_eq_dec : EqDecision InternalBotCreate.
Proof. solve_decision. Defined.
#[export] Instance InternalBotCreate_countable : Countable InternalBotCreate.
Proof. by refine (inj_countable' (fun '(mkInternalBotCreate x0 x1 x2 x3 x4 x5 x6 x7 x8) => (x0, x1, x2, x3, x4, x5, x6, x7, x8))
  (fun '(x0, x1, x2, x3, x4, x5, x6, x7, x8) => mkInternalBotCreate x0 x1 x2 x3 x4 x5 x6 x7 x8) _); intros []. Defined.
Record InternalBotUpdate := mkInternalBotUpdate {
  internal_bot_update_owner : string;
  internal_bot_update_account : string;
  internal_bot_update_nickname : string;
  internal_bot_update_avatar : string;
  internal_bot_update_bio : string;
  internal_bot_update_model : string;
  internal_bot_update_thinking_effort : string;
  internal_bot_update_context_tokens : option Z;
  internal_bot_update_visibility : string
}.
#[export] Instance InternalBotUpdate_eq_dec : EqDecision InternalBotUpdate.
Proof. solve_decision. Defined.
#[export] Instance InternalBotUpdate_countable : Countable InternalBotUpdate.
Proof. by refine (inj_countable' (fun '(mkInternalBotUpdate x0 x1 x2 x3 x4 x5 x6 x7 x8) => (x0, x1, x2, x3, x4, x5, x6, x7, x8))
  (fun '(x0, x1, x2, x3, x4, x5, x6, x7, x8) => mkInternalBotUpdate x0 x1 x2 x3 x4 x5 x6 x7 x8) _); intros []. Defined.
Record InternalBotConfig := mkInternalBotConfig {
  internal_bot_config_owner : string;
  internal_bot_config_account : string;
  internal_bot_config_config : option PbBotConfig
}.
#[export] Instance InternalBotConfig_eq_dec : EqDecision InternalBotConfig.
Proof. solve_decision. Defined.
#[export] Instance InternalBotConfig_countable : Countable InternalBotConfig.
Proof. by refine (inj_countable' (fun '(mkInternalBotConfig x0 x1 x2) => (x0, x1, x2))
  (fun '(x0, x1, x2) => mkInternalBotConfig x0 x1 x2) _); intros []. Defined.
Record BotReplyStoreReq := mkBotReplyStoreReq {
  bot_reply_store_req_owner : string;
  bot_reply_store_req_bot_account : string;
  bot_reply_store_req_in_reply_to : Z;
  bot_reply_store_req_insert : option InsertMessageReq
}.
#[export] Instance BotReplyStoreReq_eq_dec : EqDecision BotReplyStoreReq.
Proof. solve_decision. Defined.
#[export] Instance BotReplyStoreReq_countable : Countable BotReplyStoreReq.
Proof. by refine (inj_countable' (fun '(mkBotReplyStoreReq x0 x1 x2 x3) => (x0, x1, x2, x3))
  (fun '(x0, x1, x2, x3) => mkBotReplyStoreReq x0 x1 x2 x3) _); intros []. Defined.
Record BotPendingQuery := mkBotPendingQuery {
  bot_pending_query_owner : string;
  bot_pending_query_bot_account : string;
  bot_pending_query_limit : Z
}.
#[export] Instance BotPendingQuery_eq_dec : EqDecision BotPendingQuery.
Proof. solve_decision. Defined.
#[export] Instance BotPendingQuery_countable : Countable BotPendingQuery.
Proof. by refine (inj_countable' (fun '(mkBotPendingQuery x0 x1 x2) => (x0, x1, x2))
  (fun '(x0, x1, x2) => mkBotPendingQuery x0 x1 x2) _); intros []. Defined.
Record ConversationStatesQuery := mkConversationStatesQuery {
  conversation_states_query_account : string;
  conversation_states_query_conversations : list PbConversationStateKey
}.
#[export] Instance ConversationStatesQuery_eq_dec : EqDecision ConversationStatesQuery.
Proof. solve_decision. Defined.
#[export] Instance ConversationStatesQuery_countable : Countable ConversationStatesQuery.
Proof. by refine (inj_countable' (fun '(mkConversationStatesQuery x0 x1) => (x0, x1))
  (fun '(x0, x1) => mkConversationStatesQuery x0 x1) _); intros []. Defined.
Record InboxQuery := mkInboxQuery {
  inbox_query_account : string;
  inbox_query_limit : Z
}.
#[export] Instance InboxQuery_eq_dec : EqDecision InboxQuery.
Proof. solve_decision. Defined.
#[export] Instance InboxQuery_countable : Countable InboxQuery.
Proof. by refine (inj_countable' (fun '(mkInboxQuery x0 x1) => (x0, x1))
  (fun '(x0, x1) => mkInboxQuery x0 x1) _); intros []. Defined.
Record HistoryQuery := mkHistoryQuery {
  history_query_account : string;
  history_query_dest : string;
  history_query_kind : Z;
  history_query_before_id : Z;
  history_query_limit : Z
}.
#[export] Instance HistoryQuery_eq_dec : EqDecision HistoryQuery.
Proof. solve_decision. Defined.
#[export] Instance HistoryQuery_countable : Countable HistoryQuery.
Proof. by refine (inj_countable' (fun '(mkHistoryQuery x0 x1 x2 x3 x4) => (x0, x1, x2, x3, x4))
  (fun '(x0, x1, x2, x3, x4) => mkHistoryQuery x0 x1 x2 x3 x4) _); intros []. Defined.
Record ConversationRead := mkConversationRead {
  conversation_read_account : string;
  conversation_read_dest : string;
  conversation_read_kind : Z;
  conversation_read_message_id : Z
}.
#[export] Instance ConversationRead_eq_dec : EqDecision ConversationRead.
Proof. solve_decision. Defined.
#[export] Instance ConversationRead_countable : Countable ConversationRead.
Proof. by refine (inj_countable' (fun '(mkConversationRead x0 x1 x2 x3) => (x0, x1, x2, x3))
  (fun '(x0, x1, x2, x3) => mkConversationRead x0 x1 x2 x3) _); intros []. Defined.
Record AccountList := mkAccountList {
  account_list_accounts : list string
}.
#[export] Instance AccountList_eq_dec : EqDecision AccountList.
Proof. solve_decision. Defined.
#[export] Instance AccountList_countable : Countable AccountList.
Proof. by refine (inj_countable' (fun '(mkAccountList x0) => x0)
  mkAccountList _); intros []. Defined.
Record ProfileUpdateReq := mkProfileUpdateReq {
  profile_update_req_account : string;
  profile_update_req_nickname : string;
  profile_update_req_avatar : string;
  profile_update_req_bio : string
}.
#[export] Instance ProfileUpdateReq_eq_dec : EqDecision ProfileUpdateReq.
Proof. solve_decision. Defined.
#[export] Instance ProfileUpdateReq_countable : Countable ProfileUpdateReq.
Proof. by refine (inj_countable' (fun '(mkProfileUpdateReq x0 x1 x2 x3) => (x0, x1, x2, x3))
  (fun '(x0, x1, x2, x3) => mkProfileUpdateReq x0 x1 x2 x3) _); intros []. Defined.
Record UserSearchQuery := mkUserSearchQuery {
  user_search_query_query : string;
  user_search_query_exclude : list string;
  user_search_query_limit : Z
}.
#[export] Instance UserSearchQuery_eq_dec : EqDecision UserSearchQuery.
Proof. solve_decision. Defined.
#[export] Instance UserSearchQuery_countable : Countable UserSearchQuery.
Proof. by refine (inj_countable' (fun '(mkUserSearchQuery x0 x1 x2) => (x0, x1, x2))
  (fun '(x0, x1, x2) => mkUserSearchQuery x0 x1 x2) _); intros []. Defined.
Record InternalGroupCreate := mkInternalGroupCreate {
  internal_group_create_app : string;
  internal_group_create_name : string;
  internal_group_create_avatar : string;
  internal_group_create_introduction : string;
  internal_group_create_owner : string;
  internal_group_create_members : list string
}.
#[export] Instance InternalGroupCreate_eq_dec : EqDecision InternalGroupCreate.
Proof. solve_decision. Defined.
#[export] Instance InternalGroupCreate_countable : Countable InternalGroupCreate.
Proof. by refine (inj_countable' (fun '(mkInternalGroupCreate x0 x1 x2 x3 x4 x5) => (x0, x1, x2, x3, x4, x5))
  (fun '(x0, x1, x2, x3, x4, x5) => mkInternalGroupCreate x0 x1 x2 x3 x4 x5) _); intros []. Defined.
Record InternalGroupQuery := mkInternalGroupQuery {
  internal_group_query_app : string;
  internal_group_query_group_id : string
}.
#[export] Instance InternalGroupQuery_eq_dec : EqDecision InternalGroupQuery.
Proof. solve_decision. Defined.
#[export] Instance InternalGroupQuery_countable : Countable InternalGroupQuery.
Proof. by refine (inj_countable' (fun '(mkInternalGroupQuery x0 x1) => (x0, x1))
  (fun '(x0, x1) => mkInternalGroupQuery x0 x1) _); intros []. Defined.
Record PbGroupSummary := mkPbGroupSummary {
  pb_group_summary_group_id : string;
  pb_group_summary_name : string;
  pb_group_summary_avatar : string
}.
#[export] Instance PbGroupSummary_eq_dec : EqDecision PbGroupSummary.
Proof. solve_decision. Defined.
#[export] Instance PbGroupSummary_countable : Countable PbGroupSummary.
Proof. by refine (inj_countable' (fun '(mkPbGroupSummary x0 x1 x2) => (x0, x1, x2))
  (fun '(x0, x1, x2) => mkPbGroupSummary x0 x1 x2) _); intros []. Defined.
Record GroupListReq := mkGroupListReq {
  group_list_req_app : string;
  group_list_req_group_ids : list string
}.
#[export] Instance GroupListReq_eq_dec : EqDecision GroupListReq.
Proof. solve_decision. Defined.
#[export] Instance GroupListReq_countable : Countable GroupListReq.
Proof. by refine (inj_countable' (fun '(mkGroupListReq x0 x1) => (x0, x1))
  (fun '(x0, x1) => mkGroupListReq x0 x1) _); intros []. Defined.
Record GroupListResp := mkGroupListResp {
  group_list_resp_groups : list PbGroupSummary
}.
#[export] Instance GroupListResp_eq_dec : EqDecision GroupListResp.
Proof. solve_decision. Defined.
#[export] Instance GroupListResp_countable : Countable GroupListResp.
Proof. by refine (inj_countable' (fun '(mkGroupListResp x0) => x0)
  mkGroupListResp _); intros []. Defined.
Record InternalGroupMember := mkInternalGroupMember {
  internal_group_member_app : string;
  internal_group_member_group_id : string;
  internal_group_member_account : string
}.
#[export] Instance InternalGroupMember_eq_dec : EqDecision InternalGroupMember.
Proof. solve_decision. Defined.
#[export] Instance InternalGroupMember_countable : Countable InternalGroupMember.
Proof. by refine (inj_countable' (fun '(mkInternalGroupMember x0 x1 x2) => (x0, x1, x2))
  (fun '(x0, x1, x2) => mkInternalGroupMember x0 x1 x2) _); intros []. Defined.
Record InternalAgentSpecQuery := mkInternalAgentSpecQuery {
  internal_agent_spec_query_owner : string
}.
#[export] Instance InternalAgentSpecQuery_eq_dec : EqDecision InternalAgentSpecQuery.
Proof. solve_decision. Defined.
#[export] Instance InternalAgentSpecQuery_countable : Countable InternalAgentSpecQuery.
Proof. by refine (inj_countable' (fun '(mkInternalAgentSpecQuery x0) => x0)
  mkInternalAgentSpecQuery _); intros []. Defined.
Record InternalAgentSpecUpsert := mkInternalAgentSpecUpsert {
  internal_agent_spec_upsert_owner : string;
  internal_agent_spec_upsert_record : option PbAgentSpecRecord;
  internal_agent_spec_upsert_account : option PbAgentProviderAccount
}.
#[export] Instance InternalAgentSpecUpsert_eq_dec : EqDecision InternalAgentSpecUpsert.
Proof. solve_decision. Defined.
#[export] Instance InternalAgentSpecUpsert_countable : Countable InternalAgentSpecUpsert.
Proof. by refine (inj_countable' (fun '(mkInternalAgentSpecUpsert x0 x1 x2) => (x0, x1, x2))
  (fun '(x0, x1, x2) => mkInternalAgentSpecUpsert x0 x1 x2) _); intros []. Defined.

(** ** The codec *)

Inductive royal_msg : Type -> Type :=
| r_PbDeliveryTarget : royal_msg PbDeliveryTarget
| r_InsertMessageReq : royal_msg InsertMessageReq
| r_InsertFanout : royal_msg InsertFanout
| r_InsertMessageResp : royal_msg InsertMessageResp
| r_AckMessageReq : royal_msg AckMessageReq
| r_OfflineIndexReq : royal_msg OfflineIndexReq
| r_DeliveryBackfillReq : royal_msg DeliveryBackfillReq
| r_AuthReq : royal_msg AuthReq
| r_AccountQuery : royal_msg AccountQuery
| r_AccountExists : royal_msg AccountExists
| r_KickAccount : royal_msg KickAccount
| r_RevokeQuery : royal_msg RevokeQuery
| r_RevokeStatus : royal_msg RevokeStatus
| r_TokenEpochQuery : royal_msg TokenEpochQuery
| r_TokenEpoch : royal_msg TokenEpoch
| r_DeviceCheckQuery : royal_msg DeviceCheckQuery
| r_DeviceCheckStatus : royal_msg DeviceCheckStatus
| r_PasswordChangeReq : royal_msg PasswordChangeReq
| r_PasswordKeyResp : royal_msg PasswordKeyResp
| r_AccountPair : royal_msg AccountPair
| r_InternalBotCreate : royal_msg InternalBotCreate
| r_InternalBotUpdate : royal_msg InternalBotUpdate
| r_InternalBotConfig : royal_msg InternalBotConfig
| r_BotReplyStoreReq : royal_msg BotReplyStoreReq
| r_BotPendingQuery : royal_msg BotPendingQuery
| r_ConversationStatesQuery : royal_msg ConversationStatesQuery
| r_InboxQuery : royal_msg InboxQuery
| r_HistoryQuery : royal_msg HistoryQuery
| r_ConversationRead : royal_msg ConversationRead
| r_AccountList : royal_msg AccountList
| r_ProfileUpdateReq : royal_msg ProfileUpdateReq
| r_UserSearchQuery : royal_msg UserSearchQuery
| r_InternalGroupCreate : royal_msg InternalGroupCreate
| r_InternalGroupQuery : royal_msg InternalGroupQuery
| r_PbGroupSummary : royal_msg PbGroupSummary
| r_GroupListReq : royal_msg GroupListReq
| r_GroupListResp : royal_msg GroupListResp
| r_InternalGroupMember : royal_msg InternalGroupMember
| r_InternalAgentSpecQuery : royal_msg InternalAgentSpecQuery
| r_InternalAgentSpecUpsert : royal_msg InternalAgentSpecUpsert.

Class RoyalMsg (T : Type) := royal_code : royal_msg T.
#[export] Instance rm_PbDeliveryTarget : RoyalMsg PbDeliveryTarget := r_PbDeliveryTarget.
#[export] Instance rm_InsertMessageReq : RoyalMsg InsertMessageReq := r_InsertMessageReq.
#[export] Instance rm_InsertFanout : RoyalMsg InsertFanout := r_InsertFanout.
#[export] Instance rm_InsertMessageResp : RoyalMsg InsertMessageResp := r_InsertMessageResp.
#[export] Instance rm_AckMessageReq : RoyalMsg AckMessageReq := r_AckMessageReq.
#[export] Instance rm_OfflineIndexReq : RoyalMsg OfflineIndexReq := r_OfflineIndexReq.
#[export] Instance rm_DeliveryBackfillReq : RoyalMsg DeliveryBackfillReq := r_DeliveryBackfillReq.
#[export] Instance rm_AuthReq : RoyalMsg AuthReq := r_AuthReq.
#[export] Instance rm_AccountQuery : RoyalMsg AccountQuery := r_AccountQuery.
#[export] Instance rm_AccountExists : RoyalMsg AccountExists := r_AccountExists.
#[export] Instance rm_KickAccount : RoyalMsg KickAccount := r_KickAccount.
#[export] Instance rm_RevokeQuery : RoyalMsg RevokeQuery := r_RevokeQuery.
#[export] Instance rm_RevokeStatus : RoyalMsg RevokeStatus := r_RevokeStatus.
#[export] Instance rm_TokenEpochQuery : RoyalMsg TokenEpochQuery := r_TokenEpochQuery.
#[export] Instance rm_TokenEpoch : RoyalMsg TokenEpoch := r_TokenEpoch.
#[export] Instance rm_DeviceCheckQuery : RoyalMsg DeviceCheckQuery := r_DeviceCheckQuery.
#[export] Instance rm_DeviceCheckStatus : RoyalMsg DeviceCheckStatus := r_DeviceCheckStatus.
#[export] Instance rm_PasswordChangeReq : RoyalMsg PasswordChangeReq := r_PasswordChangeReq.
#[export] Instance rm_PasswordKeyResp : RoyalMsg PasswordKeyResp := r_PasswordKeyResp.
#[export] Instance rm_AccountPair : RoyalMsg AccountPair := r_AccountPair.
#[export] Instance rm_InternalBotCreate : RoyalMsg InternalBotCreate := r_InternalBotCreate.
#[export] Instance rm_InternalBotUpdate : RoyalMsg InternalBotUpdate := r_InternalBotUpdate.
#[export] Instance rm_InternalBotConfig : RoyalMsg InternalBotConfig := r_InternalBotConfig.
#[export] Instance rm_BotReplyStoreReq : RoyalMsg BotReplyStoreReq := r_BotReplyStoreReq.
#[export] Instance rm_BotPendingQuery : RoyalMsg BotPendingQuery := r_BotPendingQuery.
#[export] Instance rm_ConversationStatesQuery : RoyalMsg ConversationStatesQuery := r_ConversationStatesQuery.
#[export] Instance rm_InboxQuery : RoyalMsg InboxQuery := r_InboxQuery.
#[export] Instance rm_HistoryQuery : RoyalMsg HistoryQuery := r_HistoryQuery.
#[export] Instance rm_ConversationRead : RoyalMsg ConversationRead := r_ConversationRead.
#[export] Instance rm_AccountList : RoyalMsg AccountList := r_AccountList.
#[export] Instance rm_ProfileUpdateReq : RoyalMsg ProfileUpdateReq := r_ProfileUpdateReq.
#[export] Instance rm_UserSearchQuery : RoyalMsg UserSearchQuery := r_UserSearchQuery.
#[export] Instance rm_InternalGroupCreate : RoyalMsg InternalGroupCreate := r_InternalGroupCreate.
#[export] Instance rm_InternalGroupQuery : RoyalMsg InternalGroupQuery := r_InternalGroupQuery.
#[export] Instance rm_PbGroupSummary : RoyalMsg PbGroupSummary := r_PbGroupSummary.
#[export] Instance rm_GroupListReq : RoyalMsg GroupListReq := r_GroupListReq.
#[export] Instance rm_GroupListResp : RoyalMsg GroupListResp := r_GroupListResp.
#[export] Instance rm_InternalGroupMember : RoyalMsg InternalGroupMember := r_InternalGroupMember.
#[export] Instance rm_InternalAgentSpecQuery : RoyalMsg InternalAgentSpecQuery := r_InternalAgentSpecQuery.
#[export] Instance rm_InternalAgentSpecUpsert : RoyalMsg InternalAgentSpecUpsert := r_InternalAgentSpecUpsert.

Class RoyalProst := royal_prost : forall T : Type, royal_msg T -> Message T.
#[export] Instance royal_message {T} `{RoyalProst} `{RoyalMsg T} : Message T := royal_prost T royal_code.

Class RoyalProstOk `{RoyalProst} := royal_prost_ok : forall (T : Type) (w : royal_msg T), @MessageOk T (royal_prost T w).
#[export] Instance royal_message_ok {T} `{RoyalProstOk} `{RoyalMsg T} : MessageOk T := royal_prost_ok T royal_code.

Definition demo_royal : RoyalProst := fun T w =>
  match w in royal_msg T return Message T with
  | r_PbDeliveryTarget => countable_message
  | r_InsertMessageReq => countable_message
  | r_InsertFanout => countable_message
  | r_InsertMessageResp => countable_message
  | r_AckMessageReq => countable_message
  | r_OfflineIndexReq => countable_message
  | r_DeliveryBackfillReq => countable_message
  | r_AuthReq => countable_message
  | r_AccountQuery => countable_message
  | r_AccountExists => countable_message
  | r_KickAccount => countable_message
  | r_RevokeQuery => countable_message
  | r_RevokeStatus => countable_message
  | r_TokenEpochQuery => countable_message
  | r_TokenEpoch => countable_message
  | r_DeviceCheckQuery => countable_message
  | r_DeviceCheckStatus => countable_message
  | r_PasswordChangeReq => countable_message
  | r_PasswordKeyResp => countable_message
  | r_AccountPair => countable_message
  | r_InternalBotCreate => countable_message
  | r_InternalBotUpdate => countable_message
  | r_InternalBotConfig => countable_message
  | r_BotReplyStoreReq => countable_message
  | r_BotPendingQuery => countable_message
  | r_ConversationStatesQuery => countable_message
  | r_InboxQuery => countable_message
  | r_HistoryQuery => countable_message
  | r_ConversationRead => countable_message
  | r_AccountList => countable_message
  | r_ProfileUpdateReq => countable_message
  | r_UserSearchQuery => countable_message
  | r_InternalGroupCreate => countable_message
  | r_InternalGroupQuery => countable_message
  | r_PbGroupSummary => countable_message
  | r_GroupListReq => countable_message
  | r_GroupListResp => countable_message
  | r_InternalGroupMember => countable_message
  | r_InternalAgentSpecQuery => countable_message
  | r_InternalAgentSpecUpsert => countable_message
  end.
Lemma demo_royal_ok : @RoyalProstOk demo_royal.
Proof. intros T w. destruct w; apply countable_message_ok. Qed.
