(* ===== verification/Hmac.v ===== *)
(** The signatures of the internal HTTP interface: kim-protocol/src/internal_hmac.rs,
    and the guard that claims their nonces, services/chat/src/hmac_nonce.rs.

    HMAC-SHA256 is a parameter ([HmacSha256]): a key setup that may fail, and the tag
    of a message under a key.  The random nonce of a signature is an argument. *)

From S2P Require Import Prelude Wire.
Open Scope Z_scope.
Open Scope kim_scope.

(** ** Decimal [i64] *)

Definition i64_to_dec (n : Z) : string := if n <? 0 then ("-" ++ nat_to_dec (- n))%string else nat_to_dec n.

Fixpoint dec_value (l : bytes) (v : Z) : option Z :=
  match l with
  | [] => Some v
  | d :: l => if is_ascii_digit d then dec_value l (10 * v + (u8_to_Z d - 48)) else None
  end.

Definition in_i64_b (n : Z) : bool := (i64_min <=? n) && (n <=? i64_max).
Definition i64_checked (o : option Z) : option Z := n ← o; if in_i64_b n then Some n else None.

(** [str::parse::<i64>]. *)
Definition i64_parse (s : string) : option Z :=
  match bytes_of s with
  | [] => None
  | sign :: digits =>
    if u8_to_Z sign =? 45 then
      match digits with [] => None | _ => i64_checked (n ← dec_value digits 0; Some (- n)) end
    else if u8_to_Z sign =? 43 then
      match digits with [] => None | _ => i64_checked (dec_value digits 0) end
    else i64_checked (dec_value (sign :: digits) 0)
  end.

(** ** internal_hmac.rs *)

Class HmacSha256 := {
  hmac_key : Type;
  new_from_slice : bytes -> option hmac_key;
  hmac_tag : hmac_key -> bytes -> bytes
}.

Definition DEMO_INTERNAL_HMAC_SECRET : string := "kim-demo-internal-hmac".
Definition HEADER_TIMESTAMP : string := "x-kim-timestamp".
Definition HEADER_NONCE : string := "x-kim-nonce".
Definition HEADER_SIGNATURE : string := "x-kim-signature".
Definition MAX_SKEW_SECS : Z := 60.
Definition HMAC_NONCE_TTL_SECS : Z := 2 * MAX_SKEW_SECS + 1.
Definition NONCE_MIN : Z := 8.
Definition NONCE_MAX : Z := 128.

Record HmacHeaders := mkHmacHeaders { hh_timestamp : string; hh_nonce : string; hh_signature : string }.

Definition hmac_pairs (h : HmacHeaders) : list (string * string) :=
  [(HEADER_TIMESTAMP, hh_timestamp h); (HEADER_NONCE, hh_nonce h); (HEADER_SIGNATURE, hh_signature h)].
Definition hmac_headers_from (get : string -> string) : HmacHeaders :=
  mkHmacHeaders (get HEADER_TIMESTAMP) (get HEADER_NONCE) (get HEADER_SIGNATURE).

(** [env]: the variable KIM_INTERNAL_HMAC_SECRET. *)
Definition resolve_internal_hmac_secret (env : option string) (config_secret : string) : string :=
  let config := if str_is_empty (str_trim config_secret) then DEMO_INTERNAL_HMAC_SECRET else str_trim config_secret in
  match env with
  | Some e => if str_is_empty (str_trim e) then config else str_trim e
  | None => config
  end.
Definition is_demo_internal_hmac (secret : string) : bool := bool_decide (secret = DEMO_INTERNAL_HMAC_SECRET).
Definition hmac_nonce_key (nonce : string) : string := ("kim:hmac-nonce:" ++ nonce)%string.

Definition newline : u8 := Byte.x0a.

(** The bytes [update_canonical] feeds the tag. *)
Definition canonical (method path timestamp nonce : string) (body : bytes) : bytes :=
  bytes_of method ++ newline :: bytes_of path ++ newline :: bytes_of timestamp ++ newline :: bytes_of nonce ++ newline :: body.

Definition valid_nonce (n : string) : bool :=
  (NONCE_MIN <=? len (bytes_of n)) && (len (bytes_of n) <=? NONCE_MAX) && forallb is_ascii_alphanumeric (bytes_of n).

Definition hex_digit (n : Z) : u8 := if n <? 10 then u8_of_Z (48 + n) else u8_of_Z (87 + n).
Definition hex_encode (l : bytes) : string :=
  string_of_bytes (flat_map (fun b => [hex_digit (u8_to_Z b / 16); hex_digit (u8_to_Z b mod 16)]) l).
Definition from_hex (b : u8) : option Z :=
  if byte_between 48 57 b then Some (u8_to_Z b - 48)
  else if byte_between 97 102 b then Some (u8_to_Z b - 97 + 10)
  else if byte_between 65 70 b then Some (u8_to_Z b - 65 + 10)
  else None.
(** Two digits at a time; a text of odd length is refused at once. *)
Fixpoint hex_pairs (l : bytes) : option bytes :=
  match l with
  | hi :: lo :: l => hi ← from_hex hi; lo ← from_hex lo; out ← hex_pairs l; Some (u8_of_Z (16 * hi + lo) :: out)
  | _ => Some []
  end.
Definition hex_decode (s : string) : option bytes :=
  if len (bytes_of s) mod 2 =? 0 then hex_pairs (bytes_of s) else None.

Section signatures.
Context `{HmacSha256}.

Definition mac_bytes (secret : bytes) (method path timestamp nonce : string) (body : bytes)
  : result bytes ProtocolError :=
  match new_from_slice secret with
  | None => Err InvalidHmacSecret
  | Some key => Ok (hmac_tag key (canonical method path timestamp nonce body))
  end.

Definition sign_at (secret : bytes) (method path : string) (body : bytes) (now_ts : Z) (nonce : string)
  : result HmacHeaders ProtocolError :=
  match secret with
  | [] => Err InvalidHmacSecret
  | _ =>
    let timestamp := i64_to_dec now_ts in
    let? mac := mac_bytes secret method path timestamp nonce body in
    Ok (mkHmacHeaders timestamp nonce (hex_encode mac))
  end.

Definition verify_at (secret : bytes) (method path : string) (body : bytes) (headers : HmacHeaders) (now_ts : Z) : bool :=
  match secret with
  | [] => false
  | _ =>
    valid_nonce (hh_nonce headers) &&
    match i64_parse (hh_timestamp headers) with
    | None => false
    | Some ts =>
      negb (MAX_SKEW_SECS <? Z.abs (now_ts - ts)) &&
      match hex_decode (hh_signature headers) with
      | None => false
      | Some sig =>
        match new_from_slice secret with
        | None => false
        | Some key => bool_decide (sig = hmac_tag key (canonical method path (hh_timestamp headers) (hh_nonce headers) body))
        end
      end
    end
  end.
End signatures.

(** ** hmac_nonce.rs *)

(** Nonce to the instant it was claimed, in nanoseconds. *)
Record MemoryHmacNonceGuard := mkNonceGuard { nonce_seen : gmap string Z }.
Definition MemoryHmacNonceGuard_new : MemoryHmacNonceGuard := mkNonceGuard ∅.

Definition nonce_kept (now t : Z) : bool := (now <? t) || ((now - t) / 1000000000 <? HMAC_NONCE_TTL_SECS).

Definition claim_at (nonce : string) (now : Z) (g : MemoryHmacNonceGuard) : MemoryHmacNonceGuard * bool :=
  let kept := filter (fun '(_, t) => nonce_kept now t = true) (nonce_seen g) in
  match kept !! nonce with
  | Some _ => (mkNonceGuard kept, false)
  | None => (mkNonceGuard (<[nonce := now]> kept), true)
  end.

(** ** Texts of numbers and bytes *)

Lemma bytes_of_cons c s : bytes_of (String.String c s) = Ascii.byte_of_ascii c :: bytes_of s.
Proof. done. Qed.

Lemma digit_char_ok d : 0 <= d < 10 ->
  is_ascii_digit (Ascii.byte_of_ascii (digit_char d)) = true /\ u8_to_Z (Ascii.byte_of_ascii (digit_char d)) - 48 = d.
Proof.
  intros Hd. assert (d = 0 \/ d = 1 \/ d = 2 \/ d = 3 \/ d = 4 \/ d = 5 \/ d = 6 \/ d = 7 \/ d = 8 \/ d = 9) by lia.
  by destruct_or!; subst.
Qed.

Lemma dec_value_digits fuel n acc : 0 <= n < 10 ^ Z.of_nat fuel -> (0 < fuel)%nat ->
  dec_value (bytes_of (digits_of fuel n acc)) 0 = dec_value (bytes_of acc) n.
Proof.
  revert n acc. induction fuel as [|fuel IH]; intros n acc Hn Hf; [lia|]. cbn [digits_of].
  pose proof (Z.mod_pos_bound n 10 ltac:(lia)) as Hm. pose proof (digit_char_ok (n mod 10) Hm) as [Hd Hv].
  assert (Hc : forall v, dec_value (bytes_of (String.String (digit_char (n mod 10)) acc)) v
    = dec_value (bytes_of acc) (10 * v + n mod 10)).
  { intros v. rewrite bytes_of_cons. cbn [dec_value]. by rewrite Hd, Hv. }
  pose proof (Z.div_mod n 10 ltac:(lia)) as Hdiv.
  destruct (n / 10 =? 0) eqn:E; blia.
  - rewrite Hc. f_equal. lia.
  - rewrite IH.
    + rewrite Hc. f_equal. lia.
    + rewrite Nat2Z.inj_succ, Z.pow_succ_r in Hn by lia. split; [apply Z.div_pos; lia|]. apply Z.div_lt_upper_bound; lia.
    + destruct fuel; [|lia]. exfalso. apply E. apply Z.div_small. change (10 ^ Z.of_nat 1) with 10 in Hn. lia.
Qed.

(** What the texts of numbers begin with. *)
Lemma digits_of_head fuel n acc : 0 <= n -> (0 < fuel)%nat -> exists d s, digits_of fuel n acc = String.String (digit_char d) s /\ 0 <= d < 10.
Proof.
  revert n acc. induction fuel as [|fuel IH]; intros n acc Hn Hf; [lia|]. cbn [digits_of].
  pose proof (Z.mod_pos_bound n 10 ltac:(lia)) as Hm.
  destruct (n / 10 =? 0) eqn:E; [by eexists _, _|]. destruct fuel; [by eexists _, _|].
  apply IH; [apply Z.div_pos; lia|lia].
Qed.

Lemma nat_to_dec_value n : 0 <= n < 10 ^ 20 ->
  dec_value (bytes_of (nat_to_dec n)) 0 = Some n /\
  exists d s, nat_to_dec n = String.String (digit_char d) s /\ 0 <= d < 10.
Proof.
  intros Hn. split; [|apply digits_of_head; lia]. unfold nat_to_dec. by rewrite dec_value_digits by (cbn; lia).
Qed.

Lemma i64_parse_to_dec n : in_i64 n -> i64_parse (i64_to_dec n) = Some n.
Proof.
  unfold in_i64, i64_min, i64_max. intros Hn.
  assert (Hb : in_i64_b n = true) by (unfold in_i64_b, i64_min, i64_max; lia).
  unfold i64_to_dec. destruct (n <? 0) eqn:E; blia.
  - destruct (nat_to_dec_value (- n) ltac:(lia)) as [Hv (d & s & Hs & _)]. unfold i64_parse.
    change (bytes_of ("-" ++ nat_to_dec (- n))) with (Byte.x2d :: bytes_of (nat_to_dec (- n))). cbv iota beta.
    change (u8_to_Z Byte.x2d =? 45) with true. cbv iota. rewrite Hv. unfold i64_checked. cbn [mbind option_bind].
    rewrite Z.opp_involutive, Hb. by rewrite Hs.
  - destruct (nat_to_dec_value n ltac:(lia)) as [Hv (d & s & Hs & Hd)]. unfold i64_parse.
    destruct (digit_char_ok d Hd) as [_ Hx]. revert Hv. rewrite Hs, bytes_of_cons.
    intros Hv. destruct (Z.eqb_spec (u8_to_Z (byte_of_ascii (digit_char d))) 45); [lia|].
    destruct (Z.eqb_spec (u8_to_Z (byte_of_ascii (digit_char d))) 43); [lia|]. rewrite Hv. unfold i64_checked. cbn. by rewrite Hb.
Qed.

Lemma from_hex_digit n : 0 <= n < 16 -> from_hex (hex_digit n) = Some n.
Proof.
  intros Hn. unfold hex_digit, from_hex, byte_between. destruct (n <? 10) eqn:E; blia; rewrite !u8_to_of_Z, Z.mod_small by lia.
  - rewrite (proj2 (Z.leb_le 48 (48 + n)) ltac:(lia)), (proj2 (Z.leb_le (48 + n) 57) ltac:(lia)). cbn. f_equal. lia.
  - rewrite (proj2 (Z.leb_gt (87 + n) 57) ltac:(lia)), andb_false_r.
    rewrite (proj2 (Z.leb_le 97 (87 + n)) ltac:(lia)), (proj2 (Z.leb_le (87 + n) 102) ltac:(lia)). cbn. f_equal. lia.
Qed.

Lemma hex_decode_encode l : hex_decode (hex_encode l) = Some l.
Proof.
  unfold hex_decode, hex_encode. rewrite bytes_of_string_of.
  assert (Hl : len (flat_map (fun b => [hex_digit (u8_to_Z b / 16); hex_digit (u8_to_Z b mod 16)]) l) = 2 * len l).
  { induction l as [|b l IH]; [done|]. cbn [flat_map app]. rewrite !len_cons, IH. lia. }
  rewrite Hl, Z.mul_comm, Z.mod_mul by lia. cbn [Z.eqb]. induction l as [|b l IH]; [done|].
  cbn [flat_map app hex_pairs]. pose proof (u8_to_Z_range b) as Hb.
  rewrite !from_hex_digit by (first [apply Z.mod_pos_bound | split; [apply Z.div_pos|apply Z.div_lt_upper_bound]]; lia).
  cbn [mbind option_bind]. rewrite IH by (clear; induction l as [|b l IH]; [done|]; cbn [flat_map app]; rewrite !len_cons, IH; lia).
  cbn [mbind option_bind]. do 2 f_equal. rewrite <- Z.div_mod by lia. apply u8_of_to_Z.
Qed.

(** ** Signatures *)

Section signature_theorems.
Context `{HmacSha256}.

(** What a verified request satisfies. *)
Record verified (secret : bytes) (method path : string) (body : bytes) (h : HmacHeaders) (now_ts : Z) : Prop := {
  v_nonce : valid_nonce (hh_nonce h) = true;
  v_time : exists ts, i64_parse (hh_timestamp h) = Some ts /\ Z.abs (now_ts - ts) <= MAX_SKEW_SECS;
  v_tag : exists key, new_from_slice secret = Some key /\
    hex_decode (hh_signature h) = Some (hmac_tag key (canonical method path (hh_timestamp h) (hh_nonce h) body))
}.

Lemma verify_at_spec secret method path body h now_ts :
  verify_at secret method path body h now_ts = true <-> secret <> [] /\ verified secret method path body h now_ts.
Proof.
  unfold verify_at. destruct secret as [|k0 secret]; [by split; [|intros [? _]]|]. rewrite andb_true_iff. split.
  - intros [Hn Hv]. split; [done|]. destruct (i64_parse _) as [ts|] eqn:Et; [|done].
    apply andb_true_iff in Hv as [Hs Hv]. destruct (hex_decode _) as [sig|] eqn:Eh; [|done].
    destruct (new_from_slice _) as [key|] eqn:Ek; [|done]. apply bool_decide_eq_true in Hv as ->.
    split; [done|exists ts; split; [done|blia]|by exists key].
  - intros [_ [Hn (ts & Et & Hts) (key & Ek & Eh)]]. split; [done|]. rewrite Et, Eh, Ek, bool_decide_true, andb_true_r by done.
    apply negb_true_iff, Z.ltb_ge. lia.
Qed.

(** A signed request verifies.  What [sign] returns for a request, [verify]
    accepts for this request under the same secret for as long as the clocks are
    within the skew of each other, whatever the key, the nonce (one of the right
    form) and the body: times and tags are read back from their texts as they were
    written. *)
Theorem signed_verifies (secret : bytes) (method path : string) (body : bytes) (signed_at now_ts : Z) (nonce : string) (h : HmacHeaders)
  (Ht : in_i64 signed_at) (Hn : valid_nonce nonce = true)
  (Hs : sign_at secret method path body signed_at nonce = Ok h) :
  verify_at secret method path body h now_ts = true <-> Z.abs (now_ts - signed_at) <= MAX_SKEW_SECS.
Proof.
  rewrite verify_at_spec. unfold sign_at, mac_bytes in Hs. destruct secret as [|k0 secret]; [done|].
  destruct (new_from_slice (k0 :: secret)) as [key|] eqn:Ek; cbn [try_bind] in Hs; [|done]. injection Hs as <-. split.
  - intros [_ [_ (ts & Et & Hts) _]]. cbn [hh_timestamp] in Et. rewrite i64_parse_to_dec in Et by done. by injection Et as <-.
  - intros Habs. split; [done|]. split; cbn [hh_nonce hh_timestamp hh_signature]; [done|..].
    + exists signed_at. by rewrite i64_parse_to_dec.
    + exists key. by rewrite hex_decode_encode.
Qed.
End signature_theorems.

#[local] Instance demo_hmac : HmacSha256 := {|
  hmac_key := bytes;
  new_from_slice k := Some k;
  hmac_tag k m := k ++ m
|}.

Lemma signed_verifies_witness :
  verify_at [Byte.x01] "POST" "/x" [Byte.x02]
    (mkHmacHeaders "1000" "abcd1234" (hex_encode (Byte.x01 :: canonical "POST" "/x" "1000" "abcd1234" [Byte.x02]))) 1060 = true.
Proof.
  apply (signed_verifies [Byte.x01] "POST" "/x" [Byte.x02] 1000 1060 "abcd1234"); [done|reflexivity|reflexivity|done].
Defined.

(** ** The canonical text *)

Definition no_newline (s : string) : Prop := newline ∉ bytes_of s.

Lemma app_newline_inj (a b x y : bytes) : newline ∉ a -> newline ∉ b -> a ++ newline :: x = b ++ newline :: y -> a = b /\ x = y.
Proof.
  revert b. induction a as [|c a IH]; intros [|d b] Ha Hb E; cbn [app] in E.
  - by injection E as ->.
  - injection E as <- E2. exfalso. apply Hb. by left.
  - injection E as -> E2. exfalso. apply Ha. by left.
  - injection E as <- E2. apply not_elem_of_cons in Ha as [_ Ha], Hb as [_ Hb]. by apply IH in E2 as [-> ->].
Qed.

Lemma canonical_inj method path ts nonce body method' path' ts' nonce' body' :
  no_newline method -> no_newline path -> no_newline ts -> no_newline nonce ->
  no_newline method' -> no_newline path' -> no_newline ts' -> no_newline nonce' ->
  canonical method path ts nonce body = canonical method' path' ts' nonce' body' ->
  method = method' /\ path = path' /\ ts = ts' /\ nonce = nonce' /\ body = body'.
Proof.
  unfold no_newline, canonical. intros ???????? E.
  apply app_newline_inj in E as [->%bytes_of_inj E]; [|done..].
  apply app_newline_inj in E as [->%bytes_of_inj E]; [|done..].
  apply app_newline_inj in E as [->%bytes_of_inj E]; [|done..].
  by apply app_newline_inj in E as [->%bytes_of_inj ->].
Qed.

Lemma dec_value_no_newline l v : is_Some (dec_value l v) -> newline ∉ l.
Proof.
  revert v. induction l as [|d l IH]; intros v [x Hx]; [by apply not_elem_of_nil|]. cbn [dec_value] in Hx.
  destruct (is_ascii_digit d) eqn:E; [|done]. apply not_elem_of_cons. split; [by intros <-|]. by eapply IH.
Qed.

Lemma i64_parse_no_newline s : is_Some (i64_parse s) -> no_newline s.
Proof.
  assert (Hc : forall l (f : Z -> Z), is_Some (i64_checked (n ← dec_value l 0; Some (f n))) -> newline ∉ l).
  { intros l f [x Hx]. destruct (dec_value l 0) eqn:E; [|done]. by eapply dec_value_no_newline, mk_is_Some. }
  assert (Hd : forall l, is_Some (i64_checked (dec_value l 0)) -> newline ∉ l).
  { intros l Hl. apply (Hc l id). by destruct (dec_value l 0). }
  unfold i64_parse, no_newline. destruct (bytes_of s) as [|b l]; [intros _; by apply not_elem_of_nil|]. intros Hl.
  destruct (u8_to_Z b =? 45) eqn:E1; [|destruct (u8_to_Z b =? 43) eqn:E2]; [..|by apply Hd];
    (destruct l as [|d l]; [by destruct Hl|]; apply not_elem_of_cons; split; [by intros <-|]; eauto).
Qed.

Lemma valid_nonce_no_newline n : valid_nonce n = true -> no_newline n.
Proof.
  unfold valid_nonce, no_newline. rewrite !andb_true_iff. intros [_ Hn] Hin.
  rewrite forallb_forall in Hn. apply list_elem_of_In, Hn in Hin. done.
Qed.

(** What a signature covers is unambiguous.  Two requests, with methods and
    paths of an HTTP request line, that the same key verifies and whose tags are
    tags of the same bytes are the same request: the same method, path, time, nonce
    and body.  No part of one can be taken for a part of another. *)
Theorem verified_binds `{HmacSha256} (secret secret' : bytes) (method path method' path' : string) (body body' : bytes)
  (h h' : HmacHeaders) (t t' : Z)
  (Hm : no_newline method /\ no_newline path) (Hm' : no_newline method' /\ no_newline path')
  (Hv : verify_at secret method path body h t = true) (Hv' : verify_at secret' method' path' body' h' t' = true)
  (Hsame : canonical method path (hh_timestamp h) (hh_nonce h) body
    = canonical method' path' (hh_timestamp h') (hh_nonce h') body') :
  method = method' /\ path = path' /\ hh_timestamp h = hh_timestamp h' /\ hh_nonce h = hh_nonce h' /\ body = body'.
Proof.
  apply verify_at_spec in Hv as [_ [Hn (ts & Et & _) _]]. apply verify_at_spec in Hv' as [_ [Hn' (ts' & Et' & _) _]].
  destruct Hm, Hm'. eapply canonical_inj; [..|exact Hsame]; auto using valid_nonce_no_newline.
  - apply i64_parse_no_newline. by rewrite Et.
  - apply i64_parse_no_newline. by rewrite Et'.
Qed.

Lemma verified_binds_witness :
  let h := mkHmacHeaders "1000" "abcd1234" (hex_encode (Byte.x01 :: canonical "POST" "/x" "1000" "abcd1234" [Byte.x02])) in
  "POST"%string = "POST"%string /\ "/x"%string = "/x"%string /\ hh_timestamp h = hh_timestamp h /\ hh_nonce h = hh_nonce h
  /\ [Byte.x02] = [Byte.x02].
Proof.
  cbv zeta.
  apply (verified_binds [Byte.x01] [Byte.x01] "POST" "/x" "POST" "/x" [Byte.x02] [Byte.x02]
    (mkHmacHeaders "1000" "abcd1234" (hex_encode (Byte.x01 :: canonical "POST" "/x" "1000" "abcd1234" [Byte.x02])))
    (mkHmacHeaders "1000" "abcd1234" (hex_encode (Byte.x01 :: canonical "POST" "/x" "1000" "abcd1234" [Byte.x02]))) 1000 1060).
  - by split; apply (bool_decide_unpack _); vm_compute.
  - by split; apply (bool_decide_unpack _); vm_compute.
  - by vm_compute.
  - by vm_compute.
  - done.
Defined.

(** ** Replays *)

(** A request as it arrives, and the verdict of the middleware on it: the signature,
    then the nonce.  [boot] is the wall clock, in nanoseconds, when the monotone clock
    of the guard stood at zero; both are read at the same moment [t]. *)
Record SignedRequest := mkSignedRequest {
  sr_method : string;
  sr_path : string;
  sr_body : bytes;
  sr_headers : HmacHeaders
}.

Section replays.
Context `{HmacSha256} (secret : bytes) (boot : Z).

Definition admit_request (t : Z) (r : SignedRequest) (g : MemoryHmacNonceGuard) : MemoryHmacNonceGuard * bool :=
  if verify_at secret (sr_method r) (sr_path r) (sr_body r) (sr_headers r) ((boot + t) / 1000000000)
  then claim_at (hh_nonce (sr_headers r)) t g else (g, false).

(** The verdicts on requests that arrive one after the other. *)
Fixpoint admissions (arrivals : list (Z * SignedRequest)) (g : MemoryHmacNonceGuard) : list bool :=
  match arrivals with
  | [] => []
  | (t, r) :: arrivals => let '(g, ok) := admit_request t r g in ok :: admissions arrivals g
  end.

(** The claims before [t] that the guard still has to know of, it knows of. *)
Definition guards (t : Z) (claims : list (Z * string)) (g : MemoryHmacNonceGuard) : Prop :=
  (forall n s, nonce_seen g !! n = Some s -> s <= t) /\
  (forall s n, (s, n) ∈ claims -> s <= t) /\
  (forall s n, (s, n) ∈ claims -> (t - s) / 1000000000 < HMAC_NONCE_TTL_SECS -> exists s', s <= s' /\ nonce_seen g !! n = Some s').

Lemma secs_mono s s' t : s <= s' -> (t - s') / 1000000000 <= (t - s) / 1000000000.
Proof. intros. apply Z.div_le_mono; lia. Qed.

Lemma guards_later t t' claims g : t <= t' -> guards t claims g -> guards t' claims g.
Proof.
  intros Ht (H1 & H2 & H3). split_and!.
  - intros n s Hs. specialize (H1 n s Hs). lia.
  - intros s n Hs. specialize (H2 s n Hs). lia.
  - intros s n Hs Hk. apply (H3 s n Hs). pose proof (Z.div_le_mono (t - s) (t' - s) 1000000000). lia.
Qed.

Lemma guards_claim t claims g n g' ok : guards t claims g -> claim_at n t g = (g', ok) ->
  guards t (if ok then (t, n) :: claims else claims) g' /\
  (ok = true -> forall s, (s, n) ∈ claims -> HMAC_NONCE_TTL_SECS <= (t - s) / 1000000000).
Proof.
  intros (H1 & H2 & H3) Hc. unfold claim_at in Hc. set (kept := filter _ _) in Hc.
  assert (Hk : forall m s, nonce_seen g !! m = Some s -> (t - s) / 1000000000 < HMAC_NONCE_TTL_SECS -> kept !! m = Some s).
  { intros m s Hm Hs. apply map_lookup_filter_Some_2; [done|]. unfold nonce_kept. apply orb_true_iff. right. by apply Z.ltb_lt. }
  assert (Hg : guards t claims (mkNonceGuard kept)).
  { split_and!; cbn [nonce_seen].
    - intros m s [Hm _]%map_lookup_filter_Some. eauto.
    - done.
    - intros s m Hs Hold. destruct (H3 s m Hs Hold) as (s' & Hle & Hm). exists s'. split; [done|]. apply Hk; [done|].
      pose proof (secs_mono s s' t Hle). lia. }
  destruct (kept !! n) as [s0|] eqn:En; injection Hc as <- <-; [by split|]. split.
  - destruct Hg as (G1 & G2 & G3). split_and!; cbn [nonce_seen].
    + intros m s. destruct (decide (m = n)) as [->|]; [rewrite lookup_insert_eq; intros [= <-]; lia|].
      rewrite lookup_insert_ne by done. apply G1.
    + intros s m [[= -> ->]|Hs]%elem_of_cons; [lia|eauto].
    + intros s m [[= -> ->]|Hs]%elem_of_cons Hold; [exists t; split; [lia|apply lookup_insert_eq]|].
      destruct (decide (m = n)) as [->|]; [exists t; split; [eauto|apply lookup_insert_eq]|].
      rewrite lookup_insert_ne by done. eauto.
  - intros _ s Hs. destruct (Z.ltb_spec ((t - s) / 1000000000) HMAC_NONCE_TTL_SECS) as [Hold|]; [|lia].
    destruct (proj2 (proj2 Hg) s n Hs Hold) as (s' & _ & Hs'). cbn [nonce_seen] in Hs'. by rewrite En in Hs'.
Qed.

(** Two verified requests with the same time stamp are at most two skews apart. *)
Lemma skew_window r r' t t' : t <= t' -> hh_timestamp (sr_headers r) = hh_timestamp (sr_headers r') ->
  verify_at secret (sr_method r) (sr_path r) (sr_body r) (sr_headers r) ((boot + t) / 1000000000) = true ->
  verify_at secret (sr_method r') (sr_path r') (sr_body r') (sr_headers r') ((boot + t') / 1000000000) = true ->
  (t' - t) / 1000000000 < HMAC_NONCE_TTL_SECS.
Proof.
  intros Ht Ets [_ [_ (ts & E1 & Hts) _]]%verify_at_spec [_ [_ (ts' & E2 & Hts') _]]%verify_at_spec.
  rewrite Ets, E2 in E1. injection E1 as <-. unfold HMAC_NONCE_TTL_SECS, MAX_SKEW_SECS in *.
  apply Z.div_lt_upper_bound; [lia|].
  pose proof (Z.div_mod (boot + t) 1000000000 ltac:(lia)). pose proof (Z.mod_pos_bound (boot + t) 1000000000 ltac:(lia)).
  pose proof (Z.div_mod (boot + t') 1000000000 ltac:(lia)). pose proof (Z.mod_pos_bound (boot + t') 1000000000 ltac:(lia)). lia.
Qed.

Lemma admit_claims t claims g r g' ok : guards t claims g -> admit_request t r g = (g', ok) ->
  guards t (if ok then (t, hh_nonce (sr_headers r)) :: claims else claims) g' /\
  (ok = true ->
    verify_at secret (sr_method r) (sr_path r) (sr_body r) (sr_headers r) ((boot + t) / 1000000000) = true /\
    forall s, (s, hh_nonce (sr_headers r)) ∈ claims -> HMAC_NONCE_TTL_SECS <= (t - s) / 1000000000).
Proof.
  intros Hg Ha. unfold admit_request in Ha. destruct (verify_at _ _ _ _ _ _) eqn:Ev; [|by injection Ha as <- <-].
  destruct (guards_claim t claims g _ g' ok Hg Ha) as [H1 H2]. split; [done|]. intros ->. split; [done|]. by apply H2.
Qed.

(** A claim of the past keeps the requests that replay it out. *)
Lemma claimed_kept_out s r claims : forall arrivals t g j t' r',
  guards t claims g -> StronglySorted Z.le (t :: List.map fst arrivals) -> (s, hh_nonce (sr_headers r)) ∈ claims ->
  verify_at secret (sr_method r) (sr_path r) (sr_body r) (sr_headers r) ((boot + s) / 1000000000) = true ->
  arrivals !! j = Some (t', r') -> admissions arrivals g !! j = Some true ->
  sr_headers r' = sr_headers r -> False.
Proof.
  intros arrivals. revert claims. induction arrivals as [|[t1 r1] arrivals IH]; intros claims t g j t' r' Hg Hs Hin Hv Ej Ea Hh; [done|].
  cbn [List.map fst] in Hs. apply StronglySorted_inv in Hs as [Hs Ht]. apply list.Forall_cons in Ht as [Ht _].
  apply (guards_later t t1) in Hg; [|done]. cbn [admissions] in Ea. destruct (admit_request t1 r1 g) as [g' ok] eqn:E.
  destruct (admit_claims t1 claims g r1 g' ok Hg E) as [Hg' Hok]. destruct j as [|j].
  - cbn in Ej, Ea. injection Ej as -> ->. injection Ea as ->. destruct (Hok eq_refl) as [Hv' Hold].
    rewrite Hh in Hold. specialize (Hold s Hin). destruct Hg as (_ & Hc & _).
    pose proof (skew_window r r' s t' (Hc _ _ Hin) ltac:(by rewrite Hh) Hv Hv'). lia.
  - cbn in Ej, Ea. eapply (IH _ t1 g' j); [exact Hg'|done| |done..]. destruct ok; [by right|done].
Qed.

(** (C32) A signed request is admitted at most once.  Whatever requests arrive, one
    after the other, at a service whose two clocks run together: no two requests
    with the same signature headers are both admitted.  The time a claimed nonce is
    kept covers the whole window in which its time stamp is accepted. *)
Theorem no_replay (arrivals : list (Z * SignedRequest)) (i j : nat) (t t' : Z) (r r' : SignedRequest)
  (Hs : StronglySorted Z.le (List.map fst arrivals)) (Hij : (i < j)%nat)
  (Hi : arrivals !! i = Some (t, r)) (Hj : arrivals !! j = Some (t', r'))
  (Hok : admissions arrivals MemoryHmacNonceGuard_new !! i = Some true) (Hh : sr_headers r = sr_headers r') :
  admissions arrivals MemoryHmacNonceGuard_new !! j = Some false.
Proof.
  assert (Hgen : forall arrivals t0 claims g i j, guards t0 claims g -> StronglySorted Z.le (t0 :: List.map fst arrivals) -> (i < j)%nat ->
    arrivals !! i = Some (t, r) -> arrivals !! j = Some (t', r') -> admissions arrivals g !! i = Some true ->
    admissions arrivals g !! j = Some true -> False).
  { clear - Hh. induction arrivals as [|[t1 r1] arrivals IH]; intros t0 claims g i j Hg Hs Hij Hi Hj Ei Ej; [done|].
    cbn [List.map fst] in Hs. apply StronglySorted_inv in Hs as [Hs Ht]. apply list.Forall_cons in Ht as [Ht _].
    apply (guards_later t0 t1) in Hg; [|done]. cbn [admissions] in Ei, Ej. destruct (admit_request t1 r1 g) as [g' ok] eqn:E.
    destruct (admit_claims t1 claims g r1 g' ok Hg E) as [Hg' Hok]. destruct j as [|j]; [lia|]. destruct i as [|i].
    - cbn in Hi, Ei. injection Hi as -> ->. injection Ei as ->. destruct (Hok eq_refl) as [Hv _].
      by eapply (claimed_kept_out t r _ arrivals t g' j t' r' Hg' Hs ltac:(by left) Hv Hj Ej).
    - cbn in Hi, Hj, Ei, Ej. by apply (IH t1 _ g' i j Hg' Hs ltac:(lia) Hi Hj Ei Ej). }
  destruct (admissions arrivals MemoryHmacNonceGuard_new !! j) as [[]|] eqn:Ej; [exfalso|done|].
  - destruct arrivals as [|[t1 r1] arrivals]; [done|]. eapply (Hgen _ t1 [] _ i j); [| |done..].
    + split_and!; [done|by intros s n ?%not_elem_of_nil..].
    + cbn [List.map fst] in *. constructor; [done|]. apply StronglySorted_inv in Hs as [_ Ht]. by constructor; [lia|].
  - exfalso. apply lookup_ge_None in Ej. apply lookup_lt_Some in Hj.
    assert (Hl : forall l g, length (admissions l g) = length l); [|rewrite Hl in Ej; lia].
    clear. induction l as [|[t r] l IH]; intros g; [done|]. cbn [admissions]. destruct (admit_request t r g). cbn. by rewrite IH.
Qed.
End replays.

Definition demo_request : SignedRequest := mkSignedRequest "POST" "/x" [Byte.x02]
  (mkHmacHeaders "1000" "abcd1234" (hex_encode (Byte.x01 :: canonical "POST" "/x" "1000" "abcd1234" [Byte.x02]))).

Lemma no_replay_witness :
  let verdicts := admissions [Byte.x01] 0 [(1000000000000, demo_request); (1060000000000, demo_request)] MemoryHmacNonceGuard_new in
  verdicts !! 0%nat = Some true /\ verdicts !! 1%nat = Some false.
Proof.
  cbv zeta. split; [by vm_compute|].
  apply (no_replay [Byte.x01] 0 _ 0 1 1000000000000 1060000000000 demo_request demo_request); [|lia|done|done| |done].
  - repeat constructor; cbn; lia.
  - by vm_compute.
Defined.
