(* ===== verification/RoyalPool.v ===== *)
(** The instances of the royal service and the calls to them:
    services/chat/src/royal_pool.rs and the client and circuit breaker of
    services/chat/src/royal.rs.

    Many calls share a pool.  What they share is atomic cells ([fails], [opened],
    [half_open_at] of each instance, the round-robin counter, the list of instances),
    so a call is a program over [PoolEff], whose calls are the single loads, stores,
    swaps and additions, the clocks, and the HTTP request itself. *)

From S2P Require Import Prelude Prog Wire Pkt Store Container Hmac.
Open Scope Z_scope.
Open Scope kim_scope.

(** ** Constants *)

Definition MS : Z := 1000000.
Definition RETRIES : nat := 3.
Definition PER_ATTEMPT : Z := 400 * MS.
Definition DEFAULT_ATTEMPT : Z := 4 * 1000 * MS.
Definition CIRCUIT_FAILS : Z := 5.
Definition HALF_OPEN_MS : Z := 30000.

(** ** Texts of errors *)

Definition IdError_text (e : IdError) : string :=
  match e with
  | Init m => "snowflake init: " ++ m
  | Next m => "snowflake next: " ++ m
  | Overflow => "snowflake id overflows i64"
  end%string.
Definition StoreError_text (e : StoreError) : string :=
  match e with
  | Id e => "idgen: " ++ IdError_text e
  | Http status msg => "royal http " ++ nat_to_dec status ++ ": " ++ msg
  | Invalid m => "invalid: " ++ m
  | StoreNotFound => "not found"
  | Backend m => m
  end%string.

(** [String::from_utf8_lossy]: every maximal part that cannot be continued becomes
    U+FFFD. *)
Definition fffd : bytes := [Byte.xef; Byte.xbf; Byte.xbd].
Definition second_of_three (a b : u8) : bool :=
  if byte_between 224 224 a then byte_between 160 191 b
  else if byte_between 237 237 a then byte_between 128 159 b
  else byte_between 225 239 a && is_cont b.
Definition second_of_four (a b : u8) : bool :=
  if byte_between 240 240 a then byte_between 144 191 b
  else if byte_between 244 244 a then byte_between 128 143 b
  else byte_between 241 243 a && is_cont b.

Fixpoint lossy (l : bytes) : bytes :=
  match l with
  | [] => []
  | a :: l1 =>
    if byte_between 0 127 a then a :: lossy l1
    else match l1 with
    | [] => fffd
    | b :: l2 =>
      if byte_between 194 223 a then (if is_cont b then a :: b :: lossy l2 else fffd ++ lossy l1)
      else if second_of_three a b then
        match l2 with
        | [] => fffd
        | c :: l3 => if is_cont c then a :: b :: c :: lossy l3 else fffd ++ lossy l2
        end
      else if second_of_four a b then
        match l2 with
        | [] => fffd
        | c :: l3 =>
          if is_cont c then
            match l3 with
            | [] => fffd
            | d :: l4 => if is_cont d then a :: b :: c :: d :: lossy l4 else fffd ++ lossy l3
            end
          else fffd ++ lossy l2
        end
      else fffd ++ lossy l1
    end
  end.
Definition from_utf8_lossy (l : bytes) : string := string_of_bytes (lossy l).

(** ** Status codes *)

Definition is_server_error (status : Z) : bool := (500 <=? status) && (status <? 600).
Definition is_success (status : Z) : bool := (200 <=? status) && (status <? 300).

Definition http_status_err (status : Z) (body : bytes) : StoreError := Http status (from_utf8_lossy body).
Definition retry_http (status : Z) : bool := is_server_error status && negb (status =? 503).
Definition circuit_failure_status (status : Z) : bool :=
  (status =? 500) || (status =? 502) || (status =? 503) || (status =? 504).

(** ** The calls *)

Inductive Method : Type := GET | POST | DELETE.
#[export] Instance Method_eq_dec : EqDecision Method.
Proof. solve_decision. Defined.
Definition Method_text (m : Method) : string := match m with GET => "GET" | POST => "POST" | DELETE => "DELETE" end.

(** An instance: [rc_id] is the identity of the [Arc], under which its atomics are. *)
Record RoyalClient := mkRoyalClient { rc_id : nat; rc_base : string; rc_hmac_secret : string }.

Record HttpRequest := mkHttpRequest {
  hr_method : Method;
  hr_url : string;
  hr_path : string;
  hr_headers : HmacHeaders;
  hr_body : bytes
}.

Record RoyalPool := mkRoyalPool {
  rp_bootstrap : option RoyalClient;
  rp_hmac : string;
  rp_metrics : bool
}.

Inductive PoolEff : Type -> Type :=
| PLoadClients : PoolEff (list RoyalClient)
| PStoreClients (clients : list RoyalClient) : PoolEff unit
| PNewClient (base hmac : string) : PoolEff (result RoyalClient string)
| PFindRoyal : PoolEff (result (list DefaultRegistration) string)
| PFetchAddRr : PoolEff Z
| POpened (c : nat) : PoolEff bool
| PStoreOpened (c : nat) (b : bool) : PoolEff unit
| PGate (c : nat) : PoolEff Z
| PStoreGate (c : nat) (gate : Z) : PoolEff unit
| PCasGate (c : nat) (old new : Z) : PoolEff bool
| PFetchAddFails (c : nat) : PoolEff Z
| PStoreFails (c : nat) (n : Z) : PoolEff unit
| PUnixMs : PoolEff Z
| PUnixSecs : PoolEff Z
| PNow : PoolEff Z
| PNonce : PoolEff string
| PSleep (d : Z) : PoolEff unit
| PSend (c : nat) (timeout : Z) (req : HttpRequest) : PoolEff (result (Z * result bytes string) string)
| PObserve (group : string) (cause : option string) : PoolEff unit.

Abbreviation PProc := (Prog PoolEff).

(** ** royal.rs: the circuit breaker *)

Definition is_open (c : RoyalClient) : PProc bool := call (POpened (rc_id c)).

Definition try_probe (c : RoyalClient) : PProc bool :=
  opened ← call (POpened (rc_id c));
  if negb opened then Ret true
  else
    now ← call PUnixMs;
    gate ← call (PGate (rc_id c));
    if now <? gate then Ret false
    else call (PCasGate (rc_id c) gate (sat_u64 (now + HALF_OPEN_MS))).

Definition report_success (c : RoyalClient) : PProc unit :=
  _ ← call (PStoreFails (rc_id c) 0);
  call (PStoreOpened (rc_id c) false).

Definition report_failure (c : RoyalClient) : PProc unit :=
  before ← call (PFetchAddFails (rc_id c));
  let n := Z.min u32_max (before + 1) in
  if CIRCUIT_FAILS <=? n then
    _ ← call (PStoreOpened (rc_id c) true);
    now ← call PUnixMs;
    call (PStoreGate (rc_id c) (sat_u64 (now + HALF_OPEN_MS)))
  else Ret tt.

(** ** royal.rs: deadlines *)

(** [deadline]: the task-local [RPC_DEADLINE], when the call runs under one. *)
Definition attempt_timeout (deadline : option Z) : PProc Z :=
  match deadline with
  | None => Ret DEFAULT_ATTEMPT
  | Some d => now ← call PNow; Ret (Z.min (Z.max 0 (d - now)) PER_ATTEMPT)
  end.

Definition backoff (deadline : option Z) (attempt : nat) : PProc unit :=
  let base := 100 * 2 ^ Z.min (Z.of_nat attempt) 2 in
  ms ← call PUnixMs;
  let sleep := (base + ms mod 1000 mod 50) * MS in
  match deadline with
  | None => call (PSleep sleep)
  | Some d => now ← call PNow; if now + sleep <? d then call (PSleep sleep) else Ret tt
  end.

(** ** royal_pool.rs *)

Inductive RpcCause : Type := NoClient | HttpCause | Transport | DecodeCause.
Definition RpcCause_text (c : RpcCause) : string :=
  match c with NoClient => "no_client" | HttpCause => "http" | Transport => "transport" | DecodeCause => "decode" end.

Definition royal_base (reg : DefaultRegistration) : option string :=
  let proto := str_to_ascii_lowercase (default (rg_protocol reg) (rg_meta reg !! "protocol"%string)) in
  if negb (str_is_empty proto) && negb (bool_decide (proto = "http"%string)) && negb (bool_decide (proto = "https"%string)) then None
  else if str_is_empty (rg_public_address reg) || (rg_public_port reg =? 0) then None
  else
    let scheme := if bool_decide (proto = "https"%string) then "https"%string else "http"%string in
    Some (scheme ++ "://" ++ rg_public_address reg ++ ":" ++ nat_to_dec (rg_public_port reg))%string.

Definition prefixes : list (string * string) :=
  [("/api/v1/message", "message"); ("/api/v1/group", "group"); ("/api/v1/friend", "friend"); ("/api/v1/user", "user");
   ("/api/v1/block", "block"); ("/api/v1/offline", "offline"); ("/api/v1/delivery", "delivery"); ("/api/v1/inbox", "inbox");
   ("/api/v1/history", "history"); ("/api/v1/agent", "agent"); ("/internal", "internal")]%string.
Definition classify (path : string) : string :=
  match List.find (fun x => String.prefix x.1 path) prefixes with Some (_, group) => group | None => "other" end.

(** The instances of the addresses found: a known one keeps its circuit. *)
Fixpoint merge_clients (p : RoyalPool) (current : list RoyalClient) (bases : list string) (next : list RoyalClient)
  : PProc (result (list RoyalClient) StoreError) :=
  match bases with
  | [] => Ret (Ok next)
  | base :: bases =>
    match List.find (fun c => bool_decide (rc_base c = base)) current with
    | Some existing => merge_clients p current bases (next ++ [existing])
    | None =>
      made ← call (PNewClient base (rp_hmac p));
      match made with
      | Ok c => merge_clients p current bases (next ++ [c])
      | Err e => Ret (Err (Backend e))
      end
    end
  end.

Definition replace_with (p : RoyalPool) (bases : list string) : PProc (result unit StoreError) :=
  match bases with
  | [] =>
    match rp_bootstrap p with
    | Some boot => _ ← call (PStoreClients [boot]); Ret (Ok tt)
    | None => Ret (Ok tt)
    end
  | _ =>
    current ← call PLoadClients;
    merged ← merge_clients p current bases [];
    match merged with
    | Ok next => _ ← call (PStoreClients next); Ret (Ok tt)
    | Err e => Ret (Err e)
    end
  end.

Definition refresh_once (p : RoyalPool) : PProc (result unit StoreError) :=
  regs ← call PFindRoyal;
  match regs with
  | Err e => Ret (Err (Backend e))
  | Ok regs => replace_with p (omap royal_base regs)
  end.

(** The first opened instance that may be probed. *)
Fixpoint probe_first (clients : list RoyalClient) : PProc (option RoyalClient) :=
  match clients with
  | [] => Ret None
  | c :: clients =>
    opened ← is_open c;
    if opened : bool then
      granted ← try_probe c;
      if granted : bool then Ret (Some c) else probe_first clients
    else probe_first clients
  end.

Fixpoint closed_clients (clients : list RoyalClient) : PProc (list RoyalClient) :=
  match clients with
  | [] => Ret []
  | c :: clients =>
    opened ← is_open c;
    rest ← closed_clients clients;
    Ret (if opened : bool then rest else c :: rest)
  end.

Definition no_royal : result RoyalClient StoreError := Err (Backend "no royal available").

Definition pick (p : RoyalPool) : PProc (result RoyalClient StoreError) :=
  clients ← call PLoadClients;
  probe ← probe_first clients;
  match probe with
  | Some c => Ret (Ok c)
  | None =>
    healthy ← closed_clients clients;
    match healthy with
    | _ :: _ =>
      rr ← call PFetchAddRr;
      match healthy !! Z.to_nat (rr mod len healthy) with
      | Some c => Ret (Ok c)
      | None => Ret no_royal
      end
    | [] =>
      match rp_bootstrap p with
      | None => Ret no_royal
      | Some boot =>
        opened ← is_open boot;
        if negb opened then Ret (Ok boot)
        else
          granted ← try_probe boot;
          if granted : bool then Ret (Ok boot) else Ret no_royal
      end
    end
  end.

(** What one request leads to: an end, or the failure another attempt may replace. *)
Inductive Attempted (A : Type) : Type :=
| Finished (r : result A (RpcCause * StoreError))
| Failed (last : RpcCause * StoreError).

Arguments Finished {A} r.
Arguments Failed {A} last.

(** The text of prost's [DecodeError]. *)
Class DecodeText := decode_text : bytes -> string.

Section calls.
Context `{HmacSha256}.

(** The text of a signing error is the only use of its [Display]. *)
Definition signed (c : RoyalClient) (method : Method) (path : string) (body : bytes) : PProc (result HttpRequest StoreError) :=
  now ← call PUnixSecs;
  nonce ← call PNonce;
  match sign_at (bytes_of (rc_hmac_secret c)) (Method_text method) path body now nonce with
  | Err _ => Ret (Err (Backend "invalid hmac secret"))
  | Ok headers => Ret (Ok (mkHttpRequest method (rc_base c ++ path)%string path headers body))
  end.

Section loop.
Context {A : Type} (p : RoyalPool) (deadline : option Z) (method : Method) (path : string) (payload : bytes)
  (finish : bytes -> result A (RpcCause * StoreError)).

(** One request to [client] and the report on it. *)
Definition request_once (client : RoyalClient) (timeout : Z) (req : HttpRequest) : PProc (Attempted A) :=
  answer ← call (PSend (rc_id client) timeout req);
  match answer with
  | Ok (status, Err e) => _ ← report_failure client; Ret (Failed (Transport, Backend e))
  | Ok (status, Ok buf) =>
    if is_success status then
      _ ← report_success client;
      Ret (Finished (finish buf))
    else
      let last := (HttpCause, http_status_err status buf) in
      _ ← (if circuit_failure_status status then report_failure client else report_success client);
      Ret (if negb (retry_http status) then Finished (Err last) else Failed last)
  | Err e => _ ← report_failure client; Ret (Failed (Transport, Backend e))
  end.

(** The attempts left. *)
Fixpoint attempt_loop (attempts : list nat) (last : RpcCause * StoreError) : PProc (result A (RpcCause * StoreError)) :=
  match attempts with
  | [] => Ret (Err last)
  | attempt :: attempts =>
    timeout ← attempt_timeout deadline;
    if timeout =? 0 then Ret (Err last)
    else
      picked ← pick p;
      match picked with
      | Err e => Ret (Err (NoClient, e))
      | Ok client =>
        req ← signed client method path payload;
        match req with
        | Err e => Ret (Err (Transport, e))
        | Ok req =>
          timeout ← attempt_timeout deadline;
          tried ← request_once client timeout req;
          match tried with
          | Finished r => Ret r
          | Failed last =>
            _ ← (if Nat.ltb (attempt + 1) RETRIES then backoff deadline attempt else Ret tt);
            attempt_loop attempts last
          end
        end
      end
  end.

Definition request_failed : RpcCause * StoreError := (Transport, Backend "royal request failed").
Definition rpc : PProc (result A (RpcCause * StoreError)) := attempt_loop (seq 0 RETRIES) request_failed.
End loop.

Definition observe_rpc {A} (p : RoyalPool) (group : string) (out : result A (RpcCause * StoreError)) : PProc unit :=
  if negb (rp_metrics p) then Ret tt
  else call (PObserve group (match out with Ok _ => None | Err (cause, _) => Some (RpcCause_text cause) end)).

Definition drop_cause {A} (out : result A (RpcCause * StoreError)) : result A StoreError :=
  match out with Ok a => Ok a | Err (_, e) => Err e end.

Section bodies.
Context `{DecodeText}.

Definition decode_or {T} `{Message T} (buf : bytes) : result T (RpcCause * StoreError) :=
  match decode_msg buf with Some m => Ok m | None => Err (DecodeCause, Backend (decode_text buf)) end.

Definition send_pb_inner {T} `{Message T} (p : RoyalPool) (deadline : option Z) (method : Method) (path : string) (payload : bytes)
  : PProc (result T (RpcCause * StoreError)) :=
  rpc p deadline method path payload decode_or.

Definition send_pb {T B} `{Message T, Message B} (p : RoyalPool) (deadline : option Z) (method : Method) (path : string) (body : B)
  : PProc (result T StoreError) :=
  out ← send_pb_inner p deadline method path (encode_to_vec body);
  _ ← observe_rpc p (classify path) out;
  Ret (drop_cause out).
End bodies.

Definition post_maybe_empty_inner (p : RoyalPool) (deadline : option Z) (path : string) (payload : bytes)
  : PProc (result unit (RpcCause * StoreError)) :=
  rpc p deadline POST path payload (fun _ => Ok tt).

Definition post_maybe_empty {B} `{Message B} (p : RoyalPool) (deadline : option Z) (path : string) (body : B)
  : PProc (result unit StoreError) :=
  out ← post_maybe_empty_inner p deadline path (encode_to_vec body);
  _ ← observe_rpc p (classify path) out;
  Ret (drop_cause out).
End calls.

(** ** What is sent *)

Abbreviation HttpAnswer := (result (Z * result bytes string) string).
Abbreviation PEvent := (EventOf PoolEff).

Definition sent_of (ev : PEvent) : list (nat * HttpRequest * HttpAnswer) :=
  match ev with @Ev _ X e x => match e in PoolEff X return X -> list (nat * HttpRequest * HttpAnswer) with
  | PSend c _ req => fun a => [(c, req, a)]
  | _ => fun _ => []
  end x end.
Definition sends (tr : list PEvent) : list (nat * HttpRequest * HttpAnswer) := flat_map sent_of tr.
Definition answers (tr : list PEvent) : list HttpAnswer := List.map snd (sends tr).

Lemma sends_app tr tr' : sends (tr ++ tr') = sends tr ++ sends tr'.
Proof. apply flat_map_app. Qed.

(** Programs that send nothing. *)
Definition quiet {A} (p : PProc A) : Prop := sat p (fun tr _ => sends tr = []).

Lemma quiet_ret {A} (a : A) : quiet (Ret a).
Proof. done. Qed.
Lemma quiet_bind {A B} (p : PProc A) (f : A -> PProc B) : quiet p -> (forall a, quiet (f a)) -> quiet (p ≫= f).
Proof.
  intros Hp Hf. eapply sat_bind_use; [exact Hp|]. intros tr a Htr. eapply sat_mono; [|exact (Hf a)].
  intros tr' b Htr'. cbn in *. by rewrite sends_app, Htr, Htr'.
Qed.
Lemma quiet_call {X} (e : PoolEff X) : (forall x, sent_of (Ev e x) = []) -> quiet (call e).
Proof. intros He x. change (sent_of (Ev e x) ++ [] = []). by rewrite He. Qed.

Ltac quiet_walk :=
  repeat match goal with
  | |- quiet (Ret _) => apply quiet_ret
  | |- quiet (call _) => apply quiet_call; reflexivity
  | |- quiet (mbind _ _) => apply quiet_bind; [|intros ?]
  | |- quiet (match ?x with _ => _ end) => destruct x
  | |- quiet (if ?b then _ else _) => destruct b
  end.

Lemma sat_report {A B} (q : PProc A) (v : B) : quiet q -> sat (q ≫= fun _ => Ret v) (fun tr r => sends tr = [] /\ r = v).
Proof.
  intros Hq. eapply sat_bind_use; [exact Hq|]. intros tr a Htr. cbn in *. by rewrite sends_app, Htr.
Qed.

Lemma try_probe_quiet c : quiet (try_probe c).
Proof. unfold try_probe. quiet_walk. Qed.
Lemma report_success_quiet c : quiet (report_success c).
Proof. unfold report_success. quiet_walk. Qed.
Lemma report_failure_quiet c : quiet (report_failure c).
Proof. unfold report_failure. cbv zeta. quiet_walk. Qed.
Lemma attempt_timeout_quiet d : quiet (attempt_timeout d).
Proof. unfold attempt_timeout. quiet_walk. Qed.
Lemma backoff_quiet d n : quiet (backoff d n).
Proof. unfold backoff. cbv zeta. quiet_walk. Qed.
Lemma probe_first_quiet l : quiet (probe_first l).
Proof.
  induction l as [|c l IH]; cbn [probe_first]; [done|]. apply quiet_bind; [by apply quiet_call|]. intros [|]; [|done].
  apply quiet_bind; [apply try_probe_quiet|]. by intros [|].
Qed.
Lemma closed_clients_quiet l : quiet (closed_clients l).
Proof.
  induction l as [|c l IH]; cbn [closed_clients]; [done|]. apply quiet_bind; [by apply quiet_call|]. intros opened.
  apply quiet_bind; [exact IH|]. by intros rest.
Qed.
Lemma pick_quiet p : quiet (pick p).
Proof.
  unfold pick. apply quiet_bind; [by apply quiet_call|]. intros clients. apply quiet_bind; [apply probe_first_quiet|].
  intros [c|]; [done|]. apply quiet_bind; [apply closed_clients_quiet|]. intros healthy.
  quiet_walk; first [apply try_probe_quiet|by apply quiet_call].
Qed.
Lemma pick_err p : sat (pick p) (fun tr r => sends tr = [] /\ forall e, r = Err e -> exists m, e = Backend m).
Proof.
  unfold pick.
  assert (Hbind : forall {A} (q : PProc A) (f : A -> PProc (result RoyalClient StoreError)), quiet q ->
    (forall a, sat (f a) (fun tr r => sends tr = [] /\ forall e, r = Err e -> exists m, e = Backend m)) ->
    sat (q ≫= f) (fun tr r => sends tr = [] /\ forall e, r = Err e -> exists m, e = Backend m)).
  { intros A q f Hq Hf. eapply sat_bind_use; [exact Hq|]. intros tr a Htr. eapply sat_mono; [|exact (Hf a)].
    intros tr' r [H1 H2]. cbn in Htr. by rewrite sends_app, Htr, H1. }
  apply Hbind; [by apply quiet_call|]. intros clients. apply Hbind; [apply probe_first_quiet|]. intros [c|]; [done|].
  assert (Hno : sat (Ret no_royal : PProc _) (fun tr r => sends tr = [] /\ forall e, r = Err e -> exists m, e = Backend m)).
  { split; [done|]. intros e [= <-]. eauto. }
  apply Hbind; [apply closed_clients_quiet|]. intros [|c healthy].
  - destruct (rp_bootstrap p) as [boot|]; [|exact Hno]. apply Hbind; [by apply quiet_call|]. intros [|]; cbn [negb]; [|done].
    apply Hbind; [apply try_probe_quiet|]. intros [|]; [done|exact Hno].
  - apply Hbind; [by apply quiet_call|]. intros rr. destruct (_ !! _); [done|exact Hno].
Qed.
Lemma observe_rpc_quiet {A} p group (out : result A (RpcCause * StoreError)) : quiet (observe_rpc p group out).
Proof. unfold observe_rpc. quiet_walk. Qed.

(** ** The attempts of a call *)

Section outcomes.
Context `{HmacSha256} {A : Type} (finish : bytes -> result A (RpcCause * StoreError)).

(** The failure another attempt may replace. *)
Definition failed (a : HttpAnswer) : option (RpcCause * StoreError) :=
  match a with
  | Err e | Ok (_, Err e) => Some (Transport, Backend e)
  | Ok (status, Ok buf) =>
    if is_success status then None
    else if retry_http status then Some (HttpCause, http_status_err status buf) else None
  end.

(** How a call ends, by the answers to its requests: at most [n] of them. *)
Inductive outcome : nat -> RpcCause * StoreError -> list HttpAnswer -> result A (RpcCause * StoreError) -> Prop :=
| out_give_up n last : outcome n last [] (Err last)
| out_unsent n last cause m : cause = NoClient \/ cause = Transport -> outcome (S n) last [] (Err (cause, Backend m))
| out_success n last status buf : is_success status = true -> outcome (S n) last [Ok (status, Ok buf)] (finish buf)
| out_refused n last status buf : is_success status = false -> retry_http status = false ->
    outcome (S n) last [Ok (status, Ok buf)] (Err (HttpCause, http_status_err status buf))
| out_again n last a failure l r : failed a = Some failure -> outcome n failure l r -> outcome (S n) last (a :: l) r.

Context (p : RoyalPool) (deadline : option Z) (method : Method) (path : string) (payload : bytes).

Definition the_request (req : HttpRequest) : Prop :=
  hr_method req = method /\ hr_path req = path /\ hr_body req = payload.

Lemma signed_sat c : sat (signed c method path payload) (fun tr r =>
  sends tr = [] /\ match r with Ok req => the_request req | Err e => exists m, e = Backend m end).
Proof.
  unfold signed. apply sat_call. intros now. apply sat_call. intros nonce. destruct (sign_at _ _ _ _ _ _); split; eauto.
  done.
Qed.

Lemma request_once_sat c timeout req : sat (request_once finish c timeout req) (fun tr r =>
  exists a, sends tr = [(rc_id c, req, a)] /\
    match r with
    | Failed failure => failed a = Some failure
    | Finished r => exists status buf, a = Ok (status, Ok buf) /\
        (is_success status = true /\ r = finish buf \/
         is_success status = false /\ retry_http status = false /\ r = Err (HttpCause, http_status_err status buf))
    end).
Proof.
  unfold request_once. apply sat_call. intros a.
  assert (Hs : forall tr, sends tr = [] -> sends (Ev (PSend (rc_id c) timeout req) a :: tr) = [(rc_id c, req, a)]).
  { intros tr Htr. change ([(rc_id c, req, a)] ++ sends tr = [(rc_id c, req, a)]). by rewrite Htr. }
  destruct a as [[status [buf|e]]|e].
  - destruct (is_success status) eqn:Es.
    + eapply sat_mono; [|apply sat_report, report_success_quiet]. intros tr r [Htr ->]. eexists. split; [by apply Hs|]. eauto 6.
    + cbv zeta. eapply sat_mono; [|apply sat_report; destruct (circuit_failure_status status);
        [apply report_failure_quiet|apply report_success_quiet]].
      intros tr r [Htr ->]. eexists. split; [by apply Hs|]. destruct (retry_http status) eqn:Er; cbn [negb failed].
      * by rewrite Es, Er.
      * eauto 7.
  - eapply sat_mono; [|apply sat_report, report_failure_quiet]. intros tr r [Htr ->]. eexists. by split; [apply Hs|].
  - eapply sat_mono; [|apply sat_report, report_failure_quiet]. intros tr r [Htr ->]. eexists. by split; [apply Hs|].
Qed.

Lemma attempt_loop_sat attempts last :
  sat (attempt_loop p deadline method path payload finish attempts last) (fun tr r =>
    outcome (length attempts) last (answers tr) r /\ Forall (fun x => the_request x.1.2) (sends tr)).
Proof.
  revert last. induction attempts as [|attempt attempts IH]; intros last; cbn [attempt_loop length].
  { split; [constructor|by apply list.Forall_nil]. }
  unfold answers. eapply sat_bind_use; [apply attempt_timeout_quiet|]. intros tr1 timeout H1. cbn in H1.
  destruct (timeout =? 0). { cbn [sat]. rewrite sends_app, H1. split; [constructor|by apply list.Forall_nil]. }
  eapply sat_bind_use; [apply pick_err|]. intros tr2 [client|e] [H2 He]; cbn in H2.
  2:{ destruct (He e eq_refl) as [m ->]. cbn [sat]. rewrite !sends_app, H1, H2. split; [by constructor; left|by apply list.Forall_nil]. }
  eapply sat_bind_use; [apply signed_sat|]. intros tr3 [req|e] [H3 Hreq]; cbn in H3.
  2:{ destruct Hreq as [m ->]. cbn [sat]. rewrite !sends_app, H1, H2, H3. split; [by constructor; right|by apply list.Forall_nil]. }
  eapply sat_bind_use; [apply attempt_timeout_quiet|]. intros tr4 timeout' H4. cbn in H4.
  eapply sat_bind_use; [apply request_once_sat|]. intros tr5 tried (a & H5 & Ha).
  destruct tried as [r|failure].
  - cbn [sat]. rewrite !sends_app, H1, H2, H3, H4, H5. cbn [app List.map snd sends flat_map].
    split; [|by apply list.Forall_singleton].
    destruct Ha as (status & buf & -> & [[Hs ->]|(Hs & Hr & ->)]); by constructor.
  - eapply sat_bind_use; [instantiate (1 := fun tr _ => sends tr = []); destruct (_ <? _)%nat; [apply backoff_quiet|done]|].
    intros tr6 [] H6. eapply sat_mono; [|apply IH]. intros tr7 r [Ho Hf].
    rewrite !sends_app, H1, H2, H3, H4, H5, H6. cbn [app List.map snd]. split.
    + by eapply out_again.
    + by apply list.Forall_cons.
Qed.

Lemma outcome_bounds n last l r : outcome n last l r ->
  (length l <= n)%nat /\
  (forall before a after, l = before ++ a :: after -> after <> [] -> is_Some (failed a)) /\
  (forall x, r = Ok x -> exists before status buf, l = before ++ [Ok (status, Ok buf)] /\ is_success status = true /\ finish buf = Ok x).
Proof.
  induction 1 as [| |n last status buf Hs|n last status buf Hs Hr|n last a failure l r Ha Ho (IH1 & IH2 & IH3)]; cbn [length].
  - split_and!; [lia|by intros [|] ?|done].
  - split_and!; [lia|by intros [|] ?|done].
  - split_and!; [lia| |].
    + intros [|b before] a after E Hne; [by injection E as <- <-|]. injection E as _ E. by destruct before.
    + intros x Hx. by exists [], status, buf.
  - split_and!; [lia| |done].
    intros [|b before] a after E Hne; [by injection E as <- <-|]. injection E as _ E. by destruct before.
  - split_and!; [lia| |].
    + intros [|b before] a' after E Hne; injection E as -> E; [by eexists|]. by eapply IH2.
    + intros x Hx. destruct (IH3 x Hx) as (before & status & buf & -> & Hs & Hf). by exists (a :: before), status, buf.
Qed.

(** A call is a few requests.  Whatever the instances, the breakers, the clock
    and the network do: a call of the pool sends at most three requests, all of them
    the one it was asked to send; it sends another only after a request that got no
    answer or a server error other than 503, so what an instance answered otherwise
    is final; and it succeeds only with the answer to its last request, which was a
    success. *)
Theorem rpc_requests (tr : list PEvent) (r : result A (RpcCause * StoreError))
  (He : exec (rpc p deadline method path payload finish) tr r) :
  (length (sends tr) <= 3)%nat /\
  Forall (fun x => the_request x.1.2) (sends tr) /\
  (forall before a after, answers tr = before ++ a :: after -> after <> [] -> is_Some (failed a)) /\
  (forall x, r = Ok x -> exists before status buf,
     answers tr = before ++ [Ok (status, Ok buf)] /\ is_success status = true /\ finish buf = Ok x).
Proof.
  destruct (sat_exec _ _ _ _ (attempt_loop_sat (seq 0 RETRIES) request_failed) He) as [Ho Hf].
  apply outcome_bounds in Ho as (H1 & H2 & H3). unfold answers in H1. rewrite length_map, length_seq in H1. done.
Qed.
End outcomes.

(** A network that loses the first request and answers the second. *)
Definition demo_client : RoyalClient := mkRoyalClient 0 "http://royal" "s".
Definition demo_pool : RoyalPool := mkRoyalPool (Some demo_client) "s" false.
Definition demo_answer (X : Type) (e : PoolEff X) (sent : nat) : nat * X :=
  match e in PoolEff X return nat * X with
  | PLoadClients => (sent, [demo_client])
  | PNewClient base hmac => (sent, Ok (mkRoyalClient 1 base hmac))
  | PFindRoyal => (sent, Ok [])
  | PFetchAddRr | PGate _ | PFetchAddFails _ | PUnixMs | PUnixSecs | PNow => (sent, 0)
  | POpened _ => (sent, false)
  | PCasGate _ _ _ => (sent, true)
  | PNonce => (sent, "abcd1234"%string)
  | PSend _ _ _ => (S sent, if Nat.eqb sent 0 then Err "connection refused"%string else Ok (200, Ok [Byte.x01]))
  | PStoreClients _ | PStoreOpened _ _ | PStoreGate _ _ | PStoreFails _ _ | PSleep _ | PObserve _ _ => (sent, tt)
  end.

#[local] Instance demo_tag : HmacSha256 := {| hmac_key := bytes; new_from_slice k := Some k; hmac_tag k m := k ++ m |}.

Lemma rpc_requests_witness :
  let call := rpc demo_pool None POST "/api/v1/inbox" [Byte.x02] (fun buf => Ok buf) in
  let tr := (run demo_answer call 0%nat).1.2 in
  (run demo_answer call 0%nat).2 = Ok [Byte.x01] /\ length (sends tr) = 2%nat /\ (length (sends tr) <= 3)%nat.
Proof.
  cbv zeta. split; [by vm_compute|]. split; [by vm_compute|].
  exact (proj1 (rpc_requests (fun buf => Ok buf) demo_pool None POST "/api/v1/inbox" [Byte.x02] _ _
    (exec_run demo_answer (rpc demo_pool None POST "/api/v1/inbox" [Byte.x02] (fun buf => Ok buf)) 0%nat))).
Defined.

(** ** Who is picked *)

(** [c] was seen with its circuit closed, or the probe of its open circuit was
    granted to this call, not before its time. *)
Definition admitted (c : RoyalClient) (tr : list PEvent) : Prop :=
  Ev (POpened (rc_id c)) false ∈ tr \/
  exists now gate, gate <= now /\ Ev PUnixMs now ∈ tr /\ Ev (PGate (rc_id c)) gate ∈ tr /\
    Ev (PCasGate (rc_id c) gate (sat_u64 (now + HALF_OPEN_MS))) true ∈ tr.

Lemma admitted_app c tr tr' : admitted c tr \/ admitted c tr' -> admitted c (tr ++ tr').
Proof.
  unfold admitted. setoid_rewrite elem_of_app. intros [[H|(now & gate & ? & ? & ? & ?)]|[H|(now & gate & ? & ? & ? & ?)]]; eauto 10.
Qed.
Lemma admitted_cons c ev tr : admitted c tr -> admitted c (ev :: tr).
Proof. intros H. apply (admitted_app c [ev]). by right. Qed.

Lemma try_probe_admits c : sat (try_probe c) (fun tr granted => granted = true -> admitted c tr).
Proof.
  unfold try_probe. apply sat_call. intros [|]; cbn [negb]; [|intros _; left; by left].
  apply sat_call. intros now. apply sat_call. intros gate. destruct (Z.ltb_spec now gate); [done|].
  intros granted ->. right. exists now, gate. split; [done|]. split_and!; set_solver.
Qed.

Lemma probe_first_admits l : sat (probe_first l) (fun tr o => forall c, o = Some c -> admitted c tr /\ c ∈ l).
Proof.
  induction l as [|c l IH]; cbn [probe_first]; [done|]. apply sat_call. intros opened.
  assert (Hrest : forall tr o, (forall c0, o = Some c0 -> admitted c0 tr /\ c0 ∈ l) ->
    forall pre c0, o = Some c0 -> admitted c0 (pre ++ tr) /\ c0 ∈ c :: l).
  { intros tr o Ho pre c0 Hc. apply Ho in Hc as [Ha Hin]. split; [apply admitted_app; by right|by right]. }
  destruct opened.
  - eapply sat_bind_use; [apply try_probe_admits|]. intros tr [|] Hg.
    + intros c0 [= <-]. split; [|by left]. apply admitted_cons, admitted_app. left. by apply Hg.
    + eapply sat_mono; [|exact IH]. intros tr' o Ho. exact (Hrest tr' o Ho (_ :: tr)).
  - eapply sat_mono; [|exact IH]. intros tr' o Ho. exact (Hrest tr' o Ho [_]).
Qed.

Lemma closed_clients_admits l : sat (closed_clients l) (fun tr healthy => forall c, c ∈ healthy -> admitted c tr /\ c ∈ l).
Proof.
  induction l as [|c l IH]; cbn [closed_clients]; [intros c ?%not_elem_of_nil; done|]. apply sat_call. intros opened.
  eapply sat_bind_use; [exact IH|]. intros tr rest Hr. intros c0 Hc. rewrite app_nil_r.
  assert (Hrest : c0 ∈ rest -> admitted c0 (Ev (POpened (rc_id c)) opened :: tr) /\ c0 ∈ c :: l).
  { intros [Ha Hl]%Hr. split; [by apply admitted_cons|by right]. }
  destruct opened; [by apply Hrest|]. apply elem_of_cons in Hc as [->|Hc]; [|by apply Hrest].
  split; [left; by left|by left].
Qed.

(** An open circuit keeps requests away.  The instance a call picks is one of
    the pool, or the bootstrap instance, and its circuit was seen closed by this
    very call, or was due for a probe that no other call had taken: the swap of the
    gate this call had read succeeded. *)
Theorem pick_admitted (p : RoyalPool) (tr : list PEvent) (c : RoyalClient) (He : exec (pick p) tr (Ok c)) :
  admitted c tr /\ (rp_bootstrap p = Some c \/ exists clients, Ev PLoadClients clients ∈ tr /\ c ∈ clients).
Proof.
  enough (Hs : sat (pick p) (fun tr r => r = Ok c ->
    admitted c tr /\ (rp_bootstrap p = Some c \/ exists clients, Ev PLoadClients clients ∈ tr /\ c ∈ clients)))
    by exact (sat_exec _ _ _ _ Hs He eq_refl).
  unfold pick. apply sat_call. intros clients.
  assert (Hin : forall tr' : list PEvent, Ev PLoadClients clients ∈ Ev PLoadClients clients :: tr') by (intros; by left).
  eapply sat_bind_use; [apply probe_first_admits|]. intros tr1 [c1|] H1.
  { intros [= ->]. destruct (H1 _ eq_refl) as [Ha Hc]. split; [by apply admitted_cons, admitted_app; left|eauto]. }
  eapply sat_bind_use; [apply closed_clients_admits|]. intros tr2 [|c2 healthy] H2.
  - destruct (rp_bootstrap p) as [boot|]; [|done]. apply sat_call. intros [|]; cbn [negb].
    + eapply sat_bind_use; [apply try_probe_admits|]. intros tr3 [|] H3; [|done]. intros [= ->]. split; [|by left].
      apply admitted_cons, admitted_app. right. apply admitted_app. right. apply admitted_cons, admitted_app. left. by apply H3.
    + intros [= ->]. split; [|by left]. apply admitted_cons, admitted_app. right. apply admitted_app. right. left. by left.
  - apply sat_call. intros rr. destruct (_ !! _) as [c3|] eqn:E3; [|done]. intros [= ->].
    apply list_elem_of_lookup_2 in E3. apply H2 in E3 as [Ha Hc]. split; [|eauto].
    apply admitted_cons, admitted_app. right. by apply admitted_app; left.
Qed.

Lemma pick_admitted_witness : admitted demo_client (run demo_answer (pick demo_pool) 0%nat).1.2.
Proof. exact (proj1 (pick_admitted demo_pool _ demo_client (exec_run demo_answer (pick demo_pool) 0%nat))). Defined.
