(* ===== verification/RoyalBreaker.v ===== *)
(** The circuit breaker of an instance under sequential and concurrent use:
    services/chat/src/royal.rs, on the programs of RoyalPool.v.

    [Circuit] holds the three atomics.  [circuit_counts] runs reports one after the
    other; [breaker_reach] interleaves any number of calls, with the probes the
    breaker grants recorded in [bk_grants]. *)

From S2P Require Import Prelude Prog Tasks Wire Pkt Store Container Hmac RoyalPool.
Open Scope Z_scope.
Open Scope kim_scope.

Record Circuit := mkCircuit { cc_fails : Z; cc_opened : bool; cc_gate : Z }.
Definition Circuit_new : Circuit := mkCircuit 0 false 0.

(** ** One report after the other *)

(** [fetch_add] on a [u32] wraps. *)
Definition circuit_call (now : Z) (X : Type) (e : PoolEff X) (s : Circuit) : Circuit * X :=
  match e in PoolEff X return Circuit * X with
  | POpened _ => (s, cc_opened s)
  | PStoreOpened _ b => (mkCircuit (cc_fails s) b (cc_gate s), tt)
  | PGate _ => (s, cc_gate s)
  | PStoreGate _ g => (mkCircuit (cc_fails s) (cc_opened s) g, tt)
  | PCasGate _ old new => if cc_gate s =? old then (mkCircuit (cc_fails s) (cc_opened s) new, true) else (s, false)
  | PFetchAddFails _ => (mkCircuit (wrap32 (cc_fails s + 1)) (cc_opened s) (cc_gate s), cc_fails s)
  | PStoreFails _ n => (mkCircuit n (cc_opened s) (cc_gate s), tt)
  | PUnixMs => (s, now)
  | e => (s, (demo_answer _ e 0%nat).2)
  end.

(** A report: the clock when it is made, and whether the request succeeded. *)
Definition report (c : RoyalClient) (s : Circuit) (r : Z * bool) : Circuit :=
  (run (circuit_call r.1) (if r.2 : bool then report_success c else report_failure c) s).1.1.
Definition reported (c : RoyalClient) (reports : list (Z * bool)) : Circuit := fold_left (report c) reports Circuit_new.

(** The failures since the last success. *)
Definition failures_since (reports : list (Z * bool)) : Z :=
  fold_left (fun n (r : Z * bool) => if r.2 then 0 else n + 1) reports 0.

Definition counts (n : Z) (s : Circuit) : Prop :=
  0 <= n /\ cc_fails s = wrap32 n /\ cc_opened s = (CIRCUIT_FAILS <=? n).

Lemma report_counts c n s r : counts n s -> counts (if r.2 : bool then 0 else n + 1) (report c s r) /\
  (r.2 = false -> CIRCUIT_FAILS <= n + 1 < 2 ^ 32 -> cc_gate (report c s r) = sat_u64 (r.1 + HALF_OPEN_MS)).
Proof.
  intros (Hn & Hf & Ho). destruct r as [now [|]]; [done|]. unfold report. cbn [fst snd].
  assert (Hw : forall m, wrap32 (wrap32 m + 1) = wrap32 (m + 1)).
  { intros m. unfold wrap32. by rewrite Zplus_mod_idemp_l. }
  assert (Hsmall : n + 1 < 2 ^ 32 -> wrap32 n = n) by (intros; unfold wrap32; apply Z.mod_small; lia).
  assert (Hb : 0 <= wrap32 n < 2 ^ 32) by (apply Z.mod_pos_bound; lia).
  unfold report_failure. cbn [run mbind Prog_bind call circuit_call].
  destruct (CIRCUIT_FAILS <=? Z.min u32_max (cc_fails s + 1)) eqn:E; cbn [run mbind Prog_bind call circuit_call];
    unfold counts; unfold CIRCUIT_FAILS, u32_max in *; cbn [cc_fails cc_opened cc_gate fst snd]; rewrite Hf in *;
    change (2 ^ 32) with 4294967296 in *.
  - split; [|done]. split_and!; [lia|apply Hw|]. symmetry. apply Z.leb_le. apply Z.leb_le in E.
    destruct (Z.leb_spec 5 n); [lia|]. rewrite Hsmall in E by lia. lia.
  - apply Z.leb_gt in E. split; [|intros _ H; rewrite Hsmall in E by lia; lia]. split_and!; [lia|apply Hw|]. rewrite Ho.
    destruct (Z.leb_spec 5 n), (Z.leb_spec 5 (n + 1)); try lia; try done.
Qed.

(** The circuit counts.  After any reports, made one after the other, the
    circuit of an instance is open exactly when its last five or more requests
    failed, even once the failure counter has wrapped around; and the report of the
    fifth failure, and of those after it, puts the next probe half a minute off. *)
Theorem circuit_counts (c : RoyalClient) (reports : list (Z * bool)) :
  cc_opened (reported c reports) = (CIRCUIT_FAILS <=? failures_since reports) /\
  forall now, CIRCUIT_FAILS <= failures_since (reports ++ [(now, false)]) < 2 ^ 32 ->
    cc_gate (reported c (reports ++ [(now, false)])) = sat_u64 (now + HALF_OPEN_MS).
Proof.
  assert (Hc : counts (failures_since reports) (reported c reports)).
  { unfold failures_since, reported.
    assert (Hgen : forall n s, counts n s ->
      counts (fold_left (fun n (r : Z * bool) => if r.2 then 0 else n + 1) reports n) (fold_left (report c) reports s)).
    { induction reports as [|r reports IH]; intros n s Hn; [done|]. cbn [fold_left]. apply IH. by apply report_counts. }
    apply Hgen. unfold counts. by vm_compute. }
  split; [apply Hc|]. intros now. unfold reported, failures_since. rewrite !fold_left_app. cbn [fold_left snd].
  intros Hb. by apply (report_counts c _ _ (now, false) Hc).
Qed.

(** ** Calls that share the breakers *)

(** [bk_grants c]: when the probes of [c] were granted, latest first, since the last
    time a failure report moved the gate. *)
Record Breakers := mkBreakers { bk_circuit : nat -> Circuit; bk_grants : nat -> list Z }.

Definition set_at {T} (f : nat -> T) (c : nat) (v : T) : nat -> T := fun d => if Nat.eqb d c then v else f d.

Definition breaker_act (X : Type) (e : PoolEff X) (s : Breakers) (x : X) (s' : Breakers) : Prop :=
  match e in PoolEff X return X -> Prop with
  | POpened c => fun x => x = cc_opened (bk_circuit s c) /\ s' = s
  | PGate c => fun x => x = cc_gate (bk_circuit s c) /\ s' = s
  | PUnixMs => fun x => 0 <= x <= u64_max - HALF_OPEN_MS /\ s' = s
  | PStoreOpened c b => fun _ =>
    s' = mkBreakers (set_at (bk_circuit s) c (circuit_call 0 _ (PStoreOpened c b) (bk_circuit s c)).1) (bk_grants s)
  | PStoreFails c n => fun _ =>
    s' = mkBreakers (set_at (bk_circuit s) c (circuit_call 0 _ (PStoreFails c n) (bk_circuit s c)).1) (bk_grants s)
  | PFetchAddFails c => fun x => x = cc_fails (bk_circuit s c) /\
    s' = mkBreakers (set_at (bk_circuit s) c (circuit_call 0 _ (PFetchAddFails c) (bk_circuit s c)).1) (bk_grants s)
  | PStoreGate c g => fun _ =>
    s' = mkBreakers (set_at (bk_circuit s) c (circuit_call 0 _ (PStoreGate c g) (bk_circuit s c)).1)
           (set_at (bk_grants s) c [])
  | PCasGate c old new => fun x =>
    let r := circuit_call 0 _ (PCasGate c old new) (bk_circuit s c) in
    x = r.2 /\
    s' = mkBreakers (set_at (bk_circuit s) c r.1)
           (if r.2 then set_at (bk_grants s) c ((new - HALF_OPEN_MS) :: bk_grants s c) else bk_grants s)
  | _ => fun _ => s' = s
  end x.

(** The tasks: calls through any pool, and refreshes of it. *)
Inductive breaker_spawns `{HmacSha256} (s : Breakers) : task PoolEff -> Prop :=
| spawn_rpc {A} p deadline method path payload (finish : bytes -> result A (RpcCause * StoreError)) :
    breaker_spawns s (Task (rpc p deadline method path payload finish))
| spawn_refresh p : breaker_spawns s (Task (refresh_once p)).

Definition breaker_reach `{HmacSha256} (s0 : Breakers) := pool_reach breaker_act breaker_spawns s0.

Definition clock_answer (X : Type) (e : PoolEff X) (x : X) : Prop :=
  match e in PoolEff X return X -> Prop with PUnixMs => fun x => 0 <= x <= u64_max - HALF_OPEN_MS | _ => fun _ => True end x.
Definition swaps_ahead (X : Type) (e : PoolEff X) : Prop :=
  match e with PCasGate _ old new => old + HALF_OPEN_MS <= new | _ => True end.

Abbreviation ahead p := (guar clock_answer swaps_ahead (fun _ => True) p).

Lemma ahead_bind {A B} (p : PProc A) (f : A -> PProc B) : ahead p -> (forall a, ahead (f a)) -> ahead (p ≫= f).
Proof. intros Hp Hf. apply (guar_bind_use clock_answer swaps_ahead (fun _ => True)); auto. Qed.

Ltac ahead_walk :=
  repeat match goal with
  | |- guar _ _ _ (Ret _) => exact I
  | |- guar _ _ _ (call _) => by split
  | |- guar _ _ _ (mbind _ _) => apply ahead_bind; [|intros ?]
  | |- guar _ _ _ (match ?x with _ => _ end) => destruct x
  | |- guar _ _ _ (if ?b then _ else _) => destruct b
  end.

Lemma try_probe_ahead c : ahead (try_probe c).
Proof.
  unfold try_probe. apply ahead_bind; [ahead_walk|]. intros opened. destruct (negb opened); [exact I|].
  split; [exact I|]. intros now Hnow. split; [exact I|]. intros gate _. cbn in Hnow. cbn [Prog_bind mbind].
  destruct (Z.ltb_spec now gate); [exact I|]. split; [|done]. cbn. unfold sat_u64, HALF_OPEN_MS, u64_max in *. lia.
Qed.
Lemma report_success_ahead c : ahead (report_success c).
Proof. unfold report_success. ahead_walk. Qed.
Lemma report_failure_ahead c : ahead (report_failure c).
Proof. unfold report_failure. cbv zeta. ahead_walk. Qed.
Lemma is_open_ahead c : ahead (is_open c).
Proof. by split. Qed.
Lemma probe_first_ahead l : ahead (probe_first l).
Proof. induction l as [|c l IH]; cbn [probe_first]; ahead_walk; auto using try_probe_ahead, is_open_ahead. Qed.
Lemma closed_clients_ahead l : ahead (closed_clients l).
Proof. induction l as [|c l IH]; cbn [closed_clients]; ahead_walk; auto using is_open_ahead. Qed.
Lemma pick_ahead p : ahead (pick p).
Proof.
  unfold pick. ahead_walk; auto using try_probe_ahead, probe_first_ahead, closed_clients_ahead, is_open_ahead.
Qed.
Lemma attempt_timeout_ahead d : ahead (attempt_timeout d).
Proof. unfold attempt_timeout. ahead_walk. Qed.
Lemma backoff_ahead d n : ahead (backoff d n).
Proof. unfold backoff. cbv zeta. ahead_walk. Qed.
Lemma merge_clients_ahead p current bases next : ahead (merge_clients p current bases next).
Proof. revert next. induction bases as [|b bases IH]; intros next; cbn [merge_clients]; ahead_walk; auto. Qed.
Lemma refresh_once_ahead p : ahead (refresh_once p).
Proof. unfold refresh_once, replace_with. ahead_walk; auto using merge_clients_ahead. Qed.

Section calls.
Context `{HmacSha256}.

Lemma signed_ahead c m path payload : ahead (signed c m path payload).
Proof. unfold signed. ahead_walk. Qed.
Lemma rpc_ahead {A} p d m path payload (finish : bytes -> result A (RpcCause * StoreError)) : ahead (rpc p d m path payload finish).
Proof.
  unfold rpc. generalize request_failed. induction (seq 0 RETRIES) as [|n l IH]; intros last; cbn [attempt_loop]; [exact I|].
  unfold request_once.
  ahead_walk; auto using attempt_timeout_ahead, pick_ahead, signed_ahead, report_success_ahead, report_failure_ahead, backoff_ahead.
Qed.

(** Grants are spaced, and the gate is past the last of them. *)
Definition spaced (s : Breakers) : Prop :=
  forall c,
    StronglySorted (fun later earlier => earlier + HALF_OPEN_MS <= later) (bk_grants s c) /\
    forall g, head (bk_grants s c) = Some g -> cc_gate (bk_circuit s c) = g + HALF_OPEN_MS.

Lemma spaced_same_gates s circuits : spaced s ->
  (forall c, cc_gate (circuits c) = cc_gate (bk_circuit s c)) -> spaced (mkBreakers circuits (bk_grants s)).
Proof. intros Hs Hg c. destruct (Hs c) as [H1 H2]. split; [done|]. intros g Hh. cbn. rewrite Hg. by apply H2. Qed.

Lemma set_at_gate (f : nat -> Circuit) c v : cc_gate v = cc_gate (f c) -> forall d, cc_gate (set_at f c v d) = cc_gate (f d).
Proof. intros Hv d. unfold set_at. by destruct (Nat.eqb_spec d c) as [->|]. Qed.

Lemma spaced_swap s c old new : spaced s -> old + HALF_OPEN_MS <= new -> cc_gate (bk_circuit s c) = old ->
  spaced (mkBreakers (set_at (bk_circuit s) c (mkCircuit (cc_fails (bk_circuit s c)) (cc_opened (bk_circuit s c)) new))
    (set_at (bk_grants s) c ((new - HALF_OPEN_MS) :: bk_grants s c))).
Proof.
  intros Hs Hn Hold d. cbn [bk_grants bk_circuit]. unfold set_at.
  destruct (Nat.eqb_spec d c) as [->|]; [|apply Hs]. destruct (Hs c) as [H1 H2]. split; [|intros g [= <-]; cbn; lia].
  constructor; [done|]. destruct (bk_grants s c) as [|g rest] eqn:E; [by apply list.Forall_nil|].
  specialize (H2 g eq_refl). apply StronglySorted_inv in H1 as [_ H1]. apply list.Forall_cons. split; [lia|].
  eapply list.Forall_impl; [exact H1|]. cbn. intros a Ha. unfold HALF_OPEN_MS in *. lia.
Qed.

Lemma breaker_keeps X (e : PoolEff X) s x s' : spaced s -> swaps_ahead X e -> breaker_act X e s x s' ->
  spaced s' /\ clock_answer X e x.
Proof.
  intros Hs Hg Ha. destruct e; cbn in Ha; try (by subst).
  - destruct Ha as [_ ->]. done.
  - subst. split; [|done]. by apply spaced_same_gates, set_at_gate.
  - destruct Ha as [_ ->]. done.
  - subst. split; [|done]. intros d. cbn [bk_grants bk_circuit]. unfold set_at.
    destruct (Nat.eqb_spec d c); [by split; [constructor|]|apply Hs].
  - destruct Ha as [-> ->]. split; [|done]. cbn in Hg. destruct (cc_gate (bk_circuit s c) =? old) eqn:E; cbn [fst snd].
    + apply Z.eqb_eq in E. by apply (spaced_swap s c old new).
    + by apply spaced_same_gates, set_at_gate.
  - destruct Ha as [_ ->]. split; [|done]. by apply spaced_same_gates, set_at_gate.
  - subst. split; [|done]. by apply spaced_same_gates, set_at_gate.
  - destruct Ha as [Hx ->]. by split.
Qed.

(** Probes are rare.  However many calls run against an instance at once, in
    whatever interleaving of their loads, stores and swaps, and through whatever
    pools: two probes of its open circuit are never granted within half a minute of
    each other, unless a failure report moved the gate in between.  The swap lets
    one of the calls through that found the same gate. *)
Theorem probes_spaced (circuits : nat -> Circuit) (c : list (task PoolEff) * Breakers) (client : nat)
  (Hr : breaker_reach (mkBreakers circuits (fun _ => [])) c) :
  StronglySorted (fun later earlier => earlier + HALF_OPEN_MS <= later) (bk_grants c.2 client).
Proof.
  assert (Hi : spaced c.2); [|by apply Hi].
  apply (pool_invariant breaker_act breaker_spawns clock_answer swaps_ahead spaced breaker_keeps) with
    (s0 := mkBreakers circuits (fun _ => [])); [|by intros d; split; [constructor|]|done].
  intros s t _ Ht. destruct Ht; cbn [promises]; [apply rpc_ahead|apply refresh_once_ahead].
Qed.
End calls.

(** Calls that run alone against an open circuit, half a minute apart. *)
Definition demo_breaker (X : Type) (e : PoolEff X) (s : Breakers) : Breakers * X :=
  match e in PoolEff X return Breakers * X with
  | POpened c => (s, cc_opened (bk_circuit s c))
  | PGate c => (s, cc_gate (bk_circuit s c))
  | PUnixMs => (s, (30000 * (1 + len (bk_grants s 0%nat))) mod 2 ^ 40)
  | PStoreOpened c b =>
    (mkBreakers (set_at (bk_circuit s) c (circuit_call 0 _ (PStoreOpened c b) (bk_circuit s c)).1) (bk_grants s), tt)
  | PStoreFails c n =>
    (mkBreakers (set_at (bk_circuit s) c (circuit_call 0 _ (PStoreFails c n) (bk_circuit s c)).1) (bk_grants s), tt)
  | PFetchAddFails c =>
    (mkBreakers (set_at (bk_circuit s) c (circuit_call 0 _ (PFetchAddFails c) (bk_circuit s c)).1) (bk_grants s),
     cc_fails (bk_circuit s c))
  | PStoreGate c g =>
    (mkBreakers (set_at (bk_circuit s) c (circuit_call 0 _ (PStoreGate c g) (bk_circuit s c)).1) (set_at (bk_grants s) c []), tt)
  | PCasGate c old new =>
    let r := circuit_call 0 _ (PCasGate c old new) (bk_circuit s c) in
    (mkBreakers (set_at (bk_circuit s) c r.1)
       (if r.2 then set_at (bk_grants s) c ((new - HALF_OPEN_MS) :: bk_grants s c) else bk_grants s), r.2)
  | e => (s, (demo_answer _ e 0%nat).2)
  end.

Lemma demo_breaker_act X (e : PoolEff X) s : breaker_act X e s (demo_breaker X e s).2 (demo_breaker X e s).1.
Proof.
  destruct e; try done. cbn [demo_breaker fst snd breaker_act]. split; [|done].
  pose proof (Z.mod_pos_bound (30000 * (1 + len (bk_grants s 0%nat))) (2 ^ 40) ltac:(lia)).
  change (2 ^ 40) with 1099511627776 in *. unfold u64_max, HALF_OPEN_MS. lia.
Qed.

#[local] Instance demo_tag : HmacSha256 := {| hmac_key := bytes; new_from_slice k := Some k; hmac_tag k m := k ++ m |}.

Definition demo_call : PProc (result bytes (RpcCause * StoreError)) := rpc demo_pool None POST "/x" [] (fun buf => Ok buf).
Definition demo_open : Breakers := mkBreakers (fun _ => mkCircuit 5 true 0) (fun _ => []).

Lemma probes_spaced_witness :
  let s := (run demo_breaker demo_call (run demo_breaker demo_call demo_open).1.1).1.1 in
  StronglySorted (fun later earlier => earlier + HALF_OPEN_MS <= later) (bk_grants s 0%nat).
Proof.
  cbv zeta.
  apply (probes_spaced (fun _ => mkCircuit 5 true 0)
    ([Task (Ret (run demo_breaker demo_call demo_open).2);
      Task (Ret (run demo_breaker demo_call (run demo_breaker demo_call demo_open).1.1).2)],
     (run demo_breaker demo_call (run demo_breaker demo_call demo_open).1.1).1.1) 0).
  unfold breaker_reach, pool_reach. etransitivity.
  - exact (pool_run_spawn demo_breaker breaker_act breaker_spawns demo_breaker_act demo_call [] demo_open (spawn_rpc _ _ _ _ _ _ _)).
  - exact (pool_run_spawn demo_breaker breaker_act breaker_spawns demo_breaker_act demo_call
      [Task (Ret (run demo_breaker demo_call demo_open).2)] (run demo_breaker demo_call demo_open).1.1 (spawn_rpc _ _ _ _ _ _ _)).
Defined.

(** Two probes in a row, half a minute apart. *)
Example demo_probes : bk_grants (run demo_breaker (try_probe demo_client) (run demo_breaker (try_probe demo_client) demo_open).1.1).1.1 0%nat
  = [60000; 30000].
Proof. by vm_compute. Qed.
