(* ===== verification/RoyalServer.v ===== *)
(** The royal service: the HTTP handlers of services/royal/src/lib.rs, product.rs,
    bot.rs and agent_spec.rs, and the middleware that checks signatures.

    A handler takes the body of a request and returns the body of the answer, or a
    status and a text.  It is a program over [SrvEff]: the calls [Eff] of the stores
    and directories, which chat makes too when it runs without royal, and those only
    royal makes.  [route] is the router. *)

From S2P Require Import Prelude Prog Wire Pkt Msgs RoyalMsgs Location SessionStore Store Social Groups Users Interest AgentStore.
From S2P Require Import Effects InboxCmds BotCmds Container Hmac RoyalPool.
Open Scope Z_scope.
Open Scope kim_scope.

(** ** Calls *)

(** device.rs *)
Record DeviceRecord := mkDeviceRecord {
  dr_device_id : string;
  dr_account : string;
  dr_secret_hash : string;
  dr_revoked : bool
}.

Inductive SrvEff : Type -> Type :=
| SCall {X} (e : Eff X) : SrvEff X
| SBotConfig (app owner account : string) : SrvEff (result BotConfig UserError)
| SClaimNonce (nonce : string) : SrvEff (result bool string)
| SNow : SrvEff Z
| SUuid : SrvEff string
| SIsRevoked (jti : string) : SrvEff (result bool string)
| SRevoke (jti : string) (ttl_secs : Z) : SrvEff (result unit string)
| SGetEpoch (account : string) : SrvEff (result Z string)
| SSetEpoch (account : string) (ver ttl_secs : Z) : SrvEff (result unit string)
| STokenEpoch (app account : string) : SrvEff (result Z UserError)
| SCreateUser (app account hash : string) : SrvEff (result unit UserError)
| SPasswordHash (app account : string) : SrvEff (result (option string) UserError)
| SSetPasswordBump (app account hash : string) : SrvEff (result Z UserError)
| SDeviceLookup (app account hash : string) : SrvEff (result (option DeviceRecord) string)
| SDeviceGet (device_id : string) : SrvEff (result (option DeviceRecord) string)
| SDeviceEnroll (app account device_id hash : string) : SrvEff (result unit string)
| SHotPut (device_id account : string) : SrvEff (result unit string)
| SHotDrop (device_id : string) : SrvEff (result unit string)
| SHotOk (device_id account : string) : SrvEff (result bool string)
| SHashPassword (password : string) : SrvEff (result string string)
| SVerifyPassword (password hash : string) : SrvEff (result bool string)
| SKick (account app : string) : SrvEff unit.

Abbreviation SProc := (Prog SrvEff).
(** A status that is no success, and the text of its body. *)
Abbreviation HttpErr := (Z * string)%type.
Abbreviation Handler := (bytes -> SProc (result bytes HttpErr)).

(** The [?] operator after an [await]. *)
Definition and_then {E : Type -> Type} {A B X} (p : Prog E (result A X)) (k : A -> Prog E (result B X)) : Prog E (result B X) :=
  p ≫= fun r => match r with Ok a => k a | Err e => Ret (Err e) end.
Notation "'let*' x := p 'in' k" := (and_then p (fun x => k))
  (at level 10, x pattern, p at level 100, k at level 200) : kim_scope.

Definition map_err {A E F} (f : E -> F) (r : result A E) : result A F :=
  match r with Ok a => Ok a | Err e => Err (f e) end.
(** A call of a store or directory, its error mapped. *)
Definition asked {A E} (e : Eff (result A E)) (f : E -> HttpErr) : SProc (result A HttpErr) :=
  r ← call (SCall e); Ret (map_err f r).

Record RoyalState := mkRoyalState {
  rs_app : string;
  rs_pending_receipt : bool;
  rs_hmac_secret : string
}.

(** ** Errors *)

Definition BAD_REQUEST : Z := 400.
Definition UNAUTHORIZED : Z := 401.
Definition FORBIDDEN : Z := 403.
Definition NOT_FOUND : Z := 404.
Definition CONFLICT : Z := 409.
Definition PAYLOAD_TOO_LARGE : Z := 413.
Definition INTERNAL_SERVER_ERROR : Z := 500.
Definition SERVICE_UNAVAILABLE : Z := 503.

Definition backend (text : string) : HttpErr := (INTERNAL_SERVER_ERROR, text).

Definition GroupError_text (e : GroupError) : string :=
  match e with
  | GroupId e => "idgen: " ++ IdError_text e
  | GroupNotFound => "group not found"
  | GroupBackend m => m
  end%string.
Definition group_http (err : GroupError) : HttpErr :=
  match err with
  | GroupNotFound => (NOT_FOUND, GroupError_text err)
  | GroupId _ | GroupBackend _ => backend (GroupError_text err)
  end.

Definition social_http (err : SocialError) : HttpErr :=
  match err with
  | SelfOp => (BAD_REQUEST, "self"%string)
  | SocialBlocked => (FORBIDDEN, "blocked"%string)
  | SocialBotDenied => (FORBIDDEN, "bot-social-denied"%string)
  | SocialNotFound => (NOT_FOUND, "not found"%string)
  | SocialBackend e => backend e
  end.

Definition user_http (err : UserError) : HttpErr :=
  match err with
  | UserMissing => (NOT_FOUND, "not found"%string)
  | InvalidProfile => (BAD_REQUEST, "invalid profile"%string)
  | Limit => (BAD_REQUEST, "limit"%string)
  | NotOwner => (FORBIDDEN, "not bot owner"%string)
  | UserConflict => (CONFLICT, "conflict"%string)
  | UserBackend e => backend e
  end.

(** [StatusCode::from_u16]. *)
Definition status_from_u16 (status : Z) : option Z := if (100 <=? status) && (status <? 1000) then Some status else None.
Definition store_http (err : StoreError) : HttpErr :=
  match err with
  | Invalid msg => (BAD_REQUEST, msg)
  | StoreNotFound => (NOT_FOUND, "not found"%string)
  | Http status msg => (default INTERNAL_SERVER_ERROR (status_from_u16 status), msg)
  | other => backend (StoreError_text other)
  end.

Definition spec_http (err : AgentSpecError) : HttpErr :=
  match err with
  | SpecInvalid => (BAD_REQUEST, "invalid"%string)
  | SpecNotOwner => (FORBIDDEN, "not bot owner"%string)
  | SpecBackend e => backend e
  end.

Definition store_backend (e : StoreError) : HttpErr := backend (StoreError_text e).

(** ** lib.rs: helpers *)

Definition GROUP_SUMMARIES_CAP : Z := 256.
Definition PENDING_NOT_ENABLED : string := "pending-not-enabled".
Definition pending_disabled : HttpErr := (SERVICE_UNAVAILABLE, PENDING_NOT_ENABLED).

Definition require_app (app : string) : result unit HttpErr :=
  if str_is_empty app then Err (BAD_REQUEST, "empty app"%string) else Ok tt.
Definition resolve_req_app (st : RoyalState) (req_app : string) : result string HttpErr :=
  if str_is_empty req_app || bool_decide (req_app = rs_app st) then Ok (rs_app st)
  else Err (BAD_REQUEST, "app mismatch"%string).

Definition is_new_ack (req : AckMessageReq) : bool :=
  negb (str_is_empty (ack_message_req_target_id req)) || negb (bool_decide (ack_message_req_message_ids req = []))
  || negb (str_is_empty (ack_message_req_app req)).
Definition is_new_index (req : OfflineIndexReq) : bool :=
  negb (str_is_empty (offline_index_req_target_id req)) || offline_index_req_resume req
  || negb (str_is_empty (offline_index_req_app req)).

Definition MessageReq_default : MessageReq := mkMessageReq 0 "" "" "".
Definition insert_from_req (req : InsertMessageReq) : InsertMessage :=
  let msg := default MessageReq_default (insert_message_req_message req) in
  mkInsertMessage (insert_message_req_sender req) (insert_message_req_dest req) (insert_message_req_send_time req)
    (mr_type msg) (mr_body msg) (mr_extra msg)
    (if str_is_empty (insert_message_req_client_id req) then mr_client_id msg else insert_message_req_client_id req)
    (List.map (fun t => mkDeliveryTarget (pb_delivery_target_account t) (pb_delivery_target_target_id t))
       (insert_message_req_online_targets req)).

Definition kind_number (kind : MessageKind) : Z := match kind with User => 0 | Group => 1 end.

Definition encode_insert (inserted : InsertResult) : InsertMessageResp :=
  let f := ir_fanout inserted in
  mkInsertMessageResp (ir_message_id inserted) (ir_send_time inserted) (ir_duplicate inserted)
    (Some (mkInsertFanout (fo_msg_type f) (fo_body f) (fo_extra f) (fo_sender f) (fo_dest f) (kind_number (fo_kind f))
             (fo_recipients f))).

Section handlers.
Context `{Prost, RoyalProst, DecodeText} (st : RoyalState).

Definition decode {T} `{Message T} (body : bytes) : result T HttpErr :=
  match decode_msg body with Some m => Ok m | None => Err (BAD_REQUEST, decode_text body) end.
(** The body of a request, or the refusal of it. *)
Definition with_req {T} `{Message T} (body : bytes) (k : T -> SProc (result bytes HttpErr)) : SProc (result bytes HttpErr) :=
  match decode body with Ok req => k req | Err e => Ret (Err e) end.
Definition encoded {T} `{Message T} (m : T) : SProc (result bytes HttpErr) := Ret (Ok (encode_to_vec m)).
Definition refuse (e : HttpErr) : SProc (result bytes HttpErr) := Ret (Err e).
Definition done_empty : SProc (result bytes HttpErr) := Ret (Ok []).

(** ** lib.rs: messages *)

Definition insert_user : Handler := fun body => with_req body (fun req : InsertMessageReq =>
  let* inserted := asked (EInsertUser (rs_app st) (insert_from_req req)) store_backend in
  encoded (encode_insert inserted)).

Definition insert_group : Handler := fun body => with_req body (fun req : InsertMessageReq =>
  let* members :=
    (if bool_decide (insert_message_req_members req = [])
     then asked (EMembers (rs_app st) (insert_message_req_dest req)) (fun e => backend (GroupError_text e))
     else Ret (Ok (insert_message_req_members req))) in
  let* inserted := asked (EInsertGroup (rs_app st) (insert_from_req req) members) store_backend in
  encoded (encode_insert inserted)).

Definition ack : Handler := fun body => with_req body (fun req : AckMessageReq =>
  if is_new_ack req then
    if negb (rs_pending_receipt st) then refuse pending_disabled
    else match resolve_req_app st (ack_message_req_app req) with
    | Err e => refuse e
    | Ok app =>
      let ids := collect_ack_ids (ack_message_req_message_id req) (ack_message_req_message_ids req) in
      let* _ := asked (EAck app (ack_message_req_account req) (ack_message_req_target_id req) ids) store_backend in
      done_empty
    end
  else
    let ids := collect_ack_ids (ack_message_req_message_id req) [] in
    let* _ := asked (EAck (rs_app st) (ack_message_req_account req) "" ids) store_backend in
    done_empty).

Definition row_to_pb (r : MessageIndexRow) : MessageIndex :=
  mkMessageIndex (mx_message_id r) (mx_direction r) (mx_send_time r) (mx_account_b r) (mx_group r).
Definition offline_index : Handler := fun body => with_req body (fun req : OfflineIndexReq =>
  let* answer :=
    (if is_new_index req then
       if negb (rs_pending_receipt st) then Ret (Err pending_disabled)
       else match resolve_req_app st (offline_index_req_app req) with
       | Err e => Ret (Err e)
       | Ok app =>
         asked (EOfflineIndex app (offline_index_req_account req) (offline_index_req_target_id req)
                  (offline_index_req_message_id req) (offline_index_req_resume req)) store_backend
       end
     else asked (EOfflineIndex (rs_app st) (offline_index_req_account req) "" (offline_index_req_message_id req) false)
            store_backend) in
  encoded (mkMessageIndexResp (List.map row_to_pb answer.1) answer.2)).

Definition delivery_backfill : Handler := fun body =>
  if negb (rs_pending_receipt st) then refuse pending_disabled
  else with_req body (fun req : DeliveryBackfillReq =>
    match resolve_req_app st (delivery_backfill_req_app req) with
    | Err e => refuse e
    | Ok app =>
      let* _ := asked (EBackfill app (delivery_backfill_req_account req) (delivery_backfill_req_target_id req)) store_backend in
      done_empty
    end).

Definition content_to_pb (r : MessageContentRow) : PktMessage :=
  mkPktMessage (mc_message_id r) (mc_msg_type r) (mc_body r) (mc_extra r).
Definition offline_content : Handler := fun body => with_req body (fun req : MessageContentReq =>
  if str_is_empty (creq_app req) || str_is_empty (creq_account req)
  then refuse (BAD_REQUEST, "empty app or account"%string)
  else
    let* rows := asked (EOfflineContent (creq_app req) (creq_account req) (creq_message_ids req)) store_backend in
    encoded (mkMessageContentResp (List.map content_to_pb rows))).

(** ** lib.rs: groups *)

Definition group_create : Handler := fun body => with_req body (fun req : InternalGroupCreate =>
  match require_app (internal_group_create_app req) with
  | Err e => refuse e
  | Ok _ =>
    let* group_id := asked (EGroupCreate (internal_group_create_app req)
      (mkCreateGroup (internal_group_create_name req) (internal_group_create_avatar req)
         (internal_group_create_introduction req) (internal_group_create_owner req) (internal_group_create_members req))) group_http in
    encoded (mkGroupCreateResp group_id)
  end).

Definition group_join : Handler := fun body => with_req body (fun req : InternalGroupMember =>
  match require_app (internal_group_member_app req) with
  | Err e => refuse e
  | Ok _ =>
    let* _ := asked (EGroupJoin (internal_group_member_app req) (internal_group_member_group_id req)
                       (internal_group_member_account req)) group_http in
    done_empty
  end).

Definition group_quit : Handler := fun body => with_req body (fun req : InternalGroupMember =>
  match require_app (internal_group_member_app req) with
  | Err e => refuse e
  | Ok _ =>
    let* _ := asked (EGroupQuit (internal_group_member_app req) (internal_group_member_group_id req)
                       (internal_group_member_account req)) group_http in
    done_empty
  end).

Definition group_members : Handler := fun body => with_req body (fun req : InternalGroupQuery =>
  match require_app (internal_group_query_app req) with
  | Err e => refuse e
  | Ok _ =>
    let* members := asked (EMembers (internal_group_query_app req) (internal_group_query_group_id req)) group_http in
    encoded (mkGroupMembersResp members)
  end).

Definition summary_to_pb (g : GroupSummary) : PbGroupSummary := mkPbGroupSummary (gs_id g) (gs_name g) (gs_avatar g).
Definition group_summaries : Handler := fun body => with_req body (fun req : GroupListReq =>
  match require_app (group_list_req_app req) with
  | Err e => refuse e
  | Ok _ =>
    if GROUP_SUMMARIES_CAP <? len (group_list_req_group_ids req) then refuse (BAD_REQUEST, "too many group ids"%string)
    else
      let* rows := asked (EGroupSummaries (group_list_req_app req) (group_list_req_group_ids req)) group_http in
      encoded (mkGroupListResp (List.map summary_to_pb rows))
  end).

Definition group_detail : Handler := fun body => with_req body (fun req : InternalGroupQuery =>
  match require_app (internal_group_query_app req) with
  | Err e => refuse e
  | Ok _ =>
    let* info := asked (EGroupDetail (internal_group_query_app req) (internal_group_query_group_id req)) group_http in
    encoded (mkGroupDetail (gi_id info) (gi_name info) (gi_avatar info) (gi_introduction info) (gi_owner info) (gi_members info))
  end).

(** ** lib.rs: accounts *)

Definition presence_to_pb (p : option UserPresence) : AccountExists :=
  match p with
  | Some p => mkAccountExists (up_exists p) (up_kind p) (up_owner_account p)
  | None => mkAccountExists false 0 ""
  end.
Definition user_lookup : Handler := fun body => with_req body (fun req : AccountQuery =>
  if str_is_empty (account_query_account req) then refuse (BAD_REQUEST, "empty account"%string)
  else
    let* presence := asked (ELookup (rs_app st) (account_query_account req)) user_http in
    encoded (presence_to_pb presence)).

(** Answers 204. *)
Definition user_upsert : Handler := fun body => with_req body (fun req : AccountQuery =>
  if str_is_empty (account_query_account req) then refuse (BAD_REQUEST, "empty account"%string)
  else
    let* _ := asked (EUpsert (rs_app st) (account_query_account req)) user_http in
    done_empty).

(** ** product.rs *)

Definition reject_bot_social (account peer : string) : SProc (result unit HttpErr) :=
  presence ← call (SCall (ELookup (rs_app st) peer));
  match presence with
  | Ok (Some p) =>
    if up_kind p =? PROFILE_KIND_BOT then
      if bool_decide (up_owner_account p = account) then Ret (Err (FORBIDDEN, "bot-social-denied"%string))
      else Ret (Err (NOT_FOUND, "not found"%string))
    else Ret (Ok tt)
  | Ok None => Ret (Ok tt)
  | Err err => Ret (Err (user_http err))
  end.

Definition to_pb (p : UserProfile) : PbUserProfile :=
  mkPbUserProfile (pf_account p) (pf_nickname p) (pf_avatar p) (pf_bio p) (pf_kind p).

Definition user_profile : Handler := fun body => with_req body (fun req : AccountQuery =>
  let* profile := asked (EProfile (rs_app st) (account_query_account req)) user_http in
  match profile with
  | Some p => encoded (to_pb p)
  | None => refuse (NOT_FOUND, "not found"%string)
  end).

Definition user_update : Handler := fun body => with_req body (fun req : ProfileUpdateReq =>
  let patch := mkProfilePatch (profile_update_req_nickname req) (profile_update_req_avatar req) (profile_update_req_bio req) in
  let* p := asked (EUpdateProfile (rs_app st) (profile_update_req_account req) patch) user_http in
  encoded (to_pb p)).

Definition user_profiles : Handler := fun body => with_req body (fun req : AccountList =>
  let* rows := asked (EProfiles (rs_app st) (account_list_accounts req)) user_http in
  encoded (mkUserListResp (List.map to_pb rows))).

Definition user_search : Handler := fun body => with_req body (fun req : UserSearchQuery =>
  let limit := Z.max (user_search_query_limit req) 0 in
  let* rows := asked (ESearch (rs_app st) (user_search_query_query req) (user_search_query_exclude req) limit) user_http in
  encoded (mkUserSearchResp (List.map to_pb rows))).

Definition friend_request : Handler := fun body => with_req body (fun req : AccountPair =>
  let* _ := reject_bot_social (account_pair_account req) (account_pair_peer req) in
  let* outcome := asked (EFriendRequest (rs_app st) (account_pair_account req) (account_pair_peer req)) social_http in
  encoded (mkAccountExists (match outcome with AutoAccepted | AlreadyFriends => true | Sent => false end) 0 "")).

(** The operations on a pair whose answer is empty; [guarded]: bots are refused. *)
Definition pair_handler (guarded : bool) (e : string -> string -> string -> Eff (result unit SocialError)) : Handler :=
  fun body => with_req body (fun req : AccountPair =>
  let* _ := (if guarded then reject_bot_social (account_pair_account req) (account_pair_peer req) else Ret (Ok tt)) in
  let* _ := asked (e (rs_app st) (account_pair_account req) (account_pair_peer req)) social_http in
  done_empty).
Definition friend_accept : Handler := pair_handler true EFriendAccept.
Definition friend_reject : Handler := pair_handler false EFriendReject.
Definition friend_remove : Handler := pair_handler true EFriendRemove.
Definition block_add : Handler := pair_handler true EBlock.
Definition block_remove : Handler := pair_handler true EUnblock.

(** The lists of accounts. *)
Definition list_handler (e : string -> string -> Eff (result (list string) SocialError)) : Handler :=
  fun body => with_req body (fun req : AccountQuery =>
  let* accounts := asked (e (rs_app st) (account_query_account req)) social_http in
  encoded (mkAccountList accounts)).
Definition friend_list : Handler := list_handler EListFriends.
Definition friend_incoming : Handler := list_handler EIncoming.
Definition block_list : Handler := list_handler EListBlocked.

(** The questions about a pair. *)
Definition check_handler (e : string -> string -> string -> Eff (result bool SocialError)) : Handler :=
  fun body => with_req body (fun req : AccountPair =>
  let* exists_ := asked (e (rs_app st) (account_pair_account req) (account_pair_peer req)) social_http in
  encoded (mkAccountExists exists_ 0 "")).
Definition friend_check : Handler := check_handler EIsFriend.
Definition block_check : Handler := check_handler EBlockedEither.

Definition to_inbox_item (row : InboxEntry) : PbInboxItem :=
  mkPbInboxItem (ie_dest row) (inbox_kind (ie_kind row)) "" "" (ie_last_body row) (ie_last_sender row)
    (ie_last_message_id row) (ie_last_send_time row) (ie_unread row) (Some (state_to_proto (read_state row))).
Definition inbox_list : Handler := fun body => with_req body (fun req : InboxQuery =>
  let* rows := asked (EInbox (rs_app st) (inbox_query_account req) (inbox_query_limit req)) store_backend in
  encoded (mkInboxResp (List.map to_inbox_item rows))).

Definition history : Handler := fun body => with_req body (fun req : HistoryQuery =>
  match parse_kind (history_query_kind req) with
  | None => refuse (BAD_REQUEST, "kind"%string)
  | Some kind =>
    let* rows := asked (EHistory (rs_app st) (history_query_account req) (history_query_dest req) kind
                          (history_query_before_id req) (history_query_limit req)) store_backend in
    encoded (mkHistoryResp (List.map history_to_proto rows))
  end).

Definition inbox_read : Handler := fun body => with_req body (fun req : ConversationRead =>
  match parse_kind (conversation_read_kind req) with
  | None => refuse (BAD_REQUEST, "kind"%string)
  | Some kind =>
    let* state := asked (EMarkRead (rs_app st) (conversation_read_account req) (conversation_read_dest req) kind
                           (conversation_read_message_id req)) store_backend in
    encoded (state_to_proto state)
  end).

(** The keys of a request, up to the first that is not valid. *)
Fixpoint query_keys (conversations : list PbConversationStateKey) : result (list ConversationStateKey) HttpErr :=
  match conversations with
  | [] => Ok []
  | key :: conversations =>
    match parse_kind (pb_conversation_state_key_kind key) with
    | None => Err (BAD_REQUEST, "kind"%string)
    | Some kind =>
      if str_is_empty (pb_conversation_state_key_dest key) then Err (BAD_REQUEST, "dest"%string)
      else let? keys := query_keys conversations in
           Ok (mkConversationStateKey (pb_conversation_state_key_dest key) kind :: keys)
    end
  end.
Definition inbox_states : Handler := fun body => with_req body (fun req : ConversationStatesQuery =>
  if str_is_empty (conversation_states_query_account req) then refuse (BAD_REQUEST, "account"%string)
  else if 100 <? len (conversation_states_query_conversations req) then refuse (BAD_REQUEST, "too many keys"%string)
  else match query_keys (conversation_states_query_conversations req) with
  | Err e => refuse e
  | Ok keys =>
    let* states := asked (EStates (rs_app st) (conversation_states_query_account req) keys) store_backend in
    encoded (mkConversationStatesResp (List.map state_to_proto states))
  end).

(** ** bot.rs *)

Definition to_pb_config (c : BotConfig) : PbBotConfig :=
  mkPbBotConfig (bc_model c) (bc_thinking_effort c) (bc_context_tokens c) (bc_visibility c).
Definition bot_resp (r : BotRecord) : BotCreateResp :=
  mkBotCreateResp (Some (to_pb (br_profile r))) (Some (to_pb_config (br_config r))).

Definition bot_create : Handler := fun body => with_req body (fun req : InternalBotCreate =>
  let* record := asked (ECreateBot (rs_app st)
    (mkCreateBot (internal_bot_create_owner req) (internal_bot_create_client_profile_id req) (internal_bot_create_nickname req)
       (internal_bot_create_avatar req) (internal_bot_create_bio req) (internal_bot_create_model req)
       (internal_bot_create_thinking_effort req) (internal_bot_create_context_tokens req)
       (internal_bot_create_visibility req))) user_http in
  encoded (bot_resp record)).

Definition bot_delete : Handler := fun body => with_req body (fun req : AccountPair =>
  let* _ := asked (EDeleteBot (rs_app st) (account_pair_account req) (account_pair_peer req)) user_http in
  let* _ := asked (EPurge (rs_app st) (account_pair_account req) (account_pair_peer req)) store_http in
  encoded (mkAccountExists true 0 "")).

Definition purge_dm : Handler := fun body => with_req body (fun req : AccountPair =>
  let* _ := asked (EPurge (rs_app st) (account_pair_account req) (account_pair_peer req)) store_http in
  encoded (mkAccountExists true 0 "")).

Definition bot_update : Handler := fun body => with_req body (fun req : InternalBotUpdate =>
  let* record := asked (EUpdateBot (rs_app st) (internal_bot_update_owner req) (internal_bot_update_account req)
    (mkBotPatch (internal_bot_update_nickname req) (internal_bot_update_avatar req) (internal_bot_update_bio req)
       (internal_bot_update_model req) (internal_bot_update_thinking_effort req) (internal_bot_update_context_tokens req)
       (internal_bot_update_visibility req))) user_http in
  encoded (bot_resp record)).

Definition bot_config : Handler := fun body => with_req body (fun req : InternalBotConfig =>
  config ← call (SBotConfig (rs_app st) (internal_bot_config_owner req) (internal_bot_config_account req));
  match config with
  | Err err => refuse (user_http err)
  | Ok config =>
    encoded (mkInternalBotConfig (internal_bot_config_owner req) (internal_bot_config_account req) (Some (to_pb_config config)))
  end).

Definition bot_reply : Handler := fun body => with_req body (fun req : BotReplyStoreReq =>
  match bot_reply_store_req_insert req with
  | None => refuse (BAD_REQUEST, "insert"%string)
  | Some insert =>
    let* inserted := asked (EInsertBotReply (rs_app st) (bot_reply_store_req_owner req) (bot_reply_store_req_bot_account req)
                              (bot_reply_store_req_in_reply_to req) (insert_from_req insert)) store_http in
    encoded (encode_insert inserted)
  end).

Definition pending_to_pb (i : BotPendingItem) : PbBotPendingItem :=
  mkPbBotPendingItem (bp_message_id i) (bp_body i) (bp_send_time i).
Definition bot_pending : Handler := fun body => with_req body (fun req : BotPendingQuery =>
  let* presence := asked (ELookup (rs_app st) (bot_pending_query_bot_account req)) user_http in
  match presence with
  | Some p =>
    if up_kind p =? PROFILE_KIND_BOT then
      if bool_decide (up_owner_account p = bot_pending_query_owner req) then
        let* items := asked (EBotPending (rs_app st) (bot_pending_query_owner req) (bot_pending_query_bot_account req)
                               (bot_pending_query_limit req)) store_http in
        encoded (mkBotPendingResp (List.map pending_to_pb items))
      else refuse (FORBIDDEN, "not bot owner"%string)
    else refuse (NOT_FOUND, "not found"%string)
  | None => refuse (NOT_FOUND, "not found"%string)
  end).

(** ** agent_spec.rs *)

Definition require_owner (owner : string) : result unit HttpErr :=
  if str_is_empty owner then Err (BAD_REQUEST, "empty owner"%string) else Ok tt.

Definition spec_sync : Handler := fun body => with_req body (fun req : InternalAgentSpecQuery =>
  match require_owner (internal_agent_spec_query_owner req) with
  | Err e => refuse e
  | Ok _ =>
    let* records := asked (ESpecs (rs_app st) (internal_agent_spec_query_owner req)) spec_http in
    let* accounts := asked (ESpecAccounts (rs_app st) (internal_agent_spec_query_owner req)) spec_http in
    encoded (mkAgentSpecSyncResp (List.map record_to_pb records) (List.map account_to_pb accounts))
  end).

Definition spec_upsert : Handler := fun body => with_req body (fun req : InternalAgentSpecUpsert =>
  let owner := internal_agent_spec_upsert_owner req in
  match require_owner owner with
  | Err e => refuse e
  | Ok _ =>
    match internal_agent_spec_upsert_record req, internal_agent_spec_upsert_account req with
    | None, None => refuse (BAD_REQUEST, "empty upsert"%string)
    | record, account =>
      let* _ :=
        (match account with
         | Some acc => let* _ := asked (ESpecUpsertAccount (rs_app st) owner (account_from_pb acc)) spec_http in Ret (Ok tt)
         | None => Ret (Ok tt)
         end) in
      match record with
      | None => encoded (mkAgentSpecUpsertResp None)
      | Some pb =>
        let* stored := asked (ESpecUpsert (rs_app st) owner (record_from_pb pb)) spec_http in
        encoded (mkAgentSpecUpsertResp (Some (record_to_pb stored)))
      end
    end
  end).
End handlers.
