(* ===== verification/RoyalAuth.v ===== *)
(** Accounts at the royal service: services/royal/src/auth.rs (register, login, logout,
    change of password), the device and revocation stores of device.rs and revoke.rs,
    and the checks gateways ask for (lib.rs).

    Tokens, password hashes and sealed passwords are made by libraries: [Jwt] and
    [PasswordSeal] are parameters, Argon2 is behind the calls [SHashPassword] and
    [SVerifyPassword]. *)

From S2P Require Import Prelude Prog Wire Pkt Msgs RoyalMsgs Location SessionStore Store Social Groups Users Interest AgentStore.
From S2P Require Import Effects Gateway Container Hmac RoyalPool RoyalServer.
From stdpp Require Import gmap.
Open Scope Z_scope.
Open Scope kim_scope.

(** ** revoke.rs *)

(** Token to the instant, in nanoseconds, its revocation ends; account to epoch. *)
Record MemoryRevocation := mkRevocation { rv_inner : gmap string Z; rv_epochs : gmap string Z }.
Definition MemoryRevocation_new : MemoryRevocation := mkRevocation ∅ ∅.

Definition mem_revoke (jti : string) (ttl_secs now : Z) (r : MemoryRevocation) : MemoryRevocation :=
  mkRevocation (<[jti := now + Z.max ttl_secs 1 * NANOS]> (rv_inner r)) (rv_epochs r).
Definition mem_is_revoked (jti : string) (now : Z) (r : MemoryRevocation) : MemoryRevocation * bool :=
  let kept := filter (fun '(_, exp) => now < exp) (rv_inner r) in
  (mkRevocation kept (rv_epochs r), bool_decide (is_Some (kept !! jti))).
Definition mem_get_epoch (account : string) (r : MemoryRevocation) : Z := default 0 (rv_epochs r !! account).
Definition mem_set_epoch (account : string) (ver : Z) (r : MemoryRevocation) : MemoryRevocation :=
  mkRevocation (rv_inner r) (<[account := ver]> (rv_epochs r)).

(** ** device.rs *)

(** Device to app, account, hash of its secret and whether it is revoked. *)
Abbreviation MemoryDeviceDirectory := (gmap string (string * string * string * bool)).

Definition mem_enroll (app account device_id secret_hash : string) (d : MemoryDeviceDirectory) : MemoryDeviceDirectory :=
  <[device_id := (app, account, secret_hash, false)]> d.
Definition device_matches (app account secret_hash : string) (x : string * (string * string * string * bool)) : bool :=
  let '(a, acc, hash, revoked) := x.2 in
  bool_decide (a = app) && bool_decide (acc = account) && bool_decide (hash = secret_hash) && negb revoked.
Definition mem_lookup_hash (app account secret_hash : string) (d : MemoryDeviceDirectory) : option DeviceRecord :=
  match List.find (device_matches app account secret_hash) (map_to_list d) with
  | Some (id, (_, acc, hash, _)) => Some (mkDeviceRecord id acc hash false)
  | None => None
  end.
Definition mem_device_get (device_id : string) (d : MemoryDeviceDirectory) : option DeviceRecord :=
  '(_, account, hash, revoked) ← d !! device_id; Some (mkDeviceRecord device_id account hash revoked).
Definition mem_device_revoke (device_id : string) (d : MemoryDeviceDirectory) : MemoryDeviceDirectory :=
  match d !! device_id with
  | Some (app, account, hash, _) => <[device_id := (app, account, hash, true)]> d
  | None => d
  end.

(** The digest is a library's. *)
Definition hash_secret (sha256 : bytes -> bytes) (secret : string) : string := hex_encode (sha256 (bytes_of secret)).

Abbreviation MemoryDeviceHot := (gmap string string).
Definition hot_put (device_id account : string) (h : MemoryDeviceHot) : MemoryDeviceHot := <[device_id := account]> h.
Definition hot_drop_key (device_id : string) (h : MemoryDeviceHot) : MemoryDeviceHot := delete device_id h.
Definition hot_ok (device_id account : string) (h : MemoryDeviceHot) : bool := bool_decide (h !! device_id = Some account).

(** ** auth.rs *)

Definition PASSWORD_MIN : Z := 8.
Definition PASSWORD_MAX : Z := 128.
Definition PASSWORD_KEY_ID_MISMATCH : string := "password key id mismatch".

(** jsonwebtoken, under a secret; decoding checks the expiry against the clock. *)
Class Jwt := {
  jwt_encode : string -> Claims -> result string ProtocolError;
  jwt_decode : string -> Z -> string -> option Claims
}.

(** password_seal.rs: a key pair by its id and its opening of sealed boxes. *)
Record PasswordSealKey := mkPasswordSealKey { ps_key_id : string; ps_public_b64 : string; ps_unseal : bytes -> option bytes }.
Definition PASSWORD_SEAL_ALG : string := "x25519-seal".
Definition ensure_key_id (key_id : string) (key : PasswordSealKey) : bool := bool_decide (str_trim key_id = ps_key_id key).

Record AuthState := mkAuthState {
  au_state : RoyalState;
  au_jwt_secret : string;
  au_jwt_ttl : Z;
  au_chat_url : string;
  au_password_seal : option PasswordSealKey;
  au_allow_plaintext : bool
}.
Definition au_app (st : AuthState) : string := rs_app (au_state st).

Definition bad_request (msg : string) : HttpErr := (BAD_REQUEST, msg).
Definition unauthorized : HttpErr := (UNAUTHORIZED, "账号或密码错误"%string).
Definition unauthorized_token : HttpErr := (UNAUTHORIZED, "unauthorized"%string).

Definition valid_account (raw : string) : result string HttpErr :=
  match AccountId_parse raw with Ok _ => Ok (str_trim raw) | Err _ => Err (bad_request "invalid account") end.
Definition valid_password (raw : string) : result string HttpErr :=
  if (len (bytes_of raw) <? PASSWORD_MIN) || (PASSWORD_MAX <? len (bytes_of raw)) then Err (bad_request "invalid password")
  else Ok raw.

Definition plaintext_allowed (st : AuthState) : bool :=
  au_allow_plaintext st || bool_decide (au_password_seal st = None).

Definition resolve_password_field (st : AuthState) (plaintext : string) (sealed : bytes) (key_id : string)
  : result string HttpErr :=
  match sealed with
  | _ :: _ =>
    match au_password_seal st with
    | None => Err (bad_request "password seal not configured")
    | Some key =>
      if negb (ensure_key_id key_id key) then Err (bad_request PASSWORD_KEY_ID_MISMATCH)
      else match ps_unseal key sealed with
      | None => Err (bad_request "invalid sealed password")
      | Some opened =>
        if utf8_valid opened then valid_password (string_of_bytes opened)
        else Err (bad_request "invalid sealed password")
      end
    end
  | [] =>
    if str_is_empty plaintext then Err (bad_request "password required")
    else if negb (plaintext_allowed st) then Err (bad_request "plaintext password not allowed")
    else valid_password plaintext
  end.

Definition strip_prefix (prefix s : string) : option string :=
  if String.prefix prefix s then Some (string_of_bytes (drop (String.length prefix) (bytes_of s))) else None.

(** [?] on a value that needs no call. *)
Definition given {E : Type -> Type} {A B X} (r : result A X) (k : A -> Prog E (result B X)) : Prog E (result B X) :=
  match r with Ok a => k a | Err e => Ret (Err e) end.
Notation "'let=' x := r 'in' k" := (given r (fun x => k))
  (at level 10, x pattern, r at level 100, k at level 200) : kim_scope.

Definition UserError_text (e : UserError) : string :=
  match e with
  | UserConflict => "conflict" | UserMissing => "not found" | InvalidProfile => "invalid profile" | Limit => "limit"
  | NotOwner => "not bot owner" | UserBackend m => m
  end%string.
Definition user_backend (e : UserError) : HttpErr := backend (UserError_text e).
Definition asked_srv {A E} (e : SrvEff (result A E)) (f : E -> HttpErr) : SProc (result A HttpErr) :=
  r ← call e; Ret (map_err f r).

Section auth.
Context `{Prost, RoyalProst, DecodeText, Jwt} (sha256 : bytes -> bytes) (st : AuthState).

Definition jwt_ttl : Z := if 0 <? au_jwt_ttl st then au_jwt_ttl st else 86400.

(** The token of an account, at the epoch it is now. *)
Definition issue (account : string) (did device_secret : option string) : SProc (result bytes HttpErr) :=
  now ← call SNow;
  let exp := sat_i64 (now + jwt_ttl) in
  let* ver := asked_srv (STokenEpoch (au_app st) account) user_backend in
  jti ← call SUuid;
  match (let? claims := device_claims account (au_app st) exp jti ver did in jwt_encode (au_jwt_secret st) claims) with
  | Err InvalidAccount => Ret (Err (bad_request "invalid account"))
  | Err _ => Ret (Err (backend "token"))
  | Ok token => encoded (mkAuthResp token exp account (default ""%string did) (default ""%string device_secret))
  end.

(** The device a sign-in is bound to: its id, and its secret when it is new. *)
Definition bind_device (account : string) (req : AuthReq) : SProc (result (option (string * option string)) HttpErr) :=
  let cred := str_trim (auth_req_device_credential req) in
  if negb (str_is_empty cred) then
    let* rec := asked_srv (SDeviceLookup (au_app st) account (hash_secret sha256 cred)) backend in
    match rec with
    | None => Ret (Err unauthorized)
    | Some rec =>
      let* _ := asked_srv (SHotPut (dr_device_id rec) account) backend in
      Ret (Ok (Some (dr_device_id rec, None)))
    end
  else if auth_req_enroll_device req then
    id ← call SUuid;
    secret ← call SUuid;
    let* _ := asked_srv (SHotPut id account) backend in
    enrolled ← call (SDeviceEnroll (au_app st) account id (hash_secret sha256 secret));
    match enrolled with
    | Err err => _ ← call (SHotDrop id); Ret (Err (backend err))
    | Ok _ => Ret (Ok (Some (id, Some secret)))
    end
  else Ret (Ok None).

Definition finish_auth (account : string) (req : AuthReq) : SProc (result bytes HttpErr) :=
  let* bound := bind_device account req in
  match bound with
  | Some (id, secret) => issue account (Some id) secret
  | None => issue account None None
  end.

Definition hash_password (password : string) : SProc (result string HttpErr) :=
  asked_srv (SHashPassword password) (fun _ => backend "hash").

Definition register : Handler := fun body => with_req body (fun req : AuthReq =>
  let= account := valid_account (auth_req_account req) in
  let= password := resolve_password_field st (auth_req_password req) (auth_req_password_sealed req) (auth_req_key_id req) in
  let* hashed := hash_password password in
  created ← call (SCreateUser (au_app st) account hashed);
  match created with
  | Ok _ => finish_auth account req
  | Err UserConflict => refuse (CONFLICT, "账号已存在"%string)
  | Err (UserBackend e) => refuse (backend e)
  | Err _ => refuse (backend "create")
  end).

Definition login : Handler := fun body => with_req body (fun req : AuthReq =>
  let= account := valid_account (auth_req_account req) in
  let= password := resolve_password_field st (auth_req_password req) (auth_req_password_sealed req) (auth_req_key_id req) in
  presence ← call (SCall (ELookup (au_app st) account));
  let bot := match presence with Ok (Some p) => up_kind p =? PROFILE_KIND_BOT | _ => false end in
  if bot then refuse unauthorized
  else
    let* stored := asked_srv (SPasswordHash (au_app st) account) user_backend in
    match stored with
    | None => refuse unauthorized
    | Some hash =>
      let* ok := asked_srv (SVerifyPassword password hash) (fun _ => backend "verify") in
      if negb ok then refuse unauthorized else finish_auth account req
    end).

(** [header]: the authorization header, when it is there and is text. *)
Definition bearer_claims (header : option string) (now : Z) : result Claims HttpErr :=
  let raw := default ""%string header in
  let token := match strip_prefix "Bearer " raw with
               | Some t => t
               | None => default ""%string (strip_prefix "bearer " raw)
               end in
  let token := str_trim token in
  if str_is_empty token then Err unauthorized_token
  else match jwt_decode (au_jwt_secret st) now token with
  | None => Err unauthorized_token
  | Some claims =>
    let? _ := (match check_account (cl_account claims) with Ok _ => Ok tt | Err _ => Err unauthorized_token end) in
    if negb (bool_decide (cl_app claims = au_app st)) || str_is_empty (cl_account claims) then Err unauthorized_token
    else Ok claims
  end.

(** lib.rs [kick_account]: the request to chat, whose failures are logged. *)
Definition kick_account (account : string) : SProc unit :=
  if str_is_empty (au_chat_url st) || str_is_empty account then Ret tt else call (SKick account (au_app st)).

(** The rest of the life of a token, at least a second. *)
Definition jti_ttl (claims : Claims) (now : Z) : Z := Z.max (sat_i64 (cl_exp claims - now)) 1.

Definition logout (header : option string) : SProc (result bytes HttpErr) :=
  now ← call SNow;
  let= claims := bearer_claims header now in
  let* _ :=
    (match cl_jti claims with
     | Some jti => now ← call SNow; asked_srv (SRevoke jti (jti_ttl claims now)) backend
     | None => Ret (Ok tt)
     end) in
  _ ← kick_account (cl_account claims);
  done_empty.

(** The cached epoch may be missing; the one of the account is durable. *)
Definition account_epoch (account : string) : SProc (result Z HttpErr) :=
  let* cached := asked_srv (SGetEpoch account) backend in
  let* durable := asked_srv (STokenEpoch (au_app st) account) user_backend in
  let epoch := Z.max cached durable in
  _ ← (if cached <? durable then call (SSetEpoch account epoch jwt_ttl) else Ret (Ok tt));
  Ret (Ok epoch).

Definition live_claims (header : option string) : SProc (result Claims HttpErr) :=
  now ← call SNow;
  let= claims := bearer_claims header now in
  let* revoked :=
    (match cl_jti claims with Some jti => asked_srv (SIsRevoked jti) backend | None => Ret (Ok false) end) in
  if (revoked : bool) then Ret (Err unauthorized_token)
  else
    let* epoch := account_epoch (cl_account claims) in
    if cl_ver claims <? epoch then Ret (Err unauthorized_token) else Ret (Ok claims).

(** The account and app of [MeBody]. *)
Definition me (header : option string) : SProc (result (string * string) HttpErr) :=
  let* claims := live_claims header in Ret (Ok (cl_account claims, au_app st)).

Definition password_key : result bytes HttpErr :=
  match au_password_seal st with
  | None => Err (NOT_FOUND, "password seal not configured"%string)
  | Some key => Ok (encode_to_vec (mkPasswordKeyResp (ps_key_id key) PASSWORD_SEAL_ALG (ps_public_b64 key)))
  end.

Definition change_password (header : option string) : Handler := fun body =>
  let* claims := live_claims header in
  let account := cl_account claims in
  with_req body (fun req : PasswordChangeReq =>
  let= old := resolve_password_field st (password_change_req_old_password req) (password_change_req_old_password_sealed req)
                (password_change_req_key_id req) in
  let= new := resolve_password_field st (password_change_req_new_password req) (password_change_req_new_password_sealed req)
                (password_change_req_key_id req) in
  let* stored := asked_srv (SPasswordHash (au_app st) account) user_backend in
  match stored with
  | None => refuse unauthorized
  | Some hash =>
    let* old_ok := asked_srv (SVerifyPassword old hash) (fun _ => backend "verify") in
    if negb old_ok then refuse unauthorized
    else
      let* hashed := hash_password new in
      let* ver := asked_srv (SSetPasswordBump (au_app st) account hashed) user_backend in
      let* _ := asked_srv (SSetEpoch account ver jwt_ttl) backend in
      _ ← (match cl_jti claims with
           | Some jti => now ← call SNow; call (SRevoke jti (jti_ttl claims now))
           | None => Ret (Ok tt)
           end);
      _ ← kick_account account;
      done_empty
  end).

(** ** lib.rs: the checks of gateways *)

Definition revoke_check : Handler := fun body => with_req body (fun req : RevokeQuery =>
  if str_is_empty (revoke_query_jti req) then refuse (BAD_REQUEST, "empty jti"%string)
  else
    let* revoked := asked_srv (SIsRevoked (revoke_query_jti req)) backend in
    encoded (mkRevokeStatus revoked)).

Definition token_epoch : Handler := fun body => with_req body (fun req : TokenEpochQuery =>
  if str_is_empty (token_epoch_query_account req) then refuse (BAD_REQUEST, "empty account"%string)
  else
    let* epoch := account_epoch (token_epoch_query_account req) in
    encoded (mkTokenEpoch epoch)).

Definition device_check : Handler := fun body => with_req body (fun req : DeviceCheckQuery =>
  let device := device_check_query_device_id req in
  let account := device_check_query_account req in
  if str_is_empty device then refuse (BAD_REQUEST, "empty device id"%string)
  else
    let* ok :=
      (if negb (str_is_empty (device_check_query_device_credential req)) then
         let* rec := asked_srv (SDeviceLookup (au_app st) account (hash_secret sha256 (device_check_query_device_credential req))) backend in
         Ret (Ok (match rec with
                  | Some rec => bool_decide (dr_device_id rec = device) && negb (dr_revoked rec)
                  | None => false
                  end))
       else
         let* rec := asked_srv (SDeviceGet device) backend in
         match rec with
         | Some rec => Ret (Ok (negb (dr_revoked rec) && bool_decide (dr_account rec = account)))
         | None => asked_srv (SHotOk device account) backend
         end) in
    encoded (mkDeviceCheckStatus ok)).
End auth.
