(* ===== verification/RoyalHttp.v ===== *)
(** The router of the royal service and its signature check: services/royal/src/lib.rs
    ([router], [require_hmac]).

    [royal_service] is what the service does with a signed request: it finds the
    route, checks the signature, claims the nonce and runs the handler. *)

From S2P Require Import Prelude Prog Wire Pkt Msgs RoyalMsgs Location SessionStore Store Social Groups Users Interest AgentStore.
From S2P Require Import Effects Gateway Container Hmac RoyalPool RoyalServer RoyalAuth.
Open Scope Z_scope.
Open Scope kim_scope.

Definition MAX_SIGNED_BODY : Z := 4 * 1024 * 1024.

Section router.
Context `{Prost, RoyalProst, DecodeText, Jwt, HmacSha256} (sha256 : bytes -> bytes) (au : AuthState).
Let st := au_state au.

(** Path, method and handler; [user_upsert] answers 204. *)
Definition routes : list (string * Method * Handler) :=
  [("/internal/user/lookup", POST, user_lookup st);
   ("/internal/user/upsert", POST, user_upsert st);
   ("/internal/revoke/check", POST, revoke_check);
   ("/internal/token-epoch", POST, token_epoch au);
   ("/internal/device/check", POST, device_check sha256 au);
   ("/api/v1/message/user", POST, insert_user st);
   ("/api/v1/message/group", POST, insert_group st);
   ("/api/v1/message/ack", POST, ack st);
   ("/api/v1/offline/index", POST, offline_index st);
   ("/api/v1/delivery/backfill", POST, delivery_backfill st);
   ("/api/v1/offline/content", POST, offline_content);
   ("/api/v1/group", POST, group_create);
   ("/api/v1/group/member", POST, group_join);
   ("/api/v1/group/quit", POST, group_quit);
   ("/api/v1/group/members", POST, group_members);
   ("/api/v1/group/detail", POST, group_detail);
   ("/api/v1/group/summaries", POST, group_summaries);
   ("/api/v1/user/profile", POST, user_profile st);
   ("/api/v1/user/update", POST, user_update st);
   ("/api/v1/user/profiles", POST, user_profiles st);
   ("/api/v1/user/search", POST, user_search st);
   ("/api/v1/friend/request", POST, friend_request st);
   ("/api/v1/friend/accept", POST, friend_accept st);
   ("/api/v1/friend/reject", POST, friend_reject st);
   ("/api/v1/friend/remove", POST, friend_remove st);
   ("/api/v1/friend/list", POST, friend_list st);
   ("/api/v1/friend/incoming", POST, friend_incoming st);
   ("/api/v1/friend/check", POST, friend_check st);
   ("/api/v1/block/add", POST, block_add st);
   ("/api/v1/block/remove", POST, block_remove st);
   ("/api/v1/block/list", POST, block_list st);
   ("/api/v1/block/check", POST, block_check st);
   ("/api/v1/inbox", POST, inbox_list st);
   ("/api/v1/history", POST, history st);
   ("/api/v1/inbox/read", POST, inbox_read st);
   ("/api/v1/inbox/states", POST, inbox_states st);
   ("/api/v1/bot", POST, bot_create st);
   ("/api/v1/bot", DELETE, bot_delete st);
   ("/api/v1/message/purge-dm", POST, purge_dm st);
   ("/api/v1/bot/update", POST, bot_update st);
   ("/api/v1/bot/config", POST, bot_config st);
   ("/api/v1/bot/reply", POST, bot_reply st);
   ("/api/v1/bot/pending", POST, bot_pending st);
   ("/api/v1/agent/spec/sync", POST, spec_sync st);
   ("/api/v1/agent/spec/upsert", POST, spec_upsert st)]%string.

Definition route (method : Method) (path : string) : option Handler :=
  snd <$> List.find (fun r => String.eqb r.1.1 path && bool_decide (r.1.2 = method)) routes.

(** The check of a request before its handler runs. *)
Definition require_hmac (req : HttpRequest) : SProc (result unit HttpErr) :=
  if MAX_SIGNED_BODY <? len (hr_body req) then Ret (Err (PAYLOAD_TOO_LARGE, "payload too large"%string))
  else
    now ← call SNow;
    if negb (verify_at (bytes_of (rs_hmac_secret st)) (Method_text (hr_method req)) (hr_path req) (hr_body req) (hr_headers req) now)
    then Ret (Err (UNAUTHORIZED, "unauthorized"%string))
    else
      claimed ← call (SClaimNonce (hh_nonce (hr_headers req)));
      match claimed with
      | Ok true => Ret (Ok tt)
      | Ok false => Ret (Err (UNAUTHORIZED, "unauthorized"%string))
      | Err _ => Ret (Err (SERVICE_UNAVAILABLE, "unavailable"%string))
      end.

(** The status and the body of an answer. *)
Definition answered (path : string) (r : result bytes HttpErr) : Z * bytes :=
  match r with
  | Ok body => (if String.eqb path "/internal/user/upsert" then 204 else 200, body)
  | Err (status, text) => (status, bytes_of text)
  end.

(** Where there is no route the router answers with nothing: 405 when the path has
    one for another method, else 404. *)
Definition royal_service (req : HttpRequest) : SProc (Z * bytes) :=
  match route (hr_method req) (hr_path req) with
  | None => Ret (if existsb (fun r => String.eqb r.1.1 (hr_path req)) routes then 405 else 404, [])
  | Some handler =>
    checked ← require_hmac req;
    match checked with
    | Err e => Ret (answered (hr_path req) (Err e))
    | Ok _ => r ← handler (hr_body req); Ret (answered (hr_path req) r)
    end
  end.
End router.
