(* ===== verification/RoyalClient.v ===== *)
(** The stores and directories of chat that are calls to the royal service:
    [HttpMessageStore], [HttpGroupDirectory], [HttpUserDirectory],
    [HttpSocialDirectory] and [HttpAgentSpecStore] of services/chat/src/royal.rs.

    Each method is a program over [PoolEff].  [remote] gives the method that answers
    a call [Eff] of the handlers when chat runs with these stores. *)

From S2P Require Import Prelude Prog Wire Pkt Msgs RoyalMsgs Location SessionStore Store Filter Social Groups Users Interest AgentStore.
From S2P Require Import Effects InboxCmds BotCmds Container Hmac RoyalPool RoyalServer RoyalAuth.
Open Scope Z_scope.
Open Scope kim_scope.

(** ** Errors *)

Definition group_err (e : StoreError) : GroupError :=
  match e with
  | Http status msg => if status =? 404 then GroupNotFound else GroupBackend (StoreError_text (Http status msg))
  | Backend s | Invalid s => GroupBackend s
  | StoreNotFound => GroupNotFound
  | Id e => GroupId e
  end.

Definition user_err (e : StoreError) : UserError :=
  match e with
  | Http status msg =>
    if status =? 404 then UserMissing
    else if status =? 409 then UserConflict
    else if status =? 403 then NotOwner
    else if status =? 400 then (if contains msg "limit" then Limit else InvalidProfile)
    else UserBackend (StoreError_text e)
  | other => UserBackend (StoreError_text other)
  end.

Definition social_err (e : StoreError) : SocialError :=
  match e with
  | Http status msg =>
    if status =? 403 then (if contains msg "bot-social" then SocialBotDenied else SocialBlocked)
    else if status =? 404 then SocialNotFound
    else if status =? 400 then SelfOp
    else SocialBackend (StoreError_text e)
  | other => SocialBackend (StoreError_text other)
  end.

Definition spec_err (e : StoreError) : AgentSpecError :=
  match e with
  | Http status _ =>
    if status =? 400 then SpecInvalid else if status =? 403 then SpecNotOwner else SpecBackend (StoreError_text e)
  | other => SpecBackend (StoreError_text other)
  end.

(** ** Data *)

Definition fanout_from_resp (fanout : option InsertFanout) : Fanout :=
  match fanout with
  | Some f =>
    mkFanout (insert_fanout_type f) (insert_fanout_body f) (insert_fanout_extra f) (insert_fanout_sender f) (insert_fanout_dest f)
      (default User (parse_kind (insert_fanout_kind f))) (insert_fanout_recipients f)
  | None => mkFanout 0 "" "" "" "" User []
  end.

Definition target_to_pb (t : DeliveryTarget) : PbDeliveryTarget := mkPbDeliveryTarget (dt_account t) (dt_target_id t).
Definition insert_body (req : InsertMessage) (members : list string) : InsertMessageReq :=
  mkInsertMessageReq (im_sender req) (im_dest req) (im_send_time req)
    (Some (mkMessageReq (im_msg_type req) (im_body req) (im_extra req) (im_client_id req))) members (im_client_id req)
    (List.map target_to_pb (im_online_targets req)).
Definition insert_result (resp : InsertMessageResp) : InsertResult :=
  mkInsertResult (insert_message_resp_message_id resp) (insert_message_resp_send_time resp) (insert_message_resp_duplicate resp)
    (fanout_from_resp (insert_message_resp_fanout resp)).

Definition row_from_pb (r : MessageIndex) : MessageIndexRow :=
  mkMessageIndexRow (mi_message_id r) (mi_direction r) (mi_send_time r) (mi_account_b r) (mi_group r).
Definition content_from_pb (m : PktMessage) : MessageContentRow :=
  mkMessageContentRow (pm_message_id m) (pm_type m) (pm_body m) (pm_extra m).
Definition history_from_pb (m : PbHistoryItem) : HistoryEntry :=
  mkHistoryEntry (pb_history_item_message_id m) (pb_history_item_type m) (pb_history_item_body m) (pb_history_item_extra m)
    (pb_history_item_sender m) (pb_history_item_send_time m) (pb_history_item_direction m).

Definition inbox_from_pb (i : PbInboxItem) : option InboxEntry :=
  kind ← parse_kind (pb_inbox_item_kind i);
  let state := pb_inbox_item_read_state i in
  Some (mkInboxEntry (pb_inbox_item_dest i) kind (pb_inbox_item_last_message_id i) (pb_inbox_item_last_send_time i)
    (pb_inbox_item_last_body i) (pb_inbox_item_last_sender i) 0 (pb_inbox_item_unread i)
    (default 0 (pb_conversation_read_state_last_read_message_id <$> state))
    (default (pb_inbox_item_last_message_id i) (pb_conversation_read_state_max_message_id <$> state))
    (default 0 (pb_conversation_read_state_version <$> state))).

Definition pending_items (resp : BotPendingResp) : list BotPendingItem :=
  List.map (fun i => mkBotPendingItem (pb_bot_pending_item_message_id i) (pb_bot_pending_item_body i)
    (pb_bot_pending_item_send_time i)) (bot_pending_resp_items resp).

Definition state_from_pb (dest : string) (kind : MessageKind) (p : PbConversationReadState) : ConversationReadState :=
  mkConversationReadState dest kind (pb_conversation_read_state_last_read_message_id p)
    (pb_conversation_read_state_max_message_id p) (pb_conversation_read_state_unread p) (pb_conversation_read_state_version p)
    (pb_conversation_read_state_exists p).

Definition from_pb_config (cfg : option PbBotConfig) : BotConfig :=
  match cfg with
  | Some c =>
    mkBotConfig (pb_bot_config_model c) (pb_bot_config_thinking_effort c) (pb_bot_config_context_tokens c)
      (if str_is_empty (pb_bot_config_visibility c) then BOT_VISIBILITY_PRIVATE else pb_bot_config_visibility c)
  | None => mkBotConfig "" "" None BOT_VISIBILITY_PRIVATE
  end.
Definition from_pb_profile (p : PbUserProfile) : UserProfile :=
  mkUserProfile (pb_user_profile_account p) (pb_user_profile_nickname p) (pb_user_profile_avatar p) (pb_user_profile_bio p)
    (profile_kind (pb_user_profile_kind p)).
Definition bot_record (resp : BotCreateResp) (missing : string) : result BotRecord UserError :=
  match bot_create_resp_profile resp with
  | Some p => Ok (mkBotRecord (from_pb_profile p) (from_pb_config (bot_create_resp_config resp)))
  | None => Err (UserBackend missing)
  end.
Definition outcome_from_pb (r : AccountExists) : FriendRequestOutcome := if account_exists_exists r then AutoAccepted else Sent.
Definition presence_from_pb (r : AccountExists) : option UserPresence :=
  if negb (account_exists_exists r) then None
  else Some (mkUserPresence true (profile_kind (account_exists_kind r)) (account_exists_owner_account r)).

Definition map_ok {A B E} (f : A -> B) (r : result A E) : result B E := match r with Ok a => Ok (f a) | Err e => Err e end.

(** [deadline]: the task-local deadline of the calls of one handler. *)
Section stores.
Context `{Prost, RoyalProst, DecodeText, HmacSha256} (p : RoyalPool) (deadline : option Z) (pending_receipt : bool).

(** A request whose answer is a message, read by [f], or an error, mapped by [g]. *)
Definition fetch {T B A E} `{Message T, Message B} (method : Method) (path : string) (body : B) (g : StoreError -> E)
  (f : T -> A) : PProc (result A E) :=
  resp ← send_pb p deadline method path body; Ret (map_ok f (map_err g resp)).
(** A request of which only the success counts. *)
Definition post {B E} `{Message B} (path : string) (body : B) (g : StoreError -> E) : PProc (result unit E) :=
  r ← post_maybe_empty p deadline path body; Ret (map_err g r).

(** ** HttpMessageStore *)

Definition http_insert_user (req : InsertMessage) : PProc (result InsertResult StoreError) :=
  fetch POST "/api/v1/message/user" (insert_body req []) id insert_result.

Definition http_insert_group (req : InsertMessage) (members : list string) : PProc (result InsertResult StoreError) :=
  fetch POST "/api/v1/message/group" (insert_body req members) id insert_result.

Definition http_ack (app account target_id : string) (message_ids : list Z) : PProc (result unit StoreError) :=
  let body :=
    if pending_receipt then mkAckMessageReq account 0 message_ids target_id app
    else mkAckMessageReq account (default 0 (head message_ids)) [] "" "" in
  post "/api/v1/message/ack" body id.

Definition http_offline_index (app account target_id : string) (message_id : Z) (resume : bool)
  : PProc (result (list MessageIndexRow * bool) StoreError) :=
  let body :=
    if pending_receipt then mkOfflineIndexReq account message_id target_id app resume
    else mkOfflineIndexReq account message_id "" "" false in
  fetch POST "/api/v1/offline/index" body id
    (fun resp => (List.map row_from_pb (iresp_indexes resp), iresp_has_more resp)).

Definition http_backfill_delivery (app account target_id : string) : PProc (result unit StoreError) :=
  if negb pending_receipt then Ret (Ok tt)
  else post "/api/v1/delivery/backfill" (mkDeliveryBackfillReq app account target_id) id.

Definition http_offline_content (app account : string) (message_ids : list Z)
  : PProc (result (list MessageContentRow) StoreError) :=
  fetch POST "/api/v1/offline/content" (mkMessageContentReq message_ids account app) id
    (fun resp => List.map content_from_pb (cresp_messages resp)).

Definition http_inbox (account : string) (limit : Z) : PProc (result (list InboxEntry) StoreError) :=
  fetch POST "/api/v1/inbox" (mkInboxQuery account limit) id (fun resp => omap inbox_from_pb (inbox_resp_items resp)).

Definition http_history (account dest : string) (kind : MessageKind) (before_id limit : Z)
  : PProc (result (list HistoryEntry) StoreError) :=
  fetch POST "/api/v1/history" (mkHistoryQuery account dest (kind_number kind) before_id limit) id
    (fun resp => List.map history_from_pb (history_resp_messages resp)).

Definition http_mark_read (account dest : string) (kind : MessageKind) (message_id : Z)
  : PProc (result ConversationReadState StoreError) :=
  fetch POST "/api/v1/inbox/read" (mkConversationRead account dest (kind_number kind) message_id) id
    (fun proto => state_from_pb
       (if str_is_empty (pb_conversation_read_state_dest proto) then dest else pb_conversation_read_state_dest proto)
       (default kind (parse_kind (pb_conversation_read_state_kind proto))) proto).

Definition http_conversation_states (account : string) (keys : list ConversationStateKey)
  : PProc (result (list ConversationReadState) StoreError) :=
  fetch POST "/api/v1/inbox/states"
    (mkConversationStatesQuery account
       (List.map (fun k => mkPbConversationStateKey (ck_dest k) (kind_number (ck_kind k))) keys)) id
    (fun resp => List.map (fun proto => state_from_pb (pb_conversation_read_state_dest proto)
       (default User (parse_kind (pb_conversation_read_state_kind proto))) proto) (conversation_states_resp_states resp)).

Definition http_insert_bot_reply (owner bot : string) (in_reply_to : Z) (req : InsertMessage)
  : PProc (result InsertResult StoreError) :=
  fetch POST "/api/v1/bot/reply" (mkBotReplyStoreReq owner bot in_reply_to (Some (insert_body req []))) id insert_result.

Definition http_bot_pending (owner bot : string) (limit : Z) : PProc (result (list BotPendingItem) StoreError) :=
  fetch POST "/api/v1/bot/pending" (mkBotPendingQuery owner bot limit) id
    pending_items.

Definition http_purge_peer_dm (account peer : string) : PProc (result unit StoreError) :=
  post "/api/v1/message/purge-dm" (mkAccountPair account peer) id.

(** ** HttpGroupDirectory *)

Definition http_group_create (app : string) (req : CreateGroup) : PProc (result string GroupError) :=
  fetch POST "/api/v1/group"
    (mkInternalGroupCreate app (cg_name req) (cg_avatar req) (cg_introduction req) (cg_owner req) (cg_members req)) group_err
    group_create_resp_group_id.

Definition http_group_members (app group_id : string) : PProc (result (list string) GroupError) :=
  fetch POST "/api/v1/group/members" (mkInternalGroupQuery app group_id) group_err group_members_resp_members.

Definition http_group_join (app group_id account : string) : PProc (result unit GroupError) :=
  post "/api/v1/group/member" (mkInternalGroupMember app group_id account) group_err.

Definition http_group_quit (app group_id account : string) : PProc (result unit GroupError) :=
  post "/api/v1/group/quit" (mkInternalGroupMember app group_id account) group_err.

Definition http_group_detail (app group_id : string) : PProc (result GroupInfo GroupError) :=
  fetch POST "/api/v1/group/detail" (mkInternalGroupQuery app group_id) group_err
    (fun resp => mkGroupInfo (group_detail_group_id resp) (group_detail_name resp) (group_detail_avatar resp)
       (group_detail_introduction resp) (group_detail_owner resp) (group_detail_members resp)).

Definition http_group_summaries (app : string) (group_ids : list string) : PProc (result (list GroupSummary) GroupError) :=
  match group_ids with
  | [] => Ret (Ok [])
  | _ =>
    fetch POST "/api/v1/group/summaries" (mkGroupListReq app group_ids) group_err
      (fun resp => List.map (fun g => mkGroupSummary (pb_group_summary_group_id g) (pb_group_summary_name g)
         (pb_group_summary_avatar g)) (group_list_resp_groups resp))
  end.

(** ** HttpUserDirectory *)

Definition http_upsert (account : string) : PProc (result unit UserError) :=
  post "/internal/user/upsert" (mkAccountQuery account) user_err.

Definition http_exists (account : string) : PProc (result bool UserError) :=
  fetch POST "/internal/user/lookup" (mkAccountQuery account) user_err account_exists_exists.

Definition http_profile (account : string) : PProc (result (option UserProfile) UserError) :=
  resp ← send_pb p deadline POST "/api/v1/user/profile" (mkAccountQuery account);
  Ret (match resp with
       | Ok profile => Ok (Some (from_pb_profile profile))
       | Err (Http status msg) => if status =? 404 then Ok None else Err (user_err (Http status msg))
       | Err e => Err (user_err e)
       end).

Definition http_update_profile (account : string) (patch : ProfilePatch) : PProc (result UserProfile UserError) :=
  fetch POST "/api/v1/user/update" (mkProfileUpdateReq account (pp_nickname patch) (pp_avatar patch) (pp_bio patch)) user_err
    from_pb_profile.

Definition http_profiles (accounts : list string) : PProc (result (list UserProfile) UserError) :=
  match accounts with
  | [] => Ret (Ok [])
  | _ => fetch POST "/api/v1/user/profiles" (mkAccountList accounts) user_err
           (fun resp => List.map from_pb_profile (user_list_resp_users resp))
  end.

(** [limit]: a [usize]; one that is no [i32] becomes 20. *)
Definition http_search (query : string) (exclude : list string) (limit : Z) : PProc (result (list UserProfile) UserError) :=
  fetch POST "/api/v1/user/search" (mkUserSearchQuery query exclude (if limit <=? i32_max then limit else 20)) user_err
    (fun resp => List.map from_pb_profile (user_search_resp_users resp)).

(** What only royal does. *)
Definition royal_only {A} (what : string) : PProc (result A UserError) := Ret (Err (UserBackend (what ++ " is royal-only")%string)).
Definition http_create (account password_hash : string) : PProc (result unit UserError) := royal_only "create".
Definition http_password_hash (account : string) : PProc (result (option string) UserError) := royal_only "password_hash".
Definition http_set_password (account password_hash : string) : PProc (result unit UserError) := royal_only "set_password".
Definition http_token_epoch (account : string) : PProc (result Z UserError) := royal_only "token_epoch".
Definition http_bump_token_epoch (account : string) : PProc (result Z UserError) := royal_only "bump_token_epoch".
Definition http_set_password_and_bump_epoch (account password_hash : string) : PProc (result Z UserError) :=
  royal_only "set_password_and_bump_epoch".
Definition http_count_bots (owner : string) : PProc (result Z UserError) := royal_only "count_bots".

(** A record, or the complaint that the answer has none. *)
Definition fetch_bot {B} `{Message B} (path : string) (body : B) (missing : string) : PProc (result BotRecord UserError) :=
  resp ← send_pb p deadline POST path body;
  Ret (match map_err user_err resp with Ok resp => bot_record resp missing | Err e => Err e end).

Definition http_create_bot (req : CreateBot) : PProc (result BotRecord UserError) :=
  fetch_bot "/api/v1/bot"
    (mkInternalBotCreate (cb_owner req) (cb_client_profile_id req) (cb_nickname req) (cb_avatar req) (cb_bio req) (cb_model req)
       (cb_thinking_effort req) (cb_context_tokens req) (cb_visibility req)) "bot create missing profile".

Definition http_update_bot (owner account : string) (patch : BotPatch) : PProc (result BotRecord UserError) :=
  fetch_bot "/api/v1/bot/update"
    (mkInternalBotUpdate owner account (bp_nickname patch) (bp_avatar patch) (bp_bio patch) (bp_model patch)
       (bp_thinking_effort patch) (bp_context_tokens patch) (bp_visibility patch)) "bot update missing profile".

Definition http_bot_config (owner account : string) : PProc (result BotConfig UserError) :=
  fetch POST "/api/v1/bot/config" (mkInternalBotConfig owner account None) user_err
    (fun resp => from_pb_config (internal_bot_config_config resp)).

Definition http_delete_bot (owner account : string) : PProc (result unit UserError) :=
  fetch DELETE "/api/v1/bot" (mkAccountPair owner account) user_err (fun _ : AccountExists => tt).

Definition http_lookup (account : string) : PProc (result (option UserPresence) UserError) :=
  fetch POST "/internal/user/lookup" (mkAccountQuery account) user_err presence_from_pb.

Definition http_bot_owner (account : string) : PProc (result (option string) UserError) :=
  found ← http_lookup account;
  Ret (map_ok (fun found => p ← found;
    if (up_kind p =? PROFILE_KIND_BOT) && negb (str_is_empty (up_owner_account p)) then Some (up_owner_account p) else None) found).

(** ** HttpSocialDirectory *)

Definition pair_op (path account peer : string) : PProc (result unit SocialError) := post path (mkAccountPair account peer) social_err.

Definition http_friend_request (from to : string) : PProc (result FriendRequestOutcome SocialError) :=
  fetch POST "/api/v1/friend/request" (mkAccountPair from to) social_err outcome_from_pb.
Definition http_accept (account from : string) : PProc (result unit SocialError) := pair_op "/api/v1/friend/accept" account from.
Definition http_reject (account from : string) : PProc (result unit SocialError) := pair_op "/api/v1/friend/reject" account from.
Definition http_remove (account peer : string) : PProc (result unit SocialError) := pair_op "/api/v1/friend/remove" account peer.
Definition http_block (account peer : string) : PProc (result unit SocialError) := pair_op "/api/v1/block/add" account peer.
Definition http_unblock (account peer : string) : PProc (result unit SocialError) := pair_op "/api/v1/block/remove" account peer.
Definition http_list_friends (account : string) : PProc (result (list string) SocialError) :=
  fetch POST "/api/v1/friend/list" (mkAccountQuery account) social_err account_list_accounts.
Definition http_incoming (account : string) : PProc (result (list string) SocialError) :=
  fetch POST "/api/v1/friend/incoming" (mkAccountQuery account) social_err account_list_accounts.
Definition http_list_blocked (account : string) : PProc (result (list string) SocialError) :=
  fetch POST "/api/v1/block/list" (mkAccountQuery account) social_err account_list_accounts.
Definition http_is_friend (a b : string) : PProc (result bool SocialError) :=
  fetch POST "/api/v1/friend/check" (mkAccountPair a b) social_err account_exists_exists.
Definition http_is_blocked_either (a b : string) : PProc (result bool SocialError) :=
  fetch POST "/api/v1/block/check" (mkAccountPair a b) social_err account_exists_exists.
Definition http_ensure_friends (a b : string) : PProc (result unit SocialError) := Ret (Ok tt).

(** ** HttpAgentSpecStore *)

Definition http_spec_list (owner : string) : PProc (result (list AgentSpecRecord) AgentSpecError) :=
  fetch POST "/api/v1/agent/spec/sync" (mkInternalAgentSpecQuery owner) spec_err
    (fun resp => List.map record_from_pb (agent_spec_sync_resp_records resp)).
Definition http_spec_accounts (owner : string) : PProc (result (list AgentProviderAccount) AgentSpecError) :=
  fetch POST "/api/v1/agent/spec/sync" (mkInternalAgentSpecQuery owner) spec_err
    (fun resp => List.map account_from_pb (agent_spec_sync_resp_accounts resp)).
Definition http_spec_upsert (owner : string) (rec : AgentSpecRecord) : PProc (result AgentSpecRecord AgentSpecError) :=
  resp ← send_pb p deadline POST "/api/v1/agent/spec/upsert" (mkInternalAgentSpecUpsert owner (Some (record_to_pb rec)) None);
  Ret (match map_err spec_err resp with
       | Ok resp =>
         match agent_spec_upsert_resp_record resp with
         | Some r => Ok (record_from_pb r)
         | None => Err (SpecBackend "upsert missing record")
         end
       | Err e => Err e
       end).
Definition http_spec_upsert_account (owner : string) (rec : AgentProviderAccount)
  : PProc (result AgentProviderAccount AgentSpecError) :=
  fetch POST "/api/v1/agent/spec/upsert" (mkInternalAgentSpecUpsert owner None (Some (account_to_pb rec))) spec_err
    (fun _ : AgentSpecUpsertResp => rec).
End stores.
