(* ===== verification/RoyalNet.v ===== *)
(** Calls to the royal service over a network that may lose them.

    [over_network] replaces every request of a call by what becomes of it: it is lost,
    or the service executes it, and then the answer, or its body, may be lost.
    [attempts] is the promise of such calls, at least once and at most three times;
    [net_attempts] shows it for every call of the pool. *)

From S2P Require Import Prelude Prog Wire Pkt Msgs RoyalMsgs Location SessionStore Store Social Groups Users Interest AgentStore.
From S2P Require Import Effects Gateway Container Hmac RoyalPool RoyalServer RoyalAuth RoyalHttp.
Open Scope Z_scope.
Open Scope kim_scope.

(** ** Programs by what they can do *)

(** Every execution of [p] is one of [q]. *)
Definition refines {E : Type -> Type} {A} (p q : Prog E A) : Prop := forall tr a, exec p tr a -> exec q tr a.

#[export] Instance refines_preorder {E : Type -> Type} {A} : PreOrder (@refines E A).
Proof. split; [by intros p tr a|]. intros p q r Hpq Hqr tr a He. by apply Hqr, Hpq. Qed.

Section refines.
Context {E : Type -> Type}.

Lemma refines_vis {A X} (e : E X) (k k' : X -> Prog E A) : (forall x, refines (k x) (k' x)) -> refines (Vis e k) (Vis e k').
Proof. intros Hk tr a (x & tr' & -> & He)%exec_inv. constructor. by apply Hk. Qed.

Lemma refines_bind {A B} (p q : Prog E A) (f f' : A -> Prog E B) :
  refines p q -> (forall a, refines (f a) (f' a)) -> refines (p ≫= f) (q ≫= f').
Proof.
  intros Hp Hf tr b (tr1 & a & tr2 & -> & H1 & H2)%exec_bind_inv. apply Hp in H1. apply Hf in H2.
  clear Hp Hf p f. induction H1 as [a|X e k x tr a H1 IH]; [done|]. cbn. constructor. by apply IH.
Qed.
End refines.

(** ** The network *)

Inductive Fate : Type :=
| Delivered
| RequestLost (msg : string)
| AnswerLost (msg : string)
| BodyLost (msg : string).

Inductive NetEff : Type -> Type :=
| NPool {X} (e : PoolEff X) : NetEff X
| NSrv {X} (e : SrvEff X) : NetEff X
| NFate : NetEff Fate.

Abbreviation NProc := (Prog NetEff).
Abbreviation SEvent := (EventOf SrvEff).

Fixpoint at_server {A} (p : SProc A) : NProc A :=
  match p with Ret a => Ret a | Vis e k => Vis (NSrv e) (fun x => at_server (k x)) end.

Section network.
Context (service : HttpRequest -> SProc (Z * bytes)).

(** What becomes of a request. *)
Definition carried (req : HttpRequest) : NProc HttpAnswer :=
  fate ← call NFate;
  match fate with
  | RequestLost m => Ret (Err m)
  | Delivered => a ← at_server (service req); Ret (Ok (a.1, Ok a.2))
  | AnswerLost m => _ ← at_server (service req); Ret (Err m)
  | BodyLost m => a ← at_server (service req); Ret (Ok (a.1, Err m))
  end.

Fixpoint over_network {A} (p : PProc A) : NProc A :=
  match p with
  | Ret a => Ret a
  | Vis e k =>
    match e in PoolEff X return (X -> NProc A) -> NProc A with
    | PSend c timeout req => fun k => carried req ≫= k
    | e => fun k => Vis (NPool e) k
    end (fun x => over_network (k x))
  end.

(** What the service did. *)
Definition served_event (ev : EventOf NetEff) : list SEvent :=
  match ev with @Ev _ X e x => match e in NetEff X return X -> list SEvent with
  | NSrv e => fun x => [Ev e x]
  | _ => fun _ => []
  end x end.
Definition served (tr : list (EventOf NetEff)) : list SEvent := flat_map served_event tr.

Lemma served_app tr tr' : served (tr ++ tr') = served tr ++ served tr'.
Proof. apply flat_map_app. Qed.

Lemma at_server_exec {A} (p : SProc A) tr a : exec (at_server p) tr a -> exec p (served tr) a.
Proof.
  revert tr. induction p as [b|X e k IH]; intros tr He.
  - apply exec_inv in He as [-> ->]. constructor.
  - apply exec_inv in He as (x & tr' & -> & He). cbn. constructor. by apply IH.
Qed.

(** A request, its answer, and what the service did for it. *)
Definition executed (req : HttpRequest) (a : HttpAnswer) (t : list SEvent) : Prop :=
  (t = [] /\ exists m, a = Err m) \/
  exists status body, exec (service req) t (status, body) /\
    (a = Ok (status, Ok body) \/ exists m, a = Err m \/ a = Ok (status, Err m)).

Lemma carried_exec req tr a : exec (carried req) tr a -> executed req a (served tr).
Proof.
  intros (fate & tr' & -> & He)%exec_call_inv. destruct fate as [|m|m|m].
  2:{ apply exec_inv in He as [-> ->]. left. eauto. }
  all: apply exec_bind_inv in He as (tr1 & [status body] & tr2 & -> & H1 & H2);
    apply exec_inv in H2 as [-> ->]; apply at_server_exec in H1; right; exists status, body;
    rewrite app_nil_r; (split; [exact H1|]); eauto.
Qed.

Definition explains {A} (p : PProc A) (tr : list (EventOf NetEff)) (a : A) : Prop :=
  exists ptr ts, exec p ptr a /\ served tr = concat ts /\ Forall2 (fun s t => executed s.1.2 s.2 t) (sends ptr) ts.

Lemma explains_pool {A X} (e : PoolEff X) (k : X -> PProc A) tr a :
  (forall x, sent_of (Ev e x) = []) -> (forall x tr, exec (over_network (k x)) tr a -> explains (k x) tr a) ->
  exec (Vis (NPool e) (fun x => over_network (k x))) tr a -> explains (Vis e k) tr a.
Proof.
  intros He IH (x & tr' & -> & Hx)%exec_inv. apply IH in Hx as (ptr & ts & H1 & H2 & H3).
  exists (Ev e x :: ptr), ts. split_and!; [by constructor|exact H2|].
  unfold sends. cbn [flat_map]. by rewrite He.
Qed.

(** A call over the network is a call to which the network gave the answers. *)
Lemma over_network_exec {A} (p : PProc A) tr a : exec (over_network p) tr a -> explains p tr a.
Proof.
  revert tr. induction p as [b|X e k IH]; intros tr He.
  { apply exec_inv in He as [-> ->]. exists [], []. by repeat constructor. }
  destruct e; cbn [over_network] in He; 
    try (apply (explains_pool _ k tr a); [by intros|intros x tr'; apply IH|exact He]).
  apply exec_bind_inv in He as (tr1 & x & tr2 & -> & H1 & H2). apply carried_exec in H1.
  apply IH in H2 as (ptr & ts & H2 & H3 & H4). exists (Ev (PSend c timeout req) x :: ptr), (served tr1 :: ts).
  split_and!; [by constructor|by rewrite served_app, H3|]. by constructor.
Qed.
End network.

(** ** At least once *)

(** Clock readings and nonce claims are the signature check's; the rest is what the
    service is asked for. *)
Definition substantial (ev : SEvent) : bool :=
  match ev with Ev e _ => match e with SNow | SClaimNonce _ => false | _ => true end end.
Definition visible (tr : list SEvent) : list SEvent := List.filter substantial tr.

Lemma visible_app tr tr' : visible (tr ++ tr') = visible tr ++ visible tr'.
Proof. apply List.filter_app. Qed.

(** The failures of a call that no handler had a part in. *)
Definition unserved (e : StoreError) : Prop :=
  match e with Backend _ => True | Http status _ => status = 401 \/ status = 413 \/ status = 503 | _ => False end.

(** [attempts svc fail n l x]: a call that may still make [n] requests ends in [x],
    and the service does [l] meanwhile.  [svc] is the operation at the service, with
    the status and the result its answer stands for. *)
Section attempts.
Context {X : Type} (svc : SProc (Z * X)) (fail : StoreError -> X).

Inductive attempts : nat -> list SEvent -> X -> Prop :=
| at_unserved n e : unserved e -> attempts n [] (fail e)
| at_answer n t status x : exec svc t (status, x) -> attempts (S n) (visible t) x
| at_again n t status x l y :
    exec svc t (status, x) -> retry_http status = true -> attempts n l y -> attempts (S n) (visible t ++ l) y
| at_unheard n t status x l y : exec svc t (status, x) -> attempts n l y -> attempts (S n) (visible t ++ l) y
| at_lost n l y : attempts n l y -> attempts (S n) l y.
End attempts.

Section calls.
Context `{Prost, RoyalProst, DecodeText, Jwt, HmacSha256} (sha256 : bytes -> bytes) (au : AuthState).
Let service := royal_service sha256 au.

(** What a request at a known path comes to: a refusal by the signature check, or an
    execution of its handler. *)
Lemma royal_service_exec req handler t status body :
  route sha256 au (hr_method req) (hr_path req) = Some handler -> exec (service req) t (status, body) ->
  (visible t = [] /\ (status = 401 \/ status = 413 \/ status = 503)) \/
  exists t' r, visible t = visible t' /\ exec (handler (hr_body req)) t' r /\ (status, body) = answered (hr_path req) r.
Proof.
  intros Hr He. unfold service, royal_service in He. rewrite Hr in He.
  apply exec_bind_inv in He as (t1 & checked & t2 & -> & Hx1 & Hx2).
  assert (Hc : visible t1 = [] /\ match checked with Ok _ => True | Err e => e.1 = 401 \/ e.1 = 413 \/ e.1 = 503 end).
  { revert Hx1. apply (sat_exec (require_hmac au req) (fun t1 checked => visible t1 = [] /\
      match checked with Ok _ => True | Err e => e.1 = 401 \/ e.1 = 413 \/ e.1 = 503 end)).
    unfold require_hmac. destruct (_ <? _); [cbn; auto|]. apply sat_call. intros now.
    destruct (negb _); [cbn; auto|]. apply sat_call. intros [[|]|e]; cbn; auto. }
  destruct Hc as [Ht Hc]. destruct checked as [u|[st text]].
  - apply exec_bind_inv in Hx2 as (t3 & r & t4 & -> & Hx3 & Hx4). apply exec_inv in Hx4 as [-> Ha].
    right. exists t3, r. rewrite app_nil_r, visible_app, Ht. done.
  - apply exec_inv in Hx2 as [-> Ha]. injection Ha as -> ->. left. by rewrite app_nil_r.
Qed.

(** A call of the pool whose result [finish] and [post] make of the answer. *)
Section one_call.
Context {A X : Type} (p : RoyalPool) (deadline : option Z) (method : Method) (path : string) (payload : bytes)
  (finish : bytes -> result A (RpcCause * StoreError)) (post : result A StoreError -> X) (handler : Handler)
  (svc : SProc (Z * X)).

(** What the caller makes of a status and a body. *)
Definition view (a : Z * bytes) : Z * X :=
  (a.1, post (if is_success a.1 then drop_cause (finish a.2) else Err (http_status_err a.1 a.2))).

Context (Hroute : route sha256 au method path = Some handler)
  (Hsvc : refines (r ← handler payload; Ret (view (answered path r))) svc).

Lemma svc_exec t r : exec (handler payload) t r -> exec svc t (view (answered path r)).
Proof.
  intros He. apply Hsvc. clear Hsvc Hroute. induction He as [r|Y e k x t r He IH]; [constructor|]. cbn. by constructor.
Qed.

Lemma executed_answer req status body t : the_request method path payload req ->
  executed service req (Ok (status, Ok body)) t ->
  (visible t = [] /\ (status = 401 \/ status = 413 \/ status = 503)) \/
  exists t', visible t = visible t' /\ exec svc t' (view (status, body)).
Proof.
  intros (Hm & Hp & Hb) [[_ [m Hx]]|(st & b & He & Ha)]; [done|].
  assert (E : st = status /\ b = body) by (destruct Ha as [Ha|[m [Ha|Ha]]]; by simplify_eq). destruct E as [-> ->].
  apply (royal_service_exec req handler) in He; [|by rewrite Hm, Hp]. destruct He as [Hv|(t' & r & Hv & He & Ha')]; [by left|].
  right. exists t'. split; [done|]. rewrite Hb in He. rewrite Hp in Ha'. rewrite Ha'. by apply svc_exec.
Qed.

Lemma executed_any req a t : the_request method path payload req -> executed service req a t ->
  visible t = [] \/ exists t' status x, visible t = visible t' /\ exec svc t' (status, x).
Proof.
  intros Hreq [[-> _]|(st & b & He & _)]; [by left|].
  destruct (executed_answer req st b t Hreq) as [[Hv _]|(t' & Hv & He')]; [right; eauto|by left|].
  right. exists t', (view (st, b)).1, (view (st, b)).2. by destruct (view (st, b)).
Qed.

Let fail (e : StoreError) : X := post (Err e).

Lemma outcome_attempts n last l r : outcome finish n last l r -> forall ss ts,
  l = List.map snd ss -> Forall (fun s : nat * HttpRequest * HttpAnswer => the_request method path payload s.1.2) ss ->
  Forall2 (fun s t => executed service s.1.2 s.2 t) ss ts ->
  (ts = [] /\ r = Err last) \/ attempts svc fail n (visible (concat ts)) (post (drop_cause r)).
Proof.
  induction 1 as [n last|n last cause m Hc|n last status buf Hok|n last status buf Hok Hre|n last a failure l r Ha Ho IH];
    intros ss ts El Hreq Hex.
  - left. destruct ss; [|done]. by apply Forall2_nil_inv_l in Hex as ->.
  - right. destruct ss; [|done]. apply Forall2_nil_inv_l in Hex as ->. by apply (at_unserved _ fail _ (Backend m)).
  - right. destruct ss as [|[req0 a] [|]]; [done| |done]. cbn in El. injection El as <-.
    apply list.Forall_cons in Hreq as [Hreq _]. apply Forall2_cons_inv_l in Hex as (t & ts' & Hex & Hnil & ->).
    apply Forall2_nil_inv_l in Hnil as ->. cbn [concat]. rewrite app_nil_r.
    destruct (executed_answer _ _ _ _ Hreq Hex) as [[_ Hs]|(t' & -> & He)].
    { exfalso. by destruct_or!; subst. }
    eapply at_answer. unfold view in He. cbn [fst snd] in He. rewrite Hok in He. exact He.
  - right. destruct ss as [|[req0 a] [|]]; [done| |done]. cbn in El. injection El as <-.
    apply list.Forall_cons in Hreq as [Hreq _]. apply Forall2_cons_inv_l in Hex as (t & ts' & Hex & Hnil & ->).
    apply Forall2_nil_inv_l in Hnil as ->. cbn [concat]. rewrite app_nil_r.
    destruct (executed_answer _ _ _ _ Hreq Hex) as [[Hv Hs]|(t' & -> & He)].
    { rewrite Hv. by apply (at_unserved _ fail _ (http_status_err status buf)). }
    eapply at_answer. unfold view in He. cbn [fst snd] in He. rewrite Hok in He. exact He.
  - right. destruct ss as [|[req0 a0] ss]; [done|]. cbn in El. injection El as -> El.
    apply list.Forall_cons in Hreq as [Hreq Hrest]. apply Forall2_cons_inv_l in Hex as (t & ts' & Hex & Hex' & ->).
    specialize (IH ss ts' El Hrest Hex'). cbn [concat]. rewrite visible_app. cbn [fst snd] in Hreq, Hex.
    assert (Hunheard : forall m, failure = (Transport, Backend m) ->
      attempts svc fail (S n) (visible t ++ visible (concat ts')) (post (drop_cause r))).
    { intros m ->. assert (Hnext : attempts svc fail n (visible (concat ts')) (post (drop_cause r))).
      { destruct IH as [[-> ->]|IH]; [|done]. by apply (at_unserved _ fail _ (Backend m)). }
      destruct (executed_any _ _ _ Hreq Hex) as [->|(t' & st & x & -> & He)]; [by apply at_lost|by eapply at_unheard]. }
    destruct a0 as [[status [buf|e]]|e]; cbn [failed] in Ha; [|injection Ha as <-; by eapply Hunheard..].
    destruct (is_success status) eqn:Hok; [done|]. destruct (retry_http status) eqn:Hre; [|done]. injection Ha as <-.
    destruct (executed_answer _ _ _ _ Hreq Hex) as [[_ Hs]|(t' & -> & He)].
    { exfalso. by destruct_or!; subst. }
    unfold view in He. cbn [fst snd] in He. rewrite Hok in He.
    destruct IH as [[-> ->]|IH]; [|by eapply at_again]. cbn [concat]. rewrite app_nil_r. by eapply at_answer.
Qed.

(** A program that makes such a call. *)
Lemma net_attempts (prog : PProc X) tr x :
  sat prog (fun ptr x => exists out, outcome finish RETRIES request_failed (answers ptr) out /\
    Forall (fun s => the_request method path payload s.1.2) (sends ptr) /\ x = post (drop_cause out)) ->
  exec (over_network service prog) tr x -> attempts svc fail RETRIES (visible (served tr)) x.
Proof.
  intros Hs (ptr & ts & He & -> & Hex)%over_network_exec. destruct (sat_exec _ _ _ _ Hs He) as (out & Ho & Hreq & ->).
  destruct (outcome_attempts _ _ _ _ Ho (sends ptr) ts eq_refl Hreq Hex) as [[-> ->]|Ha]; [|done].
  by apply (at_unserved _ fail _ (Backend "royal request failed")).
Qed.
End one_call.
End calls.
