(* ===== verification/RoyalRefine.v ===== *)
(** The remote stores are the stores of the service.

    [royal_op e prog fail svc] tells of a call [e] of the handlers which program of
    RoyalClient.v makes it, and what the service does for it: [svc], a program over
    the stores of the service, without requests, encodings and status lines.  One lemma
    per group of operations shows that the request finds its handler and that the
    handler, on the encoded request, does what this table says; RoyalStore.v puts
    them together: over any network, a remote call is at most three executions of
    [svc], and what it answers is what one of them answered. *)

From S2P Require Import Prelude Prog Wire Pkt Msgs Location SessionStore Store Social Groups Users Interest.
From S2P Require Import AgentStore Effects InboxCmds BotCmds Gateway Container RoyalMsgs Hmac RoyalPool.
From S2P Require Import RoyalServer RoyalAuth RoyalHttp RoyalClient RoyalNet.
Open Scope Z_scope.
Open Scope kim_scope.

(** ** What a caller sees of an answer *)

(** A failed store operation, as the text of an answer carries it. *)
Definition failure_of (e : HttpErr) : StoreError := http_status_err e.1 (bytes_of e.2).

(** An answer of the service as the client takes it.  [dec] would read a body under
    a status that is a success but comes with an error; only a store of the service
    that is remote itself could give one. *)
Definition reply {A X} (post : result A StoreError -> X) (dec : bytes -> result A (RpcCause * StoreError)) (ok : Z)
  (r : result A HttpErr) : Z * X :=
  match r with
  | Ok a => (ok, post (Ok a))
  | Err e => (e.1, post (if is_success e.1 then drop_cause (dec (bytes_of e.2)) else Err (failure_of e)))
  end.
Definition no_body {A} (buf : bytes) : result A (RpcCause * StoreError) := Err (DecodeCause, Backend "").
Definition serving {A X} (post : result A StoreError -> X) (p : SProc (result A HttpErr)) : SProc (Z * X) :=
  r ← p; Ret (reply post no_body 200 r).
(** Where the error is a store's own status, read back under it. *)
Definition serving_any {A X} (post : result A StoreError -> X) (dec : bytes -> result A (RpcCause * StoreError))
  (p : SProc (result A HttpErr)) : SProc (Z * X) :=
  r ← p; Ret (reply post dec 200 r).

Definition inbox_seen (e : InboxEntry) : InboxEntry :=
  mkInboxEntry (ie_dest e) (ie_kind e) (ie_last_message_id e) (ie_last_send_time e) (ie_last_body e) (ie_last_sender e) 0
    (ie_unread e) (ie_last_read_message_id e) (Z.max (ie_max_message_id e) (ie_last_message_id e)) (ie_state_version e).
Definition mark_seen (dest : string) (s : ConversationReadState) : ConversationReadState :=
  mkConversationReadState (if str_is_empty (cs_dest s) then dest else cs_dest s) (cs_kind s) (cs_last_read_message_id s)
    (cs_max_message_id s) (cs_unread s) (cs_version s) (cs_exists s).
Definition profile_seen (p : UserProfile) : UserProfile :=
  mkUserProfile (pf_account p) (pf_nickname p) (pf_avatar p) (pf_bio p) (profile_kind (pf_kind p)).
Definition config_seen (c : BotConfig) : BotConfig :=
  mkBotConfig (bc_model c) (bc_thinking_effort c) (bc_context_tokens c)
    (if str_is_empty (bc_visibility c) then BOT_VISIBILITY_PRIVATE else bc_visibility c).
Definition bot_seen (b : BotRecord) : BotRecord := mkBotRecord (profile_seen (br_profile b)) (config_seen (br_config b)).
Definition profile_reply (r : result UserProfile StoreError) : result (option UserProfile) UserError :=
  match r with
  | Ok profile => Ok (Some (profile_seen profile))
  | Err (Http status msg) => if status =? 404 then Ok None else Err (user_err (Http status msg))
  | Err e => Err (user_err e)
  end.
Definition presence_seen (p : option UserPresence) : option UserPresence :=
  p ← p; if up_exists p then Some (mkUserPresence true (profile_kind (up_kind p)) (up_owner_account p)) else None.
(** Friends already and friends now are one answer. *)
Definition outcome_seen (o : FriendRequestOutcome) : FriendRequestOutcome := match o with Sent => Sent | _ => AutoAccepted end.

(** The value as it is, or seen through [f], and the error mapped by [g]. *)
Definition through {A B E} (g : StoreError -> E) (f : A -> B) (r : result A StoreError) : result B E := map_ok f (map_err g r).

Section remote.
Context `{Prost, RoyalProst, DecodeText, Jwt, HmacSha256} (sha256 : bytes -> bytes) (au : AuthState).
Context (p : RoyalPool) (deadline : option Z) (receipts : bool).
Let st := au_state au.
Let app := rs_app st.
Let service := royal_service sha256 au.

(** ** One request *)

Section request.
Context {T B X : Type} `{Message T, Message B} (method : Method) (path : string) (body : B) (post : result T StoreError -> X)
  (handler : Handler) (svc : SProc (Z * X)).

Lemma send_pb_attempts tr x :
  route sha256 au method path = Some handler ->
  refines (r ← handler (encode_to_vec body); Ret (view decode_or post (answered path r))) svc ->
  exec (over_network service (resp ← send_pb p deadline method path body; Ret (post resp))) tr x ->
  attempts svc (fun e => post (Err e)) RETRIES (visible (served tr)) x.
Proof.
  intros Hr Hs. apply (net_attempts sha256 au method path (encode_to_vec body) decode_or post handler svc Hr Hs).
  unfold send_pb. apply sat_bind. eapply sat_bind_use; [apply attempt_loop_sat|]. intros tr1 out [Ho Hf].
  eapply sat_bind_use; [apply observe_rpc_quiet|]. intros tr2 u Hq2. cbn in Hq2. cbn [sat].
  exists out. unfold answers. rewrite !app_nil_r, sends_app, Hq2, app_nil_r. by split_and!.
Qed.
End request.

Lemma post_attempts {B E} `{Message B} path (body : B) (g : StoreError -> E) handler svc tr x :
  route sha256 au POST path = Some handler ->
  refines (r ← handler (encode_to_vec body); Ret (view (fun _ => Ok tt) (map_err g) (answered path r))) svc ->
  exec (over_network service (RoyalClient.post p deadline path body g)) tr x ->
  attempts svc (fun e => Err (g e)) RETRIES (visible (served tr)) x.
Proof.
  intros Hr Hs He.
  refine (net_attempts sha256 au POST path (encode_to_vec body) (fun _ => Ok tt) (map_err g) handler svc Hr Hs _ tr x _ He).
  unfold RoyalClient.post, post_maybe_empty, post_maybe_empty_inner, rpc. apply sat_bind. eapply sat_bind_use; [apply attempt_loop_sat|]. intros tr1 out [Ho Hf].
  eapply sat_bind_use; [apply observe_rpc_quiet|]. intros tr2 u Hq2. cbn in Hq2. cbn [sat].
  exists out. unfold answers. rewrite !app_nil_r, sends_app, Hq2, app_nil_r. by split_and!.
Qed.

(** ** The operations *)

(** The members a group message goes to, when the request names none. *)
Definition members_or_all (dest : string) (members : list string) : SProc (result (list string) HttpErr) :=
  if bool_decide (members = []) then asked (EMembers app dest) (fun e => backend (GroupError_text e)) else Ret (Ok members).

Definition with_app {A} (a : string) (q : SProc (result A HttpErr)) : SProc (result A HttpErr) := given (require_app a) (fun _ => q).

(** An operation on receipts, when the request says it is one. *)
Definition with_receipts {A} (a : string) (q : string -> SProc (result A HttpErr)) : SProc (result A HttpErr) :=
  if negb (rs_pending_receipt st) then Ret (Err pending_disabled) else given (resolve_req_app st a) q.

Inductive store_op : forall X : Type, Eff X -> PProc X -> (StoreError -> X) -> SProc (Z * X) -> Prop :=
| op_insert_user a req :
    store_op _ (EInsertUser a req) (http_insert_user p deadline req) Err
      (serving id (asked (EInsertUser app req) store_backend))
| op_insert_group a req members :
    store_op _ (EInsertGroup a req members) (http_insert_group p deadline req members) Err
      (serving id (let* members := members_or_all (im_dest req) members in asked (EInsertGroup app req members) store_backend))
| op_ack a account target ids :
    store_op _ (EAck a account target ids) (http_ack p deadline receipts a account target ids) Err
      (serving id
         (if receipts && (negb (str_is_empty target) || negb (bool_decide (ids = [])) || negb (str_is_empty a))
          then with_receipts a (fun a => asked (EAck a account target (collect_ack_ids 0 ids)) store_backend)
          else asked (EAck app account "" (collect_ack_ids (if receipts then 0 else default 0 (head ids)) [])) store_backend))
| op_offline_index a account target id0 resume :
    store_op _ (EOfflineIndex a account target id0 resume) (http_offline_index p deadline receipts a account target id0 resume) Err
      (serving id
         (if receipts && (negb (str_is_empty target) || resume || negb (str_is_empty a))
          then with_receipts a (fun a => asked (EOfflineIndex a account target id0 resume) store_backend)
          else asked (EOfflineIndex app account "" id0 false) store_backend))
| op_backfill a account target (Hreceipts : receipts = true) :
    store_op _ (EBackfill a account target) (http_backfill_delivery p deadline receipts a account target) Err
      (serving id (with_receipts a (fun a => asked (EBackfill a account target) store_backend)))
| op_offline_content a account ids :
    store_op _ (EOfflineContent a account ids) (http_offline_content p deadline a account ids) Err
      (serving id (if str_is_empty a || str_is_empty account then Ret (Err (BAD_REQUEST, "empty app or account"%string))
                   else asked (EOfflineContent a account ids) store_backend))
| op_inbox a account limit :
    store_op _ (EInbox a account limit) (http_inbox p deadline account limit) Err
      (serving (through id (List.map inbox_seen)) (asked (EInbox app account limit) store_backend))
| op_history a account dest kind before_id limit :
    store_op _ (EHistory a account dest kind before_id limit) (http_history p deadline account dest kind before_id limit) Err
      (serving id (asked (EHistory app account dest kind before_id limit) store_backend))
| op_mark_read a account dest kind message_id :
    store_op _ (EMarkRead a account dest kind message_id) (http_mark_read p deadline account dest kind message_id) Err
      (serving (through id (mark_seen dest)) (asked (EMarkRead app account dest kind message_id) store_backend))
| op_states a account keys :
    store_op _ (EStates a account keys) (http_conversation_states p deadline account keys) Err
      (serving id
         (if str_is_empty account then Ret (Err (BAD_REQUEST, "account"%string))
          else if 100 <? len keys then Ret (Err (BAD_REQUEST, "too many keys"%string))
          else if existsb (fun k => str_is_empty (ck_dest k)) keys then Ret (Err (BAD_REQUEST, "dest"%string))
          else asked (EStates app account keys) store_backend))
| op_bot_reply a owner bot in_reply_to req :
    store_op _ (EInsertBotReply a owner bot in_reply_to req) (http_insert_bot_reply p deadline owner bot in_reply_to req) Err
      (serving_any id (fun b => match decode_or b with Ok r => Ok (insert_result r) | Err e => Err e end)
         (asked (EInsertBotReply app owner bot in_reply_to req) store_http))
| op_bot_pending a owner bot limit :
    store_op _ (EBotPending a owner bot limit) (http_bot_pending p deadline owner bot limit) Err
      (serving_any id (fun b => match decode_or b with Ok r => Ok (pending_items r) | Err e => Err e end)
         (let* presence := asked (ELookup app bot) user_http in
          match presence with
          | Some q =>
            if negb (up_kind q =? PROFILE_KIND_BOT) then Ret (Err (NOT_FOUND, "not found"%string))
            else if negb (bool_decide (up_owner_account q = owner)) then Ret (Err (FORBIDDEN, "not bot owner"%string))
            else asked (EBotPending app owner bot limit) store_http
          | None => Ret (Err (NOT_FOUND, "not found"%string))
          end))
| op_purge a account peer :
    store_op _ (EPurge a account peer) (http_purge_peer_dm p deadline account peer) Err
      (serving_any id (fun _ => Ok tt) (asked (EPurge app account peer) store_http)).

Inductive group_op : forall X : Type, Eff X -> PProc X -> (StoreError -> X) -> SProc (Z * X) -> Prop :=
| op_group_create a req :
    group_op _ (EGroupCreate a req) (http_group_create p deadline a req) (fun e => Err (group_err e))
      (serving (map_err group_err) (with_app a (asked (EGroupCreate a req) group_http)))
| op_members a group :
    group_op _ (EMembers a group) (http_group_members p deadline a group) (fun e => Err (group_err e))
      (serving (map_err group_err) (with_app a (asked (EMembers a group) group_http)))
| op_group_join a group account :
    group_op _ (EGroupJoin a group account) (http_group_join p deadline a group account) (fun e => Err (group_err e))
      (serving (map_err group_err) (with_app a (asked (EGroupJoin a group account) group_http)))
| op_group_quit a group account :
    group_op _ (EGroupQuit a group account) (http_group_quit p deadline a group account) (fun e => Err (group_err e))
      (serving (map_err group_err) (with_app a (asked (EGroupQuit a group account) group_http)))
| op_group_detail a group :
    group_op _ (EGroupDetail a group) (http_group_detail p deadline a group) (fun e => Err (group_err e))
      (serving (map_err group_err) (with_app a (asked (EGroupDetail a group) group_http)))
| op_group_summaries a groups (Hgroups : groups <> []) :
    group_op _ (EGroupSummaries a groups) (http_group_summaries p deadline a groups) (fun e => Err (group_err e))
      (serving (map_err group_err)
         (with_app a
            (if GROUP_SUMMARIES_CAP <? len groups then Ret (Err (BAD_REQUEST, "too many group ids"%string))
             else asked (EGroupSummaries a groups) group_http))).

Definition lookup_at (account : string) : SProc (result (option UserPresence) HttpErr) :=
  if str_is_empty account then Ret (Err (BAD_REQUEST, "empty account"%string)) else asked (ELookup app account) user_http.

Inductive user_op : forall X : Type, Eff X -> PProc X -> (StoreError -> X) -> SProc (Z * X) -> Prop :=
| op_lookup a account :
    user_op _ (ELookup a account) (http_lookup p deadline account) (fun e => Err (user_err e))
      (serving (through user_err presence_seen) (lookup_at account))
| op_exists a account :
    user_op _ (EUserExists a account) (http_exists p deadline account) (fun e => Err (user_err e))
      (serving (through user_err (fun q => bool_decide (is_Some (presence_seen q)))) (lookup_at account))
| op_upsert a account :
    user_op _ (EUpsert a account) (http_upsert p deadline account) (fun e => Err (user_err e))
      (r ← (if str_is_empty account then Ret (Err (BAD_REQUEST, "empty account"%string)) else asked (EUpsert app account) user_http);
       Ret (reply (map_err user_err) no_body 204 r))
| op_profile a account :
    user_op _ (EProfile a account) (http_profile p deadline account) (fun e => profile_reply (Err e))
      (serving profile_reply
         (let* found := asked (EProfile app account) user_http in
          match found with Some q => Ret (Ok q) | None => Ret (Err (NOT_FOUND, "not found"%string)) end))
| op_update_profile a account patch :
    user_op _ (EUpdateProfile a account patch) (http_update_profile p deadline account patch) (fun e => Err (user_err e))
      (serving (through user_err profile_seen) (asked (EUpdateProfile app account patch) user_http))
| op_profiles a accounts (Haccounts : accounts <> []) :
    user_op _ (EProfiles a accounts) (http_profiles p deadline accounts) (fun e => Err (user_err e))
      (serving (through user_err (List.map profile_seen)) (asked (EProfiles app accounts) user_http))
| op_search a query exclude limit :
    user_op _ (ESearch a query exclude limit) (http_search p deadline query exclude limit) (fun e => Err (user_err e))
      (serving (through user_err (List.map profile_seen))
         (asked (ESearch app query exclude (if limit <=? i32_max then Z.max limit 0 else 20)) user_http))
| op_create_bot a req :
    user_op _ (ECreateBot a req) (http_create_bot p deadline req) (fun e => Err (user_err e))
      (serving (through user_err bot_seen) (asked (ECreateBot app req) user_http))
| op_update_bot a owner account patch :
    user_op _ (EUpdateBot a owner account patch) (http_update_bot p deadline owner account patch) (fun e => Err (user_err e))
      (serving (through user_err bot_seen) (asked (EUpdateBot app owner account patch) user_http))
| op_delete_bot a owner account :
    user_op _ (EDeleteBot a owner account) (http_delete_bot p deadline owner account) (fun e => Err (user_err e))
      (serving_any (map_err user_err) (fun b => match @decode_or _ AccountExists _ b with Ok _ => Ok tt | Err e => Err e end)
         (let* _ := asked (EDeleteBot app owner account) user_http in asked (EPurge app owner account) store_http)).

Definition pair_at (guarded : bool) (e : string -> string -> string -> Eff (result unit SocialError)) (account peer : string)
  : SProc (Z * result unit SocialError) :=
  serving (map_err social_err)
    (let* _ := (if guarded then reject_bot_social st account peer else Ret (Ok tt)) in asked (e app account peer) social_http).

Inductive social_op : forall X : Type, Eff X -> PProc X -> (StoreError -> X) -> SProc (Z * X) -> Prop :=
| op_friend_request a from to :
    social_op _ (EFriendRequest a from to) (http_friend_request p deadline from to) (fun e => Err (social_err e))
      (serving (through social_err outcome_seen)
         (let* _ := reject_bot_social st from to in asked (EFriendRequest app from to) social_http))
| op_accept a account from :
    social_op _ (EFriendAccept a account from) (http_accept p deadline account from) (fun e => Err (social_err e))
      (pair_at true EFriendAccept account from)
| op_reject a account from :
    social_op _ (EFriendReject a account from) (http_reject p deadline account from) (fun e => Err (social_err e))
      (pair_at false EFriendReject account from)
| op_remove a account peer :
    social_op _ (EFriendRemove a account peer) (http_remove p deadline account peer) (fun e => Err (social_err e))
      (pair_at true EFriendRemove account peer)
| op_block a account peer :
    social_op _ (EBlock a account peer) (http_block p deadline account peer) (fun e => Err (social_err e))
      (pair_at true EBlock account peer)
| op_unblock a account peer :
    social_op _ (EUnblock a account peer) (http_unblock p deadline account peer) (fun e => Err (social_err e))
      (pair_at true EUnblock account peer)
| op_list_friends a account :
    social_op _ (EListFriends a account) (http_list_friends p deadline account) (fun e => Err (social_err e))
      (serving (map_err social_err) (asked (EListFriends app account) social_http))
| op_incoming a account :
    social_op _ (EIncoming a account) (http_incoming p deadline account) (fun e => Err (social_err e))
      (serving (map_err social_err) (asked (EIncoming app account) social_http))
| op_list_blocked a account :
    social_op _ (EListBlocked a account) (http_list_blocked p deadline account) (fun e => Err (social_err e))
      (serving (map_err social_err) (asked (EListBlocked app account) social_http))
| op_is_friend a x y :
    social_op _ (EIsFriend a x y) (http_is_friend p deadline x y) (fun e => Err (social_err e))
      (serving (map_err social_err) (asked (EIsFriend app x y) social_http))
| op_blocked_either a x y :
    social_op _ (EBlockedEither a x y) (http_is_blocked_either p deadline x y) (fun e => Err (social_err e))
      (serving (map_err social_err) (asked (EBlockedEither app x y) social_http)).

Definition with_owner {A} (owner : string) (q : SProc (result A HttpErr)) : SProc (result A HttpErr) :=
  given (require_owner owner) (fun _ => q).
(** Both halves are read, whichever the caller wants. *)
Definition specs_at {A} (owner : string) (f : list AgentSpecRecord -> list AgentProviderAccount -> A) : SProc (result A HttpErr) :=
  with_owner owner
    (let* records := asked (ESpecs app owner) spec_http in
     let* accounts := asked (ESpecAccounts app owner) spec_http in Ret (Ok (f records accounts))).

Inductive spec_op : forall X : Type, Eff X -> PProc X -> (StoreError -> X) -> SProc (Z * X) -> Prop :=
| op_specs a owner :
    spec_op _ (ESpecs a owner) (http_spec_list p deadline owner) (fun e => Err (spec_err e))
      (serving (map_err spec_err) (specs_at owner (fun records _ => records)))
| op_spec_accounts a owner :
    spec_op _ (ESpecAccounts a owner) (http_spec_accounts p deadline owner) (fun e => Err (spec_err e))
      (serving (map_err spec_err) (specs_at owner (fun _ accounts => accounts)))
| op_spec_upsert a owner rec :
    spec_op _ (ESpecUpsert a owner rec) (http_spec_upsert p deadline owner rec) (fun e => Err (spec_err e))
      (serving (map_err spec_err) (with_owner owner (asked (ESpecUpsert app owner rec) spec_http)))
| op_spec_upsert_account a owner rec :
    spec_op _ (ESpecUpsertAccount a owner rec) (http_spec_upsert_account p deadline owner rec) (fun e => Err (spec_err e))
      (serving (through spec_err (fun _ => rec)) (with_owner owner (asked (ESpecUpsertAccount app owner rec) spec_http))).

Inductive royal_op : forall X : Type, Eff X -> PProc X -> (StoreError -> X) -> SProc (Z * X) -> Prop :=
| op_store X e prog fail svc : store_op X e prog fail svc -> royal_op X e prog fail svc
| op_group X e prog fail svc : group_op X e prog fail svc -> royal_op X e prog fail svc
| op_user X e prog fail svc : user_op X e prog fail svc -> royal_op X e prog fail svc
| op_social X e prog fail svc : social_op X e prog fail svc -> royal_op X e prog fail svc
| op_spec X e prog fail svc : spec_op X e prog fail svc -> royal_op X e prog fail svc.
End remote.

(** ** Bodies *)

Section bodies.
Context `{DecodeText}.
Lemma with_req_encoded {T} `{MessageOk T} (m : T) k : with_req (encode_to_vec m) k = k m.
Proof. unfold with_req, decode. by rewrite decode_encode_msg. Qed.
Lemma decode_or_encoded {T} `{MessageOk T} (m : T) : decode_or (encode_to_vec m) = Ok m.
Proof. unfold decode_or. by rewrite decode_encode_msg. Qed.
End bodies.

Lemma map_map_id {A B} (f : A -> B) (g : B -> A) l : (forall x, g (f x) = x) -> List.map g (List.map f l) = l.
Proof. intros Hg. rewrite List.map_map. rewrite <- (List.map_id l) at 2. apply List.map_ext. exact Hg. Qed.

Lemma len_map {A B} (f : A -> B) l : len (List.map f l) = len l.
Proof. unfold len. by rewrite List.length_map. Qed.

Lemma insert_result_encoded r : insert_result (encode_insert r) = r.
Proof. destruct r as [? ? ? [? ? ? ? ? [] ?]]; reflexivity. Qed.
Lemma insert_from_body req members : insert_from_req (insert_body req members) = req.
Proof.
  destruct req as [? ? ? ? ? ? c t]. unfold insert_from_req, insert_body. cbn.
  f_equal; [by destruct (str_is_empty c)|]. apply map_map_id. by intros [].
Qed.
Lemma parse_inbox_kind k : parse_kind (inbox_kind k) = Some k.
Proof. by destruct k. Qed.
Lemma parse_kind_number k : parse_kind (kind_number k) = Some k.
Proof. by destruct k. Qed.
Lemma rows_encoded rows : List.map row_from_pb (List.map row_to_pb rows) = rows.
Proof. apply map_map_id. by intros []. Qed.
Lemma contents_encoded rows : List.map content_from_pb (List.map content_to_pb rows) = rows.
Proof. apply map_map_id. by intros []. Qed.
Lemma history_encoded rows : List.map history_from_pb (List.map history_to_proto rows) = rows.
Proof. apply map_map_id. by intros []. Qed.
Lemma pending_encoded items : pending_items (mkBotPendingResp (List.map pending_to_pb items)) = items.
Proof. apply map_map_id. by intros []. Qed.
Lemma summaries_encoded rows :
  List.map (fun g => mkGroupSummary (pb_group_summary_group_id g) (pb_group_summary_name g) (pb_group_summary_avatar g))
    (List.map summary_to_pb rows) = rows.
Proof. apply map_map_id. by intros []. Qed.
Lemma record_encoded r : record_from_pb (record_to_pb r) = r.
Proof. by destruct r. Qed.
Lemma account_encoded a : account_from_pb (account_to_pb a) = a.
Proof. by destruct a. Qed.
Lemma records_encoded rs : List.map record_from_pb (List.map record_to_pb rs) = rs.
Proof. apply map_map_id, record_encoded. Qed.
Lemma accounts_encoded rs : List.map account_from_pb (List.map account_to_pb rs) = rs.
Proof. apply map_map_id, account_encoded. Qed.
Lemma inbox_encoded rows : omap inbox_from_pb (List.map to_inbox_item rows) = List.map inbox_seen rows.
Proof.
  induction rows as [|row rows IH]; [done|]. cbn [List.map omap list_omap].
  unfold inbox_from_pb at 1. cbn [to_inbox_item pb_inbox_item_kind]. rewrite parse_inbox_kind. cbn. by rewrite IH.
Qed.
Lemma mark_encoded dest kind s :
  state_from_pb (if str_is_empty (cs_dest s) then dest else cs_dest s) (default kind (parse_kind (inbox_kind (cs_kind s))))
    (state_to_proto s) = mark_seen dest s.
Proof. destruct s as [? [] ? ? ? ? ?]; reflexivity. Qed.
Lemma states_encoded states :
  List.map (fun proto => state_from_pb (pb_conversation_read_state_dest proto)
    (default User (parse_kind (pb_conversation_read_state_kind proto))) proto) (List.map state_to_proto states) = states.
Proof. apply map_map_id. by intros [? [] ? ? ? ? ?]. Qed.
Lemma query_keys_encoded keys :
  query_keys (List.map (fun k => mkPbConversationStateKey (ck_dest k) (kind_number (ck_kind k))) keys) =
  if existsb (fun k => str_is_empty (ck_dest k)) keys then Err (BAD_REQUEST, "dest"%string) else Ok keys.
Proof.
  induction keys as [|[dest kind] keys IH]; [done|]. cbn. rewrite parse_kind_number.
  destruct (str_is_empty dest); [done|]. cbn. rewrite IH. by destruct (existsb _ _).
Qed.
Lemma profiles_encoded rows : List.map from_pb_profile (List.map to_pb rows) = List.map profile_seen rows.
Proof. rewrite List.map_map. by apply List.map_ext. Qed.
Lemma presence_encoded q : presence_from_pb (presence_to_pb q) = presence_seen q.
Proof. destruct q as [[[] ? ?]|]; reflexivity. Qed.
Lemma exists_encoded q : account_exists_exists (presence_to_pb q) = bool_decide (is_Some (presence_seen q)).
Proof. destruct q as [[[] ? ?]|]; reflexivity. Qed.

(** ** Operations *)

#[local] Arguments record_to_pb : simpl never.
#[local] Arguments record_from_pb : simpl never.
#[local] Arguments account_to_pb : simpl never.
#[local] Arguments account_from_pb : simpl never.
#[local] Arguments insert_result : simpl never.
#[local] Arguments encode_insert : simpl never.
#[local] Arguments state_from_pb : simpl never.
#[local] Arguments pending_items : simpl never.
#[local] Arguments bytes_of : simpl never.
#[local] Arguments group_err : simpl never.
#[local] Arguments user_err : simpl never.
#[local] Arguments social_err : simpl never.
#[local] Arguments spec_err : simpl never.
#[local] Arguments StoreError_text : simpl never.
#[local] Arguments len : simpl never.
#[local] Arguments bool_decide : simpl never.
#[local] Arguments collect_ack_ids : simpl never.


Section remote.
Context `{!Prost, !ProstOk, !RoyalProst, !RoyalProstOk, DecodeText, Jwt, HmacSha256}.
Context (sha256 : bytes -> bytes) (au : AuthState) (p : RoyalPool) (deadline : option Z) (receipts : bool).
Let service := royal_service sha256 au.

(** The request finds its handler. *)
Ltac fetched He := eapply send_pb_attempts in He; [exact He|reflexivity|].
Ltac posted He := eapply post_attempts in He; [exact He|reflexivity|].
(** The handler [h] reads the request. *)
Tactic Notation "handled" reference(h) :=
  cbv beta; cbn [snd]; unfold h; rewrite ?with_req_encoded;
  unfold view, reply, serving, serving_any, with_app, with_owner, given, asked, and_then, encoded, done_empty, refuse; cbn.
(** The errors a directory has, none of them under a status that is a success, and
    empty answers. *)
Ltac refusals :=
  try match goal with
  | e : GroupError |- _ => by destruct e
  | e : UserError |- _ => by destruct e
  | e : SocialError |- _ => by destruct e
  | e : AgentSpecError |- _ => by destruct e
  | u : unit |- _ => destruct u; reflexivity
  end.
(** The same calls, and an answer that reads back. *)
Ltac same := repeat progress (cbn; rewrite ?decode_or_encoded; try reflexivity; try (apply refines_vis; intros [?|?])); refusals.

(** The conditions on the request, which both sides check. *)
Ltac split_conditions :=
  unfold with_receipts, resolve_req_app, require_app, require_owner, given; cbn;
  repeat match goal with |- context [if ?b then _ else _] => lazymatch b with context [if _ then _ else _] => fail | _ => destruct b; cbn end end;
  same.

(** The error of a store under its own status. *)
Ltac own_status :=
  destruct (store_http _) as [status text]; cbn; destruct (is_success status);
  [try match goal with |- context [decode_or ?b] => destruct (decode_or b) as [?|[? ?]] end|]; same.

Lemma store_refines X e prog fail svc : store_op au p deadline receipts X e prog fail svc -> forall tr x,
  exec (over_network service prog) tr x -> attempts svc fail RETRIES (visible (served tr)) x.
Proof.
  intros Ho. destruct Ho; intros tr x He.
  - fetched He. handled insert_user. rewrite insert_from_body. same. by rewrite insert_result_encoded.
  - fetched He. handled insert_group. rewrite insert_from_body. unfold members_or_all.
    destruct (bool_decide (members = [])); same; by rewrite insert_result_encoded.
  - unfold http_ack in He. destruct receipts; posted He; handled ack; [unfold is_new_ack|change (is_new_ack _) with false]; split_conditions.
  - unfold http_offline_index in He. destruct receipts; fetched He; handled offline_index;
      [unfold is_new_index|change (is_new_index _) with false]; split_conditions; rewrite rows_encoded; 
      by match goal with r : _ * bool |- _ => destruct r end.
  - unfold http_backfill_delivery in He. subst receipts. posted He. handled delivery_backfill. split_conditions.
  - fetched He. handled offline_content. split_conditions. by rewrite contents_encoded.
  - fetched He. handled inbox_list. same. by rewrite inbox_encoded.
  - fetched He. handled history. rewrite parse_kind_number. same. by rewrite history_encoded.
  - fetched He. handled inbox_read. rewrite parse_kind_number. same. by rewrite mark_encoded.
  - fetched He. handled inbox_states. rewrite query_keys_encoded, len_map. split_conditions. by rewrite states_encoded.
  - fetched He. handled bot_reply. rewrite insert_from_body. same; [by rewrite insert_result_encoded|].
    own_status.
  - fetched He. handled bot_pending. same. destruct a0 as [q|]; same.
    split_conditions; [by rewrite pending_encoded|own_status].
  - posted He. handled purge_dm. same. own_status.
Qed.
Lemma group_refines X e prog fail svc : group_op p deadline X e prog fail svc -> forall tr x,
  exec (over_network service prog) tr x -> attempts svc fail RETRIES (visible (served tr)) x.
Proof.
  intros Ho. destruct Ho; intros tr x He.
  - destruct req. fetched He. handled group_create. split_conditions.
  - fetched He. handled group_members. split_conditions.
  - posted He. handled group_join. split_conditions.
  - posted He. handled group_quit. split_conditions.
  - fetched He. handled group_detail. split_conditions. by match goal with g : GroupInfo |- _ => destruct g end.
  - unfold http_group_summaries in He. destruct groups as [|g groups]; [done|]. remember (g :: groups) as gs. fetched He. handled group_summaries. split_conditions.
    by rewrite summaries_encoded.
Qed.

Lemma user_refines X e prog fail svc : user_op au p deadline X e prog fail svc -> forall tr x,
  exec (over_network service prog) tr x -> attempts svc fail RETRIES (visible (served tr)) x.
Proof.
  intros Ho. destruct Ho; intros tr x He; unfold lookup_at.
  - fetched He. handled user_lookup. split_conditions. by rewrite presence_encoded.
  - fetched He. handled user_lookup. split_conditions. by rewrite exists_encoded.
  - posted He. handled user_upsert. split_conditions.
  - fetched He. handled user_profile. same. destruct a0; same.
  - destruct patch. fetched He. handled user_update. same.
  - unfold http_profiles in He. destruct accounts as [|x0 accounts]; [done|]. remember (x0 :: accounts) as xs. fetched He. handled user_profiles. same.
    by rewrite profiles_encoded.
  - fetched He. handled user_search. replace (Z.max _ 0) with (if limit <=? i32_max then Z.max limit 0 else 20) by
      (destruct (limit <=? i32_max); lia). same. by rewrite profiles_encoded.
  - destruct req. fetched He. handled bot_create. same.
  - destruct patch. fetched He. handled bot_update. same.
  - fetched He. handled bot_delete. same. own_status.
Qed.

(** The answer of [reject_bot_social], and what follows it. *)
Ltac guarded :=
  unfold reject_bot_social; cbn; apply refines_vis; intros [[q|]|e]; cbn; [|same|by destruct e]; split_conditions.

Lemma social_refines X e prog fail svc : social_op au p deadline X e prog fail svc -> forall tr res,
  exec (over_network service prog) tr res -> attempts svc fail RETRIES (visible (served tr)) res.
Proof.
  intros Ho. destruct Ho; intros tr res He; unfold pair_at.
  - fetched He. handled friend_request. guarded; by match goal with o : FriendRequestOutcome |- _ => destruct o end.
  - posted He. unfold friend_accept. handled pair_handler. guarded.
  - posted He. unfold friend_reject. handled pair_handler. same.
  - posted He. unfold friend_remove. handled pair_handler. guarded.
  - posted He. unfold block_add. handled pair_handler. guarded.
  - posted He. unfold block_remove. handled pair_handler. guarded.
  - fetched He. unfold friend_list. handled list_handler. same.
  - fetched He. unfold friend_incoming. handled list_handler. same.
  - fetched He. unfold block_list. handled list_handler. same.
  - fetched He. unfold friend_check. handled check_handler. same.
  - fetched He. unfold block_check. handled check_handler. same.
Qed.

Lemma spec_refines X e prog fail svc : spec_op au p deadline X e prog fail svc -> forall tr x,
  exec (over_network service prog) tr x -> attempts svc fail RETRIES (visible (served tr)) x.
Proof.
  intros Ho. destruct Ho; intros tr x He; unfold specs_at.
  - fetched He. handled spec_sync. split_conditions. by rewrite records_encoded.
  - fetched He. handled spec_sync. split_conditions. by rewrite accounts_encoded.
  - fetched He. handled spec_upsert. rewrite record_encoded. split_conditions. by rewrite record_encoded.
  - fetched He. handled spec_upsert. rewrite account_encoded. split_conditions.
Qed.
End remote.
