(* ===== verification/RoyalStore.v ===== *)
(** The remote message store over the store itself.

    [remote_at_least_once] says that every remote call is carried out at least once
    when it is answered, and at most three times.  A keyed send is then sent once: the
    store of the service knows the key again ([remote_send_once]).  Without a key a
    lost answer stores a message twice ([unkeyed_sent_twice]). *)

From S2P Require Import Prelude Prog Wire Pkt Msgs RoyalMsgs Location SessionStore Store StoreInv StoreProps Social Groups Users Interest AgentStore.
From S2P Require Import Effects InboxCmds BotCmds Gateway Container Hmac RoyalPool RoyalServer RoyalAuth RoyalHttp RoyalClient RoyalNet RoyalRefine.
Open Scope Z_scope.
Open Scope kim_scope.

(** The remote stores and directories keep their contract over a network that
    loses requests and answers.  Each call of the handlers that goes to the royal
    service is, at the service, at most three executions of the operation the table
    of RoyalRefine.v names for it, refusals and encodings included; what the caller
    gets is what one of them answered, or an error that no execution gave, and then
    any of them may have happened. *)
Theorem remote_at_least_once `{!Prost, !ProstOk, !RoyalProst, !RoyalProstOk, DecodeText, Jwt, HmacSha256}
  (sha256 : bytes -> bytes) (au : AuthState) (p : RoyalPool) (deadline : option Z) (receipts : bool)
  (X : Type) (e : Eff X) prog fail svc tr (x : X)
  (Hop : royal_op au p deadline receipts X e prog fail svc)
  (He : exec (over_network (royal_service sha256 au) prog) tr x) :
  attempts svc fail RETRIES (visible (served tr)) x.
Proof.
  destruct Hop as [X e prog fail svc Ho|X e prog fail svc Ho|X e prog fail svc Ho|X e prog fail svc Ho|X e prog fail svc Ho].
  - exact (store_refines _ _ _ _ _ _ _ _ _ _ Ho tr x He).
  - exact (group_refines _ _ _ _ _ _ _ _ _ Ho tr x He).
  - exact (user_refines _ _ _ _ _ _ _ _ _ Ho tr x He).
  - exact (social_refines _ _ _ _ _ _ _ _ _ Ho tr x He).
  - exact (spec_refines _ _ _ _ _ _ _ _ _ Ho tr x He).
Qed.

Section store.
Context {G : Type} `{IdGeneratorOk G}.
Notation store := (MemoryMessageStore G).

(** What others do to the store between two requests: anything short of a purge. *)
Definition others_ok (ops : list (Z * Z * StoreOp)) : Prop := Forall (fun o => op_ok o.2 /\ no_purge o.2) ops.

(** The store answers what the service asks it for, which are sends. *)
Inductive store_run : store -> list SEvent -> store -> Prop :=
| run_done st ops : others_ok ops -> store_run st [] (run_ops ops st)
| run_send st ops app req now st1 r l st2 :
    others_ok ops -> Store.insert_user app req now (run_ops ops st) = (st1, r) -> store_run st1 l st2 ->
    store_run st (Ev (SCall (EInsertUser app req)) r :: l) st2.

(** A send, and whether it made a new message. *)
Definition send_of (ev : SEvent) : option (string * InsertMessage * result InsertResult StoreError) :=
  match ev with @Ev _ X e x => match e in SrvEff X return X -> _ with
  | SCall e => match e in Eff X return X -> _ with EInsertUser app req => fun r => Some (app, req, r) | _ => fun _ => None end
  | _ => fun _ => None
  end x end.
Definition made_new (ev : SEvent) : bool :=
  match send_of ev with Some (_, _, Ok r) => negb (ir_duplicate r) | _ => false end.

Lemma others_split ops : others_ok ops -> Forall (fun o => op_ok o.2) ops /\ Forall (fun o => no_purge o.2) ops.
Proof. intros Ho. split; eapply List.Forall_impl; [|exact Ho| |exact Ho]; by intros ? []. Qed.

Lemma others_remember ops app sender cid r st : store_wf st -> others_ok ops ->
  remembers app sender cid r (inner st) -> remembers app sender cid r (inner (run_ops ops st)).
Proof. intros Hwf [Hok Hnp]%others_split. by apply remembers_extends, run_ops_extends. Qed.

Lemma others_wf ops st : store_wf st -> others_ok ops -> store_wf (run_ops ops st).
Proof. intros Hwf [Hok _]%others_split. by apply run_ops_wf. Qed.

Lemma insert_user_wf app req now st : store_wf st -> store_wf (Store.insert_user app req now st).1.
Proof. intros Hwf. by apply insert_wf; [|intros [=]]. Qed.

Section keyed.
Context (app : string) (req : InsertMessage) (Hcid : im_client_id req <> ""%string).
Let sent (r : result InsertResult StoreError) : SEvent := Ev (SCall (EInsertUser app req)) r.
Let known (r : InsertResult) (st : store) : Prop := remembers app (im_sender req) (im_client_id req) r (inner st).

Lemma sent_events_cons a q x l x' rs : Ev (SCall (EInsertUser a q)) x :: l = List.map sent (x' :: rs) ->
  a = app /\ q = req /\ x = x' /\ l = List.map sent rs.
Proof.
  intros E. pose proof (f_equal (fun l => ev ← head l; send_of ev) E) as E1. cbn in E1. injection E1 as -> -> ->.
  by apply (f_equal tl) in E.
Qed.

(** One send, by whether the key is known. *)
Lemma send_known r now st : known r st ->
  exists r', (Store.insert_user app req now st).2 = Ok r' /\ ir_message_id r' = ir_message_id r /\ ir_duplicate r' = true /\
    known r (Store.insert_user app req now st).1.
Proof.
  intros Hr. unfold Store.insert_user. rewrite (insert_known _ _ _ _ _ _ r Hcid Hr). eexists. split_and!; [done..|].
  destruct Hr as [Hi Hf]. split; cbn; [by rewrite idempotency_receipts_if|by rewrite fanout_receipts].
Qed.

(** Once the key is known, every send is a duplicate of the same message. *)
Lemma store_run_known st l st' : store_run st l st' -> forall r rs, store_wf st -> known r st -> l = List.map sent rs ->
  known r st' /\ List.filter made_new l = [] /\ (forall r', Ok r' ∈ rs -> ir_message_id r' = ir_message_id r).
Proof.
  induction 1 as [st ops Ho|st ops a q now st1 x l st2 Ho Hi Hrun IH]; intros r rs Hwf Hr E.
  - destruct rs; [|done]. split_and!; [by apply others_remember|done|by intros r' ?%elem_of_nil].
  - destruct rs as [|x' rs]; [done|]. apply sent_events_cons in E as (-> & -> & -> & E).
    pose proof (others_wf ops _ Hwf Ho) as Hwf'. apply (others_remember ops) in Hr; [|done..].
    destruct (send_known r now _ Hr) as (r1 & E1 & E2 & E3 & Hr1). apply (insert_user_wf app req now) in Hwf'.
    rewrite Hi in E1, Hr1, Hwf'. cbn in E1, Hr1, Hwf'. subst x'. destruct (IH r rs Hwf' Hr1 E) as (Hk & Hf & Hall).
    split_and!; [done| |].
    + cbn. unfold made_new at 1. cbn. by rewrite E3.
    + intros r' [[= ->]|Hin]%elem_of_cons; [done|by apply Hall].
Qed.

(** The sends make at most one message, and when one is answered they made it known. *)
Lemma store_run_once st l st' : store_run st l st' -> forall rs, store_wf st -> l = List.map sent rs ->
  (length (List.filter made_new l) <= 1)%nat /\ forall r, Ok r ∈ rs -> exists r', ir_message_id r' = ir_message_id r /\ known r' st'.
Proof.
  induction 1 as [st ops Ho|st ops a q now st1 x l st2 Ho Hi Hrun IH]; intros rs Hwf E.
  - destruct rs; [|done]. split; [cbn; lia|by intros r ?%elem_of_nil].
  - destruct rs as [|x' rs]; [done|]. apply sent_events_cons in E as (-> & -> & -> & E).
    pose proof (others_wf ops _ Hwf Ho) as Hwf'. pose proof (insert_user_wf app req now _ Hwf') as Hwf1.
    rewrite Hi in Hwf1. cbn in Hwf1. destruct x' as [r|e].
    + assert (Hr : known r st1) by exact (insert_remembers _ _ _ _ _ _ _ _ Hwf' Hcid Hi).
      destruct (store_run_known _ _ _ Hrun r rs Hwf1 Hr E) as (Hk & Hf & Hall). cbn [List.filter]. rewrite Hf.
      split; [destruct (made_new _); cbn; lia|]. intros r' [[= ->]|Hin]%elem_of_cons; [by exists r|].
      exists r. split; [by rewrite (Hall r' Hin)|done].
    + destruct (IH rs Hwf1 E) as [Hl Hall]. split; [exact Hl|]. intros r [?|Hin]%elem_of_cons; [done|by apply Hall].
Qed.
End keyed.

(** The executions of a remote send. *)
Lemma attempts_sends app req n l x :
  attempts (serving id (asked (EInsertUser app req) store_backend)) Err n l x ->
  exists rs, l = List.map (fun r => Ev (SCall (EInsertUser app req)) r) rs /\ forall r, x = Ok r -> Ok r ∈ rs.
Proof.
  assert (Hone : forall t status x, exec (serving id (asked (EInsertUser app req) store_backend)) t (status, x) ->
    exists r, visible t = [Ev (SCall (EInsertUser app req)) r] /\ forall r', x = Ok r' -> r = Ok r').
  { intros t status y (r & t' & -> & He)%exec_inv. apply exec_inv in He as [-> He]. exists r. split; [done|].
    destruct r as [a|e]; cbn in He; injection He as -> ->; by intros r' [= ->]. }
  induction 1 as [n e He|n t status x He|n t status x l y He Hr Ha IH|n t status x l y He Ha IH|n l y Ha IH].
  - exists []. by split.
  - apply Hone in He as (r & -> & Hx). exists [r]. split; [done|]. intros r' E. rewrite (Hx r' E). by constructor.
  - apply Hone in He as (r & -> & _). destruct IH as (rs & -> & Hy). exists (r :: rs). split; [done|].
    intros r' E. right. by apply Hy.
  - apply Hone in He as (r & -> & _). destruct IH as (rs & -> & Hy). exists (r :: rs). split; [done|].
    intros r' E. right. by apply Hy.
  - exact IH.
Qed.

(** (C33) A keyed message is sent once, whatever the network loses.  The call of the
    chat service makes up to three requests; however many the service executes, and
    whatever else happens to its store meanwhile short of a purge, at most one
    message is made, and if the call is answered the store knows the key under the
    message id of the answer. *)
Theorem remote_send_once `{!Prost, !ProstOk, !RoyalProst, !RoyalProstOk, DecodeText, Jwt, HmacSha256}
  (sha256 : bytes -> bytes) (au : AuthState) (p : RoyalPool) (deadline : option Z) (req : InsertMessage)
  (st st' : store) tr x
  (Hcid : im_client_id req <> ""%string) (Hwf : store_wf st)
  (He : exec (over_network (royal_service sha256 au) (http_insert_user p deadline req)) tr x)
  (Hs : store_run st (visible (served tr)) st') :
  (length (List.filter made_new (visible (served tr))) <= 1)%nat /\
  forall r, x = Ok r -> exists first, ir_message_id first = ir_message_id r /\
    remembers (rs_app (au_state au)) (im_sender req) (im_client_id req) first (inner st').
Proof.
  apply (store_refines sha256 au p deadline false _ _ _ _ _ (op_insert_user _ _ _ _ ""%string req)) in He.
  apply attempts_sends in He as (rs & E & Hx). destruct (store_run_once _ _ Hcid _ _ _ Hs rs Hwf E) as [Hl Hk].
  split; [done|]. intros r ->. destruct (Hk r (Hx r eq_refl)) as (first & Hm & Hr). by exists first.
Qed.
End store.

(** ** A network that loses answers *)

Section demo.
Notation store := (MemoryMessageStore CountingGen).
#[local] Existing Instance demo_prost.
#[local] Existing Instance demo_prost_ok.
#[local] Existing Instance demo_royal.
#[local] Existing Instance demo_royal_ok.
#[local] Instance demo_text : DecodeText := fun _ => "invalid"%string.
#[local] Instance demo_jwt : Jwt := {| jwt_encode _ _ := Ok "token"%string; jwt_decode _ _ _ := None |}.
#[local] Instance demo_tag : HmacSha256 := {| hmac_key := bytes; new_from_slice k := Some k; hmac_tag k m := k ++ m |}.

Definition demo_srv (X : Type) (e : SrvEff X) (st : store) : store * X :=
  match e in SrvEff X return store * X with
  | SCall e => match e in Eff X return store * X with
               | EInsertUser app req => Store.insert_user app req 5 st
               | e => (st, (Effects.quiet _ e tt).2)
               end
  | SNow => (st, 0)
  | SUuid => (st, "id"%string)
  | SClaimNonce _ => (st, Ok true)
  | SKick _ _ => (st, tt)
  | SBotConfig _ _ _ | STokenEpoch _ _ | SCreateUser _ _ _ | SPasswordHash _ _ | SSetPasswordBump _ _ _ => (st, Err UserMissing)
  | SIsRevoked _ | SRevoke _ _ | SGetEpoch _ | SSetEpoch _ _ _ | SDeviceLookup _ _ _ | SDeviceGet _ | SDeviceEnroll _ _ _ _
  | SHotPut _ _ | SHotDrop _ | SHotOk _ _ | SHashPassword _ | SVerifyPassword _ _ => (st, Err "down"%string)
  end.
Definition demo_net (X : Type) (e : NetEff X) (w : store * list Fate) : (store * list Fate) * X :=
  match e in NetEff X return (store * list Fate) * X with
  | NPool e => (w, (demo_answer _ e 0%nat).2)
  | NSrv e => let '(st, x) := demo_srv _ e w.1 in ((st, w.2), x)
  | NFate => match w.2 with fate :: rest => ((w.1, rest), fate) | [] => (w, Delivered) end
  end.

Definition demo_au : AuthState := mkAuthState (mkRoyalState "kim" true "s") "jwt" 0 "" None true.
Definition demo_run (req : InsertMessage) (fates : list Fate) :=
  run demo_net (over_network (royal_service id demo_au) (http_insert_user demo_pool None req)) (demo_store, fates).

Lemma demo_executed req fates :
  exec (over_network (royal_service id demo_au) (http_insert_user demo_pool None req))
    (demo_run req fates).1.2 (demo_run req fates).2.
Proof. apply exec_run. Qed.

Lemma remote_at_least_once_witness :
  let req := demo_req "alice" "bob" "c1" "hi" in
  attempts (serving id (asked (EInsertUser "kim" req) store_backend)) Err RETRIES
    (visible (served (demo_run req [Delivered]).1.2)) (demo_run req [Delivered]).2.
Proof.
  cbv zeta. set (req := demo_req "alice" "bob" "c1" "hi").
  exact (remote_at_least_once id demo_au demo_pool None false _ (EInsertUser "kim" req) _ _ _ _ _
    (op_store _ _ _ _ _ _ _ _ _ (op_insert_user _ _ _ _ "kim" req)) (demo_executed req [Delivered])).
Defined.

(** The answer to the first request is lost, and the second is answered. *)
Definition lost_answer : list Fate := [AnswerLost "timeout"; Delivered]%string.

Example keyed_once : (demo_run (demo_req "alice" "bob" "c1" "hi") lost_answer).2 =
  Ok (mkInsertResult 10 1000 true (fanout_from_write User (demo_req "alice" "bob" "c1" "hi") [])).
Proof. vm_compute. reflexivity. Qed.

Lemma others_none : others_ok [].
Proof. constructor. Qed.

(** What the store saw, and what it is left with. *)
Definition demo_keyed : InsertMessage := demo_req "alice" "bob" "c1" "hi".
Definition demo_first : store := Eval vm_compute in (Store.insert_user "kim" demo_keyed 5 demo_store).1.
Definition demo_second : store := Eval vm_compute in (Store.insert_user "kim" demo_keyed 5 demo_first).1.
Definition demo_answered : result InsertResult StoreError :=
  Eval vm_compute in (Store.insert_user "kim" demo_keyed 5 demo_store).2.
Definition demo_again : result InsertResult StoreError :=
  Eval vm_compute in (Store.insert_user "kim" demo_keyed 5 demo_first).2.

Lemma demo_first_sent : Store.insert_user "kim" demo_keyed 5 demo_store = (demo_first, demo_answered).
Proof. vm_compute. reflexivity. Qed.
Lemma demo_second_sent : Store.insert_user "kim" demo_keyed 5 demo_first = (demo_second, demo_again).
Proof. vm_compute. reflexivity. Qed.
Lemma demo_left : (demo_run demo_keyed lost_answer).1.1.1 = demo_second.
Proof. vm_compute. reflexivity. Qed.
Lemma demo_seen : visible (served (demo_run demo_keyed lost_answer).1.2) =
  [Ev (SCall (EInsertUser "kim" demo_keyed)) demo_answered; Ev (SCall (EInsertUser "kim" demo_keyed)) demo_again].
Proof. vm_compute. reflexivity. Qed.

(** The store answered both sends. *)
Lemma demo_stored :
  let out := demo_run demo_keyed lost_answer in store_run demo_store (visible (served out.1.2)) out.1.1.1.
Proof.
  cbv zeta. rewrite demo_left, demo_seen.
  refine (run_send demo_store [] "kim" demo_keyed 5 demo_first demo_answered _ _ others_none demo_first_sent _).
  refine (run_send demo_first [] "kim" demo_keyed 5 demo_second demo_again _ _ others_none demo_second_sent _).
  exact (run_done demo_second [] others_none).
Qed.

Lemma remote_send_once_witness :
  let req := demo_req "alice" "bob" "c1" "hi" in
  let out := demo_run req lost_answer in
  (length (visible (served out.1.2)) = 2 /\ length (List.filter made_new (visible (served out.1.2))) <= 1)%nat /\
  exists first, ir_message_id first = 10 /\ remembers "kim" "alice" "c1" first (inner out.1.1.1).
Proof.
  cbv zeta. set (req := demo_req "alice" "bob" "c1" "hi").
  destruct (remote_send_once id demo_au demo_pool None req demo_store (demo_run req lost_answer).1.1.1
    (demo_run req lost_answer).1.2 (demo_run req lost_answer).2
    ltac:(discriminate) (with_ack_wf _ _ _) (demo_executed req lost_answer) demo_stored) as [Hl Hk].
  split; [split; [vm_compute; reflexivity|exact Hl]|].
  exact (Hk (mkInsertResult 10 1000 true (fanout_from_write User req [])) ltac:(vm_compute; reflexivity)).
Defined.

(** Without a client id the two executions are two messages, and the caller hears of
    the second. *)
Example unkeyed_sent_twice :
  let out := demo_run (demo_req "alice" "bob" "" "hi") lost_answer in
  length (List.filter made_new (visible (served out.1.2))) = 2%nat /\
  out.2 = Ok (mkInsertResult 13 1000 false (fanout_from_write User (demo_req "alice" "bob" "" "hi") [])).
Proof. split; vm_compute; reflexivity. Qed.
End demo.
