(* ===== verification/RoyalAuthSpec.v ===== *)
(** Accounts of the royal service: what a sign-in, a token and a change of password
    are checked against, and that a change of password ends the tokens before it,
    however the calls of the service interleave. *)

From S2P Require Import Prelude Prog Wire Pkt Msgs RoyalMsgs Location SessionStore Store Social Groups Users Interest AgentStore.
From S2P Require Import Effects Tasks Gateway Container Hmac RoyalPool RoyalServer RoyalAuth RoyalNet.
Open Scope Z_scope.
Open Scope kim_scope.

(** ** Executions of [?] *)

Section and_then.
Context {E : Type -> Type} {A B X : Type}.

Lemma and_then_inv (p : Prog E (result A X)) (k : A -> Prog E (result B X)) tr r : exec (and_then p k) tr r ->
  (exists e, r = Err e /\ exec p tr (Err e)) \/
  exists tr1 a tr2, tr = tr1 ++ tr2 /\ exec p tr1 (Ok a) /\ exec (k a) tr2 r.
Proof.
  intros (tr1 & [a|e] & tr2 & -> & Hp & Hk)%exec_bind_inv; [right; eauto 8|].
  apply exec_inv in Hk as [-> ->]. left. exists e. by rewrite app_nil_r.
Qed.

Lemma and_then_ok (p : Prog E (result A X)) (k : A -> Prog E (result B X)) tr b : exec (and_then p k) tr (Ok b) ->
  exists tr1 a tr2, tr = tr1 ++ tr2 /\ exec p tr1 (Ok a) /\ exec (k a) tr2 (Ok b).
Proof. by intros [(e & ? & _)|?]%and_then_inv. Qed.

Lemma given_ok (r : result A X) (k : A -> Prog E (result B X)) tr b : exec (given r k) tr (Ok b) ->
  exists a, r = Ok a /\ exec (k a) tr (Ok b).
Proof. destruct r as [a|e]; intros He; [by exists a|]. by apply exec_inv in He as [_ ?]. Qed.
End and_then.

Lemma asked_srv_inv {A E} (e : SrvEff (result A E)) f tr r : exec (asked_srv e f) tr r ->
  exists x, tr = [Ev e x] /\ r = map_err f x.
Proof. intros (x & tr' & -> & He)%exec_call_inv. apply exec_inv in He as [-> ->]. by exists x. Qed.

Lemma asked_srv_ok {A E} (e : SrvEff (result A E)) f tr a : exec (asked_srv e f) tr (Ok a) -> tr = [Ev e (Ok a)].
Proof. intros ([x|x] & -> & [= ->])%asked_srv_inv. done. Qed.

Lemma ask_inv {A B E} (e : SrvEff (result A E)) f (k : A -> SProc (result B HttpErr)) tr r :
  exec (and_then (asked_srv e f) k) tr r ->
  (exists x, tr = [Ev e (Err x)] /\ r = Err (f x)) \/ exists a tr2, tr = Ev e (Ok a) :: tr2 /\ exec (k a) tr2 r.
Proof.
  intros [(y & -> & Hx)|(tr1 & a & tr2 & -> & Hx%asked_srv_ok & He)]%and_then_inv; [|right; subst; by exists a, tr2].
  apply asked_srv_inv in Hx as ([a|x] & -> & [= ->]). left. by exists x.
Qed.

Lemma with_req_ok `{DecodeText} {T} `{Message T} body (k : T -> SProc (result bytes HttpErr)) tr b :
  exec (with_req body k) tr (Ok b) -> exists req, decode_msg body = Some req /\ exec (k req) tr (Ok b).
Proof.
  unfold with_req, RoyalServer.decode. destruct (decode_msg body) as [req|]; [intros He; by exists req|].
  intros [_ ?]%exec_inv. done.
Qed.

Section auth.
Context `{Prost, RoyalProst, DecodeText, Jwt} (st : AuthState).
Let app := au_app st.

(** ** Tokens *)

(** An answer with a token for [account], at the epoch the account had meanwhile. *)
Definition issued (tr : list SEvent) (account : string) (did : option string) (body : bytes) : Prop :=
  exists now ver jti claims token secret,
    Ev SNow now ∈ tr /\ Ev (STokenEpoch app account) (Ok ver) ∈ tr /\
    device_claims account app (sat_i64 (now + jwt_ttl st)) jti ver did = Ok claims /\
    jwt_encode (au_jwt_secret st) claims = Ok token /\
    body = encode_to_vec (mkAuthResp token (sat_i64 (now + jwt_ttl st)) account (default ""%string did) secret).

Lemma issue_ok account did secret tr body : exec (issue st account did secret) tr (Ok body) -> issued tr account did body.
Proof.
  unfold issue. intros (now & tr1 & -> & He)%exec_call_inv. apply and_then_ok in He as (tr2 & ver & tr3 & -> & Hx2 & He).
  apply asked_srv_ok in Hx2 as ->. apply exec_call_inv in He as (jti & tr4 & -> & He).
  destruct (device_claims _ _ _ _ _ _) as [claims|e] eqn:Ec; cbn in He; [|by destruct e; apply exec_inv in He as [_ ?]].
  destruct (jwt_encode _ _) as [token|e] eqn:Et; cbn in He; [|by destruct e; apply exec_inv in He as [_ ?]].
  apply exec_inv in He as [-> [= ->]]. exists now, ver, jti, claims, token, (default ""%string secret).
  split_and!; [apply elem_of_cons; by left|set_solver|done..].
Qed.

Lemma issued_mono tr tr' account did body : (forall ev, ev ∈ tr -> ev ∈ tr') -> issued tr account did body -> issued tr' account did body.
Proof. intros Hsub (now & ver & jti & claims & token & secret & Hx1 & Hx2 & Hrest). exists now, ver, jti, claims, token, secret. auto. Qed.

Section device.
Context (sha256 : bytes -> bytes).

(** The device a token is bound to: one whose credential the account presented, or
    one enrolled with this sign-in. *)
Definition bound_device (tr : list SEvent) (account : string) (req : AuthReq) (did : option string) : Prop :=
  match did with
  | None => str_trim (auth_req_device_credential req) = ""%string /\ auth_req_enroll_device req = false
  | Some id =>
    (exists rec, dr_device_id rec = id /\
       Ev (SDeviceLookup app account (hash_secret sha256 (str_trim (auth_req_device_credential req)))) (Ok (Some rec)) ∈ tr) \/
    exists secret, Ev (SDeviceEnroll app account id (hash_secret sha256 secret)) (Ok tt) ∈ tr
  end.

Lemma bound_device_mono tr tr' account req did :
  (forall ev, ev ∈ tr -> ev ∈ tr') -> bound_device tr account req did -> bound_device tr' account req did.
Proof. intros Hsub. destruct did as [id|]; cbn; [|done]. intros [(rec & Hx & Hy)|(secret & Hx)]; [left; eauto|right; eauto]. Qed.

Lemma bind_device_ok account req tr bound : exec (bind_device sha256 st account req) tr (Ok bound) ->
  bound_device tr account req (fst <$> bound).
Proof.
  unfold bind_device. destruct (str_is_empty _) eqn:Ec; cbn [negb].
  - destruct (auth_req_enroll_device req) eqn:Ee.
    + intros (id & tr1 & -> & He)%exec_call_inv. apply exec_call_inv in He as (secret & tr2 & -> & He).
      apply and_then_ok in He as (tr3 & u & tr4 & -> & Hx3 & He). apply exec_call_inv in He as ([v|err] & tr5 & -> & He).
      * apply exec_inv in He as [-> [= ->]]. destruct v. cbn. right. exists secret. set_solver.
      * apply exec_call_inv in He as (w & tr6 & -> & He). apply exec_inv in He as [_ ?]. done.
    + intros [-> [= ->]]%exec_inv. cbn. split; [|done]. by apply bool_decide_eq_true in Ec.
  - intros (tr1 & rec & tr2 & -> & Hx1 & He)%and_then_ok. apply asked_srv_ok in Hx1 as ->.
    destruct rec as [rec|]; [|by apply exec_inv in He as [_ ?]].
    apply and_then_ok in He as (tr3 & u & tr4 & -> & Hx3 & He). apply exec_inv in He as [-> [= ->]]. cbn.
    left. exists rec. split; [done|]. set_solver.
Qed.

Lemma finish_auth_ok account req tr body : exec (finish_auth sha256 st account req) tr (Ok body) ->
  exists did, issued tr account did body /\ bound_device tr account req did.
Proof.
  intros (tr1 & bound & tr2 & -> & Hx1 & He)%and_then_ok. apply bind_device_ok in Hx1.
  exists (fst <$> bound). split; [|eapply bound_device_mono, Hx1; set_solver].
  eapply (issued_mono tr2); [set_solver|]. by destruct bound as [[id secret]|]; apply issue_ok in He.
Qed.

(** A sign-in is checked.  The royal service hands out a token only when the
    password sent, in the clear or sealed as the configuration allows, matched the
    one stored for that account, and the account is not known to be a bot's; the
    token is for that account and app, at the epoch it was found at, and is bound only to
    a device whose credential the account presented or that this sign-in enrolled. *)
Theorem login_checked body tr answer (He : exec (login sha256 st body) tr (Ok answer)) :
  exists req account password hash did found,
    decode_msg body = Some req /\ valid_account (auth_req_account req) = Ok account /\
    resolve_password_field st (auth_req_password req) (auth_req_password_sealed req) (auth_req_key_id req) = Ok password /\
    Ev (SCall (ELookup app account)) found ∈ tr /\ (forall q, found = Ok (Some q) -> up_kind q <> PROFILE_KIND_BOT) /\
    Ev (SPasswordHash app account) (Ok (Some hash)) ∈ tr /\ Ev (SVerifyPassword password hash) (Ok true) ∈ tr /\
    issued tr account did answer /\ bound_device tr account req did.
Proof.
  apply with_req_ok in He as (req & Hreq & He). apply given_ok in He as (account & Ha & He).
  apply given_ok in He as (password & Hp & He). apply exec_call_inv in He as (found & tr1 & -> & He).
  destruct (match found with Ok (Some _) => _ | _ => _ end) eqn:Hbot; [by apply exec_inv in He as [_ ?]|].
  apply and_then_ok in He as (tr2 & stored & tr3 & -> & Hx2 & He). apply asked_srv_ok in Hx2 as ->.
  destruct stored as [hash|]; [|by apply exec_inv in He as [_ ?]].
  apply and_then_ok in He as (tr4 & ok & tr5 & -> & Hx4 & He). apply asked_srv_ok in Hx4 as ->.
  destruct ok; cbn [negb] in He; [|by apply exec_inv in He as [_ ?]].
  apply finish_auth_ok in He as (did & Hi & Hd). exists req, account, password, hash, did, found.
  split_and!; [done..|set_solver| |set_solver|set_solver| |].
  - intros q ->. by apply Z.eqb_neq.
  - eapply issued_mono, Hi. set_solver.
  - eapply bound_device_mono, Hd. set_solver.
Qed.
End device.

(** ** Claims *)

Lemma account_epoch_ok account tr epoch : exec (account_epoch st account) tr (Ok epoch) ->
  exists cached durable, Ev (SGetEpoch account) (Ok cached) ∈ tr /\ Ev (STokenEpoch app account) (Ok durable) ∈ tr /\
    epoch = Z.max cached durable.
Proof.
  intros (tr1 & cached & tr2 & -> & Hx1 & He)%and_then_ok. apply asked_srv_ok in Hx1 as ->.
  apply and_then_ok in He as (tr3 & durable & tr4 & -> & Hx3 & He). apply asked_srv_ok in Hx3 as ->.
  apply exec_bind_inv in He as (tr5 & u & tr6 & -> & Hx5 & He). apply exec_inv in He as [-> [= ->]].
  exists cached, durable. split_and!; [set_solver|set_solver|done].
Qed.

(** The claims of a request that is let in. *)
Definition claims_live (tr : list SEvent) (header : option string) (claims : Claims) : Prop :=
  exists now cached durable,
    Ev SNow now ∈ tr /\ bearer_claims st header now = Ok claims /\
    (forall jti, cl_jti claims = Some jti -> Ev (SIsRevoked jti) (Ok false) ∈ tr) /\
    Ev (SGetEpoch (cl_account claims)) (Ok cached) ∈ tr /\ Ev (STokenEpoch app (cl_account claims)) (Ok durable) ∈ tr /\
    Z.max cached durable <= cl_ver claims.

Lemma claims_live_mono tr tr' header claims : (forall ev, ev ∈ tr -> ev ∈ tr') -> claims_live tr header claims -> claims_live tr' header claims.
Proof.
  intros Hsub (now & cached & durable & Hl1 & Hl2 & Hl3 & Hl4 & Hl5 & Hl6). exists now, cached, durable.
  split_and!; [by apply Hsub|done| |by apply Hsub|by apply Hsub|done]. intros jti E. by apply Hsub, Hl3.
Qed.

Lemma live_claims_ok header tr claims : exec (live_claims st header) tr (Ok claims) -> claims_live tr header claims.
Proof.
  unfold live_claims. intros (now & tr1 & -> & He)%exec_call_inv. apply given_ok in He as (c & Hb & He).
  apply and_then_ok in He as (tr2 & revoked & tr3 & -> & Hx2 & He).
  destruct revoked; [by apply exec_inv in He as [_ ?]|].
  apply and_then_ok in He as (tr4 & epoch & tr5 & -> & Hx4 & He).
  apply account_epoch_ok in Hx4 as (cached & durable & Hc & Hd & ->).
  destruct (_ <? _) eqn:Hv in He; apply exec_inv in He as [-> He]; [done|]. injection He as ->.
  exists now, cached, durable. split_and!; [set_solver|done| |set_solver|set_solver|by apply Z.ltb_ge].
  intros jti E. rewrite E in Hx2. apply asked_srv_ok in Hx2 as ->. set_solver.
Qed.

(** What a token must be to be let in. *)
Lemma bearer_claims_ok header now claims : bearer_claims st header now = Ok claims ->
  cl_app claims = app /\ cl_account claims <> ""%string /\ exists token, jwt_decode (au_jwt_secret st) now token = Some claims.
Proof.
  unfold bearer_claims. cbv zeta. destruct (str_is_empty _); [done|]. destruct (jwt_decode _ _ _) as [c|] eqn:Ed; [|done].
  destruct (check_account _); cbn; [|done]. destruct (bool_decide (cl_app c = au_app st)) eqn:Ea; cbn; [|done].
  destruct (str_is_empty (cl_account c)) eqn:Ee; [done|]. intros [= ->]. apply bool_decide_eq_true in Ea.
  split_and!; [done|by apply bool_decide_eq_false in Ee|eauto].
Qed.

(** ** Change of password *)

(** The password of an account is replaced. *)
Definition is_change (ev : SEvent) : bool :=
  match ev with Ev e _ => match e with SSetPasswordBump _ _ _ => true | _ => false end end.
Definition changes (tr : list SEvent) : list SEvent := List.filter is_change tr.

Lemma changes_app tr tr' : changes (tr ++ tr') = changes tr ++ changes tr'.
Proof. apply List.filter_app. Qed.

(** Programs that change no password. *)
Definition no_change (X : Type) (e : SrvEff X) : Prop := match e with SSetPasswordBump _ _ _ => False | _ => True end.
Abbreviation changeless p := (guar (fun _ _ _ => True) no_change (fun _ => True) p).

Lemma changeless_exec {A} (q : SProc A) tr a : changeless q -> exec q tr a -> changes tr = [].
Proof.
  intros Hg He. induction He as [a|X e k x tr a He IH]; [done|]. destruct Hg as [Hg Hk].
  specialize (IH (Hk x I)). unfold changes in *. cbn. rewrite IH. by destruct e.
Qed.

Lemma changeless_then {A B X} (q : SProc (result A X)) (k : A -> SProc (result B X)) :
  changeless q -> (forall a, changeless (k a)) -> changeless (and_then q k).
Proof. intros Hq Hk. apply guar_bind_use with (1 := Hq). intros [a|e] _; [apply Hk|exact I]. Qed.

Lemma changeless_asked {A E} (e : SrvEff (result A E)) f : no_change _ e -> changeless (asked_srv e f).
Proof. intros He. by split. Qed.

Lemma live_claims_changeless header : changeless (live_claims st header).
Proof.
  unfold live_claims. apply guar_bind, guar_call; [exact I|]. intros now _. unfold given. destruct (bearer_claims st header now) as [c|]; [|exact I].
  apply changeless_then; [destruct (cl_jti c); [by apply changeless_asked|exact I]|].
  intros [|]; [exact I|]. apply changeless_then; [|intros epoch; by destruct (_ <? _); exact I].
  apply changeless_then; [by apply changeless_asked|]. intros cached.
  apply changeless_then; [by apply changeless_asked|]. intros durable. cbv zeta.
  apply guar_bind_use with (S := fun _ => True); [by destruct (_ <? _); [split|exact I]|intros ? _; exact I].
Qed.

(** What follows the change. *)
Lemma change_confirmed claims ver tr r :
  exec (let* _ := asked_srv (SSetEpoch (cl_account claims) ver (jwt_ttl st)) backend in
        _ ← (match cl_jti claims with
             | Some jti => now ← call SNow; call (SRevoke jti (jti_ttl claims now))
             | None => Ret (Ok tt)
             end);
        _ ← kick_account st (cl_account claims);
        done_empty) tr r ->
  changes tr = [] /\ forall out, r = Ok out -> Ev (SSetEpoch (cl_account claims) ver (jwt_ttl st)) (Ok tt) ∈ tr /\
    forall jti, cl_jti claims = Some jti -> exists ttl y, Ev (SRevoke jti ttl) y ∈ tr.
Proof.
  intros [(x & -> & ->)|(u & tr1 & -> & He)]%ask_inv; [by split|].
  apply exec_bind_inv in He as (tr2 & y & tr3 & -> & Hx2 & He). apply exec_bind_inv in He as (tr4 & w & tr5 & -> & Hx4 & He).
  apply exec_inv in He as [-> ->]. destruct u.
  assert (Hk : changes tr4 = []).
  { revert Hx4. apply changeless_exec. unfold kick_account. by destruct (_ || _). }
  rewrite app_nil_r. destruct (cl_jti claims) as [jti|].
  - apply exec_call_inv in Hx2 as (now & tr6 & -> & Hx2). apply exec_inv in Hx2 as (v & tr7 & -> & Hx2).
    apply exec_inv in Hx2 as [-> _]. split; [exact Hk|]. intros out _. split; [set_solver|].
    intros jti' [= <-]. exists (jti_ttl claims now), v. set_solver.
  - apply exec_inv in Hx2 as [-> _]. split; [exact Hk|]. intros out _. split; [set_solver|done].
Qed.

(** A password is changed only by its owner.  Whatever the service is asked and
    however its calls fail, the stored password of an account is replaced at most
    once per request, after a token that is live for that account was shown and the
    old password matched the stored one, and by the hash of the new password; when
    the change is confirmed, the cached epoch was raised to the new one and the token
    that asked for it revoked. *)
Theorem password_changed header body tr r (He : exec (change_password st header body) tr r) :
  changes tr = [] \/
  exists tr1 claims req old new hash hashed x tr2,
    tr = tr1 ++ Ev (SSetPasswordBump app (cl_account claims) hashed) x :: tr2 /\ changes tr1 = [] /\ changes tr2 = [] /\
    claims_live tr1 header claims /\ decode_msg body = Some req /\
    resolve_password_field st (password_change_req_old_password req) (password_change_req_old_password_sealed req)
      (password_change_req_key_id req) = Ok old /\
    resolve_password_field st (password_change_req_new_password req) (password_change_req_new_password_sealed req)
      (password_change_req_key_id req) = Ok new /\
    Ev (SPasswordHash app (cl_account claims)) (Ok (Some hash)) ∈ tr1 /\ Ev (SVerifyPassword old hash) (Ok true) ∈ tr1 /\
    Ev (SHashPassword new) (Ok hashed) ∈ tr1 /\
    (forall out, r = Ok out -> exists ver, x = Ok ver /\ Ev (SSetEpoch (cl_account claims) ver (jwt_ttl st)) (Ok tt) ∈ tr2 /\
       (forall jti, cl_jti claims = Some jti -> exists ttl y, Ev (SRevoke jti ttl) y ∈ tr2)).
Proof.
  apply and_then_inv in He as [(e & -> & Hl)|(tr1 & claims & trb & -> & Hl & He)].
  { left. apply changeless_exec in Hl; [done|apply live_claims_changeless]. }
  pose proof (changeless_exec _ _ _ (live_claims_changeless header) Hl) as Hc1. apply live_claims_ok in Hl.
  rewrite changes_app, Hc1. unfold with_req, RoyalServer.decode in He.
  destruct (decode_msg body) as [req|] eqn:Hreq; [|left; by apply exec_inv in He as [-> _]].
  unfold given in He. destruct (resolve_password_field st (password_change_req_old_password req) _ _) as [old|] eqn:Hold;
    [|left; by apply exec_inv in He as [-> _]].
  destruct (resolve_password_field st (password_change_req_new_password req) _ _) as [new|] eqn:Hnew;
    [|left; by apply exec_inv in He as [-> _]].
  apply ask_inv in He as [(e & -> & ->)|([hash|] & tr2 & -> & He)]; [by left| |left; by apply exec_inv in He as [-> _]].
  apply ask_inv in He as [(e & -> & ->)|([|] & tr3 & -> & He)]; [by left| |left; by apply exec_inv in He as [-> _]].
  cbn [negb] in He. unfold hash_password in He.
  apply ask_inv in He as [(e & -> & ->)|(hashed & tr4 & -> & He)]; [by left|]. right.
  set (pre := tr1 ++ [Ev (SPasswordHash app (cl_account claims)) (Ok (Some hash)); Ev (SVerifyPassword old hash) (Ok true);
    Ev (SHashPassword new) (Ok hashed)]).
  assert (Hpre : changes pre = []) by (unfold pre; by rewrite changes_app, Hc1).
  assert (Hlive : claims_live pre header claims) by (eapply claims_live_mono, Hl; unfold pre; set_solver).
  apply ask_inv in He as [(e & -> & ->)|(ver & tr5 & -> & He)].
  - exists pre, claims, req, old, new, hash, hashed, (Err e), []. unfold pre at 1. rewrite <- app_assoc.
    split_and!; [done..|unfold pre; set_solver|unfold pre; set_solver|unfold pre; set_solver|done].
  - apply change_confirmed in He as [Hc5 Hok]. exists pre, claims, req, old, new, hash, hashed, (Ok ver), tr5.
    unfold pre at 1. rewrite <- app_assoc.
    split_and!; [done..|unfold pre; set_solver|unfold pre; set_solver|unfold pre; set_solver|].
    intros out E. exists ver. split; [done|]. by apply (Hok out).
Qed.

(** ** Epochs *)

Section epochs.
Context (account : string).

(** How the epoch of the account moves from [v] to [v'] with one call to the
    directory.  Reads give it, a change of password that succeeds raises it by one
    and says so, and one that fails may have done so. *)
Definition epoch_step (v : Z) (ev : SEvent) (v' : Z) : Prop :=
  match ev with @Ev _ X e x => match e in SrvEff X return X -> Prop with
  | STokenEpoch a acc => fun x => v' = v /\ (a = app -> acc = account -> forall w, x = Ok w -> w = v)
  | SSetPasswordBump a acc _ => fun x =>
    if bool_decide (a = app) && bool_decide (acc = account)
    then match x with Ok w => w = v + 1 /\ v' = w | Err _ => v <= v' <= v + 1 end
    else v' = v
  | _ => fun _ => v' = v
  end x end.

(** The calls of all requests together, in the order the stores saw them. *)
Inductive epoch_history : Z -> list SEvent -> Z -> Prop :=
| eh_nil v : epoch_history v [] v
| eh_cons v ev v1 l v2 : epoch_step v ev v1 -> epoch_history v1 l v2 -> epoch_history v (ev :: l) v2.

Lemma epoch_step_le v ev v' : epoch_step v ev v' -> v <= v'.
Proof.
  destruct ev as [X e x]. destruct e; cbn; try lia. destruct (_ && _); [|lia]. destruct x; lia.
Qed.

Lemma epoch_history_le v l v' : epoch_history v l v' -> v <= v'.
Proof. induction 1 as [|v ev v1 l v2 Hs%epoch_step_le _ IH]; lia. Qed.

Lemma epoch_history_app v l1 l2 v' : epoch_history v (l1 ++ l2) v' ->
  exists v1, epoch_history v l1 v1 /\ epoch_history v1 l2 v'.
Proof.
  revert v; induction l1 as [|ev l1 IH]; intros v Hh; [exists v; by split; [constructor|]|].
  inversion Hh as [|? ? v1 ? ? Hs Hr]; subst. apply IH in Hr as (v2 & Hx1 & Hx2). exists v2. split; [by econstructor|done].
Qed.

(** What is read lies between the epochs before and after. *)
Lemma epoch_read v l v' w : epoch_history v l v' -> Ev (STokenEpoch app account) (Ok w) ∈ l -> v <= w <= v'.
Proof.
  intros Hh (l1 & l2 & ->)%list_elem_of_split. apply epoch_history_app in Hh as (v1 & Hx1 & Hx2).
  inversion Hx2 as [|? ? v2 ? ? Hs Hr]; subst. apply epoch_history_le in Hx1, Hr. destruct Hs as [-> Hw].
  rewrite (Hw eq_refl eq_refl w eq_refl). lia.
Qed.

(** (C34) A change of password ends the tokens before it.  Take all calls of all
    requests in the order they happened, and a change of password among them that
    was recorded with epoch [ver]: tokens made of calls before it carry a smaller
    epoch, and afterwards the service neither lets in a token of a smaller epoch nor
    tells a gateway a smaller one. *)
Theorem password_change_revokes v0 l1 l2 vn hash ver
  (Hh : epoch_history v0 (l1 ++ Ev (SSetPasswordBump app account hash) (Ok ver) :: l2) vn) :
  (forall did secret tr body, exec (issue st account did secret) tr (Ok body) -> tr ⊆ l1 ->
     exists claims token exp shown,
       jwt_encode (au_jwt_secret st) claims = Ok token /\ cl_account claims = account /\ cl_ver claims < ver /\
       body = encode_to_vec (mkAuthResp token exp account (default ""%string did) shown)) /\
  (forall header tr claims, exec (live_claims st header) tr (Ok claims) -> tr ⊆ l2 -> cl_account claims = account ->
     ver <= cl_ver claims) /\
  (forall tr epoch, exec (account_epoch st account) tr (Ok epoch) -> tr ⊆ l2 -> ver <= epoch).
Proof.
  apply epoch_history_app in Hh as (v1 & Hx1 & Hx2). inversion Hx2 as [|? ? v2 ? ? Hs Hr]; subst.
  cbn in Hs. rewrite !bool_decide_eq_true_2 in Hs by done. destruct Hs as [-> ->]. split_and!.
  - intros did secret tr body (now & w & jti & claims & token & shown & _ & Hw & Hc & Ht & ->)%issue_ok Hsub.
    apply Hsub, (epoch_read _ _ _ _ Hx1) in Hw. unfold device_claims in Hc. destruct (check_account account); [|done].
    injection Hc as <-. eexists _, _, _, _. split_and!; [exact Ht|done|cbn; lia|done].
  - intros header tr claims (now & cached & w & _ & _ & _ & _ & Hw & Hle)%live_claims_ok Hsub E. rewrite E in Hw.
    apply Hsub, (epoch_read _ _ _ _ Hr) in Hw. lia.
  - intros tr epoch (cached & w & _ & Hw & ->)%account_epoch_ok Hsub. apply Hsub, (epoch_read _ _ _ _ Hr) in Hw. lia.
Qed.
End epochs.
End auth.

(** The memory directory moves its epochs so, short of the last of the 32-bit range. *)
Lemma directory_epoch_step `{Prost, RoyalProst, DecodeText, Jwt} st {G : Type} `{IdGenerator G} (d : MemoryUserDirectory G) account hash v :
  Users.token_epoch (au_app st) account d = Ok v -> v < u32_max ->
  let out := set_password_and_bump_epoch (au_app st) account hash d in
  exists v', Users.token_epoch (au_app st) account out.1 = Ok v' /\
    epoch_step st account v (Ev (SSetPasswordBump (au_app st) account hash) out.2) v'.
Proof.
  unfold Users.token_epoch, set_password_and_bump_epoch, update_row. cbn [epoch_step].
  rewrite !bool_decide_eq_true_2 by done. cbn.
  destruct (rows d !! (au_app st, account)) as [rec|] eqn:E; cbn; intros [= <-] Hv.
  - rewrite lookup_insert_eq. cbn. eexists. split; [done|]. lia.
  - exists 0. rewrite E. split; [done|lia].
Qed.

(** ** A service to run them on *)

#[local] Existing Instance demo_prost.
#[local] Existing Instance demo_royal.
#[local] Existing Instance demo_royal_ok.
#[local] Instance demo_text : DecodeText := fun _ => "invalid"%string.
#[local] Instance demo_jwt : Jwt := {|
  jwt_encode _ claims := Ok (if (cl_ver claims =? 1)%Z then "token" else "token-2")%string;
  jwt_decode _ _ _ := Some (mkClaims "alice" "kim" 90000 (Some "jti-1"%string) 1 None)
|}.
Definition demo_auth : AuthState := mkAuthState (mkRoyalState "kim" true "s") "jwt" 0 "" None true.

(** The state: the durable and the cached epoch. *)
Definition demo_accounts (X : Type) (e : SrvEff X) (s : Z * Z) : (Z * Z) * X :=
  match e in SrvEff X return (Z * Z) * X with
  | SCall e => (s, (Effects.quiet _ e tt).2)
  | SNow => (s, 0)
  | SUuid => (s, "id"%string)
  | SClaimNonce _ => (s, Ok true)
  | SKick _ _ => (s, tt)
  | SBotConfig _ _ _ => (s, Err UserMissing)
  | STokenEpoch _ _ => (s, Ok s.1)
  | SSetPasswordBump _ _ _ => ((s.1 + 1, s.2), Ok (s.1 + 1))
  | SGetEpoch _ => (s, Ok s.2)
  | SSetEpoch _ ver _ => ((s.1, ver), Ok tt)
  | SCreateUser _ _ _ => (s, Err UserConflict)
  | SPasswordHash _ _ => (s, Ok (Some "hash"%string))
  | SVerifyPassword _ _ => (s, Ok true)
  | SHashPassword _ => (s, Ok "new-hash"%string)
  | SIsRevoked _ => (s, Ok false)
  | SDeviceLookup _ _ _ => (s, Ok None)
  | SDeviceGet _ => (s, Ok None)
  | SRevoke _ _ | SDeviceEnroll _ _ _ _ | SHotPut _ _ | SHotDrop _ => (s, Ok tt)
  | SHotOk _ _ => (s, Ok false)
  end.

Definition demo_login : bytes := encode_to_vec (mkAuthReq "alice" "password-1" "" true [] "").
Definition demo_change : bytes := encode_to_vec (mkPasswordChangeReq "password-1" "password-2" [] [] "").
Definition demo_header : option string := Some "Bearer t"%string.
Definition run_accounts {A} (q : SProc A) (s : Z * Z) := run demo_accounts q s.
Lemma accounts_executed {A} (q : SProc A) s : exec q (run_accounts q s).1.2 (run_accounts q s).2.
Proof. apply exec_run. Qed.

Definition demo_token (ver : Z) : bytes := encode_to_vec (mkAuthResp "token" 86400 "alice" "id" "id").

Lemma login_checked_witness :
  exists req account password hash did found,
    let out := run_accounts (login id demo_auth demo_login) (1, 1) in
    decode_msg demo_login = Some req /\ valid_account (auth_req_account req) = Ok account /\
    resolve_password_field demo_auth (auth_req_password req) (auth_req_password_sealed req) (auth_req_key_id req) = Ok password /\
    Ev (SCall (ELookup "kim" account)) found ∈ out.1.2 /\ (forall q, found = Ok (Some q) -> up_kind q <> PROFILE_KIND_BOT) /\
    Ev (SPasswordHash "kim" account) (Ok (Some hash)) ∈ out.1.2 /\ Ev (SVerifyPassword password hash) (Ok true) ∈ out.1.2 /\
    issued demo_auth out.1.2 account did (demo_token 1) /\ bound_device demo_auth id out.1.2 account req did.
Proof.
  assert (E : (run_accounts (login id demo_auth demo_login) (1, 1)).2 = Ok (demo_token 1)) by (vm_compute; reflexivity).
  pose proof (accounts_executed (login id demo_auth demo_login) (1, 1)) as He. rewrite E in He.
  exact (login_checked demo_auth id demo_login _ (demo_token 1) He).
Defined.

Lemma password_changed_witness :
  let out := run_accounts (change_password demo_auth demo_header demo_change) (1, 1) in
  out.2 = Ok [] /\ length (changes out.1.2) = 1%nat /\
  (changes out.1.2 = [] \/ exists tr1 claims hashed x tr2,
     out.1.2 = tr1 ++ Ev (SSetPasswordBump "kim" (cl_account claims) hashed) x :: tr2).
Proof.
  cbv zeta. split; [vm_compute; reflexivity|]. split; [vm_compute; reflexivity|].
  destruct (password_changed demo_auth demo_header demo_change _ _
    (accounts_executed (change_password demo_auth demo_header demo_change) (1, 1)))
    as [Hn|(tr1 & claims & req & old & new & hash & hashed & x & tr2 & E & _)]; [by left|right].
  by exists tr1, claims, hashed, x, tr2.
Defined.

Lemma password_change_revokes_witness :
  let before := (run_accounts (issue demo_auth "alice" None None) (1, 1)).1.2 in
  let after := (run_accounts (account_epoch demo_auth "alice") (2, 1)).1.2 in
  epoch_history demo_auth "alice" 1 (before ++ Ev (SSetPasswordBump "kim" "alice" "h") (Ok 2) :: after) 2 /\
  (run_accounts (account_epoch demo_auth "alice") (2, 1)).2 = Ok 2 /\ 2 <= 2 /\
  exists claims token exp shown, jwt_encode "jwt" claims = Ok token /\ cl_account claims = "alice"%string /\ cl_ver claims < 2 /\
    encode_to_vec (mkAuthResp "token" 86400 "alice" "" "") = encode_to_vec (mkAuthResp token exp "alice" "" shown).
Proof.
  cbv zeta. set (before := (run_accounts (issue demo_auth "alice" None None) (1, 1)).1.2).
  set (after := (run_accounts (account_epoch demo_auth "alice") (2, 1)).1.2).
  assert (Hh : epoch_history demo_auth "alice" 1 (before ++ Ev (SSetPasswordBump "kim" "alice" "h") (Ok 2) :: after) 2).
  { unfold before, after. cbn. repeat (econstructor; [vm_compute; intuition congruence|]). constructor. }
  destruct (password_change_revokes demo_auth "alice" 1 before after 2 "h" 2 Hh) as (Hold & _ & Hnew).
  split_and!; [exact Hh|vm_compute; reflexivity| |].
  - exact (Hnew _ 2 (accounts_executed (account_epoch demo_auth "alice") (2, 1)) (fun _ Hx => Hx)).
  - exact (Hold None None before _ (accounts_executed (issue demo_auth "alice" None None) (1, 1)) (fun _ Hx => Hx)).
Defined.

(** ** Overlaps that the epochs do not order *)

Definition accounts_act (X : Type) (e : SrvEff X) (s : Z * Z) (x : X) (s' : Z * Z) : Prop := demo_accounts X e s = (s', x).
Abbreviation overlap := (rtc (pool_step accounts_act (fun _ _ => False))).

Lemma accounts_acts X (e : SrvEff X) s : accounts_act X e s (demo_accounts X e s).2 (demo_accounts X e s).1.
Proof. apply surjective_pairing. Qed.

(** The first task makes [n] calls, the second runs through, the first ends. *)
Lemma overlap_run {A B} (q : SProc A) (r : SProc B) n s :
  let s1 := (run_n demo_accounts n q s).2 in
  let s2 := (run demo_accounts r s1).1.1 in
  let last := run_n demo_accounts 20 (run_n demo_accounts n q s).1 s2 in
  overlap ([Task q; Task r], s) ([Task last.1; Task (Ret (run demo_accounts r s1).2)], last.2).
Proof.
  cbv zeta. etransitivity; [apply (pool_run_n demo_accounts _ _ accounts_acts n q [] [Task r])|].
  etransitivity; [apply (pool_run demo_accounts _ _ accounts_acts r [Task _])|].
  apply (pool_run_n demo_accounts _ _ accounts_acts 20 _ []).
Qed.

(** A check that read the epoch before a change of password writes it back after:
    the cached epoch, which gateways with a shared cache read alone, is then behind. *)
Example stale_epoch_cached :
  overlap ([Task (account_epoch demo_auth "alice"); Task (change_password demo_auth demo_header demo_change)], (1, 0))
    ([Task (Ret (Ok 1 : result Z HttpErr)); Task (Ret (Ok [] : result bytes HttpErr))], (2, 1)).
Proof. exact (overlap_run (account_epoch demo_auth "alice") (change_password demo_auth demo_header demo_change) 2 (1, 0)). Qed.

(** A sign-in with the old password that overlaps the change gets a token of the new
    epoch, which the change does not end. *)
Example old_password_outlives_change :
  overlap ([Task (login id demo_auth demo_login); Task (change_password demo_auth demo_header demo_change)], (1, 1))
    ([Task (Ret (Ok (encode_to_vec (mkAuthResp "token-2" 86400 "alice" "id" "id")) : result bytes HttpErr));
      Task (Ret (Ok [] : result bytes HttpErr))], (2, 2)).
Proof. exact (overlap_run (login id demo_auth demo_login) (change_password demo_auth demo_header demo_change) 3 (1, 1)). Qed.
