(* ===== verification/Pump.v ===== *)
(** The calls of the client and the pump that answers them: pump.rs and the calls
    of client.rs in crates/kim-client/src, with the drop reasons of link/mod.rs.

    A call registers a waiter under its sequence number, writes its frame and
    awaits the waiter; the reader decodes every frame and hands the event to the
    waiter of its sequence or to the queue of events.  The state is the tables the
    tasks share; a step is one frame read, so that calls and frames interleave
    freely.  The heartbeat, the idle watchdog and the write half only end a
    session and are not modelled. *)

From S2P Require Import Prelude Prog Wire Pkt Msgs TcpCodec ClientWire.
Open Scope Z_scope.
Open Scope kim_scope.

(** ** link/mod.rs *)

Inductive DropReason : Type :=
| DropConnectFail | DropHandshakeTimeout | DropReadError | DropWriteTimeout | DropClosed | DropDecode
| DropIdleTimeout | DropProbeFail | DropConfirmTimeout | DropSyncFailed | DropKickout | DropAuthFailed | DropStop.
#[export] Instance DropReason_eq_dec : EqDecision DropReason.
Proof. solve_decision. Defined.

Definition reason_str (r : DropReason) : string :=
  match r with
  | DropConnectFail => "connect-fail" | DropHandshakeTimeout => "handshake-timeout"
  | DropReadError => "read-error" | DropWriteTimeout => "write-timeout" | DropClosed => "closed"
  | DropDecode => "decode" | DropIdleTimeout => "idle-timeout" | DropProbeFail => "probe-fail"
  | DropConfirmTimeout => "confirm-timeout" | DropSyncFailed => "sync-failed" | DropKickout => "kickout"
  | DropAuthFailed => "auth-failed" | DropStop => "stop"
  end.
Definition is_fatal (r : DropReason) : bool :=
  match r with DropKickout | DropAuthFailed | DropStop => true | _ => false end.

(** ** pump.rs *)

Definition EVENT_CAP : Z := 64.

(** How the wait of a call ended: with an event, with its sender dropped, or with
    an error of its own write. *)
Inductive Wait : Type := Heard (e : ClientEvent) | Dropped | NotWritten (e : ClientError).

(** [waiters] lists the sequences of the calls so far: a waiter is an index of it.
    [pending] maps a sequence to its waiter; [outcome] holds how waits ended. *)
Record Live := mkLive {
  pending : gmap Z nat;
  outcome : gmap nat Wait;
  waiters : list Z;
  ping_waiting : bool;
  events : list ClientEvent;
  death : option DropReason;
  sunk_token : option (string * Z)
}.

Definition with_waiters (p : gmap Z nat) (o : gmap nat Wait) (st : Live) : Live :=
  mkLive p o (waiters st) (ping_waiting st) (events st) (death st) (sunk_token st).
Definition with_ping (b : bool) (st : Live) : Live :=
  mkLive (pending st) (outcome st) (waiters st) b (events st) (death st) (sunk_token st).

(** [die]: only the first reason is kept. *)
Definition die (r : DropReason) (st : Live) : Live :=
  mkLive (pending st) (outcome st) (waiters st) (ping_waiting st) (events st)
    (Some (default r (death st))) (sunk_token st).

(** [try_send] on the bounded queue of events. *)
Definition try_send (e : ClientEvent) (st : Live) : Live :=
  if len (events st) <? EVENT_CAP
  then mkLive (pending st) (outcome st) (waiters st) (ping_waiting st) (events st ++ [e]) (death st) (sunk_token st)
  else st.

Definition token_sink (token : string) (exp : Z) (st : Live) : Live :=
  mkLive (pending st) (outcome st) (waiters st) (ping_waiting st) (events st) (death st) (Some (token, exp)).

(** The sender of a waiter is dropped. *)
Definition drop_waiter (w : nat) (o : gmap nat Wait) : gmap nat Wait :=
  match o !! w with Some _ => o | None => <[w := Dropped]> o end.

(** [pending.insert(seq, tx)]: the waiter a sequence had before is dropped. *)
Definition register (seq : Z) (st : Live) : nat * Live :=
  let w := length (waiters st) in
  let o := match pending st !! seq with Some old => drop_waiter old (outcome st) | None => outcome st end in
  (w, mkLive (<[seq := w]> (pending st)) o (waiters st ++ [seq]) (ping_waiting st) (events st) (death st) (sunk_token st)).

(** [pending.clear()]. *)
Definition clear_pending (st : Live) : Live :=
  with_waiters ∅ (foldr (fun x o => drop_waiter x.2 o) (outcome st) (map_to_list (pending st))) st.

(** The sequence under which [dispatch] looks for a waiter. *)
Definition reply_sequence (e : ClientEvent) : option Z :=
  match e with
  | EvTalkResp r => Some (tr_sequence r)
  | EvStatus _ _ s | EvUserList _ s _ | EvProfile s _ | EvInbox s _ | EvHistory s _ _
  | EvOfflinePage s _ _ | EvOfflineContent s _ | EvAgentSpecSync s _ _ | EvAgentSpecUpsert s _ => Some s
  | _ => None
  end.

Definition deliver (seq : Z) (e : ClientEvent) (st : Live) : option Live :=
  match pending st !! seq with
  | Some w => Some (with_waiters (delete seq (pending st)) (<[w := Heard e]> (outcome st)) st)
  | None => None
  end.

Definition dispatch (e : ClientEvent) (st : Live) : Live :=
  match reply_sequence e with
  | Some seq => default (try_send e st) (deliver seq e st)
  | None =>
    match e with
    | EvPong => with_ping false st
    | EvTokenRenew token exp => try_send e (token_sink token exp st)
    | EvKickout _ => try_send e (die DropKickout st)
    | EvClosed => try_send e (with_ping false (clear_pending (die DropClosed st)))
    | _ => try_send e st
    end
  end.

(** What a read of the connection gives: a frame (and, for a ping, whether its
    pong could be written), or an error. *)
Inductive Incoming : Type := InFrame (frame : Frame) (pong_sent : bool) | InError.

(** One round of [read_data_pumped]: control frames are answered or skipped, and
    the loop goes on ([None]). *)
Definition read_data_pumped (i : Incoming) : option (result Frame ClientError) :=
  match i with
  | InError => Some (Err (Core Io))
  | InFrame f pong_sent =>
    match f_opcode f with
    | Close => Some (Err (Core Closed))
    | Ping => if pong_sent then None else Some (Err (Core Closed))
    | Pong | Continuation => None
    | Binary | Text => Some (Ok f)
    end
  end.

Section pump.
Context `{Prost}.

(** One round of the reader; the flag says that it goes on. *)
Definition reader_step (me : string) (r : result Frame ClientError) (st : Live) : Live * bool :=
  match r with
  | Err _ => (dispatch EvClosed (die DropReadError st), false)
  | Ok frame =>
    match decode_event frame me with
    | Err _ => (dispatch EvClosed (die DropDecode st), false)
    | Ok event =>
      let closed := match event with EvClosed => true | _ => false end in
      let st := if closed then die DropClosed st else st in
      let st := match event with EvKickout _ => die DropKickout st | _ => st end in
      (dispatch event st, negb closed)
    end
  end.

(** The pump of a session: the reader runs until it stops or is aborted; calls are
    written until the pump is shut down. *)
Record Pump := mkPump { live : Live; reading : bool; writable : bool }.

Definition Live_new : Live := mkLive ∅ ∅ [] false [] None None.
Definition start_split_pump : Pump := mkPump Live_new true true.

(** What happens to a pump: a call registers its waiter and hands its frame to the
    writer; the write of a call fails; the reader takes a frame or an error; the
    session is shut down, which aborts the reader. *)
Inductive PumpStep : Type :=
| PCall (seq : Z)
| PWriteFailed (seq : Z) (w : nat) (e : ClientError)
| PRead (i : Incoming)
| PShutdown.

Definition fail_write (seq : Z) (w : nat) (e : ClientError) (st : Live) : Live :=
  let o := <[w := NotWritten e]> (outcome st) in
  match pending st !! seq with
  | Some w' => with_waiters (delete seq (pending st)) (drop_waiter w' o) st
  | None => with_waiters (pending st) o st
  end.

Definition pump_step (me : string) (s : Pump) (a : PumpStep) : Pump :=
  match a with
  | PCall seq =>
    let '(w, st) := register seq (live s) in
    mkPump (if writable s then st else fail_write seq w (Core Closed) st) (reading s) (writable s)
  | PWriteFailed seq w e =>
    if decide (waiters (live s) !! w = Some seq)
    then mkPump (fail_write seq w e (live s)) (reading s) (writable s) else s
  | PRead i =>
    match read_data_pumped i with
    | Some r =>
      if reading s then let '(st, go) := reader_step me r (live s) in mkPump st go (writable s) else s
    | None => s
    end
  | PShutdown => mkPump (die DropStop (live s)) false false
  end.
Definition pump_run (me : string) (steps : list PumpStep) (s : Pump) : Pump := foldl (pump_step me) s steps.

(** ** client.rs: the calls *)

Inductive FriendOp : Type := FriendAsk | FriendAccept | FriendReject | FriendRemove.

Inductive Call : Type :=
| CallSend (dest : string) (kind : Z) (content : OutgoingContent) (client_id : string)
| CallInboxList (limit : Z)
| CallMarkRead (dest : string) (kind message_id : Z)
| CallStates (conversations : list (string * Z))
| CallHistory (dest : string) (kind before_id limit : Z)
| CallOfflineIndex
| CallOfflineContent (ids : list Z)
| CallBotCreate (client_profile_id nickname avatar bio : string) (config : ClientBotConfig)
| CallBotUpdate (dest nickname avatar bio : string) (config : ClientBotConfig)
| CallBotReply (dest body : string) (in_reply_to : Z) (client_id : string)
| CallBotPending (dest : string) (limit : Z)
| CallAgentSync
| CallAgentUpsert (record : option ClientAgentSpec) (account : option ClientAgentAccount)
| CallFriend (op : FriendOp) (dest : string)
| CallBotDelete (dest : string)
| CallFriendList
| CallFriendIncoming
| CallProfile (dest : string)
| CallUpdateProfile (nickname avatar bio : string)
| CallSearch (query : string)
| CallRoomEnter (dest : string) (kind : Z)
| CallRoomLeave (dest : string) (kind : Z).

Inductive CallAnswer : Type :=
| AnsUnit
| AnsTalk (r : TalkResult)
| AnsInbox (items : list ClientInboxItem)
| AnsState (state : option ClientReadState)
| AnsStates (states : list ClientReadState)
| AnsHistory (messages : list ClientHistoryItem)
| AnsIndexes (indexes : list ClientIndex)
| AnsContent (messages : list ClientMessage)
| AnsProfile (profile : Profile)
| AnsProfiles (users : list Profile)
| AnsPending (items : list ClientBotPending)
| AnsAgentSpecs (records : list ClientAgentSpec) (accounts : list ClientAgentAccount)
| AnsAgentSpec (record : ClientAgentSpec)
| AnsPresence (presence : list PresenceEntry).

Definition friend_command (op : FriendOp) : string :=
  match op with
  | FriendAsk => CMD_FRIEND_REQUEST | FriendAccept => CMD_FRIEND_ACCEPT
  | FriendReject => CMD_FRIEND_REJECT | FriendRemove => CMD_FRIEND_REMOVE
  end.

Definition call_frame (seq : Z) (c : Call) : bytes :=
  match c with
  | CallSend dest kind content client_id => encode_outgoing seq dest kind content client_id
  | CallInboxList limit => encode_inbox_list seq limit
  | CallMarkRead dest kind id => encode_inbox_read seq dest kind id
  | CallStates conversations => encode_inbox_states seq conversations
  | CallHistory dest kind before_id limit => encode_history seq dest kind before_id limit
  | CallOfflineIndex => encode_offline_index seq
  | CallOfflineContent ids => encode_offline_content seq ids
  | CallBotCreate id nickname avatar bio config => encode_bot_create seq id nickname avatar bio config
  | CallBotUpdate dest nickname avatar bio config => encode_bot_update seq dest nickname avatar bio config
  | CallBotReply dest body in_reply_to client_id => encode_bot_reply seq dest body "" client_id in_reply_to
  | CallBotPending dest limit => encode_bot_pending seq dest limit
  | CallAgentSync => encode_agent_spec_sync seq
  | CallAgentUpsert record account => encode_agent_spec_upsert seq record account
  | CallFriend op dest => encode_dest_cmd (friend_command op) seq dest
  | CallBotDelete dest => encode_dest_cmd CMD_BOT_DELETE seq dest
  | CallFriendList => encode_empty_cmd CMD_FRIEND_LIST seq
  | CallFriendIncoming => encode_empty_cmd CMD_FRIEND_INCOMING seq
  | CallProfile dest => encode_dest_cmd CMD_USER_PROFILE seq dest
  | CallUpdateProfile nickname avatar bio => encode_user_update seq nickname avatar bio
  | CallSearch query => encode_user_search seq query
  | CallRoomEnter dest kind => encode_room_enter seq dest kind
  | CallRoomLeave dest kind => encode_room_leave seq dest kind
  end.

(** The arms of [take] before the last two: the answer the call waits for. *)
Definition take_answer (seq : Z) (c : Call) (e : ClientEvent) : option CallAnswer :=
  let here (s : Z) (a : CallAnswer) := if s =? seq then Some a else None in
  match c, e with
  | (CallSend _ _ _ _ | CallBotReply _ _ _ _), EvTalkResp r => here (tr_sequence r) (AnsTalk r)
  | CallInboxList _, EvInbox s items => here s (AnsInbox items)
  | CallMarkRead _ _ _, EvConversationRead s state => here s (AnsState (Some state))
  | CallStates _, EvConversationStates s states => here s (AnsStates states)
  | CallHistory _ _ _ _, EvHistory s _ messages => here s (AnsHistory messages)
  | CallOfflineIndex, EvOfflinePage s indexes _ => here s (AnsIndexes indexes)
  | CallOfflineContent _, EvOfflineContent s messages => here s (AnsContent messages)
  | (CallBotCreate _ _ _ _ _ | CallBotUpdate _ _ _ _ _ | CallProfile _ | CallUpdateProfile _ _ _),
    EvProfile s profile => here s (AnsProfile profile)
  | CallBotPending _ _, EvBotPending s items => here s (AnsPending items)
  | CallAgentSync, EvAgentSpecSync s records accounts => here s (AnsAgentSpecs records accounts)
  | CallAgentUpsert _ _, EvAgentSpecUpsert s record => here s (AnsAgentSpec record)
  | (CallFriendList | CallFriendIncoming | CallSearch _), EvUserList _ s users => here s (AnsProfiles users)
  | CallRoomEnter _ _, EvRoomEnter s presence => here s (AnsPresence presence)
  | _, _ => None
  end.

(** What a call makes of [status = 0] without a body, where that is no error. *)
Definition on_status_zero (c : Call) : option CallAnswer :=
  match c with
  | CallFriend _ _ | CallBotDelete _ | CallRoomLeave _ _ => Some AnsUnit
  | CallMarkRead _ _ _ => Some (AnsState None)
  | _ => None
  end.

Definition take_event (seq : Z) (c : Call) (e : ClientEvent) : option (result CallAnswer ClientError) :=
  match take_answer seq c e with
  | Some a => Some (Ok a)
  | None =>
    match e with
    | EvStatus _ status s =>
      if s =? seq then
        match on_status_zero c with
        | Some a => Some (if status =? 0 then Ok a else Err (StatusError status))
        | None => Some (Err (StatusError status))
        end
      else None
    | _ => None
    end
  end.

(** [write_wait] from the moment its waiter is answered. *)
Definition finish (seq : Z) (c : Call) (o : Wait) : result CallAnswer ClientError :=
  match o with
  | Dropped => Err (Core Closed)
  | NotWritten e => Err e
  | Heard e => match take_event seq c e with Some r => r | None => Err (Other "mismatched response") end
  end.

(** What a call does before it waits: an answer of its own, or a frame. *)
Definition begin_call (logged_in : bool) (seq : Z) (c : Call) : result CallAnswer ClientError + bytes :=
  if negb logged_in then inl (Err NotLoggedIn)
  else match c with
  | CallMarkRead dest _ _ => if str_is_empty dest then inl (Ok (AnsState None)) else inr (call_frame seq c)
  | CallStates [] => inl (Ok (AnsStates []))
  | _ => inr (call_frame seq c)
  end.

(** A waiting call: its waiter is there and not answered yet. *)
Definition call_result (seq : Z) (c : Call) (w : nat) (st : Live) : option (result CallAnswer ClientError) :=
  option_map (finish seq c) (outcome st !! w).
End pump.

(** ** Requests on the wire *)

Definition call_command (c : Call) : string :=
  match c with
  | CallSend _ kind _ _ => if kind =? INBOX_KIND_GROUP then CMD_CHAT_GROUP_TALK else CMD_CHAT_USER_TALK
  | CallInboxList _ => CMD_INBOX_LIST | CallMarkRead _ _ _ => CMD_INBOX_READ
  | CallStates _ => CMD_INBOX_STATES | CallHistory _ _ _ _ => CMD_HISTORY
  | CallOfflineIndex => CMD_OFFLINE_INDEX | CallOfflineContent _ => CMD_OFFLINE_CONTENT
  | CallBotCreate _ _ _ _ _ => CMD_BOT_CREATE | CallBotUpdate _ _ _ _ _ => CMD_BOT_UPDATE
  | CallBotReply _ _ _ _ => CMD_BOT_REPLY | CallBotPending _ _ => CMD_BOT_PENDING
  | CallAgentSync => CMD_AGENT_SPEC_SYNC | CallAgentUpsert _ _ => CMD_AGENT_SPEC_UPSERT
  | CallFriend op _ => friend_command op | CallBotDelete _ => CMD_BOT_DELETE
  | CallFriendList => CMD_FRIEND_LIST | CallFriendIncoming => CMD_FRIEND_INCOMING
  | CallProfile _ => CMD_USER_PROFILE | CallUpdateProfile _ _ _ => CMD_USER_UPDATE
  | CallSearch _ => CMD_USER_SEARCH | CallRoomEnter _ _ => CMD_ROOM_ENTER | CallRoomLeave _ _ => CMD_ROOM_LEAVE
  end.

Definition call_dest (c : Call) : string :=
  match c with
  | CallSend dest _ _ _ | CallMarkRead dest _ _ | CallHistory dest _ _ _ | CallBotUpdate dest _ _ _ _
  | CallBotReply dest _ _ _ | CallBotPending dest _ | CallFriend _ dest | CallBotDelete dest
  | CallProfile dest => dest
  | _ => ""
  end.

(** The header of a request and of the response to it, up to the body's length. *)
Definition request_header (seq : Z) (c : Call) (n : Z) : Header :=
  mkHeader (call_command c) "" seq (Flag_as_i32 Request) (Status_as_i32 Success) (call_dest c) n [].
Definition answers_call (seq : Z) (c : Call) (status : Status) (p : LogicPkt) : Prop :=
  h_command (l_header p) = call_command c /\ h_sequence (l_header p) = seq /\
  h_flag (l_header p) = Flag_as_i32 Response /\ h_status (l_header p) = Status_as_i32 status /\
  h_body_length (l_header p) = wrap32 (len (l_body p)).

Section wire.
Context `{ProstOk}.

Lemma call_frame_packet seq c : exists body,
  call_frame seq c = marshal (Logic (mkLogicPkt (request_header seq c (wrap32 (len body))) body)).
Proof.
  destruct c; cbn [call_frame]; unfold encode_outgoing; try destruct content;
    unfold encode_inbox_list, encode_inbox_read, encode_inbox_states, encode_history, encode_offline_index,
      encode_offline_content, encode_bot_create, encode_bot_update, encode_bot_reply, encode_bot_pending,
      encode_agent_spec_sync, encode_agent_spec_upsert, encode_dest_cmd, encode_empty_cmd, encode_user_update,
      encode_user_search, encode_room_enter, encode_room_leave, request_frame, bare, write_body, set_dest,
      LogicPkt_new; cbn [l_header l_body]; by eexists.
Qed.

Lemma frame_fits (p : LogicPkt) : h_body_length (l_header p) = wrap32 (len (l_body p)) ->
  len (marshal (Logic p)) <= MAX_PAYLOAD -> header_fits p.
Proof.
  unfold marshal, LogicPkt_encode, MAX_PAYLOAD. rewrite !len_app. intros Hb Hl.
  pose proof (len_nonneg (encode_to_vec (l_header p))). pose proof (len_nonneg (l_body p)).
  pose proof (len_nonneg MAGIC_LOGIC_PKT). pose proof (len_nonneg (be32 (len (encode_to_vec (l_header p))))).
  split; [unfold u32_max; lia|]. rewrite Hb. unfold wrap32. apply Z.mod_small. lia.
Qed.

Lemma read_frame_back (p : LogicPkt) : h_body_length (l_header p) = wrap32 (len (l_body p)) ->
  len (marshal (Logic p)) <= MAX_PAYLOAD -> read (marshal (Logic p)) = Ok (Logic p).
Proof.
  intros Hb Hl. pose proof (frame_fits p Hb Hl) as Hf. unfold marshal, LogicPkt_encode.
  rewrite read_logic_magic. pose proof (LogicPkt_decode_app p [] Hf) as E. rewrite app_nil_r in E. by rewrite E.
Qed.
End wire.

(** ** Replies *)

(** The replies [dispatch] does not look up a waiter for. *)
Definition unheard (c : Call) (status : Status) (p : LogicPkt) : bool :=
  bool_decide (status = Success) &&
  match c with
  | CallMarkRead _ _ _ => negb (bool_decide (l_body p = []))
  | CallStates _ | CallBotPending _ _ | CallRoomEnter _ _ => true
  | _ => false
  end.

Lemma status_zero status : (Status_as_i32 status =? Status_as_i32 Success) = bool_decide (status = Success).
Proof. by destruct status. Qed.

Ltac eval_commands :=
  repeat match goal with
  | |- context [String.eqb ?a ?b] => let v := eval vm_compute in (String.eqb a b) in change (String.eqb a b) with v
  end; cbn [orb andb].

Lemma command_is_eqb c c' p : h_command (l_header p) = c' -> command_is c p = String.eqb c' c.
Proof. intros <-. unfold command_is. by case_bool_decide as E; [rewrite E, String.eqb_refl|symmetry; apply String.eqb_neq]. Qed.

Section replies.
Context `{Prost}.

Lemma decode_refused p : h_status (l_header p) <> Status_as_i32 Success ->
  decode_response p = Ok (status_event p).
Proof.
  intros Hst%Z.eqb_neq. unfold decode_response, with_reply, on_success. rewrite Hst. cbn [negb].
  repeat (case_match; try done).
Qed.

Lemma take_refused seq c status p : answers_call seq c status p -> status <> Success ->
  take_event seq c (status_event p) = Some (Err (StatusError (Status_as_i32 status))).
Proof.
  intros (_ & Hs & _ & Hst & _) Hne. unfold status_event, take_event. rewrite Hst, Hs, Z.eqb_refl.
  replace (take_answer seq c _) with (@None CallAnswer) by (by destruct c).
  destruct (on_status_zero c); [|done].
  replace (Status_as_i32 status =? 0) with false; [done|]. symmetry. apply Z.eqb_neq. by destruct status.
Qed.

Lemma take_accepted seq c p ev : answers_call seq c Success p -> decode_response p = Ok ev ->
  (exists a, take_event seq c ev = Some (Ok a)) /\ reply_sequence ev = if unheard c Success p then None else Some seq.
Proof.
  intros (Hc & Hs & _ & Hst & _). unfold decode_response, unheard, with_reply, on_success, status_event.
  rewrite !(command_is_eqb _ _ p Hc), Hst, Z.eqb_refl, Hs, (bool_decide_eq_true_2 (Success = Success)) by done.
  destruct c; cbn [call_command friend_command]; try destruct op; try (destruct (kind =? INBOX_KIND_GROUP));
    eval_commands; cbn [negb]; try case_bool_decide; intros E;
    try (unfold with_push in E; destruct (read_body p) as [m|]; [|done]); injection E as <-;
    unfold take_event, take_answer, on_status_zero; cbn; rewrite ?Z.eqb_refl; (split; [by eexists|done]).
Qed.
End replies.

(** ** Waiters *)

(** Every waiter is pending under its sequence or has an outcome, never both; and
    what it heard is an event [dispatch] looks waiters up for. *)
Record waiters_wf (st : Live) : Prop := {
  wf_pending : forall seq w, pending st !! seq = Some w -> waiters st !! w = Some seq /\ outcome st !! w = None;
  wf_outcome : forall w o, outcome st !! w = Some o -> (w < length (waiters st))%nat;
  wf_waiting : forall w seq, waiters st !! w = Some seq -> outcome st !! w = None -> pending st !! seq = Some w;
  wf_heard : forall w e, outcome st !! w = Some (Heard e) -> reply_sequence e = waiters st !! w
}.

Lemma lookup_drop_waiter w w' o : drop_waiter w o !! w' =
  match o !! w' with Some x => Some x | None => if decide (w = w') then Some Dropped else None end.
Proof.
  unfold drop_waiter. destruct (decide (w = w')) as [->|Hne].
  - destruct (o !! w') eqn:E; [done|]. by rewrite lookup_insert_eq.
  - destruct (o !! w); [by destruct (o !! w')|]. rewrite lookup_insert_ne by done. by destruct (o !! w').
Qed.

Lemma Live_new_wf : waiters_wf Live_new.
Proof. by split; intros *; cbn; rewrite ?lookup_empty, ?lookup_nil. Qed.

(** Fields other than the tables of waiters do not matter. *)
Lemma waiters_wf_ext st st' : pending st' = pending st -> outcome st' = outcome st -> waiters st' = waiters st ->
  waiters_wf st -> waiters_wf st'.
Proof. intros Ep Eo Ew [A B C D]. split; rewrite ?Ep, ?Eo, ?Ew; done. Qed.

Lemma register_wf seq st : waiters_wf st -> waiters_wf (register seq st).2.
Proof.
  intros [A B C D]. unfold register. split; cbn [snd pending outcome waiters].
  - intros s w. rewrite lookup_insert. case_decide as E.
    + intros [= <-]. subst s. rewrite lookup_app_r, Nat.sub_diag by lia. split; [done|].
      assert (Hn : outcome st !! length (waiters st) = None).
      { destruct (outcome st !! length (waiters st)) eqn:Eo; [|done]. apply B in Eo. lia. }
      destruct (pending st !! seq) as [old|] eqn:Ep; [|done].
      rewrite lookup_drop_waiter, Hn, decide_False; [done|]. intros ->. apply A in Ep as [Hw _].
      apply lookup_lt_Some in Hw. lia.
    + intros Hp. destruct (A _ _ Hp) as [Hw Ho]. split; [by apply lookup_app_l_Some|].
      destruct (pending st !! seq) as [old|] eqn:Ep; [|done]. rewrite lookup_drop_waiter, Ho, decide_False; [done|].
      intros ->. apply A in Ep as [Hw' _]. congruence.
  - intros w o. rewrite length_app; cbn [length]. destruct (pending st !! seq) as [old|] eqn:Ep.
    + rewrite lookup_drop_waiter. destruct (outcome st !! w) eqn:Eo; [intros _; apply B in Eo; lia|].
      case_decide; [subst|done]. intros _. apply A in Ep as [Hw _]. apply lookup_lt_Some in Hw. lia.
    + intros Ho%B. lia.
  - intros w s Hw Ho. destruct (decide (w < length (waiters st))%nat) as [Hlt|Hge].
    + rewrite lookup_app_l in Hw by done.
      assert (Ho' : outcome st !! w = None).
      { destruct (pending st !! seq); [|done]. rewrite lookup_drop_waiter in Ho. by destruct (outcome st !! w). }
      pose proof (C _ _ Hw Ho') as Hp. rewrite lookup_insert_ne; [done|]. intros <-.
      rewrite Hp, lookup_drop_waiter, Ho', decide_True in Ho; done.
    + rewrite lookup_app_r in Hw by lia. destruct (w - length (waiters st))%nat eqn:Ed; [|done].
      injection Hw as <-. rewrite lookup_insert_eq. f_equal. lia.
  - intros w e Ho. assert (Ho' : outcome st !! w = Some (Heard e)).
    { destruct (pending st !! seq); [|done]. rewrite lookup_drop_waiter in Ho.
      destruct (outcome st !! w); [done|]. by case_decide. }
    rewrite (D _ _ Ho'). symmetry. apply lookup_app_l. by eapply B.
Qed.

(** A pending waiter gets its outcome. *)
Lemma settle_wf seq w o st : waiters_wf st -> pending st !! seq = Some w ->
  (forall e, o = Heard e -> reply_sequence e = Some seq) ->
  waiters_wf (with_waiters (delete seq (pending st)) (<[w := o]> (outcome st)) st).
Proof.
  intros [A B C D] Hp He. destruct (A _ _ Hp) as [Hw Ho]. split; cbn [pending outcome waiters with_waiters].
  - intros s v. rewrite lookup_delete. case_decide; [done|]. intros Hv. destruct (A _ _ Hv) as [Hv' Hov].
    split; [done|]. rewrite lookup_insert_ne; [done|]. intros <-. congruence.
  - intros v x. rewrite lookup_insert. case_decide; [subst|apply B]. intros _. by eapply lookup_lt_Some.
  - intros v s Hv. rewrite lookup_insert. case_decide; [done|]. intros Hov. pose proof (C _ _ Hv Hov) as Hs.
    rewrite lookup_delete_ne; [done|]. intros <-. congruence.
  - intros v e. rewrite lookup_insert. case_decide; [subst|apply D]. intros [= ->]. rewrite Hw. by apply He.
Qed.

Lemma with_waiters_id st : with_waiters (pending st) (outcome st) st = st.
Proof. by destruct st. Qed.

Lemma drop_pending_waiter st w : outcome st !! w = None -> drop_waiter w (outcome st) = <[w := Dropped]> (outcome st).
Proof. intros E. unfold drop_waiter. by rewrite E. Qed.

Lemma deliver_wf seq e st st' : waiters_wf st -> deliver seq e st = Some st' -> reply_sequence e = Some seq ->
  waiters_wf st'.
Proof.
  unfold deliver. intros Hwf Hd He. destruct (pending st !! seq) as [w|] eqn:Ep; [|done].
  injection Hd as <-. apply settle_wf; [done|done|]. by intros ? [= <-].
Qed.

Lemma lookup_clear_pending st w : waiters_wf st -> outcome (clear_pending st) !! w =
  match outcome st !! w with
  | Some o => Some o
  | None => if decide (w < length (waiters st))%nat then Some Dropped else None
  end.
Proof.
  intros Hwf. unfold clear_pending. cbn [outcome with_waiters].
  assert (E : forall l : list (Z * nat), foldr (fun x o => drop_waiter x.2 o) (outcome st) l !! w =
    match outcome st !! w with Some o => Some o | None => if decide (w ∈ l.*2) then Some Dropped else None end).
  { induction l as [|x l IH]; cbn [foldr fmap list_fmap].
    - destruct (outcome st !! w); [done|]. rewrite decide_False; [done|apply not_elem_of_nil].
    - rewrite lookup_drop_waiter, IH. destruct (outcome st !! w); [done|].
      destruct (decide (w ∈ l.*2)) as [Hin|Hin]; [rewrite decide_True by (by right); done|].
      destruct (decide (x.2 = w)) as [->|Hne]; [rewrite decide_True by (by left); done|].
      rewrite decide_False; [done|]. intros [->|?]%elem_of_cons; done. }
  rewrite E. destruct (outcome st !! w) eqn:Eo; [done|]. apply decide_ext.
  rewrite list_elem_of_fmap. split.
  - intros ([s w'] & -> & Hin%elem_of_map_to_list). apply (wf_pending _ Hwf) in Hin as [Hw _].
    by eapply lookup_lt_Some.
  - intros [s Hs]%lookup_lt_is_Some. pose proof (wf_waiting _ Hwf _ _ Hs Eo) as Hp. exists (s, w).
    split; [done|]. by apply elem_of_map_to_list.
Qed.

Lemma clear_pending_wf st : waiters_wf st -> waiters_wf (clear_pending st).
Proof.
  intros Hwf. split.
  - intros s w. cbn. by rewrite lookup_empty.
  - intros w o. rewrite lookup_clear_pending by done. destruct (outcome st !! w) eqn:E.
    + intros _. exact (wf_outcome _ Hwf _ _ E).
    + by case_decide.
  - intros w s Hw. rewrite lookup_clear_pending by done. destruct (outcome st !! w); [done|].
    rewrite decide_True; [done|]. by eapply lookup_lt_Some.
  - intros w e. rewrite lookup_clear_pending by done. destruct (outcome st !! w) eqn:E; [|by case_decide].
    intros [= ->]. exact (wf_heard _ Hwf _ _ E).
Qed.

Lemma fail_write_wf seq w e st : waiters_wf st -> waiters st !! w = Some seq -> waiters_wf (fail_write seq w e st).
Proof.
  intros Hwf Hw. unfold fail_write.
  assert (Hset : outcome st !! w <> None -> forall x, outcome st !! w = Some x ->
    waiters_wf (with_waiters (pending st) (<[w := NotWritten e]> (outcome st)) st)).
  { intros _ x Hx. destruct Hwf as [A B C D]. split; cbn [pending outcome waiters with_waiters].
    - intros s v Hv. destruct (A _ _ Hv) as [Hv' Ho]. split; [done|]. rewrite lookup_insert_ne; [done|].
      intros <-. congruence.
    - intros v y. rewrite lookup_insert. case_decide; [subst|apply B]. intros _. by eapply B.
    - intros v s Hv. rewrite lookup_insert. case_decide; [done|]. by apply C.
    - intros v y. rewrite lookup_insert. case_decide; [done|]. apply D. }
  destruct (pending st !! seq) as [w'|] eqn:Ep.
  - destruct (wf_pending _ Hwf _ _ Ep) as [Hw' Ho']. destruct (decide (w = w')) as [<-|Hne].
    + unfold drop_waiter. rewrite lookup_insert_eq. by apply settle_wf.
    + destruct (outcome st !! w) as [x|] eqn:Eo.
      * pose proof (Hset ltac:(done) x eq_refl) as Hwf'.
        unfold drop_waiter. rewrite lookup_insert_ne, Ho' by done.
        apply (settle_wf seq w' Dropped _ Hwf'); [done|done].
      * pose proof (wf_waiting _ Hwf _ _ Hw Eo). congruence.
  - destruct (outcome st !! w) as [x|] eqn:Eo; [by eapply Hset|].
    pose proof (wf_waiting _ Hwf _ _ Hw Eo). congruence.
Qed.

(** ** Steps of the pump *)

Lemma try_send_ext e st : pending (try_send e st) = pending st /\ outcome (try_send e st) = outcome st /\
  waiters (try_send e st) = waiters st.
Proof. unfold try_send. by destruct (_ <? _). Qed.

Lemma try_send_wf e st : waiters_wf st -> waiters_wf (try_send e st).
Proof. intros. destruct (try_send_ext e st) as (? & ? & ?). by eapply waiters_wf_ext. Qed.

Lemma dispatch_waiters e st : waiters (dispatch e st) = waiters st.
Proof.
  unfold dispatch, deliver. destruct (reply_sequence e) as [seq|].
  - destruct (pending st !! seq); [done|]. apply try_send_ext.
  - destruct e; try apply try_send_ext; [done|..]; by rewrite (proj2 (proj2 (try_send_ext _ _))).
Qed.

Lemma dispatch_wf e st : waiters_wf st -> waiters_wf (dispatch e st).
Proof.
  intros Hwf. unfold dispatch. destruct (reply_sequence e) as [seq|] eqn:Es.
  - destruct (deliver seq e st) as [st'|] eqn:Ed; [by eapply deliver_wf|]. by apply try_send_wf.
  - destruct e; try (by apply try_send_wf); [by apply (waiters_wf_ext st)|..];
      apply try_send_wf; [by apply (waiters_wf_ext st)..|].
    apply (waiters_wf_ext (clear_pending (die DropClosed st))); [done..|]. apply clear_pending_wf. by apply (waiters_wf_ext st).
Qed.

Lemma dispatch_closed st : pending (dispatch EvClosed st) = ∅.
Proof. unfold dispatch. cbn [reply_sequence]. by rewrite (proj1 (try_send_ext _ _)). Qed.

(** What is settled stays, unless a write fails. *)
Lemma dispatch_keeps e st w o : waiters_wf st -> outcome st !! w = Some o -> outcome (dispatch e st) !! w = Some o.
Proof.
  intros Hwf Ho. unfold dispatch, deliver. destruct (reply_sequence e) as [seq|].
  - destruct (pending st !! seq) as [w'|] eqn:Ep; simpl.
    + rewrite lookup_insert_ne; [done|]. intros <-. apply (wf_pending _ Hwf) in Ep as [_ Hn]. congruence.
    + by rewrite (proj1 (proj2 (try_send_ext _ _))).
  - destruct e; rewrite ?(proj1 (proj2 (try_send_ext _ _))); try done.
    cbn [with_ping outcome]. rewrite lookup_clear_pending by exact (waiters_wf_ext st (die DropClosed st) eq_refl eq_refl eq_refl Hwf). cbn [die outcome]. by rewrite Ho.
Qed.

Section steps.
Context `{Prost}.

(** Events no reply decodes to. *)
Definition ordinary (e : ClientEvent) : bool := match e with EvClosed | EvKickout _ => false | _ => true end.

Lemma with_push_all {T} `{WireMsg T} (P : ClientEvent -> Prop) p (k : T -> ClientEvent) ev :
  (forall m, P (k m)) -> with_push p k = Ok ev -> P ev.
Proof. intros Hk. unfold with_push. destruct (read_body p) as [m|]; [|done]. by intros [= <-]. Qed.
Lemma on_success_all (P : ClientEvent -> Prop) p k ev :
  P (status_event p) -> (k = Ok ev -> P ev) -> on_success p k = Ok ev -> P ev.
Proof. intros Hs Hk. unfold on_success. destruct (negb _); [by intros [= <-]|done]. Qed.
Lemma with_reply_all {T} `{WireMsg T} (P : ClientEvent -> Prop) p (k : T -> ClientEvent) ev :
  P (status_event p) -> (forall m, P (k m)) -> with_reply p k = Ok ev -> P ev.
Proof. intros Hs Hk. apply on_success_all; [done|]. by apply with_push_all. Qed.

Lemma decode_response_ordinary p ev : decode_response p = Ok ev -> ordinary ev = true.
Proof.
  unfold decode_response.
  pose (P := fun e => ordinary e = true).
  repeat (case_match; [first [by intros [= <-] | by apply (with_reply_all P) |
    apply (on_success_all P); [done|]; case_match; [by intros [= <-]|by apply (with_push_all P)] |
    case_match; by apply (with_reply_all P)]|]). by intros [= <-].
Qed.

(** Only the pump itself makes the event that ends a session. *)
Lemma decode_event_open frame me : decode_event frame me <> Ok EvClosed.
Proof.
  unfold decode_event. destruct (read (f_payload frame)) as [[b|p]|e]; [by destruct (_ =? _)| |done].
  unfold decode_logic. destruct (is_kickout p); [done|]. destruct (flag_is PushFlag p).
  - unfold decode_push.
    repeat (case_match; [simpl; intros E; refine (with_push_all (fun e => e = EvClosed -> False) _ _ _ _ E eq_refl);
      intros; unfold presence_event in *; by repeat case_match|]). done.
  - destruct (flag_is Response p); [|done]. intros E%decode_response_ordinary. done.
Qed.

Lemma die_wf r st : waiters_wf st -> waiters_wf (die r st).
Proof. by apply waiters_wf_ext. Qed.

Lemma reader_step_wf me r st : waiters_wf st -> waiters_wf (reader_step me r st).1.
Proof.
  intros Hwf. unfold reader_step. destruct r as [frame|e]; [|by apply dispatch_wf, die_wf].
  destruct (decode_event frame me) as [e|]; [|by apply dispatch_wf, die_wf].
  apply dispatch_wf. destruct e; simpl; auto using die_wf.
Qed.

Lemma reader_step_waiters me r st : waiters (reader_step me r st).1 = waiters st.
Proof.
  unfold reader_step. destruct r as [frame|e]; [|cbn [fst]; by rewrite dispatch_waiters].
  destruct (decode_event frame me) as [e|]; cbn [fst]; rewrite dispatch_waiters; [by destruct e|done].
Qed.

Lemma reader_step_stops me r st : (reader_step me r st).2 = false -> pending (reader_step me r st).1 = ∅.
Proof.
  unfold reader_step. destruct r as [frame|e]; [|intros _; apply dispatch_closed].
  destruct (decode_event frame me) as [e|] eqn:E; [|intros _; apply dispatch_closed].
  destruct e; cbn [negb snd fst]; try done. by apply decode_event_open in E.
Qed.

Lemma pump_step_wf me s a : waiters_wf (live s) -> waiters_wf (live (pump_step me s a)).
Proof.
  intros Hwf. destruct a as [seq|seq w e|i|]; cbn [pump_step].
  - pose proof (register_wf seq _ Hwf) as Hr. destruct (register seq (live s)) as [w st] eqn:E.
    cbn [live]. destruct (writable s); [done|]. apply fail_write_wf; [done|].
    unfold register in E. injection E as <- <-. cbn [waiters]. rewrite lookup_app_r, Nat.sub_diag by lia. done.
  - case_decide; [|done]. by apply fail_write_wf.
  - destruct (read_data_pumped i) as [r|]; [|done]. destruct (reading s); [|done].
    pose proof (reader_step_wf me r _ Hwf). by destruct (reader_step me r (live s)).
  - by apply (waiters_wf_ext (live s)).
Qed.

Lemma pump_run_wf me steps : waiters_wf (live (pump_run me steps start_split_pump)).
Proof.
  unfold pump_run. assert (Hg : forall s, waiters_wf (live s) -> waiters_wf (live (foldl (pump_step me) s steps))).
  { induction steps as [|a steps IH]; intros s Hs; [done|]. cbn [foldl]. by apply IH, pump_step_wf. }
  apply Hg, Live_new_wf.
Qed.
End steps.
