(* ===== verification/PumpSpec.v ===== *)
(** What the client's calls come to: which replies reach the call that waits for
    them, which never do, and what the end of a session does to the calls in
    flight. *)

From S2P Require Import Prelude Prog Wire Pkt Msgs TcpCodec ClientWire Router Pump.
Open Scope Z_scope.
Open Scope kim_scope.

(** The packet the service answers a request with ([resp] and [resp_bytes] of
    context.rs). *)
Definition reply_packet (ctx : Context) (status : Status) (body : bytes) : LogicPkt :=
  let packet := response_packet ctx status in
  mkLogicPkt (h_with_body_length (wrap32 (len body)) (l_header packet)) body.

Definition reply_frame `{Prost} (p : LogicPkt) : Incoming :=
  InFrame (Frame_binary (marshal (Logic p))) true.

(** Answers that are states, pending turns or presence. *)
Definition never_heard (a : CallAnswer) : bool :=
  match a with
  | AnsState (Some _) | AnsStates _ | AnsPending _ | AnsPresence _ => true
  | _ => false
  end.

(** A step that does not touch the waiters of a sequence. *)
Definition spares (seq : Z) (a : PumpStep) : Prop :=
  match a with PCall s | PWriteFailed s _ _ => s <> seq | PRead _ | PShutdown => True end.

Section calls.
Context `{ProstOk}.

Lemma call_read seq c : len (call_frame seq c) <= MAX_PAYLOAD -> exists q,
  read (call_frame seq c) = Ok (Logic q) /\ exists n, l_header q = request_header seq c n.
Proof.
  intros Hl. destruct (call_frame_packet seq c) as [body E]. rewrite E in Hl |- *.
  eexists. split; [apply read_frame_back; [done|exact Hl]|]. by eexists.
Qed.

Lemma reply_answers seq c ctx status body n :
  l_header (request ctx) = request_header seq c n -> answers_call seq c status (reply_packet ctx status body).
Proof. intros E. unfold answers_call, reply_packet, response_packet, header. rewrite E. done. Qed.

Lemma decode_reply seq c status p me : answers_call seq c status p -> len (marshal (Logic p)) <= MAX_PAYLOAD ->
  decode_event (Frame_binary (marshal (Logic p))) me = decode_response p.
Proof.
  intros (Hc & Hs & Hf & Hst & Hb) Hl. unfold decode_event. cbn [f_payload Frame_binary Frame_new].
  rewrite read_frame_back by done. unfold decode_logic, is_kickout, flag_is. rewrite Hf. done.
Qed.

Lemma reader_step_reply seq c status p me st ev : answers_call seq c status p ->
  len (marshal (Logic p)) <= MAX_PAYLOAD -> decode_response p = Ok ev ->
  reader_step me (Ok (Frame_binary (marshal (Logic p)))) st = (dispatch ev st, true).
Proof.
  intros Ha Hl Hd. unfold reader_step. rewrite (decode_reply _ _ _ _ _ Ha Hl), Hd.
  pose proof (decode_response_ordinary _ _ Hd) as Ho. by destruct ev.
Qed.

Lemma pump_reads_reply seq c status p me s ev : answers_call seq c status p ->
  len (marshal (Logic p)) <= MAX_PAYLOAD -> decode_response p = Ok ev -> reading s = true ->
  live (pump_step me s (PRead (reply_frame p))) = dispatch ev (live s).
Proof.
  intros Ha Hl Hd Hr. cbn [pump_step reply_frame read_data_pumped f_opcode Frame_binary Frame_new].
  by rewrite Hr, (reader_step_reply _ _ _ _ _ _ _ Ha Hl Hd).
Qed.

Lemma dispatch_hears st seq w ev : waiters_wf st -> waiters st !! w = Some seq -> outcome st !! w = None ->
  reply_sequence ev = Some seq -> outcome (dispatch ev st) !! w = Some (Heard ev).
Proof.
  intros Hwf Hw Ho He. unfold dispatch, deliver. rewrite He, (wf_waiting _ Hwf _ _ Hw Ho). simpl.
  apply lookup_insert_eq.
Qed.

Lemma dispatch_ignores st w ev : ordinary ev = true -> reply_sequence ev = None -> outcome st !! w = None ->
  outcome (dispatch ev st) !! w = None.
Proof.
  intros Ho He Hn. unfold dispatch. rewrite He.
  destruct ev; try done; by rewrite (proj1 (proj2 (try_send_ext _ _))).
Qed.

(** Once nobody reads, a call that waits goes on waiting. *)
Lemma stranded_step me s a w seq : waiters_wf (live s) -> reading s = false -> spares seq a ->
  waiters (live s) !! w = Some seq -> outcome (live s) !! w = None ->
  let s' := pump_step me s a in
  reading s' = false /\ waiters (live s') !! w = Some seq /\ outcome (live s') !! w = None.
Proof.
  intros Hwf Hr Ha Hw Ho. pose proof (wf_waiting _ Hwf _ _ Hw Ho) as Hp. pose proof (lookup_lt_Some _ _ _ Hw) as Hlt.
  assert (Hdrop : forall s' w', s' <> seq -> pending (live s) !! s' = Some w' -> w' <> w).
  { intros s' w' Hne Hp' ->. apply (wf_pending _ Hwf) in Hp' as [Hw' _]. congruence. }
  destruct a as [seq'|seq' w' e|i|]; cbn [pump_step spares] in *.
  - unfold register. cbv zeta. set (o := match pending (live s) !! seq' with Some old => _ | None => _ end).
    assert (Hreg : o !! w = None).
    { unfold o. destruct (pending (live s) !! seq') as [old|] eqn:Eo; [|done].
      rewrite lookup_drop_waiter, Ho, decide_False; [done|]. by eapply Hdrop. }
    destruct (writable s); cbn [live reading waiters outcome]; (split; [done|]).
    + split; [by apply lookup_app_l_Some|done].
    + unfold fail_write. cbn [pending outcome waiters with_waiters]. rewrite lookup_insert_eq.
      cbn [waiters outcome with_waiters]. split; [by apply lookup_app_l_Some|].
      rewrite lookup_drop_waiter, lookup_insert_ne, Hreg by lia. rewrite decide_False; [done|lia].
  - case_decide as Eg; [|done]. cbn [live reading]. split; [done|]. unfold fail_write.
    assert (w' <> w) by congruence.
    destruct (pending (live s) !! seq') as [w''|] eqn:Ew; cbn [waiters outcome with_waiters]; (split; [done|]).
    + rewrite lookup_drop_waiter, lookup_insert_ne, Ho, decide_False; [done|by eapply Hdrop|done].
    + by rewrite lookup_insert_ne.
  - rewrite Hr. by destruct (read_data_pumped i).
  - done.
Qed.

Lemma stranded_run me more s w seq : waiters_wf (live s) -> reading s = false -> Forall (spares seq) more ->
  waiters (live s) !! w = Some seq -> outcome (live s) !! w = None -> outcome (live (pump_run me more s)) !! w = None.
Proof.
  unfold pump_run. intros Hwf Hr Hm. revert s Hwf Hr. induction Hm as [|a more Ha Hm IH]; intros s Hwf Hr Hw Ho; [done|].
  cbn [foldl]. destruct (stranded_step me s a w seq Hwf Hr Ha Hw Ho) as (? & ? & ?).
  apply IH; try done. by apply pump_step_wf.
Qed.

Lemma settled_when_none_pending st w seq : waiters_wf st -> pending st = ∅ -> waiters st !! w = Some seq ->
  is_Some (outcome st !! w).
Proof.
  intros Hwf Hp Hw. destruct (outcome st !! w) eqn:E; [done|]. pose proof (wf_waiting _ Hwf _ _ Hw E) as Hs.
  by rewrite Hp, lookup_empty in Hs.
Qed.
End calls.

(** (C28) Calls are answered.  Take any call of the client, in whatever state the
    pump reached, that still waits while the reader runs, and let the service read
    the call's frame: it finds the call's command and destination in it.  If it then
    answers with [resp] or [resp_bytes], and the answer fits a frame and its body
    decodes, then as soon as the reader takes that one frame the call returns: with
    an answer when the status is success, with exactly the status as its error
    otherwise; never with "mismatched response".  Excepted are the four kinds of
    successful replies [unheard] names, which go to the event queue instead. *)
Theorem reply_reaches_call `{ProstOk} (me : string) (c : Call) (seq : Z) (steps : list PumpStep) (w : nat)
  (ctx : Context) (status : Status) (body : bytes)
  (s := pump_run me steps start_split_pump) (p := reply_packet ctx status body)
  (Hsent : len (call_frame seq c) <= MAX_PAYLOAD) (Hread : read (call_frame seq c) = Ok (Logic (request ctx)))
  (Hopen : reading s = true) (Hw : waiters (live s) !! w = Some seq) (Hwait : outcome (live s) !! w = None)
  (Hsize : len (marshal (Logic p)) <= MAX_PAYLOAD)
  (Hbody : status = Success -> is_ok (decode_response p) = true) (Hheard : unheard c status p = false) :
  h_command (header ctx) = call_command c /\ h_dest (header ctx) = call_dest c /\
  exists r, call_result seq c w (live (pump_step me s (PRead (reply_frame p)))) = Some r /\
    if bool_decide (status = Success) then is_ok r = true else r = Err (StatusError (Status_as_i32 status)).
Proof.
  destruct (call_read seq c Hsent) as (q & Eq & n & Hq). rewrite Hread in Eq. injection Eq as <-.
  pose proof (reply_answers seq c ctx status body n Hq) as Ha. fold p in Ha.
  unfold header. rewrite Hq. split; [done|]. split; [done|].
  assert (Hd : exists ev, decode_response p = Ok ev /\ reply_sequence ev = Some seq /\ exists r, take_event seq c ev = Some r /\
    if bool_decide (status = Success) then is_ok r = true else r = Err (StatusError (Status_as_i32 status))).
  { case_bool_decide as Es; [subst status|].
    - specialize (Hbody eq_refl). destruct (decode_response p) as [ev|] eqn:Ed; [|done]. exists ev. split; [done|].
      destruct (take_accepted _ _ _ _ Ha Ed) as [[a Et] Er]. rewrite Hheard in Er. split; [done|]. by eexists.
    - exists (status_event p). assert (Hne : h_status (l_header p) <> Status_as_i32 Success).
      { destruct Ha as (_ & _ & _ & -> & _). by destruct status. }
      split; [by apply decode_refused|]. split.
      + unfold status_event. cbn [reply_sequence]. f_equal. apply Ha.
      + eexists. split; [by apply take_refused|done]. }
  destruct Hd as (ev & Ed & Er & r & Et & Hr). exists r. split; [|done].
  rewrite (pump_reads_reply _ _ _ _ _ _ _ Ha Hsize Ed Hopen). unfold call_result.
  pose proof (dispatch_hears _ seq w ev (pump_run_wf me steps) Hw Hwait Er) as Eh. fold s in Eh.
  rewrite Eh. simpl. by rewrite Et.
Qed.

(** (C29) Replies the client never hears.  The pump looks no waiter up for the
    events of a read mark's state, of conversation states, of a bot's pending turns
    and of a room's presence: such a reply leaves the call that asked for it
    waiting, and in no history of a pump does a call return one of these answers.
    [mark_read_state], [conversation_states], [bot_pending] and [room_enter]
    cannot succeed with content over a live connection. *)
Theorem unheard_replies `{ProstOk} (me : string) (c : Call) (seq : Z) (steps : list PumpStep) (w : nat)
  (s := pump_run me steps start_split_pump) (status : Status) (p : LogicPkt) :
  (answers_call seq c status p -> len (marshal (Logic p)) <= MAX_PAYLOAD -> reading s = true ->
   outcome (live s) !! w = None -> unheard c status p = true -> is_ok (decode_response p) = true ->
   call_result seq c w (live (pump_step me s (PRead (reply_frame p)))) = None) /\
  (forall a, call_result seq c w (live s) = Some (Ok a) -> never_heard a = false).
Proof.
  split.
  - intros Ha Hl Hr Ho Hu Hd. destruct (decode_response p) as [ev|] eqn:Ed; [|done].
    assert (status = Success) as -> by (unfold unheard in Hu; by destruct (bool_decide_reflect (status = Success))).
    destruct (take_accepted _ _ _ _ Ha Ed) as [_ Er]. rewrite Hu in Er.
    rewrite (pump_reads_reply _ _ _ _ _ _ _ Ha Hl Ed Hr). unfold call_result.
    by rewrite (dispatch_ignores _ w ev (decode_response_ordinary _ _ Ed) Er Ho).
  - intros a. unfold call_result. destruct (outcome (live s) !! w) as [o|] eqn:Ho; [|done]. simpl.
    destruct o as [e| |e]; cbn [finish]; [|done..]. intros [= E].
    pose proof (wf_heard _ (pump_run_wf me steps) _ _ Ho) as He.
    assert (Hw : is_Some (reply_sequence e)).
    { rewrite He. apply lookup_lt_is_Some. exact (wf_outcome _ (pump_run_wf me steps) _ _ Ho). }
    unfold take_event, take_answer, on_status_zero in E.
    destruct c, e; cbn [reply_sequence] in Hw; try (by destruct Hw); repeat (case_match; try done); by simplify_eq.
Qed.

(** The end of a session.  When the reader comes to its end (the connection
    closed, an error, a frame it cannot decode) every call made so far has
    returned.  But a call whose waiter is there while nobody reads does not return
    unless writing its own frame fails: so it is with a call in flight whose frame
    was written when the session is shut down ([disconnect] aborts the reader and
    leaves the waiters in the table), and with one made after the reader ended while
    frames are still taken for writing. *)
Theorem session_end_strands_calls `{ProstOk} (me : string) (steps : list PumpStep) (w : nat) (seq : Z)
  (s := pump_run me steps start_split_pump) :
  (forall i, reading s = true -> reading (pump_step me s (PRead i)) = false ->
     waiters (live s) !! w = Some seq -> is_Some (outcome (live (pump_step me s (PRead i))) !! w)) /\
  (forall a more c, a = PShutdown \/ a = PCall seq /\ reading s = false /\ writable s = true ->
     Forall (spares seq) more -> waiters (live (pump_step me s a)) !! w = Some seq ->
     outcome (live (pump_step me s a)) !! w = None ->
     call_result seq c w (live (pump_run me more (pump_step me s a))) = None) /\
  (outcome (live (pump_step me s PShutdown)) = outcome (live s)) /\
  (reading s = false -> writable s = true -> outcome (live (pump_step me s (PCall seq))) !! length (waiters (live s)) = None).
Proof.
  pose proof (pump_run_wf me steps) as Hwf. fold s in Hwf. split_and!.
  - intros i Hr. cbn [pump_step]. destruct (read_data_pumped i) as [r|]; [|intros; congruence].
    rewrite Hr. pose proof (reader_step_wf me r _ Hwf) as Hwf'. pose proof (reader_step_stops me r (live s)) as Hs.
    pose proof (reader_step_waiters me r (live s)) as Ew. destruct (reader_step me r (live s)) as [st go].
    cbn [fst snd live reading] in *. intros -> Hw. apply (settled_when_none_pending st w seq); auto. congruence.
  - intros a more c Ha Hm Hw Ho. unfold call_result.
    rewrite (stranded_run me more _ w seq); [done|by apply pump_step_wf| |done|done|done].
    destruct Ha as [->|(-> & Hr & Hwr)]; [done|]. cbn [pump_step]. by destruct (register seq (live s)).
  - done.
  - intros Hr Hwr. pose proof (register_wf seq _ Hwf) as Hwf'. cbn [pump_step]. rewrite Hwr.
    unfold register in *. cbn [live] in *. apply (wf_pending _ Hwf' seq). cbn [snd pending]. apply lookup_insert_eq.
Qed.

(** ** Concrete runs *)

Section demo.
#[local] Existing Instance demo_prost.
#[local] Existing Instance demo_prost_ok.

Definition demo_session : Session := mkSession "ch1" "gw1" "alice" "" "" "" "mobile" "kim" [] "j1" "".
Definition demo_request : LogicPkt :=
  match read (call_frame 5 CallOfflineIndex) with Ok (Logic q) => q | _ => LogicPkt_new "" 0 [] end.
Definition demo_ctx : Context := mkContext demo_request demo_session.
Definition demo_body : bytes := encode_to_vec (mkMessageIndexResp [mkMessageIndex 7 0 9 "bob" ""] false).
Definition demo_reply : LogicPkt := reply_packet demo_ctx Success demo_body.

Lemma demo_sizes : len (call_frame 5 CallOfflineIndex) <= MAX_PAYLOAD /\ len (marshal (Logic demo_reply)) <= MAX_PAYLOAD.
Proof. split; vm_compute; discriminate. Qed.
Lemma demo_read : read (call_frame 5 CallOfflineIndex) = Ok (Logic (request demo_ctx)).
Proof. vm_compute. reflexivity. Qed.
Lemma demo_decodes : is_ok (decode_response demo_reply) = true.
Proof. vm_compute. reflexivity. Qed.

Lemma reply_reaches_call_witness :
  exists r, call_result 5 CallOfflineIndex 0
    (live (pump_step "alice" (pump_run "alice" [PCall 5] start_split_pump) (PRead (reply_frame demo_reply)))) = Some r /\
    is_ok r = true.
Proof.
  destruct (reply_reaches_call "alice" CallOfflineIndex 5 [PCall 5] 0 demo_ctx Success demo_body
    (proj1 demo_sizes) demo_read eq_refl eq_refl eq_refl (proj2 demo_sizes) (fun _ => demo_decodes) eq_refl)
    as (_ & _ & r & Er & Hr). exact (ex_intro _ r (conj Er Hr)).
Defined.

(** The reply to a read mark carries the state, and the caller goes on waiting. *)
Definition demo_mark : Call := CallMarkRead "bob" 0 7.
Definition demo_mark_request : LogicPkt :=
  match read (call_frame 6 demo_mark) with Ok (Logic q) => q | _ => LogicPkt_new "" 0 [] end.
Definition demo_state : LogicPkt :=
  reply_packet (mkContext demo_mark_request demo_session) Success
    (encode_to_vec (mkPbConversationReadState "bob" 0 7 7 0 1 true)).

Lemma demo_state_facts : answers_call 6 demo_mark Success demo_state /\
  len (marshal (Logic demo_state)) <= MAX_PAYLOAD /\ unheard demo_mark Success demo_state = true /\
  is_ok (decode_response demo_state) = true.
Proof. unfold answers_call. split_and!; vm_compute; first [reflexivity|discriminate]. Qed.

Lemma unheard_replies_witness : call_result 6 demo_mark 0
  (live (pump_step "alice" (pump_run "alice" [PCall 6] start_split_pump) (PRead (reply_frame demo_state)))) = None.
Proof.
  destruct demo_state_facts as (Ha & Hl & Hu & Hd).
  exact (proj1 (unheard_replies "alice" demo_mark 6 [PCall 6] 0 Success demo_state) Ha Hl eq_refl eq_refl Hu Hd).
Defined.

(** A message being sent when the session is shut down: later calls and frames do
    not help. *)
Definition demo_send : Call := CallSend "bob" 0 (OText "hi") "c1".
Lemma session_end_strands_calls_witness :
  call_result 2 demo_send 0 (live (pump_run "alice" [PCall 3; PRead InError; PShutdown]
    (pump_step "alice" (pump_run "alice" [PCall 2] start_split_pump) PShutdown))) = None.
Proof.
  destruct (session_end_strands_calls "alice" [PCall 2] 0 2) as (_ & H & _ & _).
  apply H; [by left| |done|done]. repeat constructor; done.
Defined.
End demo.
