(* ===== verification/Sync.v ===== *)
(** Offline catch-up of the client: sync.rs, persist.rs and the events of
    supervisor.rs in crates/kim-client/src.

    [SyncEngine::run] asks for the inbox, then fetches pages of what the device
    missed, hands each page to the application and acknowledges it.  It is a
    program over the calls [SyncEff]: requests to the service, calls of the persist
    hook, events sent to the application, the confirmation it waits for.  The set
    of ids seen is shared with the dispatch loop, which may add ids between two
    pages when no hook is installed ([SOthersSaw]); with a hook it does not touch
    the set. *)

From S2P Require Import Prelude Prog Wire Pkt ClientWire Pump.
Open Scope Z_scope.
Open Scope kim_scope.

(** ** persist.rs *)

Inductive UnreadPolicy : Type := Keep | IfInserted.
Inductive PersistError : Type := Busy | StorageFull | Disk (message : string) | StaleEpoch.
Definition PersistError_text (e : PersistError) : string :=
  match e with
  | Busy => "busy" | StorageFull => "storage full" | Disk _ => "disk error" | StaleEpoch => "stale epoch"
  end.

(** ** supervisor.rs: events *)

Inductive LinkState : Type := Connecting | Online | Reconnecting (attempt : Z) | Offline.

Inductive SessionEvent : Type :=
| SeLink (state : LinkState)
| SeInbox (items : list ClientInboxItem)
| SeTalk (t : IncomingTalk)
| SeSyncPage (page_id : Z) (talks : list IncomingTalk)
| SeSyncProgress (pulled : Z) (page_pending : bool)
| SeSyncDone (pulled : Z)
| SeSyncFailed (msg : string)
| SeKickout (channel_id : string)
| SeTokenRenew (token : string) (exp : Z)
| SeFriendRequest (from nickname : string)
| SeFriendAccepted (from nickname : string)
| SeProfileUpdated (profile : Profile)
| SePresenceUpdated (account : string) (status last_seen : Z)
| SeTypingUpdated (typer dest : string) (kind : Z) (active : bool) (phase : Z)
| SeReceiptRead (reader dest : string) (kind message_id : Z)
| SeConversationReadSync (account : string) (state : ClientReadState)
| SeGroupCreate (group_id : string) (members : list string)
| SeAuthFailed (reason : string).

(** ** sync.rs: the set of ids seen *)

Definition SYNC_PAGE : Z := 200.
Definition INBOX_LIMIT : Z := 200.
Definition SEEN_CAP : Z := 4096.

Record SeenSet := mkSeenSet { seen : gset Z; seen_order : list Z }.
Definition SeenSet_new : SeenSet := mkSeenSet ∅ [].

(** [while seen_order.len() > SEEN_CAP]: the oldest ids go; every round removes
    one, so that the length is enough fuel. *)
Fixpoint evict (fuel : nat) (s : SeenSet) : SeenSet :=
  match fuel with
  | O => s
  | S fuel =>
    if SEEN_CAP <? len (seen_order s) then
      match seen_order s with
      | old :: rest => evict fuel (mkSeenSet (seen s ∖ {[old]}) rest)
      | [] => s
      end
    else s
  end.

Definition observe (message_id : Z) (s : SeenSet) : bool * SeenSet :=
  if message_id =? 0 then (true, s)
  else if bool_decide (message_id ∈ seen s) then (false, s)
  else
    let order := seen_order s ++ [message_id] in
    (true, evict (length order) (mkSeenSet ({[message_id]} ∪ seen s) order)).

(** ** sync.rs: pages *)

Definition talk_from_offline (account : string) (idx : ClientIndex) (msg : ClientMessage) : IncomingTalk :=
  let group := negb (str_is_empty (cx_group idx)) in
  let dest := if group then cx_group idx else cx_account_b idx in
  let command := if group then CMD_CHAT_GROUP_TALK else CMD_CHAT_USER_TALK in
  let sender := if cx_direction idx =? 1 then account else cx_account_b idx in
  mkIncomingTalk command dest (cm_message_id msg) sender (cm_msg_type msg) (cm_body msg) (cm_extra msg)
    (cx_send_time idx).

Fixpoint merge_indexes (account : string) (by_id : gmap Z ClientMessage) (indexes : list ClientIndex)
  (s : SeenSet) : list IncomingTalk * SeenSet :=
  match indexes with
  | [] => ([], s)
  | idx :: indexes =>
    match by_id !! cx_message_id idx with
    | None => merge_indexes account by_id indexes s
    | Some msg =>
      let '(fresh, s) := if cx_message_id idx =? 0 then (true, s) else observe (cx_message_id idx) s in
      if negb fresh then merge_indexes account by_id indexes s
      else let '(talks, s) := merge_indexes account by_id indexes s in
           (talk_from_offline account idx msg :: talks, s)
    end
  end.

(** The messages by id; the last of two with one id counts. *)
Definition messages_by_id (msgs : list ClientMessage) : gmap Z ClientMessage :=
  foldl (fun m msg => <[cm_message_id msg := msg]> m) ∅ msgs.

Definition merge_offline (account : string) (indexes : list ClientIndex) (msgs : list ClientMessage)
  (s : SeenSet) : list IncomingTalk * SeenSet :=
  merge_indexes account (messages_by_id msgs) (take (Z.to_nat SYNC_PAGE) indexes) s.

(** ** sync.rs: the confirmation gate *)

(** The gate holds the largest cursor confirmed. *)
Definition confirm (cursor gate : Z) : Z := if gate <? cursor then cursor else gate.

(** Which branch of the [select!] of [wait_confirm_once] ends the wait. *)
Inductive ConfirmEnd : Type := Confirmed | GateClosed | StopNotified | Died (reason : DropReason) | TimedOut.

(** ** Calls *)

Inductive SyncEff : Type -> Type :=
| SInboxList (limit : Z) : SyncEff (result (list ClientInboxItem) ClientError)
| SBeginInbox : SyncEff (result Z PersistError)
| SPersistInbox (items : list ClientInboxItem) (token : Z) : SyncEff (result unit PersistError)
| SFinishInbox (token : Z) : SyncEff unit
| SPersistTalks (talks : list IncomingTalk) (policy : UnreadPolicy) : SyncEff (result unit PersistError)
| SSend (ev : SessionEvent) : SyncEff bool
| SOfflineIndex : SyncEff (result (list ClientIndex) ClientError)
| SOfflineContent (ids : list Z) : SyncEff (result (list ClientMessage) ClientError)
| SAckBatch (ids : list Z) : SyncEff (result unit ClientError)
| SOthersSaw : SyncEff (list Z)
| SDeath : SyncEff (option DropReason)
| SSelectConfirm (needed : Z) : SyncEff ConfirmEnd.

Abbreviation SyncProc := (Prog SyncEff).

Definition wait_confirm_once (needed : Z) : SyncProc (result unit ClientError) :=
  e ← call (SSelectConfirm needed);
  Ret (match e with
       | Confirmed => Ok tt
       | GateClosed => Err (Other "confirm closed")
       | StopNotified => Err (Other "stopped")
       | Died reason => Err (Other (reason_str reason))
       | TimedOut => Err (Other "confirm-timeout")
       end).

(** [err.to_string() == "confirm-timeout"] of an error of the wait. *)
Definition is_confirm_timeout (e : ClientError) : bool :=
  match e with Other m => bool_decide (m = "confirm-timeout"%string) | _ => false end.

Definition wait_confirm (needed : Z) (retry_page : option (Z * list IncomingTalk)) : SyncProc (result unit ClientError) :=
  if needed <=? 0 then Ret (Ok tt)
  else
    death ← call SDeath;
    match death with
    | Some reason => Ret (Err (Other (reason_str reason)))
    | None =>
      first ← wait_confirm_once needed;
      match first with
      | Ok _ => Ret (Ok tt)
      | Err e =>
        if negb (is_confirm_timeout e) then Ret (Err e)
        else match retry_page with
        | Some (page_id, talks) =>
          _ ← call (SSend (SeSyncPage page_id talks));
          wait_confirm_once needed
        | None => Ret (Err (Other (reason_str DropConfirmTimeout)))
        end
      end
    end.

(** ** sync.rs: [SyncEngine::run] *)

(** How one round of the loop ends: the next round, out of the loop, or out of
    [run] with a result. *)
Inductive PageEnd : Type :=
| PageNext (s : SeenSet) (pulled : Z)
| PageBreak (pulled : Z)
| PageReturn (r : result Z ClientError).

Definition max_id (ids : list Z) : Z :=
  match ids with [] => 0 | id :: ids => foldl Z.max id ids end.

Section engine.
(** The account of the session, and whether a persist hook is installed. *)
Context (account : string) (persist : bool).

(** Handing a page to the application: persist it, or send it and wait for the
    confirmation. *)
Definition hand_over (page : Z) (talks : list IncomingTalk) (pulled : Z)
  : SyncProc (option (result Z ClientError)) :=
  if bool_decide (talks = []) then Ret None
  else if persist then
    r ← call (SPersistTalks talks Keep);
    match r with
    | Err e => _ ← call (SSend (SeSyncFailed (PersistError_text e))); Ret (Some (Ok pulled))
    | Ok _ => Ret None
    end
  else if 0 <? page then
    sent ← call (SSend (SeSyncPage page talks));
    if negb sent then Ret (Some (Err (Other "offline page not delivered")))
    else r ← wait_confirm page (Some (page, talks));
         Ret (match r with Err e => Some (Err e) | Ok _ => None end)
  else Ret None.

(** The ids the dispatch loop observed since the set was last locked. *)
Definition others_saw (s : SeenSet) : SyncProc SeenSet :=
  if persist then Ret s
  else ids ← call SOthersSaw; Ret (foldl (fun s id => (observe id s).2) s ids).

Definition sync_page (s : SeenSet) (pulled : Z) : SyncProc PageEnd :=
  r ← call SOfflineIndex;
  match r with
  | Err e => Ret (PageReturn (Err e))
  | Ok [] => Ret (PageBreak pulled)
  | Ok indexes =>
    let short := len indexes <? SYNC_PAGE in
    let ids := take (Z.to_nat SYNC_PAGE) (cx_message_id <$> indexes) in
    m ← call (SOfflineContent ids);
    match m with
    | Err e => Ret (PageReturn (Err e))
    | Ok msgs =>
      s ← others_saw s;
      let '(talks, s) := merge_offline account indexes msgs s in
      let pulled := pulled + len talks in
      handed ← hand_over (max_id ids) talks pulled;
      match handed with
      | Some r => Ret (PageReturn r)
      | None =>
        acked ← call (SAckBatch ids);
        match acked with
        | Err e => Ret (PageReturn (Err e))
        | Ok _ =>
          _ ← call (SSend (SeSyncProgress pulled false));
          Ret (if short then PageBreak pulled else PageNext s pulled)
        end
      end
    end
  end.

(** The loop; [None] when the fuel ran out. *)
Fixpoint sync_loop (fuel : nat) (s : SeenSet) (pulled : Z) : SyncProc (option (result Z ClientError)) :=
  match fuel with
  | O => Ret None
  | S fuel =>
    page ← sync_page s pulled;
    match page with
    | PageNext s pulled => sync_loop fuel s pulled
    | PageBreak pulled => _ ← call (SSend (SeSyncDone pulled)); Ret (Some (Ok pulled))
    | PageReturn r => Ret (Some r)
    end
  end.

(** The inbox, when a hook is installed, is persisted under a token; a failure
    ends the run. *)
Definition sync_inbox (items : list ClientInboxItem) : SyncProc bool :=
  if negb persist then Ret true
  else
    t ← call SBeginInbox;
    match t with
    | Err e => _ ← call (SSend (SeSyncFailed (PersistError_text e))); Ret false
    | Ok token =>
      r ← call (SPersistInbox items token);
      _ ← call (SFinishInbox token);
      match r with
      | Err e => _ ← call (SSend (SeSyncFailed (PersistError_text e))); Ret false
      | Ok _ => Ret true
      end
    end.

Definition sync_run (fuel : nat) (s : SeenSet) : SyncProc (option (result Z ClientError)) :=
  r ← call (SInboxList INBOX_LIMIT);
  match r with
  | Err e => Ret (Some (Err e))
  | Ok items =>
    stored ← sync_inbox items;
    if negb stored then Ret (Some (Ok 0))
    else
      _ ← call (SSend (SeInbox items));
      sync_loop fuel s 0
  end.
End engine.
