(* ===== verification/SyncSpec.v ===== *)
(** What the catch-up promises: nothing is acknowledged that the application was
    not given first. *)

From S2P Require Import Prelude Prog Wire Pkt ClientWire Pump Sync.
Open Scope Z_scope.
Open Scope kim_scope.

Abbreviation SyncTrace := (list (EventOf SyncEff)).

(** ** Pages *)

Lemma evict_seen fuel s id : id ∈ seen (evict fuel s) -> id ∈ seen s.
Proof.
  revert s; induction fuel as [|fuel IH]; intros s; simpl; [done|].
  destruct (SEEN_CAP <? _); [|done]. destruct (seen_order s) as [|old rest]; [done|].
  intros Hin%IH. simpl in Hin. set_solver.
Qed.

Lemma observe_spec id s fresh s' : observe id s = (fresh, s') ->
  (fresh = false -> id ∈ seen s) /\ (forall x, x ∈ seen s' -> x ∈ seen s \/ (fresh = true /\ x = id)).
Proof.
  unfold observe. destruct (id =? 0); [intros [= <- <-]; split; [done|by left]|].
  case_bool_decide; intros [= <- <-]; (split; [done|]); [by left|].
  intros x Hx%evict_seen. simpl in Hx. set_solver.
Qed.

Lemma messages_by_id_spec msgs k : match messages_by_id msgs !! k with
  | Some m => cm_message_id m = k /\ m ∈ msgs | None => k ∉ cm_message_id <$> msgs end.
Proof.
  unfold messages_by_id. assert (Hg : forall (P : ClientMessage -> Prop) (acc : gmap Z ClientMessage),
    (forall m, acc !! k = Some m -> cm_message_id m = k /\ P m) -> (forall m, m ∈ msgs -> P m) ->
    match foldl (fun m msg => <[cm_message_id msg := msg]> m) acc msgs !! k with
    | Some m => cm_message_id m = k /\ P m | None => acc !! k = None /\ k ∉ cm_message_id <$> msgs end).
  { intros P. induction msgs as [|msg msgs IH]; intros acc Ha Hp; simpl.
    - destruct (acc !! k) eqn:E; [by apply Ha|]. split; [done|apply not_elem_of_nil].
    - assert (Ha' : forall m, <[cm_message_id msg := msg]> acc !! k = Some m -> cm_message_id m = k /\ P m).
      { intros m'. rewrite lookup_insert. case_decide; [|apply Ha]. intros [= <-]. split; [done|]. apply Hp. by left. }
      specialize (IH _ Ha' (fun m Hm => Hp m (list_elem_of_further _ _ _ Hm))).
      destruct (foldl _ _ msgs !! k); [done|]. destruct IH as [Hn Hm]. rewrite lookup_insert in Hn.
      case_decide; [done|]. rewrite not_elem_of_cons. by auto. }
  specialize (Hg (fun m => m ∈ msgs) ∅). destruct (foldl _ _ _ !! k); apply Hg; try done; intros ?; by rewrite lookup_empty.
Qed.

Lemma merge_indexes_spec account msgs indexes s talks s' :
  merge_indexes account (messages_by_id msgs) indexes s = (talks, s') ->
  (forall id, id ∈ seen s' -> id ∈ seen s \/ id ∈ it_message_id <$> talks) /\
  (forall id, id ∈ cx_message_id <$> indexes ->
     id ∉ cm_message_id <$> msgs \/ id ∈ seen s \/ id ∈ it_message_id <$> talks) /\
  (forall id, id ∈ it_message_id <$> talks -> id ∈ cx_message_id <$> indexes).
Proof.
  revert s talks s'. induction indexes as [|idx indexes IH]; intros s talks s'; simpl.
  { intros [= <- <-]. split; [by left|]. split; intros id Hi; by apply not_elem_of_nil in Hi. }
  pose proof (messages_by_id_spec msgs (cx_message_id idx)) as Hm.
  destruct (messages_by_id msgs !! cx_message_id idx) as [msg|]; [destruct Hm as [Hm _]|].
  2:{ intros E. destruct (IH _ _ _ E) as (Hs & Hi & Ht). split; [done|].
      split; [intros x [->|Hx]%elem_of_cons; [by left|by apply Hi]|]. intros id Hid. right. by apply Ht. }
  destruct (if cx_message_id idx =? 0 then _ else _) as [fresh s1] eqn:Eo.
  assert (Ho : (fresh = false -> cx_message_id idx ∈ seen s) /\
    (forall x, x ∈ seen s1 -> x ∈ seen s \/ (fresh = true /\ x = cx_message_id idx))).
  { destruct (cx_message_id idx =? 0); [injection Eo as <- <-; split; [done|by left]|]. by apply observe_spec. }
  destruct Ho as [Hold Hnew]. destruct fresh; simpl.
  - destruct (merge_indexes _ _ indexes s1) as [talks1 s2] eqn:E. intros [= <- <-].
    destruct (IH _ _ _ E) as (Hs & Hi & Ht). cbn [fmap list_fmap talk_from_offline it_message_id]. rewrite Hm.
    split_and!; [intros id [Hid|Hid]%Hs|intros id [->|[?|[Hid|?]]%Hi]%elem_of_cons|intros id [->|Hid%Ht]%elem_of_cons];
      rewrite ?elem_of_cons; auto; apply Hnew in Hid; naive_solver.
  - intros E. destruct (IH _ _ _ E) as (Hs & Hi & Ht).
    split_and!; [intros id [Hid|Hid]%Hs|intros id [->|[?|[Hid|?]]%Hi]%elem_of_cons|intros id Hid%Ht];
      rewrite ?elem_of_cons; auto; apply Hnew in Hid; naive_solver.
Qed.

(** ** What was handed over before a point of a run *)

Section handover.
Context (persist : bool).

(** What stands behind an acknowledgement.  With the hook: it stored the message.
    Without one: the message was in a page that was sent and then confirmed, or the
    dispatch loop reported its id as seen, having put it into the event channel as a
    live message, which nobody stores or confirms. *)
Definition handed (tr : SyncTrace) (id : Z) : Prop :=
  if persist then exists talks, Ev (SPersistTalks talks Keep) (Ok tt) ∈ tr /\ id ∈ it_message_id <$> talks
  else (exists ids, Ev SOthersSaw ids ∈ tr /\ id ∈ ids) \/
       (exists page talks before after, tr = before ++ Ev (SSend (SeSyncPage page talks)) true :: after /\
          id ∈ it_message_id <$> talks /\ Ev (SSelectConfirm page) Confirmed ∈ after).

(** The service had no content for it when its page was fetched. *)
Definition contentless (tr : SyncTrace) (id : Z) : Prop :=
  exists (ids : list Z) (msgs : list ClientMessage),
    id ∈ ids /\ id ∉ cm_message_id <$> msgs /\ Ev (SOfflineContent ids) (Ok msgs) ∈ tr.

Definition acked_by (ev : EventOf SyncEff) : list Z :=
  match ev with Ev e _ => match e with SAckBatch ids => ids | _ => [] end end.

Definition acks_ok (tr : SyncTrace) : Prop :=
  forall before ev after id, tr = before ++ ev :: after -> id ∈ acked_by ev -> 0 < id ->
    handed before id \/ contentless before id.

Lemma handed_app tr tr' id : handed tr id -> handed (tr ++ tr') id.
Proof.
  unfold handed. destruct persist.
  - intros (talks & Hin & Hid). exists talks. rewrite elem_of_app. by auto.
  - intros [(ids & Hin & Hid)|(page & talks & before & after & -> & Hid & Hc)].
    + left. exists ids. rewrite elem_of_app. by auto.
    + right. exists page, talks, before, (after ++ tr'). rewrite <- app_assoc, elem_of_app. by auto.
Qed.

Lemma acks_ok_snoc tr ev : acks_ok tr ->
  (forall id, id ∈ acked_by ev -> 0 < id -> handed tr id \/ contentless tr id) -> acks_ok (tr ++ [ev]).
Proof.
  intros Htr Hev before ev' after id E Hin Hpos.
  destruct after as [|x after _] using rev_ind.
  - apply app_inj_tail in E as [-> ->]. by apply Hev.
  - rewrite app_comm_cons, app_assoc in E. apply app_inj_tail in E as [-> _]. by eapply Htr.
Qed.

Lemma acks_ok_step {X} tr (e : SyncEff X) x : acked_by (Ev e x) = [] -> acks_ok tr -> acks_ok (tr ++ [Ev e x]).
Proof. intros E Htr. apply acks_ok_snoc; [done|]. rewrite E. intros id Hin. by apply not_elem_of_nil in Hin. Qed.

(** The trace only grows. *)
Definition grows (pre tr : SyncTrace) : Prop := exists after, tr = pre ++ after.
Lemma grows_refl tr : grows tr tr.
Proof. exists []. by rewrite app_nil_r. Qed.
Lemma grows_snoc pre tr ev : grows pre tr -> grows pre (tr ++ [ev]).
Proof. intros [after ->]. exists (after ++ [ev]). by rewrite app_assoc. Qed.
Lemma handed_grows pre tr id : grows pre tr -> handed pre id -> handed tr id.
Proof. intros [after ->]. apply handed_app. Qed.
End handover.

Create HintDb sync discriminated.
#[export] Hint Resolve grows_refl grows_snoc acks_ok_step : sync.

(** One call of a program that acknowledges nothing. *)
Ltac hold_step :=
  first [ apply hold_ret; [by eauto with sync|]
        | apply hold_call; [by eauto with sync|intros ?x] ].

Section runs.
Context (account : string) (persist : bool).
Implicit Types (pre tr : SyncTrace).

Lemma hold_confirm_once pre needed : acks_ok persist pre ->
  hold pre (wait_confirm_once needed) (acks_ok persist) (fun tr r => acks_ok persist tr /\
    exists after, tr = pre ++ after /\ (r = Ok tt -> Ev (SSelectConfirm needed) Confirmed ∈ after)).
Proof.
  intros HI. unfold wait_confirm_once. apply hold_call; [done|]. intros e.
  apply hold_ret; [by apply acks_ok_step|]. split; [by apply acks_ok_step|]. eexists. split; [done|].
  destruct e; try done. intros _. by left.
Qed.

Lemma hold_confirm pre page retry : acks_ok persist pre -> 0 < page ->
  hold pre (wait_confirm page retry) (acks_ok persist) (fun tr r => acks_ok persist tr /\
    exists after, tr = pre ++ after /\ (r = Ok tt -> Ev (SSelectConfirm page) Confirmed ∈ after)).
Proof.
  intros HI Hp. unfold wait_confirm. destruct (Z.leb_spec page 0); [lia|].
  apply hold_call; [done|]. intros death. pose proof (acks_ok_step persist pre SDeath death eq_refl HI) as HI1.
  destruct death as [reason|].
  { apply hold_ret; [done|]. split; [done|]. by eexists. }
  apply hold_bind. eapply hold_mono; [|by apply hold_confirm_once].
  intros tr [[]|e] (HI2 & after & -> & Ha).
  { apply hold_ret; [done|]. split; [done|]. rewrite <- app_assoc. eexists. split; [done|]. intros _.
    apply elem_of_app. right. by apply Ha. }
  destruct (negb (is_confirm_timeout e)).
  { apply hold_ret; [done|]. split; [done|]. rewrite <- app_assoc. by eexists. }
  destruct retry as [[page_id talks]|].
  - apply hold_call; [done|]. intros sent.
    eapply hold_mono; [|apply hold_confirm_once; by apply acks_ok_step].
    intros tr r (HI3 & after' & -> & Ha'). split; [done|]. rewrite <- !app_assoc. eexists. split; [done|].
    intros Hr. rewrite !elem_of_app. right. right. right. by apply Ha'.
  - apply hold_ret; [done|]. split; [done|]. rewrite <- app_assoc. by eexists.
Qed.

(** After the hand-over that lets the page go on, its talks are handed over. *)
Lemma hold_hand_over pre page talks pulled : acks_ok persist pre ->
  hold pre (hand_over persist page talks pulled) (acks_ok persist) (fun tr o => acks_ok persist tr /\ grows pre tr /\
    (o = None -> 0 < page -> forall id, id ∈ it_message_id <$> talks -> handed persist tr id)).
Proof.
  intros HI. unfold hand_over. case_bool_decide as Et.
  { subst. apply hold_ret; [done|]. split; [done|]. split; [apply grows_refl|]. intros _ _ id Hid. by apply not_elem_of_nil in Hid. }
  destruct persist eqn:Ep.
  - apply hold_call; [done|]. intros r. pose proof (acks_ok_step true pre (SPersistTalks talks Keep) r eq_refl HI) as HI1.
    destruct r as [[]|e].
    + apply hold_ret; [done|]. split; [done|]. split; [by apply grows_snoc, grows_refl|]. intros _ _ id Hid.
      exists talks. split; [|done]. apply elem_of_app. right. by left.
    + apply hold_call; [done|]. intros sent. apply hold_ret; [by apply acks_ok_step|].
      split; [by apply acks_ok_step|]. split; [by apply grows_snoc, grows_snoc, grows_refl|done].
  - destruct (Z.ltb_spec 0 page) as [Hp|Hp].
    2:{ apply hold_ret; [done|]. split; [done|]. split; [apply grows_refl|]. lia. }
    apply hold_call; [done|]. intros sent. pose proof (acks_ok_step false pre (SSend (SeSyncPage page talks)) sent eq_refl HI) as HI1.
    destruct sent; cbn [negb].
    2:{ apply hold_ret; [done|]. split; [done|]. by split; [apply grows_snoc, grows_refl|]. }
    apply hold_bind. pose proof (hold_confirm (pre ++ [Ev (SSend (SeSyncPage page talks)) true]) page (Some (page, talks))) as Hc.
    rewrite Ep in Hc. eapply hold_mono; [|by apply Hc].
    intros tr r (HI2 & after & -> & Ha). apply hold_ret; [done|]. split; [done|].
    split; [eexists; by rewrite <- app_assoc|]. intros Hr _ id Hid. right.
    exists page, talks, pre, after. rewrite <- app_assoc. split; [done|]. split; [done|].
    destruct r as [[]|]; [by apply Ha|done].
Qed.

(** The ids the set holds were handed over. *)
Definition seen_handed (tr : SyncTrace) (s : SeenSet) : Prop := forall id, id ∈ seen s -> 0 < id -> handed persist tr id.

Lemma seen_handed_grows pre tr s : grows pre tr -> seen_handed pre s -> seen_handed tr s.
Proof. intros Hg Hs id Hid Hp. by eapply handed_grows; [|apply Hs]. Qed.

Lemma hold_others pre s : acks_ok persist pre -> seen_handed pre s ->
  hold pre (others_saw persist s) (acks_ok persist) (fun tr s => acks_ok persist tr /\ grows pre tr /\ seen_handed tr s).
Proof.
  intros HI Hs. unfold others_saw. destruct persist eqn:Ep.
  { apply hold_ret; [done|]. split; [done|]. split; [apply grows_refl|]. unfold seen_handed in *. by rewrite Ep in *. }
  apply hold_call; [done|]. intros ids. apply hold_ret; [by apply acks_ok_step|].
  split; [by apply acks_ok_step|]. split; [by apply grows_snoc, grows_refl|]. unfold seen_handed in *. rewrite Ep in *.
  assert (Hin : forall id, id ∈ seen (foldl (fun s id => (observe id s).2) s ids) -> id ∈ seen s \/ id ∈ ids).
  { clear. revert s; induction ids as [|x ids IH]; intros s id; simpl; [by left|]. intros [Hi|Hi]%IH.
    - destruct (observe x s) as [fresh s'] eqn:Eo. apply observe_spec in Eo as [_ Ho].
      apply Ho in Hi as [?|[_ ->]]; [by left|right; by left].
    - right. by right. }
  intros id [Hi|Hi]%Hin Hp.
  - apply handed_app. by apply Hs.
  - left. exists ids. split; [|done]. apply elem_of_app. right. by left.
Qed.

Lemma le_max_id ids id : id ∈ ids -> id <= max_id ids.
Proof.
  assert (Hg : forall l a, a <= foldl Z.max a l /\ (forall x, x ∈ l -> x <= foldl Z.max a l)).
  { induction l as [|y l IH]; intros a; simpl; [split; [lia|]; intros x Hx; by apply not_elem_of_nil in Hx|].
    destruct (IH (Z.max a y)) as [Ha Hl]. split; [lia|]. intros x [->|Hx]%elem_of_cons; [lia|by apply Hl]. }
  destruct ids as [|a l]; intros Hin; [by apply not_elem_of_nil in Hin|]. unfold max_id.
  destruct (Hg l a) as [Ha Hl]. apply elem_of_cons in Hin as [->|Hin]; [done|by apply Hl].
Qed.

Lemma hold_page pre s pulled : acks_ok persist pre -> seen_handed pre s ->
  hold pre (sync_page account persist s pulled) (acks_ok persist) (fun tr r => acks_ok persist tr /\
    match r with PageNext s' _ => seen_handed tr s' | _ => True end).
Proof.
  intros HI Hs. unfold sync_page. apply hold_call; [done|]. intros r.
  pose proof (acks_ok_step persist pre SOfflineIndex r eq_refl HI) as HI1.
  destruct r as [[|idx indexes]|e]; [by apply hold_ret| |by apply hold_ret].
  set (page := idx :: indexes). set (ids := take _ _). cbv zeta. apply hold_call; [done|]. intros m.
  set (pre1 := (pre ++ _) ++ _). assert (HI2 : acks_ok persist pre1) by (by apply acks_ok_step).
  destruct m as [msgs|e]; [|by apply hold_ret].
  assert (Hs1 : seen_handed pre1 s) by (eapply seen_handed_grows; [|done]; by apply grows_snoc, grows_snoc, grows_refl).
  apply hold_bind. eapply hold_mono; [|by apply hold_others]. intros tr s1 (HI3 & Hg1 & Hs2).
  destruct (merge_offline account page msgs s1) as [talks s2] eqn:Em.
  apply merge_indexes_spec in Em as (Hseen & Hidx & Htalk).
  apply hold_bind. eapply hold_mono; [|by apply hold_hand_over]. intros tr1 handed_end (HI4 & Hg2 & Hh).
  destruct handed_end as [r|]; [by apply hold_ret|]. specialize (Hh eq_refl).
  assert (Hall : forall id, id ∈ ids -> 0 < id -> handed persist tr1 id \/ contentless tr1 id).
  { intros id Hid Hp. pose proof (le_max_id _ _ Hid). specialize (Hh ltac:(lia)).
    destruct (Hidx id) as [Hn|[Hn|Hn]].
    - unfold ids in Hid. by rewrite <- fmap_take in Hid.
    - right. exists ids, msgs. split; [done|]. split; [done|]. destruct Hg1 as [a1 ->], Hg2 as [a2 ->].
      unfold pre1. rewrite !elem_of_app. left. left. right. by left.
    - left. eapply handed_grows; [exact Hg2|]. by apply Hs2.
    - left. by apply Hh. }
  apply hold_call; [done|]. intros acked.
  assert (HI5 : acks_ok persist (tr1 ++ [Ev (SAckBatch ids) acked])) by (by apply acks_ok_snoc).
  destruct acked as [[]|e]; [|by apply hold_ret].
  apply hold_call; [done|]. intros sent. apply hold_ret; [by apply acks_ok_step|]. split; [by apply acks_ok_step|].
  destruct (len page <? SYNC_PAGE); [done|]. intros id Hid Hp. apply handed_app, handed_app.
  apply Hseen in Hid as [Hid|Hid]; [eapply handed_grows; [exact Hg2|]; by apply Hs2|].
  apply Hh; [|done]. apply Htalk in Hid. rewrite fmap_take in Hid. change (id ∈ ids) in Hid. pose proof (le_max_id _ _ Hid). lia.
Qed.

Lemma hold_loop fuel pre s pulled : acks_ok persist pre -> seen_handed pre s ->
  hold pre (sync_loop account persist fuel s pulled) (acks_ok persist) (fun _ _ => True).
Proof.
  revert pre s pulled. induction fuel as [|fuel IH]; intros pre s pulled HI Hs; cbn [sync_loop]; [by apply hold_ret|].
  apply hold_bind. eapply hold_mono; [|by apply hold_page]. intros tr r [HI1 Hr].
  destruct r as [s' pulled'|pulled'|r]; [by apply IH| |by apply hold_ret].
  apply hold_call; [done|]. intros sent. apply hold_ret; [by apply acks_ok_step|done].
Qed.

Lemma hold_inbox pre items : acks_ok persist pre ->
  hold pre (sync_inbox persist items) (acks_ok persist) (fun tr _ => acks_ok persist tr).
Proof.
  intros HI. unfold sync_inbox. destruct (negb persist); [by apply hold_ret|].
  apply hold_call; [done|]. intros [token|e].
  2:{ apply hold_call; [by apply acks_ok_step|]. intros sent. apply hold_ret; by repeat apply acks_ok_step. }
  apply hold_call; [by apply acks_ok_step|]. intros r.
  apply hold_call; [by repeat apply acks_ok_step|]. intros u. destruct r as [[]|e].
  - apply hold_ret; by repeat apply acks_ok_step.
  - apply hold_call; [by repeat apply acks_ok_step|]. intros sent. apply hold_ret; by repeat apply acks_ok_step.
Qed.

Lemma hold_run fuel pre : acks_ok persist pre ->
  hold pre (sync_run account persist fuel SeenSet_new) (acks_ok persist) (fun _ _ => True).
Proof.
  intros HI. unfold sync_run. apply hold_call; [done|]. intros r.
  destruct r as [items|e]; [|by apply hold_ret; [apply acks_ok_step|]].
  apply hold_bind. eapply hold_mono; [|apply hold_inbox; by apply acks_ok_step]. intros tr stored HI1.
  destruct stored; [|by apply hold_ret]. apply hold_call; [done|]. intros sent.
  apply hold_loop; [by apply acks_ok_step|]. intros id Hid. by apply elem_of_empty in Hid.
Qed.

Lemma acks_ok_nil : acks_ok persist [].
Proof. intros before ev after id E. by apply app_cons_not_nil in E. Qed.
End runs.

(** (C27) What an acknowledgement rests on.  At every point of every run of the
    catch-up, whatever the service, the hook and the application do and wherever the
    run is cut off, each positive id it has acknowledged was accounted for before
    that.  With a persist hook, the hook had stored the message.  Without one, the
    application had confirmed the page the message was sent in, or the dispatch loop
    had reported the id as seen: such a message went into the event channel as a live
    one, and was neither stored nor confirmed.  The only others are ids for which the
    service had returned no content. *)
Theorem acked_was_handed_over (account : string) (persist : bool) (fuel : nat) (before after : SyncTrace)
  (ids : list Z) (r : result unit ClientError)
  (Hrun : reaches (sync_run account persist fuel SeenSet_new) (before ++ Ev (SAckBatch ids) r :: after))
  (id : Z) (Hid : id ∈ ids) (Hpos : 0 < id) :
  handed persist before id \/ contentless before id.
Proof.
  pose proof (hold_reaches [] _ _ _ _ (hold_run account persist fuel [] (acks_ok_nil persist)) Hrun) as HI.
  by apply (HI before (Ev (SAckBatch ids) r) after id).
Qed.

(** ** A concrete run: one pending message, the hook stores it. *)

Definition one_pending X (e : SyncEff X) (u : unit) : unit * X :=
  match e in SyncEff X return unit * X with
  | SInboxList _ => (tt, Ok [])
  | SBeginInbox => (tt, Ok 0)
  | SPersistInbox _ _ => (tt, Ok tt)
  | SFinishInbox _ => (tt, tt)
  | SPersistTalks _ _ => (tt, Ok tt)
  | SSend _ => (tt, true)
  | SOfflineIndex => (tt, Ok [mkClientIndex 7 0 9 "alice" ""])
  | SOfflineContent _ => (tt, Ok [mkClientMessage 7 1 "hi" ""])
  | SAckBatch _ => (tt, Ok tt)
  | SOthersSaw => (tt, [])
  | SDeath => (tt, None)
  | SSelectConfirm _ => (tt, Confirmed)
  end.
Definition one_trace : SyncTrace := (run one_pending (sync_run "bob" true 3 SeenSet_new) tt).1.2.
Definition one_before : SyncTrace := take 8 one_trace.
Definition one_after : SyncTrace := drop 9 one_trace.

Lemma one_split : one_trace = one_before ++ Ev (SAckBatch [7]) (Ok tt) :: one_after.
Proof. vm_compute. reflexivity. Qed.
Lemma one_reaches : reaches (sync_run "bob" true 3 SeenSet_new) (one_before ++ Ev (SAckBatch [7]) (Ok tt) :: one_after).
Proof. rewrite <- one_split. exact (exec_reaches _ _ _ (exec_run one_pending (sync_run "bob" true 3 SeenSet_new) tt)). Qed.

Lemma acked_was_handed_over_witness : handed true one_before 7 \/ contentless one_before 7.
Proof.
  apply (acked_was_handed_over "bob" true 3 one_before one_after [7] (Ok tt) one_reaches 7);
    [by left|reflexivity].
Defined.
