(* ===== verification/SyncDrain.v ===== *)
(** Client and service together: the catch-up of sync.rs against the offline
    handlers and the message store.

    A request of the client is the packet its encoder frames; the handler of its
    command runs over the store, and the packet it pushes back is decoded and taken
    by the call that waits for it.  Cutting packets into frames and sequencing
    calls are the subject of other files ([TcpCodec], [Pkt], [PumpSpec]).  The
    clock stands still during a run. *)

From S2P Require Import Prelude Prog Wire Pkt Msgs TcpCodec Location SessionStore Store StoreInv StoreProps.
From S2P Require Import StoreReceipts Social Groups Users Effects Router Offline ClientWire Pump Sync SyncSpec.
Open Scope Z_scope.
Open Scope kim_scope.

Section service.
Context {G : Type} `{IdGeneratorOk G} `{ProstOk}.
(** The session of the device, the clock, the sequence of the requests. *)
Context (sess : Session) (now unix seq : Z).

(** *** The handlers over the store *)

Record World := mkWorld { w_store : MemoryMessageStore G; w_out : list LogicPkt }.

Definition serve_eff X (e : Eff X) (w : World) : World * X :=
  match e in Eff X return World * X with
  | EPush _ _ pkt => (mkWorld (w_store w) (w_out w ++ [pkt]), Ok tt)
  | EAck app account tid ids =>
    let '(st, r) := ack app account tid ids now (w_store w) in (mkWorld st (w_out w), r)
  | EOfflineIndex app account tid id resume =>
    let '(st, r) := offline_index app account tid id resume now unix (w_store w) in (mkWorld st (w_out w), r)
  | EOfflineContent app account ids => (w, offline_content app account ids (w_store w))
  | e => (w, (quiet _ e tt).2)
  end.

Definition serve (handler : Context -> Answer) (request : LogicPkt) (st : MemoryMessageStore G)
  : MemoryMessageStore G * list LogicPkt :=
  let w := (Prog.run serve_eff (handler (mkContext request sess)) (mkWorld st [])).1.1 in
  (w_store w, w_out w).

(** The answer the waiting call makes of the packets pushed to its channel. *)
Definition answer_to (c : Call) (out : list LogicPkt) : result CallAnswer ClientError :=
  match out with
  | p :: _ => match decode_response p with Ok e => finish seq c (Heard e) | Err e => Err e end
  | [] => Err (Core Closed)
  end.

Definition index_request : LogicPkt := write_body (bare CMD_OFFLINE_INDEX seq None) (mkMessageIndexReq 0 true).
Definition content_request (ids : list Z) : LogicPkt :=
  write_body (bare CMD_OFFLINE_CONTENT seq None) (mkMessageContentReq ids "" "").
Definition ack_request (ids : list Z) : LogicPkt :=
  write_body (bare CMD_CHAT_TALK_ACK seq None) (mkMessageAckReq 0 ids).

(** These are the packets the client frames. *)
Lemma requests_framed ids :
  call_frame seq CallOfflineIndex = marshal (Logic index_request) /\
  call_frame seq (CallOfflineContent ids) = marshal (Logic (content_request ids)) /\
  encode_ack_batch seq ids = marshal (Logic (ack_request ids)).
Proof. done. Qed.

Definition ask_index (st : MemoryMessageStore G) : MemoryMessageStore G * result (list ClientIndex) ClientError :=
  let '(st, out) := serve (do_offline_index true) index_request st in
  (st, match answer_to CallOfflineIndex out with
       | Ok (AnsIndexes l) => Ok l | Ok _ => Err (Other "mismatched response") | Err e => Err e end).
Definition ask_content (ids : list Z) (st : MemoryMessageStore G)
  : MemoryMessageStore G * result (list ClientMessage) ClientError :=
  let '(st, out) := serve do_offline_content (content_request ids) st in
  (st, match answer_to (CallOfflineContent ids) out with
       | Ok (AnsContent l) => Ok l | Ok _ => Err (Other "mismatched response") | Err e => Err e end).
(** [ack_batch] writes and does not wait for the answer. *)
Definition send_ack (ids : list Z) (st : MemoryMessageStore G) : MemoryMessageStore G :=
  (serve (do_talk_ack true) (ack_request ids) st).1.

(** *** The catch-up against it *)

(** What the application holds: the talks persisted, or sent to it in pages. *)
Record Device := mkDevice { d_store : MemoryMessageStore G; d_got : list IncomingTalk }.

Definition serve_sync (items : list ClientInboxItem) X (e : SyncEff X) (d : Device) : Device * X :=
  match e in SyncEff X return Device * X with
  | SInboxList _ => (d, Ok items)
  | SBeginInbox => (d, Ok 0)
  | SPersistInbox _ _ => (d, Ok tt)
  | SFinishInbox _ => (d, tt)
  | SPersistTalks talks _ => (mkDevice (d_store d) (d_got d ++ talks), Ok tt)
  | SSend (SeSyncPage _ talks) => (mkDevice (d_store d) (d_got d ++ talks), true)
  | SSend _ => (d, true)
  | SOfflineIndex => let '(st, r) := ask_index (d_store d) in (mkDevice st (d_got d), r)
  | SOfflineContent ids => let '(st, r) := ask_content ids (d_store d) in (mkDevice st (d_got d), r)
  | SAckBatch ids => (mkDevice (send_ack ids (d_store d)) (d_got d), Ok tt)
  | SOthersSaw => (d, [])
  | SDeath => (d, None)
  | SSelectConfirm _ => (d, Confirmed)
  end.

(** *** One request each *)

Let tid := str_trim (s_jti sess).
Let app := s_app sess.
Let account := s_account sess.

Lemma serve_index st st' rows more : tid <> ""%string ->
  offline_index app account tid 0 true now unix st = (st', Ok (rows, more)) ->
  serve (do_offline_index true) index_request st =
  (st', [write_body (response_packet (mkContext index_request sess) Success)
           (mkMessageIndexResp (index_to_proto <$> rows) more)]).
Proof.
  intros Ht E. unfold serve, do_offline_index. cbn [request].
  replace (read_body index_request) with (Ok (E := ProtocolError) (mkMessageIndexReq 0 true))
    by (symmetry; apply read_write_body).
  unfold own_jti, own_app, own_account. cbn [session ireq_message_id ireq_resume]. fold tid app account.
  replace (str_is_empty tid) with false by (symmetry; by apply bool_decide_eq_false_2).
  rewrite run_bind. cbn [Prog.run call serve_eff w_store w_out]. by rewrite E.
Qed.

Lemma serve_content ids rows st : len ids <= MESSAGE_MAX_COUNT_PER_PAGE ->
  offline_content app account ids st = Ok rows ->
  serve do_offline_content (content_request ids) st =
  (st, [write_body (response_packet (mkContext (content_request ids) sess) Success)
          (mkMessageContentResp (content_to_proto <$> rows))]).
Proof.
  intros Hl E. unfold serve, do_offline_content. cbn [request].
  replace (read_body (content_request ids)) with (Ok (E := ProtocolError) (mkMessageContentReq ids "" ""))
    by (symmetry; apply read_write_body).
  cbn [creq_message_ids]. destruct (Z.ltb_spec MESSAGE_MAX_COUNT_PER_PAGE (len ids)); [lia|].
  unfold own_app, own_account. cbn [session]. fold app account.
  rewrite run_bind. cbn [Prog.run call serve_eff w_store w_out]. by rewrite E.
Qed.

Lemma collect_ack_all ids : NoDup ids -> 0 ∉ ids -> collect_ack_ids 0 ids = ids.
Proof.
  intros Hn Hz. unfold collect_ack_ids. cbn [negb Z.eqb app].
  rewrite forallb_filter_id.
  - apply unique_from_id; [done|]. intros x _. apply not_elem_of_nil.
  - apply forallb_forall. intros x Hx%list_elem_of_In. apply negb_true_iff, Z.eqb_neq. by intros ->.
Qed.

Lemma serve_ack ids st : tid <> ""%string -> ids <> [] -> NoDup ids -> 0 ∉ ids ->
  len ids <= MESSAGE_MAX_COUNT_PER_PAGE -> send_ack ids st = (ack app account tid ids now st).1.
Proof.
  intros Ht Hne Hnd Hz Hl. unfold send_ack, serve, do_talk_ack. cbn [request].
  replace (read_body (ack_request ids)) with (Ok (E := ProtocolError) (mkMessageAckReq 0 ids))
    by (symmetry; apply read_write_body).
  cbn [ack_message_id ack_message_ids]. rewrite collect_ack_all by done.
  destruct (Z.ltb_spec MESSAGE_MAX_COUNT_PER_PAGE (len ids)); [lia|].
  rewrite bool_decide_eq_false_2 by done. unfold own_jti, own_app, own_account. cbn [session]. fold tid app account.
  replace (str_is_empty tid) with false by (symmetry; by apply bool_decide_eq_false_2).
  cbn [orb]. rewrite run_bind. cbn [Prog.run call serve_eff w_store w_out].
  destruct (ack app account tid ids now st) as [st' [r|e]]; done.
Qed.

(** The replies decode to what the handlers put into them. *)
Lemma answer_index rows more :
  answer_to CallOfflineIndex [write_body (response_packet (mkContext index_request sess) Success)
    (mkMessageIndexResp (index_to_proto <$> rows) more)] = Ok (AnsIndexes (client_index <$> (index_to_proto <$> rows))).
Proof.
  unfold answer_to, decode_response. set (p := write_body _ _).
  rewrite !(command_is_eqb _ CMD_OFFLINE_INDEX p) by done. eval_commands.
  unfold with_reply, on_success. change (h_status (l_header p)) with (Status_as_i32 Success). cbn [negb Z.eqb Status_as_i32].
  replace (read_body p) with (Ok (E := ProtocolError) (mkMessageIndexResp (index_to_proto <$> rows) more))
    by (symmetry; apply read_write_body).
  cbn [lift try_bind iresp_indexes iresp_has_more]. change (h_sequence (l_header p)) with seq.
  unfold finish, take_event, take_answer. by rewrite Z.eqb_refl.
Qed.

Lemma answer_content ids rows :
  answer_to (CallOfflineContent ids) [write_body (response_packet (mkContext (content_request ids) sess) Success)
    (mkMessageContentResp (content_to_proto <$> rows))] = Ok (AnsContent (client_message <$> (content_to_proto <$> rows))).
Proof.
  unfold answer_to, decode_response. set (p := write_body _ _).
  rewrite !(command_is_eqb _ CMD_OFFLINE_CONTENT p) by done. eval_commands.
  unfold with_reply, on_success. change (h_status (l_header p)) with (Status_as_i32 Success). cbn [negb Z.eqb Status_as_i32].
  replace (read_body p) with (Ok (E := ProtocolError) (mkMessageContentResp (content_to_proto <$> rows)))
    by (symmetry; apply read_write_body).
  cbn [lift try_bind cresp_messages]. change (h_sequence (l_header p)) with seq.
  unfold finish, take_event, take_answer. by rewrite Z.eqb_refl.
Qed.

(** *** One page *)

(** A talk that carries the stored message. *)
Definition carries (i : MInner) (t : IncomingTalk) : Prop := exists c, contents i !! it_message_id t = Some c /\
  (it_msg_type t, it_body t, it_extra t) = (sm_msg_type c, sm_body c, sm_extra c).
Definition message_carries (i : MInner) (m : ClientMessage) : Prop := exists c, contents i !! cm_message_id m = Some c /\
  (cm_msg_type m, cm_body m, cm_extra m) = (sm_msg_type c, sm_body c, sm_extra c).

Definition backlog (st : MemoryMessageStore G) : list Z := (live_receipts app account tid now (inner st)).*2.
Definition page_of (st : MemoryMessageStore G) : list Z := take (Z.to_nat SYNC_PAGE) (backlog st).

(** Receipts are on, and each live one of the device has its index row. *)
Record drainable (st : MemoryMessageStore G) : Prop := {
  dr_wf : store_wf st;
  dr_on : pending_receipt st = true;
  dr_row : forall id, id ∈ backlog st -> is_Some (find_index_row app account id (inner st));
  dr_pos : forall id, id ∈ backlog st -> 0 < id
}.

Lemma omap_total {A B} (f : A -> option B) (g : B -> A) (l : list A) :
  (forall x, x ∈ l -> exists y, f x = Some y /\ g y = x) -> g <$> omap f l = l.
Proof.
  induction l as [|x l IH]; intros Hf; [done|]. destruct (Hf x ltac:(by left)) as (y & Ey & Eg).
  cbn [omap list_omap]. rewrite Ey. simpl. rewrite Eg. f_equal. apply IH. intros; apply Hf; by right.
Qed.

Lemma find_index_row_id id i r : find_index_row app account id i = Some r -> mx_message_id r = id.
Proof.
  unfold find_index_row. destruct (List.find _ _) as [row|] eqn:E; [|done]. intros [= <-].
  apply find_some in E as [_ E]. by apply Z.eqb_eq in E.
Qed.

Lemma page_index st : drainable st -> tid <> ""%string -> exists rows more,
  offline_index app account tid 0 true now unix st = (st, Ok (rows, more)) /\ mx_message_id <$> rows = page_of st.
Proof.
  intros Hd Ht. unfold offline_index. rewrite (dr_on _ Hd).
  replace (str_is_empty tid) with false by (symmetry; by apply bool_decide_eq_false_2). cbn [negb orb andb].
  set (L := live_receipts app account tid now (inner st)).
  eexists _, _. split; [done|].
  assert (Etake : (if MESSAGE_MAX_COUNT_PER_PAGE <? len (take (Z.to_nat (MESSAGE_MAX_COUNT_PER_PAGE + 1)) L)
      then take (Z.to_nat MESSAGE_MAX_COUNT_PER_PAGE) (take (Z.to_nat (MESSAGE_MAX_COUNT_PER_PAGE + 1)) L)
      else take (Z.to_nat (MESSAGE_MAX_COUNT_PER_PAGE + 1)) L) = take (Z.to_nat SYNC_PAGE) L).
  { destruct (Z.ltb_spec MESSAGE_MAX_COUNT_PER_PAGE (len (take (Z.to_nat (MESSAGE_MAX_COUNT_PER_PAGE + 1)) L))) as [Hl|Hl].
    - rewrite take_take. f_equal.
    - unfold len in Hl. rewrite length_take in Hl. rewrite !take_ge; [done|..]; unfold MESSAGE_MAX_COUNT_PER_PAGE, SYNC_PAGE in *; lia. }
  rewrite Etake. unfold page_of, backlog. fold L. rewrite <- fmap_take.
  assert (Hin : forall x, x ∈ take (Z.to_nat SYNC_PAGE) L -> exists r, find_index_row app account x.2 (inner st) = Some r /\ mx_message_id r = x.2).
  { intros x Hx. destruct (dr_row _ Hd x.2) as [r Hr].
    - apply list_elem_of_fmap. exists x. split; [done|]. by eapply elem_of_take_in.
    - exists r. split; [done|]. by eapply find_index_row_id. }
  revert Hin. generalize (take (Z.to_nat SYNC_PAGE) L). induction l as [|x l IH]; intros Hin; [done|].
  destruct (Hin x ltac:(by left)) as (r & Er & Em). cbn [omap list_omap fmap list_fmap]. rewrite Er. simpl. rewrite Em.
  f_equal. apply IH. intros; apply Hin; by right.
Qed.

Lemma page_in_backlog st id : id ∈ page_of st -> id ∈ backlog st.
Proof. apply elem_of_take_in. Qed.

Lemma NoDup_backlog st : NoDup (backlog st).
Proof. apply NoDup_live_receipts. Qed.
Lemma NoDup_page st : NoDup (page_of st).
Proof. eapply sublist_NoDup; [apply NoDup_backlog|]. apply sublist_take. Qed.
Lemma len_page st : len (page_of st) <= SYNC_PAGE.
Proof. unfold len, page_of. rewrite length_take. unfold SYNC_PAGE. lia. Qed.

Lemma page_content st : drainable st -> exists rows,
  offline_content app account (page_of st) st = Ok rows /\ mc_message_id <$> rows = page_of st /\
  forall r, r ∈ rows -> exists c, contents (inner st) !! mc_message_id r = Some c /\
    (mc_msg_type r, mc_body r, mc_extra r) = (sm_msg_type c, sm_body c, sm_extra c).
Proof.
  intros Hd. unfold offline_content. eexists. split; [done|]. split.
  2:{ intros r (id & Hid & Er)%list_elem_of_omap. destruct (contents (inner st) !! id) as [c|] eqn:Ec; [|done].
      repeat (case_match; [done|]). injection Er as <-. exists c. split; [|done]. cbn [mc_message_id].
      by destruct (wf_id _ _ (dr_wf _ Hd) _ _ Ec) as [-> _]. }
  apply omap_total. intros id Hid%page_in_backlog.
  destruct (dr_row _ Hd id Hid) as [r Hr]. unfold find_index_row in Hr.
  destruct (List.find _ _) as [row|] eqn:Ef; [|done]. pose proof (find_some _ _ Ef) as [Hin Eid%Z.eqb_eq].
  apply list_elem_of_In in Hin. destruct (account_row_content _ _ _ _ _ (dr_wf _ Hd) Hin) as (_ & _ & _ & c & Hc & Ha).
  rewrite Eid in Hc. rewrite Hc, bool_decide_eq_true_2 by done. cbn [negb].
  assert (Hex : existsb (fun r => r_message_id r =? id) (account_rows app account (inner st)) = true).
  { apply existsb_exists. exists row. rewrite <- list_elem_of_In. split; [done|]. by apply Z.eqb_eq. }
  rewrite Hex. cbn [negb]. eexists. split; [done|]. cbn [mc_message_id]. by destruct (wf_id _ _ (dr_wf _ Hd) _ _ Hc).
Qed.

Lemma ask_page st : drainable st -> tid <> ""%string -> exists idxs msgs,
  ask_index st = (st, Ok idxs) /\ cx_message_id <$> idxs = page_of st /\
  ask_content (page_of st) st = (st, Ok msgs) /\ cm_message_id <$> msgs = page_of st /\
  forall m, m ∈ msgs -> message_carries (inner st) m.
Proof.
  intros Hd Ht. destruct (page_index st Hd Ht) as (rows & more & Ei & Er).
  destruct (page_content st Hd) as (crows & Ec & Em & Hc).
  exists (client_index <$> (index_to_proto <$> rows)), (client_message <$> (content_to_proto <$> crows)).
  unfold ask_index, ask_content. rewrite (serve_index _ _ _ _ Ht Ei), answer_index.
  rewrite (serve_content _ _ _ (len_page st) Ec), answer_content.
  split_and!; [done| |done| |]; rewrite <- ?list_fmap_compose; [by rewrite <- Er|by rewrite <- Em|].
  intros m (r & -> & Hr)%list_elem_of_fmap. by apply Hc.
Qed.

Lemma take_fmap_unlisted (l : list (Z * Z)) n : NoDup l.*2 ->
  List.filter (unlisted (take n l.*2)) l = drop n l.
Proof.
  revert n; induction l as [|x l IH]; intros n; [by destruct n|].
  cbn [fmap list_fmap]. intros [Hx Hn]%list.NoDup_cons. destruct n as [|n].
  - rewrite take_0, drop_0. apply forallb_filter_id, forallb_forall. intros y _. unfold unlisted.
    apply negb_true_iff, bool_decide_eq_false_2, not_elem_of_nil.
  - cbn [take drop List.filter]. unfold unlisted at 1. rewrite bool_decide_eq_true_2 by (by left). cbn [negb].
    rewrite <- (IH n Hn). apply List.filter_ext_in. intros y Hy%list_elem_of_In. unfold unlisted.
    f_equal. apply bool_decide_ext. rewrite elem_of_cons. split; [|by right]. intros [Ey|?]; [|done].
    destruct Hx. rewrite <- Ey. apply list_elem_of_fmap. by exists y.
Qed.

Lemma ack_page st : drainable st -> tid <> ""%string -> page_of st <> [] ->
  let st' := send_ack (page_of st) st in
  drainable st' /\ backlog st' = drop (Z.to_nat SYNC_PAGE) (backlog st).
Proof.
  intros Hd Ht Hne st'. assert (Hz : 0 ∉ page_of st).
  { intros H0'%page_in_backlog. apply (dr_pos _ Hd) in H0'. lia. }
  assert (Est : st' = (ack app account tid (page_of st) now st).1).
  { apply serve_ack; [done|done|apply NoDup_page|done|apply len_page]. }
  assert (Eb : backlog st' = drop (Z.to_nat SYNC_PAGE) (backlog st)).
  { unfold backlog. rewrite Est, live_receipts_ack by (done || apply (dr_on _ Hd)).
    unfold page_of, backlog. rewrite take_fmap_unlisted by apply NoDup_live_receipts. by rewrite fmap_drop. }
  split; [|done].
  assert (Hin : forall id, id ∈ backlog st' -> id ∈ backlog st).
  { intros id. rewrite Eb. intros Hid. rewrite <- (take_drop (Z.to_nat SYNC_PAGE) (backlog st)). apply elem_of_app. by right. }
  assert (Einner : indexes_by_account (inner st') = indexes_by_account (inner st)).
  { rewrite Est. unfold ack. case_match; [by case_match|]. case_match; [done|]. by destruct (foldl _ _ _). }
  split.
  - rewrite Est. apply ack_wf, Hd.
  - rewrite Est. unfold ack. rewrite (dr_on _ Hd).
    replace (str_is_empty tid) with false by (symmetry; by apply bool_decide_eq_false_2). cbn [negb orb].
    case_match; [apply Hd|]. by destruct (foldl _ _ _).
  - intros id Hid%Hin. unfold find_index_row, account_rows. rewrite Einner. by apply (dr_row _ Hd).
  - intros id Hid%Hin. by apply (dr_pos _ Hd).
Qed.

Lemma observe_fresh id s : id ∉ seen s -> exists s', observe id s = (true, s') /\ forall x, x ∈ seen s' -> x = id \/ x ∈ seen s.
Proof.
  intros Hid. unfold observe. destruct (id =? 0); [eexists; split; [done|by right]|].
  rewrite bool_decide_eq_false_2 by done. eexists. split; [done|].
  intros x Hx%evict_seen. simpl in Hx. set_solver.
Qed.

Lemma messages_by_id_in msgs k : k ∈ cm_message_id <$> msgs ->
  exists m, messages_by_id msgs !! k = Some m /\ cm_message_id m = k /\ m ∈ msgs.
Proof.
  intros Hk. pose proof (messages_by_id_spec msgs k) as Hs. destruct (messages_by_id msgs !! k) as [m|]; [by exists m|done].
Qed.

(** A page of ids that were not seen comes out whole and in order. *)
Lemma merge_fresh i msgs idxs s : (forall m, m ∈ msgs -> message_carries i m) -> (forall id, id ∈ cx_message_id <$> idxs -> id ∈ cm_message_id <$> msgs) ->
  NoDup (cx_message_id <$> idxs) -> (forall id, id ∈ cx_message_id <$> idxs -> id ∉ seen s) ->
  exists talks s', merge_indexes account (messages_by_id msgs) idxs s = (talks, s') /\
    it_message_id <$> talks = cx_message_id <$> idxs /\
    (forall x, x ∈ seen s' -> x ∈ seen s \/ x ∈ cx_message_id <$> idxs) /\ Forall (carries i) talks.
Proof.
  intros Hcar. revert s. induction idxs as [|idx idxs IH]; intros s Hm Hn Hs; cbn [merge_indexes].
  { exists [], s. split; [done|]. split; [done|]. split; [by left|constructor]. }
  cbn [fmap list_fmap] in *. apply list.NoDup_cons in Hn as [Hnx Hn]. set (id := cx_message_id idx) in *.
  destruct (messages_by_id_in msgs id) as (m & Em & Eid & Hin); [apply Hm; by left|]. rewrite Em.
  assert (Ho : exists s1, (if id =? 0 then (true, s) else observe id s) = (true, s1) /\
    forall x, x ∈ seen s1 -> x = id \/ x ∈ seen s).
  { destruct (id =? 0); [exists s; split; [done|by right]|]. apply observe_fresh, Hs. by left. }
  destruct Ho as (s1 & -> & Hs1). cbn [negb].
  destruct (IH s1) as (talks & s' & -> & Et & Hs' & Hf).
  - intros x Hx. apply Hm. by right.
  - done.
  - intros x Hx [->|Hx']%Hs1; [done|]. eapply Hs; [by right|done].
  - eexists _, _. split; [done|]. cbn [fmap list_fmap talk_from_offline it_message_id]. rewrite Eid, Et. split; [done|].
    split; [|constructor; [by apply (Hcar m)|done]].
    intros x [Hx|Hx]%Hs'; [|right; by right]. apply Hs1 in Hx as [->|Hx]; [right; by left|by left].
Qed.

(** *** A run *)

Definition go {A} (items : list ClientInboxItem) (p : SyncProc A) (d : Device) : Device * A :=
  let '(d, _, a) := Prog.run (serve_sync items) p d in (d, a).

Lemma go_ret {A} items (a : A) d : go items (Ret a) d = (d, a).
Proof. done. Qed.
Lemma go_bind {A B} items (p : SyncProc A) (f : A -> SyncProc B) d :
  go items (p ≫= f) d = let '(d, a) := go items p d in go items (f a) d.
Proof.
  unfold go. rewrite run_bind. destruct (Prog.run (serve_sync items) p d) as [[d1 tr1] a].
  by destruct (Prog.run (serve_sync items) (f a) d1) as [[d2 tr2] b].
Qed.
Lemma go_call {X} items (e : SyncEff X) d : go items (call e) d = serve_sync items X e d.
Proof. unfold go, call. cbn [Prog.run]. by destruct (serve_sync items X e d). Qed.

Lemma go_hand_over items persist page talks pulled d : 0 < page -> talks <> [] ->
  go items (hand_over persist page talks pulled) d = (mkDevice (d_store d) (d_got d ++ talks), None).
Proof.
  intros Hp Ht. unfold hand_over. rewrite bool_decide_eq_false_2 by done. destruct persist.
  { rewrite go_bind, go_call. done. }
  rewrite (proj2 (Z.ltb_lt 0 page)) by done. rewrite go_bind, go_call. cbn [serve_sync negb].
  unfold wait_confirm, wait_confirm_once. destruct (Z.leb_spec page 0); [lia|].
  rewrite go_bind, go_bind, go_call. cbn [serve_sync]. rewrite !go_bind, go_call. done.
Qed.

Lemma go_page items persist s pulled st got :
  drainable st -> tid <> ""%string -> (forall id, id ∈ backlog st -> id ∉ seen s) ->
  if decide (page_of st = []) then go items (sync_page account persist s pulled) (mkDevice st got) = (mkDevice st got, PageBreak pulled)
  else exists talks s', it_message_id <$> talks = page_of st /\ Forall (carries (inner st)) talks /\
    (forall x, x ∈ seen s' -> x ∈ seen s \/ x ∈ page_of st) /\
    go items (sync_page account persist s pulled) (mkDevice st got) =
    (mkDevice (send_ack (page_of st) st) (got ++ talks),
     if len (page_of st) <? SYNC_PAGE then PageBreak (pulled + len (page_of st))
     else PageNext s' (pulled + len (page_of st))).
Proof.
  intros Hd Ht Hs. destruct (ask_page st Hd Ht) as (idxs & msgs & Ei & Ex & Ec & Em & Hcar).
  unfold sync_page. rewrite go_bind, go_call. cbn [serve_sync d_store d_got]. rewrite Ei.
  assert (Hle : (length idxs <= Z.to_nat SYNC_PAGE)%nat).
  { rewrite <- (length_fmap cx_message_id), Ex. pose proof (len_page st). unfold len, SYNC_PAGE in *. lia. }
  assert (Elen : len idxs = len (page_of st)) by (unfold len; by rewrite <- Ex, length_fmap).
  case_decide as Ep.
  { rewrite Ep in Ex. by destruct idxs. }
  destruct idxs as [|idx idxs']; [by rewrite <- Ex in Ep|]. set (idxs := idx :: idxs') in *. cbv zeta.
  rewrite (take_ge (cx_message_id <$> idxs)) by (by rewrite length_fmap). rewrite Ex.
  rewrite go_bind, go_call. cbn [serve_sync d_store d_got]. rewrite Ec.
  assert (Eo : go items (others_saw persist s) (mkDevice st got) = (mkDevice st got, s)).
  { unfold others_saw. destruct persist; [done|]. rewrite go_bind, go_call. done. }
  rewrite go_bind, Eo. unfold merge_offline. rewrite take_ge by done.
  destruct (merge_fresh (inner st) msgs idxs s) as (talks & s' & Emerge & Et & Hseen & Hf); [done|..].
  { by rewrite Ex, Em. }
  { rewrite Ex. apply NoDup_page. }
  { rewrite Ex. intros id Hid. by apply Hs, page_in_backlog. }
  rewrite Emerge. rewrite Ex in Et, Hseen. exists talks, s'. split; [done|]. split; [done|]. split; [done|].
  assert (Hpos : 0 < max_id (page_of st)).
  { destruct (page_of st) as [|x l] eqn:El; [done|]. assert (Hx : x ∈ page_of st) by (rewrite El; by left).
    pose proof (dr_pos _ Hd _ (page_in_backlog _ _ Hx)). rewrite El in Hx. pose proof (le_max_id _ _ Hx). lia. }
  rewrite go_bind, go_hand_over; [|done|by intros ->; rewrite <- Et in Ep].
  rewrite go_bind, go_call. cbn [serve_sync d_store d_got]. rewrite go_bind, go_call. cbn [serve_sync].
  rewrite go_ret, Elen. assert (len talks = len (page_of st)) as -> by (unfold len; by rewrite <- Et, length_fmap). done.
Qed.

Lemma send_ack_contents st : drainable st -> tid <> ""%string -> page_of st <> [] ->
  contents (inner (send_ack (page_of st) st)) = contents (inner st).
Proof.
  intros Hd Ht Hne. rewrite serve_ack; [|done|done|apply NoDup_page| |apply len_page].
  - unfold ack. case_match; [by case_match|]. case_match; [done|]. by destruct (foldl _ _ _).
  - intros H0'%page_in_backlog. apply (dr_pos _ Hd) in H0'. lia.
Qed.

(** What a finished catch-up leaves. *)
Definition drained (st : MemoryMessageStore G) (pulled : Z) (got : list IncomingTalk)
  (out : Device * option (result Z ClientError)) : Prop :=
  exists talks, out.2 = Some (Ok (pulled + len (backlog st))) /\ d_got out.1 = got ++ talks /\
    it_message_id <$> talks = backlog st /\ Forall (carries (inner st)) talks /\ backlog (d_store out.1) = [].

Lemma go_loop fuel items persist s pulled st got :
  drainable st -> tid <> ""%string -> (forall id, id ∈ backlog st -> id ∉ seen s) ->
  (length (backlog st) < Z.to_nat SYNC_PAGE * fuel)%nat ->
  drained st pulled got (go items (sync_loop account persist fuel s pulled) (mkDevice st got)).
Proof.
  revert s pulled st got. induction fuel as [|fuel IH]; intros s pulled st got Hd Ht Hs Hf; [lia|].
  cbn [sync_loop]. rewrite go_bind. pose proof (go_page items persist s pulled st got Hd Ht Hs) as Hp.
  pose proof (NoDup_backlog st) as Hnd. rewrite <- (take_drop (Z.to_nat SYNC_PAGE) (backlog st)) in Hnd.
  fold (page_of st) in Hnd. apply list.NoDup_app in Hnd as (_ & Hdisj & _).
  pose proof (length_take (backlog st) (Z.to_nat SYNC_PAGE)) as Hlen. fold (page_of st) in Hlen.
  case_decide as Ep.
  - assert (Eb : backlog st = []).
    { destruct (backlog st); [done|]. rewrite Ep in Hlen. simpl in Hlen. unfold SYNC_PAGE in Hlen. lia. }
    rewrite Hp, go_bind, go_call. cbn [serve_sync]. rewrite go_ret. exists []. rewrite Eb, app_nil_r. cbn [fst snd].
    split_and!; [f_equal; f_equal; unfold len; simpl; lia|done|done|constructor|done].
  - destruct Hp as (talks & s' & Et & Hcar & Hseen & ->).
    destruct (ack_page st Hd Ht Ep) as [Hd' Eb']. set (st' := send_ack (page_of st) st) in *.
    assert (Hsplit : len (backlog st) = len (page_of st) + len (backlog st')).
    { rewrite Eb', <- len_app. unfold page_of. by rewrite take_drop. }
    destruct (Z.ltb_spec (len (page_of st)) SYNC_PAGE) as [Hl|Hl].
    + rewrite go_bind, go_call. cbn [serve_sync]. rewrite go_ret. exists talks. cbn [fst snd d_got d_store].
      assert (Hall : backlog st' = []).
      { rewrite Eb'. apply drop_ge. unfold len in Hl. lia. }
      split_and!; [rewrite Hsplit, Hall; f_equal; f_equal; unfold len; simpl; lia|done| |done|done].
      rewrite Et. unfold page_of. apply take_ge. unfold len in Hl. lia.
    + destruct (IH s' (pulled + len (page_of st)) st' (got ++ talks)) as (talks' & E2 & Eg & Et' & Hcar' & E0).
      * done.
      * done.
      * intros id Hid [Hin|Hin]%Hseen.
        -- apply (Hs id); [|done]. rewrite <- (take_drop (Z.to_nat SYNC_PAGE) (backlog st)), <- Eb'.
           apply elem_of_app. by right.
        -- rewrite Eb' in Hid. by apply (Hdisj id).
      * rewrite Eb', length_drop. unfold len in Hl. lia.
      * exists (talks ++ talks'). split_and!.
        -- rewrite E2, Hsplit. f_equal. f_equal. lia.
        -- by rewrite Eg, app_assoc.
        -- rewrite fmap_app, Et, Et', Eb'. apply take_drop.
        -- apply Forall_app. split; [done|]. eapply list.Forall_impl; [exact Hcar'|]. intros t (c & Hc & Ec).
           exists c. split; [|done]. by rewrite <- (send_ack_contents st Hd Ht Ep).
        -- done.
Qed.

Lemma drain_run items persist fuel st :
  drainable st -> tid <> ""%string -> (length (backlog st) < Z.to_nat SYNC_PAGE * fuel)%nat ->
  drained st 0 [] (go items (sync_run account persist fuel SeenSet_new) (mkDevice st [])).
Proof.
  intros Hd Ht Hf. unfold sync_run. rewrite go_bind, go_call. cbn [serve_sync].
  assert (Ei : go items (sync_inbox persist items) (mkDevice st []) = (mkDevice st [], true)).
  { unfold sync_inbox. destruct persist; [|done]. cbn [negb].
    rewrite go_bind, go_call. cbn [serve_sync]. by rewrite go_bind, go_call. }
  rewrite go_bind, Ei. cbn [negb]. rewrite go_bind, go_call. cbn [serve_sync].
  apply go_loop; try done.
Qed.

(** After a history the store is one a catch-up drains. *)
Lemma history_drainable (g : G) observer ops : 1 <= id_bound g -> Forall (fun o => op_ok o.2) ops ->
  repeats_ok ops (with_ack g true observer) -> drainable (run_ops ops (with_ack g true observer)).
Proof.
  intros Hg Hok Hrep. set (st0 := with_ack g true observer). set (st := run_ops ops st0).
  assert (Hwf : store_wf st) by (apply run_ops_wf; [apply with_ack_wf|done]).
  assert (Hr : rowed (inner st)) by (apply run_ops_rowed; [apply with_ack_wf|done|done|apply rowed_empty]).
  assert (Hp : positive st) by (apply run_ops_positive; [apply with_ack_wf|done|by split]).
  assert (Hin : forall id, id ∈ backlog st -> exists e, Store.pending (inner st) !! (app, account, tid, id) = Some e).
  { intros id ([c id'] & -> & Hid)%list_elem_of_fmap. apply elem_of_live_receipts in Hid as (e & He & _). by exists e. }
  split; [done|by unfold st; rewrite run_ops_receipts_on| |].
  - intros id [e He]%Hin. apply (has_row_index (id_bound (idgen st))); [exact Hwf|]. by eapply Hr.
  - intros id [e He]%Hin. destruct (StoreInv.wf_pending _ _ Hwf _ _ _ _ _ He) as (c & Hc & _).
    destruct (Z.lt_ge_cases 0 id) as [|Hle]; [done|]. by rewrite (proj2 Hp id Hle) in Hc.
Qed.

(** (C5) A finished catch-up leaves the device caught up.  Take a store with delivery
    receipts (KIM_PENDING_RECEIPT=1) after any history of its operations in which a
    client id was only reused for the same recipients.  Whatever backlog it holds for
    the device (the live receipts of its token), a catch-up given enough rounds, over
    the offline handlers, with an application that takes what it is given and a clock
    that stands still, ends without an error, hands over every pending message exactly
    once, in the order of the receipts and with the stored contents, and acknowledges
    them all: nothing is pending for the device afterwards. *)
Theorem sync_drains_backlog (g : G) (observer : bool) (ops : list (Z * Z * StoreOp)) items persist fuel :
  let st := run_ops ops (with_ack g true observer) in
  1 <= id_bound g -> Forall (fun o => op_ok o.2) ops -> repeats_ok ops (with_ack g true observer) ->
  tid <> ""%string -> (length (backlog st) < Z.to_nat SYNC_PAGE * fuel)%nat ->
  drained st 0 [] (go items (sync_run account persist fuel SeenSet_new) (mkDevice st [])).
Proof. intros st Hg Hok Hrep Ht Hf. apply drain_run; [by apply history_drainable|done|done]. Qed.
End service.

(** ** Concrete runs *)

Section demo.
#[local] Existing Instance demo_prost.
#[local] Existing Instance demo_prost_ok.

Definition sync_session : Session := mkSession "ch1" "gw1" "bob" "" "" "" "mobile" "kim" [] "t1" "".
Definition sync_ops : list (Z * Z * StoreOp) :=
  [(1, 1, OpInsertUser "kim" (demo_req "alice" "bob" "c1" "hi"));
   (2, 2, OpInsertUser "kim" (demo_req "carol" "bob" "c2" "yo"));
   (3, 3, OpInsertUser "kim" (demo_req "alice" "bob" "c1" "hi"))]%string.
Definition sync_store : MemoryMessageStore CountingGen := run_ops sync_ops demo_store.

Lemma sync_backlog : backlog sync_session 5 sync_store = [10; 13].
Proof. vm_compute. reflexivity. Qed.
Lemma sync_repeats : repeats_ok sync_ops demo_store.
Proof.
  unfold sync_ops. cbn [repeats_ok op_repeats snd fst].
  split_and!; [intros _ id t E; vm_compute in E; discriminate..| |exact I].
  intros _ id t E account ->%list_elem_of_singleton. vm_compute in E. injection E as <- _.
  eexists. split; [vm_compute; right; left|split; reflexivity].
Qed.

Lemma sync_drains_backlog_witness : (length (backlog sync_session 5 sync_store) = 2)%nat /\
  drained sync_session 5 sync_store 0 [] (go sync_session 5 5 7 [] (sync_run "bob" true 3 SeenSet_new) (mkDevice sync_store [])).
Proof.
  assert (E : (length (backlog sync_session 5 sync_store) = 2)%nat) by (rewrite sync_backlog; reflexivity).
  split; [exact E|].
  apply (sync_drains_backlog sync_session 5 5 7 (mkCountingGen 10) true sync_ops [] true 3); [simpl; lia| |exact sync_repeats|discriminate|].
  - repeat constructor; simpl; discriminate.
  - change (length (backlog sync_session 5 sync_store) < Z.to_nat SYNC_PAGE * 3)%nat. rewrite E. unfold SYNC_PAGE. lia.
Defined.
End demo.
