(* ===== verification/ClientLogin.v ===== *)
(** Connecting and signing in on the client: token.rs, login.rs, session.rs, config.rs
    and the state machine of client.rs ([connect], [login], [disconnect]) in
    crates/kim-client/src.

    The client keeps one connection in [Io] and the session it signed in with.
    Reading and writing the connection are the calls [ConnEff]; a time limit may pass
    at each of them. *)

From S2P Require Import Prelude Prog Wire Pkt Msgs TcpCodec ClientWire Container.
Open Scope Z_scope.
Open Scope kim_scope.

(** ** Strings, as the source takes them apart *)

Definition str_find (sep s : string) : option nat := String.index 0 sep s.
Definition str_contains (sep s : string) : bool := bool_decide (is_Some (str_find sep s)).
Definition str_from (n : nat) (s : string) : string := String.substring n (String.length s - n) s.
Definition strip_prefix (p s : string) : option string :=
  if String.prefix p s then Some (str_from (String.length p) s) else None.
Definition strip_suffix (p s : string) : option string :=
  let n := (String.length s - String.length p)%nat in
  if bool_decide (str_from n s = p) && (String.length p <=? String.length s)%nat
  then Some (String.substring 0 n s) else None.
Definition split_once_at (sep s : string) : option (string * string) :=
  i ← str_find sep s; Some (String.substring 0 i s, str_from (i + String.length sep)%nat s).

Definition i32_text (n : Z) : string :=
  if n <? 0 then ("-" ++ nat_to_dec (- n))%string else nat_to_dec n.

(** ** error.rs: texts *)

(** The texts of the errors of prost and of the operating system. *)
Class ErrorTexts := { decode_error_text : string; io_error_text : string }.

(** [{:?}] of a duration of whole milliseconds. *)
Definition duration_text (ms : Z) : string :=
  if ms =? 0 then "0ns"
  else if ms <? 1000 then nat_to_dec ms +:+ "ms"
  else
    let part := ms mod 1000 in
    let frac :=
      if part =? 0 then ""%string
      else if part mod 100 =? 0 then "." +:+ nat_to_dec (part / 100)
      else if part mod 10 =? 0 then
        "." +:+ (if part <? 100 then "0" else "") +:+ nat_to_dec (part / 10)
      else "." +:+ (if part <? 10 then "00" else if part <? 100 then "0" else "") +:+ nat_to_dec part in
    nat_to_dec (ms / 1000) +:+ frac +:+ "s".

Definition ProtocolError_text `{ErrorTexts} (e : ProtocolError) : string :=
  match e with
  | BadMagic => "bad magic"
  | Incomplete => "incomplete packet"
  | BasicTooLarge n => "basic pkt body too large: " ++ nat_to_dec n
  | NotLogic => "not a logic packet"
  | Wire.Prost => "protobuf: " ++ decode_error_text
  | TokenExpired => "token expired"
  | TokenSignature => "token signature invalid"
  | InvalidToken => "invalid token"
  | InvalidAccount => "invalid account"
  | InvalidChannelId => "invalid channel id"
  | InvalidGatewayId => "invalid gateway id"
  | InvalidDest => "invalid dest"
  | InvalidHmacSecret => "invalid hmac secret"
  end%string.

Definition Error_text `{ErrorTexts} (e : Error) : string :=
  match e with
  | FrameTooLarge size max =>
    "frame too large: " ++ nat_to_dec size ++ " bytes (max " ++ nat_to_dec max ++ ")"
  | UnknownOpcode raw => "unknown opcode " ++ nat_to_dec raw
  | Closed => "connection closed"
  | Io => "io: " ++ io_error_text
  end%string.

Definition ClientError_text `{ErrorTexts} (e : ClientError) : string :=
  match e with
  | NotConnected => "not connected"
  | AlreadyConnected => "already connected"
  | NotLoggedIn => "not logged in"
  | HandshakeTimeout after => "handshake timeout after " ++ duration_text after
  | Handshake msg => "handshake failed: " ++ msg
  | StatusError status => "status " ++ i32_text status
  | Protocol e => "protocol: " ++ ProtocolError_text e
  | ClientUnauthorized => "unauthorized"
  | ClientInvalidToken => "invalid token"
  | ClientInvalidAccount => "invalid account"
  | InvalidPassword => "invalid password"
  | InsecureOrigin => "auth origin must be https (or http://127.0.0.1 / localhost for local dev)"
  | PasswordSeal => "password seal unavailable"
  | Http status body => "http " ++ nat_to_dec status ++ ": " ++ body
  | Core e => Error_text e
  | Other msg => msg
  end%string.

(** ** token.rs *)

(** The crates that take a token apart: base64 and JSON. *)
Class JwtParts := {
  b64url_decode : string -> option bytes;
  payload_of_json : bytes -> option (option string * option Z)
}.

Record UnverifiedClaims := mkUnverifiedClaims { uc_account : string; uc_exp : Z }.

Definition EXP_SKEW_SECS : Z := 30.

Section token.
Context `{JwtParts}.

Definition decode_b64url (s : string) : result bytes ClientError :=
  match b64url_decode s with Some b => Ok b | None => Err ClientInvalidToken end.

Definition unverified_claims (token : string) : result UnverifiedClaims ClientError :=
  match split_on "." token with
  | _ :: payload :: _ =>
    if str_is_empty payload then Err ClientInvalidToken
    else
      let? json := decode_b64url payload in
      match payload_of_json json with
      | None => Err ClientInvalidToken
      | Some (acc, exp) =>
        match acc with
        | Some account =>
          if str_is_empty account then Err ClientInvalidToken
          else match exp with
               | None => Err ClientInvalidToken
               | Some exp => Ok (mkUnverifiedClaims account exp)
               end
        | None => Err ClientInvalidToken
        end
      end
  | _ => Err ClientInvalidToken
  end.

Definition account_from_token (token : string) : result string ClientError :=
  let? claims := unverified_claims token in Ok (uc_account claims).

(** [Some] when the token must not be tried; [now] is the clock. *)
Definition token_unusable (now : Z) (token : string) : option ClientError :=
  match unverified_claims token with
  | Err e => Some e
  | Ok claims => if uc_exp claims <=? sat_i64 (now + EXP_SKEW_SECS) then Some ClientUnauthorized else None
  end.
End token.

(** ** session.rs *)

Record MemorySession := mkMemorySession { ms_channel_id : string; ms_account : string; ms_token : string }.
Definition MemorySession_default : MemorySession := mkMemorySession "" "" "".
Definition is_logged_in (s : MemorySession) : bool := negb (str_is_empty (ms_channel_id s)).
Definition with_token (token : string) (s : MemorySession) : MemorySession :=
  mkMemorySession (ms_channel_id s) (ms_account s) token.

(** ** login.rs *)

(** What awaits the connection during the sign-in: [None] when the time limit of the
    reply passed first. *)
Inductive ConnEff : Type -> Type :=
| CWrite (f : Frame) : ConnEff (result unit Error)
| CFlush : ConnEff (result unit Error)
| CPong : ConnEff (option unit)
| CRead : ConnEff (option (result Frame Error)).

(** What a packet of the gateway is to a client that waits for the reply of its
    sign-in; [None] when it waits on. *)
Definition login_reply `{Prost} (p : Packet) : option (result string ClientError) :=
  match p with
  | Basic _ => None
  | Logic p =>
    if negb (bool_decide (h_command (l_header p) = CMD_LOGIN_SIGN_IN)) then None
    else
      let st := h_status (l_header p) in
      if negb (st =? Status_as_i32 Success) then
        Some (Err (if st =? Status_as_i32 Unauthorized then ClientUnauthorized else Handshake ("status=" ++ i32_text st)))
      else Some
        (let? resp := lift (read_body p) in
         if str_is_empty (lr_channel_id resp) || bool_decide (lr_channel_id resp = "alice"%string)
         then Err (Handshake "bad channel_id") else Ok (lr_channel_id resp))
  end.

(** The wait reads one frame per round; [None] when the fuel ran out. *)
Fixpoint wait_login_resp `{Prost} (timeout : Z) (fuel : nat) : Prog ConnEff (option (result string ClientError)) :=
  match fuel with
  | O => Ret None
  | S fuel =>
    r ← call CRead;
    match r with
    | None => Ret (Some (Err (HandshakeTimeout timeout)))
    | Some (Err Closed) => Ret (Some (Err (Handshake "closed")))
    | Some (Err e) => Ret (Some (Err (Core e)))
    | Some (Ok f) =>
      match f_opcode f with
      | Close => Ret (Some (Err (Handshake "closed")))
      | Ping =>
        sent ← call CPong;
        match sent with
        | None => Ret (Some (Err (HandshakeTimeout timeout)))
        | Some _ => wait_login_resp timeout fuel
        end
      | Pong | Continuation => wait_login_resp timeout fuel
      | Binary | Text =>
        match read (f_payload f) with
        | Err e => Ret (Some (Err (Protocol e)))
        | Ok p => match login_reply p with Some r => Ret (Some r) | None => wait_login_resp timeout fuel end
        end
      end
    end
  end.

Section login.
Context `{Prost} `{JwtParts}.

Definition login_with_device (token : string) (timeout : Z) (device : string) (fuel : nat)
  : Prog ConnEff (option (result MemorySession ClientError)) :=
  match account_from_token token with
  | Err e => Ret (Some (Err e))
  | Ok account =>
    w ← call (CWrite (Frame_binary (encode_login token device)));
    match w with
    | Err e => Ret (Some (Err (Core e)))
    | Ok _ =>
      f ← call CFlush;
      match f with
      | Err e => Ret (Some (Err (Core e)))
      | Ok _ =>
        r ← wait_login_resp timeout fuel;
        Ret (match r with
             | None => None
             | Some (Err e) => Some (Err e)
             | Some (Ok channel_id) => Some (Ok (mkMemorySession channel_id account token))
             end)
      end
    end
  end.

Definition login_on_conn (token : string) (timeout : Z) (fuel : nat) :=
  login_with_device token timeout DEFAULT_DEVICE fuel.
End login.

(** ** config.rs *)

Definition DEFAULT_LOCAL_URL : string := "ws://127.0.0.1:8001/".
Definition DEFAULT_PROD_URL : string := "wss://kim.ainexc.com/".
Definition DEFAULT_LOCAL_HTTP_ORIGIN : string := "http://127.0.0.1:8080".
Definition DEFAULT_PROD_HTTP_ORIGIN : string := "https://kim.ainexc.com".
Definition DESKTOP_DEVICE : string := "desktop".
Definition DEFAULT_CLIENT_USER_AGENT : string := "KIM/0.1 (kim-client)".

Definition device_for_target_os (os : string) : string :=
  if bool_decide (os ∈ ["macos"; "windows"; "linux"]%string) then DESKTOP_DEVICE else DEFAULT_DEVICE.

(** Durations are in milliseconds. *)
Record ClientConfig := mkClientConfig {
  cc_url : string;
  cc_token : string;
  cc_handshake_timeout : Z;
  cc_user_agent : string;
  cc_device : string;
  cc_heartbeat : Z;
  cc_read_idle : Z;
  cc_probe_timeout : Z;
  cc_confirm_timeout : Z
}.

Definition DEFAULT_LOGIN_WAIT : Z := 10000.
Definition DEFAULT_HEARTBEAT : Z := 30000.

Definition ClientConfig_new (url token : string) : ClientConfig :=
  mkClientConfig url token DEFAULT_LOGIN_WAIT DEFAULT_CLIENT_USER_AGENT DEFAULT_DEVICE DEFAULT_HEARTBEAT
    (DEFAULT_HEARTBEAT * 3) 5000 15000.
Definition with_user_agent (user_agent : string) (c : ClientConfig) : ClientConfig :=
  if str_is_empty (str_trim user_agent) then c
  else mkClientConfig (cc_url c) (cc_token c) (cc_handshake_timeout c) user_agent (cc_device c)
         (cc_heartbeat c) (cc_read_idle c) (cc_probe_timeout c) (cc_confirm_timeout c).
Definition with_device (device : string) (c : ClientConfig) : ClientConfig :=
  if str_is_empty (str_trim device) then c
  else mkClientConfig (cc_url c) (cc_token c) (cc_handshake_timeout c) (cc_user_agent c) device
         (cc_heartbeat c) (cc_read_idle c) (cc_probe_timeout c) (cc_confirm_timeout c).
Definition ClientConfig_local (token : string) : ClientConfig := ClientConfig_new DEFAULT_LOCAL_URL token.
Definition ClientConfig_production (token : string) : ClientConfig := ClientConfig_new DEFAULT_PROD_URL token.
(** [KIM_WS_URL], when the environment has it. *)
Definition with_env_url (var : option string) (c : ClientConfig) : ClientConfig :=
  match var with
  | Some url =>
    if str_is_empty (str_trim url) then c
    else mkClientConfig (str_trim url) (cc_token c) (cc_handshake_timeout c) (cc_user_agent c) (cc_device c)
           (cc_heartbeat c) (cc_read_idle c) (cc_probe_timeout c) (cc_confirm_timeout c)
  | None => c
  end.

Definition http_origin_from_ws (ws_url : string) : string :=
  let raw := str_trim ws_url in
  if str_is_empty raw || String.prefix "wss://kim.ainexc.com" raw then DEFAULT_PROD_HTTP_ORIGIN
  else if str_contains "127.0.0.1:8001" raw || str_contains "localhost:8001" raw then DEFAULT_LOCAL_HTTP_ORIGIN
  else
    let http :=
      match strip_prefix "wss://" raw with
      | Some rest => ("https://" ++ rest)%string
      | None => match strip_prefix "ws://" raw with Some rest => ("http://" ++ rest)%string | None => raw end
      end in
    match split_once_at "://" http with
    | None => http
    | Some (scheme, after) =>
      let hostport := default after (hd_error (split_on "/" after)) in
      let hostport := match strip_suffix ":8001" hostport with Some h => (h ++ ":8080")%string | None => hostport end in
      (scheme ++ "://" ++ hostport)%string
    end.

(** The unit tests of config.rs. *)
Example origin_prod : http_origin_from_ws DEFAULT_PROD_URL = DEFAULT_PROD_HTTP_ORIGIN.
Proof. vm_compute. reflexivity. Qed.
Example origin_local : http_origin_from_ws "ws://127.0.0.1:8001/chat" = DEFAULT_LOCAL_HTTP_ORIGIN.
Proof. vm_compute. reflexivity. Qed.
Example origin_other : http_origin_from_ws "wss://gw.example:8001/" = "https://gw.example:8080"%string.
Proof. vm_compute. reflexivity. Qed.

(** ** client.rs: the connection *)

Inductive Io : Type := IoOff | IoHandshake | IoConn | IoLive.

(** The state of a [KimClient] next to its configuration.  The connections
    themselves are behind the calls. *)
Record KimClient := mkKimClient {
  kc_io : Io;
  kc_session : MemorySession;
  kc_buffered : list Frame
}.
Definition KimClient_new : KimClient := mkKimClient IoOff MemorySession_default [].

(** [std::mem::replace(&mut *io, Io::Off)]. *)
Definition take_io (c : KimClient) : KimClient * Io := (mkKimClient IoOff (kc_session c) (kc_buffered c), kc_io c).
Definition put_io (io : Io) (c : KimClient) : KimClient := mkKimClient io (kc_session c) (kc_buffered c).
Definition store_session (s : MemorySession) (c : KimClient) : KimClient := mkKimClient (kc_io c) s (kc_buffered c).
Definition clear_buffered (c : KimClient) : KimClient := mkKimClient (kc_io c) (kc_session c) [].
Definition store_token (token : string) (c : KimClient) : KimClient :=
  store_session (with_token token (kc_session c)) c.
Definition login_token (config_token : string) (c : KimClient) : string :=
  if str_is_empty (ms_token (kc_session c)) then config_token else ms_token (kc_session c).
Definition is_live (c : KimClient) : bool := match kc_io c with IoLive => true | _ => false end.
