(* ===== verification/Link.v ===== *)
(** The link of the client: crates/kim-client/src link/machine.rs, link/backoff.rs,
    link/mod.rs and supervisor.rs.

    [run_loop] connects, signs in, serves and starts again after a pause, until it is
    stopped or a failure is final.  It is a program over the calls [LinkEff]: short
    accesses to the state that the supervisor, the client and their other tasks
    share ([Inner]), whose answers [access] computes, and calls that await the
    connection, the clock or another task.  While a session is served the dispatch
    loop and the catch-up of [Sync] race in one task. *)

From S2P Require Import Prelude Prog Judge Wire Pkt Msgs TcpCodec ClientWire Pump Sync ClientLogin.
Open Scope Z_scope.
Open Scope kim_scope.

(** ** link/mod.rs, link/backoff.rs *)

Inductive ProbeSource : Type := Radio | Foreground.
Definition ProbeSource_as_u8 (s : ProbeSource) : Z := match s with Radio => 1 | Foreground => 2 end.
Definition ProbeSource_from_u8 (v : Z) : option ProbeSource :=
  if v =? 1 then Some Radio else if v =? 2 then Some Foreground else None.

(** Durations in milliseconds. *)
Definition next_backoff (current : Z) : Z := Z.min (current * 2) 60000.

(** ** supervisor.rs: the shared state *)

Record Inner := mkInner {
  in_client : KimClient;
  in_state : LinkState;
  in_probe_source : Z;
  in_stopped : bool;
  in_attempt : Z;
  in_last_drop : option DropReason
}.
Definition Inner_new : Inner := mkInner KimClient_new Connecting 0 false 0 None.

Definition with_client (f : KimClient -> KimClient) (s : Inner) : Inner :=
  mkInner (f (in_client s)) (in_state s) (in_probe_source s) (in_stopped s) (in_attempt s) (in_last_drop s).
Definition with_state (l : LinkState) (s : Inner) : Inner :=
  mkInner (in_client s) l (in_probe_source s) (in_stopped s) (in_attempt s) (in_last_drop s).
Definition with_probe (v : Z) (s : Inner) : Inner :=
  mkInner (in_client s) (in_state s) v (in_stopped s) (in_attempt s) (in_last_drop s).
Definition with_stopped (b : bool) (s : Inner) : Inner :=
  mkInner (in_client s) (in_state s) (in_probe_source s) b (in_attempt s) (in_last_drop s).
Definition with_attempt (n : Z) (s : Inner) : Inner :=
  mkInner (in_client s) (in_state s) (in_probe_source s) (in_stopped s) n (in_last_drop s).
Definition with_last_drop (r : DropReason) (s : Inner) : Inner :=
  mkInner (in_client s) (in_state s) (in_probe_source s) (in_stopped s) (in_attempt s) (Some r).

(** ** Calls *)

(** How the [select!] of [run_session] on the connect ends. *)
Inductive ConnectEnd : Type := ConnectDone (r : result unit ClientError) | ConnectStop.
(** How a round of the dispatch loop starts. *)
Inductive DispatchEnd : Type :=
| DRecv (r : result ClientEvent ClientError) | DDead (reason : DropReason) | DStop | DHint.
(** How the pause before the next attempt ends. *)
Inductive PauseEnd : Type := Slept | Hinted | PauseStop.

Inductive LinkEff : Type -> Type :=
| LStopped : LinkEff bool
| LStoreState (l : LinkState) : LinkEff unit
| LSend (ev : SessionEvent) : LinkEff unit
| LRecord (r : DropReason) : LinkEff unit
| LLastDrop : LinkEff (option DropReason)
| LFetchAttempt : LinkEff Z
| LResetAttempt : LinkEff unit
| LProbeSource : LinkEff Z
| LTakeIo : LinkEff Io
| LPutIo (io : Io) : LinkEff unit
| LShutdownIo (io : Io) : LinkEff unit
| LClearSession : LinkEff unit
| LStoreSession (s : MemorySession) : LinkEff unit
| LStoreToken (token : string) : LinkEff unit
| LLoginToken : LinkEff string
| LIsLive : LinkEff bool
| LIsOff : LinkEff bool
| LNow : LinkEff Z
| LOpen : LinkEff ConnectEnd
| LConn {X : Type} (e : ConnEff X) : LinkEff X
| LDeath : LinkEff (option DropReason)
| LSelect : LinkEff DispatchEnd
| LRequestProbe : LinkEff unit
| LHasPersist : LinkEff bool
| LHasQueue : LinkEff bool
| LTrySend (t : IncomingTalk) : LinkEff bool
| LObserve (id : Z) : LinkEff bool
| LPause (delay : Z) : LinkEff PauseEnd
| LSync {X : Type} (e : SyncEff X) : LinkEff X
| LTurn : LinkEff bool.

Abbreviation LinkProg := (Prog LinkEff).


(** ** client.rs: connect, login, disconnect *)

Definition disconnect : LinkProg unit :=
  io ← call LTakeIo;
  _ ← (match io with IoOff => Ret tt | io => call (LShutdownIo io) end : LinkProg unit);
  call LClearSession.

(** The stop notification may come at the await of the handshake. *)
Definition connect : LinkProg ConnectEnd :=
  off ← call LIsOff;
  if negb off then Ret (ConnectDone (Err AlreadyConnected))
  else
    r ← call LOpen;
    match r with
    | ConnectDone (Ok tt) => _ ← call (LPutIo IoHandshake); Ret r
    | _ => Ret r
    end.

Section link.
Context `{Prost} `{JwtParts} `{ErrorTexts} (config : ClientConfig).
(** Fuel of the waits for frames, of the pages of a catch-up and of the rounds of
    the dispatch loop. *)
Context (fuel : nat).

Definition sign_in (taken : Io) : LinkProg (option (result MemorySession ClientError)) :=
  token ← call LLoginToken;
  r ← hoist (@LConn) (login_with_device token (cc_handshake_timeout config) (cc_device config) fuel);
  match r with
  | None => Ret None
  | Some (Ok session) =>
    match taken with
    | IoConn => _ ← call (LPutIo IoConn); _ ← call (LStoreSession session); Ret (Some (Ok session))
    | _ => _ ← call (LStoreSession session); _ ← call (LPutIo IoLive); Ret (Some (Ok session))
    end
  | Some (Err err) => _ ← call (LPutIo taken); Ret (Some (Err err))
  end.

Definition login : LinkProg (option (result MemorySession ClientError)) :=
  taken ← call LTakeIo;
  match taken with
  | IoHandshake | IoConn => sign_in taken
  | other => _ ← call (LPutIo other); Ret (Some (Err NotConnected))
  end.

(** ** machine.rs *)

Inductive SessionEnd : Type :=
| EndStop
| EndDrop (err : ClientError) (reason : DropReason)
| EndAuthFailed (err : ClientError)
| EndKicked (channel_id : string).

Definition set_state (l : LinkState) : LinkProg unit :=
  _ ← call (LStoreState l); call (LSend (SeLink l)).

Definition handshake_reason (e : ClientError) : DropReason :=
  match e with HandshakeTimeout _ => DropHandshakeTimeout | _ => DropConnectFail end.

Definition dispatch_event (event : ClientEvent) : LinkProg unit :=
  match event with
  | EvTalk t =>
    queue ← call LHasQueue;
    if (queue : bool) then
      sent ← call (LTrySend t);
      if (sent : bool) then call (LSend (SeTalk t)) else Ret tt
    else
      emit ← call (LObserve (it_message_id t));
      if (emit : bool) then call (LSend (SeTalk t)) else Ret tt
  | EvKickout channel_id => call (LSend (SeKickout channel_id))
  | EvTokenRenew token exp => _ ← call (LStoreToken token); call (LSend (SeTokenRenew token exp))
  | EvFriendRequest from nickname => call (LSend (SeFriendRequest from nickname))
  | EvFriendAccepted from nickname => call (LSend (SeFriendAccepted from nickname))
  | EvProfileUpdated profile => call (LSend (SeProfileUpdated profile))
  | EvPresenceUpdated account status last_seen => call (LSend (SePresenceUpdated account status last_seen))
  | EvTypingUpdated typer dest kind active phase => call (LSend (SeTypingUpdated typer dest kind active phase))
  | EvReceiptRead reader dest kind message_id => call (LSend (SeReceiptRead reader dest kind message_id))
  | EvConversationReadSync account state => call (LSend (SeConversationReadSync account state))
  | EvGroupCreate group_id members => call (LSend (SeGroupCreate group_id members))
  | _ => Ret tt
  end.

(** The session ends: the connection goes first. *)
Definition ends (e : SessionEnd) : LinkProg (option SessionEnd) := _ ← disconnect; Ret (Some e).

(** One round of the dispatch loop; [None] goes on. *)
Definition dispatch_round : LinkProg (option SessionEnd) :=
  next ← call LSelect;
  match next with
  | DRecv (Ok EvClosed) | DRecv (Err _) =>
    death ← call LDeath;
    let reason := default DropClosed death in
    _ ← disconnect;
    _ ← call (LRecord reason);
    Ret (Some (EndDrop (Core Closed) reason))
  | DRecv (Ok (EvKickout channel_id)) =>
    _ ← call (LSend (SeKickout channel_id));
    ends (EndKicked channel_id)
  | DRecv (Ok ev) => _ ← dispatch_event ev; Ret None
  | DDead reason =>
    match reason with
    | DropKickout => _ ← call (LSend (SeKickout "")); ends (EndKicked "")
    | _ =>
      stop ← (match reason with DropStop => Ret true | _ => call LStopped end : LinkProg bool);
      if (stop : bool) then ends EndStop
      else if is_fatal reason then ends (EndAuthFailed (Other (reason_str reason)))
      else _ ← call (LRecord reason); ends (EndDrop (Other (reason_str reason)) reason)
    end
  | DStop => ends EndStop
  | DHint => _ ← call LProbeSource; _ ← call LRequestProbe; Ret None
  end.

Fixpoint dispatch_loop (n : nat) : LinkProg (option SessionEnd) :=
  match n with
  | O => Ret None
  | S n =>
    r ← dispatch_round;
    match r with Some e => Ret (Some e) | None => dispatch_loop n end
  end.

Definition mentions_confirm_timeout (e : ClientError) : bool := str_contains "confirm-timeout" (ClientError_text e).

(** The catch-up failed. *)
Definition sync_failed (err : ClientError) : LinkProg (option SessionEnd) :=
  stopped ← call LStopped;
  if (stopped : bool) then ends EndStop
  else
    death ← call LDeath;
    match death with
    | Some DropKickout => Ret (Some (EndKicked ""))
    | Some reason =>
      if is_fatal reason then
        Ret (Some (match reason with
                   | DropStop => EndStop
                   | DropAuthFailed => EndAuthFailed err
                   | _ => EndKicked ""
                   end))
      else _ ← call (LRecord reason); ends (EndDrop err reason)
    | None =>
      if mentions_confirm_timeout err then
        _ ← call (LRecord DropConfirmTimeout); ends (EndDrop err DropConfirmTimeout)
      else
        _ ← call (LSend (SeSyncFailed (ClientError_text err)));
        _ ← call (LRecord DropSyncFailed); ends (EndDrop err DropSyncFailed)
    end.

Definition serve (account : string) : LinkProg (option SessionEnd) :=
  persist ← call LHasPersist;
  first ← race LTurn (dispatch_loop fuel) (hoist (@LSync) (sync_run account persist fuel SeenSet_new));
  match first with
  | inl e => Ret e
  | inr (Some (Ok _)) => dispatch_loop fuel
  | inr (Some (Err err)) => sync_failed err
  | inr None => Ret None
  end.

(** The session of one attempt; the flag says that it came online, which sets the
    pause back to one second. *)
Definition run_session : LinkProg (bool * option SessionEnd) :=
  let out e : LinkProg (bool * option SessionEnd) := Ret (false, Some e) in
  _ ← disconnect;
  stopped ← call LStopped;
  if (stopped : bool) then out EndStop
  else
    token ← call LLoginToken;
    now ← call LNow;
    match token_unusable now token with
    | Some err => out (EndAuthFailed err)
    | None =>
      c ← connect;
      match c with
      | ConnectStop => out EndStop
      | ConnectDone (Err err) =>
        _ ← call (LRecord (handshake_reason err)); out (EndDrop err (handshake_reason err))
      | ConnectDone (Ok _) =>
        stopped ← call LStopped;
        if (stopped : bool) then _ ← disconnect; out EndStop
        else
          l ← login;
          match l with
          | None => Ret (false, None)
          | Some (Err err) =>
            _ ← disconnect;
            if is_fatal_auth err then out (EndAuthFailed err)
            else _ ← call (LRecord (handshake_reason err)); out (EndDrop err (handshake_reason err))
          | Some (Ok session) =>
            _ ← call LResetAttempt;
            _ ← set_state Online;
            live ← call LIsLive;
            if (live : bool) then e ← serve (ms_account session); Ret (true, e)
            else _ ← call (LRecord DropClosed); Ret (true, Some (EndDrop (Core Closed) DropClosed))
          end
      end
    end.

(** What follows the end of a session: out of the loop, or another round after a
    pause of this length. *)
Definition after_session (e : SessionEnd) (delay : Z) : LinkProg (option Z) :=
  let over : LinkProg (option Z) := _ ← set_state Offline; Ret None in
  match e with
  | EndStop => _ ← call (LRecord DropStop); over
  | EndAuthFailed err =>
    _ ← call (LSend (SeAuthFailed (ClientError_text err)));
    _ ← call (LRecord DropAuthFailed); over
  | EndKicked channel_id =>
    _ ← call (LSend (SeKickout channel_id));
    _ ← call (LRecord DropKickout); over
  | EndDrop _ reason =>
    _ ← call (LRecord reason);
    stopped ← call LStopped;
    if (stopped : bool) then over
    else
      attempt ← call LFetchAttempt;
      last ← call LLastDrop;
      let last := default DropClosed last in
      let delay := match last with DropProbeFail => 1000 | _ => delay end in
      _ ← call (LRecord last);
      _ ← set_state (Reconnecting attempt);
      p ← call (LPause delay);
      match p with
      | Slept => Ret (Some (next_backoff delay))
      | Hinted => Ret (Some 1000)
      | PauseStop => over
      end
  end.

(** The loop; [false] when the fuel ran out. *)
Fixpoint run_from (rounds : nat) (delay : Z) : LinkProg bool :=
  match rounds with
  | O => Ret false
  | S rounds =>
    stopped ← call LStopped;
    if (stopped : bool) then _ ← set_state Offline; Ret true
    else
      _ ← set_state Connecting;
      r ← run_session;
      match r with
      | (_, None) => Ret false
      | (online, Some e) =>
        more ← after_session e (if online : bool then 1000 else delay);
        match more with
        | None => Ret true
        | Some delay => run_from rounds delay
        end
      end
  end.
Definition run_loop (rounds : nat) : LinkProg bool := run_from rounds 1000.

(** ** The shared state *)

(** What an access to the shared state answers; [None] for the calls that await
    something outside. *)
Definition access {X} (e : LinkEff X) (s : Inner) : option (Inner * X) :=
  match e in LinkEff X return option (Inner * X) with
  | LStopped => Some (s, in_stopped s)
  | LStoreState l => Some (with_state l s, tt)
  | LRecord r => Some (with_last_drop r s, tt)
  | LLastDrop => Some (s, in_last_drop s)
  | LFetchAttempt => let n := wrap32 (in_attempt s + 1) in Some (with_attempt n s, n)
  | LResetAttempt => Some (with_attempt 0 s, tt)
  | LProbeSource => Some (s, in_probe_source s)
  | LTakeIo => let '(c, io) := take_io (in_client s) in Some (with_client (fun _ => c) s, io)
  | LPutIo io => Some (with_client (put_io io) s, tt)
  | LClearSession => Some (with_client (fun c => clear_buffered (store_session MemorySession_default c)) s, tt)
  | LStoreSession m => Some (with_client (store_session m) s, tt)
  | LStoreToken token => Some (with_client (store_token token) s, tt)
  | LLoginToken => Some (s, login_token (cc_token config) (in_client s))
  | LIsLive => Some (s, is_live (in_client s))
  | LIsOff => Some (s, match kc_io (in_client s) with IoOff => true | _ => false end)
  | _ => None
  end.
End link.

(** ** supervisor.rs: the other tasks *)

(** What others do to the shared state between two calls of the loop: [stop], the
    probes of [notify_radio_up] and [notify_foreground], a token renewed by the
    reader of a live connection, a disconnect by the application or after a
    [stop]. *)
Inductive other_step : Inner -> Inner -> Prop :=
| other_stop s : other_step s (with_stopped true s)
| other_stop_shown s : in_stopped s = true -> other_step s (with_state Offline s)
| other_notify s src : other_step s (with_attempt 0 (with_probe (ProbeSource_as_u8 src) s))
| other_renewed s token : kc_io (in_client s) = IoLive -> other_step s (with_client (store_token token) s)
| other_take s : other_step s (with_client (fun c => (take_io c).1) s)
| other_clear s : other_step s (with_client (fun c => clear_buffered (store_session MemorySession_default c)) s).

(** A call of the loop in the shared state, after others had their turns. *)
Definition link_next (config : ClientConfig) (s : Inner) (ev : EventOf LinkEff) (s' : Inner) : Prop :=
  exists s1, rtc other_step s s1 /\
  match ev with
  | Ev e x => match access config e s1 with Some (s2, y) => s' = s2 /\ x = y | None => s' = s1 end
  end.

(** ** supervisor.rs: [with_persist] *)

(** The worker that stores live talks. *)
Inductive PersistEff : Type -> Type :=
| PRecvTalk : PersistEff (option IncomingTalk)
| PPersist (talks : list IncomingTalk) (policy : UnreadPolicy) : PersistEff (result unit PersistError)
| PAck (id : Z) : PersistEff (result unit ClientError).

Fixpoint persist_worker (rounds : nat) : Prog PersistEff bool :=
  match rounds with
  | O => Ret false
  | S rounds =>
    t ← call PRecvTalk;
    match t with
    | None => Ret true
    | Some talk =>
      r ← call (PPersist [talk] IfInserted);
      _ ← (match r with
           | Ok _ => if negb (it_message_id talk =? 0) then _ ← call (PAck (it_message_id talk)); Ret tt else Ret tt
           | Err _ => Ret tt
           end : Prog PersistEff unit);
      persist_worker rounds
    end
  end.

(** ** supervisor.rs: starting and stopping *)

(** The supervisor's handle on its task. *)
Record Supervisor := mkSupervisor { su_inner : Inner; su_tcall : bool; su_aborted : bool }.

(** [spawned] says that a loop was spawned. *)
Definition ensure_running (s : Supervisor) : Supervisor * bool :=
  if in_stopped (su_inner s) then (s, false)
  else if su_tcall s then (s, false)
  else (mkSupervisor (su_inner s) true (su_aborted s), true).

Definition stop (s : Supervisor) : Supervisor :=
  if in_stopped (su_inner s) then s
  else mkSupervisor (with_state Offline (with_stopped true (su_inner s))) false (su_aborted s || su_tcall s).

Definition notify (src : ProbeSource) (s : Supervisor) : Supervisor * bool :=
  let '(s, spawned) := ensure_running s in
  (mkSupervisor (with_probe (ProbeSource_as_u8 src) (with_attempt 0 (su_inner s))) (su_tcall s) (su_aborted s), spawned).
