(* ===== verification/LinkSpec.v ===== *)
(** What the link of the client does: the order of what it shows and awaits, the token
    it signs in with, the pauses between its attempts, and the worker that stores
    live talks. *)

From S2P Require Import Prelude Prog Judge Wire Pkt Msgs TcpCodec ClientWire Pump Sync ClientLogin Link.
Open Scope Z_scope.
Open Scope kim_scope.

(** ** What a served session calls *)

(** The calls that are only made between two sessions. *)
Definition serving (X : Type) (e : LinkEff X) : Prop :=
  match e with
  | LSend (SeLink _) | LSend (SeAuthFailed _) | LLastDrop | LPutIo _ | LStoreSession _ | LLoginToken | LNow | LOpen | LConn _ | LPause _ => False
  | _ => True
  end.

Ltac only_step :=
  match goal with
  | |- only _ (Ret _) => exact I
  | |- only _ (call _) => split; [exact I|intros ?; exact I]
  | |- only _ (call _ ≫= _) => apply only_call; [exact I|intros ?]
  | |- only _ (_ ≫= _) => apply only_bind; [|intros ?]
  | |- only _ (match ?x with _ => _ end) => destruct x
  end.

Section link.
Context `{HP : Prost} `{HJ : JwtParts} `{HE : ErrorTexts} (config : ClientConfig) (fuel : nat).

Lemma serving_disconnect : only serving disconnect.
Proof. unfold disconnect. repeat only_step. Qed.
Lemma serving_ends e : only serving (ends e).
Proof. unfold ends. apply only_bind; [apply serving_disconnect|]. intros ?. exact I. Qed.
Lemma serving_dispatch_event ev : only serving (dispatch_event ev).
Proof. unfold dispatch_event. repeat only_step. Qed.

Ltac serve_step := first [apply serving_disconnect | apply serving_ends | apply serving_dispatch_event | only_step].

Lemma serving_dispatch_round : only serving dispatch_round.
Proof. unfold dispatch_round. repeat serve_step. Qed.
Lemma serving_dispatch_loop n : only serving (dispatch_loop n).
Proof.
  induction n as [|n IH]; cbn [dispatch_loop]; [done|]. apply only_bind; [apply serving_dispatch_round|].
  intros [e|]; [done|exact IH].
Qed.
Lemma serving_sync_failed err : only serving (sync_failed err).
Proof. unfold sync_failed. repeat serve_step. Qed.
Lemma serving_serve account : only serving (serve fuel account).
Proof.
  unfold serve. apply only_call; [done|]. intros persist. apply only_bind.
  - apply only_race; [done|apply serving_dispatch_loop|by apply only_hoist].
  - intros [e|[[|err]|]]; [done|apply serving_dispatch_loop|apply serving_sync_failed|done].
Qed.

(** ** The order of what the link shows and awaits *)

Inductive Phase : Type :=
| PIdle | PTrying | PToken (token : string) | PRefused | PAllowed | PFailed | POpen | PSigned | PUp
| PWait | PEnding | PDone.

(** The reply of the service that accepts the sign-in. *)
Definition accepts_sign_in (f : Frame) : bool :=
  match f_opcode f with
  | Binary | Text =>
    match read (f_payload f) with
    | Ok p => match login_reply p with Some (Ok _) => true | _ => false end
    | Err _ => false
    end
  | _ => false
  end.

Definition conn_step {X} (e : ConnEff X) : X -> Phase :=
  match e in ConnEff X return X -> Phase with
  | CRead => fun r => match r with Some (Ok f) => if accepts_sign_in f then PSigned else POpen | _ => POpen end
  | _ => fun _ => POpen
  end.

(** The specification of the link: which calls may be made when.  [None] refuses. *)
Definition phase_step (ph : Phase) (ev : EventOf LinkEff) : option Phase :=
  match ev, ph with
  | _, PDone => None
  | Ev (LSend (SeLink Connecting)) _, PIdle => Some PTrying
  | Ev (LSend (SeLink Online)) _, PSigned => Some PUp
  | Ev (LSend (SeLink (Reconnecting _))) _, (PAllowed | PFailed | POpen | PUp) => Some PWait
  | Ev (LSend (SeLink Offline)) _, PWait => None
  | Ev (LSend (SeLink Offline)) _, _ => Some PDone
  | Ev (LSend (SeLink _)) _, _ => None
  | Ev (LSend (SeAuthFailed _)) _, (PRefused | POpen | PUp) => Some PEnding
  | Ev (LSend (SeAuthFailed _)) _, _ => None
  | Ev (LSend _) _, PUp => Some PUp
  | Ev (LSend _) _, _ => None
  | Ev (LSync _) _, PUp => Some PUp
  | Ev (LSync _) _, _ => None
  | Ev LLoginToken token, PTrying => Some (PToken token)
  | Ev LLoginToken _, POpen => Some POpen
  | Ev LLoginToken _, _ => None
  | Ev LNow now, PToken token => Some (match token_unusable now token with Some _ => PRefused | None => PAllowed end)
  | Ev LNow _, _ => None
  | Ev LOpen r, PAllowed => Some (match r with ConnectDone (Ok _) => POpen | _ => PFailed end)
  | Ev LOpen _, _ => None
  | Ev (LConn e) x, POpen => Some (conn_step e x)
  | Ev (LConn _) _, _ => None
  | Ev (LPause _) p, PWait => Some (match p with PauseStop => PEnding | _ => PIdle end)
  | Ev (LPause _) _, _ => None
  | _, _ => Some ph
  end.

Definition phase_next (ph : option Phase) (ev : EventOf LinkEff) (ph' : option Phase) : Prop :=
  ph' = (p ← ph; phase_step p ev).
Definition phase_good (_ : option Phase) (_ : EventOf LinkEff) (ph' : option Phase) : Prop := is_Some ph'.
Definition phases (tr : list (EventOf LinkEff)) : option Phase :=
  foldl (fun ph ev => p ← ph; phase_step p ev) (Some PIdle) tr.

Ltac phase_call := intros ? ? ->; split; [by eexists|]; cbn [mbind option_bind phase_step].
Ltac phase_round :=
  match goal with
  | |- judge _ _ (Ret _) _ _ => cbn [judge]
  | |- judge _ _ (call _) _ _ => phase_call; cbn [judge]
  | |- judge _ _ (call _ ≫= _) _ _ => apply judge_call; phase_call
  | |- judge _ _ (Vis _ _ ≫= _) _ _ => apply judge_bind
  | |- judge _ _ ((_ ≫= _) ≫= _) _ _ => apply judge_bind
  | |- judge _ _ (match ?x with _ => _ end) _ _ => destruct x eqn:?
  end.

(** Calls that keep every phase. *)
Definition silent (X : Type) (e : LinkEff X) : Prop :=
  match e with
  | LSend _ | LLoginToken | LNow | LOpen | LConn _ | LPause _ | LSync _ => False
  | _ => True
  end.

Lemma silent_step p X (e : LinkEff X) x : silent X e -> p <> PDone -> phase_step p (Ev e x) = Some p.
Proof. by destruct e, p. Qed.

Lemma phases_silent {A} (p : LinkProg A) ph : ph <> PDone -> only silent p ->
  judge phase_next phase_good p (fun _ s => s = Some ph) (Some ph).
Proof.
  intros Hp Ho. apply (only_judge silent); [|done|done].
  intros s X e x s' He -> ->. cbn [mbind option_bind]. rewrite (silent_step _ _ _ _ He Hp). by split; [eexists|].
Qed.

Lemma silent_disconnect : only silent disconnect.
Proof. unfold disconnect. repeat only_step. Qed.

Lemma phases_serve account :
  judge phase_next phase_good (serve fuel account) (fun _ s => s = Some PUp) (Some PUp).
Proof.
  apply (only_judge serving); [|apply serving_serve|done].
  intros s X e x s' He -> ->. destruct e; try done; try destruct ev; try done; by split; [eexists|].
Qed.

(** The frames of the sign-in. *)
Lemma phases_wait_login timeout n :
  judge phase_next phase_good (hoist (@LConn) (wait_login_resp timeout n))
    (fun r s => s = Some (match r with Some (Ok _) => PSigned | _ => POpen end)) (Some POpen).
Proof.
  induction n as [|n IH]; [done|]. cbn [wait_login_resp]. apply judge_hoist_call. intros r s' ->. split; [by eexists|].
  destruct r as [[f|[]]|]; try done. cbn [mbind option_bind phase_step conn_step]. unfold accepts_sign_in.
  destruct (f_opcode f); try done.
  - destruct (read (f_payload f)) as [q|e]; [|done]. by destruct (login_reply q) as [[c|e]|].
  - destruct (read (f_payload f)) as [q|e]; [|done]. by destruct (login_reply q) as [[c|e]|].
  - apply judge_hoist_call. intros sent s' ->. split; [by eexists|]. by destruct sent.
Qed.

Lemma phases_login_with_device token timeout device n :
  judge phase_next phase_good (hoist (@LConn) (login_with_device token timeout device n))
    (fun r s => s = Some (match r with Some (Ok _) => PSigned | _ => POpen end)) (Some POpen).
Proof.
  unfold login_with_device. destruct (account_from_token token) as [account|e]; [|done].
  apply judge_hoist_call. intros [u|e] s' ->; (split; [by eexists|]); [|done].
  apply judge_hoist_call. intros [u'|e] s' ->; (split; [by eexists|]); [|done].
  apply judge_hoist_bind. eapply judge_mono; [|apply phases_wait_login]. by intros [[c|e]|] s ->.
Qed.

Lemma phases_login :
  judge phase_next phase_good (login config fuel)
    (fun r s => s = Some (match r with Some (Ok _) => PSigned | _ => POpen end)) (Some POpen).
Proof.
  unfold login. apply judge_call. phase_call. destruct x; unfold sign_in.
  all: try (apply judge_call; phase_call; apply judge_bind; eapply judge_mono; [|apply phases_login_with_device];
    intros [[m|e]|] s ->).
  all: repeat phase_round; done.
Qed.

Lemma phases_connect :
  judge phase_next phase_good connect
    (fun r s => match r with
                | ConnectDone (Ok _) => s = Some POpen
                | _ => s = Some PFailed \/ s = Some PAllowed
                end) (Some PAllowed).
Proof.
  unfold connect. apply judge_call. phase_call. destruct x; cbn [negb]; [|by right].
  apply judge_call. phase_call. destruct x as [[[]|e]|]; cbn [judge]; [|by left..].
  by repeat phase_round.
Qed.

Lemma phases_set_state l p p' : p <> PDone -> phase_step p (Ev (LSend (SeLink l)) tt) = Some p' ->
  judge phase_next phase_good (set_state l) (fun _ s => s = Some p') (Some p).
Proof.
  intros Hp Hs. unfold set_state. apply judge_call. intros x s' ->. cbn [mbind option_bind].
  rewrite (silent_step p) by done. split; [by eexists|]. intros [] s' ->. cbn [mbind option_bind judge].
  rewrite Hs. by split; [eexists|].
Qed.

(** Where a session may end. *)
Definition ended (e : SessionEnd) (p : Phase) : Prop :=
  match e with
  | EndStop => p <> PDone /\ p <> PWait
  | EndDrop _ _ => p = PAllowed \/ p = PFailed \/ p = POpen \/ p = PUp
  | EndAuthFailed _ => p = PRefused \/ p = POpen \/ p = PUp
  | EndKicked _ => p = PUp
  end.

Lemma ended_up e : ended e PUp.
Proof. destruct e; cbn; auto. Qed.

(** What follows [disconnect] happens in the same phase. *)
Lemma phases_after {A} (q : LinkProg A) (k : LinkProg unit) Q p : p <> PDone -> only silent k ->
  judge phase_next phase_good q Q (Some p) -> judge phase_next phase_good (_ ← k; q) Q (Some p).
Proof. intros Hp Hk Hq. eapply judge_bind_use; [by apply phases_silent|]. by intros ? s ->. Qed.

Definition session_post (r : bool * option SessionEnd) (s : option Phase) : Prop :=
  exists p, s = Some p /\ match r.2 with Some e => ended e p | None => True end.

Lemma phases_login_failed err :
  judge phase_next phase_good
    (_ ← disconnect;
     if is_fatal_auth err then Ret (false, Some (EndAuthFailed err))
     else _ ← call (LRecord (handshake_reason err)); Ret (false, Some (EndDrop err (handshake_reason err))))
    session_post (Some POpen).
Proof.
  apply phases_after; [done|apply silent_disconnect|]. destruct (is_fatal_auth err).
  - eexists. split; [done|]. cbn. auto.
  - apply judge_call. phase_call. eexists. split; [done|]. cbn. auto.
Qed.

Lemma phases_run_session : judge phase_next phase_good (run_session config fuel) session_post (Some PTrying).
Proof.
  unfold run_session. cbv zeta. apply phases_after; [done|apply silent_disconnect|].
  apply judge_call. phase_call. destruct x; [by eexists|].
  apply judge_call. phase_call. rename x into token. apply judge_call. phase_call.
  destruct (token_unusable x token) as [err|]; [eexists; split; [done|]; cbn; auto|].
  eapply judge_bind_use; [apply phases_connect|]. intros [[[]|err]|] s Hs.
  - subst s. apply judge_call. phase_call. destruct x0.
    { apply phases_after; [done|apply silent_disconnect|]. by eexists. }
    eapply judge_bind_use; [apply phases_login|]. intros [[session|err]|] s ->; [|apply phases_login_failed|by eexists].
    apply judge_call. phase_call. eapply judge_bind_use; [by apply phases_set_state|]. intros ? s ->.
    apply judge_call. phase_call. destruct x1.
    + apply judge_bind. eapply judge_mono; [|apply phases_serve]. intros e s ->. eexists. split; [done|].
      destruct e; [apply ended_up|done].
    + apply phases_after; [done|by repeat only_step|]. eexists. split; [done|]. cbn. auto.
  - apply judge_call. destruct Hs as [-> | ->]; phase_call; eexists; (split; [done|]); cbn; auto.
  - destruct Hs as [-> | ->]; by eexists.
Qed.

Definition round_post (r : option Z) (s : option Phase) : Prop :=
  s = Some (match r with None => PDone | Some _ => PIdle end).

Lemma phases_over p : p <> PDone -> p <> PWait ->
  judge phase_next phase_good (_ ← set_state Offline; Ret (@None Z)) round_post (Some p).
Proof. intros Hd Hw. eapply judge_bind_use; [apply (phases_set_state Offline p PDone)|]; [done|by destruct p|by intros ? s ->]. Qed.

Lemma phases_after_session e delay p : ended e p ->
  judge phase_next phase_good (after_session e delay) round_post (Some p).
Proof.
  unfold after_session. cbv zeta. destruct e as [|err reason|err|channel]; cbn [ended].
  - intros [Hd Hw]. apply phases_after; [done|by repeat only_step|]. by apply phases_over.
  - intros Hp. assert (Hd : p <> PDone /\ p <> PWait) by by destruct Hp as [-> | [-> | [-> | ->]]].
    destruct Hd as [Hd Hw]. apply phases_after; [done|by repeat only_step|].
    eapply judge_bind_use; [by apply phases_silent; [|repeat only_step]|]. intros [] s ->; [by apply phases_over|].
    eapply judge_bind_use; [by apply phases_silent; [|repeat only_step]|]. intros attempt s ->.
    eapply judge_bind_use; [by apply phases_silent; [|repeat only_step]|]. intros last s ->.
    apply phases_after; [done|by repeat only_step|].
    eapply judge_bind_use; [apply (phases_set_state _ p PWait); [done|by destruct Hp as [-> | [-> | [-> | ->]]]]|].
    intros ? s ->. apply judge_call. phase_call. destruct x; [done|done|]. by apply phases_over.
  - intros Hp. apply judge_call. intros [] s' ->.
    assert (E : phase_step p (Ev (LSend (SeAuthFailed (ClientError_text err))) tt) = Some PEnding)
      by by destruct Hp as [-> | [-> | ->]].
    cbn [mbind option_bind]. rewrite E. split; [by eexists|].
    apply phases_after; [done|by repeat only_step|]. by apply phases_over.
  - intros ->. apply judge_call. phase_call. apply phases_after; [done|by repeat only_step|]. by apply phases_over.
Qed.

Lemma phases_run_from rounds delay :
  judge phase_next phase_good (run_from config fuel rounds delay)
    (fun r s => r = true -> s = Some PDone) (Some PIdle).
Proof.
  revert delay. induction rounds as [|rounds IH]; intros delay; [done|]. cbn [run_from].
  apply judge_call. phase_call. destruct x.
  { eapply judge_bind_use; [by apply phases_set_state|]. by intros ? s ->. }
  eapply judge_bind_use; [by apply phases_set_state|]. intros ? s ->.
  eapply judge_bind_use; [apply phases_run_session|]. intros [online [e|]] s (p & -> & Hp); [|done].
  eapply judge_bind_use; [by apply phases_after_session|]. intros [d|] s Hr; unfold round_post in Hr; subst s; [apply IH|done].
Qed.

Lemma steps_phases s tr s' : steps phase_next s tr s' -> s' = foldl (fun ph ev => p ← ph; phase_step p ev) s tr.
Proof. induction 1 as [s|s ev s1 tr s2 -> Hs IH]; [done|exact IH]. Qed.
Lemma phases_steps s tr : steps phase_next s tr (foldl (fun ph ev => p ← ph; phase_step p ev) s tr).
Proof. revert s. induction tr as [|ev tr IH]; intros s; [constructor|]. econstructor; [done|apply IH]. Qed.
Lemma good_phases s tr s' : is_Some s -> steps (well phase_next phase_good) s tr s' -> is_Some s'.
Proof. intros Hs. induction 1 as [|? ? ? ? ? [_ Hg] _ IH]; auto. Qed.

(** ** The token the link signs in with *)

(** No renewed token is stored, and nobody may store one. *)
Definition clean (s : Inner) : Prop :=
  kc_io (in_client s) <> IoLive /\ ms_token (kc_session (in_client s)) = ""%string.

Definition from_config (_ : Inner) (ev : EventOf LinkEff) (_ : Inner) : Prop :=
  match ev with
  | Ev LLoginToken token => token = cc_token config
  | Ev (LConn (CWrite f)) _ => f = Frame_binary (encode_login (cc_token config) (cc_device config))
  | _ => True
  end.

Abbreviation token_judge := (judge (link_next config) from_config).

Lemma clean_others s s' : rtc other_step s s' -> clean s -> clean s'.
Proof.
  induction 1 as [s|s s1 s2 H1 _ IH]; [done|]. intros [Hio Ht]. apply IH. clear IH.
  destruct H1 as [s|s Hs|s src|s token Hl|s|s]; (split; [|done]); cbn; try done.
Qed.

(** After the connection is taken away nobody makes one but the link itself. *)
Definition cut (s : Inner) : Prop := kc_io (in_client s) <> IoLive.
Lemma cut_others s s' : rtc other_step s s' -> cut s -> cut s'.
Proof.
  induction 1 as [s|s s1 s2 H1 _ IH]; [done|]. intros Hio. apply IH. clear IH. unfold cut in *.
  destruct H1 as [s|s Hs|s src|s token Hl|s|s]; cbn; done.
Qed.

(** Calls that keep a clean state clean and sign nothing in. *)
Definition modest (X : Type) (e : LinkEff X) : Prop :=
  match e with
  | LStoreToken _ | LStoreSession _ | LPutIo IoLive | LConn _ => False
  | _ => True
  end.

Lemma modest_step s X (e : LinkEff X) x s' : modest X e -> clean s -> link_next config s (Ev e x) s' ->
  from_config s (Ev e x) s' /\ clean s'.
Proof.
  intros He Hc (s1 & Ho & Hs). pose proof (clean_others _ _ Ho Hc) as Hc1. clear Hc Ho. destruct Hc1 as [Hio Ht].
  destruct e; try done; cbn in Hs; try (destruct Hs as [-> ->]); try subst s'; try done.
  - split; [done|]. split; [|done]. cbn. by destruct io.
  - split; [|done]. cbn. unfold login_token. by rewrite Ht.
Qed.

Lemma token_modest {A} (p : LinkProg A) s : only modest p -> clean s -> token_judge p (fun _ => clean) s.
Proof. intros Ho Hc. apply (only_judge modest); [|done|done]. intros. by eapply modest_step. Qed.

Lemma token_disconnect s : token_judge disconnect (fun _ => clean) s.
Proof.
  unfold disconnect. apply judge_call. intros io s1 (s0 & _ & Hs). cbn in Hs. destruct Hs as [-> ->].
  split; [done|]. match goal with |- judge _ _ _ _ ?t => assert (Hc : cut t) by done; revert Hc; generalize t end.
  intros s1 Hc. apply judge_bind.
  assert (Hclear : forall s, cut s -> token_judge (call LClearSession) (fun _ => clean) s).
  { intros s2 H2 [] s' (s3 & Ho & Hs). cbn in Hs. destruct Hs as [-> _]. split; [done|].
    apply (cut_others _ _ Ho) in H2. by split. }
  destruct (kc_io (in_client s0)); [by apply Hclear|..].
  all: intros [] s' (s2 & Ho & ->); (split; [done|]); apply Hclear; by eapply cut_others.
Qed.

(** Calls that do not sign in. *)
Definition tokenless (X : Type) (e : LinkEff X) : Prop :=
  match e with LLoginToken | LConn (CWrite _) => False | _ => True end.

Lemma token_free {A} (p : LinkProg A) s : only tokenless p -> token_judge p (fun _ _ => True) s.
Proof.
  intros Ho. apply (only_judge tokenless); [|done|done]. intros s1 X e x s2 He _ _. split; [|done].
  destruct e; try done. by destruct e.
Qed.

Lemma tokenless_disconnect : only tokenless disconnect.
Proof. unfold disconnect. repeat only_step. Qed.

Lemma tokenless_serve account : only tokenless (serve fuel account).
Proof. eapply only_mono; [|apply serving_serve]. by intros X []. Qed.

Lemma tokenless_wait timeout n : only (fun X e => tokenless X (LConn e)) (wait_login_resp timeout n).
Proof. induction n as [|n IH]; cbn [wait_login_resp]; [done|]. repeat (exact IH || only_step). Qed.

Lemma token_sign_in taken s : clean s -> token_judge (sign_in config fuel taken) (fun _ _ => True) s.
Proof.
  intros Hc. unfold sign_in. apply judge_call. intros token s2 Hs.
  destruct (modest_step s _ LLoginToken token s2 I Hc Hs) as [Ht _].
  cbn in Ht. subst token. split; [done|]. eapply (judge_bind_use _ _ _ _ (fun _ _ => True)).
  - unfold login_with_device. destruct (account_from_token _) as [account|e]; [|done].
    apply judge_hoist_call. intros w s3 _. split; [done|]. destruct w as [u|e]; [|done].
    apply token_free. apply only_hoisted. repeat (apply tokenless_wait || only_step).
  - intros r s3 _. apply token_free. repeat only_step.
Qed.

Lemma token_login s : clean s -> token_judge (login config fuel) (fun _ _ => True) s.
Proof.
  intros Hc. unfold login. apply judge_call. intros taken s1 Hs.
  destruct (modest_step s _ LTakeIo taken s1 I Hc Hs) as [_ Hc1]. split; [done|].
  destruct taken; [apply token_free; repeat only_step|by apply token_sign_in..|apply token_free; repeat only_step].
Qed.

Lemma token_connect s : clean s -> token_judge connect (fun _ => clean) s.
Proof. intros Hc. apply token_modest; [|done]. unfold connect. repeat only_step. Qed.

Lemma token_run_session s : token_judge (run_session config fuel) (fun _ _ => True) s.
Proof.
  unfold run_session. cbv zeta. eapply judge_bind_use; [apply token_disconnect|]. intros [] s1 Hc.
  eapply judge_bind_use; [by apply (token_modest (call LStopped))|]. intros [] s2 Hc2; [done|].
  eapply judge_bind_use; [by apply (token_modest (call LLoginToken))|]. intros token s3 Hc3.
  eapply judge_bind_use; [by apply (token_modest (call LNow))|]. intros now s4 Hc4.
  destruct (token_unusable now token); [done|].
  eapply judge_bind_use; [by apply token_connect|]. intros [[u|e]|] s5 Hc5; [|by apply token_free; repeat only_step|done].
  eapply judge_bind_use; [by apply (token_modest (call LStopped))|].
  intros [] s6 Hc6; [apply token_free; repeat (apply tokenless_disconnect || only_step)|].
  eapply judge_bind_use; [by apply token_login|]. intros r s7 _. apply token_free.
  destruct r as [[m|e]|]; [|repeat (apply tokenless_disconnect || only_step)..].
  unfold set_state. repeat (only_step || apply tokenless_serve).
Qed.

Lemma tokenless_after_session e delay : only tokenless (after_session e delay).
Proof. unfold after_session, set_state. cbv zeta. repeat only_step. Qed.

Lemma token_run_from rounds delay s : token_judge (run_from config fuel rounds delay) (fun _ _ => True) s.
Proof.
  revert delay s. induction rounds as [|rounds IH]; intros delay s; [done|]. cbn [run_from].
  eapply (judge_bind_use _ _ _ _ (fun _ _ => True)); [apply token_free; repeat only_step|].
  intros [] s1 _; [apply token_free; unfold set_state; repeat only_step|].
  eapply (judge_bind_use _ _ _ _ (fun _ _ => True)); [apply token_free; unfold set_state; repeat only_step|].
  intros ? s2 _. eapply judge_bind_use; [apply token_run_session|]. intros [online [e|]] s3 _; [|done].
  eapply (judge_bind_use _ _ _ _ (fun _ _ => True)); [apply token_free, tokenless_after_session|].
  intros [d|] s4 _; [apply IH|done].
Qed.

(** ** The pauses *)

(** The pause that comes next, and the reason recorded last. *)
Record Pace := mkPace { pa_delay : Z; pa_reason : option DropReason }.

Definition pause_now (p : Pace) : Z :=
  match pa_reason p with Some DropProbeFail => 1000 | _ => pa_delay p end.

Definition pace_next (p : Pace) (ev : EventOf LinkEff) (p' : Pace) : Prop :=
  match ev with
  | Ev LLastDrop r => r = pa_reason p /\ p' = p
  | Ev (LRecord r) _ => p' = mkPace (pa_delay p) (Some r)
  | Ev (LSend (SeLink Online)) _ => p' = mkPace 1000 (pa_reason p)
  | Ev (LPause d) Slept => p' = mkPace (next_backoff d) (pa_reason p)
  | Ev (LPause _) Hinted => p' = mkPace 1000 (pa_reason p)
  | _ => p' = p
  end.

Definition pace_good (p : Pace) (ev : EventOf LinkEff) (_ : Pace) : Prop :=
  match ev with
  | Ev (LPause d) _ => d = pause_now p /\ 1000 <= d <= 60000
  | _ => True
  end.

Lemma pace_next_det p ev p1 p2 : pace_next p ev p1 -> pace_next p ev p2 -> p1 = p2.
Proof.
  destruct ev as [X e x]. destruct e; cbn; try congruence.
  - destruct ev as [[]| | | | | | | | | | | | | | | | |]; congruence.
  - intros [_ ->] [_ ->]. done.
  - destruct x; congruence.
Qed.

Abbreviation pace_judge := (judge pace_next pace_good).

(** Calls that leave the pace alone. *)
Definition steady (X : Type) (e : LinkEff X) : Prop :=
  match e with LSend (SeLink Online) | LPause _ => False | _ => True end.

Lemma pace_steady {A} (p : LinkProg A) d r : only steady p ->
  pace_judge p (fun _ s => pa_delay s = d) (mkPace d r).
Proof.
  intros Ho. apply (only_judge steady _ _ (fun s => pa_delay s = d)); [|done|done].
  intros s X e x s' He Hd Hn. destruct e; cbn in Hn |- *; try done.
  all: try destruct ev as [[]| | | | | | | | | | | | | | | | |]; try done; try (by subst; split).
  by destruct Hn as [_ ->].
Qed.

Lemma steady_of_serving {A} (p : LinkProg A) : only serving p -> only steady p.
Proof. apply only_mono. intros X e He. destruct e; try done. by destruct ev as [[]| | | | | | | | | | | | | | | | |]. Qed.

Lemma pace_free {A} (p : LinkProg A) s : only steady p -> pace_judge p (fun _ s' => pa_delay s' = pa_delay s) s.
Proof. destruct s. apply pace_steady. Qed.

Definition pace_post (d : Z) (r : bool * option SessionEnd) (s : Pace) : Prop :=
  pa_delay s = if r.1 then 1000 else d.

Lemma pace_run_session s : pace_judge (run_session config fuel) (pace_post (pa_delay s)) s.
Proof.
  unfold run_session. cbv zeta.
  eapply judge_bind_use; [apply pace_free, steady_of_serving, serving_disconnect|]. intros ? s1 <-.
  eapply judge_bind_use; [apply pace_free; repeat only_step|]. intros [] s2 <-; [done|].
  eapply judge_bind_use; [apply pace_free; repeat only_step|]. intros token s3 <-.
  eapply judge_bind_use; [apply pace_free; repeat only_step|]. intros now s4 <-.
  destruct (token_unusable now token); [done|].
  eapply judge_bind_use; [apply pace_free; unfold connect; repeat only_step|]. intros [[u|e]|] s5 <-; [| |done].
  2: { eapply judge_bind_use; [apply pace_free; repeat only_step|]. by intros ? s6 <-. }
  eapply judge_bind_use; [apply pace_free; repeat only_step|]. intros [] s6 <-.
  { eapply judge_bind_use; [apply pace_free, steady_of_serving, serving_disconnect|]. by intros ? s7 <-. }
  eapply judge_bind_use; [apply pace_free; unfold login, sign_in; repeat ((apply only_hoist; by intros) || only_step)|].
  intros [[session|err]|] s7 <-; [| |done].
  2: { eapply judge_bind_use; [apply pace_free, steady_of_serving, serving_disconnect|]. intros ? s8 <-.
       destruct (is_fatal_auth err); [done|].
       eapply judge_bind_use; [apply pace_free; repeat only_step|]. by intros ? s9 <-. }
  eapply judge_bind_use; [apply pace_free; repeat only_step|]. intros ? s8 _.
  eapply (judge_bind_use _ _ _ _ (fun _ s => pa_delay s = 1000)).
  { unfold set_state. intros ? s9 Hs9. split; [done|]. intros ? s10 ->. by split. }
  intros ? s9 H9. eapply judge_bind_use; [apply pace_free; repeat only_step|]. intros [] s10 H10; rewrite H9 in H10.
  - eapply judge_bind_use; [apply pace_free, steady_of_serving, serving_serve|]. intros e s11 H11. unfold pace_post. cbn in *. lia.
  - eapply judge_bind_use; [apply pace_free; repeat only_step|]. intros ? s11 H11. unfold pace_post. cbn in *. lia.
Qed.

Definition in_pace (r : option Z) (s : Pace) : Prop :=
  match r with None => True | Some d => pa_delay s = d /\ 1000 <= d <= 60000 end.

Lemma next_backoff_range d : 1000 <= d <= 60000 -> 1000 <= next_backoff d <= 60000.
Proof. unfold next_backoff. lia. Qed.

Lemma pace_over s : pace_judge (_ ← set_state Offline; Ret (@None Z)) in_pace s.
Proof. unfold set_state. intros ? s1 _. split; [done|]. by intros ? s2 _. Qed.

Lemma pace_after_session e d s : pa_delay s = d -> 1000 <= d <= 60000 -> pace_judge (after_session e d) in_pace s.
Proof.
  intros Hd Hr. unfold after_session. cbv zeta. destruct e as [|err reason|err|channel].
  - intros ? s1 _. split; [done|]. apply pace_over.
  - apply judge_call. intros ? s1 ->. split; [done|]. apply judge_call. intros [] s2 ->; (split; [done|]); [apply pace_over|].
    apply judge_call. intros attempt s3 ->. split; [done|]. apply judge_call. intros last s4 [-> ->]. split; [done|].
    cbn [pa_reason default]. apply judge_call. intros ? s5 ->. split; [done|]. cbn [pa_delay].
    apply judge_bind. unfold set_state. intros ? s6 ->. split; [done|]. intros ? s7 ->. split; [done|]. cbn [judge].
    apply judge_call. intros p s8 Hp. split.
    + cbn. unfold pause_now. cbn. destruct reason; lia.
    + assert (Hr' : 1000 <= match reason with DropProbeFail => 1000 | _ => d end <= 60000) by (destruct reason; lia).
      destruct p; cbn in Hp; subst s8; cbn; [|lia|apply pace_over]. split; [done|]. by apply next_backoff_range.
  - intros ? s1 _. split; [done|]. intros ? s2 _. split; [done|]. apply pace_over.
  - intros ? s1 _. split; [done|]. intros ? s2 _. split; [done|]. apply pace_over.
Qed.

Lemma pace_run_from rounds d s : pa_delay s = d -> 1000 <= d <= 60000 ->
  pace_judge (run_from config fuel rounds d) (fun _ _ => True) s.
Proof.
  revert d s. induction rounds as [|rounds IH]; intros d s Hd Hr; [done|]. cbn [run_from].
  eapply judge_bind_use; [apply pace_free; repeat only_step|]. intros [] s1 H1.
  { eapply judge_bind_use; [apply pace_free; unfold set_state; repeat only_step|]. done. }
  eapply judge_bind_use; [apply pace_free; unfold set_state; repeat only_step|]. intros ? s2 H2.
  eapply judge_bind_use; [apply pace_run_session|]. intros [online [e|]] s3 H3; [|done].
  unfold pace_post in H3. cbn in H3. eapply judge_bind_use; [apply pace_after_session|].
  - cbn in *. destruct online; lia.
  - destruct online; lia.
  - intros [d'|] s4 H4; [|done]. destruct H4. by apply IH.
Qed.

End link.

(** ** The worker that stores live talks *)

(** An acknowledgement follows the storing of the talk it names. *)
Definition stored_before (pre : list (EventOf PersistEff)) (ev : EventOf PersistEff) : Prop :=
  match ev with
  | Ev (PAck id) _ =>
    id <> 0 /\ exists t before, it_message_id t = id /\
      pre = before ++ [Ev PRecvTalk (Some t); Ev (PPersist [t] IfInserted) (Ok tt)]
  | _ => True
  end.

Lemma worker_judge rounds pre :
  judge history (fun pre ev _ => stored_before pre ev) (persist_worker rounds) (fun _ _ => True) pre.
Proof.
  revert pre. induction rounds as [|rounds IH]; intros pre; [done|]. cbn [persist_worker].
  apply judge_call. intros [t|] s1 ->; (split; [done|]); [|done].
  apply judge_call. intros [[]|e] s2 ->; (split; [done|]); [|by apply IH].
  destruct (it_message_id t =? 0) eqn:E; [by apply IH|]. cbn [negb].
  apply judge_bind, judge_call. intros a s3 ->. split; [|by apply IH].
  cbn. split; [lia|]. exists t, pre. by rewrite <- app_assoc.
Qed.

(** ** A concrete client *)

Section demo.
#[local] Existing Instance demo_prost.
#[local] Instance demo_jwt : JwtParts := {|
  b64url_decode s := Some (bytes_of s);
  payload_of_json _ := Some (Some "alice"%string, Some 5000)
|}.
#[local] Instance demo_texts : ErrorTexts := {| decode_error_text := "bad"; io_error_text := "io" |}.

Definition demo_config : ClientConfig := ClientConfig_local "h.first.s".
Definition demo_accepted : Frame :=
  Frame_binary (marshal (Logic (write_body (LogicPkt_new CMD_LOGIN_SIGN_IN 1 []) (mkLoginResp "gate_alice_1")))).

Definition demo_sync {X} (e : SyncEff X) : X :=
  match e in SyncEff X return X with
  | SInboxList _ | SOfflineIndex | SOfflineContent _ => Err NotConnected
  | SBeginInbox => Err Busy
  | SPersistInbox _ _ | SPersistTalks _ _ => Err Busy
  | SFinishInbox _ => tt
  | SSend _ => true
  | SAckBatch _ => Err NotConnected
  | SOthersSaw => []
  | SDeath => None
  | SSelectConfirm _ => TimedOut
  end.
Definition demo_conn {X} (e : ConnEff X) : X :=
  match e in ConnEff X return X with
  | CWrite _ | CFlush => Ok tt
  | CPong => Some tt
  | CRead => Some (Ok demo_accepted)
  end.
(** The token is renewed, then the connection dies of a probe; in the second session
    the client is stopped. *)
Definition demo_outside {X} (e : LinkEff X) (n : nat) : nat * X :=
  match e in LinkEff X return nat * X with
  | LSelect =>
    (S n, match n with O => DRecv (Ok (EvTokenRenew "h.second.s" 9000)) | S O => DDead DropProbeFail | _ => DStop end)
  | LNow => (n, 1000)
  | LOpen => (n, ConnectDone (Ok tt))
  | LConn e => (n, demo_conn e)
  | LDeath => (n, None)
  | LHasPersist | LHasQueue => (n, false)
  | LPause _ => (n, Slept)
  | LSync e => (n, demo_sync e)
  | LTurn | LStopped | LTrySend _ | LObserve _ | LIsLive | LIsOff => (n, true)
  | LFetchAttempt | LProbeSource => (n, 0)
  | LLastDrop => (n, None)
  | LTakeIo => (n, IoOff)
  | LLoginToken => (n, ""%string)
  | LStoreState _ | LSend _ | LRecord _ | LResetAttempt | LPutIo _ | LShutdownIo _ | LClearSession
  | LStoreSession _ | LStoreToken _ | LRequestProbe => (n, tt)
  end.
Definition demo_handler (X : Type) (e : LinkEff X) (s : Inner * nat) : (Inner * nat) * X :=
  match access demo_config e s.1 with
  | Some (i, x) => ((i, s.2), x)
  | None => let '(n, x) := demo_outside e s.2 in ((s.1, n), x)
  end.

Definition demo_loop : LinkProg bool := run_loop demo_config 3 5.
Definition demo_trace : list (EventOf LinkEff) := (run demo_handler demo_loop (Inner_new, O)).1.2.

Lemma demo_steps {A} (p : LinkProg A) s :
  steps (link_next demo_config) s.1 (run demo_handler p s).1.2 (run demo_handler p s).1.1.1.
Proof.
  revert s. induction p as [a|X e k IH]; intros s; [constructor|]. cbn [run].
  destruct (demo_handler X e s) as [s1 x] eqn:E. specialize (IH x s1).
  destruct (run demo_handler (k x) s1) as [[s2 tr] a]. econstructor; [|exact IH].
  exists s.1. split; [done|]. unfold demo_handler in E. destruct (access demo_config e s.1) as [[i y]|] eqn:Ea.
  - by injection E as <- <-.
  - destruct (demo_outside e s.2). by injection E as <- <-.
Qed.

(** The states of the pace along a trace, where its answers fit. *)
Definition pace_step (p : Pace) (ev : EventOf LinkEff) : option Pace :=
  match ev with
  | Ev LLastDrop r => if bool_decide (reason_str <$> r = reason_str <$> pa_reason p) then Some p else None
  | Ev (LRecord r) _ => Some (mkPace (pa_delay p) (Some r))
  | Ev (LSend (SeLink Online)) _ => Some (mkPace 1000 (pa_reason p))
  | Ev (LPause d) Slept => Some (mkPace (next_backoff d) (pa_reason p))
  | Ev (LPause _) Hinted => Some (mkPace 1000 (pa_reason p))
  | _ => Some p
  end.

Lemma pace_step_next p ev p' : pace_step p ev = Some p' -> pace_next p ev p'.
Proof.
  destruct ev as [X e x]. destruct e; cbn; try (by intros [= <-]).
  - destruct ev as [[]| | | | | | | | | | | | | | | | |]; by intros [= <-].
  - case_bool_decide as E; [|done]. intros [= <-]. split; [|done].
    destruct x as [r|], (pa_reason p) as [r'|]; try done. f_equal. injection E as E. by destruct r, r'.
  - destruct x; by intros [= <-].
Qed.

Definition pace_along (p : option Pace) (tr : list (EventOf LinkEff)) : option Pace :=
  foldl (fun p ev => match p with Some p => pace_step p ev | None => None end) p tr.

Lemma pace_steps p tr p' : pace_along (Some p) tr = Some p' -> steps pace_next p tr p'.
Proof.
  unfold pace_along. revert p. induction tr as [|ev tr IH]; intros p; cbn [foldl]; [intros [= <-]; constructor|].
  destruct (pace_step p ev) as [p1|] eqn:E.
  - intros Hf. econstructor; [by apply pace_step_next|by apply IH].
  - assert (Hn : forall tr, pace_along None tr = None) by (clear; by induction tr).
    unfold pace_along in Hn. by rewrite Hn.
Qed.

Lemma demo_trace_exec : exec demo_loop demo_trace (run demo_handler demo_loop (Inner_new, O)).2.
Proof. apply exec_run. Qed.
Lemma demo_trace_reached : reaches demo_loop demo_trace.
Proof. exact (exec_reaches _ _ _ demo_trace_exec). Qed.
Lemma demo_trace_steps : steps (link_next demo_config) Inner_new demo_trace (run demo_handler demo_loop (Inner_new, O)).1.1.1.
Proof. exact (demo_steps demo_loop (Inner_new, O)). Qed.

Definition sends (ev : EventOf LinkEff) : list LinkState :=
  match ev with Ev (LSend (SeLink l)) _ => [l] | _ => [] end.
Definition tokens (ev : EventOf LinkEff) : list (string + string) :=
  match ev with Ev LLoginToken t => [inl t] | Ev (LStoreToken t) _ => [inr t] | _ => [] end.
Lemma stored_of_tokens tr t : inr t ∈ flat_map tokens tr -> Ev (LStoreToken t) tt ∈ tr.
Proof.
  rewrite list_elem_of_In, in_flat_map. intros (ev & Hin & Ht). apply list_elem_of_In in Hin.
  destruct ev as [X [] x]; cbn in Ht; try done; destruct Ht as [Ht|Ht]; try done. injection Ht as ->. by destruct x.
Qed.
Definition pauses (ev : EventOf LinkEff) : list Z := match ev with Ev (LPause d) _ => [d] | _ => [] end.

Example demo_shown : flat_map sends demo_trace = [Connecting; Online; Reconnecting 1; Connecting; Online; Offline].
Proof. vm_compute. reflexivity. Qed.
Example demo_tokens : flat_map tokens demo_trace =
  [inl "h.first.s"; inl "h.first.s"; inr "h.second.s"; inl "h.first.s"; inl "h.first.s"]%string.
Proof. vm_compute. reflexivity. Qed.
End demo.

(** ** Properties *)

(** (C35) The link follows its protocol.  Whatever the connection, the service, the clock
    and the other tasks do, each round shows [Connecting]; opens a connection only
    after the token was found usable; shows [Online] only when the service accepted
    the sign-in on that connection; hands talks, pages and other events on only
    while online; and goes on through [Reconnecting] and a pause to the next round.
    [Offline] is shown last, once, and nothing is called after it; a loop that ends
    has shown it. *)
Theorem link_protocol `{Prost} `{JwtParts} `{ErrorTexts} (config : ClientConfig) (fuel rounds : nat)
  (tr : list (EventOf LinkEff)) (Hrun : reaches (run_loop config fuel rounds) tr) :
  is_Some (phases tr) /\ (exec (run_loop config fuel rounds) tr true -> phases tr = Some PDone).
Proof.
  pose proof (phases_run_from config fuel rounds 1000) as Hj. split.
  - eapply good_phases; [|exact (judge_reaches _ _ _ _ _ _ _ Hj Hrun (phases_steps _ _))]. by eexists.
  - intros He. by apply (judge_exec _ _ _ _ _ _ _ _ Hj He (phases_steps _ _)).
Qed.

Lemma link_protocol_witness : phases (HP := demo_prost) (HJ := demo_jwt) demo_trace = Some PDone.
Proof.
  apply (link_protocol (H := demo_prost) (H0 := demo_jwt) (H1 := demo_texts) demo_config 3 5 demo_trace demo_trace_reached).
  pose proof demo_trace_exec as He. exact He.
Defined.

(** A renewed token is never used to sign in again.  Every attempt of the link
    begins with [disconnect], which clears the session that holds the renewed
    token: whatever other tasks do meanwhile, every sign-in the link makes shows
    the token of the configuration, and so does the check that gives up when the
    token has expired. *)
Theorem renewed_token_unused `{Prost} `{JwtParts} `{ErrorTexts} (config : ClientConfig) (fuel rounds : nat)
  (s s' : Inner) (tr : list (EventOf LinkEff)) (Hrun : reaches (run_loop config fuel rounds) tr)
  (Hsteps : steps (link_next config) s tr s') :
  (forall token, Ev LLoginToken token ∈ tr -> token = cc_token config) /\
  (forall f x, Ev (LConn (CWrite f)) x ∈ tr -> f = Frame_binary (encode_login (cc_token config) (cc_device config))).
Proof.
  pose proof (judge_reaches _ _ _ _ _ _ _ (token_run_from config fuel rounds 1000 s) Hrun Hsteps) as Hs.
  split; [intros token Hin|intros f x Hin]; apply list_elem_of_split in Hin as (l & r & ->);
    apply steps_split in Hs as (s1 & s2 & _ & [_ Hg] & _); exact Hg.
Qed.

Lemma renewed_token_unused_witness :
  Ev (LStoreToken "h.second.s") tt ∈ demo_trace /\ (forall token, Ev LLoginToken token ∈ demo_trace -> token = "h.first.s"%string).
Proof.
  split.
  - apply stored_of_tokens. rewrite demo_tokens. set_solver.
  - apply (renewed_token_unused (H := demo_prost) (H0 := demo_jwt) (H1 := demo_texts) demo_config 3 5 _ _ demo_trace
      demo_trace_reached demo_trace_steps).
Defined.

(** Pauses between attempts are paced.  As long as [last_drop_reason] answers what
    was recorded last, every pause is between one second and one minute: one second
    at first, after the link was online, after a hint and after a failed probe, and
    otherwise twice the pause before, up to a minute. *)
Theorem reconnect_paced `{Prost} `{JwtParts} `{ErrorTexts} (config : ClientConfig) (fuel rounds : nat)
  (before after : list (EventOf LinkEff)) (d : Z) (x : PauseEnd) (p : Pace)
  (Hrun : reaches (run_loop config fuel rounds) (before ++ Ev (LPause d) x :: after))
  (Hsteps : steps pace_next (mkPace 1000 None) before p) : d = pause_now p /\ 1000 <= d <= 60000.
Proof.
  refine (judge_at pace_next pace_good _ _ _ _ _ _ _
    (match x with Slept => mkPace (next_backoff d) (pa_reason p) | Hinted => mkPace 1000 (pa_reason p) | PauseStop => p end)
    pace_next_det (pace_run_from config fuel rounds 1000 _ _ _) Hrun Hsteps _); [done|lia|by destruct x].
Qed.

Lemma reconnect_paced_witness : exists before after, demo_trace = before ++ Ev (LPause 1000) Slept :: after /\
  1000 = pause_now (mkPace 1000 (Some DropProbeFail)).
Proof.
  assert (Hp : demo_trace !! 49%nat = Some (Ev (LPause 1000) Slept)) by (vm_compute; reflexivity).
  pose proof (eq_sym (take_drop_middle _ _ _ Hp)) as E. clear Hp.
  exists (take 49 demo_trace), (drop 50 demo_trace). split; [exact E|].
  refine (proj1 (reconnect_paced (H := demo_prost) (H0 := demo_jwt) (H1 := demo_texts) demo_config 3 5
    (take 49 demo_trace) (drop 50 demo_trace) 1000 Slept _ _ (pace_steps _ _ _ _))).
  - pose proof demo_trace_reached as Hr. rewrite E in Hr. exact Hr.
  - vm_compute. reflexivity.
Defined.

(** Live talks are stored before they are acknowledged: the worker of a client with
    a persist hook acknowledges only the talk it took last, by its id, which is not
    zero, and only when storing it succeeded. *)
Theorem live_talk_stored (rounds : nat) (before after : list (EventOf PersistEff)) (id : Z) (r : result unit ClientError)
  (Hrun : reaches (persist_worker rounds) (before ++ Ev (PAck id) r :: after)) :
  id <> 0 /\ exists t pre, it_message_id t = id /\
    before = pre ++ [Ev PRecvTalk (Some t); Ev (PPersist [t] IfInserted) (Ok tt)].
Proof. exact (history_judge stored_before _ _ _ _ _ (worker_judge rounds []) Hrun). Qed.

Definition demo_talk : IncomingTalk := mkIncomingTalk CMD_CHAT_USER_TALK "bob" 7 "bob" 1 "hi" "" 1000.
Definition demo_stored : list (EventOf PersistEff) := [Ev PRecvTalk (Some demo_talk); Ev (PPersist [demo_talk] IfInserted) (Ok tt)].

Lemma live_talk_stored_witness : 7 <> 0 /\ exists t pre, it_message_id t = 7 /\
  demo_stored = pre ++ [Ev PRecvTalk (Some t); Ev (PPersist [t] IfInserted) (Ok tt)].
Proof.
  apply (live_talk_stored 2 demo_stored [] 7 (Ok tt)). unfold demo_stored. cbn [app persist_worker].
  apply (reaches_call PRecvTalk), (reaches_call (PPersist _ _)), (reaches_call (PAck _)), reaches_start.
Defined.
