(* ===== verification/SocialCache.v ===== *)
(** The cache of friendships, blocks and accounts: services/chat/src/social_cache.rs.

    Both caches of the file are one single-flight cache over a key and a value: a
    call that finds no fresh entry either becomes the leader of its key, which asks
    the inner directory, or waits for the leader's answer.  [Flight] is the shared
    state together with every call in progress; an [Act] is one critical section or
    one await that ends, or a call that is dropped at an await, as a passed time
    limit does ([with_rpc_deadline] around the checks of a talk). *)

From S2P Require Import Prelude Wire Pkt Msgs Social Users RoyalAuth.
Open Scope Z_scope.
Open Scope kim_scope.

Definition DEFAULT_TTL : Z := 30000.
Definition DEFAULT_CAP : Z := 10000.

(** The environment variable [KIM_SOCIAL_CACHE_TTL_MS] with its parse as [u64]. *)
Definition social_ttl (var : option string) (parse : string -> option Z) : Z :=
  match var with
  | Some s => if bool_decide (str_trim s = "0"%string) then 0 else default DEFAULT_TTL (parse (str_trim s))
  | None => DEFAULT_TTL
  end.

(** A fifth of the base up or down, chosen by the nanoseconds of the clock; in
    milliseconds. *)
Definition jittered_ttl (base nanos : Z) : Z :=
  if base =? 0 then 0
  else
    let span := Z.max (base * 20 / 100) 1 in
    let delta := nanos mod (span * 2 + 1) in
    Z.max (base + (delta - span)) 1.

(** ** The single-flight cache *)

Section flight.
Context {K : Type} `{Countable K} {V : Type} {Er : Type}.
(** What a waiter makes of the text of its leader's error. *)
Context (backend : Er -> Er).

Record Entry := mkEntry { e_value : V; e_expire : Z }.

(** Where a call is: it found no fresh entry; it asks the inner directory without the
    cache; it leads its key; it was answered by the directory and took the waiters;
    it waits for its leader; it has its answer. *)
Inductive CallState : Type :=
| Missed | Direct | Leading | Settling (r : result V Er) (waiters : list nat) | Waiting | Answered (r : result V Er).

(** The calls are numbered as they come. *)
Record Flight := mkFlight {
  entries : gmap K Entry;
  inflight : gmap K (list nat);
  calls : gmap nat (K * CallState);
  upcoming : nat
}.
Definition Flight_new : Flight := mkFlight ∅ ∅ ∅ 0.
Definition with_entries (m : gmap K Entry) (s : Flight) : Flight := mkFlight m (inflight s) (calls s) (upcoming s).
Definition with_call (id : nat) (k : K) (c : CallState) (s : Flight) : Flight :=
  mkFlight (entries s) (inflight s) (<[id := (k, c)]> (calls s)) (upcoming s).
Definition with_inflight (m : gmap K (list nat)) (s : Flight) : Flight := mkFlight (entries s) m (calls s) (upcoming s).
Definition with_calls (c : gmap nat (K * CallState)) (s : Flight) : Flight :=
  mkFlight (entries s) (inflight s) c (upcoming s).

Context (ttl cap : Z).
(** The order in which the map of entries is walked. *)
Context (walk : gmap K Entry -> list (K * Entry)).

Definition lookup_entry (key : K) (now : Z) (m : gmap K Entry) : gmap K Entry * option V :=
  if ttl =? 0 then (m, None)
  else match m !! key with
       | Some e => if now <? e_expire e then (m, Some (e_value e)) else (delete key m, None)
       | None => (m, None)
       end.

Definition evict_oldest_tenth (m : gmap K Entry) : gmap K Entry :=
  if len (walk m) =? 0 then m
  else
    let n := Z.max (len (walk m) / 10) 1 in
    let keys := sort_by (fun a b => e_expire a.2 <=? e_expire b.2) (walk m) in
    foldl (fun m kv => delete kv.1 m) m (take (Z.to_nat n) keys).

Definition store_entry (key : K) (value : V) (now nanos : Z) (m : gmap K Entry) : gmap K Entry :=
  if ttl =? 0 then m
  else
    let m := if cap <=? len (walk m) then evict_oldest_tenth m else m in
    <[key := mkEntry value (now + jittered_ttl ttl nanos)]> m.

(** The waiters that still wait get the answer. *)
Definition answer_waiters (r : result V Er) (waiters : list nat) (c : gmap nat (K * CallState)) : gmap nat (K * CallState) :=
  foldl (fun c id => match c !! id with
                     | Some (k, Waiting) => <[id := (k, Answered r)]> c
                     | _ => c
                     end) c waiters.
Definition waiter_result (r : result V Er) : result V Er :=
  match r with Ok v => Ok v | Err e => Err (backend e) end.

Inductive Act : Type :=
| Look (key : K) (now : Z)
| Join (id : nat)
| Fetched (id : nat) (r : result V Er)
| Settle (id : nat) (now nanos : Z)
| Drop (id : nat)
| Evict (keys : list K).

(** One step of the cache; [None] when the act does not apply. *)
Definition flight_step (s : Flight) (a : Act) : option Flight :=
  match a with
  | Look key now =>
    let '(m, hit) := lookup_entry key now (entries s) in
    let c := match hit with Some v => Answered (Ok v) | None => if ttl =? 0 then Direct else Missed end in
    Some (mkFlight m (inflight s) (<[upcoming s := (key, c)]> (calls s)) (S (upcoming s)))
  | Join id =>
    match calls s !! id with
    | Some (k, Missed) =>
      match inflight s !! k with
      | Some waiters => Some (with_inflight (<[k := waiters ++ [id]]> (inflight s)) (with_call id k Waiting s))
      | None => Some (with_inflight (<[k := []]> (inflight s)) (with_call id k Leading s))
      end
    | _ => None
    end
  | Fetched id r =>
    match calls s !! id with
    | Some (k, Direct) => Some (with_call id k (Answered r) s)
    | Some (k, Leading) =>
      Some (with_inflight (delete k (inflight s)) (with_call id k (Settling r (default [] (inflight s !! k))) s))
    | _ => None
    end
  | Settle id now nanos =>
    match calls s !! id with
    | Some (k, Settling r waiters) =>
      let m := match r with Ok v => store_entry k v now nanos (entries s) | Err _ => entries s end in
      let s := with_call id k (Answered r) (with_entries m s) in
      Some (with_calls (answer_waiters (waiter_result r) waiters (calls s)) s)
    | _ => None
    end
  | Drop id =>
    match calls s !! id with
    | Some (_, (Direct | Leading | Waiting)) => Some (with_calls (delete id (calls s)) s)
    | _ => None
    end
  | Evict keys => Some (with_entries (foldl (fun m k => delete k m) (entries s) keys) s)
  end.

Fixpoint flight_run (acts : list Act) (s : Flight) : option Flight :=
  match acts with
  | [] => Some s
  | a :: acts => s ← flight_step s a; flight_run acts s
  end.
End flight.
Arguments Entry : clear implicits.
Arguments CallState : clear implicits.
Arguments Flight K {_ _} V Er.
Arguments Act : clear implicits.

(** ** [CachedSocial] *)

Inductive SocialQueryKind : Type := Friend | BlockedEither.
#[export] Instance SocialQueryKind_eq_dec : EqDecision SocialQueryKind.
Proof. solve_decision. Defined.
#[export] Instance SocialQueryKind_countable : Countable SocialQueryKind.
Proof.
  refine (inj_countable' (fun k => match k with Friend => true | BlockedEither => false end)
    (fun b => if b then Friend else BlockedEither) _); by intros [].
Defined.

Definition SocialKey : Type := SocialQueryKind * string * string * string.
Definition make_key (kind : SocialQueryKind) (app a b : string) : SocialKey :=
  let '(x, y) := ordered_pair a b in (kind, app, x, y).

(** The writes evict both questions of the pair once the inner directory answered
    [Ok]. *)
Definition evict_pair (app a b : string) : Act SocialKey bool SocialError :=
  Evict [make_key Friend app a b; make_key BlockedEither app a b].

(** What a write of the inner directory leaves to do: [request], [accept], [reject],
    [remove], [block], [unblock] and [ensure_friends] evict the pair when it succeeded. *)
Definition after_social_write {A} (r : result A SocialError) (app a b : string) : list (Act SocialKey bool SocialError) :=
  match r with Ok _ => [evict_pair app a b] | Err _ => [] end.

Definition social_backend (e : SocialError) : SocialError := SocialBackend (SocialError_text e).

(** ** [CachedUserDirectory] *)

Definition UserKey : Type := string * string.
Definition absent : UserPresence := mkUserPresence false 0 "".
(** What a lookup of the inner directory is to the cache. *)
Definition fetched_presence (r : result (option UserPresence) UserError) : result UserPresence UserError :=
  match r with Ok (Some p) => Ok p | Ok None => Ok absent | Err e => Err e end.
Definition cached_exists (r : result UserPresence UserError) : result bool UserError :=
  let? p := r in Ok (up_exists p).
Definition cached_bot_owner (r : result UserPresence UserError) : result (option string) UserError :=
  let? p := r in
  Ok (if up_exists p && (up_kind p =? PROFILE_KIND_BOT) && negb (str_is_empty (up_owner_account p))
      then Some (up_owner_account p) else None).
Definition cached_lookup (r : result UserPresence UserError) : result (option UserPresence) UserError :=
  let? p := r in Ok (if up_exists p then Some p else None).
Definition evict_user (app account : string) : Act UserKey UserPresence UserError := Evict [(app, account)].
(** [upsert], [create], [create_bot], [update_bot] and [delete_bot]. *)
Definition after_user_write {A} (r : result A UserError) (app account : string) : list (Act UserKey UserPresence UserError) :=
  match r with Ok _ => [evict_user app account] | Err _ => [] end.
Definition user_directory_backend (e : UserError) : UserError := UserBackend (UserError_text e).
