(* ===== verification/SocialCacheSpec.v ===== *)
(** What the single-flight caches do: a waiting call can always be answered as long
    as no leader is dropped, no call of a key is answered any more once its leader was
    dropped, and a fresh entry is a recent answer of the inner directory that no
    write evicted since. *)

From S2P Require Import Prelude Social Users SocialCache.
Open Scope Z_scope.
Open Scope kim_scope.

Section flight.
Context {K : Type} `{HK : Countable K} {V : Type} {Er : Type} (backend : Er -> Er).
Context (ttl cap : Z) (walk : gmap K (Entry V) -> list (K * Entry V)).
Implicit Types s : Flight K V Er.

Abbreviation step := (flight_step backend ttl cap walk).
Abbreviation runs := (flight_run backend ttl cap walk).

Definition key_of (s : Flight K V Er) (id : nat) : option K := fst <$> calls s !! id.

Lemma answer_waiters_lookup (r : result V Er) waiters (c : gmap nat (K * CallState V Er)) id :
  answer_waiters r waiters c !! id =
  match c !! id with
  | Some (k, Waiting) => if bool_decide (id ∈ waiters) then Some (k, Answered r) else c !! id
  | x => x
  end.
Proof.
  revert c. induction waiters as [|w waiters IH]; intros c; cbn [answer_waiters foldl].
  { by destruct (c !! id) as [[k []]|]. }
  change (foldl _ ?c waiters) with (answer_waiters r waiters c). rewrite IH. destruct (decide (w = id)) as [->|Hne].
  - destruct (c !! id) as [[k []]|] eqn:E; rewrite ?E, ?lookup_insert_eq; try done.
    by rewrite bool_decide_eq_true_2 by set_solver.
  - assert (E : forall c', (match c !! w with Some (k, Waiting) => <[w := (k, Answered r)]> c | _ => c end) !! id = c' -> c !! id = c').
    { intros c' <-. destruct (c !! w) as [[k []]|]; try done. by rewrite lookup_insert_ne. }
    erewrite (E _ eq_refl). destruct (_ !! id) as [[k []]|]; try done.
    rewrite (bool_decide_ext (id ∈ waiters) (id ∈ w :: waiters)); [done|set_solver].
Qed.

(** ** Names *)

(** The ids in lists of waiters are calls of that key, if they still are calls. *)
Definition named (s : Flight K V Er) (k : K) (waiters : list nat) : Prop :=
  forall id, id ∈ waiters -> (id < upcoming s)%nat /\ forall k', key_of s id = Some k' -> k' = k.
Record named_wf (s : Flight K V Er) : Prop := {
  nw_calls : forall id kc, calls s !! id = Some kc -> (id < upcoming s)%nat;
  nw_inflight : forall k waiters, inflight s !! k = Some waiters -> named s k waiters;
  nw_settling : forall l k r waiters, calls s !! l = Some (k, Settling r waiters) -> named s k waiters
}.

Lemma named_mono s s' k ws : (upcoming s <= upcoming s')%nat ->
  (forall id k', (id < upcoming s)%nat -> key_of s' id = Some k' -> key_of s id = Some k') -> named s k ws -> named s' k ws.
Proof. intros Hu Hk Hn id Hin. destruct (Hn id Hin) as [Hl Hkey]. split; [lia|]. intros k' E. by apply Hkey, Hk. Qed.

Lemma key_of_with_call s s' id k c : calls s' = <[id := (k, c)]> (calls s) -> key_of s id = Some k ->
  forall i, key_of s' i = key_of s i.
Proof.
  intros E Hk i. unfold key_of in *. rewrite E. destruct (decide (i = id)) as [->|Hne].
  - by rewrite lookup_insert_eq, Hk.
  - by rewrite lookup_insert_ne.
Qed.

Lemma key_of_answer s r ws i : fst <$> (answer_waiters (K := K) r ws (calls s) !! i) = key_of s i.
Proof.
  unfold key_of. rewrite answer_waiters_lookup. destruct (calls s !! i) as [[k []]|]; try done.
  by case_bool_decide.
Qed.

(** The steps, by what they find. *)
Variant stepped (s : Flight K V Er) : Act K V Er -> Flight K V Er -> Prop :=
| st_hit k now m v : lookup_entry ttl k now (entries s) = (m, Some v) ->
    stepped s (Look k now) (mkFlight m (inflight s) (<[upcoming s := (k, Answered (Ok v))]> (calls s)) (S (upcoming s)))
| st_miss k now m c : lookup_entry ttl k now (entries s) = (m, None) -> c = (if ttl =? 0 then Direct else Missed) ->
    stepped s (Look k now) (mkFlight m (inflight s) (<[upcoming s := (k, c)]> (calls s)) (S (upcoming s)))
| st_wait id k ws : calls s !! id = Some (k, Missed) -> inflight s !! k = Some ws ->
    stepped s (Join id) (with_inflight (<[k := ws ++ [id]]> (inflight s)) (with_call id k Waiting s))
| st_lead id k : calls s !! id = Some (k, Missed) -> inflight s !! k = None ->
    stepped s (Join id) (with_inflight (<[k := []]> (inflight s)) (with_call id k Leading s))
| st_direct id k r : calls s !! id = Some (k, Direct) -> stepped s (Fetched id r) (with_call id k (Answered r) s)
| st_fetched id k r : calls s !! id = Some (k, Leading) ->
    stepped s (Fetched id r)
      (with_inflight (delete k (inflight s)) (with_call id k (Settling r (default [] (inflight s !! k))) s))
| st_settle id k r ws now nanos m : calls s !! id = Some (k, Settling r ws) ->
    m = match r with Ok v => store_entry ttl cap walk k v now nanos (entries s) | Err _ => entries s end ->
    stepped s (Settle id now nanos)
      (mkFlight m (inflight s) (answer_waiters (waiter_result backend r) ws (<[id := (k, Answered r)]> (calls s))) (upcoming s))
| st_drop id k c : calls s !! id = Some (k, c) -> c = Direct \/ c = Leading \/ c = Waiting ->
    stepped s (Drop id) (with_calls (delete id (calls s)) s)
| st_evict keys : stepped s (Evict keys) (with_entries (foldl (fun m k => delete k m) (entries s) keys) s).

Lemma step_stepped s a s' : step s a = Some s' -> stepped s a s'.
Proof.
  destruct a as [k now|id|id r|id now nanos|id|keys]; cbn [flight_step].
  - destruct (lookup_entry ttl k now (entries s)) as [m [v|]] eqn:E; intros [= <-]; by constructor.
  - destruct (calls s !! id) as [[k []]|] eqn:E; try done.
    destruct (inflight s !! k) as [ws|] eqn:Ei; intros [= <-]; by constructor.
  - destruct (calls s !! id) as [[k []]|] eqn:E; try done; intros [= <-]; by constructor.
  - destruct (calls s !! id) as [[k []]|] eqn:E; try done. intros [= <-]. exact (st_settle s id k _ _ now nanos _ E eq_refl).
  - destruct (calls s !! id) as [[k []]|] eqn:E; try done; intros [= <-]; econstructor; eauto.
  - intros [= <-]. constructor.
Qed.

Lemma keys_kept s a s' : stepped s a s' -> (forall id kc, calls s !! id = Some kc -> (id < upcoming s)%nat) ->
  (upcoming s <= upcoming s')%nat /\
  (forall id k', (id < upcoming s)%nat -> key_of s' id = Some k' -> key_of s id = Some k') /\
  (forall id kc, calls s' !! id = Some kc -> (id < upcoming s')%nat).
Proof.
  intros Hs Hlt.
  assert (Hkey : forall s' id k c c', calls s !! id = Some (k, c) -> calls s' = <[id := (k, c')]> (calls s) ->
    upcoming s' = upcoming s -> (upcoming s <= upcoming s')%nat /\
    (forall id k', (id < upcoming s)%nat -> key_of s' id = Some k' -> key_of s id = Some k') /\
    (forall id kc, calls s' !! id = Some kc -> (id < upcoming s')%nat)).
  { intros s1 id k c c' Hc E Hu. rewrite Hu. split_and!; [lia| |].
    - intros i k' _. rewrite (key_of_with_call _ _ _ _ _ E); [done|]. unfold key_of. by rewrite Hc.
    - intros i kc. rewrite E. destruct (decide (i = id)) as [->|Hne]; [intros _; by eapply Hlt|].
      rewrite lookup_insert_ne by done. apply Hlt. }
  assert (Hnew : forall m k c, let s1 := mkFlight m (inflight s) (<[upcoming s := (k, c)]> (calls s)) (S (upcoming s)) in
    (upcoming s <= upcoming s1)%nat /\
    (forall id k', (id < upcoming s)%nat -> key_of s1 id = Some k' -> key_of s id = Some k') /\
    (forall id kc, calls s1 !! id = Some kc -> (id < upcoming s1)%nat)).
  { intros m k c. cbn. split_and!; [lia| |].
    - intros id k' Hid. unfold key_of. cbn. by rewrite lookup_insert_ne by lia.
    - intros id kc. destruct (decide (id = upcoming s)) as [->|Hne]; [lia|]. rewrite lookup_insert_ne by done.
      intros Hc%Hlt. lia. }
  destruct Hs as [k now m v _|k now m c _ _|id k ws Hc _|id k Hc _|id k r Hc|id k r Hc|id k r ws now nanos m Hc _|id k c Hc _|keys].
  1-2: apply Hnew.
  1-4: by eapply Hkey.
  - assert (Hk : forall i, fst <$> (answer_waiters (waiter_result backend r) ws (<[id := (k, Answered r)]> (calls s)) !! i) = key_of s i).
    { intros i. rewrite (key_of_answer (with_call id k (Answered r) s)).
      apply (key_of_with_call s (with_call id k (Answered r) s) id k (Answered r)); [done|]. unfold key_of. by rewrite Hc. }
    split_and!; [done|by intros i k' _; unfold key_of at 1; cbn; rewrite Hk|].
    intros i kc Hi. cbn in Hi |- *. pose proof (Hk i) as E. rewrite Hi in E. unfold key_of in E.
    destruct (calls s !! i) eqn:Ei; [by eapply Hlt|done].
  - split_and!; [done| |].
    + intros i k' _. unfold key_of. cbn. rewrite lookup_delete. by case_decide.
    + intros i kc. cbn. rewrite lookup_delete. case_decide; [done|]. apply Hlt.
  - split_and!; [done|done|exact Hlt].
Qed.

Lemma settling_after s a s' l k r ws : stepped s a s' -> calls s' !! l = Some (k, Settling r ws) ->
  calls s !! l = Some (k, Settling r ws) \/ (calls s !! l = Some (k, Leading) /\ ws = default [] (inflight s !! k)).
Proof.
  assert (Hins : forall id k0 c c', calls s !! id = Some (k0, c') ->
    <[id := (k0, c)]> (calls s) !! l = Some (k, Settling r ws) ->
    calls s !! l = Some (k, Settling r ws) \/ (l = id /\ k = k0 /\ c = Settling r ws)).
  { intros id k0 c c' Hc. destruct (decide (l = id)) as [->|Hne].
    - rewrite lookup_insert_eq. intros [= -> ->]. by right.
    - rewrite lookup_insert_ne by done. by left. }
  destruct 1 as [k0 now m v _|k0 now m c _ Ec|id k0 ws0 Hc _|id k0 Hc _|id k0 r0 Hc|id k0 r0 Hc|id k0 r0 ws0 now nanos m Hc _|id k0 c Hc _|keys];
    cbn; intros Hl.
  - destruct (decide (l = upcoming s)) as [->|Hne]; [by rewrite lookup_insert_eq in Hl|].
    rewrite lookup_insert_ne in Hl by done. by left.
  - destruct (decide (l = upcoming s)) as [->|Hne].
    { rewrite lookup_insert_eq in Hl. injection Hl as _ E. rewrite E in Ec. by destruct (ttl =? 0). }
    rewrite lookup_insert_ne in Hl by done. by left.
  - by destruct (Hins _ _ _ _ Hc Hl) as [?|(_ & _ & ?)]; [left|].
  - by destruct (Hins _ _ _ _ Hc Hl) as [?|(_ & _ & ?)]; [left|].
  - by destruct (Hins _ _ _ _ Hc Hl) as [?|(_ & _ & ?)]; [left|].
  - destruct (Hins _ _ _ _ Hc Hl) as [?|(-> & -> & E)]; [by left|]. injection E as -> <-. by right.
  - rewrite answer_waiters_lookup in Hl. left.
    assert (E : <[id := (k0, Answered r0)]> (calls s) !! l = Some (k, Settling r ws)).
    { destruct (<[id := (k0, Answered r0)]> (calls s) !! l) as [[k1 []]|]; try done. by case_bool_decide. }
    by destruct (Hins _ _ _ _ Hc E) as [?|(_ & _ & ?)].
  - left. rewrite lookup_delete in Hl. by case_decide.
  - by left.
Qed.

Lemma inflight_after s a s' k ws : stepped s a s' -> inflight s' !! k = Some ws ->
  inflight s !! k = Some ws \/ (exists id, calls s !! id = Some (k, Missed) /\
    (ws = [] \/ exists ws0, inflight s !! k = Some ws0 /\ ws = ws0 ++ [id])).
Proof.
  destruct 1 as [k0 now m v _|k0 now m c _ Ec|id k0 ws0 Hc Hi|id k0 Hc Hi|id k0 r0 Hc|id k0 r0 Hc|id k0 r0 ws0 now nanos m Hc _|id k0 c Hc _|keys];
    cbn; intros Hl; try (by left).
  - destruct (decide (k0 = k)) as [->|Hne].
    + rewrite lookup_insert_eq in Hl. injection Hl as <-. right. exists id. split; [done|]. right. by exists ws0.
    + rewrite lookup_insert_ne in Hl by done. by left.
  - destruct (decide (k0 = k)) as [->|Hne].
    + rewrite lookup_insert_eq in Hl. injection Hl as <-. right. exists id. split; [done|]. by left.
    + rewrite lookup_insert_ne in Hl by done. by left.
  - rewrite lookup_delete in Hl. case_decide; [done|by left].
Qed.

Lemma named_wf_step s a s' : named_wf s -> stepped s a s' -> named_wf s'.
Proof.
  intros [Hlt Hin Hse] Hs. destruct (keys_kept _ _ _ Hs Hlt) as (Hu & Hk & Hlt').
  assert (Hinflight : forall k, named s k (default [] (inflight s !! k))).
  { intros k. destruct (inflight s !! k) as [ws|] eqn:E; [by apply Hin|]. by intros id ?%elem_of_nil. }
  constructor; [exact Hlt'| |].
  - intros k ws Hl. apply (named_mono s); [done|done|].
    destruct (inflight_after _ _ _ _ _ Hs Hl) as [Hl'|(id & Hc & [->|(ws0 & Hl' & ->)])]; [by apply Hin|by intros i ?%elem_of_nil|].
    intros i [Hi|Hi%list_elem_of_singleton]%elem_of_app; [by apply (Hin _ _ Hl')|]. subst i.
    split; [by eapply Hlt|]. intros k'. unfold key_of. rewrite Hc. by intros [= ->].
  - intros l k r ws Hl. apply (named_mono s); [done|done|].
    destruct (settling_after _ _ _ _ _ _ _ Hs Hl) as [Hl'|[_ ->]]; [by eapply Hse|apply Hinflight].
Qed.

(** ** A dropped leader *)

(** The key is marked as being fetched, and nobody fetches it. *)
Record orphan (k : K) (s : Flight K V Er) : Prop := {
  or_named : named_wf s;
  or_inflight : is_Some (inflight s !! k);
  or_entry : entries s !! k = None;
  or_calls : forall id c, calls s !! id = Some (k, c) -> c = Missed \/ c = Waiting
}.

Lemma delete_all_none {X} (keys : list X) (f : X -> K) (m : gmap K (Entry V)) k :
  m !! k = None -> foldl (fun m x => delete (f x) m) m keys !! k = None.
Proof.
  revert m. induction keys as [|x keys IH]; intros m Hm; [done|]. apply IH. rewrite lookup_delete. by case_decide.
Qed.

Lemma evict_none m k : m !! k = None -> evict_oldest_tenth walk m !! k = None.
Proof. intros Hm. unfold evict_oldest_tenth. case_match; [done|]. by apply (delete_all_none _ fst). Qed.

Lemma store_entry_other k k' v now nanos m : k <> k' -> m !! k = None -> store_entry ttl cap walk k' v now nanos m !! k = None.
Proof.
  intros Hne Hm. unfold store_entry. destruct (ttl =? 0); [done|]. rewrite lookup_insert_ne by done.
  destruct (cap <=? _); [by apply evict_none|done].
Qed.

Lemma lookup_entry_none k k' now (m m' : gmap K (Entry V)) (hit : option V) : lookup_entry ttl k' now m = (m', hit) -> m !! k = None -> m' !! k = None.
Proof.
  unfold lookup_entry. intros E Hm. destruct (ttl =? 0); [by injection E as <- _|].
  destruct (m !! k') as [e|]; [|by injection E as <- _].
  destruct (now <? e_expire e); injection E as <- _; [done|]. rewrite lookup_delete. by case_decide.
Qed.

Lemma orphan_other k s id k0 c : orphan k s -> calls s !! id = Some (k0, c) -> c <> Missed -> c <> Waiting -> k0 <> k.
Proof. intros Ho Hid H1 H2 ->. by destruct (or_calls _ _ Ho _ _ Hid). Qed.

Lemma orphan_entry k s a s' : orphan k s -> stepped s a s' -> entries s' !! k = None.
Proof.
  intros Ho Hs. pose proof (or_entry _ _ Ho) as He.
  destruct Hs as [k0 now m v Hm|k0 now m c Hm Ec|id k0 ws0 Hid Hi0|id k0 Hid Hi0|id k0 r0 Hid|id k0 r0 Hid|id k0 r0 ws0 now nanos m Hid Em|id k0 c Hid Hd|keys];
    cbn; try done; try (by eapply lookup_entry_none).
  - subst m. destruct r0 as [v|e]; [|done]. apply store_entry_other; [|done].
    by apply not_eq_sym, (orphan_other _ _ _ _ _ Ho Hid).
  - by apply (delete_all_none _ id).
Qed.

Lemma orphan_calls k s a s' : ttl <> 0 -> orphan k s -> stepped s a s' ->
  forall id c, calls s' !! id = Some (k, c) -> c = Missed \/ c = Waiting.
Proof.
  intros Httl Ho Hs. pose proof Ho as [Hn Hi He Hc].
  assert (Hins : forall id k0 c, (k0 = k -> c = Missed \/ c = Waiting) ->
    forall i c', <[id := (k0, c)]> (calls s) !! i = Some (k, c') -> c' = Missed \/ c' = Waiting).
  { intros id k0 c Hk i c'. destruct (decide (i = id)) as [->|Hne].
    - rewrite lookup_insert_eq. intros [= -> ->]. by apply Hk.
    - rewrite lookup_insert_ne by done. apply Hc. }
  destruct Hs as [k0 now m v Hm|k0 now m c Hm Ec|id k0 ws0 Hid Hi0|id k0 Hid Hi0|id k0 r0 Hid|id k0 r0 Hid|id k0 r0 ws0 now nanos m Hid Em|id k0 c Hid Hd|keys]; cbn.
  - apply Hins. intros ->. unfold lookup_entry in Hm. rewrite He in Hm. by destruct (ttl =? 0).
  - apply Hins. intros ->. left. by rewrite (proj2 (Z.eqb_neq _ _) Httl) in Ec.
  - apply Hins. by right.
  - apply Hins. intros ->. rewrite Hi0 in Hi. by destruct Hi.
  - apply Hins. intros ->. by destruct (orphan_other _ _ _ _ _ Ho Hid).
  - apply Hins. intros ->. by destruct (orphan_other _ _ _ _ _ Ho Hid).
  - assert (Hk0 : k0 <> k) by by apply (orphan_other _ _ _ _ _ Ho Hid).
    intros i c'. rewrite answer_waiters_lookup. destruct (decide (i = id)) as [->|Hne].
    { rewrite lookup_insert_eq. by intros [= -> _]. }
    rewrite lookup_insert_ne by done. destruct (calls s !! i) as [[k1 c1]|] eqn:Ei; [|done].
    destruct c1; try (intros [= -> <-]; by eapply Hc). case_bool_decide as Hin; [|intros [= -> <-]; by eapply Hc].
    intros [= -> _]. destruct (nw_settling _ Hn _ _ _ _ Hid _ Hin) as [_ Hkey]. destruct Hk0.
    apply eq_sym, Hkey. unfold key_of. by rewrite Ei.
  - intros i c'. rewrite lookup_delete. case_decide; [done|]. apply Hc.
  - apply Hc.
Qed.

Lemma orphan_step k s a s' : ttl <> 0 -> orphan k s -> stepped s a s' -> orphan k s'.
Proof.
  intros Httl Ho Hs. pose proof Ho as [Hn Hi _ _]. constructor; [by eapply named_wf_step| |by eapply orphan_entry|by eapply orphan_calls].
  destruct Hs as [k0 now m v Hm|k0 now m c Hm Ec|id k0 ws0 Hid Hi0|id k0 Hid Hi0|id k0 r0 Hid|id k0 r0 Hid|id k0 r0 ws0 now nanos m Hid Em|id k0 c Hid Hd|keys];
    cbn; try done; try (rewrite lookup_insert_is_Some'; by right).
  rewrite lookup_delete_ne; [done|]. by apply (orphan_other _ _ _ _ _ Ho Hid).
Qed.

Lemma orphan_run k acts s s' : ttl <> 0 -> orphan k s -> runs acts s = Some s' -> orphan k s'.
Proof.
  intros Ht. revert s. induction acts as [|a acts IH]; intros s Ho; [by intros [= <-]|]. cbn [flight_run].
  destruct (step s a) as [s1|] eqn:E; [|done]. apply IH. by eapply orphan_step, step_stepped.
Qed.

Lemma new_named : named_wf (@Flight_new K _ HK V Er).
Proof. by constructor. Qed.

Lemma run_named acts s s' : named_wf s -> runs acts s = Some s' -> named_wf s'.
Proof.
  revert s. induction acts as [|a acts IH]; intros s Hn; [by intros [= <-]|]. cbn [flight_run].
  destruct (step s a) as [s1|] eqn:E; [|done]. apply IH. by eapply named_wf_step, step_stepped.
Qed.

(** The leader alone on its key is dropped. *)
Lemma drop_orphans k s id s' : named_wf s -> calls s !! id = Some (k, Leading) -> is_Some (inflight s !! k) ->
  entries s !! k = None -> (forall i c, i <> id -> calls s !! i = Some (k, c) -> c = Missed \/ c = Waiting) ->
  step s (Drop id) = Some s' -> orphan k s'.
Proof.
  intros Hn Hid Hi He Hc E. pose proof (step_stepped _ _ _ E) as Hs. cbn [flight_step] in E. rewrite Hid in E.
  injection E as <-. constructor; [by eapply named_wf_step|done|done|].
  intros i c. cbn. rewrite lookup_delete. case_decide; [done|]. by apply Hc.
Qed.

(** ** Leaders that stay *)

(** No act drops a leader. *)
Fixpoint leaders_stay (acts : list (Act K V Er)) (s : Flight K V Er) : Prop :=
  match acts with
  | [] => True
  | a :: acts =>
    match a with Drop id => forall k, calls s !! id <> Some (k, Leading) | _ => True end /\
    match step s a with Some s => leaders_stay acts s | None => True end
  end.

(** Every key being fetched has a leader, and every waiting call is on a list. *)
Record led (s : Flight K V Er) : Prop := {
  led_inflight : forall k, is_Some (inflight s !! k) -> exists id, calls s !! id = Some (k, Leading);
  led_waiting : forall id k, calls s !! id = Some (k, Waiting) ->
    (exists ws, inflight s !! k = Some ws /\ id ∈ ws) \/ (exists l r ws, calls s !! l = Some (k, Settling r ws) /\ id ∈ ws);
  led_one : forall i j k, calls s !! i = Some (k, Leading) -> calls s !! j = Some (k, Leading) -> i = j;
  led_marked : forall i k, calls s !! i = Some (k, Leading) -> is_Some (inflight s !! k)
}.

Lemma answer_leading r ws (c : gmap nat (K * CallState V Er)) i k :
  answer_waiters r ws c !! i = Some (k, Leading) <-> c !! i = Some (k, Leading).
Proof. rewrite answer_waiters_lookup. destruct (c !! i) as [[k1 []]|]; try done. by case_bool_decide. Qed.
Lemma answer_settling r ws (c : gmap nat (K * CallState V Er)) i k r' ws' :
  answer_waiters r ws c !! i = Some (k, Settling r' ws') <-> c !! i = Some (k, Settling r' ws').
Proof. rewrite answer_waiters_lookup. destruct (c !! i) as [[k1 []]|]; try done. by case_bool_decide. Qed.
Lemma answer_waiting r ws (c : gmap nat (K * CallState V Er)) i k :
  answer_waiters r ws c !! i = Some (k, Waiting) <-> c !! i = Some (k, Waiting) /\ i ∉ ws.
Proof. rewrite answer_waiters_lookup. destruct (c !! i) as [[k1 []]|]; try naive_solver. case_bool_decide; naive_solver. Qed.

Lemma fresh_call s : named_wf s -> calls s !! upcoming s = None.
Proof. intros Hn. destruct (calls s !! upcoming s) eqn:E; [|done]. apply (nw_calls _ Hn) in E. lia. Qed.

(** A step that changes one call from [c] to [c'], none of them about leading or
    waiting, and keeps the lists. *)
Lemma led_quiet s s' i k c' : led s -> inflight s' = inflight s -> calls s' = <[i := (k, c')]> (calls s) ->
  (calls s !! i = None \/ calls s !! i = Some (k, Direct)) -> c' = Direct \/ c' = Missed \/ (exists r, c' = Answered r) -> led s'.
Proof.
  intros [H1 H2 H3 H4] Ei Ec Hi Hc'.
  assert (Hkeep : forall j k1 c1, calls s !! j = Some (k1, c1) -> c1 <> Direct -> calls s' !! j = Some (k1, c1)).
  { intros j k1 c1 Hj Hc1. rewrite Ec, lookup_insert_ne; [done|]. intros ->. destruct Hi as [Hi|Hi]; congruence. }
  assert (Hback : forall j k1 c1, calls s' !! j = Some (k1, c1) -> c1 = Leading \/ c1 = Waiting -> calls s !! j = Some (k1, c1)).
  { intros j k1 c1. rewrite Ec, lookup_insert. case_decide; [|done]. intros [= -> ->] [-> | ->];
    by destruct Hc' as [?|[?|[? ?]]]. }
  constructor.
  - intros k1. rewrite Ei. intros [j Hj]%H1. exists j. by apply Hkeep.
  - intros j k1 Hj. rewrite Ei. destruct (H2 _ _ (Hback _ _ _ Hj (or_intror eq_refl))) as [?|(l & r & ws & Hl & Hin)]; [by left|].
    right. exists l, r, ws. split; [by apply Hkeep|done].
  - intros a b k1 Ha Hb. eapply H3; [by apply Hback; [|left]|by apply Hback; [|left]].
  - intros j k1 Hj. rewrite Ei. eapply H4. by apply Hback; [|left].
Qed.

Ltac look := repeat match goal with
  | H : <[_ := _]> _ !! _ = _ |- _ => rewrite lookup_insert in H; case_decide; simplify_eq
  | H : is_Some (<[_ := _]> _ !! _) |- _ => rewrite lookup_insert in H; case_decide; simplify_eq
  | H : delete _ _ !! _ = _ |- _ => rewrite lookup_delete in H; case_decide; simplify_eq
  | H : is_Some (delete _ _ !! _) |- _ => rewrite lookup_delete in H; case_decide; simplify_eq
  end.

Lemma led_wait s id k ws : led s -> calls s !! id = Some (k, Missed) -> inflight s !! k = Some ws ->
  led (with_inflight (<[k := ws ++ [id]]> (inflight s)) (with_call id k Waiting s)).
Proof.
  intros [H1 H2 H3 H4] Hc Hi.
  assert (Hkeep : forall j k1 c1, calls s !! j = Some (k1, c1) -> c1 <> Missed -> <[id := (k, Waiting)]> (calls s) !! j = Some (k1, c1)).
  { intros j k1 c1 Hj Hc1. rewrite lookup_insert_ne; [done|]. congruence. }
  constructor; cbn.
  - intros k1 Hk. assert (Hs : is_Some (inflight s !! k1)) by (look; [by rewrite Hi|done]).
    destruct (H1 _ Hs) as [j Hj]. exists j. by apply Hkeep.
  - intros j k1 Hj. look.
    + left. exists (ws ++ [j]). rewrite lookup_insert_eq. split; [done|]. set_solver.
    + destruct (H2 _ _ Hj) as [(ws1 & Hw & Hin)|(l & r & ws1 & Hl & Hin)].
      * left. destruct (decide (k1 = k)) as [->|Hne].
        -- exists (ws ++ [id]). rewrite lookup_insert_eq. split; [done|]. simplify_eq. set_solver.
        -- exists ws1. by rewrite lookup_insert_ne.
      * right. exists l, r, ws1. split; [by apply Hkeep|done].
  - intros a b k1 Ha Hb. look. by eapply H3.
  - intros j k1 Hj. look. rewrite lookup_insert_is_Some'. right. by eapply H4.
Qed.

Lemma led_lead s id k : led s -> calls s !! id = Some (k, Missed) -> inflight s !! k = None ->
  led (with_inflight (<[k := []]> (inflight s)) (with_call id k Leading s)).
Proof.
  intros [H1 H2 H3 H4] Hc Hi.
  assert (Hkeep : forall j k1 c1, calls s !! j = Some (k1, c1) -> c1 <> Missed -> <[id := (k, Leading)]> (calls s) !! j = Some (k1, c1)).
  { intros j k1 c1 Hj Hc1. rewrite lookup_insert_ne; [done|]. congruence. }
  assert (Hnone : forall j, calls s !! j <> Some (k, Leading)).
  { intros j Hj. apply H4 in Hj. rewrite Hi in Hj. by destruct Hj. }
  constructor; cbn.
  - intros k1 Hk. look; [exists id; by rewrite lookup_insert_eq|]. destruct (H1 _ Hk) as [j Hj]. exists j. by apply Hkeep.
  - intros j k1 Hj. look. destruct (H2 _ _ Hj) as [(ws1 & Hw & Hin)|(l & r & ws1 & Hl & Hin)].
    + left. exists ws1. rewrite lookup_insert_ne by congruence. done.
    + right. exists l, r, ws1. split; [by apply Hkeep|done].
  - intros a b k1 Ha Hb. look; try done; try (exfalso; by eapply Hnone). by eapply H3.
  - intros j k1 Hj. rewrite lookup_insert_is_Some'. look; [by left|]. right. by eapply H4.
Qed.

Lemma led_fetched s id k r : led s -> calls s !! id = Some (k, Leading) ->
  led (with_inflight (delete k (inflight s)) (with_call id k (Settling r (default [] (inflight s !! k))) s)).
Proof.
  intros [H1 H2 H3 H4] Hc. set (ws0 := default [] (inflight s !! k)).
  constructor; cbn.
  - intros k1 Hk. look; [by destruct Hk|]. destruct (H1 _ Hk) as [j Hj]. exists j.
    rewrite lookup_insert_ne; [done|]. intros ->. congruence.
  - intros j k1 Hj. look. destruct (H2 _ _ Hj) as [(ws1 & Hw & Hin)|(l & r1 & ws1 & Hl & Hin)].
    + destruct (decide (k1 = k)) as [->|Hne].
      * right. exists id, r, ws0. rewrite lookup_insert_eq. split; [done|]. unfold ws0. by rewrite Hw.
      * left. exists ws1. by rewrite lookup_delete_ne.
    + right. exists l, r1, ws1. rewrite lookup_insert_ne; [done|]. congruence.
  - intros a b k1 Ha Hb. look. by eapply H3.
  - intros j k1 Hj. look. destruct (decide (k1 = k)) as [->|Hne]; [by destruct (H3 _ _ _ Hc Hj)|].
    rewrite lookup_delete_ne by done. by eapply H4.
Qed.

Lemma led_settle s id k r r' ws m : led s -> calls s !! id = Some (k, Settling r ws) ->
  led (mkFlight m (inflight s) (answer_waiters r' ws (<[id := (k, Answered r)]> (calls s))) (upcoming s)).
Proof.
  intros [H1 H2 H3 H4] Hc. constructor; cbn.
  - intros k1 Hk. destruct (H1 _ Hk) as [j Hj]. exists j. rewrite answer_leading, lookup_insert_ne; [done|]. congruence.
  - intros j k1 [Hj Hnin]%answer_waiting. look. destruct (H2 _ _ Hj) as [?|(l & r1 & ws1 & Hl & Hin)]; [by left|].
    right. exists l, r1, ws1. rewrite answer_settling, lookup_insert_ne; [done|]. intros ->. congruence.
  - intros a b k1 Ha%answer_leading Hb%answer_leading. look. by eapply H3.
  - intros j k1 Hj%answer_leading. look. by eapply H4.
Qed.

Lemma led_drop s id k c : led s -> calls s !! id = Some (k, c) -> c = Direct \/ c = Waiting -> led (with_calls (delete id (calls s)) s).
Proof.
  intros [H1 H2 H3 H4] Hc Hd. constructor; cbn.
  - intros k1 Hk. destruct (H1 _ Hk) as [j Hj]. exists j. rewrite lookup_delete_ne; [done|]. intros ->. destruct Hd; congruence.
  - intros j k1 Hj. look. destruct (H2 _ _ Hj) as [?|(l & r1 & ws1 & Hl & Hin)]; [by left|].
    right. exists l, r1, ws1. rewrite lookup_delete_ne; [done|]. intros ->. destruct Hd; congruence.
  - intros a b k1 Ha Hb. look. by eapply H3.
  - intros j k1 Hj. look. by eapply H4.
Qed.

Lemma led_step s a s' : named_wf s -> led s -> match a with Drop id => forall k, calls s !! id <> Some (k, Leading) | _ => True end ->
  stepped s a s' -> led s'.
Proof.
  intros Hn Hl Ha Hs. pose proof (fresh_call _ Hn) as Hf.
  destruct Hs as [k0 now m v Hm|k0 now m c Hm Ec|id k0 ws0 Hid Hi0|id k0 Hid Hi0|id k0 r0 Hid|id k0 r0 Hid|id k0 r0 ws0 now nanos m Hid Em|id k0 c Hid Hd|keys].
  - apply (led_quiet s _ (upcoming s) k0 (Answered (Ok v))); eauto.
  - apply (led_quiet s _ (upcoming s) k0 c); auto. subst c. destruct (ttl =? 0); auto.
  - by apply led_wait.
  - by apply led_lead.
  - apply (led_quiet s _ id k0 (Answered r0)); eauto.
  - by apply led_fetched.
  - by eapply led_settle.
  - eapply led_drop; [done|done|]. destruct Hd as [?|[->|?]]; [by left|by destruct (Ha k0)|by right].
  - by destruct Hl.
Qed.

Lemma led_run acts s s' : named_wf s -> led s -> leaders_stay acts s -> runs acts s = Some s' -> led s'.
Proof.
  revert s. induction acts as [|a acts IH]; intros s Hn Hl; [by intros _ [= <-]|]. cbn [flight_run leaders_stay].
  intros [Ha Hs]. destruct (step s a) as [s1|] eqn:E; [|done]. apply step_stepped in E.
  apply IH; [by eapply named_wf_step|by eapply led_step|done].
Qed.

Lemma new_led : led (@Flight_new K _ HK V Er).
Proof. constructor; try done. intros k Hk. cbn in Hk. rewrite lookup_empty in Hk. by destruct Hk. Qed.

(** The settling of its leader answers a waiting call. *)
Lemma settle_answers s id k l r ws now nanos : calls s !! id = Some (k, Waiting) -> calls s !! l = Some (k, Settling r ws) -> id ∈ ws ->
  exists s', step s (Settle l now nanos) = Some s' /\ calls s' !! id = Some (k, Answered (waiter_result backend r)).
Proof.
  intros Hid Hl Hin. cbn [flight_step]. rewrite Hl. eexists. split; [done|]. cbn. rewrite answer_waiters_lookup.
  rewrite lookup_insert_ne by congruence. rewrite Hid. by rewrite bool_decide_eq_true_2.
Qed.

(** ** What is cached *)

Lemma run_app acts acts' s : runs (acts ++ acts') s = (runs acts s ≫= runs acts').
Proof.
  revert s. induction acts as [|a acts IH]; intros s; [done|]. cbn [app flight_run].
  destruct (step s a) as [s1|]; [|done]. apply IH.
Qed.

Lemma delete_all_some {X} (keys : list X) (f : X -> K) (m : gmap K (Entry V)) k e :
  foldl (fun m x => delete (f x) m) m keys !! k = Some e -> m !! k = Some e /\ k ∉ (f <$> keys).
Proof.
  revert m. induction keys as [|x keys IH]; intros m; cbn [foldl]; [set_solver|].
  intros [Hm Hk]%IH. rewrite lookup_delete in Hm. case_decide; [done|]. split; [done|]. rewrite fmap_cons. set_solver.
Qed.

Lemma entry_after s a s' k e : stepped s a s' -> entries s' !! k = Some e ->
  (entries s !! k = Some e /\ forall keys, a = Evict keys -> k ∉ keys) \/
  exists id now nanos v ws, a = Settle id now nanos /\ calls s !! id = Some (k, Settling (Ok v) ws) /\
    e = mkEntry v (now + jittered_ttl ttl nanos).
Proof.
  assert (Hl : forall k0 now (m : gmap K (Entry V)) (hit : option V), lookup_entry ttl k0 now (entries s) = (m, hit) ->
    m !! k = Some e -> entries s !! k = Some e).
  { intros k0 now m hit E Hm. destruct (entries s !! k) eqn:En; [|by rewrite (lookup_entry_none _ _ _ _ _ _ E En) in Hm].
    unfold lookup_entry in E. destruct (ttl =? 0); [by injection E as <- _; congruence|].
    destruct (entries s !! k0) as [e1|]; [|by injection E as <- _; congruence].
    destruct (now <? e_expire e1); injection E as <- _; [congruence|]. rewrite lookup_delete in Hm. by case_decide; congruence. }
  destruct 1 as [k0 now m v Hm|k0 now m c Hm Ec|id k0 ws0 Hid Hi0|id k0 Hid Hi0|id k0 r0 Hid|id k0 r0 Hid|id k0 r0 ws0 now nanos m Hid Em|id k0 c Hid Hd|keys];
    cbn; intros He; try (left; split; [done|congruence]); try (left; split; [by eapply Hl|congruence]).
  - subst m. destruct r0 as [v|er]; [|left; split; [done|congruence]]. unfold store_entry in He.
    destruct (ttl =? 0); [left; split; [done|congruence]|]. rewrite lookup_insert in He. case_decide as Hk.
    + right. subst k0. injection He as <-. by exists id, now, nanos, v, ws0.
    + left. split; [|congruence]. destruct (cap <=? _); [|done]. unfold evict_oldest_tenth in He.
      destruct (_ =? 0); [done|]. by apply (delete_all_some _ fst) in He as [He _].
  - left. apply (delete_all_some _ (fun x => x)) in He as [He Hk]. split; [done|]. intros keys' [= ->].
    by rewrite list_fmap_id in Hk.
Qed.

(** The value was settled by a leader of the key, at [now] with these nanoseconds, and
    no write of the key came since. *)
Definition settled (acts : list (Act K V Er)) (k : K) (v : V) (now nanos : Z) : Prop :=
  exists pre id post s0 ws, acts = pre ++ Settle id now nanos :: post /\ runs pre Flight_new = Some s0 /\
    calls s0 !! id = Some (k, Settling (Ok v) ws) /\ forall keys, Evict keys ∈ post -> k ∉ keys.

Lemma entry_settled acts s k e : runs acts Flight_new = Some s -> entries s !! k = Some e ->
  exists now nanos, settled acts k (e_value e) now nanos /\ e_expire e = now + jittered_ttl ttl nanos.
Proof.
  revert s. induction acts as [|a acts IH] using rev_ind; intros s Hr He.
  { injection Hr as <-. cbn in He. by rewrite lookup_empty in He. }
  rewrite run_app in Hr. destruct (runs acts Flight_new) as [s1|] eqn:E1; [|done].
  cbn [mbind option_bind flight_run] in Hr. destruct (step s1 a) as [s2|] eqn:E2; [|done].
  injection Hr as <-. apply step_stepped in E2.
  destruct (entry_after _ _ _ _ _ E2 He) as [[He' Hev]|(id & now & nanos & v & ws & -> & Hid & ->)].
  - destruct (IH _ eq_refl He') as (now & nanos & (pre & id & post & s0 & ws & -> & Hp & Hid & Hk) & Hx).
    exists now, nanos. split; [|done]. exists pre, id, (post ++ [a]), s0, ws. split_and!; [by rewrite <- app_assoc|done|done|].
    intros keys [Hin|Hin%list_elem_of_singleton]%elem_of_app; [by apply Hk|by apply Hev].
  - exists now, nanos. split; [|done]. exists acts, id, [], s1, ws. split_and!; [done|done|done|]. by intros keys ?%elem_of_nil.
Qed.

Lemma hit_entry s k now s' v : step s (Look k now) = Some s' -> calls s' !! upcoming s = Some (k, Answered (Ok v)) ->
  exists e, entries s !! k = Some e /\ now < e_expire e /\ v = e_value e.
Proof.
  cbn [flight_step]. unfold lookup_entry. destruct (ttl =? 0).
  { intros [= <-]. cbn. by rewrite lookup_insert_eq. }
  destruct (entries s !! k) as [e|]; [|intros [= <-]; cbn; by rewrite lookup_insert_eq].
  destruct (Z.ltb_spec now (e_expire e)); intros [= <-]; cbn; rewrite lookup_insert_eq; [|done].
  intros [= <-]. by exists e.
Qed.
End flight.

Lemma jittered_range base nanos : 5 <= base -> 0 <= nanos ->
  base - base * 20 / 100 <= jittered_ttl base nanos <= base + base * 20 / 100.
Proof.
  intros Hb Hn. unfold jittered_ttl. rewrite (proj2 (Z.eqb_neq _ _)) by lia. cbv zeta.
  assert (Hs : 1 <= base * 20 / 100) by (apply Z.div_le_lower_bound; lia). rewrite (Z.max_l (base * 20 / 100) 1) by lia.
  pose proof (Z.mod_pos_bound nanos (base * 20 / 100 * 2 + 1)).
  assert (base * 20 / 100 <= base - 1) by (apply Z.div_le_upper_bound; lia). lia.
Qed.

(** ** Properties *)

(** A dropped leader blocks its key for good.  A call that misses and leads its key,
    and is then dropped while it waits for the directory, as the time limit around
    the checks of a talk drops it, leaves the key marked as being fetched: whatever
    calls, answers, writes and drops follow, no call of that key is ever answered.  *)
Theorem dropped_leader_blocks {K V Er : Type} `{Countable K} (backend : Er -> Er) (ttl cap : Z)
  (walk : gmap K (Entry V) -> list (K * Entry V)) (k : K) (now : Z) (acts : list (Act K V Er)) (s : Flight K V Er)
  (Httl : 0 < ttl)
  (Hrun : flight_run backend ttl cap walk (Look k now :: Join 0%nat :: Drop 0%nat :: acts) Flight_new = Some s) :
  forall id r, calls s !! id <> Some (k, Answered r).
Proof.
  set (s2 := with_inflight {[k := []]} (with_call 0 k Leading
    (mkFlight ∅ ∅ {[0%nat := (k, Missed)]} 1%nat)) : Flight K V Er).
  assert (E : flight_run backend ttl cap walk [Look k now; Join 0%nat] Flight_new = Some s2).
  { cbn. unfold lookup_entry. rewrite (proj2 (Z.eqb_neq _ _)) by lia. cbn. rewrite lookup_empty. cbn.
    rewrite lookup_insert_eq. cbn. by rewrite lookup_empty. }
  change (Look k now :: ?x :: ?l) with ([Look k now; x] ++ l) in Hrun. rewrite run_app, E in Hrun.
  cbn [mbind option_bind flight_run] in Hrun.
  destruct (flight_step backend ttl cap walk s2 (Drop 0%nat)) as [s3|] eqn:E3; [|done].
  assert (Ho : orphan k s3).
  { eapply drop_orphans; [exact (run_named _ _ _ _ _ _ _ new_named E)|..|exact E3].
    - unfold s2. cbn. by rewrite lookup_insert_eq.
    - unfold s2. cbn. rewrite lookup_singleton_eq. by eexists.
    - unfold s2. cbn. by rewrite lookup_empty.
    - intros i c Hi. unfold s2. cbn. rewrite lookup_insert_ne, lookup_singleton_ne by done. done. }
  intros id r Hid. pose proof (orphan_run _ _ _ _ _ _ _ _ (not_eq_sym (Z.lt_neq _ _ Httl)) Ho Hrun) as Hf.
  by destruct (or_calls _ _ Hf _ _ Hid).
Qed.

(** A waiting call can always be answered, unless a leader is dropped: after any
    history that drops none, the leader of its key is asking or has been answered,
    and once it settles the call has the answer, or the text of the error. *)
Theorem waiting_call_answered {K V Er : Type} `{Countable K} (backend : Er -> Er) (ttl cap : Z)
  (walk : gmap K (Entry V) -> list (K * Entry V)) (acts : list (Act K V Er)) (s : Flight K V Er) (id : nat) (k : K)
  (Hrun : flight_run backend ttl cap walk acts Flight_new = Some s)
  (Hstay : leaders_stay backend ttl cap walk acts Flight_new)
  (Hid : calls s !! id = Some (k, Waiting)) :
  exists l, (calls s !! l = Some (k, Leading) /\ forall r now nanos, exists s',
      flight_run backend ttl cap walk [Fetched l r; Settle l now nanos] s = Some s' /\
      calls s' !! id = Some (k, Answered (waiter_result backend r))) \/
    (exists r ws, calls s !! l = Some (k, Settling r ws) /\ forall now nanos, exists s',
      flight_run backend ttl cap walk [Settle l now nanos] s = Some s' /\
      calls s' !! id = Some (k, Answered (waiter_result backend r))).
Proof.
  pose proof (led_run _ _ _ _ _ _ _ new_named new_led Hstay Hrun) as Hl.
  pose proof (run_named _ _ _ _ _ _ _ new_named Hrun) as Hn.
  destruct (led_waiting _ Hl _ _ Hid) as [(ws & Hi & Hin)|(l & r & ws & Hs & Hin)].
  - destruct (led_inflight _ Hl k) as [l Hlead]; [by eexists|]. exists l. left. split; [done|]. intros r now nanos.
    set (s1 := with_inflight (delete k (inflight s)) (with_call l k (Settling r ws) s)).
    assert (E : flight_step backend ttl cap walk s (Fetched l r) = Some s1) by (cbn; by rewrite Hlead, Hi).
    destruct (settle_answers backend ttl cap walk s1 id k l r ws now nanos) as (s' & E' & Ha).
    + cbn. rewrite lookup_insert_ne; [done|congruence].
    + cbn. by rewrite lookup_insert_eq.
    + done.
    + exists s'. cbn [flight_run]. rewrite E. cbn [mbind option_bind]. by rewrite E'.
  - assert (Hk : forall k', k' = k -> k' = k) by done. exists l. right.
    destruct (nw_settling _ Hn _ _ _ _ Hs _ Hin) as [_ Hkey].
    exists r, ws. split; [done|]. intros now nanos.
    destruct (settle_answers backend ttl cap walk s id k l r ws now nanos Hid Hs Hin) as (s' & E' & Ha).
    exists s'. cbn [flight_run]. by rewrite E'.
Qed.

(** A cached answer is recent: it was settled for the same key by a call that asked
    the directory, less than six fifths of the time to live ago, and no write of the
    key came in between. *)
Theorem cached_answer_recent {K V Er : Type} `{Countable K} (backend : Er -> Er) (ttl cap : Z)
  (walk : gmap K (Entry V) -> list (K * Entry V)) (acts : list (Act K V Er)) (s s' : Flight K V Er) (k : K) (now : Z) (v : V)
  (Httl : 5 <= ttl) (Hnanos : forall id t nanos, Settle id t nanos ∈ acts -> 0 <= nanos)
  (Hrun : flight_run backend ttl cap walk acts Flight_new = Some s)
  (Hlook : flight_step backend ttl cap walk s (Look k now) = Some s')
  (Hhit : calls s' !! upcoming s = Some (k, Answered (Ok v))) :
  exists t nanos, settled backend ttl cap walk acts k v t nanos /\ now < t + ttl + ttl * 20 / 100.
Proof.
  destruct (hit_entry _ _ _ _ _ _ _ _ _ Hlook Hhit) as (e & He & Hlt & ->).
  destruct (entry_settled _ _ _ _ _ _ _ _ Hrun He) as (t & nanos & Hs & Hx). exists t, nanos. split; [done|].
  destruct Hs as (pre & id & post & s0 & ws & -> & _). pose proof (Hnanos id t nanos ltac:(set_solver)) as Hn.
  pose proof (jittered_range ttl nanos Httl Hn). lia.
Qed.

(** ** A concrete cache *)

Section demo.
Definition demo_key : UserKey := ("k", "a")%string.
Definition demo_presence : UserPresence := mkUserPresence true 0 "".
Definition demo_walk (m : gmap UserKey (Entry UserPresence)) : list (UserKey * Entry UserPresence) := map_to_list m.
Abbreviation demo_run := (flight_run user_directory_backend DEFAULT_TTL DEFAULT_CAP demo_walk).

(** Two lookups of an account; the first is dropped by its time limit. *)
Definition demo_blocked : list (Act UserKey UserPresence UserError) :=
  [Look demo_key 0; Join 0%nat; Drop 0%nat; Look demo_key 900; Join 1%nat; Look demo_key 60000000].
Definition demo_shared : list (Act UserKey UserPresence UserError) :=
  [Look demo_key 0; Join 0%nat; Look demo_key 1; Join 1%nat].
Definition demo_answers : list (Act UserKey UserPresence UserError) :=
  demo_shared ++ [Fetched 0%nat (Ok demo_presence); Settle 0%nat 10 7].

Definition final_blocked : Flight UserKey UserPresence UserError :=
  Eval vm_compute in default Flight_new (demo_run demo_blocked Flight_new).
Definition final_shared : Flight UserKey UserPresence UserError :=
  Eval vm_compute in default Flight_new (demo_run demo_shared Flight_new).
Definition final_answers : Flight UserKey UserPresence UserError :=
  Eval vm_compute in default Flight_new (demo_run demo_answers Flight_new).
Definition final_hit : Flight UserKey UserPresence UserError :=
  Eval vm_compute in default Flight_new (demo_run (demo_answers ++ [Look demo_key 20000]) Flight_new).

Lemma demo_blocked_runs : demo_run demo_blocked Flight_new = Some final_blocked.
Proof. vm_compute. reflexivity. Qed.
Lemma demo_shared_runs : demo_run demo_shared Flight_new = Some final_shared.
Proof. vm_compute. reflexivity. Qed.
Lemma demo_answers_runs : demo_run demo_answers Flight_new = Some final_answers.
Proof. vm_compute. reflexivity. Qed.

Lemma dropped_leader_blocks_witness : calls final_blocked !! 1%nat = Some (demo_key, Waiting) /\
  forall id r, calls final_blocked !! id <> Some (demo_key, Answered r).
Proof.
  split; [vm_compute; reflexivity|].
  apply (dropped_leader_blocks user_directory_backend DEFAULT_TTL DEFAULT_CAP demo_walk demo_key 0
    [Look demo_key 900; Join 1%nat; Look demo_key 60000000]);
    [reflexivity|exact demo_blocked_runs].
Defined.

Lemma waiting_call_answered_witness : exists l, (calls final_shared !! l = Some (demo_key, Leading) /\ forall r now nanos, exists s',
      demo_run [Fetched l r; Settle l now nanos] final_shared = Some s' /\
      calls s' !! 1%nat = Some (demo_key, Answered (waiter_result user_directory_backend r))) \/
    (exists r ws, calls final_shared !! l = Some (demo_key, Settling r ws) /\ forall now nanos, exists s',
      demo_run [Settle l now nanos] final_shared = Some s' /\
      calls s' !! 1%nat = Some (demo_key, Answered (waiter_result user_directory_backend r))).
Proof.
  apply (waiting_call_answered user_directory_backend DEFAULT_TTL DEFAULT_CAP demo_walk demo_shared final_shared 1 demo_key
    demo_shared_runs); [vm_compute; intuition|vm_compute; reflexivity].
Defined.

Lemma cached_answer_recent_witness : exists t nanos,
  settled user_directory_backend DEFAULT_TTL DEFAULT_CAP demo_walk demo_answers demo_key demo_presence t nanos /\ 20000 < t + 30000 + 30000 * 20 / 100.
Proof.
  apply (cached_answer_recent user_directory_backend DEFAULT_TTL DEFAULT_CAP demo_walk demo_answers final_answers final_hit demo_key 20000 demo_presence).
  - by vm_compute.
  - intros id t nanos Hin. unfold demo_answers, demo_shared in Hin. cbn in Hin. set_unfold in Hin. naive_solver lia.
  - exact demo_answers_runs.
  - vm_compute. reflexivity.
  - vm_compute. reflexivity.
Defined.
End demo.
