(* ===== verification/Presence.v ===== *)
(** Presence: services/chat/src/presence.rs.

    The hub tells the viewers of a conversation when an account appears or is gone.
    The two calls of the sign-in and sign-out handlers and the two tasks they spawn are
    programs over [PresEff]: the awaited calls of the handlers, the clearing of the
    interest of a channel, sleeping, spawning, and the short accesses to the table of
    generations that cancels a pending announcement. *)

From S2P Require Import Prelude Prog Judge Wire Pkt Msgs Location SessionStore Store Social Groups Users Interest AgentStore Effects Router BotCmds.
From stdpp Require Import gmap.
Open Scope Z_scope.
Open Scope kim_scope.

(** Milliseconds. *)
Definition DEFAULT_OFFLINE_DEBOUNCE : Z := 45000.
Definition RECONNECT_POLL : Z := 100.

(** The environment variable with its parse as [u64]. *)
Definition offline_debounce (var : option string) (parse : string -> option Z) : Z :=
  match var with
  | Some s => match parse (str_trim s) with Some ms => if 0 <? ms then ms else DEFAULT_OFFLINE_DEBOUNCE | None => DEFAULT_OFFLINE_DEBOUNCE end
  | None => DEFAULT_OFFLINE_DEBOUNCE
  end.

Inductive Task : Type :=
| ReconnectTask (app account : string)
| DebounceTask (app account : string) (gen : Z).

Inductive PresEff : Type -> Type :=
| PCall {X : Type} (e : Eff X) : PresEff X
| PClear (app account channel : string) : PresEff (result unit InterestError)
| PBump (key : string) : PresEff Z
| PGen (key : string) : PresEff (option Z)
| PRemove (key : string) (gen : Z) : PresEff unit
| PSleep (ms : Z) : PresEff unit
| PSpawn (t : Task) : PresEff unit.
Abbreviation PresProg := (Prog PresEff).

Definition gen_key (app account : string) : string := (app ++ ":" ++ account)%string.
Definition bump_gen (app account : string) : PresProg Z := call (PBump (gen_key app account)).

(** The channels of each viewer, in the order of the viewers. *)
Definition viewer_step (m : gmap string (list string)) (v : ViewerRef) : gmap string (list string) :=
  <[vr_account v := default [] (m !! vr_account v) ++ [vr_channel_id v]]> m.
Definition by_account (vs : list ViewerRef) : gmap string (list string) := foldl viewer_step ∅ vs.

Definition presence_body (account : string) (status last_seen : Z) : PresencePush :=
  mkPresencePush [mkPresence account status last_seen].
(** The receivers among a viewer's locations. *)
Definition wanted (channels : list string) (locs : list Location) : list Location :=
  List.filter (fun l => bool_decide (channel_str (loc_channel_id l) ∈ channels)) locs.

Section presence.
Context `{Prost}.
Context (debounce : Z).
(** The order in which the map of viewers is walked. *)
Context (walk : gmap string (list string) -> list (string * list string)).

Fixpoint fanout_to (body : PresencePush) (viewers : list (string * list string)) : PresProg unit :=
  match viewers with
  | [] => Ret tt
  | (viewer, channels) :: viewers =>
    r ← call (PCall (EListLocations (mkAccountId viewer)));
    _ ← (match r with
         | Ok locs =>
           match wanted channels locs with
           | [] => Ret tt
           | recvs => _ ← hoist (@PCall) (notify_locations "" CMD_PRESENCE body recvs); Ret tt
           end
         | Err _ => Ret tt
         end : PresProg unit);
    fanout_to body viewers
  end.

Definition fanout (app account : string) (status last_seen : Z) : PresProg unit :=
  r ← call (PCall (EViewers app account INBOX_KIND_USER));
  match r with
  | Err _ => Ret tt
  | Ok [] => Ret tt
  | Ok vs => fanout_to (presence_body account status last_seen) (walk (by_account vs))
  end.

Definition listed (account : string) : PresProg (option (list Location)) :=
  r ← call (PCall (EListLocations (mkAccountId account)));
  Ret (match r with Ok locs => Some locs | Err NotFound => Some [] | Err _ => None end).

Definition on_location_added (app account : string) : PresProg unit :=
  _ ← bump_gen app account;
  r ← listed account;
  match r with
  | None => Ret tt
  | Some [_] => fanout app account PRESENCE_ONLINE 0
  | Some [] => Ret tt
  | Some _ => call (PSpawn (ReconnectTask app account))
  end.

Fixpoint poll (rounds : nat) (app account : string) : PresProg unit :=
  match rounds with
  | O => Ret tt
  | S rounds =>
    _ ← call (PSleep (RECONNECT_POLL / 10));
    r ← call (PCall (EListLocations (mkAccountId account)));
    match r with
    | Ok [_] => fanout app account PRESENCE_ONLINE 0
    | Ok (_ :: _ :: _) => poll rounds app account
    | Ok [] => Ret tt
    | Err _ => Ret tt
    end
  end.
Definition reconnect_task (app account : string) : PresProg unit := poll 10 app account.

Definition on_location_removed (app account channel_id : string) : PresProg unit :=
  _ ← call (PClear app account channel_id);
  r ← listed account;
  match r with
  | None => Ret tt
  | Some (_ :: _) => _ ← bump_gen app account; Ret tt
  | Some [] =>
    gen ← bump_gen app account;
    call (PSpawn (DebounceTask app account gen))
  end.

Definition debounce_task (app account : string) (gen : Z) : PresProg unit :=
  _ ← call (PSleep debounce);
  g ← call (PGen (gen_key app account));
  _ ← (if default 0 g =? gen then
         r ← call (PCall (EListLocations (mkAccountId account)));
         match r with
         | Ok [] | Err NotFound =>
           now ← call (PCall ENow);
           fanout app account PRESENCE_OFFLINE now
         | _ => Ret tt
         end
       else Ret tt : PresProg unit);
  call (PRemove (gen_key app account) gen).

Definition run_task (t : Task) : PresProg unit :=
  match t with
  | ReconnectTask app account => reconnect_task app account
  | DebounceTask app account gen => debounce_task app account gen
  end.
End presence.

(** ** The table of generations *)

Definition gens_access {X} (e : PresEff X) (g : gmap string Z) : option (gmap string Z * X) :=
  match e in PresEff X return option (gmap string Z * X) with
  | PBump key => let n := default 0 (g !! key) + 1 in Some (<[key := n]> g, n)
  | PGen key => Some (g, g !! key)
  | PRemove key gen => Some (if decide (g !! key = Some gen) then delete key g else g, tt)
  | _ => None
  end.

(** ** What is announced to whom *)

Section spec.
Context `{Prost} (debounce : Z).
Context (walk : gmap string (list string) -> list (string * list string)).
Context (walk_ok : forall m, walk m ≡ₚ map_to_list m).

Abbreviation PEvent := (EventOf PresEff).

(** The account was found gone: its generation was unchanged after the debounce, and
    no location of it was listed then. *)
Definition gone (app account : string) (pre : list PEvent) : Prop :=
  exists gen g r rest, pre = Ev (PSleep debounce) tt :: Ev (PGen (gen_key app account)) g ::
      Ev (PCall (EListLocations (mkAccountId account))) r :: rest /\
    default 0 g = gen /\ (r = Ok [] \/ r = Err NotFound).

Definition presence_packet (body : PresencePush) : LogicPkt :=
  let packet := LogicPkt_new CMD_PRESENCE 0 [] in
  write_body (mkLogicPkt (h_with_flag PushFlag (l_header packet)) (l_body packet)) body.

(** A push of presence that is due. *)
Definition told (pre : list PEvent) (gate : GatewayId) (ids : list ChannelId) (packet : LogicPkt) : Prop :=
  exists app account status last_seen vs viewer locs,
    packet = presence_packet (presence_body account status last_seen) /\
    ((status = PRESENCE_ONLINE /\ last_seen = 0) \/ (status = PRESENCE_OFFLINE /\ gone app account pre)) /\
    Ev (PCall (EViewers app account INBOX_KIND_USER)) (Ok vs) ∈ pre /\
    Ev (PCall (EListLocations (mkAccountId viewer))) (Ok locs) ∈ pre /\
    forall ch, ch ∈ ids -> mkViewerRef viewer (channel_str ch) ∈ vs /\
      exists loc, loc ∈ locs /\ loc_gate_id loc = gate /\ loc_channel_id loc = ch.

Definition due (pre : list PEvent) (ev : PEvent) : Prop :=
  match ev with Ev (PCall (EPush gate ids packet)) _ => told pre gate ids packet | _ => True end.

Abbreviation hub_judge := (judge Judge.history (fun pre ev _ => due pre ev)).

Lemma by_account_lookup vs a : by_account vs !! a =
  match List.filter (fun v => bool_decide (vr_account v = a)) vs with
  | [] => None
  | l => Some (vr_channel_id <$> l)
  end.
Proof.
  unfold by_account. induction vs as [|v vs IH] using rev_ind; [done|]. rewrite foldl_app. cbn [foldl]. unfold viewer_step at 1.
  rewrite List.filter_app. cbn [List.filter]. case_bool_decide as E.
  - subst a. rewrite lookup_insert_eq, IH. destruct (List.filter _ vs) as [|w l]; [done|]. cbn.
    by rewrite fmap_app.
  - rewrite lookup_insert_ne by done. by rewrite app_nil_r.
Qed.

Lemma walked vs a channels c : (a, channels) ∈ walk (by_account vs) -> c ∈ channels -> mkViewerRef a c ∈ vs.
Proof.
  rewrite walk_ok, elem_of_map_to_list, by_account_lookup. intros E Hc.
  assert (Hin : c ∈ vr_channel_id <$> List.filter (fun v => bool_decide (vr_account v = a)) vs).
  { destruct (List.filter _ vs); [done|]. by injection E as <-. }
  apply list_elem_of_fmap in Hin as (v & -> & Hv). apply list_elem_of_In, filter_In in Hv as [Hv Ha].
  apply bool_decide_eq_true in Ha as <-. apply list_elem_of_In in Hv. by destruct v.
Qed.

(** The pushes of one viewer's locations. *)
Definition push_to (recvs : list Location) (packet : LogicPkt) (X : Type) (e : Eff X) : Prop :=
  match e with
  | EPush gate ids p => p = packet /\ forall ch, ch ∈ ids -> exists loc, loc ∈ recvs /\ loc_gate_id loc = gate /\ loc_channel_id loc = ch
  | _ => True
  end.

Lemma push_all_only recvs packet group order first :
  (forall g ids, group !! g = Some ids -> forall ch, ch ∈ ids -> exists loc, loc ∈ recvs /\ loc_gate_id loc = g /\ loc_channel_id loc = ch) ->
  only (push_to recvs packet) (push_all group packet order first).
Proof.
  intros Hg. revert first. induction order as [|g order IH]; intros first; cbn [push_all]; [done|].
  destruct (group !! g) as [ids|] eqn:E; [|apply IH]. apply only_call; [|intros r; apply IH].
  split; [done|]. by apply Hg.
Qed.

Lemma channels_at_loc skip g recvs ch : ch ∈ channels_at skip g recvs ->
  exists loc, loc ∈ recvs /\ loc_gate_id loc = g /\ loc_channel_id loc = ch.
Proof.
  unfold channels_at. intros (loc & -> & Hl)%list_elem_of_fmap. exists loc.
  apply list_elem_of_In, filter_In in Hl as [Hl Hg]. apply filter_In in Hl as [Hl _].
  apply list_elem_of_In in Hl. by apply bool_decide_eq_true in Hg.
Qed.

Lemma notify_only recvs body :
  only (push_to recvs (presence_packet body)) (notify_locations "" CMD_PRESENCE body recvs).
Proof.
  unfold notify_locations. destruct recvs as [|l recvs]; [done|]. unfold push_groups.
  match goal with |- context [group_by_gateway ?skip ?l] => destruct (group_by_gateway_spec skip l) as [Eo Eg] end.
  destruct (group_by_gateway _ _) as [group order]. apply only_bind; [|done].
  apply push_all_only. intros g ids Hi ch Hch. rewrite (Eg g : group !! g = _) in Hi. case_decide; [|done]. injection Hi as <-.
  by eapply channels_at_loc.
Qed.

(** Events that were made stay made. *)
Lemma gone_app app account pre pre' : gone app account pre -> gone app account (pre ++ pre').
Proof. intros (gen & g & r & rest & -> & Hg & Hr). by exists gen, g, r, (rest ++ pre'). Qed.

Definition announced (app account : string) (status last_seen : Z) (pre : list PEvent) : Prop :=
  (status = PRESENCE_ONLINE /\ last_seen = 0) \/ (status = PRESENCE_OFFLINE /\ gone app account pre).

Lemma announced_app app account status last_seen pre pre' :
  announced app account status last_seen pre -> announced app account status last_seen (pre ++ pre').
Proof. intros [?|[? Hg]]; [by left|right; split; [done|by apply gone_app]]. Qed.

Lemma judge_notify app account status last_seen vs viewer locs recvs pre :
  announced app account status last_seen pre ->
  Ev (PCall (EViewers app account INBOX_KIND_USER)) (Ok vs) ∈ pre ->
  Ev (PCall (EListLocations (mkAccountId viewer))) (Ok locs) ∈ pre ->
  (forall loc, loc ∈ recvs -> loc ∈ locs /\ mkViewerRef viewer (channel_str (loc_channel_id loc)) ∈ vs) ->
  hub_judge (hoist (@PCall) (notify_locations "" CMD_PRESENCE (presence_body account status last_seen) recvs))
    (fun _ pre' => exists l, pre' = pre ++ l) pre.
Proof.
  intros Ha Hv Hl Hr.
  apply (only_judge (fun X e => match e with PCall e => push_to recvs (presence_packet (presence_body account status last_seen)) _ e | _ => True end)
    _ _ (fun pre' => exists l, pre' = pre ++ l)).
  - intros s X e x s' He [l ->] ->. split; [|exists (l ++ [Ev e x]); by rewrite app_assoc].
    destruct e as [X e| | | | | |]; try done. destruct e; try done. destruct He as [-> Hids].
    exists app, account, status, last_seen, vs, viewer, locs. split_and!; [done|by apply announced_app|set_solver|set_solver|].
    intros ch (loc & Hloc & Hg & <-)%Hids. destruct (Hr _ Hloc) as [H1 H2]. split; [done|]. by exists loc.
  - apply only_hoisted. eapply only_mono; [|apply notify_only]. done.
  - exists []. by rewrite app_nil_r.
Qed.

Lemma judge_fanout_to app account status last_seen vs viewers pre :
  announced app account status last_seen pre ->
  Ev (PCall (EViewers app account INBOX_KIND_USER)) (Ok vs) ∈ pre ->
  (forall a channels c, (a, channels) ∈ viewers -> c ∈ channels -> mkViewerRef a c ∈ vs) ->
  hub_judge (fanout_to (presence_body account status last_seen) viewers) (fun _ _ => True) pre.
Proof.
  revert pre. induction viewers as [|[viewer channels] viewers IH]; intros pre Ha Hv Hw; [done|]. cbn [fanout_to].
  apply judge_call. intros r s ->. split; [done|].
  assert (IH' : forall l, hub_judge (fanout_to (presence_body account status last_seen) viewers) (fun _ _ => True)
    ((pre ++ [Ev (PCall (EListLocations (mkAccountId viewer))) r]) ++ l)).
  { intros l. apply IH; [by do 2 apply announced_app|set_solver|]. intros a ch c Hin. apply Hw. by right. }
  destruct r as [locs|e]; [|specialize (IH' []); rewrite app_nil_r in IH'; exact IH'].
  destruct (wanted channels locs) as [|loc recvs] eqn:Ew; [specialize (IH' []); rewrite app_nil_r in IH'; exact IH'|].
  apply judge_bind, judge_bind. eapply judge_mono; [|apply (judge_notify app account status last_seen vs viewer locs)].
  - cbn. intros a s [l ->]. apply IH'.
  - by apply announced_app.
  - set_solver.
  - set_solver.
  - intros loc' Hin. rewrite <- Ew in Hin. apply list_elem_of_In, filter_In in Hin as [Hin Hc].
    apply list_elem_of_In in Hin. apply bool_decide_eq_true in Hc. split; [done|]. eapply Hw; [by left|done].
Qed.

Lemma judge_fanout app account status last_seen pre : announced app account status last_seen pre ->
  hub_judge (fanout walk app account status last_seen) (fun _ _ => True) pre.
Proof.
  intros Ha. unfold fanout. apply judge_call. intros r s ->. split; [done|].
  destruct r as [[|v vs]|e]; [done| |done]. apply (judge_fanout_to app account status last_seen (v :: vs)).
  - by apply announced_app.
  - set_solver.
  - intros a channels c. apply walked.
Qed.

Lemma judge_online app account pre : hub_judge (fanout walk app account PRESENCE_ONLINE 0) (fun _ _ => True) pre.
Proof. apply judge_fanout. by left. Qed.

Lemma judge_task t pre : (match t with DebounceTask _ _ _ => pre = [] | _ => True end) ->
  hub_judge (run_task debounce walk t) (fun _ _ => True) pre.
Proof.
  intros Hpre. destruct t as [app account|app account gen]; cbn [run_task].
  - clear Hpre. unfold reconnect_task. generalize 10%nat. intros n. revert pre.
    induction n as [|n IH]; intros pre; [done|]. cbn [poll].
    apply judge_call. intros ? s ->. split; [done|]. apply judge_call. intros r s ->. split; [done|].
    destruct r as [[|l [|l' locs]]|e]; [done|apply judge_online|apply IH|done].
  - subst pre. unfold debounce_task. apply judge_call. intros [] s ->. split; [done|].
    apply judge_call. intros g s ->. split; [done|]. apply (judge_bind_use _ _ _ _ (fun _ _ => True)); [|by intros ? ? _ ? ? ->].
    destruct (default 0 g =? gen) eqn:E; [|done]. apply Z.eqb_eq in E.
    apply judge_call. intros r s ->. split; [done|].
    assert (Hf : r = Ok [] \/ r = Err NotFound -> forall now,
      hub_judge (fanout walk app account PRESENCE_OFFLINE now) (fun _ _ => True)
        (((([] ++ [Ev (PSleep debounce) tt]) ++ [Ev (PGen (gen_key app account)) g]) ++
          [Ev (PCall (EListLocations (mkAccountId account))) r]) ++ [Ev (PCall ENow) now])).
    { intros Hr now. apply judge_fanout. right. split; [done|]. by eexists gen, g, r, _. }
    destruct r as [[|l locs]|[]]; try done; apply judge_call; intros now s ->; (split; [done|]); apply Hf; auto.
Qed.

Lemma judge_listed account pre : hub_judge (listed account) (fun _ _ => True) pre.
Proof. intros r s ->. by split. Qed.

Lemma judge_added app account pre : hub_judge (on_location_added walk app account) (fun _ _ => True) pre.
Proof.
  unfold on_location_added. apply judge_call. intros g s ->. split; [done|].
  eapply judge_bind_use; [apply judge_listed|]. intros [[|l [|l' locs]]|] s _; [done|apply judge_online| |done].
  by intros ? ? ->.
Qed.

Lemma judge_removed app account channel pre : hub_judge (on_location_removed app account channel) (fun _ _ => True) pre.
Proof.
  unfold on_location_removed. apply judge_call. intros r s ->. split; [done|].
  eapply judge_bind_use; [apply judge_listed|]. intros [[|l locs]|] s1 _; [| |done].
  - apply judge_call. intros gen s2 ->. split; [done|]. by intros ? ? ->.
  - apply judge_bind. by intros ? ? ->.
Qed.
End spec.

(** What the hub runs. *)
Inductive hub_program `{Prost} (debounce : Z) (walk : gmap string (list string) -> list (string * list string)) : PresProg unit -> Prop :=
| hub_added app account : hub_program debounce walk (on_location_added walk app account)
| hub_removed app account channel : hub_program debounce walk (on_location_removed app account channel)
| hub_task t : hub_program debounce walk (run_task debounce walk t).


Section demo.
#[local] Existing Instance demo_prost.

Definition demo_walk (m : gmap string (list string)) : list (string * list string) := map_to_list m.
Definition demo_hub (X : Type) (e : PresEff X) (u : unit) : unit * X :=
  match e in PresEff X return unit * X with
  | PCall e =>
    match e in Eff X return unit * X with
    | EViewers _ _ _ => (tt, Ok [mkViewerRef "bob" "ch-b"; mkViewerRef "carol" "ch-c"])
    | EListLocations a =>
      (tt, if bool_decide (a = mkAccountId "bob")
           then Ok [mkLocation (mkChannelId "ch-x") (mkGatewayId "g1") "web" ""; mkLocation (mkChannelId "ch-b") (mkGatewayId "g2") "ios" ""]
           else Err NotFound)
    | ENow => (tt, 99000)
    | e => (tt, (Effects.quiet _ e tt).2)
    end
  | PGen _ => (tt, Some 1)
  | PBump _ => (tt, 1)
  | PClear _ _ _ => (tt, Ok tt)
  | PRemove _ _ | PSleep _ | PSpawn _ => (tt, tt)
  end.
Definition demo_task : PresProg unit := run_task 45000 demo_walk (DebounceTask "kim" "alice" 1).
Definition demo_told : list (EventOf PresEff) := (run demo_hub demo_task tt).1.2.
Definition demo_gone : LogicPkt := presence_packet (presence_body "alice" PRESENCE_OFFLINE 99000).

End demo.
