(* ===== verification/WriteLoop.v ===== *)
(** The write half of a connection: crates/kim-core/src/write_loop.rs, with the errors
    of kim-core (error.rs) and the policies of channel.rs.

    Any number of handles push frames into one mailbox; one task takes them out and
    writes them.  A run is a list of acts: a call starts, a call takes its next
    atomic action, the writer takes its next one.  What it does that others can see
    are its events.  [accepted_frames_placed] says where every accepted frame is:
    written, given up, or still to be written, in this order. *)

From S2P Require Import Prelude Judge TcpCodec.
Open Scope Z_scope.
Open Scope kim_scope.

Module Core.
(** [kim_core::Error]. *)
Inductive Error : Type :=
| Io (text : string)
| FrameTooLarge (size max : Z)
| IncompleteFrame
| Closed
| MailboxFull
| ChannelNotFound (id : string)
| ChannelExists (id : string)
| HandshakeTimeout (millis : Z)
| Handshake (text : string)
| AlreadyConnected
| NotConnected
| Other (text : string).
End Core.

Inductive WriteFullPolicy : Type := Block | Disconnect.

Inductive WriteOp : Type :=
| WFrame (opcode : OpCode) (payload : bytes)
| WClose.

Definition frame_of (op : WriteOp) : option (OpCode * bytes) :=
  match op with WFrame opcode payload => Some (opcode, payload) | WClose => None end.
Definition is_close (op : WriteOp) : bool := match op with WClose => true | _ => false end.

(** ** State *)

(** Where the writer is: about to load [aborted]; in the [select!], woken or not; taking
    the rest of a batch; inside [write_batch], at its frames and its flush or at its
    shutdown; in the shutdown after a failure or an abort; out of the loop; about to drop the
    receiver; gone. *)
Inductive Writer : Type :=
| Looking
| Selecting (woken : bool)
| Taking (batch : list WriteOp)
| Writing (frames : list (OpCode * bytes)) (saw_close : bool)
| Shutting
| Stopping
| Storing
| Dropping
| Ended.

(** Where a call of a handle is: [push_frame] before and after it loaded [closed],
    [trip_full] at each of its actions, [close] before its swap, at its send, and at
    the two actions of its abort; dropped by its caller; returned. *)
Inductive WCall : Type :=
| Pushing (opcode : OpCode) (payload : bytes)
| Sending (opcode : OpCode) (payload : bytes)
| TripHook | TripClosed | TripAborted | TripClose | TripNotify
| Closing | SendingClose | CloseAborted | CloseNotify
| GivenUp
| Returned (r : result unit Core.Error).

Record WriteShared := mkWriteShared {
  mailbox : list WriteOp;
  w_closed : bool;
  w_aborted : bool;
  handles : bool;
  writer : Writer;
  wcalls : list WCall
}.
Definition WriteShared_spawn : WriteShared := mkWriteShared [] false false true Looking [].

Definition with_mailbox (m : list WriteOp) (s : WriteShared) : WriteShared :=
  mkWriteShared m (w_closed s) (w_aborted s) (handles s) (writer s) (wcalls s).
Definition set_closed (s : WriteShared) : WriteShared :=
  mkWriteShared (mailbox s) true (w_aborted s) (handles s) (writer s) (wcalls s).
Definition set_aborted (s : WriteShared) : WriteShared :=
  mkWriteShared (mailbox s) (w_closed s) true (handles s) (writer s) (wcalls s).
Definition with_writer (w : Writer) (s : WriteShared) : WriteShared :=
  mkWriteShared (mailbox s) (w_closed s) (w_aborted s) (handles s) w (wcalls s).
Definition with_wcall (id : nat) (c : WCall) (s : WriteShared) : WriteShared :=
  mkWriteShared (mailbox s) (w_closed s) (w_aborted s) (handles s) (writer s) (<[id := c]> (wcalls s)).

(** [abort.notify_waiters()] wakes the writer only while it is in its [select!]. *)
Definition notify_waiters (s : WriteShared) : WriteShared :=
  match writer s with Selecting _ => with_writer (Selecting true) s | _ => s end.

Inductive WEvent : Type :=
| Accepted (op : WriteOp)
| Wrote (f : OpCode * bytes)
| Flushed
| Orderly
| Abandoned (fs : list (OpCode * bytes))
| HookCalled
| AnsweredCall (id : nat) (r : result unit Core.Error).

(** ** The calls *)

Section write_loop.
Context (write_full : WriteFullPolicy) (write_queue : nat).
(** [write_queue.max(1)]. *)
Definition mailbox_cap : nat := Nat.max write_queue 1.

Inductive TrySend : Type := SentOk (s : WriteShared) | SentFull | SentClosed.
Definition try_send (op : WriteOp) (s : WriteShared) : TrySend :=
  match writer s with
  | Ended => SentClosed
  | _ => if (length (mailbox s) <? mailbox_cap)%nat then SentOk (with_mailbox (mailbox s ++ [op]) s) else SentFull
  end.

Definition answer (id : nat) (r : result unit Core.Error) (s : WriteShared) : WriteShared * list WEvent :=
  (with_wcall id (Returned r) s, [AnsweredCall id r]).

(** The next action of a call; a blocking send has none while the mailbox is full. *)
Definition call_step (id : nat) (s : WriteShared) : option (WriteShared * list WEvent) :=
  match wcalls s !! id with
  | Some (Pushing opcode payload) =>
    Some (if w_closed s then answer id (Err Core.Closed) s else (with_wcall id (Sending opcode payload) s, []))
  | Some (Sending opcode payload) =>
    let op := WFrame opcode payload in
    match try_send op s, write_full with
    | SentOk s', _ => let '(s', evs) := answer id (Ok tt) s' in Some (s', Accepted op :: evs)
    | SentClosed, _ => Some (answer id (Err Core.Closed) s)
    | SentFull, Block => None
    | SentFull, Disconnect => Some (with_wcall id TripHook s, [])
    end
  | Some TripHook => Some (with_wcall id TripClosed s, [HookCalled])
  | Some TripClosed => Some (with_wcall id TripAborted (set_closed s), [])
  | Some TripAborted => Some (with_wcall id TripClose (set_aborted s), [])
  | Some TripClose =>
    match try_send WClose s with
    | SentOk s' => Some (with_wcall id TripNotify s', [Accepted WClose])
    | _ => Some (with_wcall id TripNotify s, [])
    end
  | Some TripNotify => Some (answer id (Err Core.MailboxFull) (notify_waiters s))
  | Some Closing =>
    Some (if w_closed s then answer id (Ok tt) s else (with_wcall id SendingClose (set_closed s), []))
  | Some SendingClose =>
    match try_send WClose s, write_full with
    | SentOk s', _ => let '(s', evs) := answer id (Ok tt) s' in Some (s', Accepted WClose :: evs)
    | SentClosed, Block => Some (answer id (Ok tt) s)
    | SentFull, Block => None
    | _, Disconnect => Some (with_wcall id CloseAborted s, [])
    end
  | Some CloseAborted => Some (with_wcall id CloseNotify (set_aborted s), [])
  | Some CloseNotify => Some (answer id (Ok tt) (notify_waiters s))
  | Some (GivenUp | Returned _) | None => None
  end.

(** ** The writer *)

Inductive WriterAct : Type :=
| WLook
| WNotified
| WRecv
| WNoSender
| WMore
| WNoMore
| WIo (ok : bool)
| WTimeLimit
| WStore
| WDropRx.

Definition frames_of (ops : list WriteOp) : list (OpCode * bytes) := omap frame_of ops.

(** What of a batch is given up when it fails. *)
Definition unwritten (w : Writer) : list (OpCode * bytes) :=
  match w with Taking batch => frames_of batch | Writing frames _ => frames | _ => [] end.
Definition fail (s : WriteShared) : WriteShared * list WEvent :=
  (with_writer Stopping s, [Abandoned (unwritten (writer s))]).
Definition writer_step (a : WriterAct) (s : WriteShared) : option (WriteShared * list WEvent) :=
  match a, writer s with
  | WLook, Looking => Some (with_writer (if w_aborted s then Stopping else Selecting false) s, [])
  | WNotified, Selecting true => Some (with_writer Stopping s, [])
  | WRecv, Selecting _ =>
    match mailbox s with op :: rest => Some (with_writer (Taking [op]) (with_mailbox rest s), []) | [] => None end
  | WNoSender, Selecting _ =>
    if handles s then None else match mailbox s with [] => Some (with_writer Stopping s, []) | _ => None end
  | WMore, Taking batch =>
    match mailbox s with
    | op :: rest => Some (with_writer (Taking (batch ++ [op])) (with_mailbox rest s), [])
    | [] => None
    end
  | WNoMore, Taking batch =>
    match mailbox s with
    | [] => Some (with_writer (Writing (frames_of batch) (existsb is_close batch)) s, [])
    | _ => None
    end
  | WIo true, Writing (f :: frames) saw_close => Some (with_writer (Writing frames saw_close) s, [Wrote f])
  | WIo true, Writing [] saw_close => Some (with_writer (if saw_close then Shutting else Looking) s, [Flushed])
  | WIo true, Shutting => Some (with_writer Storing s, [Orderly])
  | WIo false, (Writing _ _ | Shutting) => Some (fail s)
  | WTimeLimit, (Writing _ _ | Shutting) => Some (fail s)
  | WIo _, Stopping => Some (with_writer Storing s, [])
  | WStore, Storing => Some (with_writer Dropping (set_closed s), [])
  | WDropRx, Dropping => Some (with_mailbox [] (with_writer Ended s), [Abandoned (frames_of (mailbox s))])
  | _, _ => None
  end.

(** ** Runs *)

Inductive WAct : Type :=
| StartPush (opcode : OpCode) (payload : bytes)
| StartClose
| Go (id : nat)
| Cancel (id : nat)
| DropHandles
| ByWriter (a : WriterAct).

Definition start_call (c : WCall) (s : WriteShared) : option (WriteShared * list WEvent) :=
  if handles s
  then Some (mkWriteShared (mailbox s) (w_closed s) (w_aborted s) true (writer s) (wcalls s ++ [c]), [])
  else None.
Definition over (c : WCall) : bool := match c with GivenUp | Returned _ => true | _ => false end.

(** One act; [None] when it does not apply.  Only a call that waits for room can be
    dropped by its caller, and the handles go when no call is under way. *)
Definition write_step (s : WriteShared) (a : WAct) : option (WriteShared * list WEvent) :=
  match a with
  | StartPush opcode payload => start_call (Pushing opcode payload) s
  | StartClose => start_call Closing s
  | Go id => call_step id s
  | Cancel id =>
    match write_full, wcalls s !! id with
    | Block, Some (Sending _ _ | SendingClose) => Some (with_wcall id GivenUp s, [])
    | _, _ => None
    end
  | DropHandles =>
    if forallb over (wcalls s)
    then Some (mkWriteShared (mailbox s) (w_closed s) (w_aborted s) false (writer s) (wcalls s), [])
    else None
  | ByWriter a => writer_step a s
  end.

Definition write_run : list WAct -> WriteShared -> option (WriteShared * list WEvent) := run_acts write_step.
End write_loop.

(** ** What the events say *)

(** What was put into the mailbox, what was written, what was given up. *)
Definition sent (evs : list WEvent) : list WriteOp :=
  omap (fun e => match e with Accepted op => Some op | _ => None end) evs.
Definition wrote (evs : list WEvent) : list (OpCode * bytes) :=
  omap (fun e => match e with Wrote f => Some f | _ => None end) evs.
Definition abandoned (evs : list WEvent) : list (OpCode * bytes) :=
  evs ≫= (fun e => match e with Abandoned fs => fs | _ => [] end).

(** The writer writes no more. *)
Definition stopped (w : Writer) : bool :=
  match w with Stopping | Storing | Dropping | Ended => true | _ => false end.

Lemma mailed_app e1 e2 : sent (e1 ++ e2) = sent e1 ++ sent e2.
Proof. apply omap_app. Qed.
Lemma wrote_app e1 e2 : wrote (e1 ++ e2) = wrote e1 ++ wrote e2.
Proof. apply omap_app. Qed.
Lemma abandoned_app e1 e2 : abandoned (e1 ++ e2) = abandoned e1 ++ abandoned e2.
Proof. apply bind_app. Qed.
Lemma frames_of_app o1 o2 : frames_of (o1 ++ o2) = frames_of o1 ++ frames_of o2.
Proof. apply omap_app. Qed.

Section write_theorems.
Context (write_full : WriteFullPolicy) (write_queue : nat).
Implicit Type s : WriteShared.

(** What a call can do to the rest: it may put one message into the mailbox, wake the
    writer, and set the flags. *)
Record called s s' (evs : list WEvent) : Prop := {
  cd_mail : mailbox s' = mailbox s ++ sent evs;
  cd_room : sent evs <> [] -> writer s <> Ended /\ (length (mailbox s') <= mailbox_cap write_queue)%nat;
  cd_rest : wrote evs = [] /\ abandoned evs = [] /\ Orderly ∉ evs;
  cd_writer : writer s' = writer s \/ exists b, writer s = Selecting b /\ writer s' = Selecting true;
  cd_flags : (w_closed s = true -> w_closed s' = true) /\ (w_aborted s = true -> w_aborted s' = true)
}.

Lemma called_quiet s s' evs : mailbox s' = mailbox s -> sent evs = [] -> wrote evs = [] -> abandoned evs = [] ->
  Orderly ∉ evs -> writer s' = writer s -> (w_closed s = true -> w_closed s' = true) ->
  (w_aborted s = true -> w_aborted s' = true) -> called s s' evs.
Proof. intros Em Es ????? ?. split; [by rewrite Em, Es, app_nil_r|by rewrite Es|done|by left|done]. Qed.

Lemma try_send_ok op s s' : try_send write_queue op s = SentOk s' ->
  s' = with_mailbox (mailbox s ++ [op]) s /\ writer s <> Ended /\ (length (mailbox s') <= mailbox_cap write_queue)%nat.
Proof.
  unfold try_send. destruct (writer s) eqn:E; try done; destruct (Nat.ltb_spec (length (mailbox s)) (mailbox_cap write_queue));
    try done; intros [= <-]; (split_and!; [done|done|cbn; rewrite length_app; cbn; lia]).
Qed.

Lemma notify_waiters_writer s : writer (notify_waiters s) = writer s \/
  exists b, writer s = Selecting b /\ writer (notify_waiters s) = Selecting true.
Proof. unfold notify_waiters. destruct (writer s) eqn:E; cbn; eauto. Qed.
Lemma notify_waiters_rest s : mailbox (notify_waiters s) = mailbox s /\ w_closed (notify_waiters s) = w_closed s /\
  w_aborted (notify_waiters s) = w_aborted s /\ wcalls (notify_waiters s) = wcalls s.
Proof. unfold notify_waiters. by destruct (writer s). Qed.

Lemma called_send op s s1 id c evs : try_send write_queue op s = SentOk s1 -> sent evs = [op] -> wrote evs = [] ->
  abandoned evs = [] -> Orderly ∉ evs -> called s (with_wcall id c s1) evs.
Proof.
  intros Et Es ???. apply try_send_ok in Et as (-> & Hw & Hl).
  split; [cbn; by rewrite Es|done|done|by left|done].
Qed.

Lemma called_notify s id c evs : sent evs = [] -> wrote evs = [] -> abandoned evs = [] -> Orderly ∉ evs ->
  called s (with_wcall id c (notify_waiters s)) evs.
Proof.
  intros Es ???. destruct (notify_waiters_rest s) as (Em & Ec & Ea & _).
  split; cbn; [by rewrite Em, Es, app_nil_r|by rewrite Es|done|apply notify_waiters_writer|by rewrite Ec, Ea].
Qed.

Lemma call_step_called id s s' evs : call_step write_full write_queue id s = Some (s', evs) -> called s s' evs.
Proof.
  assert (Ho : forall e : WEvent, e <> Orderly -> Orderly ∉ [e]) by (intros e He Hin; apply He; set_solver).
  unfold call_step, answer. destruct (wcalls s !! id) as [[]|] eqn:E; try done; case_all; intros Heq; simplify_eq;
    first [ eapply called_send; eauto; set_solver
          | apply called_notify; try done; set_solver
          | apply called_quiet; try done; set_solver ].
Qed.

(** ** The run *)

Definition flushed (evs : list WEvent) : Prop := exists e0 e1, evs = e0 ++ Flushed :: e1 /\ wrote e1 = [].
(** At the end of the loop after a close everything taken, a close with it, was written and flushed. *)
Definition orderly_end (evs : list WEvent) : Prop :=
  abandoned evs = [] /\ flushed evs /\
  exists taken rest, sent evs = taken ++ rest /\ WClose ∈ taken /\ wrote evs = frames_of taken.
Definition closing (w : Writer) : Prop :=
  match w with
  | Taking batch => WClose ∈ batch
  | Writing _ saw_close => saw_close = true
  | Shutting => True
  | _ => False
  end.

Record placed s (evs : list WEvent) : Prop := {
  pl_taken : exists taken, sent evs = taken ++ mailbox s /\
    frames_of taken = wrote evs ++ abandoned evs ++ unwritten (writer s) /\
    (closing (writer s) -> WClose ∈ taken);
  pl_live : stopped (writer s) = false -> abandoned evs = [];
  pl_shut : writer s = Shutting -> flushed evs;
  pl_room : (length (mailbox s) <= mailbox_cap write_queue)%nat;
  pl_orderly : forall e1 e2, evs = e1 ++ Orderly :: e2 -> orderly_end e1
}.

Lemma flushed_snoc evs e : flushed evs -> wrote e = [] -> flushed (evs ++ e).
Proof.
  intros (e0 & e1 & -> & Hw) He. exists e0, (e1 ++ e). rewrite <- app_assoc. split; [done|].
  by rewrite wrote_app, Hw, He.
Qed.
Lemma orderly_kept evs e : Orderly ∉ e -> (forall e1 e2, evs = e1 ++ Orderly :: e2 -> orderly_end e1) ->
  forall e1 e2, evs ++ e = e1 ++ Orderly :: e2 -> orderly_end e1.
Proof.
  intros Hn Hp e1 e2 E. apply app_eq_inv in E as [(k & Hk & E)|(k & Hk & E)].
  - destruct k as [|x k]; cbn in E; [exfalso; apply Hn; subst e; set_solver|].
    injection E as <- E. eapply Hp. exact Hk.
  - exfalso. apply Hn. subst e. set_solver.
Qed.

Lemma placed_called s s' evs e : placed s evs -> called s s' e -> placed s' (evs ++ e).
Proof.
  intros [(taken & Hs & Hf & Hc) Hl Hsh Hr Ho] [Em Hroom (Hw & Ha & Hno) Hwr _].
  assert (Hun : unwritten (writer s') = unwritten (writer s) /\ (closing (writer s') <-> closing (writer s)) /\
    stopped (writer s') = stopped (writer s) /\ (writer s' = Shutting <-> writer s = Shutting)).
  { destruct Hwr as [->|(b & -> & ->)]; [done|]. done. }
  destruct Hun as (Eu & Ec & Est & Esh). split.
  - exists taken. rewrite mailed_app, Hs, Em, wrote_app, abandoned_app, Hw, Ha, !app_nil_r, Eu, Ec. by rewrite app_assoc.
  - rewrite Est, abandoned_app, Ha, app_nil_r. done.
  - rewrite Esh. intros H. by apply flushed_snoc, Hw; auto.
  - destruct (decide (sent e = [])) as [E|E]; [by rewrite Em, E, app_nil_r|]. by apply Hroom.
  - by apply orderly_kept.
Qed.
(** A writer step that takes [new] messages, writes [ws] and gives up [ab]. *)
Lemma placed_writer_gen s s' evs e new : placed s evs ->
  mailbox s = new ++ mailbox s' -> sent e = [] ->
  unwritten (writer s) ++ frames_of new = wrote e ++ abandoned e ++ unwritten (writer s') ->
  (closing (writer s') -> closing (writer s) \/ WClose ∈ new) ->
  (wrote e <> [] \/ stopped (writer s') = false -> stopped (writer s) = false) ->
  (stopped (writer s') = false -> abandoned e = []) ->
  (wrote e = [] \/ abandoned e = []) ->
  (writer s' = Shutting -> flushed (evs ++ e)) ->
  (forall e1 e2, evs ++ e = e1 ++ Orderly :: e2 -> orderly_end e1) ->
  placed s' (evs ++ e).
Proof.
  intros [(taken & Hs & Hf & Hc) Hl Hsh Hr Ho] Em Es Eu Hcl Hst Hst' Hwa Hfl Hor. split; try done.
  - exists (taken ++ new). rewrite mailed_app, Es, app_nil_r, Hs, Em, <- app_assoc. split_and!; [done| |].
    + rewrite frames_of_app, Hf, wrote_app, abandoned_app, <- !app_assoc, Eu.
      destruct (decide (wrote e = [])) as [->|Hw]; [done|]. by rewrite (Hl (Hst (or_introl Hw))).
    + intros H. destruct (Hcl H) as [H'|H']; [apply elem_of_app; left; auto|set_solver].
  - intros H. rewrite abandoned_app, (Hl (Hst (or_intror H))), (Hst' H). done.
  - rewrite Em, length_app in Hr. lia.
Qed.

Lemma closed_batch (batch : list WriteOp) : existsb is_close batch = true -> WClose ∈ batch.
Proof. intros H. apply existsb_exists in H as ([|] & Hin & Hc); [done|]. by apply list_elem_of_In. Qed.

Lemma placed_end s evs : placed s evs -> writer s = Shutting -> orderly_end evs.
Proof.
  intros [(taken & Hs & Hf & Hc) Hl Hsh Hr Ho] Ew. rewrite Ew in *. split_and!; [by apply Hl|by apply Hsh|].
  exists taken, (mailbox s). split_and!; [done|by apply Hc|]. by rewrite Hf, (Hl eq_refl), !app_nil_r.
Qed.

(** A step of the writer that takes the messages [n]. *)
Ltac writer_case n :=
  match goal with
  | Hp : placed ?s ?evs, Hor : Orderly ∉ _ -> _, Hord : _ -> _ -> _, Ew : writer ?s = _ |- _ =>
    apply (placed_writer_gen s _ evs _ n Hp); rewrite ?Ew; cbn; rewrite ?frames_of_app, ?app_nil_r; try done; try tauto;
    try (by intros [|]); try exact (pl_orderly _ _ Hp); try (by apply Hor; set_solver); try (by apply Hord);
    try (intros; left; by apply closed_batch);
    try (intros _; apply flushed_snoc; [by apply (pl_shut _ _ Hp)|done]); try (intros _; by exists evs, []);
    try (intros; set_solver)
  end.

Lemma placed_writer a s s' evs e : placed s evs -> writer_step a s = Some (s', e) -> placed s' (evs ++ e).
Proof.
  intros Hp Hstep.
  assert (Hor : Orderly ∉ e -> forall e1 e2, evs ++ e = e1 ++ Orderly :: e2 -> orderly_end e1).
  { intros Hn. apply orderly_kept; [done|]. apply Hp. }
  assert (Hord : writer s = Shutting -> e = [Orderly] -> forall e1 e2, evs ++ e = e1 ++ Orderly :: e2 -> orderly_end e1).
  { intros Ew -> e1 e2 E. apply app_eq_inv in E as [(k & Hk & E)|(k & Hk & E)].
    - destruct k as [|x k]; cbn in E; [|injection E as <- E; eapply (pl_orderly _ _ Hp); exact Hk].
      rewrite app_nil_r in Hk. subst e1. by eapply placed_end.
    - destruct k as [|x k]; [|by destruct k]. rewrite app_nil_r in Hk. subst e1. by eapply placed_end. }
  unfold writer_step, fail in Hstep. destruct a; destruct (writer s) eqn:Ew; try done; case_all;
    try (destruct ok); simplify_eq.
  all: match goal with
    | |- placed (with_mailbox [] (with_writer _ ?s)) _ => writer_case (mailbox s)
    | H : mailbox _ = ?w :: _ |- _ => first [solve [writer_case [w]] | writer_case (@nil WriteOp)]
    | _ => writer_case (@nil WriteOp)
    end.
Qed.

Lemma placed_step s evs a s' e : placed s evs -> write_step write_full write_queue s a = Some (s', e) -> placed s' (evs ++ e).
Proof.
  intros Hp. destruct a as [o p| |id|id| |a]; cbn [write_step].
  - unfold start_call. destruct (handles s); [|done]. intros [= <- <-].
    apply (placed_called s); [done|]. by apply called_quiet; try set_solver.
  - unfold start_call. destruct (handles s); [|done]. intros [= <- <-].
    apply (placed_called s); [done|]. by apply called_quiet; try set_solver.
  - intros H. by eapply placed_called, call_step_called.
  - intros H. case_all. all: apply (placed_called s); [done|]; by apply called_quiet; try set_solver.
  - intros H. case_all. apply (placed_called s); [done|]; by apply called_quiet; try set_solver.
  - apply placed_writer. done.
Qed.

(** Every frame a connection accepts is, in the order of acceptance, first written,
    then given up, then still to be written; nothing is given up while the writer is
    alive, the mailbox keeps its bound, and a writer that ends after a close has
    written and flushed all that was accepted before the close. *)
Theorem accepted_frames_placed acts s evs :
  write_run write_full write_queue acts WriteShared_spawn = Some (s, evs) ->
  frames_of (sent evs) = wrote evs ++ abandoned evs ++ unwritten (writer s) ++ frames_of (mailbox s) /\
  (stopped (writer s) = false -> abandoned evs = []) /\
  (length (mailbox s) <= mailbox_cap write_queue)%nat /\
  forall e1 e2, evs = e1 ++ Orderly :: e2 -> orderly_end e1.
Proof.
  intros Hr.
  assert (Hp : placed s ([] ++ evs)).
  { eapply (run_acts_inv _ placed); [|split|exact Hr]; cbn; try done.
    - intros ????? Hp Hs. by eapply placed_step.
    - by exists [].
    - unfold mailbox_cap. lia.
    - by intros [|].  }
  destruct Hp as [(taken & Hs & Hf & _) Hl _ Hroom Ho]. cbn [app] in *.
  rewrite Hs, frames_of_app, Hf, <- !app_assoc. done.
Qed.

(** ** A full mailbox *)

Definition tripping (c : WCall) s : Prop :=
  match c with
  | TripAborted => w_closed s = true
  | TripClose | TripNotify => w_closed s = true /\ w_aborted s = true
  | _ => True
  end.
Record tripped s (evs : list WEvent) : Prop := {
  tr_calls : forall id c, wcalls s !! id = Some c -> tripping c s;
  tr_told : forall id, AnsweredCall id (Err Core.MailboxFull) ∈ evs -> w_closed s = true /\ w_aborted s = true
}.

Lemma tripping_mono c s s' : (w_closed s = true -> w_closed s' = true) -> (w_aborted s = true -> w_aborted s' = true) ->
  tripping c s -> tripping c s'.
Proof. intros Hc Ha. destruct c; cbn; tauto. Qed.

Lemma tripped_called id c s s' evs e : tripped s evs -> called s s' e ->
  wcalls s' = <[id := c]> (wcalls s) -> tripping c s' ->
  (forall i, AnsweredCall i (Err Core.MailboxFull) ∈ e -> w_closed s' = true /\ w_aborted s' = true) ->
  tripped s' (evs ++ e).
Proof.
  intros [Hc Ht] Hd Ec Hn He. destruct (cd_flags _ _ _ Hd) as [Hcl Hab]. split.
  - intros i c' E. rewrite Ec in E. destruct (decide (i = id)) as [->|Hne].
    + apply list_lookup_insert_Some in E as [(_ & <- & _)|(Hne & _)]; done.
    + rewrite list_lookup_insert_ne in E by done. eapply tripping_mono; eauto.
  - intros i Hi. apply elem_of_app in Hi as [Hi|Hi]; [|by eapply He]. destruct (Ht i Hi). auto.
Qed.

Lemma tripped_call_step id s s' evs e : tripped s evs -> call_step write_full write_queue id s = Some (s', e) ->
  tripped s' (evs ++ e).
Proof.
  intros Ht Hs. pose proof (call_step_called _ _ _ _ Hs) as Hd. pose proof (tr_calls _ _ Ht id) as Hid.
  revert Hd. unfold call_step, answer in Hs. destruct (wcalls s !! id) as [[]|] eqn:E; try done; specialize (Hid _ eq_refl).
  all: case_all; simplify_eq; intros Hd.
  all: try match goal with H : try_send _ _ _ = SentOk _ |- _ => apply try_send_ok in H as (-> & _ & _) end.
  all: destruct (notify_waiters_rest s) as (_ & Ec & Ea & Ew).
  all: eapply tripped_called; [done|done|first [done | cbn; by rewrite Ew]|cbn in *; rewrite ?Ec, ?Ea; tauto|].
  all: intros i Hi; rewrite ?elem_of_cons, ?elem_of_nil in Hi; cbn; rewrite ?Ec, ?Ea; naive_solver.
Qed.

Lemma tripped_same s s' evs : tripped s evs ->
  (forall id c, wcalls s' !! id = Some c -> wcalls s !! id = Some c \/ tripping c s') ->
  (w_closed s = true -> w_closed s' = true) -> (w_aborted s = true -> w_aborted s' = true) ->
  forall e, (forall id, AnsweredCall id (Err Core.MailboxFull) ∉ e) -> tripped s' (evs ++ e).
Proof.
  intros [Hc Ht] Hw Hcl Hab e He. split.
  - intros id c E. destruct (Hw _ _ E) as [E'|]; [|done]. eapply tripping_mono; eauto.
  - intros id Hi. apply elem_of_app in Hi as [Hi|Hi]; [|by destruct (He id)]. destruct (Ht id Hi). auto.
Qed.

Lemma writer_step_flags a s s' e : writer_step a s = Some (s', e) ->
  wcalls s' = wcalls s /\ (w_closed s = true -> w_closed s' = true) /\ w_aborted s' = w_aborted s /\
  forall id r, AnsweredCall id r ∉ e.
Proof.
  unfold writer_step, fail. intros H. destruct a; destruct (writer s); try done; case_all; try destruct ok; simplify_eq;
    (split_and!; [done|done|done|]); intros i r; rewrite ?elem_of_cons, ?elem_of_nil; naive_solver.
Qed.

Lemma tripped_step s evs a s' e : tripped s evs -> write_step write_full write_queue s a = Some (s', e) -> tripped s' (evs ++ e).
Proof.
  intros Ht. assert (Hnew : forall c s', start_call c s = Some (s', e) -> tripping c s' -> tripped s' (evs ++ e)).
  { unfold start_call. intros c s1 H Hc. case_all. eapply tripped_same; [done| |done|done|set_solver].
    intros id c' E. cbn in E. apply lookup_app_Some in E as [E|[_ E]]; [by left|]. right.
    apply list_lookup_singleton_Some in E as [_ <-]. done. }
  destruct a as [o p| |id|id| |a]; cbn [write_step].
  - intros H. by eapply Hnew.
  - intros H. by eapply Hnew.
  - by apply tripped_call_step.
  - intros H. case_all. all: eapply tripped_same; [done| |done|done|set_solver]; intros i c E; cbn in E.
    all: destruct (decide (i = id)) as [->|Hne]; [right|left; by rewrite list_lookup_insert_ne in E by done].
    all: by apply list_lookup_insert_Some in E as [(_ & <- & _)|(Hne & _)].
  - intros H. case_all. eapply tripped_same; [done| |done|done|set_solver]. intros i c E. by left.
  - intros H. apply writer_step_flags in H as (Ec & Hcl & Ea & He).
    eapply tripped_same; [done| |done|by rewrite Ea|set_solver]. intros i c E. left. by rewrite <- Ec.
Qed.

(** Once aborted, the writer that has not started another pass writes nothing. *)
Definition silent s : Prop := w_aborted s = true /\ (writer s = Looking \/ stopped (writer s) = true).
Lemma silent_write_step s a s' e : silent s -> write_step write_full write_queue s a = Some (s', e) -> silent s' /\ wrote e = [].
Proof.
  intros [Ha Hw] H. destruct a as [o p| |id|id| |a]; cbn [write_step] in H.
  1, 2: unfold start_call in H; case_all; done.
  - apply call_step_called in H as [_ _ (Hw' & _) Hwr [_ Hab]]. split; [|done]. split; [auto|].
    destruct Hwr as [->|(b & E & _)]; [done|]. rewrite E in Hw. by destruct Hw.
  - case_all; by repeat split.
  - case_all; by repeat split.
  - unfold writer_step, fail in H. unfold silent.
    destruct a; destruct (writer s) eqn:E; try (by destruct Hw); case_all; try destruct ok; simplify_eq; cbn; auto.
Qed.
End write_theorems.

(** Under the policy of the gateways no push waits; once one was refused because the
    mailbox was full, both flags are set, every later push is refused at its first
    action, and the writer writes no frame after the batch it is at. *)
Theorem full_mailbox_disconnects write_queue acts s evs id :
  write_run Disconnect write_queue acts WriteShared_spawn = Some (s, evs) ->
  AnsweredCall id (Err Core.MailboxFull) ∈ evs ->
  (w_closed s = true /\ w_aborted s = true) /\
  (forall i c, wcalls s !! i = Some c -> over c = false -> is_Some (call_step Disconnect write_queue i s)) /\
  (forall opcode payload, handles s = true -> exists s',
    write_run Disconnect write_queue [StartPush opcode payload; Go (length (wcalls s))] s
    = Some (s', [AnsweredCall (length (wcalls s)) (Err Core.Closed)])) /\
  (forall acts' s' evs', writer s = Looking \/ stopped (writer s) = true ->
    write_run Disconnect write_queue acts' s = Some (s', evs') -> wrote evs' = []).
Proof.
  intros Hr Hin.
  assert (Ht : tripped s ([] ++ evs)).
  { eapply (run_acts_inv _ tripped); [|split|exact Hr]; cbn; try set_solver. intros ????? Ht Hs. by eapply tripped_step. }
  destruct (tr_told _ _ Ht id Hin) as [Hc Ha]. split_and!; [done|done| | |].
  - intros i c E Ho. unfold call_step. rewrite E. destruct c; try done; cbn; repeat case_match; by eexists.
  - intros opcode payload Hh. unfold write_run. cbn. unfold start_call. rewrite Hh. cbn. unfold call_step. cbn.
    rewrite lookup_app_r by done. rewrite Nat.sub_diag. cbn. rewrite Hc. cbn. eauto.
  - intros acts' s' evs' Hw Hr'. pose (P := fun s e => silent s /\ wrote e = []).
    assert (HP : P s' ([] ++ evs')); [|by apply HP].
    eapply (run_acts_inv _ P); [|by split|exact Hr'].
    intros s1 e1 a s2 e2 [Hs He] Hst. destruct (silent_write_step _ _ _ _ _ _ Hs Hst) as [Hs' He'].
    split; [done|]. by rewrite wrote_app, He, He'.
Qed.

(** ** Concrete runs *)

Section demo.
(** A frame, then a close; the writer takes both and ends. *)
Definition demo_close : list WAct :=
  [StartPush Binary [Byte.x61]; Go 0; Go 0; StartClose; Go 1; Go 1; ByWriter WLook; ByWriter WRecv; ByWriter WMore;
   ByWriter WNoMore; ByWriter (WIo true); ByWriter (WIo true); ByWriter (WIo true); ByWriter WStore; ByWriter WDropRx].
(** Two frames for a mailbox of one place. *)
Definition demo_full : list WAct :=
  [StartPush Binary [Byte.x61]; Go 0; Go 0; StartPush Binary [Byte.x62]; Go 1; Go 1; Go 1; Go 1; Go 1; Go 1; Go 1].

Lemma accepted_frames_placed_witness :
  exists s evs, write_run Block 2 demo_close WriteShared_spawn = Some (s, evs) /\
  wrote evs = [(Binary, [Byte.x61])] /\ Orderly ∈ evs /\
  frames_of (sent evs) = wrote evs ++ abandoned evs ++ unwritten (writer s) ++ frames_of (mailbox s).
Proof.
  eexists _, _. split; [vm_compute; reflexivity|]. split; [reflexivity|].
  split; [apply list_elem_of_In; cbn; tauto|].
  refine (proj1 (accepted_frames_placed Block 2 demo_close _ _ _)). vm_compute. reflexivity.
Defined.

Lemma full_mailbox_disconnects_witness :
  exists s evs, write_run Disconnect 1 demo_full WriteShared_spawn = Some (s, evs) /\
  wcalls s !! 1%nat = Some (Returned (Err Core.MailboxFull)) /\ w_closed s = true /\ w_aborted s = true.
Proof.
  eexists _, _. split; [vm_compute; reflexivity|]. split; [reflexivity|].
  refine (proj1 (full_mailbox_disconnects 1 demo_full _ _ 1%nat _ _)); [vm_compute; reflexivity|].
  apply list_elem_of_In; cbn; tauto.
Defined.
End demo.
