(* ===== verification/Lanes.v ===== *)
(** The read half of a connection: [ChannelReadLoop] and [LaneSet] of
    crates/kim-core/src/channel.rs.

    The read loop puts every payload into the lane of its key; each lane has a task
    that hands its payloads to the listener one after the other, and ends when it was
    idle for a while; the next payload of the key starts a new one.  All payloads
    that were taken and not finished hold a permit of a budget that connections may
    share.  A run is a list of acts of the reader, of the lanes' tasks and of the
    other connections, in any order. *)

From S2P Require Import Prelude Judge TcpCodec WriteLoop.
Open Scope Z_scope.
Open Scope kim_scope.

(** ** Options *)

Definition DEFAULT_MAX_IN_FLIGHT : nat := 64.
Definition DEFAULT_SERVER_MAX_IN_FLIGHT : nat := 512.

(** The options a read loop uses; a shared budget is the number of its permits. *)
Record ChannelOpts := mkChannelOpts {
  max_in_flight : nat;
  in_flight : option nat;
  lane_key : option (bytes -> option string)
}.
Definition ChannelOpts_default : ChannelOpts := mkChannelOpts DEFAULT_MAX_IN_FLIGHT None None.
(** The options of a server, as it starts and after [set_max_in_flight]. *)
Definition server_opts : ChannelOpts := mkChannelOpts DEFAULT_SERVER_MAX_IN_FLIGHT (Some DEFAULT_SERVER_MAX_IN_FLIGHT) None.
Definition set_max_in_flight (n : nat) (o : ChannelOpts) : ChannelOpts :=
  mkChannelOpts (Nat.max n 1) (Some (Nat.max n 1)) (lane_key o).
Definition set_lane_key (f : bytes -> option string) (o : ChannelOpts) : ChannelOpts :=
  mkChannelOpts (max_in_flight o) (in_flight o) (Some f).

(** The depth of a lane and the permits of the budget, as [Channel::pair] fixes them. *)
Definition lane_cap (o : ChannelOpts) : nat := Nat.max (max_in_flight o) 1.
Definition budget (o : ChannelOpts) : nat := default (Nat.max (max_in_flight o) 1) (in_flight o).

(** The lane of a payload: the key it names, the connection's id if it names none. *)
Definition lane_id (o : ChannelOpts) (id : string) (payload : bytes) : string :=
  match lane_key o with
  | Some f => match f payload with Some k => if String.eqb k "" then id else k | None => id end
  | None => id
  end.

(** ** State *)

(** Where the task of a lane is: waiting at its receiver; in the listener; its wait ran
    out; out of the loop, before and after it counted itself off; gone, its receiver
    dropped; dead by a panic of the listener. *)
Inductive Worker : Type :=
| Receiving
| Serving (payload : bytes)
| Idled
| Leaving
| Left
| Gone
| Dead.

Record Lane := mkLane { l_key : string; l_queue : list bytes; l_worker : Worker }.

(** The lanes are numbered as they are made; [txs] says which one has the sender of a key. *)
Record LaneSet := mkLaneSet {
  txs : gmap string nat;
  lanes : list Lane;
  live : nat;
  permits : nat
}.
Definition LaneSet_new (total : nat) : LaneSet := mkLaneSet ∅ [] 0 total.

Definition with_txs (m : gmap string nat) (ls : LaneSet) : LaneSet := mkLaneSet m (lanes ls) (live ls) (permits ls).
Definition with_lane (id : nat) (l : Lane) (ls : LaneSet) : LaneSet :=
  mkLaneSet (txs ls) (<[id := l]> (lanes ls)) (live ls) (permits ls).
Definition give_back (n : nat) (ls : LaneSet) : LaneSet := mkLaneSet (txs ls) (lanes ls) (live ls) (permits ls + n).
Definition take_permit (ls : LaneSet) : LaneSet := mkLaneSet (txs ls) (lanes ls) (live ls) (permits ls - 1).
Definition count_off (ls : LaneSet) : LaneSet := mkLaneSet (txs ls) (lanes ls) (live ls - 1) (permits ls).

Definition with_queue (q : list bytes) (l : Lane) : Lane := mkLane (l_key l) q (l_worker l).
Definition with_worker (w : Worker) (l : Lane) : Lane := mkLane (l_key l) (l_queue l) w.
Definition closed_lane (l : Lane) : bool := match l_worker l with Gone | Dead => true | _ => false end.

(** [spawn_lane]. *)
Definition spawn_lane (key : string) (ls : LaneSet) : LaneSet :=
  mkLaneSet (<[key := length (lanes ls)]> (txs ls)) (lanes ls ++ [mkLane key [] Receiving]) (S (live ls)) (permits ls).

Inductive Admission : Type := Sent | Retry | Wait (id : nat).

(** The critical section of [enqueue]: find or make the lane, try to send. *)
Definition try_lane (cap : nat) (key : string) (payload : bytes) (ls : LaneSet) : LaneSet * Admission :=
  let '(ls, id) := match txs ls !! key with
                   | Some id => (ls, id)
                   | None => (spawn_lane key ls, length (lanes ls))
                   end in
  match lanes ls !! id with
  | Some l =>
    if closed_lane l then (with_txs (delete key (txs ls)) ls, Retry)
    else if (length (l_queue l) <? cap)%nat then (with_lane id (with_queue (l_queue l ++ [payload]) l) ls, Sent)
    else (ls, Wait id)
  | None => (ls, Retry)
  end.

(** What others see: a payload is in a lane; it is given to the listener; the listener is
    done with it; it panicked on it; the payload is dropped with its lane. *)
Inductive LEvent : Type :=
| Enqueued (key : string) (payload : bytes)
| Handed (key : string) (payload : bytes)
| Finished (key : string)
| Panicked (key : string)
| Dropped (key : string) (payload : bytes).

(** ** The task of a lane *)

Inductive WorkerAct : Type :=
| RecvJob
| RecvNone
| RecvTimeout
| Retire
| ListenerDone
| ListenerPanics
| CountOff
| DropReceiver.

(** [recv] ends without a job when every sender is gone: the one in the map, which is
    under the lane's own key, and the one a waiting [enqueue] holds. *)
Definition no_sender (waiting : option nat) (id : nat) (l : Lane) (ls : LaneSet) : bool :=
  bool_decide (txs ls !! l_key l <> Some id) && bool_decide (waiting <> Some id).

Definition drop_queue (l : Lane) : list LEvent := Dropped (l_key l) <$> l_queue l.

Definition worker_step (waiting : option nat) (id : nat) (a : WorkerAct) (ls : LaneSet) : option (LaneSet * list LEvent) :=
  l ← lanes ls !! id;
  match a, l_worker l, l_queue l with
  | RecvJob, Receiving, p :: q =>
    Some (with_lane id (mkLane (l_key l) q (Serving p)) ls, [Handed (l_key l) p])
  | RecvNone, Receiving, [] =>
    if no_sender waiting id l ls then Some (with_lane id (with_worker Leaving l) ls, []) else None
  | RecvTimeout, Receiving, [] => Some (with_lane id (with_worker Idled l) ls, [])
  | Retire, Idled, p :: q =>
    Some (with_lane id (mkLane (l_key l) q (Serving p)) ls, [Handed (l_key l) p])
  | Retire, Idled, [] =>
    let m := if bool_decide (txs ls !! l_key l = Some id) then delete (l_key l) (txs ls) else txs ls in
    Some (with_lane id (with_worker Leaving l) (with_txs m ls), [])
  | ListenerDone, Serving _, _ => Some (give_back 1 (with_lane id (with_worker Receiving l) ls), [Finished (l_key l)])
  | ListenerPanics, Serving _, q =>
    Some (give_back (1 + length q) (with_lane id (mkLane (l_key l) [] Dead) ls), Panicked (l_key l) :: drop_queue l)
  | CountOff, Leaving, _ => Some (count_off (with_lane id (with_worker Left l) ls), [])
  | DropReceiver, Left, q => Some (give_back (length q) (with_lane id (mkLane (l_key l) [] Gone) ls), drop_queue l)
  | _, _, _ => None
  end.

(** ** The read loop *)

(** Where [run] is: at the top of the loop; in the read; answering a ping; waiting for a
    permit; with one, before the map; waiting for room in a lane; in [drain], before the
    map is cleared and while it waits for the lanes; closing the write half; returned. *)
Inductive Reader : Type :=
| AtTop
| InRead
| InPong
| WantsPermit (payload : bytes)
| AtMap (payload : bytes)
| AwaitsRoom (id : nat) (payload : bytes)
| Clearing (e : Core.Error)
| Draining (e : Core.Error)
| ClosingWrite (e : Core.Error)
| Returned (r : result unit Core.Error).

(** What the read of a frame comes to under its time limit. *)
Inductive ReadResult : Type :=
| GotFrame (f : Frame)
| ReadFailed (e : Core.Error)
| ReadTimeout.

Record ReadLoop := mkReadLoop { reader : Reader; lane_set : LaneSet; elsewhere : nat }.
Definition at_reader (r : Reader) (s : ReadLoop) : ReadLoop := mkReadLoop r (lane_set s) (elsewhere s).
Definition with_lanes (ls : LaneSet) (s : ReadLoop) : ReadLoop := mkReadLoop (reader s) ls (elsewhere s).
Definition waits_at (r : Reader) : option nat := match r with AwaitsRoom id _ => Some id | _ => None end.

Inductive ReaderAct : Type :=
| CheckClosed (closed : bool)
| ReadFrame (r : ReadResult)
| Ponged (r : result unit Core.Error)
| Acquired (open : bool)
| TryLane
| RoomOrClosed
| Cleared
| Drained (deadline : bool)
| WriteClosed.

Section read_loop.
Context (opts : ChannelOpts) (id : string).

Definition on_frame (f : Frame) : Reader :=
  match f_opcode f with
  | Close => Clearing Core.Closed
  | Ping => InPong
  | Pong | Continuation => AtTop
  | Binary | Text => match f_payload f with [] => AtTop | p => WantsPermit p end
  end.

Definition reader_step (a : ReaderAct) (s : ReadLoop) : option (ReadLoop * list LEvent) :=
  let ls := lane_set s in
  match a, reader s with
  | CheckClosed closed, AtTop => Some (at_reader (if closed then Clearing Core.Closed else InRead) s, [])
  | ReadFrame (GotFrame f), InRead => Some (at_reader (on_frame f) s, [])
  | ReadFrame (ReadFailed e), InRead => Some (at_reader (Clearing e) s, [])
  | ReadFrame ReadTimeout, InRead => Some (at_reader (Clearing Core.Closed) s, [])
  | Ponged r, InPong => Some (at_reader (match r with Ok _ => AtTop | Err e => Clearing e end) s, [])
  | Acquired false, WantsPermit _ => Some (at_reader (Clearing Core.Closed) s, [])
  | Acquired true, WantsPermit p =>
    if (0 <? permits ls)%nat then Some (at_reader (AtMap p) (with_lanes (take_permit ls) s), []) else None
  | TryLane, AtMap p =>
    let key := lane_id opts id p in
    let '(ls, r) := try_lane (lane_cap opts) key p ls in
    Some (match r with
          | Sent => (at_reader AtTop (with_lanes ls s), [Enqueued key p])
          | Retry => (with_lanes ls s, [])
          | Wait lane => (at_reader (AwaitsRoom lane p) (with_lanes ls s), [])
          end)
  | RoomOrClosed, AwaitsRoom lane p =>
    l ← lanes ls !! lane;
    if closed_lane l then Some (at_reader (AtMap p) s, [])
    else if (length (l_queue l) <? lane_cap opts)%nat
    then Some (at_reader AtTop (with_lanes (with_lane lane (with_queue (l_queue l ++ [p]) l) ls) s), [Enqueued (l_key l) p])
    else None
  | Cleared, Clearing e => Some (at_reader (Draining e) (with_lanes (with_txs ∅ ls) s), [])
  | Drained deadline, Draining e =>
    if bool_decide (live ls = 0%nat) || deadline then Some (at_reader (ClosingWrite e) s, []) else None
  | WriteClosed, ClosingWrite e => Some (at_reader (Returned (Err e)) s, [])
  | _, _ => None
  end.

(** ** Runs *)

Inductive LAct : Type :=
| ByReader (a : ReaderAct)
| ByLane (lane : nat) (a : WorkerAct)
| OthersTake
| OthersGive.

Definition lane_step (s : ReadLoop) (a : LAct) : option (ReadLoop * list LEvent) :=
  let ls := lane_set s in
  match a with
  | ByReader a => reader_step a s
  | ByLane lane a => '(ls, evs) ← worker_step (waits_at (reader s)) lane a ls; Some (with_lanes ls s, evs)
  | OthersTake =>
    if (0 <? permits ls)%nat then Some (mkReadLoop (reader s) (take_permit ls) (S (elsewhere s)), []) else None
  | OthersGive =>
    match elsewhere s with S n => Some (mkReadLoop (reader s) (give_back 1 ls) n, []) | O => None end
  end.

Definition lane_run : list LAct -> ReadLoop -> option (ReadLoop * list LEvent) := run_acts lane_step.
Definition ReadLoop_new : ReadLoop := mkReadLoop AtTop (LaneSet_new (budget opts)) 0.
End read_loop.
