(* ===== verification/LanesSpec.v ===== *)
(** What the lanes of a connection guarantee: the payloads of a key are handed to the
    listener one at a time and in the order they came, none is lost, the payloads in
    flight never exceed the budget, and draining waits for all of them. *)

From S2P Require Import Prelude Judge TcpCodec WriteLoop Lanes.
Open Scope Z_scope.
Open Scope kim_scope.

(** ** Sums and searches over the lanes *)

Lemma sum_list_insert {A} (f : A -> nat) l i x y : l !! i = Some x ->
  (sum_list_with f (<[i := y]> l) + f x = sum_list_with f l + f y)%nat.
Proof.
  revert i. induction l as [|a l IH]; intros [|i] H; simplify_eq/=; [lia|]. specialize (IH _ H). lia.
Qed.
Lemma sum_list_app {A} (f : A -> nat) l k : sum_list_with f (l ++ k) = (sum_list_with f l + sum_list_with f k)%nat.
Proof. induction l as [|a l IH]; cbn; lia. Qed.
Lemma sum_list_ge {A} (f : A -> nat) l i x : l !! i = Some x -> (f x <= sum_list_with f l)%nat.
Proof. revert i. induction l as [|a l IH]; intros [|i] H; simplify_eq/=; [lia|]. specialize (IH _ H). lia. Qed.

Definition serving (l : Lane) : bool := match l_worker l with Serving _ => true | _ => false end.
Definition active (l : Lane) : bool := match l_worker l with Receiving | Serving _ | Idled => true | _ => false end.
Definition retired (l : Lane) : bool := match l_worker l with Leaving | Left | Gone => true | _ => false end.
Definition jobs (l : Lane) : nat := length (l_queue l) + (if serving l then 1 else 0).
(** A lane that [live] still counts; a panic is never counted off. *)
Definition counted (l : Lane) : nat := match l_worker l with Left | Gone => 0 | _ => 1 end.
Definition held (r : Reader) : nat := match r with AtMap _ | AwaitsRoom _ _ => 1 | _ => 0 end.
Definition drained (r : Reader) : bool := match r with Draining _ | ClosingWrite _ | Returned _ => true | _ => false end.

Definition queued (k : string) (lanes : list Lane) : list bytes :=
  lanes ≫= (fun l => if decide (l_key l = k) then l_queue l else []).
Definition busy (k : string) (lanes : list Lane) : bool :=
  existsb (fun l => bool_decide (l_key l = k) && serving l) lanes.

Arguments queued _ _ : simpl never.
Arguments busy _ _ : simpl never.

Lemma queued_none k ls : (forall i l, ls !! i = Some l -> l_key l = k -> l_queue l = []) -> queued k ls = [].
Proof.
  induction ls as [|a ls IH]; intros H; [done|]. unfold queued. cbn. fold (queued k ls).
  rewrite IH by (intros i; apply (H (S i))). rewrite app_nil_r. case_decide; [|done]. by apply (H 0%nat).
Qed.
Lemma queued_app k l1 l2 : queued k (l1 ++ l2) = queued k l1 ++ queued k l2.
Proof. apply bind_app. Qed.
Lemma queued_at k ls i l : ls !! i = Some l -> l_key l = k ->
  (forall j l', ls !! j = Some l' -> l_key l' = k -> j <> i -> l_queue l' = []) -> queued k ls = l_queue l.
Proof.
  revert i. induction ls as [|a ls IH]; intros [|i] Hi Hk Ho; simplify_eq/=; unfold queued; cbn; fold (queued (l_key l) ls).
  - rewrite decide_True by done. rewrite queued_none; [by rewrite app_nil_r|]. intros j l' Hj Hk'. by apply (Ho (S j)).
  - rewrite (IH i) by (try done; intros j l' ???; apply (Ho (S j)); auto; lia).
    case_decide; [|done]. by rewrite (Ho 0%nat a).
Qed.
Lemma queued_insert k ls i l l' : ls !! i = Some l -> l_key l' = l_key l -> (l_key l = k -> l_queue l' = l_queue l) ->
  queued k (<[i := l']> ls) = queued k ls.
Proof.
  revert i. induction ls as [|a ls IH]; intros [|i] Hi Hk Hq; simplify_eq/=; unfold queued; cbn.
  - rewrite Hk. case_decide; [|done]. by rewrite Hq.
  - fold (queued k ls). fold (queued k (<[i:=l']> ls)). by rewrite (IH i).
Qed.

Lemma busy_false k ls : busy k ls = false <-> forall i l, ls !! i = Some l -> l_key l = k -> serving l = false.
Proof.
  unfold busy. split.
  - intros H i l Hi Hk. destruct (serving l) eqn:E; [|done]. exfalso.
    assert (Ht : existsb (fun l => bool_decide (l_key l = k) && serving l) ls = true); [|congruence].
    apply existsb_exists. exists l. split; [by apply list_elem_of_In, list_elem_of_lookup; eauto|].
    by rewrite bool_decide_eq_true_2, E.
  - intros H. destruct (existsb _ ls) eqn:E; [|done]. apply existsb_exists in E as (l & Hin & Hb).
    apply list_elem_of_In, list_elem_of_lookup in Hin as [i Hi]. apply andb_true_iff in Hb as [Hk Hs].
    apply bool_decide_eq_true in Hk. by rewrite (H i l) in Hs.
Qed.
Lemma busy_true k ls i l : ls !! i = Some l -> l_key l = k -> serving l = true -> busy k ls = true.
Proof. intros Hi Hk Hs. destruct (busy k ls) eqn:E; [done|]. rewrite busy_false in E. by rewrite (E i l) in Hs. Qed.
Lemma busy_insert k ls i l l' : ls !! i = Some l -> l_key l' = l_key l -> (l_key l = k -> serving l' = serving l) ->
  busy k (<[i := l']> ls) = busy k ls.
Proof.
  revert i. induction ls as [|a ls IH]; intros [|i] Hi Hk Hs; simplify_eq/=; unfold busy; cbn.
  - rewrite Hk. case_bool_decide; cbn; [|done]. by rewrite Hs.
  - fold (busy k ls). fold (busy k (<[i:=l']> ls)). by rewrite (IH i).
Qed.

Lemma busy_at k ls i l : ls !! i = Some l -> l_key l = k ->
  (forall j l', ls !! j = Some l' -> l_key l' = k -> j <> i -> serving l' = false) -> busy k ls = serving l.
Proof.
  intros Hi Hk Ho. destruct (serving l) eqn:E; [by eapply busy_true|]. apply busy_false. intros j l' Hj Hk'.
  destruct (decide (j = i)) as [->|Hne]; [congruence|]. by eapply Ho.
Qed.

(** ** What the events say *)

(** The payloads of a key that entered its lanes, and those that left them, to the
    listener or with a lane that was dropped. *)
Definition enqueued (k : string) (evs : list LEvent) : list bytes :=
  omap (fun e => match e with Enqueued k' p => if decide (k' = k) then Some p else None | _ => None end) evs.
Definition handed (k : string) (evs : list LEvent) : list bytes :=
  omap (fun e => match e with Handed k' p => if decide (k' = k) then Some p else None | _ => None end) evs.
Definition settled (k : string) (evs : list LEvent) : list bytes :=
  omap (fun e => match e with Handed k' p | Dropped k' p => if decide (k' = k) then Some p else None | _ => None end) evs.

(** The listener is called for a key only when its last call for the key is over: the
    state after the events, if they obey this. *)
Fixpoint turns (k : string) (b : bool) (evs : list LEvent) : option bool :=
  match evs with
  | [] => Some b
  | Handed k' _ :: evs => if decide (k' = k) then (if b then None else turns k true evs) else turns k b evs
  | (Finished k' | Panicked k') :: evs => if decide (k' = k) then (if b then turns k false evs else None) else turns k b evs
  | _ :: evs => turns k b evs
  end.

Lemma turns_app k b e1 e2 : turns k b (e1 ++ e2) = b' ← turns k b e1; turns k b' e2.
Proof. revert b. induction e1 as [|[] e1 IH]; intros b; cbn; try done; repeat case_decide; try done; by destruct b. Qed.
Lemma enqueued_app k e1 e2 : enqueued k (e1 ++ e2) = enqueued k e1 ++ enqueued k e2.
Proof. apply omap_app. Qed.
Lemma settled_app k e1 e2 : settled k (e1 ++ e2) = settled k e1 ++ settled k e2.
Proof. apply omap_app. Qed.

Lemma drop_queue_settled l : settled (l_key l) (drop_queue l) = l_queue l.
Proof. unfold drop_queue. induction (l_queue l) as [|p q IH]; [done|]. cbn. rewrite decide_True by done. by f_equal. Qed.
Lemma drop_queue_other k l : k <> l_key l -> settled k (drop_queue l) = [].
Proof. intros Hk. unfold drop_queue. induction (l_queue l) as [|p q IH]; [done|]. cbn. rewrite decide_False by done. done. Qed.
Lemma drop_queue_enqueued k l : enqueued k (drop_queue l) = [].
Proof. unfold drop_queue. by induction (l_queue l). Qed.
Lemma drop_queue_turns k b l : turns k b (drop_queue l) = Some b.
Proof. unfold drop_queue. by induction (l_queue l). Qed.
#[local] Hint Rewrite drop_queue_settled drop_queue_enqueued drop_queue_turns : lanes.

(** The events [e] of a lane that becomes [l'] from [l]. *)
Record told (l l' : Lane) (e : list LEvent) : Prop := {
  told_enqueued : forall k, enqueued k e = [];
  told_settled : settled (l_key l) e ++ l_queue l' = l_queue l;
  told_turns : turns (l_key l) (serving l) e = Some (serving l');
  told_others : forall k, k <> l_key l -> settled k e = [] /\ forall b, turns k b e = Some b
}.

Lemma settled_handed k evs : (forall k p, Dropped k p ∉ evs) -> settled k evs = handed k evs.
Proof.
  induction evs as [|e evs IH]; intros Hn; [done|].
  assert (IH' : settled k evs = handed k evs) by (apply IH; set_solver).
  destruct e as [| | | |k' p]; cbn; try done.
  - case_decide; [by f_equal|done].
  - destruct (Hn k' p). set_solver.
Qed.

(** Only a panic drops payloads. *)
Definition panics (evs : list LEvent) : Prop := exists k, Panicked k ∈ evs.
Lemma panics_app e1 e2 : panics (e1 ++ e2) <-> panics e1 \/ panics e2.
Proof. unfold panics. setoid_rewrite elem_of_app. naive_solver. Qed.

Lemma told_hand k p q w q' w' : serving (mkLane k (p :: q) w) = false -> q' = q -> w' = Serving p ->
  told (mkLane k (p :: q) w) (mkLane k q' w') [Handed k p].
Proof.
  intros Hs -> ->. split; cbn [l_key l_queue].
  - done.
  - cbn. by rewrite decide_True by done.
  - rewrite Hs. cbn. by rewrite decide_True by done.
  - intros k' Hk. split; [|intros b]; cbn; by rewrite decide_False by congruence.
Qed.
Lemma told_finish k q p w' : w' = Receiving -> told (mkLane k q (Serving p)) (mkLane k q w') [Finished k].
Proof.
  intros ->. split; cbn; try done; [by rewrite decide_True by done|]. intros k' Hk. split; [|intros b]; cbn; by rewrite ?decide_False by congruence.
Qed.
Lemma told_panic k q p : told (mkLane k q (Serving p)) (mkLane k [] Dead) (Panicked k :: drop_queue (mkLane k q (Serving p))).
Proof.
  set (l := mkLane k q (Serving p)). split; cbn [l_key l_queue].
  - intros k'. apply (drop_queue_enqueued k' l).
  - rewrite app_nil_r. apply (drop_queue_settled l).
  - cbn. rewrite decide_True by done. apply (drop_queue_turns k false l).
  - intros k' Hk. split; [by apply (drop_queue_other k' l)|]. intros b. cbn in *. rewrite decide_False by congruence.
    apply (drop_queue_turns k' b l).
Qed.
Lemma told_nothing l l' : l_queue l' = l_queue l -> serving l' = serving l -> told l l' [].
Proof. intros Hq Hs. split; cbn; try done. by rewrite Hs. Qed.

Section lane_theorems.
Context (opts : ChannelOpts) (id : string).
(** No lane is shallower than the budget, as in every configuration of the program. *)
Hypothesis Hfit : (budget opts <= lane_cap opts)%nat.
Abbreviation step := (lane_step opts id).
Implicit Type s : ReadLoop.

Record lanes_wf s : Prop := {
  wf_txs : forall k i, txs (lane_set s) !! k = Some i ->
    exists l, lanes (lane_set s) !! i = Some l /\ l_key l = k /\ retired l = false;
  wf_active : forall i l, lanes (lane_set s) !! i = Some l -> active l = true ->
    txs (lane_set s) !! l_key l = Some i \/ drained (reader s) = true;
  wf_unique : forall i j l l', lanes (lane_set s) !! i = Some l -> lanes (lane_set s) !! j = Some l' ->
    active l = true -> active l' = true -> l_key l = l_key l' -> i = j;
  wf_empty : forall i l, lanes (lane_set s) !! i = Some l -> active l = false -> l_queue l = [];
  wf_budget : (permits (lane_set s) + elsewhere s + held (reader s) + sum_list_with jobs (lanes (lane_set s)) = budget opts)%nat;
  wf_live : live (lane_set s) = sum_list_with counted (lanes (lane_set s));
  wf_room : waits_at (reader s) = None;
  wf_cleared : drained (reader s) = true -> txs (lane_set s) = ∅
}.

Lemma wf_worker s i l l' txs' live' permits' : lanes_wf s -> lanes (lane_set s) !! i = Some l -> l_key l' = l_key l ->
  (active l' = true -> active l = true) -> (active l' = false -> l_queue l' = []) ->
  (txs' = txs (lane_set s) /\ (txs (lane_set s) !! l_key l = Some i -> retired l' = false) \/
   txs' = delete (l_key l) (txs (lane_set s)) /\ txs (lane_set s) !! l_key l = Some i /\ active l' = false) ->
  (permits' + jobs l' = permits (lane_set s) + jobs l)%nat ->
  (live' + counted l = live (lane_set s) + counted l')%nat ->
  lanes_wf (with_lanes (mkLaneSet txs' (<[i := l']> (lanes (lane_set s))) live' permits') s).
Proof.
  intros [Ht Ha Hu He Hb Hl Hr Hcr] Hi Hk Hac Hem Htx Hp Hv.
  assert (Hin : forall j lj, <[i := l']> (lanes (lane_set s)) !! j = Some lj -> j = i /\ lj = l' \/ j <> i /\ lanes (lane_set s) !! j = Some lj).
  { intros j lj Hj. destruct (decide (j = i)) as [->|Hne]; [|right; by rewrite list_lookup_insert_ne in Hj by done].
    apply list_lookup_insert_Some in Hj as [(_ & <- & _)|(Hne & _)]; [by left|done]. }
  assert (Hlt : (i < length (lanes (lane_set s)))%nat) by (by eapply lookup_lt_Some).
  split; cbn.
  - intros k j Hj. assert (Hj' : txs (lane_set s) !! k = Some j).
    { destruct Htx as [[-> _]|(-> & _)]; [done|]. by apply lookup_delete_Some in Hj as [_ Hj]. }
    destruct (Ht _ _ Hj') as (lj & Elj & Ek & Er). destruct (decide (j = i)) as [->|Hne].
    + exists l'. rewrite list_lookup_insert_eq by done. rewrite Hi in Elj. injection Elj as ->.
      split_and!; [done|congruence|]. destruct Htx as [[-> H]|(-> & _ & _)]; [apply H; congruence|].
      rewrite <- Ek, lookup_delete_eq in Hj. done.
    + exists lj. by rewrite list_lookup_insert_ne.
  - intros j lj Hj Haj. destruct (Hin _ _ Hj) as [[-> ->]|[Hne Hj']].
    + rewrite Hk. destruct Htx as [[-> _]|(_ & _ & Hn)]; [|congruence]. by apply Ha; auto.
    + destruct (Ha _ _ Hj' Haj) as [Hx|Hx]; [|by right]. left.
      destruct Htx as [[-> _]|(-> & Htx & _)]; [done|]. rewrite lookup_delete_ne; [done|]. intros E. rewrite <- E in Hx. congruence.
  - intros j1 j2 l1 l2 H1 H2 A1 A2 Ek.
    destruct (Hin _ _ H1) as [[-> ->]|[N1 H1']], (Hin _ _ H2) as [[-> ->]|[N2 H2']]; try done.
    + exfalso. apply N2. symmetry. eapply (Hu i j2 l l2); eauto. congruence.
    + exfalso. apply N1. eapply (Hu j1 i l1 l); eauto. congruence.
    + by eapply Hu.
  - intros j lj Hj Haj. destruct (Hin _ _ Hj) as [[-> ->]|[Hne Hj']]; [by apply Hem|by eapply He].
  - pose proof (sum_list_insert jobs _ _ _ l' Hi). lia.
  - pose proof (sum_list_insert counted _ _ _ l' Hi). lia.
  - done.
  - intros Hd. destruct Htx as [[-> _]|(-> & _)]; [auto|]. by rewrite (Hcr Hd), delete_empty.
Qed.

(** A step of a lane's task, in the shape [wf_worker] takes. *)
Record worked s i (l l' : Lane) txs' live' permits' e : Prop := {
  wk_at : lanes (lane_set s) !! i = Some l;
  wk_key : l_key l' = l_key l;
  wk_was : active l = true \/ l_queue l = [] /\ e = [];
  wk_active : active l' = true -> active l = true;
  wk_empty : active l' = false -> l_queue l' = [];
  wk_txs : txs' = txs (lane_set s) /\ (txs (lane_set s) !! l_key l = Some i -> retired l' = false) \/
    txs' = delete (l_key l) (txs (lane_set s)) /\ txs (lane_set s) !! l_key l = Some i /\ active l' = false;
  wk_permits : (permits' + jobs l' = permits (lane_set s) + jobs l)%nat;
  wk_live : (live' + counted l = live (lane_set s) + counted l')%nat;
  wk_told : told l l' e
}.

Lemma worker_worked s i a ls e : lanes_wf s -> worker_step (waits_at (reader s)) i a (lane_set s) = Some (ls, e) ->
  exists l l' txs' live' permits', ls = mkLaneSet txs' (<[i := l']> (lanes (lane_set s))) live' permits' /\
    worked s i l l' txs' live' permits' e.
Proof.
  intros Hwf H. unfold worker_step in H. destruct (lanes (lane_set s) !! i) as [[k q w]|] eqn:Hi; [|done]. cbn in H.
  pose proof (wf_empty _ Hwf i _ Hi) as Hem. pose proof (wf_live _ Hwf) as Hlive.
  pose proof (sum_list_ge counted _ _ _ Hi) as Hge.
  assert (Hret : forall l : Lane, l = mkLane k q w -> retired l = true -> txs (lane_set s) !! k <> Some i).
  { intros l -> Hr E. destruct (wf_txs _ Hwf _ _ E) as (l' & El & _ & Hr'). congruence. }
  destruct a, w; try done; try (destruct q as [|p q]; done); try (destruct q as [|p q]; [done|]); unfold no_sender in H; cbn in H; case_all;
    simplify_eq; eexists _, _, _, _, _; (split; [reflexivity|]).
  all: split; [exact Hi|reflexivity|..]; cbn in *.
  all: unfold jobs, drop_queue in *; cbn in *; try done; try lia; try tauto.
  all: try (by apply told_hand); try (by apply told_finish); try (by apply told_panic);
    try (left; split; [done|]; intros E; by destruct (Hret _ eq_refl eq_refl)).
  all: rewrite (Hem eq_refl); first [by right|by apply told_nothing].
Qed.

Lemma worked_wf s i l l' txs' live' permits' e : lanes_wf s -> worked s i l l' txs' live' permits' e ->
  lanes_wf (with_lanes (mkLaneSet txs' (<[i := l']> (lanes (lane_set s))) live' permits') s).
Proof. intros Hwf []. by eapply wf_worker. Qed.

(** *** The events of a run *)

Record lanes_told s (evs : list LEvent) : Prop := {
  lt_wf : lanes_wf s;
  lt_order : forall k, enqueued k evs = settled k evs ++ queued k (lanes (lane_set s));
  lt_turns : forall k, turns k false evs = Some (busy k (lanes (lane_set s)))
}.

(** Beside an active lane no other one of its key holds a payload or is at the listener. *)
Lemma only_active s i l : lanes_wf s -> lanes (lane_set s) !! i = Some l -> active l = true ->
  forall j l', lanes (lane_set s) !! j = Some l' -> l_key l' = l_key l -> j <> i -> l_queue l' = [] /\ serving l' = false.
Proof.
  intros Hwf Hi Ha j l' Hj Hk Hne. destruct (active l') eqn:E.
  - exfalso. apply Hne. by eapply (wf_unique _ Hwf j i).
  - split; [by eapply wf_empty|]. by destruct l' as [k q []].
Qed.

Lemma told_worker s evs i a ls e : lanes_told s evs ->
  worker_step (waits_at (reader s)) i a (lane_set s) = Some (ls, e) -> lanes_told (with_lanes ls s) (evs ++ e).
Proof.
  intros [Hwf Ho Ht] H. destruct (worker_worked _ _ _ _ _ Hwf H) as (l & l' & t' & v' & p' & -> & Hw).
  split; [by eapply worked_wf| |]; cbn; intros k; destruct Hw as [Hi Hk Hwas _ _ _ _ _ [He Hs Htu Hot]].
  - rewrite enqueued_app, He, app_nil_r, settled_app, Ho, <- app_assoc. f_equal.
    destruct (decide (k = l_key l)) as [->|Hne].
    + destruct Hwas as [Ha|[Hq ->]]; [|rewrite (queued_insert _ _ _ _ _ Hi Hk); [done|intros _; by rewrite Hq in *]].
      pose proof (only_active _ _ _ Hwf Hi Ha) as Hon.
      rewrite (queued_at _ _ i l Hi eq_refl) by (intros; by eapply Hon).
      rewrite (queued_at _ _ i l'), Hs; [done| |done|].
      * apply list_lookup_insert_eq. by eapply lookup_lt_Some.
      * intros j lj Hj Hkj Hne. rewrite list_lookup_insert_ne in Hj by done. by eapply Hon.
    + destruct (Hot k Hne) as [-> _]. symmetry. apply (queued_insert _ _ i l); congruence.
  - rewrite turns_app, Ht. cbn. destruct (decide (k = l_key l)) as [->|Hne].
    + destruct Hwas as [Ha|[Hq ->]]; [|injection Htu as Hsv; cbn; f_equal; symmetry; by apply (busy_insert _ _ i l)].
      pose proof (only_active _ _ _ Hwf Hi Ha) as Hon.
      rewrite (busy_at _ _ i l Hi eq_refl) by (intros; by eapply Hon).
      rewrite (busy_at _ _ i l'), Htu; [done| |done|].
      * apply list_lookup_insert_eq. by eapply lookup_lt_Some.
      * intros j lj Hj Hkj Hne. rewrite list_lookup_insert_ne in Hj by done. by eapply Hon.
    + destruct (Hot k Hne) as [_ ->]. f_equal. symmetry. apply (busy_insert _ _ i l); congruence.
Qed.

(** *** The reader *)

Lemma told_reader s evs r t' p' o' : lanes_told s evs ->
  t' = txs (lane_set s) /\ drained r = drained (reader s) \/ t' = ∅ /\ drained r = true -> (drained (reader s) = true -> drained r = true) ->
  (p' + o' + held r = permits (lane_set s) + elsewhere s + held (reader s))%nat -> waits_at r = None ->
  lanes_told (mkReadLoop r (mkLaneSet t' (lanes (lane_set s)) (live (lane_set s)) p') o') (evs ++ []).
Proof.
  intros [[Ht Ha Hu He Hb Hl Hr Hcr] Ho Htu] Ht' Hd Hp Hw. rewrite app_nil_r. split; [|done|done]. split; cbn; try done.
  - destruct Ht' as [[-> _]|[-> _]]; [done|]. intros k i E. by rewrite lookup_empty in E.
  - intros i l Hi Hact. destruct (Ha i l Hi Hact) as [E|E]; [|by right; auto].
    destruct Ht' as [[-> _]|[-> Hdr]]; auto.
  - lia.
  - intros Hdr. destruct Ht' as [[-> E]|[-> _]]; [|done]. apply Hcr. congruence.
Qed.

Lemma lookup_snoc {A} (l : list A) x i y : (l ++ [x]) !! i = Some y -> l !! i = Some y \/ i = length l /\ y = x.
Proof.
  intros H. apply lookup_app_Some in H as [H|[Hl H]]; [by left|]. right.
  apply list_lookup_singleton_Some in H as [H ->]. split; [lia|done].
Qed.

Lemma told_spawn s evs k : lanes_told s evs -> drained (reader s) = false -> txs (lane_set s) !! k = None ->
  lanes_told (with_lanes (spawn_lane k (lane_set s)) s) evs.
Proof.
  intros [[Ht Ha Hu He Hb Hl Hr Hcr] Ho Htu] Hd Hk.
  assert (Hno : forall i l, lanes (lane_set s) !! i = Some l -> l_key l = k -> active l = false).
  { intros i l Hi Hkl. destruct (active l) eqn:E; [|done]. destruct (Ha i l Hi E); congruence. }
  split; [split; cbn| |]; cbn.
  - intros k' i Hi. apply lookup_insert_Some in Hi as [[-> <-]|[Hne Hi]].
    + eexists. rewrite lookup_app_r, Nat.sub_diag by done. by split_and!.
    + destruct (Ht _ _ Hi) as (l & Hil & Hkl). exists l. by rewrite lookup_app_l by (by eapply lookup_lt_Some).
  - intros i l Hi Hact. apply lookup_snoc in Hi as [Hi|[-> ->]]; [|left; apply lookup_insert_eq].
    destruct (Ha i l Hi Hact) as [E|E]; [|congruence]. left. rewrite lookup_insert_ne; [done|].
    intros E'. by rewrite (Hno i l) in Hact.
  - intros i j l l' Hi Hj Al Al' Hkk. apply lookup_snoc in Hi as [Hi|[-> ->]], Hj as [Hj|[-> ->]]; cbn in *.
    + by eapply Hu.
    + by rewrite (Hno i l) in Al.
    + by rewrite (Hno j l') in Al'.
    + done.
  - intros i l Hi Hact. apply lookup_snoc in Hi as [Hi|[-> ->]]; [by eapply He|done].
  - rewrite sum_list_app. cbn. lia.
  - rewrite sum_list_app. cbn. lia.
  - done.
  - congruence.
  - intros k'. rewrite queued_app, (queued_none k' [_]), app_nil_r; [done|]. intros [|i] l Hi; by simplify_eq/=.
  - intros k'. rewrite Htu. f_equal. unfold busy. rewrite existsb_app. cbn. by rewrite andb_false_r, orb_false_r.
Qed.

(** A payload enters the lane the map names. *)
Lemma named_active s i l : lanes_wf s -> txs (lane_set s) !! l_key l = Some i -> lanes (lane_set s) !! i = Some l ->
  closed_lane l = false -> active l = true.
Proof.
  intros Hwf Hx Hi Hc. destruct (wf_txs _ Hwf _ _ Hx) as (l0 & E0 & _ & Hret).
  assert (l0 = l) as -> by congruence. by destruct l as [k q []].
Qed.

Definition pushed (i : nat) (l : Lane) (p : bytes) s : ReadLoop :=
  at_reader AtTop (with_lanes (with_lane i (with_queue (l_queue l ++ [p]) l) (lane_set s)) s).

Lemma wf_push s p i l : lanes_wf s -> reader s = AtMap p -> lanes (lane_set s) !! i = Some l -> active l = true ->
  lanes_wf (pushed i l p s).
Proof.
  intros Hwf Er Hi Hact. set (l' := with_queue (l_queue l ++ [p]) l).
  assert (Hi' : <[i := l']> (lanes (lane_set s)) !! i = Some l') by (apply list_lookup_insert_eq; by eapply lookup_lt_Some).
  assert (Hin : forall j lj, <[i := l']> (lanes (lane_set s)) !! j = Some lj -> exists lo, lanes (lane_set s) !! j = Some lo /\
    l_key lj = l_key lo /\ active lj = active lo /\ retired lj = retired lo /\ (j <> i -> lj = lo)).
  { intros j lj Hj. destruct (decide (j = i)) as [->|Hne]; [exists l; by simplify_eq|].
    rewrite list_lookup_insert_ne in Hj by done. by exists lj. }
  split; cbn.
  - intros k j Hj. destruct (wf_txs _ Hwf _ _ Hj) as (lj & Ej & Hk & Hrj). destruct (decide (j = i)) as [->|Hne].
    + exists l'. rewrite Ej in Hi. by simplify_eq.
    + exists lj. by rewrite list_lookup_insert_ne.
  - intros j lj Hj Haj. destruct (Hin _ _ Hj) as (lo & Elo & -> & E & _). rewrite E in Haj.
    destruct (wf_active _ Hwf j lo Elo Haj) as [H|H]; [by left|]. by rewrite Er in H.
  - intros j1 j2 l1 l2 H1 H2 A1 A2 Hk. destruct (Hin _ _ H1) as (o1 & E1 & K1 & B1 & _), (Hin _ _ H2) as (o2 & E2 & K2 & B2 & _).
    eapply (wf_unique _ Hwf j1 j2 o1 o2); congruence.
  - intros j lj Hj Haj. destruct (Hin _ _ Hj) as (lo & Elo & Hkj & E & _ & Hsame).
    destruct (decide (j = i)) as [->|Hne]; [congruence|]. rewrite (Hsame Hne) in *. by eapply wf_empty.
  - pose proof (wf_budget _ Hwf) as Hb. rewrite Er in Hb. cbn in Hb.
    pose proof (sum_list_insert jobs _ _ _ l' Hi). unfold l', jobs, with_queue in *. cbn in *. rewrite length_app in *. cbn in *.
    unfold serving in *. cbn in *. lia.
  - pose proof (sum_list_insert counted _ _ _ l' Hi) as Hn. change (counted l') with (counted l) in Hn.
    change (live (lane_set s) = sum_list_with counted (<[i := l']> (lanes (lane_set s)))). rewrite (wf_live _ Hwf). lia.
  - done.
  - done.
Qed.

Lemma told_push s evs p i l : lanes_told s evs -> reader s = AtMap p -> txs (lane_set s) !! l_key l = Some i ->
  lanes (lane_set s) !! i = Some l -> closed_lane l = false ->
  lanes_told (pushed i l p s) (evs ++ [Enqueued (l_key l) p]).
Proof.
  intros [Hwf Ho Htu] Er Hx Hi Hc. pose proof (named_active _ _ _ Hwf Hx Hi Hc) as Hact.
  pose proof (only_active _ _ _ Hwf Hi Hact) as Hon. set (l' := with_queue (l_queue l ++ [p]) l).
  assert (Hi' : <[i := l']> (lanes (lane_set s)) !! i = Some l') by (apply list_lookup_insert_eq; by eapply lookup_lt_Some).
  split; [by eapply wf_push| |]; cbn; fold l'.
  - intros k. rewrite enqueued_app, settled_app, Ho. cbn. rewrite app_nil_r. destruct (decide (l_key l = k)) as [<-|Hne].
    + rewrite (queued_at _ _ i l Hi eq_refl), (queued_at (l_key l) _ i l' Hi' eq_refl), <- app_assoc; [done| |].
      * intros j lj Hj Hkj Hne. rewrite list_lookup_insert_ne in Hj by done. by eapply Hon.
      * intros. by eapply Hon.
    + rewrite app_nil_r. f_equal. symmetry. by apply (queued_insert _ _ i l).
  - intros k. rewrite turns_app, Htu. cbn. f_equal. symmetry. by apply (busy_insert _ _ i l).
Qed.

(** A lane the listener's panic closed loses its place in the map. *)
Lemma told_forget s evs k i l : lanes_told s evs -> txs (lane_set s) !! k = Some i -> lanes (lane_set s) !! i = Some l ->
  closed_lane l = true -> lanes_told (with_lanes (with_txs (delete k (txs (lane_set s))) (lane_set s)) s) (evs ++ []).
Proof.
  intros [[Ht Ha Hu He Hb Hl Hr Hcr] Ho Htu] Hx Hi Hc. rewrite app_nil_r. split; [split; cbn|done|done]; try done.
  - intros k' j Hj. apply lookup_delete_Some in Hj as [_ Hj]. by apply Ht.
  - intros j lj Hj Hact. destruct (Ha j lj Hj Hact) as [E|E]; [|by right]. left.
    rewrite lookup_delete_ne; [done|]. intros Ek. assert (j = i) as -> by congruence.
    assert (lj = l) as -> by congruence. unfold closed_lane, active in *. by destruct (l_worker l).
  - intros Hd. by rewrite (Hcr Hd), delete_empty.
Qed.

Lemma told_at_map s evs p s' e : lanes_told s evs -> reader s = AtMap p -> reader_step opts id TryLane s = Some (s', e) ->
  lanes_told s' (evs ++ e).
Proof.
  intros Ht Er H. unfold reader_step in H. rewrite Er in H. set (k := lane_id opts id p) in *. unfold try_lane in H.
  assert (Hs : exists s1 i, lanes_told s1 evs /\ reader s1 = AtMap p /\ elsewhere s1 = elsewhere s /\
    txs (lane_set s1) !! k = Some i /\
    match txs (lane_set s) !! k with Some i => (lane_set s, i) | None => (spawn_lane k (lane_set s), length (lanes (lane_set s))) end
    = (lane_set s1, i)).
  { destruct (txs (lane_set s) !! k) as [i|] eqn:Ex; [by exists s, i|].
    exists (with_lanes (spawn_lane k (lane_set s)) s), (length (lanes (lane_set s))).
    split_and!; try done; [apply told_spawn; [done|by rewrite Er|done]|cbn; apply lookup_insert_eq]. }
  destruct Hs as (s1 & i & Ht1 & Er1 & Eo & Ex & E). rewrite E in H. cbv beta iota in H.
  assert (Hw : forall r, at_reader r (with_lanes (lane_set s1) s) = at_reader r s1) by (intros r; unfold at_reader; cbn; by rewrite Eo).
  destruct (wf_txs _ (lt_wf _ _ Ht1) _ _ Ex) as (l & Hi & Hk & _). rewrite Hi in H. destruct (closed_lane l) eqn:Hc.
  - cbn in H. injection H as <- <-.
    replace (with_lanes _ s) with (with_lanes (with_txs (delete k (txs (lane_set s1))) (lane_set s1)) s1)
      by (unfold with_lanes; cbn; by rewrite Er, Er1, Eo).
    by eapply told_forget.
  - destruct (Nat.ltb_spec (length (l_queue l)) (lane_cap opts)) as [Hlt|Hge].
    + cbn in H. injection H as <- <-. replace (at_reader AtTop _) with (pushed i l p s1)
        by (unfold pushed, at_reader, with_lanes; cbn; by rewrite Eo).
      rewrite <- Hk. eapply told_push; try done. by rewrite Hk.
    + exfalso. pose proof (wf_budget _ (lt_wf _ _ Ht1)) as Hb. rewrite Er1 in Hb. cbn in Hb.
      pose proof (sum_list_ge jobs _ _ _ Hi) as Hj. unfold jobs at 1 in Hj. lia.
Qed.

Lemma told_step s evs a s' e : lanes_told s evs -> step s a = Some (s', e) -> lanes_told s' (evs ++ e).
Proof.
  intros Ht H. pose proof (wf_room _ (lt_wf _ _ Ht)) as Hroom.
  destruct a as [a|i a| |]; cbn [lane_step] in H.
  - destruct (reader s) eqn:Er; destruct a; cbn [reader_step] in H; rewrite ?Er in H; try done.
    all: try (by eapply told_at_map; [done| |cbn [reader_step]; rewrite ?Er]).
    all: repeat case_match; simplify_eq; try done.
    all: destruct s as [r [t ls v p0] o]; cbn in *; subst.
    all: try match goal with f : Frame |- _ => destruct f as [[] [|]] end.
    all: eapply (told_reader _ _ _ _ _ _ Ht); cbn; auto; first [lia|destruct p0; [done|lia]].
  - destruct (worker_step _ i a _) as [[ls ew]|] eqn:Ew; [|done]. cbn in H. injection H as <- <-. by eapply told_worker.
  - case_match; [|done]. injection H as <- <-. eapply (told_reader _ _ _ _ _ _ Ht); cbn; auto.
    apply Nat.ltb_lt in H0. lia.
  - case_match; [done|]. injection H as <- <-. eapply (told_reader _ _ _ _ _ _ Ht); cbn; auto. lia.
Qed.

Lemma told_run acts s evs : lane_run opts id acts (ReadLoop_new opts) = Some (s, evs) -> lanes_told s evs.
Proof.
  intros Hr. change evs with ([] ++ evs). eapply (run_acts_inv _ lanes_told); [| |exact Hr].
  - intros s1 e1 a s2 e2. apply told_step.
  - split; [split; cbn|done|done]; try done; try (intros k i E; by rewrite lookup_empty in E). lia.
Qed.

Lemma reader_quiet a s s' e : reader_step opts id a s = Some (s', e) -> e = [] \/ exists k p, e = [Enqueued k p].
Proof.
  unfold reader_step. intros H. destruct a, (reader s); try done; cbn in H; repeat case_match; simplify_eq; eauto.
  all: destruct (lanes (lane_set s) !! _) as [l|]; [|done]; cbn in H; repeat case_match; simplify_eq; eauto.
Qed.

Lemma worker_panic s i a ls e : lanes_wf s -> worker_step (waits_at (reader s)) i a (lane_set s) = Some (ls, e) ->
  panics e /\ a = ListenerPanics \/ a <> ListenerPanics /\ ~ panics e /\ forall k p, Dropped k p ∉ e.
Proof.
  intros Hwf H. unfold worker_step in H. destruct (lanes (lane_set s) !! i) as [[k q w]|] eqn:Hi; [|done]. cbn in H.
  pose proof (wf_empty _ Hwf i _ Hi) as Hem.
  destruct a, w; try done; try (destruct q as [|p q]; done); try (destruct q as [|p q]; [done|]); cbn in H; repeat case_match; simplify_eq.
  all: try (right; split; [done|]; split; [intros [? ?]|intros ? ?]; rewrite ?elem_of_cons in *; set_solver).
  - left. split; [|done]. exists k. set_solver.
  - right. split; [done|]. unfold drop_queue, panics. cbn in *. rewrite (Hem eq_refl). set_solver.
Qed.

Definition workers s : list Worker := l_worker <$> lanes (lane_set s).

Lemma worker_workers s i a ls e : worker_step (waits_at (reader s)) i a (lane_set s) = Some (ls, e) ->
  exists w w', workers s !! i = Some w /\ w <> Dead /\ (w' = Dead <-> a = ListenerPanics) /\
    workers (with_lanes ls s) = <[i := w']> (workers s).
Proof.
  unfold workers. intros H. unfold worker_step in H. destruct (lanes (lane_set s) !! i) as [[k q w]|] eqn:Hi; [|done]. cbn in H.
  assert (Hf : (l_worker <$> lanes (lane_set s)) !! i = Some w) by (by rewrite list_lookup_fmap, Hi).
  destruct a, w; try done; try (destruct q as [|p q]; done); try (destruct q as [|p q]; [done|]); cbn in H; repeat case_match; simplify_eq.
  all: eexists _, _; split_and!; [exact Hf|done| |cbn; rewrite list_fmap_insert; reflexivity]; cbn; done.
Qed.

Lemma reader_workers a s s' e : reader_step opts id a s = Some (s', e) ->
  workers s' = workers s \/ workers s' = workers s ++ [Receiving].
Proof.
  assert (Hq : forall ls i l q, lanes ls !! i = Some l -> l_worker <$> <[i := with_queue q l]> (lanes ls) = l_worker <$> lanes ls).
  { intros ls i l q Hi. rewrite list_fmap_insert. apply list_insert_id. by rewrite list_lookup_fmap, Hi. }
  unfold workers, reader_step, try_lane. intros H.
  destruct a, (reader s); try done; cbn in H; repeat case_match; simplify_eq; cbn; auto.
  all: repeat match goal with
       | H : (_, _) = (_, _) |- _ => injection H as <- <-
       | H : context [lanes ?ls !! ?i] |- _ => destruct (lanes ls !! i) as [l|] eqn:?; [|done]; cbn in H
       end; repeat case_match; simplify_eq; cbn; auto.
  all: try (left; by apply Hq); right.
  all: try (by rewrite fmap_app).
  match goal with H : lanes (spawn_lane ?k ?ls) !! _ = Some _ |- _ => etrans; [exact (Hq (spawn_lane k ls) _ _ _ H)|] end.
  cbn. by rewrite fmap_app.
Qed.

Record lanes_sound s (evs : list LEvent) : Prop := {
  ls_told : lanes_told s evs;
  ls_dropped : forall k p, Dropped k p ∈ evs -> panics evs;
  ls_dead : panics evs <-> Dead ∈ workers s
}.

Lemma sound_worker s evs i a ls e : lanes_sound s evs -> worker_step (waits_at (reader s)) i a (lane_set s) = Some (ls, e) ->
  lanes_sound (with_lanes ls s) (evs ++ e).
Proof.
  intros [Ht Hd Hx] H. pose proof (worker_panic _ _ _ _ _ (lt_wf _ _ Ht) H) as Hp.
  destruct (worker_workers _ _ _ _ _ H) as (w & w' & Hw & Hnd & Hd' & E).
  assert (Hlt : (i < length (workers s))%nat) by (by eapply lookup_lt_Some).
  split; [by eapply told_worker| |].
  - intros k p. rewrite elem_of_app, panics_app. intros [Hin|Hin]; [left; by eapply Hd|].
    destruct Hp as [[Hp _]|(_ & _ & Hp)]; [by right|]. by destruct (Hp k p).
  - rewrite panics_app, Hx, E. split.
    + intros [Hin|Hpe].
      * apply list_elem_of_lookup in Hin as [j Hj]. apply list_elem_of_lookup. exists j.
        rewrite list_lookup_insert_ne; [done|]. intros <-. congruence.
      * destruct Hp as [[_ ->]|(_ & Hp & _)]; [|done]. rewrite (proj2 Hd' eq_refl). by apply list_elem_of_insert.
    + intros Hin. destruct Hp as [[Hp _]|(Hn & Hp & _)]; [by right|]. left.
      apply list_elem_of_lookup in Hin as [j Hj]. apply list_lookup_insert_Some in Hj as [(<- & -> & _)|(Hne & Hj)]; [tauto|].
      apply list_elem_of_lookup. by exists j.
Qed.

Lemma sound_step s evs a s' e : lanes_sound s evs -> step s a = Some (s', e) -> lanes_sound s' (evs ++ e).
Proof.
  intros [Ht Hd Hx] H.
  assert (Hrest : workers s' = workers s \/ workers s' = workers s ++ [Receiving] -> e = [] \/ (exists k p, e = [Enqueued k p]) ->
    lanes_sound s' (evs ++ e)).
  { intros Hw He. split; [by eapply told_step| |].
    - intros k p. rewrite elem_of_app, panics_app. intros [Hin|Hin]; [left; by eapply Hd|].
      destruct He as [->|(k' & p' & ->)]; set_solver.
    - rewrite panics_app, Hx. assert (Hn : ~ panics e).
      { intros [k Hk]. destruct He as [->|(k' & p' & ->)]; set_solver. }
      destruct Hw as [->| ->]; set_solver. }
  destruct a as [a|i a| |]; cbn [lane_step] in H.
  - apply Hrest; [by eapply reader_workers|by eapply reader_quiet].
  - destruct (worker_step _ i a _) as [[ls ew]|] eqn:Ew; [|done]. cbn in H. injection H as <- <-.
    by eapply sound_worker.
  - case_match; [|done]. injection H as <- <-. apply Hrest; by left.
  - case_match; [done|]. injection H as <- <-. apply Hrest; by left.
Qed.

Lemma sound_run acts s evs : lane_run opts id acts (ReadLoop_new opts) = Some (s, evs) -> lanes_sound s evs.
Proof.
  intros Hr. change evs with ([] ++ evs). eapply (run_acts_inv _ lanes_sound); [| |exact Hr].
  - intros s1 e1 a s2 e2. apply sound_step.
  - split; [by apply (told_run [])|set_solver|]. unfold panics. set_solver.
Qed.

(** *** Draining *)

(** Steps of the lanes' tasks in which no listener panics. *)
Definition lane_act (a : LAct) : Prop := exists i w, a = ByLane i w /\ w <> ListenerPanics.

(** Lane [i], which is [l], can come to its end alone. *)
Definition can_end s i : Prop := exists acts s' evs l', lane_run opts id acts s = Some (s', evs) /\ Forall lane_act acts /\
  reader s' = reader s /\ txs (lane_set s') = txs (lane_set s) /\
  lanes (lane_set s') = <[i := l']> (lanes (lane_set s)) /\ counted l' = 0%nat.

Lemma can_end_step s i a s1 e1 l1 : step s (ByLane i a) = Some (s1, e1) -> a <> ListenerPanics -> reader s1 = reader s ->
  txs (lane_set s1) = txs (lane_set s) -> lanes (lane_set s1) = <[i := l1]> (lanes (lane_set s)) -> can_end s1 i -> can_end s i.
Proof.
  intros Hs Ha Er Et El (acts & s' & evs & l' & Hr & Hf & Er' & Et' & El' & Hc).
  exists (ByLane i a :: acts), s', (e1 ++ evs), l'. split_and!; [| |congruence|congruence| |done].
  - unfold lane_run in *. by rewrite (run_acts_cons _ _ _ _ _ _ Hs), Hr.
  - apply list.Forall_cons. split; [by exists i, a|done].
  - by rewrite El', El, list_insert_insert_eq.
Qed.

Lemma step_at s i a ls e : worker_step (waits_at (reader s)) i a (lane_set s) = Some (ls, e) ->
  step s (ByLane i a) = Some (with_lanes ls s, e).
Proof. intros H. cbn [lane_step]. by rewrite H. Qed.

Lemma can_end_leaving s i l : lanes (lane_set s) !! i = Some l -> l_worker l = Leaving -> can_end s i.
Proof.
  intros Hi Hw. eapply (can_end_step s i CountOff); [|done|..].
  - apply step_at. unfold worker_step. rewrite Hi. cbn. rewrite Hw. reflexivity.
  - done.
  - done.
  - cbn. reflexivity.
  - exists [], (with_lanes (count_off (with_lane i (with_worker Left l) (lane_set s))) s), [], (with_worker Left l).
    split_and!; try done. cbn. by rewrite list_insert_insert_eq.
Qed.

Lemma can_end_receiving q : forall s i l, lanes (lane_set s) !! i = Some l -> l_worker l = Receiving -> l_queue l = q ->
  txs (lane_set s) = ∅ -> waits_at (reader s) = None -> can_end s i.
Proof.
  induction q as [|p q IH]; intros s i l Hi Hw Hq Ht Hr.
  - eapply (can_end_step s i RecvNone); [|done|..].
    + apply step_at. unfold worker_step, no_sender. rewrite Hi. cbn. rewrite Hw, Hq, Ht, Hr, lookup_empty. cbn. reflexivity.
    + done.
    + done.
    + cbn. reflexivity.
    + eapply can_end_leaving; [cbn; apply list_lookup_insert_eq; by eapply lookup_lt_Some|done].
  - eapply (can_end_step s i RecvJob); [|done|..].
    + apply step_at. unfold worker_step. rewrite Hi. cbn. rewrite Hw, Hq. reflexivity.
    + done.
    + done.
    + cbn. reflexivity.
    + set (s1 := with_lanes _ s). assert (Hi1 : lanes (lane_set s1) !! i = Some (mkLane (l_key l) q (Serving p))).
      { cbn. apply list_lookup_insert_eq. by eapply lookup_lt_Some. }
      eapply (can_end_step s1 i ListenerDone); [|done|..].
      * apply step_at. unfold worker_step. rewrite Hi1. cbn. reflexivity.
      * done.
      * done.
      * reflexivity.
      * eapply IH; [cbn; apply list_lookup_insert_eq; rewrite length_insert; by eapply lookup_lt_Some|done|done|done|done].
Qed.

Lemma can_end_serving s i k q p : lanes (lane_set s) !! i = Some (mkLane k q (Serving p)) -> txs (lane_set s) = ∅ ->
  waits_at (reader s) = None -> can_end s i.
Proof.
  intros Hi Ht Hr. eapply (can_end_step s i ListenerDone); [|done|..].
  - apply step_at. unfold worker_step. rewrite Hi. reflexivity.
  - done.
  - done.
  - cbn. reflexivity.
  - eapply can_end_receiving; [cbn; apply list_lookup_insert_eq; by eapply lookup_lt_Some|done|reflexivity|done|done].
Qed.

Lemma can_end_idled s i k q : lanes (lane_set s) !! i = Some (mkLane k q Idled) -> txs (lane_set s) = ∅ ->
  waits_at (reader s) = None -> can_end s i.
Proof.
  intros Hi Ht Hr. pose proof (lookup_lt_Some _ _ _ Hi) as Hlt. destruct q as [|p q].
  - eapply (can_end_step s i Retire); [|done|..].
    + apply step_at. unfold worker_step. rewrite Hi. cbn. rewrite Ht, lookup_empty. cbn. reflexivity.
    + done.
    + by rewrite Ht.
    + cbn. reflexivity.
    + eapply can_end_leaving; [cbn; by apply list_lookup_insert_eq|done].
  - eapply (can_end_step s i Retire); [|done|..].
    + apply step_at. unfold worker_step. rewrite Hi. cbn. reflexivity.
    + done.
    + done.
    + cbn. reflexivity.
    + eapply can_end_serving; [cbn; by apply list_lookup_insert_eq|done|done].
Qed.

Lemma can_end_any s i l : lanes (lane_set s) !! i = Some l -> l_worker l <> Dead -> txs (lane_set s) = ∅ ->
  waits_at (reader s) = None -> can_end s i.
Proof.
  intros Hi Hw Ht Hr. destruct l as [k q w]. destruct w; try done.
  - by eapply can_end_receiving.
  - by eapply can_end_serving.
  - by eapply can_end_idled.
  - by eapply can_end_leaving.
  - exists [], s, [], (mkLane k q Left). split_and!; try done. by rewrite list_insert_id.
  - exists [], s, [], (mkLane k q Gone). split_and!; try done. by rewrite list_insert_id.
Qed.

Lemma counted_some (ls : list Lane) : sum_list_with counted ls <> 0%nat -> exists i l, ls !! i = Some l /\ counted l = 1%nat.
Proof.
  induction ls as [|l ls IH]; cbn; [done|]. intros H. destruct (decide (counted l = 0%nat)) as [E|E].
  - destruct IH as (i & l' & Hi & Hc); [lia|]. by exists (S i), l'.
  - exists 0%nat, l. split; [done|]. unfold counted in *. by destruct (l_worker l).
Qed.

Lemma sound_extend s evs acts s' e : lanes_sound s evs -> lane_run opts id acts s = Some (s', e) -> lanes_sound s' (evs ++ e).
Proof. intros Hs Hr. eapply (run_acts_inv _ lanes_sound); [|exact Hs|exact Hr]. intros ?????. apply sound_step. Qed.

Lemma drain_ends n : forall s evs err, lanes_sound s evs -> reader s = Draining err -> ~ panics evs -> live (lane_set s) = n ->
  exists acts s' e, lane_run opts id acts s = Some (s', e) /\ Forall lane_act acts /\ reader s' = Draining err /\
    live (lane_set s') = 0%nat /\ ~ panics (evs ++ e).
Proof.
  induction n as [n IH] using lt_wf_ind. intros s evs err Hs Er Hp Hn. pose proof (lt_wf _ _ (ls_told _ _ Hs)) as Hwf.
  destruct (decide (n = 0%nat)) as [->|Hn0].
  { exists [], s, []. split_and!; try done. by rewrite app_nil_r. }
  destruct (counted_some (lanes (lane_set s))) as (i & l & Hi & Hc); [by rewrite <- (wf_live _ Hwf), Hn|].
  destruct (can_end_any s i l) as (acts & s1 & e1 & l1 & Hr & Hf & Er1 & Et1 & El1 & Hc1); [done| | |by rewrite Er|].
  { intros Hd. apply Hp, (ls_dead _ _ Hs). unfold workers. rewrite <- Hd. apply list_elem_of_fmap. exists l.
    split; [done|]. by eapply list_elem_of_lookup_2. }
  { apply (wf_cleared _ Hwf). by rewrite Er. }
  pose proof (sound_extend _ _ _ _ _ Hs Hr) as Hs1.
  destruct (IH (live (lane_set s1))) with (s := s1) (evs := evs ++ e1) (err := err) as (acts2 & s2 & e2 & Hr2 & Hf2 & Er2 & Hl2 & Hp2).
  - rewrite (wf_live _ (lt_wf _ _ (ls_told _ _ Hs1))), El1. pose proof (sum_list_insert counted _ _ _ l1 Hi).
    pose proof (wf_live _ Hwf). lia.
  - done.
  - congruence.
  - rewrite (ls_dead _ _ Hs1). unfold workers. rewrite El1, list_fmap_insert. intros Hin. apply Hp, (ls_dead _ _ Hs).
    apply list_elem_of_lookup in Hin as [j Hj]. apply list_lookup_insert_Some in Hj as [(-> & E & _)|(_ & Hj)].
    + unfold counted in Hc1. by rewrite E in Hc1.
    + by eapply list_elem_of_lookup_2.
  - done.
  - exists (acts ++ acts2), s2, (e1 ++ e2). split_and!; [by eapply run_acts_app|by apply list.Forall_app|done|done|].
    by rewrite app_assoc.
Qed.
End lane_theorems.

(** ** The theorems *)

(** The options the program makes: its defaults, with what its setters do to them. *)
Inductive configured : ChannelOpts -> Prop :=
| configured_default : configured ChannelOpts_default
| configured_server : configured server_opts
| configured_max n o : configured o -> configured (set_max_in_flight n o)
| configured_key f o : configured o -> configured (set_lane_key f o).

Lemma configured_fits o : configured o -> (budget o <= lane_cap o)%nat.
Proof. intros H. induction H as [| |n o _ _|f o _ IH]; unfold budget, lane_cap in *; cbn -[Nat.max] in *; try lia; done. Qed.

(** (C37) Whatever the reader, the lanes' tasks and other connections do: for every key the
    payloads handed to the listener, followed by those still queued, are the payloads
    that entered the lane, in that order, unless the listener panicked; and the
    listener is called for a key only when its last call for the key is over. *)
Theorem lane_in_order opts id acts s evs : configured opts ->
  lane_run opts id acts (ReadLoop_new opts) = Some (s, evs) ->
  forall k, (~ panics evs -> enqueued k evs = handed k evs ++ queued k (lanes (lane_set s))) /\
    (exists lost, enqueued k evs = settled k evs ++ lost) /\
    turns k false evs = Some (busy k (lanes (lane_set s))).
Proof.
  intros Hc Hr k. destruct (sound_run opts id (configured_fits _ Hc) _ _ _ Hr) as [[_ Ho Ht] Hd _].
  split_and!; [|by eexists|done]. intros Hp. rewrite Ho. rewrite (settled_handed k evs); [done|].
  intros k' p Hin. apply Hp. by eapply Hd.
Qed.

(** The permits are never lost nor made up: those that are free, held by other
    connections, by the reader and by the payloads of the lanes are the budget; so the
    payloads taken and unfinished are never more than it, and no lane is ever full. *)
Theorem in_flight_bounded opts id acts s evs : configured opts ->
  lane_run opts id acts (ReadLoop_new opts) = Some (s, evs) ->
  (permits (lane_set s) + elsewhere s + held (reader s) + sum_list_with jobs (lanes (lane_set s)) = budget opts)%nat /\
  (forall i l, lanes (lane_set s) !! i = Some l -> length (l_queue l) + (if serving l then 1 else 0) <= lane_cap opts)%nat /\
  forall i p, reader s <> AwaitsRoom i p.
Proof.
  intros Hc Hr. apply configured_fits in Hc as Hf. destruct (sound_run opts id Hf _ _ _ Hr) as [[Hwf _ _] _ _].
  pose proof (wf_budget _ _ Hwf) as Hb. split_and!; [done| |].
  - intros i l Hi. pose proof (sum_list_ge jobs _ _ _ Hi) as Hj. unfold jobs at 1 in Hj. lia.
  - intros i p E. pose proof (wf_room _ _ Hwf) as Hw. by rewrite E in Hw.
Qed.

(** When the read loop drains its lanes and no listener panicked, the lanes' tasks can
    always end it, the listener's calls returning: the counter reaches zero, and then
    every payload that was taken has been handed over and finished.  After a panic the
    counter never reaches zero, and the drain waits for its deadline. *)
Theorem drain_waits opts id acts s evs err : configured opts ->
  lane_run opts id acts (ReadLoop_new opts) = Some (s, evs) -> reader s = Draining err ->
  (~ panics evs -> exists acts' s' evs', lane_run opts id acts' s = Some (s', evs') /\ Forall lane_act acts' /\
     reader s' = Draining err /\ live (lane_set s') = 0%nat) /\
  (live (lane_set s) = 0%nat -> forall k, enqueued k evs = handed k evs /\ turns k false evs = Some false) /\
  (panics evs -> live (lane_set s) <> 0%nat).
Proof.
  intros Hc Hr Er. apply configured_fits in Hc as Hf. pose proof (sound_run opts id Hf _ _ _ Hr) as Hs.
  pose proof (lt_wf _ _ _ (ls_told _ _ _ Hs)) as Hwf.
  assert (Hlive : panics evs -> live (lane_set s) <> 0%nat).
  { intros Hp. apply (ls_dead _ _ _ Hs) in Hp. unfold workers in Hp. apply list_elem_of_fmap in Hp as (l & El & Hin).
    apply list_elem_of_lookup in Hin as [i Hi]. rewrite (wf_live _ _ Hwf).
    pose proof (sum_list_ge counted _ _ _ Hi). unfold counted at 1 in H. rewrite <- El in H. lia. }
  split_and!; [| |done].
  - intros Hp. destruct (drain_ends opts id Hf _ s evs err Hs Er Hp eq_refl) as (acts' & s' & e & H1 & H2 & H3 & H4 & _).
    by exists acts', s', e.
  - intros Hl k. rewrite (wf_live _ _ Hwf) in Hl.
    assert (Hall : forall i l, lanes (lane_set s) !! i = Some l -> active l = false).
    { intros i l Hi. pose proof (sum_list_ge counted _ _ _ Hi) as Hge. unfold counted at 1 in Hge. unfold active.
      destruct (l_worker l); done || lia. }
    split.
    + rewrite (lt_order _ _ _ (ls_told _ _ _ Hs)), settled_handed, queued_none, app_nil_r; [done| |].
      * intros i l Hi _. eapply (wf_empty _ _ Hwf); [done|by eapply Hall].
      * intros k' p Hin. apply Hlive; [by eapply (ls_dropped _ _ _ Hs)|]. by rewrite (wf_live _ _ Hwf).
    + rewrite (lt_turns _ _ _ (ls_told _ _ _ Hs)). f_equal. apply busy_false. intros i l Hi _.
      specialize (Hall _ _ Hi). by destruct l as [? ? []].
Qed.

(** ** Concrete runs *)

Section demo.
Definition demo_opts : ChannelOpts := set_max_in_flight 2 server_opts.
Definition frame_acts (p : bytes) : list LAct :=
  ByReader <$> [CheckClosed false; ReadFrame (GotFrame (Frame_binary p)); Acquired true; TryLane].
Definition demo_two : list LAct :=
  frame_acts [Byte.x61] ++ frame_acts [Byte.x62] ++ [ByLane 0 RecvJob; ByLane 0 ListenerDone].
Definition demo_drain : list LAct := demo_two ++ (ByReader <$> [CheckClosed true; Cleared]).
Definition demo_drained : list LAct := demo_drain ++ (ByLane 0 <$> [RecvJob; ListenerDone; RecvNone; CountOff]).

Lemma demo_configured : configured demo_opts.
Proof. repeat constructor. Qed.

Lemma lane_in_order_witness : exists s evs, lane_run demo_opts "c" demo_two (ReadLoop_new demo_opts) = Some (s, evs) /\
  enqueued "c" evs = [[Byte.x61]; [Byte.x62]] /\ (exists lost, enqueued "c" evs = settled "c" evs ++ lost) /\
  turns "c" false evs = Some (busy "c" (lanes (lane_set s))).
Proof.
  eexists _, _. split; [vm_compute; reflexivity|]. split; [reflexivity|].
  refine (proj2 (lane_in_order demo_opts "c" demo_two _ _ demo_configured _ "c")). vm_compute. reflexivity.
Defined.

Lemma in_flight_bounded_witness : exists s evs, lane_run demo_opts "c" demo_two (ReadLoop_new demo_opts) = Some (s, evs) /\
  permits (lane_set s) = 1%nat /\
  (permits (lane_set s) + elsewhere s + held (reader s) + sum_list_with jobs (lanes (lane_set s)) = budget demo_opts)%nat.
Proof.
  eexists _, _. split; [vm_compute; reflexivity|]. split; [reflexivity|].
  refine (proj1 (in_flight_bounded demo_opts "c" demo_two _ _ demo_configured _)). vm_compute. reflexivity.
Defined.

Lemma drain_waits_witness : exists s evs, lane_run demo_opts "c" demo_drained (ReadLoop_new demo_opts) = Some (s, evs) /\
  live (lane_set s) = 0%nat /\ enqueued "c" evs = handed "c" evs.
Proof.
  eexists _, _. split; [vm_compute; reflexivity|]. split; [reflexivity|].
  refine (proj1 (proj1 (proj2 (drain_waits demo_opts "c" demo_drained _ _ Core.Closed demo_configured _ _)) _ "c"));
    [vm_compute; reflexivity|reflexivity|reflexivity].
Defined.

(** With a budget larger than the depth of a lane, which no configuration of the program
    has, a payload that waits for room is sent without the map's lock and may enter a
    lane whose task already left its loop. *)
Definition deep_opts : ChannelOpts := mkChannelOpts 1 (Some 4%nat) None.
Definition demo_lost : list LAct :=
  frame_acts [Byte.x61] ++ [ByLane 0 RecvJob] ++ frame_acts [Byte.x62] ++ frame_acts [Byte.x63] ++
  (ByLane 0 <$> [ListenerDone; RecvJob; ListenerDone; RecvTimeout; Retire]) ++
  [ByReader RoomOrClosed; ByLane 0 CountOff; ByLane 0 DropReceiver].
Example waiting_payload_lost : exists s evs, lane_run deep_opts "c" demo_lost (ReadLoop_new deep_opts) = Some (s, evs) /\
  enqueued "c" evs = [[Byte.x61]; [Byte.x62]; [Byte.x63]] /\ handed "c" evs = [[Byte.x61]; [Byte.x62]].
Proof. eexists _, _. split; [vm_compute; reflexivity|]. split; reflexivity. Qed.
End demo.
