(* ===== verification/Serve.v ===== *)
(** The connections of a server: [ChannelMap] (kim-core channel_map.rs), [serve_conn] and
    [FrontendState] of crates/kim-tcp/src/server.rs; the websocket server's [handle_ws]
    is the same text.

    Each connection is a task that signs in, enters the table under its id, runs its
    read loop, leaves the table and reports the end.  A run interleaves any number of
    them with the shutdown of the server.  What acceptor, listener, read loop and
    state listener answer is part of the acts. *)

From S2P Require Import Prelude Judge TcpCodec WriteLoop.
Open Scope Z_scope.
Open Scope kim_scope.

(** ** State *)

(** Where a connection is in [serve_conn]; the table's entries it makes carry its number. *)
Inductive ConnPhase : Type :=
| Accepting
| RefusedWrite (e : Core.Error)
| RefusedShutdown (e : Core.Error)
| Adding (id : string)
| DupClose (id : string) (e : Core.Error)
| DupAbandon (id : string) (e : Core.Error)
| Entered (id : string)
| UnheardAbandon (id : string)
| UnheardClose (id : string)
| UnheardRemove (id : string)
| Readying (id : string)
| UnreadyClose (id : string) (e : Core.Error)
| UnreadyRemove (id : string) (e : Core.Error)
| Running (id : string)
| Removing (id : string) (r : result unit Core.Error)
| Disconnecting (id : string) (r : result unit Core.Error)
| Ended (r : result unit Core.Error)
| Aborted (entry : option string).

Inductive Shutdown : Type := Serving | Draining | Closing | Aborting | Down.

Record Frontend := mkFrontend {
  channels : gmap string nat;
  conns : list ConnPhase;
  fe_closed : bool;
  shutdown : Shutdown
}.
Definition Frontend_new : Frontend := mkFrontend ∅ [] false Serving.
Definition with_channels (m : gmap string nat) (s : Frontend) : Frontend :=
  mkFrontend m (conns s) (fe_closed s) (shutdown s).
Definition at_conn (n : nat) (c : ConnPhase) (s : Frontend) : Frontend :=
  mkFrontend (channels s) (<[n := c]> (conns s)) (fe_closed s) (shutdown s).
Definition at_shutdown (sd : Shutdown) (s : Frontend) : Frontend :=
  mkFrontend (channels s) (conns s) (fe_closed s) sd.

(** The calls the hooks and channels of a connection get. *)
Inductive SEvent : Type :=
| CloseSent (n : nat) (payload : bytes)
| AcceptAbandoned (n : nat) (id : string)
| ChannelReady (n : nat) (id : string) (ok : bool)
| ReadLoopEnded (n : nat) (id : string)
| Disconnected (n : nat) (id : string)
| ChannelClosed (by_conn owner : nat).

(** ** [ChannelMap] *)

(** [add] takes a free id only. *)
Definition channel_add (id : string) (n : nat) (m : gmap string nat) : gmap string nat * result unit Core.Error :=
  match m !! id with
  | Some _ => (m, Err (Core.ChannelExists id))
  | None => (<[id := n]> m, Ok tt)
  end.
Definition channel_remove (id : string) (m : gmap string nat) : gmap string nat * option nat := (delete id m, m !! id).
Definition channel_get (id : string) (m : gmap string nat) : option nat := m !! id.
Definition channel_contains (id : string) (m : gmap string nat) : bool := bool_decide (is_Some (m !! id)).
(** [push] and [close_channel] of a server: which connection they reach. *)
Definition server_target (id : string) (s : Frontend) : result nat Core.Error :=
  match channel_get id (channels s) with Some n => Ok n | None => Err (Core.ChannelNotFound id) end.

(** ** [serve_conn] *)

Section serve.
Context (messages states : bool) (login_wait : Z) (error_text : Core.Error -> bytes).

Inductive ConnAct : Type :=
| AcceptAnswers (r : result string Core.Error)
| AcceptTimeout
| Step
| ReadyAnswers (r : result unit Core.Error)
| LoopEnds (r : result unit Core.Error).

(** The channel the table has under the id is closed. *)
Definition close_entry (n : nat) (id : string) (s : Frontend) : list SEvent :=
  match channel_get id (channels s) with Some m => [ChannelClosed n m] | None => [] end.

Definition conn_step (n : nat) (a : ConnAct) (s : Frontend) : option (Frontend * list SEvent) :=
  c ← conns s !! n;
  match a, c with
  | AcceptAnswers (Ok id), Accepting => Some (at_conn n (Adding id) s, [])
  | AcceptAnswers (Err e), Accepting => Some (at_conn n (RefusedWrite e) s, [CloseSent n (error_text e)])
  | AcceptTimeout, Accepting =>
    Some (at_conn n (RefusedWrite (Core.HandshakeTimeout login_wait)) s, [CloseSent n (bytes_of "handshake timeout")])
  | Step, RefusedWrite e => Some (at_conn n (RefusedShutdown e) s, [])
  | Step, RefusedShutdown e => Some (at_conn n (Ended (Err e)) s, [])
  | Step, Adding id =>
    let '(m, r) := channel_add id n (channels s) in
    Some (at_conn n (match r with Ok _ => Entered id | Err e => DupClose id e end) (with_channels m s), [])
  | Step, DupClose id e => Some (at_conn n (DupAbandon id e) s, [ChannelClosed n n])
  | Step, DupAbandon id e => Some (at_conn n (Ended (Err e)) s, [AcceptAbandoned n id])
  | Step, Entered id => Some (at_conn n (if messages then Readying id else UnheardAbandon id) s, [])
  | Step, UnheardAbandon id => Some (at_conn n (UnheardClose id) s, [AcceptAbandoned n id])
  | Step, UnheardClose id => Some (at_conn n (UnheardRemove id) s, close_entry n id s)
  | Step, UnheardRemove id =>
    Some (at_conn n (Ended (Err (Core.Other "MessageListener is not set"))) (with_channels (channel_remove id (channels s)).1 s), [])
  | ReadyAnswers (Ok _), Readying id => Some (at_conn n (Running id) s, [ChannelReady n id true])
  | ReadyAnswers (Err e), Readying id => Some (at_conn n (UnreadyClose id e) s, [ChannelReady n id false])
  | Step, UnreadyClose id e => Some (at_conn n (UnreadyRemove id e) s, close_entry n id s)
  | Step, UnreadyRemove id e =>
    Some (at_conn n (Ended (Err e)) (with_channels (channel_remove id (channels s)).1 s), [])
  | LoopEnds r, Running id => Some (at_conn n (Removing id r) s, [ReadLoopEnded n id])
  | Step, Removing id r =>
    Some (at_conn n (if states then Disconnecting id r else Ended r) (with_channels (channel_remove id (channels s)).1 s), [])
  | Step, Disconnecting id r => Some (at_conn n (Ended r) s, [Disconnected n id])
  | _, _ => None
  end.

(** ** [FrontendState] *)

Definition over (c : ConnPhase) : bool := match c with Ended _ | Aborted _ => true | _ => false end.
(** The entry of the table that is a connection's own. *)
Definition holds (c : ConnPhase) : option string :=
  match c with
  | Entered id | UnheardAbandon id | UnheardClose id | UnheardRemove id | Readying id | UnreadyClose id _
  | UnreadyRemove id _ | Running id | Removing id _ => Some id
  | Aborted entry => entry
  | _ => None
  end.
Definition abort (c : ConnPhase) : ConnPhase := if over c then c else Aborted (holds c).

Inductive SAct : Type :=
| SpawnConn
| ByConn (n : nat) (a : ConnAct)
| StartShutdown
| DrainOver (timed_out : bool)
| CloseAll (order : list nat)
| AbortAll.

(** [spawn_conn]; [shutdown] in its four parts. *)
Definition serve_step (s : Frontend) (a : SAct) : option (Frontend * list SEvent) :=
  match a with
  | SpawnConn =>
    Some (if fe_closed s then s else mkFrontend (channels s) (conns s ++ [Accepting]) false (shutdown s), [])
  | ByConn n a => conn_step n a s
  | StartShutdown =>
    match shutdown s with Serving => Some (mkFrontend (channels s) (conns s) true Draining, []) | _ => None end
  | DrainOver timed_out =>
    match shutdown s with
    | Draining => if forallb over (conns s) || timed_out then Some (at_shutdown Closing s, []) else None
    | _ => None
    end
  | CloseAll order =>
    match shutdown s with
    | Closing =>
      if bool_decide (order ≡ₚ (map_to_list (channels s)).*2)
      then Some (at_shutdown Aborting s, (fun n => ChannelClosed n n) <$> order) else None
    | _ => None
    end
  | AbortAll =>
    match shutdown s with
    | Aborting => Some (mkFrontend (channels s) (abort <$> conns s) (fe_closed s) Down, [])
    | _ => None
    end
  end.
Definition serve_run : list SAct -> Frontend -> option (Frontend * list SEvent) := run_acts serve_step.

(** ** Theorems *)

(** The hooks a connection called, in order. *)
Definition hook_of (n : nat) (e : SEvent) : option SEvent :=
  match e with
  | AcceptAbandoned m _ | ChannelReady m _ _ | ReadLoopEnded m _ | Disconnected m _ => if decide (m = n) then Some e else None
  | _ => None
  end.
Definition hooks (n : nat) (evs : list SEvent) : list SEvent := omap (hook_of n) evs.

(** Everything a connection can have told its hooks when it is over. *)
Definition lives (n : nat) (hs : list SEvent) : Prop :=
  hs = [] \/ exists id, hs = [AcceptAbandoned n id] \/ hs = [ChannelReady n id false] \/
    if states then hs = [ChannelReady n id true; ReadLoopEnded n id; Disconnected n id]
    else hs = [ChannelReady n id true; ReadLoopEnded n id].
Definition life (n : nat) (c : ConnPhase) (hs : list SEvent) : Prop :=
  match c with
  | UnheardClose id | UnheardRemove id => hs = [AcceptAbandoned n id]
  | UnreadyClose id _ | UnreadyRemove id _ => hs = [ChannelReady n id false]
  | Running id => hs = [ChannelReady n id true]
  | Removing id _ => hs = [ChannelReady n id true; ReadLoopEnded n id]
  | Disconnecting id _ => states = true /\ hs = [ChannelReady n id true; ReadLoopEnded n id]
  | Ended _ => lives n hs
  | Aborted _ => exists rest, lives n (hs ++ rest)
  | _ => hs = []
  end.

Record served s (evs : list SEvent) : Prop := {
  sv_table : forall id n, channels s !! id = Some n <-> exists c, conns s !! n = Some c /\ holds c = Some id;
  sv_life : forall n c, conns s !! n = Some c -> life n c (hooks n evs);
  sv_fresh : forall n, (length (conns s) <= n)%nat -> hooks n evs = [];
  sv_own : forall n m, ChannelClosed n m ∈ evs -> n = m;
  sv_closed : shutdown s <> Serving -> fe_closed s = true;
  sv_down : shutdown s = Down -> Forall (fun c => over c = true) (conns s)
}.

Lemma hooks_app n e1 e2 : hooks n (e1 ++ e2) = hooks n e1 ++ hooks n e2.
Proof. apply omap_app. Qed.

(** What a step of connection [n] does. *)
Record served_step n s s' (e : list SEvent) c c' : Prop := {
  ss_at : conns s !! n = Some c;
  ss_conns : conns s' = <[n := c']> (conns s);
  ss_rest : shutdown s' = shutdown s;
  ss_table : channels s' = channels s /\ holds c' = holds c \/
    (exists id, channels s !! id = None /\ channels s' = <[id := n]> (channels s) /\ holds c = None /\ holds c' = Some id) \/
    (exists id, channels s' = delete id (channels s) /\ holds c = Some id /\ holds c' = None);
  ss_over : over c = false;
  ss_life : forall hs, life n c hs -> life n c' (hs ++ hooks n e);
  ss_others : forall m, m <> n -> hooks m e = [];
  ss_own : forall a b, ChannelClosed a b ∈ e -> a = n /\ (b = n \/ exists id, holds c = Some id /\ channels s !! id = Some b)
}.

Lemma hooks_close_entry m n id s : hooks m (close_entry n id s) = [].
Proof. unfold close_entry, channel_get. by destruct (channels s !! id). Qed.
Lemma close_entry_in n id s a b : ChannelClosed a b ∈ close_entry n id s -> a = n /\ channels s !! id = Some b.
Proof.
  unfold close_entry, channel_get. destruct (channels s !! id) as [x|]; [|by rewrite elem_of_nil].
  rewrite list_elem_of_singleton. by intros [= -> ->].
Qed.

Lemma hooks_one n e : hook_of n e = Some e -> hooks n [e] = [e].
Proof. intros H. unfold hooks. cbn. by rewrite H. Qed.
Lemma hooks_other n m e : n <> m -> hook_of m e = None \/ hook_of m e = Some e -> hook_of n e = None -> hooks n [e] = [].
Proof. intros _ _ H. unfold hooks. cbn. by rewrite H. Qed.

(** The goals of a step, by kind. *)
Ltac table_goal := first [by left | right; left; eexists; by split_and! | right; right; eexists; by split_and!].
Ltac life_goal :=
  let hs := fresh "hs" in let H := fresh "H" in
  intros hs H; cbn -[hooks] in H |- *; rewrite ?hooks_close_entry, ?app_nil_r;
  try (match goal with |- context [hooks ?n [?e]] => rewrite (hooks_one n e) by (cbn; by rewrite ?decide_True by done) || change (hooks n [e]) with (@nil SEvent) end);
  rewrite ?app_nil_r; try done; destruct_conj; subst; unfold lives; eauto 8.
Ltac others_goal := intros m Hm; rewrite ?hooks_close_entry; unfold hooks; cbn; by rewrite ?decide_False by congruence.
Ltac own_goal :=
  let x := fresh "x" in let y := fresh "y" in let H := fresh "H" in
  intros x y H; first [ apply close_entry_in in H as [-> H]; split; [done|]; right; by eexists
                      | rewrite ?elem_of_cons, ?elem_of_nil in H; naive_solver ].

Lemma conn_step_served n a s s' e : conn_step n a s = Some (s', e) -> exists c c', served_step n s s' e c c'.
Proof.
  unfold conn_step. intros H. destruct (conns s !! n) as [c|] eqn:Hn; [|done]. cbn in H. exists c.
  unfold channel_add, channel_remove in H.
  destruct a, c; try done; try (match goal with r : result _ _ |- _ => destruct r end); try done; case_all; simplify_eq/=.
  all: eexists; split; [done|reflexivity|reflexivity|table_goal|done|life_goal|others_goal|own_goal].
  all: right; eexists; right; right; match goal with H : states = _ |- _ => rewrite H; reflexivity end.
Qed.

Lemma conn_step_closed n a s s' e : conn_step n a s = Some (s', e) -> fe_closed s' = fe_closed s.
Proof.
  unfold conn_step. destruct (conns s !! n) as [c|]; [|done]. cbn.
  destruct a, c; try done; try (match goal with r : result _ _ |- _ => destruct r end); case_all; intros; by simplify_eq.
Qed.

Section one_step.
Context s evs n s' e c c' (Hs : served s evs) (Hst : served_step n s s' e c c').

Lemma step_self : conns s' !! n = Some c'.
Proof. rewrite (ss_conns _ _ _ _ _ _ Hst). apply list_lookup_insert_eq. eapply lookup_lt_Some, Hst. Qed.
Lemma step_other m : m <> n -> conns s' !! m = conns s !! m.
Proof. intros Hne. by rewrite (ss_conns _ _ _ _ _ _ Hst), list_lookup_insert_ne. Qed.

Lemma step_table id m : channels s' !! id = Some m <-> exists cm, conns s' !! m = Some cm /\ holds cm = Some id.
Proof.
  pose proof (sv_table _ _ Hs) as Ht. pose proof (ss_at _ _ _ _ _ _ Hst) as Hn.
  assert (Hold : channels s !! id = Some n <-> holds c = Some id).
  { rewrite Ht. split; [intros (cm & Hm & Hh); congruence|eauto]. }
  destruct (decide (m = n)) as [->|Hne].
  - rewrite step_self. transitivity (holds c' = Some id); [|split; [eauto|intros (cm & Hm & Hh); congruence]].
    destruct (ss_table _ _ _ _ _ _ Hst) as [[-> ->]|[(i & Hnone & -> & Hc & ->)|(i & -> & Hc & ->)]]; [done| |];
      (destruct (decide (i = id)) as [->|Hi]; [by rewrite ?lookup_insert_eq, ?lookup_delete_eq|]);
      rewrite ?lookup_insert_ne, ?lookup_delete_ne, Hold, Hc by done; split; congruence.
  - rewrite (step_other m Hne), <- Ht.
    destruct (ss_table _ _ _ _ _ _ Hst) as [[-> _]|[(i & Hnone & -> & Hc & _)|(i & -> & Hc & _)]]; [done| |];
      (destruct (decide (i = id)) as [->|Hi]; [|by rewrite ?lookup_insert_ne, ?lookup_delete_ne by done]).
    + rewrite lookup_insert_eq, Hnone. split; congruence.
    + rewrite lookup_delete_eq. split; [done|]. intros Hm. rewrite Hm in Hold. exfalso. apply Hne.
      assert (Some m = Some n) as [= ->]; [by apply Hold|done].
Qed.

Lemma served_at : fe_closed s' = fe_closed s -> served s' (evs ++ e).
Proof.
  intros Efc. split.
  - intros id m. apply step_table.
  - intros m cm Hm. rewrite hooks_app. destruct (decide (m = n)) as [->|Hne].
    + rewrite step_self in Hm. injection Hm as <-. eapply ss_life; [done|]. eapply sv_life; [done|]. eapply ss_at, Hst.
    + rewrite (step_other _ Hne) in Hm. rewrite (ss_others _ _ _ _ _ _ Hst m Hne), app_nil_r. by eapply sv_life.
  - intros m Hm. rewrite (ss_conns _ _ _ _ _ _ Hst), length_insert in Hm. rewrite hooks_app, (sv_fresh _ _ Hs m Hm).
    apply (ss_others _ _ _ _ _ _ Hst). intros ->. pose proof (lookup_lt_Some _ _ _ (ss_at _ _ _ _ _ _ Hst)). lia.
  - intros a b Hin. apply elem_of_app in Hin as [Hin|Hin]; [by eapply sv_own|].
    destruct (ss_own _ _ _ _ _ _ Hst a b Hin) as [-> [->|(id & Hh & Hb)]]; [done|].
    apply (sv_table _ _ Hs) in Hb as (cb & Hcb & Hhb). assert (channels s !! id = Some n) as Hn'.
    { apply (sv_table _ _ Hs). exists c. split; [eapply ss_at, Hst|done]. }
    assert (channels s !! id = Some b) by (apply (sv_table _ _ Hs); eauto). congruence.
  - rewrite Efc, (ss_rest _ _ _ _ _ _ Hst). apply Hs.
  - rewrite (ss_rest _ _ _ _ _ _ Hst). intros Hd. apply (sv_down _ _ Hs) in Hd. rewrite list.Forall_lookup in Hd.
    specialize (Hd _ _ (ss_at _ _ _ _ _ _ Hst)). by rewrite (ss_over _ _ _ _ _ _ Hst) in Hd.
Qed.
End one_step.

Lemma lives_cut n c hs : life n c hs -> exists rest, lives n (hs ++ rest).
Proof.
  assert (Hran : forall id, exists rest, lives n ([ChannelReady n id true; ReadLoopEnded n id] ++ rest)).
  { intros id. unfold lives. exists (if states then [Disconnected n id] else []). right. exists id. right. right. by destruct states. }
  destruct c; cbn; intros H; try (subst hs); try (exists []; by left); try (exists []; right; by eauto).
  - destruct (Hran id) as [rest Hr]. exists (ReadLoopEnded n id :: rest). exact Hr.
  - apply Hran.
  - destruct H as [_ ->]. apply Hran.
  - exists []. by rewrite app_nil_r.
  - done.
Qed.
Lemma life_abort n c hs : life n c hs -> life n (abort c) hs.
Proof. intros H. unfold abort. destruct (over c) eqn:E; [done|]. cbn. by eapply lives_cut. Qed.
Lemma holds_abort c : holds (abort c) = holds c.
Proof. unfold abort. by destruct (over c). Qed.
Lemma over_abort c : over (abort c) = true.
Proof. unfold abort. by destruct (over c) eqn:E. Qed.

Lemma served_same s s' evs e : served s evs -> channels s' = channels s -> conns s' = conns s ->
  (forall n, hooks n e = []) -> (forall n m, ChannelClosed n m ∈ e -> n = m) ->
  (shutdown s' <> Serving -> fe_closed s' = true) -> shutdown s' <> Down -> served s' (evs ++ e).
Proof.
  intros [Ht Hl Hf Ho Hcl Hd] Ec En He Hown Hcl' Hd'. split; rewrite ?Ec, ?En; try done.
  - intros n c Hn. rewrite hooks_app, He, app_nil_r. by apply Hl.
  - intros n Hn. rewrite hooks_app, He, app_nil_r. by apply Hf.
  - intros n m Hin. apply elem_of_app in Hin as [Hin|Hin]; [by eapply Ho|by eapply Hown].
Qed.

Lemma served_step_all s evs a s' e : served s evs -> serve_step s a = Some (s', e) -> served s' (evs ++ e).
Proof.
  intros Hs H. pose proof Hs as [Ht Hl Hf Ho Hcl Hd]. destruct a as [|n a| |timed_out|order|]; cbn in H.
  - destruct (fe_closed s) eqn:Ef; injection H as <- <-; rewrite app_nil_r; [done|].
    split; cbn; try done.
    + intros id m. rewrite Ht. split; intros (c & Hc & Hh).
      * exists c. split; [|done]. by apply lookup_app_l_Some.
      * apply lookup_app_Some in Hc as [Hc|[_ Hc]]; [by exists c|]. apply list_lookup_singleton_Some in Hc as [_ <-]. done.
    + intros m c Hm. apply lookup_app_Some in Hm as [Hm|[Hge Hm]]; [by apply Hl|].
      apply list_lookup_singleton_Some in Hm as [_ <-]. by apply Hf.
    + intros m Hm. rewrite length_app in Hm. apply Hf. lia.
    + intros E. exfalso. assert (false = true); [|done]. apply Hcl. by rewrite E.
  - destruct (conn_step_served _ _ _ _ _ H) as (c & c' & Hst). eapply served_at; [done|done|]. by eapply conn_step_closed.
  - destruct (shutdown s); [|done..]. injection H as <- <-. eapply served_same; try done; set_solver.
  - destruct (shutdown s) eqn:E; try done. case_match; [|done]. injection H as <- <-.
    eapply served_same; try done; [set_solver|]. intros _. cbn. by apply Hcl.
  - destruct (shutdown s) eqn:E; try done. case_bool_decide; [|done]. injection H as <- <-.
    eapply served_same; try done.
    + intros n. clear. induction order; done.
    + intros n m Hin. apply list_elem_of_fmap in Hin as (x & [= -> ->] & _). done.
    + intros _. by apply Hcl.
  - destruct (shutdown s) eqn:E; try done. injection H as <- <-. rewrite app_nil_r. split; cbn; try done.
    + intros id m. rewrite Ht. setoid_rewrite list_lookup_fmap_Some. split.
      * intros (c & Hc & Hh). exists (abort c). split; [by exists c|by rewrite holds_abort].
      * intros (c & (c0 & -> & Hc0) & Hh). exists c0. split; [done|by rewrite holds_abort in Hh].
    + intros m c Hm. apply list_lookup_fmap_Some in Hm as (c0 & -> & Hc0). by apply life_abort, Hl.
    + intros m Hm. rewrite length_fmap in Hm. by apply Hf.
    + intros _. by apply Hcl.
    + intros _. apply Forall_fmap, list.Forall_true. apply over_abort.
Qed.
End serve.

(** (C38) However connections, other connections under the same id and the shutdown interleave:
    the table names exactly the connections between their entry and their removal, each
    under its own id, and never two for one id; a connection closes no channel but its
    own; one that ended was refused without a hook, or was abandoned once, or was not
    ready, or was made ready, ran, and was then reported as disconnected exactly once;
    and after the shutdown every connection has ended or was aborted. *)
Theorem connections_served messages states login_wait error_text acts s evs :
  serve_run messages states login_wait error_text acts Frontend_new = Some (s, evs) ->
  (forall id n, channels s !! id = Some n <-> exists c, conns s !! n = Some c /\ holds c = Some id) /\
  (forall id n m c c', conns s !! n = Some c -> conns s !! m = Some c' -> holds c = Some id -> holds c' = Some id -> n = m) /\
  (forall n r, conns s !! n = Some (Ended r) -> lives states n (hooks n evs)) /\
  (forall n m, ChannelClosed n m ∈ evs -> n = m) /\
  (shutdown s = Down -> forall n c, conns s !! n = Some c -> over c = true).
Proof.
  intros Hr. assert (Hs : served states s ([] ++ evs)).
  { eapply (run_acts_inv _ (served states)); [|split|exact Hr]; try done.
    - intros ????? Hs Hst. by eapply served_step_all.
    - intros id n. cbn. rewrite lookup_empty. split; [done|]. by intros (c & ? & _).
    - set_solver. }
  destruct Hs as [Ht Hl _ Ho _ Hd]. split_and!; try done.
  - intros id n m c c' Hn Hm Hhn Hhm. assert (Some n = Some m) as [= ->]; [|done].
    transitivity (channels s !! id); [symmetry|]; apply Ht; eauto.
  - intros n r Hn. by apply Hl in Hn.
  - intros E n c Hn. apply Hd in E. rewrite list.Forall_lookup in E. by eapply E.
Qed.

Section demo.
(** Two connections under one id; the second is turned away, the first is served. *)
Definition demo_serve : list SAct :=
  [SpawnConn; SpawnConn; ByConn 0 (AcceptAnswers (Ok "a")); ByConn 1 (AcceptAnswers (Ok "a")); ByConn 0 Step;
   ByConn 1 Step; ByConn 1 Step; ByConn 1 Step; ByConn 0 Step; ByConn 0 (ReadyAnswers (Ok tt));
   ByConn 0 (LoopEnds (Err Core.Closed)); ByConn 0 Step; ByConn 0 Step; StartShutdown; DrainOver false; CloseAll []; AbortAll].

Lemma connections_served_witness : exists s evs,
  serve_run true true 10000 (fun _ => []) demo_serve Frontend_new = Some (s, evs) /\
  conns s = [Ended (Err Core.Closed); Ended (Err (Core.ChannelExists "a"))] /\
  lives true 0 (hooks 0 evs) /\ lives true 1 (hooks 1 evs).
Proof.
  eexists _, _. split; [vm_compute; reflexivity|]. split; [reflexivity|].
  split; refine (proj1 (proj2 (proj2 (connections_served true true 10000 (fun _ => []) demo_serve _ _ _))) _ _ _);
    first [vm_compute; reflexivity | reflexivity].
Defined.
End demo.
