(* ===== verification/Naming.v ===== *)
(** Service discovery: crates/kim-naming (static_naming.rs, consul.rs, naming.rs).

    [StaticNaming] keeps registrations in memory and tells subscribers the new list of a
    service; [ConsulNaming] asks an agent over HTTP and watches it with long polls.
    The agent and the parsing of its JSON are calls. *)

From S2P Require Import Prelude Prog Container.
Open Scope Z_scope.
Open Scope kim_scope.

(** [reg.tags] has every tag asked for. *)
Definition tag_match (reg : DefaultRegistration) (tags : list string) : bool :=
  forallb (fun t => existsb (fun x => bool_decide (x = t)) (rg_tags reg)) tags.

Lemma tag_match_spec reg tags : tag_match reg tags = true <-> forall t, t ∈ tags -> t ∈ rg_tags reg.
Proof.
  unfold tag_match. rewrite forallb_forall. split; intros H t Ht.
  - apply list_elem_of_In in Ht. apply H, existsb_exists in Ht as (x & Hx & E). apply bool_decide_eq_true in E as ->.
    by apply list_elem_of_In.
  - apply existsb_exists. exists t. split; [|by apply bool_decide_eq_true_2]. by apply list_elem_of_In, H, list_elem_of_In.
Qed.

(** ** static_naming.rs *)

Section static_naming.
(** The order in which the map of registrations is walked. *)
Context (walk : gmap string DefaultRegistration -> list DefaultRegistration).

(** A subscription is the number of its callback. *)
Record StaticNaming := mkStaticNaming {
  by_id : gmap string DefaultRegistration;
  subs : gmap string (list nat)
}.
Definition from_slice (regs : list DefaultRegistration) : StaticNaming :=
  mkStaticNaming (foldl (fun m r => <[rg_service_id r := r]> m) ∅ regs) ∅.

Definition snapshot (n : StaticNaming) (service_name : string) : list DefaultRegistration :=
  List.filter (fun r => bool_decide (rg_service_name r = service_name)) (walk (by_id n)).
Definition find (service_name : string) (tags : list string) (n : StaticNaming) : list DefaultRegistration :=
  let list_ := snapshot n service_name in
  match tags with [] => list_ | _ => List.filter (fun r => tag_match r tags) list_ end.

Definition subscribe (service_name : string) (callback : nat) (n : StaticNaming) : StaticNaming :=
  mkStaticNaming (by_id n) (<[service_name := default [] (subs n !! service_name) ++ [callback]]> (subs n)).
Definition unsubscribe (service_name : string) (n : StaticNaming) : StaticNaming :=
  mkStaticNaming (by_id n) (delete service_name (subs n)).

(** The callbacks of a service get its new list. *)
Definition tell (name : string) (n : StaticNaming) : list (nat * list DefaultRegistration) :=
  (fun cb => (cb, snapshot n name)) <$> default [] (subs n !! name).
Definition register (reg : DefaultRegistration) (n : StaticNaming) : StaticNaming * list (nat * list DefaultRegistration) :=
  let n' := mkStaticNaming (<[rg_service_id reg := reg]> (by_id n)) (subs n) in
  (n', tell (rg_service_name reg) n').
Definition deregister (service_id : string) (n : StaticNaming) : StaticNaming * list (nat * list DefaultRegistration) :=
  match by_id n !! service_id with
  | None => (n, [])
  | Some old =>
    let n' := mkStaticNaming (delete service_id (by_id n)) (subs n) in
    (n', tell (rg_service_name old) n')
  end.

(** The walk meets every registration once. *)
Hypothesis Hwalk : forall m, walk m ≡ₚ (map_to_list m).*2.

Lemma elem_of_walk m r : r ∈ walk m <-> exists id, m !! id = Some r.
Proof.
  rewrite Hwalk, list_elem_of_fmap. split.
  - intros ([id x] & -> & Hin). apply elem_of_map_to_list in Hin. by exists id.
  - intros (id & Hid). exists (id, r). split; [done|]. by apply elem_of_map_to_list.
Qed.

Lemma find_spec name tags n r : r ∈ find name tags n <->
  (exists id, by_id n !! id = Some r) /\ rg_service_name r = name /\ forall t, t ∈ tags -> t ∈ rg_tags r.
Proof.
  assert (Hs : r ∈ snapshot n name <-> (exists id, by_id n !! id = Some r) /\ rg_service_name r = name).
  { unfold snapshot. rewrite elem_of_list_filter_bool, elem_of_walk, bool_decide_eq_true. naive_solver. }
  unfold find. destruct tags as [|t tags].
  - rewrite Hs. set_solver.
  - rewrite elem_of_list_filter_bool, Hs, tag_match_spec. naive_solver.
Qed.
End static_naming.

(** ** consul.rs *)

(** A row of the agent's answer, as serde reads it. *)
Record HealthService := mkHealthService {
  hs_id : string;
  hs_service : string;
  hs_address : string;
  hs_port : Z;
  hs_tags : option (list string);
  hs_meta : option (gmap string string)
}.

Definition registration_of (row : HealthService) : option DefaultRegistration :=
  let meta := default ∅ (hs_meta row) in
  protocol ← meta !! "protocol"%string;
  if str_is_empty protocol then None
  else Some (mkRegistration (hs_id row) (hs_service row) protocol (hs_address row) (hs_port row) (default [] (hs_tags row)) meta).
Definition parse_rows (rows : list HealthService) (tags : list string) : list DefaultRegistration :=
  List.filter (fun r => tag_match r tags) (omap registration_of rows).

Module Naming.
Inductive Error : Type :=
| Http (status : Z)
| Transport (text : string)
| FeatureDisabled
| Tls (text : string)
| Invalid (text : string).
End Naming.

Definition u64_max : Z := 2 ^ 64 - 1.
Definition parse_u64 (s : string) : option Z := uint_parse u64_max s.

(** An answer of the agent: its status, its index header if it is text, its rows if they
    parse. *)
Record ConsulAnswer := mkConsulAnswer {
  ca_status : Z;
  ca_index : option string;
  ca_rows : result (list HealthService) string
}.

(** The calls: a GET of a URL under the short or the long time limit, the stop flag, a
    second's sleep, the callback. *)
Inductive NEff : Type -> Type :=
| NGet (long : bool) (url : string) (token : option string) : NEff (result ConsulAnswer string)
| NPut (url : string) (token : option string) (body : option (DefaultRegistration * gmap string string * string)) : NEff (result Z string)
| NStop : NEff bool
| NSleep (millis : Z) : NEff unit
| NTell (regs : list DefaultRegistration) : NEff unit.
Abbreviation NProc := (Prog NEff).

Section consul.
Context (base : string) (token : option string).

(** What [connect] makes of its arguments. *)
Definition connect_base (url : string) : string :=
  string_of_bytes (rev (strip (fun l => match l with b :: _ => if u8_to_Z b =? 47 then Some (tl l) else None | [] => None end)
    (length (bytes_of url)) (rev (bytes_of url)))).
Definition connect_token (t : option string) : option string :=
  t ← t; let t := str_trim t in if str_is_empty t then None else Some t.

(** [with_token]: an empty token is none. *)
Definition sent_token : option string := t ← token; if str_is_empty t then None else Some t.
Definition health_url (service_name : string) (index : Z) (wait : option string) : string :=
  (base ++ "/v1/health/service/" ++ service_name ++ "?passing=1&index=" ++ nat_to_dec index
   ++ match wait with Some w => "&wait=" ++ w | None => "" end)%string.
Definition success (status : Z) : bool := (200 <=? status) && (status <? 300).
Definition index_of (a : ConsulAnswer) : option Z := h ← ca_index a; parse_u64 h.

Definition fetch (long : bool) (service_name : string) (index : Z) (wait : option string)
  : NProc (result (list DefaultRegistration * option Z) Naming.Error) :=
  resp ← call (NGet long (health_url service_name index wait) sent_token);
  Ret (match resp with
       | Err e => Err (Naming.Transport e)
       | Ok a =>
         if negb (success (ca_status a)) then Err (Naming.Http (ca_status a))
         else match ca_rows a with
              | Err e => Err (Naming.Transport e)
              | Ok rows => Ok (parse_rows rows [], index_of a)
              end
       end).

Definition consul_find (service_name : string) (tags : list string) : NProc (result (list DefaultRegistration) Naming.Error) :=
  r ← fetch false service_name 0 None;
  Ret (match r with Ok (list_, _) => Ok (List.filter (fun r => tag_match r tags) list_) | Err e => Err e end).

Definition consul_register (service : DefaultRegistration) : NProc (result unit Naming.Error) :=
  match (h ← rg_meta service !! "health_url"%string; if str_is_empty h then None else Some h) with
  | None => Ret (Err (Naming.Invalid "health_url required to register"))
  | Some health =>
    if str_is_empty (rg_protocol service) then Ret (Err (Naming.Invalid "protocol required to register"))
    else
      let meta := <["protocol"%string := rg_protocol service]> (rg_meta service) in
      resp ← call (NPut (base ++ "/v1/agent/service/register")%string sent_token (Some (service, meta, health)));
      Ret (match resp with
           | Err e => Err (Naming.Transport e)
           | Ok status => if success status then Ok tt else Err (Naming.Http status)
           end)
  end.
Definition consul_deregister (service_id : string) : NProc (result unit Naming.Error) :=
  resp ← call (NPut (base ++ "/v1/agent/service/deregister/" ++ service_id)%string sent_token None);
  Ret (match resp with
       | Err e => Err (Naming.Transport e)
       | Ok status => if success status then Ok tt else Err (Naming.Http status)
       end).

(** One pass of [watch_loop] with the index it ends with; [None] when it stops. *)
Definition watch_pass (service_name : string) (index : Z) : NProc (option Z) :=
  stop ← call NStop;
  if stop : bool then Ret None
  else
    resp ← call (NGet true (health_url service_name index (Some "60s"%string)) sent_token);
    match resp with
    | Err _ => call (NSleep 1000);; Ret (Some index)
    | Ok a =>
      stop ← call NStop;
      if stop : bool then Ret None
      else if negb (success (ca_status a)) then call (NSleep 1000);; Ret (Some index)
      else match index_of a with
      | None => call (NSleep 1000);; Ret (Some index)
      | Some new_index =>
        match ca_rows a with
        | Err _ => call (NSleep 1000);; Ret (Some index)
        | Ok rows =>
          if new_index =? index then Ret (Some index)
          else call (NTell (parse_rows rows []));; Ret (Some new_index)
        end
      end
    end.
Fixpoint watch_loop (passes : nat) (service_name : string) (index : Z) : NProc unit :=
  match passes with
  | O => Ret tt
  | S passes =>
    next ← watch_pass service_name index;
    match next with Some index => watch_loop passes service_name index | None => Ret tt end
  end.
End consul.

(** ** What the watch tells *)

Definition told_regs (e : EventOf NEff) : option (list DefaultRegistration) :=
  match e with Ev (NTell regs) _ => Some regs | _ => None end.

(** A pass tells its subscriber at most one list, that of a good answer with a new index,
    and keeps the index unless it tells. *)
Lemma watch_pass_tells base token name index tr next : exec (watch_pass base token name index) tr next ->
  (omap told_regs tr = [] /\ (next = None \/ next = Some index)) \/
  exists a new rows, omap told_regs tr = [parse_rows rows []] /\ next = Some new /\ new <> index /\
    success (ca_status a) = true /\ index_of a = Some new /\ ca_rows a = Ok rows /\
    Ev (NGet true (health_url base name index (Some "60s"%string)) (sent_token token)) (Ok a) ∈ tr.
Proof.
  unfold watch_pass. intros He.
  apply exec_call_inv in He as (stop & t1 & -> & He). destruct stop.
  { apply exec_inv in He as [-> ->]. left. by split; [|left]. }
  apply exec_call_inv in He as (resp & t2 & -> & He).
  assert (Hsleep : forall t, exec (call (NSleep 1000);; Ret (Some index)) t next -> omap told_regs t = [] /\ next = Some index).
  { intros t Ht. apply exec_call_inv in Ht as (u & t' & -> & Ht). apply exec_inv in Ht as [-> ->]. done. }
  destruct resp as [a|e].
  2: { apply Hsleep in He as [Ht ->]. left. cbn. rewrite Ht. auto. }
  apply exec_call_inv in He as (stop & t3 & -> & He). destruct stop.
  { apply exec_inv in He as [-> ->]. left. cbn. auto. }
  destruct (success (ca_status a)) eqn:Es; cbn [negb] in He.
  2: { apply Hsleep in He as [Ht ->]. left. cbn. rewrite Ht. auto. }
  destruct (index_of a) as [new|] eqn:Ei; [|apply Hsleep in He as [Ht ->]; left; cbn; rewrite Ht; auto].
  destruct (ca_rows a) as [rows|e] eqn:Er; [|apply Hsleep in He as [Ht ->]; left; cbn; rewrite Ht; auto].
  destruct (Z.eqb_spec new index) as [->|Hne].
  - apply exec_inv in He as [-> ->]. left. cbn. auto.
  - apply exec_call_inv in He as (u & t4 & -> & He). apply exec_inv in He as [-> ->].
    right. exists a, new, rows. split_and!; try done. cbn. set_solver.
Qed.
