(* ===== verification/Lookup.v ===== *)
(** The router service: which gateways a client is sent to (services/router/src:
    lookup.rs, slots.rs, and the HTTP handler of lib.rs).

    A lookup goes from the client's address to a country, a region, a data centre picked
    by hash, and to the gateways discovery knows there.  Addresses, the CRC, the JWT
    library and the clock are parameters or calls. *)

From S2P Require Import Prelude Wire Prog Gateway Container Naming.
Open Scope Z_scope.
Open Scope kim_scope.

(** ** Data *)

Record LookupResp := mkLookupResp { lr_utc : Z; lr_location : string; lr_ws : string; lr_tcp : string }.
Record Mapping := mkMapping { mp_country : string; mp_region : string }.
Record Idc := mkIdc { idc_id : string; idc_weight : Z }.
Record Region := mkRegion { rg_id : string; rg_idcs : list Idc; rg_slots : list nat }.
Definition Region_new (id : string) (idcs : list Idc) : Region := mkRegion id idcs (build_slots (idc_weight <$> idcs)).

Inductive LookupError : Type := NoGateway | BadConfig | LUnauthorized | LOther (text : string).

(** The question a lookup asks discovery; its failures come as text. *)
Inductive LEff : Type -> Type :=
| LFind (service : string) (tags : list string) : LEff (result (list DefaultRegistration) string)
| LNow : LEff Z.
Abbreviation LProc := (Prog LEff).

Section lookup.
Context {Ip : Type} `{Countable Ip} (ip_text : Ip -> string) (is_loopback : Ip -> bool) (crc32 : bytes -> Z).
(** jsonwebtoken's decoding under the secret, with its check of the expiry. *)
Context (jwt_decode : string -> string -> result Claims ProtocolError).

Record StaticIpRegion := mkStaticIpRegion { ir_default : string; ir_map : gmap Ip string }.
Definition country (g : StaticIpRegion) (ip : Ip) : string :=
  if is_loopback ip then ir_default g else default (ir_default g) (ir_map g !! ip).

Record Lookup := mkLookup {
  lk_geo : StaticIpRegion;
  lk_default_region : string;
  lk_mapping : list Mapping;
  lk_regions : list Region;
  lk_secret : string
}.

(** [parse] of kim-protocol's token.rs. *)
Definition parse_claims (secret token : string) : result Claims ProtocolError :=
  let? claims := jwt_decode secret token in let? _ := check_account (cl_account claims) in Ok claims.

Definition claims_hash_key (claims : Claims) : string :=
  match trimmed (cl_jti claims) with
  | Some jti => (cl_account claims ++ ":" ++ jti)%string
  | None => cl_account claims
  end.
Definition hash_key (ip : Ip) (token secret : string) : result string LookupError :=
  if str_is_empty token then Ok (ip_text ip)
  else match parse_claims secret token with
       | Err _ => Err LUnauthorized
       | Ok claims => if negb (bool_decide (cl_app claims = ALLOWED_APP)) then Err LUnauthorized else Ok (claims_hash_key claims)
       end.

Definition pick_idc (region : Region) (key : string) : option string :=
  match rg_slots region with
  | [] => idc_id <$> head (rg_idcs region)
  | _ =>
    i ← rg_slots region !! Z.to_nat (crc32 (bytes_of key) mod len (rg_slots region));
    idc_id <$> rg_idcs region !! i
  end.

Definition gateway_address (r : DefaultRegistration) : string :=
  match rg_meta r !! "domain"%string with
  | Some d => d
  | None =>
    if bool_decide (rg_protocol r = "ws"%string)
    then ("ws://" ++ rg_public_address r ++ ":" ++ nat_to_dec (rg_public_port r) ++ "/")%string
    else (rg_public_address r ++ ":" ++ nat_to_dec (rg_public_port r))%string
  end.
(** Only called with a list that is not empty. *)
Definition pick_one (list_ : list DefaultRegistration) (key : string) : string :=
  match list_ !! Z.to_nat (crc32 (bytes_of key) mod len list_) with Some r => gateway_address r | None => "" end.

Definition find_tagged (service idc : string) : LProc (result (list DefaultRegistration) LookupError) :=
  r ← call (LFind service [("IDC:" ++ idc)%string]);
  Ret (match r with Ok l => Ok l | Err e => Err (LOther e) end).

Definition pick_gateways (idc key : string) : LProc (result (string * string) LookupError) :=
  ws_list ← find_tagged "wgateway" idc;
  match ws_list with
  | Err e => Ret (Err e)
  | Ok [] => Ret (Err NoGateway)
  | Ok ws_list =>
    tcp_list ← find_tagged "tgateway" idc;
    match tcp_list with
    | Err e => Ret (Err e)
    | Ok tcp_list => Ret (Ok (pick_one ws_list key, match tcp_list with [] => ""%string | _ => pick_one tcp_list key end))
    end
  end.

Definition find_region (id : string) (regions : list Region) : option Region :=
  List.find (fun r => bool_decide (rg_id r = id)) regions.
Definition region_of (lk : Lookup) (location : string) : string :=
  match List.find (fun m => bool_decide (mp_country m = location)) (lk_mapping lk) with
  | Some m => mp_region m
  | None => lk_default_region lk
  end.

Definition respond (location : string) (gw : string * string) : LProc (result LookupResp LookupError) :=
  now ← call LNow; Ret (Ok (mkLookupResp now location gw.1 gw.2)).

Definition fallback_idc (lk : Lookup) : option string :=
  r ← find_region (lk_default_region lk) (lk_regions lk); idc_id <$> head (rg_idcs r).

Definition lookup (lk : Lookup) (ip : Ip) (token : string) : LProc (result LookupResp LookupError) :=
  let location := country (lk_geo lk) ip in
  match find_region (region_of lk location) (lk_regions lk) with
  | None => Ret (Err BadConfig)
  | Some reg =>
    match hash_key ip token (lk_secret lk) with
    | Err e => Ret (Err e)
    | Ok key =>
      match pick_idc reg key with
      | None => Ret (Err BadConfig)
      | Some idc =>
        r ← pick_gateways idc key;
        match r with
        | Ok gw => respond location gw
        | Err NoGateway =>
          match fallback_idc lk with
          | None => Ret (Err NoGateway)
          | Some fidc =>
            r ← pick_gateways fidc key;
            match r with Ok gw => respond location gw | Err e => Ret (Err e) end
          end
        | Err e => Ret (Err e)
        end
      end
    end
  end.

(** ** What a lookup answers *)

Lemma build_slots_from_in i weights j : j ∈ build_slots_from i weights <->
  exists k w, j = (i + k)%nat /\ weights !! k = Some w /\ 0 < w.
Proof.
  revert i. induction weights as [|w weights IH]; intros i; cbn [build_slots_from].
  - split; [set_solver|]. by intros (k & w & _ & E & _).
  - rewrite elem_of_app, IH. split.
    + intros [Hin|(k & w' & -> & Hk & Hw)].
      * apply elem_of_replicate in Hin as [-> Hn]. exists 0%nat, w. split_and!; [lia|done|lia].
      * exists (S k), w'. split_and!; [lia|done|done].
    + intros ([|k] & w' & -> & Hk & Hw); simplify_eq/=.
      * left. apply elem_of_replicate. split; lia.
      * right. exists k, w'. split_and!; [lia|done|done].
Qed.

(** The picked data centre is one of the region, of positive weight when one has. *)
Definition idc_choice (reg : Region) (idc : string) : Prop :=
  exists i, i ∈ rg_idcs reg /\ idc_id i = idc /\ ((exists j, j ∈ rg_idcs reg /\ 0 < idc_weight j) -> 0 < idc_weight i).

Lemma pick_idc_choice id idcs key idc : pick_idc (Region_new id idcs) key = Some idc -> idc_choice (Region_new id idcs) idc.
Proof.
  unfold pick_idc, idc_choice. cbn [Region_new rg_slots rg_idcs]. unfold build_slots.
  assert (Hin := build_slots_from_in 0 (idc_weight <$> idcs)). destruct (build_slots_from 0 _) as [|s0 slots] eqn:E.
  - destruct idcs as [|i idcs]; [done|]. cbn. intros [= <-]. exists i. split_and!; [set_solver|done|].
    intros (j & Hj & Hw). exfalso. apply list_elem_of_lookup in Hj as [k Hk].
    assert (k ∈ (@nil nat)); [|set_solver]. apply Hin. exists k, (idc_weight j). split_and!; [lia| |done].
    by rewrite list_lookup_fmap, Hk.
  - set (n := Z.to_nat _). intros H0. destruct ((s0 :: slots) !! n) as [i|] eqn:En; [|done]. cbn in H0.
    destruct (idcs !! i) as [x|] eqn:Ei; [|done]. cbn in H0. injection H0 as <-. exists x.
    split_and!; [by eapply list_elem_of_lookup_2|done|]. intros _.
    apply list_elem_of_lookup_2 in En. apply Hin in En as (k & w & -> & Hk & Hw).
    rewrite list_lookup_fmap in Hk. cbn in Ei. rewrite Ei in Hk. by simplify_eq/=.
Qed.

Lemma pick_one_in list_ key : list_ <> [] -> exists r, r ∈ list_ /\ pick_one list_ key = gateway_address r.
Proof.
  intros Hne. unfold pick_one. assert (Hl : 0 < len list_) by (destruct list_; [done|rewrite len_cons; pose proof (len_nonneg list_); lia]).
  destruct (list_ !! Z.to_nat (crc32 (bytes_of key) mod len list_)) as [r|] eqn:E.
  - exists r. split; [|done]. by eapply list_elem_of_lookup_2.
  - apply lookup_ge_None in E. pose proof (Z.mod_pos_bound (crc32 (bytes_of key)) (len list_) Hl).
    unfold len in *. lia.
Qed.

(** Discovery was asked for a data centre and answered with these gateways. *)
Definition found_at (tr : list (EventOf LEff)) (idc : string) (gw : string * string) : Prop :=
  exists ws tcp, Ev (LFind "wgateway" [("IDC:" ++ idc)%string]) (Ok ws) ∈ tr /\
    Ev (LFind "tgateway" [("IDC:" ++ idc)%string]) (Ok tcp) ∈ tr /\
    (exists r, r ∈ ws /\ gw.1 = gateway_address r) /\
    (tcp = [] /\ gw.2 = ""%string \/ exists r, r ∈ tcp /\ gw.2 = gateway_address r).

Lemma exec_find service idc tr r : exec (find_tagged service idc) tr r ->
  exists x, tr = [Ev (LFind service [("IDC:" ++ idc)%string]) x] /\
    r = match x with Ok l => Ok l | Err e => Err (LOther e) end.
Proof. intros He. apply exec_call_inv in He as (x & t & -> & He). apply exec_inv in He as [-> ->]. by exists x. Qed.

Lemma exec_pick idc key tr r : exec (pick_gateways idc key) tr r ->
  match r with
  | Ok gw => found_at tr idc gw
  | Err NoGateway => Ev (LFind "wgateway" [("IDC:" ++ idc)%string]) (Ok []) ∈ tr
  | Err e => exists t, e = LOther t
  end.
Proof.
  intros He. apply exec_bind_inv in He as (t1 & a & t2 & -> & H1 & He). apply exec_find in H1 as (x & -> & ->).
  destruct x as [[|w ws]|e]; [apply exec_inv in He as [-> ->]; set_solver| |apply exec_inv in He as [-> ->]; eauto].
  apply exec_bind_inv in He as (t3 & b & t4 & -> & H2 & He). apply exec_find in H2 as (y & -> & ->).
  destruct y as [tcp|e]; apply exec_inv in He as [-> ->]; [|eauto].
  exists (w :: ws), tcp. split_and!; [set_solver|set_solver|cbn [fst]; by apply pick_one_in|].
  destruct tcp as [|t tcp]; [by left|right]. by apply pick_one_in.
Qed.

Definition asked_empty (tr : list (EventOf LEff)) (idc : string) : Prop :=
  Ev (LFind "wgateway" [("IDC:" ++ idc)%string]) (Ok []) ∈ tr.
Lemma found_at_app t1 t2 idc gw : found_at t1 idc gw \/ found_at t2 idc gw -> found_at (t1 ++ t2) idc gw.
Proof. unfold found_at. intros [(ws & tcp & ? & ? & ?)|(ws & tcp & ? & ? & ?)]; exists ws, tcp; set_solver. Qed.

(** The regions of a configuration have the slots of their weights. *)
Definition regions_made (lk : Lookup) : Prop :=
  forall r, r ∈ lk_regions lk -> exists id idcs, r = Region_new id idcs.

Definition denied (lk : Lookup) (token : string) : Prop :=
  token <> ""%string /\ forall claims, parse_claims (lk_secret lk) token = Ok claims -> cl_app claims <> ALLOWED_APP.
Lemma hash_key_denied lk ip token e : hash_key ip token (lk_secret lk) = Err e -> e = LUnauthorized /\ denied lk token.
Proof.
  unfold hash_key, denied. destruct (str_is_empty token) eqn:Et; [done|].
  assert (Hn : token <> ""%string) by (by intros ->).
  destruct (parse_claims _ _) as [c|] eqn:E; [|by intros [= <-]].
  case_bool_decide; [done|]. intros [= <-]. split_and!; [done|done|]. intros c' [= <-]. done.
Qed.

(** Where a successful lookup sends a client: to the data centre its key picks in the
    region of its country, or, when no gateway is there, to the first data centre of
    the default region. *)
Definition sent_to (lk : Lookup) (ip : Ip) (token : string) (tr : list (EventOf LEff)) (gw : string * string) : Prop :=
  exists key reg idc, hash_key ip token (lk_secret lk) = Ok key /\
    find_region (region_of lk (country (lk_geo lk) ip)) (lk_regions lk) = Some reg /\
    pick_idc reg key = Some idc /\ idc_choice reg idc /\
    (found_at tr idc gw \/
     asked_empty tr idc /\ exists dreg i, find_region (lk_default_region lk) (lk_regions lk) = Some dreg /\
       head (rg_idcs dreg) = Some i /\ found_at tr (idc_id i) gw).

Lemma exec_respond location gw tr r : exec (respond location gw) tr r ->
  exists now, tr = [Ev LNow now] /\ r = Ok (mkLookupResp now location gw.1 gw.2).
Proof. intros He. apply exec_call_inv in He as (now & t & -> & He). apply exec_inv in He as [-> ->]. by exists now. Qed.

(** A lookup that succeeds names the client's country and gateways that discovery listed
    for the data centre that the client's key picks among those of positive weight in
    the region of that country, or, when discovery lists none there, for the first data
    centre of the default region.  The key is made of the claims of a valid token of the
    app, or of the address without a token; with any other token the lookup is refused
    before discovery is asked. *)
Theorem lookup_lands lk ip token tr r : regions_made lk -> exec (lookup lk ip token) tr r ->
  match r with
  | Ok resp => lr_location resp = country (lk_geo lk) ip /\ sent_to lk ip token tr (lr_ws resp, lr_tcp resp)
  | Err LUnauthorized => tr = [] /\ denied lk token
  | Err NoGateway => exists idc, asked_empty tr idc
  | Err BadConfig => tr = []
  | Err (LOther _) => ~ denied lk token
  end.
Proof.
  intros Hmade He. unfold lookup in He. set (location := country (lk_geo lk) ip) in *.
  destruct (find_region (region_of lk location) _) as [reg|] eqn:Ereg; [|by apply exec_inv in He as [-> ->]].
  destruct (hash_key ip token _) as [key|e] eqn:Ek.
  2: { apply exec_inv in He as [-> ->]. by apply hash_key_denied in Ek as [-> Hd]. }
  assert (Hnd : ~ denied lk token).
  { intros [Hne Hd]. unfold hash_key in Ek. destruct (str_is_empty token) eqn:Et; [by destruct token|].
    destruct (parse_claims _ _) as [c|] eqn:E; [|done]. specialize (Hd _ eq_refl). by rewrite bool_decide_eq_false_2 in Ek. }
  destruct (pick_idc reg key) as [idc|] eqn:Eidc; [|by apply exec_inv in He as [-> ->]].
  assert (Hchoice : idc_choice reg idc).
  { destruct (Hmade reg) as (i & l & ->); [|by eapply pick_idc_choice]. unfold find_region in Ereg.
    apply find_some in Ereg as [Hin _]. by apply list_elem_of_In. }
  apply exec_bind_inv in He as (t1 & a & t2 & -> & H1 & He). apply exec_pick in H1. destruct a as [gw|[| | |e]].
  - apply exec_respond in He as (now & -> & ->). split; [done|]. exists key, reg, idc. split_and!; try done.
    left. destruct gw. apply found_at_app. by left.
  - destruct (fallback_idc lk) as [fidc|] eqn:Ef.
    2: { apply exec_inv in He as [-> ->]. exists idc. rewrite app_nil_r. done. }
    assert (Hf : exists dreg i, find_region (lk_default_region lk) (lk_regions lk) = Some dreg /\
      head (rg_idcs dreg) = Some i /\ fidc = idc_id i).
    { unfold fallback_idc in Ef. destruct (find_region (lk_default_region lk) _) as [dreg|]; [|done]. cbn in Ef.
      destruct (head (rg_idcs dreg)) as [i|] eqn:Ei; [|done]. injection Ef as <-. by exists dreg, i. }
    destruct Hf as (dreg & i & Ed & Ei & ->).
    apply exec_bind_inv in He as (t3 & b & t4 & -> & H2 & He). apply exec_pick in H2. destruct b as [gw|[| | |e]].
    + apply exec_respond in He as (now & -> & ->). split; [done|]. exists key, reg, idc. split_and!; try done.
      right. split; [unfold asked_empty; set_solver|]. exists dreg, i. split_and!; try done.
      destruct gw. apply found_at_app. right. apply found_at_app. by left.
    + apply exec_inv in He as [-> ->]. exists idc. unfold asked_empty. set_solver.
    + by destruct H2.
    + by destruct H2.
    + by apply exec_inv in He as [-> ->].
  - by destruct H1.
  - by destruct H1.
  - by apply exec_inv in He as [-> ->].
Qed.
End lookup.

(** ** The HTTP handler *)

Section handler.
Context {Ip : Type} `{Countable Ip} (ip_text : Ip -> string) (is_loopback : Ip -> bool) (crc32 : bytes -> Z).
Context (jwt_decode : string -> string -> result Claims ProtocolError).
(** Addresses as the standard library parses them; the headers that are text. *)
Context (parse_ip : string -> option Ip) (localhost : Ip).

Definition bearer (authorization : option string) : option string :=
  v ← authorization;
  if String.prefix "Bearer " v then Some (string_of_bytes (drop 7 (bytes_of v))) else None.
Definition xff (forwarded : option string) : option Ip :=
  v ← forwarded;
  let first := match split_once ","%char v with Some (a, _) => a | None => v end in
  parse_ip (str_trim first).

Definition handle (lk : Lookup (Ip := Ip)) (authorization forwarded ip_q : option string) : LProc (result LookupResp Z) :=
  let token := default ""%string (bearer authorization) in
  let ip := match ip_q ≫= parse_ip with
            | Some ip => ip
            | None => default localhost (xff forwarded)
            end in
  r ← lookup ip_text is_loopback crc32 jwt_decode lk ip token;
  Ret (match r with
       | Ok resp => Ok resp
       | Err NoGateway => Err 503
       | Err LUnauthorized => Err 401
       | Err _ => Err 500
       end).

End handler.

(** ** A concrete lookup *)

Section demo.
Definition demo_reg (id name protocol domain : string) : DefaultRegistration :=
  mkRegistration id name protocol "10.0.0.1" 8001 ["IDC:hk"%string] (if str_is_empty domain then ∅ else {["domain"%string := domain]}).
Definition demo_lookup : Lookup (Ip := Z) :=
  mkLookup (mkStaticIpRegion "cn" {[7 := "hk"%string]}) "local" [mkMapping "hk" "asia"]
    [Region_new "local" [mkIdc "local" 100]; Region_new "asia" [mkIdc "sg" 0; mkIdc "hk" 2]] "secret".
Definition demo_jwt (secret token : string) : result Claims ProtocolError := Err InvalidToken.
Definition demo_crc (l : bytes) : Z := len l.
Definition demo_answers (X : Type) (e : LEff X) : unit -> unit * X :=
  match e in LEff X return unit -> unit * X with
  | LFind service tags => fun s => (s, Ok (if bool_decide (service = "wgateway"%string)
      then [demo_reg "w" "wgateway" "ws" "wss://hk/"] else [demo_reg "t" "tgateway" "tcp" ""]))
  | LNow => fun s => (s, 1700000000)
  end.
Definition demo_run := run demo_answers (lookup (fun _ => "7"%string) (fun _ => false) demo_crc demo_jwt demo_lookup 7 "") tt.

Lemma demo_made : regions_made demo_lookup.
Proof. intros r Hr. cbn in Hr. rewrite !elem_of_cons, elem_of_nil in Hr. naive_solver. Qed.

Lemma lookup_lands_witness :
  demo_run.2 = Ok (mkLookupResp 1700000000 "hk" "wss://hk/" "10.0.0.1:8001") /\
  sent_to (fun _ => "7"%string) (fun _ => false) demo_crc demo_jwt demo_lookup 7 "" demo_run.1.2 ("wss://hk/", "10.0.0.1:8001")%string.
Proof.
  split; [vm_compute; reflexivity|].
  assert (He : exec (lookup (fun _ => "7"%string) (fun _ => false) demo_crc demo_jwt demo_lookup 7 "") demo_run.1.2
    (Ok (mkLookupResp 1700000000 "hk" "wss://hk/" "10.0.0.1:8001"))).
  { replace (Ok _) with demo_run.2 by (vm_compute; reflexivity). apply exec_run. }
  exact (proj2 (lookup_lands _ _ _ _ demo_lookup 7 "" _ _ demo_made He)).
Defined.
End demo.
