(* ===== verification/SdkDb.v ===== *)
(** The database of the client library: the tables of crates/kim-sdk/src/store
    (schema.rs) and the statements on them (outbox.rs, messages.rs, threads.rs,
    watermarks.rs), with the vocabulary they use (error.rs, command.rs, model.rs,
    ids.rs).

    A table is a finite map from its primary key to its other columns.  A statement is
    a function on the tables that may fail; a transaction is a sequence of statements.
    The only failure a statement has of its own is the unique index on the message
    ids of a thread; that the database is busy, full or broken is an answer of the
    environment to the transaction (SdkWrites.v). *)

From S2P Require Import Prelude Prog Wire Pkt Msgs TcpCodec ClientWire.
From stdpp Require Import gmap.
Open Scope Z_scope.
Open Scope kim_scope.

(** ** error.rs *)

Inductive SdkError : Type :=
| NotFriends (dest : string) | Blocked (dest : string) | UserNotFound (dest : string) | CannotChatSelf
| AuthExpired | SdkUnauthorized | SdkNotConnected | StorageFull | SqliteBusy | Disk (message : string)
| RateLimited (retry_after_ms : Z) | PayloadTooLarge (size max : Z) | UnsupportedMedia (mime : string)
| Busy (queue : string) | StaleEpoch (expected actual : Z) | SdkNotFound (what : string)
| InvalidArgument (message : string) | BootstrapMissing | SdkProtocol (status : Z) | Internal (message : string).

Definition retryable (e : SdkError) : bool :=
  match e with SdkNotConnected | Busy _ | SqliteBusy | RateLimited _ => true | _ => false end.
Definition ends_identity (e : SdkError) : bool :=
  match e with AuthExpired | SdkUnauthorized => true | _ => false end.
Definition retryable_send (e : SdkError) : bool :=
  if retryable e then true
  else match e with
       | SdkProtocol status => (status =? 3) || ((300 <=? status) && (status <? 400))
       | _ => false
       end.

Definition status_to_sdk_error (status : Z) (dest : string) : SdkError :=
  if status =? 109 then NotFriends dest
  else if status =? 110 then Blocked dest
  else if status =? 108 then UserNotFound dest
  else if status =? 101 then SdkProtocol 101
  else if status =? 105 then SdkUnauthorized
  else SdkProtocol status.

(** [text] is the display of an error. *)
Definition map_client (text : ClientError -> string) (err : ClientError) (dest : string) : SdkError :=
  match err with
  | NotConnected | NotLoggedIn | HandshakeTimeout _ | Handshake _ => SdkNotConnected
  | ClientUnauthorized | ClientInvalidToken => SdkUnauthorized
  | StatusError status => status_to_sdk_error status dest
  | Http status _ =>
    if status =? 401 then SdkUnauthorized else if status =? 429 then RateLimited 1000 else Internal (text err)
  | AlreadyConnected | ClientInvalidAccount | InvalidPassword | InsecureOrigin | PasswordSeal | Protocol _ | Core _ | Other _ =>
    Internal (text err)
  end.

(** ** command.rs, model.rs, ids.rs *)

Inductive SendStatus : Type := Pending | Uploading | Sending | Sent | Failed | Cancelled.
Definition SendStatus_as_str (s : SendStatus) : string :=
  match s with
  | Pending => "pending" | Uploading => "uploading" | Sending => "sending"
  | Sent => "sent" | Failed => "failed" | Cancelled => "cancelled"
  end.
Definition SendStatus_from_db (raw : string) : SendStatus :=
  if bool_decide (raw = "pending"%string) || bool_decide (raw = "sending"%string) then Pending
  else if bool_decide (raw = "uploading"%string) then Uploading
  else if bool_decide (raw = "sent"%string) then Sent
  else if bool_decide (raw = "failed"%string) then Failed
  else if bool_decide (raw = "cancelled"%string) then Cancelled
  else Sent.
Definition message_status (s : SendStatus) : string :=
  match s with
  | Pending | Uploading | Sending => "sending"
  | Sent => "sent" | Failed => "failed" | Cancelled => "cancelled"
  end.

Inductive ThreadKind : Type := User | Group.
#[export] Instance ThreadKind_eq_dec : EqDecision ThreadKind.
Proof. solve_decision. Defined.
Definition ThreadKind_as_wire (k : ThreadKind) : Z := match k with User => INBOX_KIND_USER | Group => INBOX_KIND_GROUP end.
Definition ThreadKind_from_wire (kind : Z) : ThreadKind := if kind =? INBOX_KIND_GROUP then Group else User.
Definition ThreadKind_as_db (k : ThreadKind) : string := match k with User => "user" | Group => "group" end.
Definition ThreadKind_from_db (name : string) : ThreadKind := if bool_decide (name = "group"%string) then Group else User.

Inductive MediaKind : Type := MText | MImage | MVideo | MVoice | MCard.
#[export] Instance MediaKind_eq_dec : EqDecision MediaKind.
Proof. solve_decision. Defined.
Definition MediaKind_as_wire (k : MediaKind) : Z :=
  match k with
  | MText | MCard => MESSAGE_TYPE_TEXT | MImage => MESSAGE_TYPE_IMAGE
  | MVideo => MESSAGE_TYPE_VIDEO | MVoice => MESSAGE_TYPE_VOICE
  end.
Definition MediaKind_as_db (k : MediaKind) : string :=
  match k with MText => "text" | MImage => "image" | MVideo => "video" | MVoice => "voice" | MCard => "card" end.
Definition MediaKind_from_db (name : string) : result MediaKind SdkError :=
  if bool_decide (name = "text"%string) then Ok MText
  else if bool_decide (name = "image"%string) then Ok MImage
  else if bool_decide (name = "video"%string) then Ok MVideo
  else if bool_decide (name = "voice"%string) then Ok MVoice
  else if bool_decide (name = "card"%string) then Ok MCard
  else Err (InvalidArgument ("unknown media kind " ++ name)).

Inductive OutgoingContent : Type :=
| OText (body : string)
| OImage (path mime : string) (width height byte_size : Z)
| OVideo (path : string) (byte_size : Z)
| OVoice (path : string) (byte_size : Z).
Definition media_kind (c : OutgoingContent) : MediaKind :=
  match c with OText _ => MText | OImage _ _ _ _ _ => MImage | OVideo _ _ => MVideo | OVoice _ _ => MVoice end.
Definition payload_type (c : OutgoingContent) : Z := MediaKind_as_wire (media_kind c).

Definition i64_text (n : Z) : string := if n <? 0 then "-" ++ nat_to_dec (- n) else nat_to_dec n.
Definition incoming_message_key (message_id send_time : Z) (sender : string) : string :=
  if negb (message_id =? 0) then "m" ++ i64_text message_id
  else "talk-" ++ i64_text send_time ++ "-" ++ sender.
Definition is_client_key (key : string) : bool :=
  let b := bytes_of key in
  let dash i := bool_decide (b !! i = Some (u8_of_Z 45)) in
  (len b =? 36) && dash 8%nat && dash 13%nat && dash 18%nat && dash 23%nat.
Definition prefer_key (a b : string) : string :=
  if is_client_key a && negb (is_client_key b) then a
  else if is_client_key b && negb (is_client_key a) then b
  else a.

(** ** JSON, which serde_json parses *)

Inductive JValue : Type :=
| JObject (fields : list (string * JValue))
| JInt (n : Z) | JBool (b : bool) | JString (s : string) | JOther.
Class SerdeJson := from_str : string -> option JValue.
Definition jget (name : string) (v : JValue) : option JValue :=
  match v with JObject fields => (list_to_map fields : gmap string JValue) !! name | _ => None end.
Definition as_i64 (v : JValue) : option Z :=
  match v with JInt n => if (i64_min <=? n) && (n <=? i64_max) then Some n else None | _ => None end.
Definition as_bool (v : JValue) : option bool := match v with JBool b => Some b | _ => None end.
Definition as_str (v : JValue) : option string := match v with JString s => Some s | _ => None end.

Definition quote : string := String "034" "".
Definition encode_bot_reply_extra (in_reply_to : Z) : string :=
  "{" ++ quote ++ "bot_reply" ++ quote ++ ":1," ++ quote ++ "in_reply_to" ++ quote ++ ":" ++ i64_text in_reply_to ++ "}".
Definition bot_reply_in_reply_to `{SerdeJson} (extra : string) : option Z :=
  v ← from_str extra;
  marker ← jget "bot_reply" v;
  if bool_decide (as_i64 marker = Some 1) || bool_decide (as_bool marker = Some true)
  then t ← jget "in_reply_to" v; as_i64 t
  else None.
Definition image_extra (width height : Z) : string :=
  if (width <=? 0) || (height <=? 0) then ""
  else "{" ++ quote ++ "w" ++ quote ++ ":" ++ i64_text width ++ "," ++ quote ++ "h" ++ quote ++ ":" ++ i64_text height ++ "}".

(** ** What kind of message a body is: model.rs *)

Definition MEDIA_HOST : string := "media.kim.ainexc.com".
(** The text before the first character of [stops]. *)
Fixpoint before_any (stops : string -> bool) (s : string) : string :=
  match s with
  | EmptyString => EmptyString
  | String c s' => if stops (String c "") then EmptyString else String c (before_any stops s')
  end.
Definition is_query (c : string) : bool := bool_decide (c = "?"%string) || bool_decide (c = "#"%string).
Definition is_host_end (c : string) : bool := bool_decide (c = "/"%string) || is_query c.
Definition ends_with (suffix s : string) : bool :=
  bool_decide (string_of_bytes (list.drop (length (bytes_of s) - length (bytes_of suffix)) (bytes_of s)) = suffix).
Definition is_remote_url (body : string) : bool :=
  String.prefix "http://" body || String.prefix "https://" body.

Definition extension_kind (path : string) : option MediaKind :=
  let stem := before_any is_query (str_to_ascii_lowercase path) in
  if ends_with ".mp4" stem || ends_with ".mov" stem || ends_with ".webm" stem || ends_with ".m4v" stem then Some MVideo
  else if ends_with ".jpg" stem || ends_with ".jpeg" stem || ends_with ".png" stem || ends_with ".webp" stem
          || ends_with ".gif" stem then Some MImage
  else None.

(** What follows the scheme of a URL, up to a second one. *)
Definition url_rest (url : string) : string :=
  let rest := if String.prefix "https://" url then String.substring 8 (String.length url) url
              else String.substring 7 (String.length url) url in
  match String.index 0 "://" rest with Some i => String.substring 0 i rest | None => rest end.
Definition media_kind_from_url (body : string) : option MediaKind :=
  let url := str_trim body in
  if negb (is_remote_url url) then extension_kind url
  else
    match extension_kind (before_any is_query url) with
    | Some kind => Some kind
    | None =>
      let host := before_any is_host_end (url_rest url) in
      if bool_decide (str_to_ascii_lowercase host = str_to_ascii_lowercase MEDIA_HOST) then Some MImage else None
    end.

Inductive AgentCardType : Type := Tool | ActionRequired.
(** The type of the card a body is the JSON text of; its other fields are for display. *)
Definition parse_agent_card `{SerdeJson} (body : string) : option AgentCardType :=
  v ← from_str (str_trim body);
  match v with
  | JObject _ =>
    match jget "type" v ≫= as_str with
    | Some "action_required"%string => Some ActionRequired
    | Some "tool"%string => Some Tool
    | Some _ => None
    | None => if bool_decide (is_Some (jget "call_id" v)) then Some Tool else None
    end
  | _ => None
  end.
Definition classify_message `{SerdeJson} (msg_type : Z) (body : string) : MediaKind :=
  if msg_type =? MESSAGE_TYPE_IMAGE then MImage
  else if msg_type =? MESSAGE_TYPE_VIDEO then MVideo
  else if msg_type =? MESSAGE_TYPE_VOICE then MVoice
  else match parse_agent_card body with
       | Some _ => MCard
       | None => match media_kind_from_url body with Some kind => kind | None => MText end
       end.

Definition clamp (lo hi z : Z) : Z := Z.max lo (Z.min hi z).
Definition parse_image_extra `{SerdeJson} (extra : string) : Z * Z :=
  let raw := str_trim extra in
  if negb (String.prefix "{" raw) then (0, 0)
  else match from_str raw with
       | None => (0, 0)
       | Some v =>
         (clamp 0 i32_max (default 0 (jget "w" v ≫= as_i64)), clamp 0 i32_max (default 0 (jget "h" v ≫= as_i64)))
       end.

(** ** schema.rs *)

Definition MAX_MESSAGES : Z := 400.

Record OutRow := mkOutRow {
  o_dest : string; o_kind : Z; o_payload_type : Z; o_body : string; o_extra : string; o_local_path : string;
  o_mime : string; o_width : Z; o_height : Z; o_byte_size : Z; o_batch_id : string; o_status : string;
  o_attempt : Z; o_next_attempt_at : Z; o_message_id : Z; o_created_at : Z; o_updated_at : Z
}.
Record MsgRow := mkMsgRow {
  m_sender : string; m_body : string; m_at : Z; m_sys : bool; m_failed : bool; m_kind : MediaKind;
  m_width : Z; m_height : Z; m_message_id : Z; m_batch_id : string; m_status : string;
  m_local_path : string; m_thread_kind : ThreadKind
}.
Record ThreadRow := mkThreadRow {
  t_kind : ThreadKind; t_title : string; t_last_body : string; t_last_kind : MediaKind; t_last_sys : bool;
  t_last_at : Z; t_unread : Z; t_avatar : string; t_last_message_id : Z
}.
Record WatermarkRow := mkWatermarkRow {
  w_last_read : Z; w_last_read_at : Z; w_kind : Z; w_confirmed : Z; w_retry_count : Z; w_next_retry_at : Z;
  w_last_error : string
}.
Record ReadStateRow := mkReadStateRow {
  r_kind : Z; r_server_version : Z; r_server_read_id : Z; r_server_max : Z; r_server_unread : Z;
  r_local_generation : Z; r_known_max : Z
}.

(** The tables by their primary keys: (account, client id), (account, dest, key), and
    (account, dest). *)
Record SdkDb := mkSdkDb {
  outbox : gmap (string * string) OutRow;
  messages : gmap (string * string * string) MsgRow;
  threads : gmap (string * string) ThreadRow;
  read_watermarks : gmap (string * string) WatermarkRow;
  conversation_read_state : gmap (string * string) ReadStateRow;
  timeline_meta : gmap (string * string) Z
}.
Definition empty_db : SdkDb := mkSdkDb ∅ ∅ ∅ ∅ ∅ ∅.

Definition set_outbox (f : gmap (string * string) OutRow -> gmap (string * string) OutRow) (d : SdkDb) : SdkDb :=
  mkSdkDb (f (outbox d)) (messages d) (threads d) (read_watermarks d) (conversation_read_state d) (timeline_meta d).
Definition set_messages (f : gmap (string * string * string) MsgRow -> gmap (string * string * string) MsgRow) (d : SdkDb) : SdkDb :=
  mkSdkDb (outbox d) (f (messages d)) (threads d) (read_watermarks d) (conversation_read_state d) (timeline_meta d).
Definition set_threads (f : gmap (string * string) ThreadRow -> gmap (string * string) ThreadRow) (d : SdkDb) : SdkDb :=
  mkSdkDb (outbox d) (messages d) (f (threads d)) (read_watermarks d) (conversation_read_state d) (timeline_meta d).
Definition set_watermarks (f : gmap (string * string) WatermarkRow -> gmap (string * string) WatermarkRow) (d : SdkDb) : SdkDb :=
  mkSdkDb (outbox d) (messages d) (threads d) (f (read_watermarks d)) (conversation_read_state d) (timeline_meta d).
Definition set_read_state (f : gmap (string * string) ReadStateRow -> gmap (string * string) ReadStateRow) (d : SdkDb) : SdkDb :=
  mkSdkDb (outbox d) (messages d) (threads d) (read_watermarks d) (f (conversation_read_state d)) (timeline_meta d).
Definition set_meta (f : gmap (string * string) Z -> gmap (string * string) Z) (d : SdkDb) : SdkDb :=
  mkSdkDb (outbox d) (messages d) (threads d) (read_watermarks d) (conversation_read_state d) (f (timeline_meta d)).

(** Statements, one after the other. *)
Definition Dbm (A : Type) : Type := SdkDb -> result (A * SdkDb) SdkError.
#[export] Instance Dbm_ret : MRet Dbm := fun A a d => Ok (a, d).
#[export] Instance Dbm_bind : MBind Dbm := fun A B f m d => match m d with Ok (a, d') => f a d' | Err e => Err e end.
Definition query {A} (f : SdkDb -> A) : Dbm A := fun d => Ok (f d, d).
Definition exec_sql (f : SdkDb -> SdkDb) : Dbm unit := fun d => Ok (tt, f d).
Definition fail {A} (e : SdkError) : Dbm A := fun _ => Err e.

(** ** outbox.rs *)

Record OutboxInsert := mkOutboxInsert {
  oi_account : string; oi_client_id : string; oi_dest : string; oi_kind : Z; oi_payload_type : Z; oi_body : string;
  oi_extra : string; oi_local_path : string; oi_mime : string; oi_width : Z; oi_height : Z; oi_byte_size : Z;
  oi_batch_id : string; oi_status : SendStatus; oi_now : Z
}.
Definition outbox_insert (r : OutboxInsert) : Dbm unit :=
  exec_sql (set_outbox (partial_alter (fun old =>
    Some match old with
         | None =>
           mkOutRow (oi_dest r) (oi_kind r) (oi_payload_type r) (oi_body r) (oi_extra r) (oi_local_path r) (oi_mime r)
             (oi_width r) (oi_height r) (oi_byte_size r) (oi_batch_id r) (SendStatus_as_str (oi_status r))
             0 0 0 (oi_now r) (oi_now r)
         | Some o =>
           mkOutRow (oi_dest r) (oi_kind r) (oi_payload_type r) (oi_body r) (oi_extra r) (oi_local_path r) (oi_mime r)
             (oi_width r) (oi_height r) (oi_byte_size r) (oi_batch_id r) (SendStatus_as_str (oi_status r))
             (o_attempt o) (o_next_attempt_at o) (o_message_id o) (o_created_at o) (oi_now r)
         end) (oi_account r, oi_client_id r))).

(** What a pass reads of a row. *)
Record OutboxRow := mkOutboxRow {
  or_client_id : string; or_dest : string; or_kind : Z; or_payload_type : Z; or_body : string; or_extra : string;
  or_local_path : string; or_mime : string; or_width : Z; or_height : Z; or_byte_size : Z; or_status : string;
  or_attempt : Z
}.
Definition map_row (client_id : string) (o : OutRow) : OutboxRow :=
  mkOutboxRow client_id (o_dest o) (o_kind o) (o_payload_type o) (o_body o) (o_extra o) (o_local_path o) (o_mime o)
    (o_width o) (o_height o) (o_byte_size o) (o_status o) (o_attempt o).

Definition is_due (account : string) (now : Z) (e : (string * string) * OutRow) : bool :=
  bool_decide (e.1.1 = account) && bool_decide (o_status e.2 = "pending"%string) && (o_next_attempt_at e.2 <=? now).
Definition due_le (x y : (string * string) * OutRow) : bool :=
  (o_created_at x.2 <? o_created_at y.2) || ((o_created_at x.2 =? o_created_at y.2) && str_le x.1.2 y.1.2).
Definition load_due (account : string) (now : Z) (d : SdkDb) : list OutboxRow :=
  (fun e => map_row e.1.2 e.2) <$> sort_by due_le (List.filter (is_due account now) (map_to_list (outbox d))).
Definition get_row (account client_id : string) (d : SdkDb) : option OutboxRow :=
  map_row client_id <$> outbox d !! (account, client_id).
Definition dest_for_client_id (account client_id : string) (d : SdkDb) : option string :=
  o_dest <$> outbox d !! (account, client_id).
Definition alive (account client_id : string) (d : SdkDb) : bool :=
  match outbox d !! (account, client_id) with
  | Some o => negb (bool_decide (o_status o ∈ ["sent"; "cancelled"]%string))
  | None => false
  end.

(** [UPDATE outbox SET ... WHERE account = ? AND client_id = ?] *)
Definition update_outbox (account client_id : string) (f : OutRow -> OutRow) : Dbm unit :=
  exec_sql (set_outbox (alter f (account, client_id))).
Definition set_status (status : string) (attempt next_attempt_at message_id now : Z) (o : OutRow) : OutRow :=
  mkOutRow (o_dest o) (o_kind o) (o_payload_type o) (o_body o) (o_extra o) (o_local_path o) (o_mime o) (o_width o)
    (o_height o) (o_byte_size o) (o_batch_id o) status attempt next_attempt_at message_id (o_created_at o) now.

(** [UPDATE messages SET ... WHERE account = ? AND key = ?]: the rows of every thread. *)
Definition of_key (account key : string) (i : string * string * string) : bool :=
  bool_decide (i.1.1 = account) && bool_decide (i.2 = key).
Definition update_messages (account key : string) (f : MsgRow -> MsgRow) (ms : gmap (string * string * string) MsgRow)
  : gmap (string * string * string) MsgRow :=
  map_imap (fun i m => Some (if of_key account key i then f m else m)) ms.
Definition set_sending (status : string) (failed : bool) (message_id : Z) (m : MsgRow) : MsgRow :=
  mkMsgRow (m_sender m) (m_body m) (m_at m) (m_sys m) failed (m_kind m) (m_width m) (m_height m)
    (if message_id =? 0 then m_message_id m else message_id) (m_batch_id m) status (m_local_path m) (m_thread_kind m).

(** The unique index on (account, dest, message_id) where message_id is not 0: another
    row of the thread has the id. *)
Definition mid_taken (account dest key : string) (mid : Z) (ms : gmap (string * string * string) MsgRow) : bool :=
  negb (mid =? 0) &&
  existsb (fun e => bool_decide (e.1.1 = (account, dest)) && negb (bool_decide (e.1.2 = key)) && (m_message_id e.2 =? mid))
    (map_to_list ms).
Definition sqlite_error : SdkError := Disk "sqlite error".

Definition outbox_requeue (account client_id : string) (now : Z) : Dbm unit :=
  d ← query (fun d => d);
  match outbox d !! (account, client_id) with
  | Some o =>
    if bool_decide (o_status o ∈ ["pending"; "failed"]%string) then
      _ ← update_outbox account client_id (fun o => set_status "pending" (o_attempt o) 0 (o_message_id o) now o);
      exec_sql (set_messages (update_messages account client_id (set_sending "sending" false 0)))
    else fail (SdkNotFound "outbox")
  | None => fail (SdkNotFound "outbox")
  end.
Definition wake_pending (account : string) (now : Z) : Dbm unit :=
  exec_sql (set_outbox (map_imap (fun i o => Some
    (if bool_decide (i.1 = account) && bool_decide (o_status o = "pending"%string)
     then set_status (o_status o) (o_attempt o) 0 (o_message_id o) now o else o)))).
Definition outbox_mark_retry (account client_id : string) (attempt next_attempt_at now : Z) : Dbm unit :=
  update_outbox account client_id (fun o => set_status "pending" attempt next_attempt_at (o_message_id o) now o).
Definition outbox_mark_sent (account client_id : string) (message_id now : Z) : Dbm unit :=
  _ ← update_outbox account client_id (fun o => set_status "sent" (o_attempt o) (o_next_attempt_at o) message_id now o);
  ms ← query messages;
  if existsb (fun e => of_key account client_id e.1 && mid_taken account e.1.1.2 client_id message_id ms) (map_to_list ms)
  then fail sqlite_error
  else exec_sql (set_messages (update_messages account client_id (set_sending "sent" false message_id))).
Definition outbox_mark_failed (account client_id : string) (now : Z) : Dbm unit :=
  _ ← update_outbox account client_id (fun o => set_status "failed" (o_attempt o) (o_next_attempt_at o) (o_message_id o) now o);
  exec_sql (set_messages (update_messages account client_id (set_sending "failed" true 0))).
Definition outbox_cancel (account client_id : string) : Dbm unit :=
  _ ← exec_sql (set_outbox (delete (account, client_id)));
  exec_sql (set_messages (filter (fun e => of_key account client_id e.1 = false))).
Definition outbox_delete_thread (account dest : string) : Dbm unit :=
  _ ← exec_sql (set_outbox (filter (fun e => ~ (e.1.1 = account /\ o_dest e.2 = dest))));
  _ ← exec_sql (set_messages (filter (fun e => e.1.1 <> (account, dest))));
  _ ← exec_sql (set_threads (delete (account, dest)));
  _ ← exec_sql (set_watermarks (filter (fun e => ~ (e.1 = (account, dest) /\ w_last_read e.2 <= w_confirmed e.2))));
  exec_sql (set_meta (delete (account, dest))).

(** ** threads.rs *)

Definition upsert_on_send (account dest : string) (kind : ThreadKind) (last_body : string) (last_at : Z) (media : MediaKind)
    (sys : bool) : Dbm unit :=
  exec_sql (set_threads (partial_alter (fun old =>
    Some match old with
         | None => mkThreadRow kind dest last_body media sys last_at 0 "" 0
         | Some t =>
           mkThreadRow kind (t_title t) last_body media sys (if t_last_at t <=? last_at then last_at else t_last_at t)
             (t_unread t) (t_avatar t) (t_last_message_id t)
         end) (account, dest))).

Definition upsert_full (account id : string) (t : ThreadRow) : Dbm unit :=
  exec_sql (set_threads (partial_alter (fun old =>
    Some match old with
         | None => t
         | Some o =>
           mkThreadRow (t_kind t) (t_title t) (t_last_body t) (t_last_kind t) (t_last_sys t) (t_last_at t) (t_unread t)
             (if bool_decide (t_avatar t = ""%string) then t_avatar o else t_avatar t)
             (if t_last_message_id o <=? t_last_message_id t then t_last_message_id t else t_last_message_id o)
         end) (account, id))).

Record IncomingApply := mkIncomingApply {
  ia_dest : string; ia_last_body : string; ia_last_at : Z; ia_unread_delta : Z; ia_thread_kind : ThreadKind;
  ia_media_kind : MediaKind; ia_sys : bool; ia_last_message_id : Z
}.
Definition wrap_i32 (z : Z) : Z := (z - i32_min) mod 2 ^ 32 + i32_min.
Definition apply_incoming (account : string) (i : IncomingApply) : Dbm ThreadRow :=
  existing ← query (fun d => threads d !! (account, ia_dest i));
  let newer := match existing with Some t => t_last_at t <=? ia_last_at i | None => true end in
  let stored :=
    mkThreadRow
      (match existing with Some t => t_kind t | None => ia_thread_kind i end)
      (match existing with Some t => t_title t | None => ia_dest i end)
      (if newer then ia_last_body i else match existing with Some t => t_last_body t | None => "" end)
      (if newer then ia_media_kind i else match existing with Some t => t_last_kind t | None => MText end)
      (if newer then ia_sys i else match existing with Some t => t_last_sys t | None => false end)
      (match existing with Some t => Z.max (t_last_at t) (ia_last_at i) | None => ia_last_at i end)
      (Z.max 0 (wrap_i32 (match existing with Some t => t_unread t | None => 0 end + ia_unread_delta i)))
      (match existing with Some t => t_avatar t | None => "" end)
      (Z.max (match existing with Some t => t_last_message_id t | None => 0 end) (ia_last_message_id i)) in
  _ ← upsert_full account (ia_dest i) stored;
  mret stored.

(** ** messages.rs *)

Definition insert_own (account dest key sender body : string) (at_ : Z) (kind : MediaKind) (width height : Z)
    (batch_id : string) (status : SendStatus) (local_path : string) (thread_kind : ThreadKind) : Dbm unit :=
  let failed := match status with Failed => true | _ => false end in
  exec_sql (set_messages (partial_alter (fun old =>
    Some match old with
         | None =>
           mkMsgRow sender body at_ false failed kind width height 0 batch_id (message_status status) local_path thread_kind
         | Some m =>
           mkMsgRow (m_sender m) body at_ (m_sys m) failed kind width height (m_message_id m) batch_id
             (message_status status) local_path thread_kind
         end) (account, dest, key))).

(** [ORDER BY at DESC, key DESC] *)
Definition newest_le (x y : (string * string * string) * MsgRow) : bool :=
  (m_at y.2 <? m_at x.2) || ((m_at x.2 =? m_at y.2) && str_le y.1.2 x.1.2).
Definition thread_rows (account dest : string) (ms : gmap (string * string * string) MsgRow)
  : list ((string * string * string) * MsgRow) :=
  sort_by newest_le (List.filter (fun e => bool_decide (e.1.1 = (account, dest))) (map_to_list ms)).
(** The newest rows of a thread stay, and those the outbox still has to send. *)
Definition prune_keeps (account dest : string) (d : SdkDb) (key : string) : bool :=
  (match outbox d !! (account, key) with
   | Some o => bool_decide (o_dest o = dest) && negb (bool_decide (o_status o ∈ ["sent"; "cancelled"]%string))
   | None => false
   end)
  || bool_decide (key ∈ (fun e => e.1.2) <$> take (Z.to_nat MAX_MESSAGES) (thread_rows account dest (messages d))).
Definition prune (account dest : string) : Dbm unit :=
  exec_sql (fun d => set_messages (filter (fun e => e.1.1 = (account, dest) -> prune_keeps account dest d e.1.2 = true)) d).
Definition bump_timeline_version (account dest : string) : Dbm unit :=
  exec_sql (set_meta (partial_alter (fun v => Some (match v with Some v => v + 1 | None => 1 end)) (account, dest))).

Record StoredMsg := mkStoredMsg { sm_key : string; sm_dest : string; sm_row : MsgRow }.
Definition set_failed (failed : bool) (m : MsgRow) : MsgRow :=
  mkMsgRow (m_sender m) (m_body m) (m_at m) (m_sys m) failed (m_kind m) (m_width m) (m_height m) (m_message_id m)
    (m_batch_id m) (m_status m) (m_local_path m) (m_thread_kind m).
(** What a statement reads of a row leaves [failed] out. *)
Definition stored (dest key : string) (m : MsgRow) : StoredMsg := mkStoredMsg key dest (set_failed false m).

Definition find_by_mid (account dest : string) (mid : Z) (d : SdkDb) : option StoredMsg :=
  match List.filter (fun e => bool_decide (e.1.1 = (account, dest)) && (m_message_id e.2 =? mid) && negb (m_message_id e.2 =? 0))
          (map_to_list (messages d)) with
  | e :: _ => Some (stored dest e.1.2 e.2)
  | [] => None
  end.
Definition find_by_key (account dest key : string) (d : SdkDb) : option StoredMsg :=
  stored dest key <$> messages d !! (account, dest, key).
Definition delete_key (account dest key : string) : Dbm unit := exec_sql (set_messages (delete (account, dest, key))).

Definition or_old (new old : string) : string := if bool_decide (new = ""%string) then old else new.
Definition put_row (old : option MsgRow) (m : MsgRow) : MsgRow :=
  match old with
  | None => set_failed false m
  | Some o =>
    mkMsgRow (m_sender m) (m_body m) (m_at m) (m_sys m) (m_failed o) (m_kind m) (m_width m) (m_height m)
      (if m_message_id m =? 0 then m_message_id o else m_message_id m) (or_old (m_batch_id m) (m_batch_id o)) (m_status m)
      (or_old (m_local_path m) (m_local_path o)) (m_thread_kind m)
  end.
Definition put_msg (account : string) (m : StoredMsg) : Dbm unit :=
  ms ← query messages;
  let row := put_row (ms !! (account, sm_dest m, sm_key m)) (sm_row m) in
  if mid_taken account (sm_dest m) (sm_key m) (m_message_id row) ms then fail sqlite_error
  else exec_sql (set_messages (insert (account, sm_dest m, sm_key m) row)).

Definition or_zero (new old : Z) : Z := if new =? 0 then old else new.
Definition merge_stored (prev next : StoredMsg) : StoredMsg :=
  let p := sm_row prev in
  let n := sm_row next in
  mkStoredMsg (sm_key prev) (sm_dest prev)
    (mkMsgRow (or_old (m_sender n) (m_sender p))
       (if is_remote_url (m_body p) && negb (is_remote_url (m_body n)) then m_body p else m_body n)
       (or_zero (m_at n) (m_at p)) (m_sys n) false (m_kind n) (or_zero (m_width n) (m_width p))
       (or_zero (m_height n) (m_height p)) (or_zero (m_message_id n) (m_message_id p))
       (or_old (m_batch_id n) (m_batch_id p)) (m_status n) (or_old (m_local_path n) (m_local_path p))
       (if bool_decide (m_thread_kind n = User) then m_thread_kind p else m_thread_kind n)).

Inductive UnreadPolicy : Type := Keep | IfInserted.
#[export] Instance MsgRow_eq_dec : EqDecision MsgRow.
Proof. solve_decision. Defined.
#[export] Instance StoredMsg_eq_dec : EqDecision StoredMsg.
Proof. solve_decision. Defined.

Record ApplyOutcome := mkApplyOutcome {
  ao_dest : string; ao_inserted : bool; ao_unread_delta : Z; ao_msg : StoredMsg; ao_fields_changed : bool; ao_had_loser : bool
}.
Definition needs_publish (o : ApplyOutcome) : bool :=
  ao_inserted o || negb (ao_unread_delta o =? 0) || ao_fields_changed o || ao_had_loser o.

Definition send_time_ms (now send_time : Z) : Z :=
  if send_time <=? 0 then now
  else if 10000000000000000 <? send_time then send_time / 1000000
  else if 100000000000000 <? send_time then send_time / 1000
  else if 100000000000 <? send_time then send_time
  else sat_i64 (send_time * 1000).

(** Which of the rows with the id and with the key stays. *)
Definition survivors (by_mid by_key : option StoredMsg) : option StoredMsg * option StoredMsg :=
  match by_mid, by_key with
  | Some mid, Some key_row =>
    if bool_decide (sm_key mid = sm_key key_row) then (Some mid, None)
    else if bool_decide (prefer_key (sm_key key_row) (sm_key mid) = sm_key key_row) then (Some key_row, Some mid)
    else (Some mid, Some key_row)
  | Some mid, None => (Some mid, None)
  | None, key_row => (key_row, None)
  end.

Definition incoming_msg `{SerdeJson} (now : Z) (t : IncomingTalk) : StoredMsg :=
  let dest := or_old (it_dest t) (it_sender t) in
  let sender := or_old (it_sender t) dest in
  let '(width, height) := parse_image_extra (it_extra t) in
  mkStoredMsg (incoming_message_key (it_message_id t) (it_send_time t) sender) dest
    (mkMsgRow sender (it_body t) (send_time_ms now (it_send_time t)) false false (classify_message (it_msg_type t) (it_body t))
       width height (it_message_id t) "" "sent" ""
       (if bool_decide (is_Some (String.index 0 "group" (it_command t))) then Group else User)).

Definition apply_talk `{SerdeJson} (account : string) (now : Z) (t : IncomingTalk) (policy : UnreadPolicy)
  : Dbm (option ApplyOutcome) :=
  let incoming := incoming_msg now t in
  let dest := sm_dest incoming in
  if bool_decide (dest = ""%string) || bool_decide (it_body t = ""%string) then mret None
  else
    d ← query (fun d => d);
    let by_mid := if it_message_id t =? 0 then None else find_by_mid account dest (it_message_id t) d in
    let '(survivor, loser) := survivors by_mid (find_by_key account dest (sm_key incoming) d) in
    let inserted := bool_decide (survivor = None) in
    let merged := match survivor with Some prev => merge_stored prev incoming | None => incoming end in
    let had_loser := match loser with Some l => negb (bool_decide (sm_key l = sm_key merged)) | None => false end in
    _ ← match loser with
        | Some l => if bool_decide (sm_key l = sm_key merged) then mret tt else delete_key account dest (sm_key l)
        | None => mret tt
        end;
    let unread_delta :=
      match policy with
      | IfInserted =>
        if inserted && negb (m_sys (sm_row merged)) && negb (bool_decide (m_sender (sm_row merged) = account)) then 1 else 0
      | Keep => 0
      end in
    let fields_changed := negb (bool_decide (survivor = Some merged)) in
    let outcome := mkApplyOutcome dest inserted unread_delta merged in
    if inserted || negb (unread_delta =? 0) || fields_changed || had_loser then
      _ ← put_msg account merged;
      mret (Some (outcome fields_changed had_loser))
    else mret (Some (outcome false false)).

(** ** watermarks.rs *)

Definition w_read (d : SdkDb) (k : string * string) : Z := match read_watermarks d !! k with Some w => w_last_read w | None => 0 end.
Definition r_read (d : SdkDb) (k : string * string) : Z :=
  match conversation_read_state d !! k with Some r => r_server_read_id r | None => 0 end.
Definition effective_read (account dest : string) (d : SdkDb) : Z := Z.max (w_read d (account, dest)) (r_read d (account, dest)).
Definition unread_of (account dest : string) (d : SdkDb) : Z :=
  match threads d !! (account, dest) with Some t => t_unread t | None => 0 end.
Definition peek (account dest : string) (d : SdkDb) : Z * Z := (unread_of account dest d, effective_read account dest d).

(** [IFNULL(MAX(message_id), 0)] over the messages of a thread. *)
Definition msg_tip (account dest : string) (d : SdkDb) : Z :=
  match m_message_id ∘ snd <$> List.filter (fun e => bool_decide (e.1.1 = (account, dest))) (map_to_list (messages d)) with
  | [] => 0
  | i :: l => foldl Z.max i l
  end.
Definition known_tip (account dest : string) (d : SdkDb) : Z :=
  Z.max (Z.max (match threads d !! (account, dest) with Some t => t_last_message_id t | None => 0 end) (msg_tip account dest d))
    (match conversation_read_state d !! (account, dest) with Some r => r_known_max r | None => 0 end).

Definition bump_known_max (account dest : string) (kind message_id : Z) : Dbm unit :=
  if message_id <=? 0 then mret tt
  else exec_sql (set_read_state (partial_alter (fun old =>
         Some match old with
              | None => mkReadStateRow kind 0 0 0 0 1 message_id
              | Some r =>
                mkReadStateRow kind (r_server_version r) (r_server_read_id r) (r_server_max r) (r_server_unread r)
                  (r_local_generation r + 1) (Z.max (r_known_max r) message_id)
              end) (account, dest))).

Definition advance_id (account dest : string) (kind message_id now : Z) : Dbm Z :=
  if message_id <=? 0 then query (effective_read account dest)
  else
    _ ← exec_sql (set_watermarks (partial_alter (fun old =>
          Some match old with
               | None => mkWatermarkRow message_id now kind 0 0 0 ""
               | Some w =>
                 mkWatermarkRow (Z.max (w_last_read w) message_id) now kind (w_confirmed w) (w_retry_count w)
                   (w_next_retry_at w) (w_last_error w)
               end) (account, dest)));
    _ ← bump_known_max account dest kind message_id;
    query (effective_read account dest).

Definition queue_sync (account dest : string) (kind message_id now : Z) : Dbm unit :=
  if message_id <=? 0 then mret tt
  else exec_sql (set_watermarks (partial_alter (fun old =>
         Some match old with
              | None => mkWatermarkRow message_id now kind 0 0 now ""
              | Some w =>
                mkWatermarkRow (Z.max (w_last_read w) message_id) now kind (w_confirmed w) (w_retry_count w)
                  (if (w_confirmed w <? w_last_read w) && (0 <? w_next_retry_at w) then Z.min (w_next_retry_at w) now else now)
                  (w_last_error w)
              end) (account, dest))).

Definition set_unread (account dest : string) (unread : Z) : Dbm unit :=
  exec_sql (set_threads (alter (fun t =>
    mkThreadRow (t_kind t) (t_title t) (t_last_body t) (t_last_kind t) (t_last_sys t) (t_last_at t) (Z.max 0 unread)
      (t_avatar t) (t_last_message_id t)) (account, dest))).

(** What the server says of a conversation, merged into what is stored of it. *)
Definition merge_read_state (s : ClientReadState) (incoming_version : Z) (old : option ReadStateRow) : ReadStateRow :=
  let known := Z.max (cs_max_message_id s) (cs_last_read_message_id s) in
  match old with
  | None =>
    mkReadStateRow (cs_kind s) incoming_version (cs_last_read_message_id s) (cs_max_message_id s) (cs_unread s) 1 known
  | Some r =>
    let newer := negb (incoming_version =? 0) && (r_server_version r <=? incoming_version) in
    mkReadStateRow (cs_kind s) (if newer then incoming_version else r_server_version r)
      (Z.max (r_server_read_id r) (cs_last_read_message_id s)) (Z.max (r_server_max r) (cs_max_message_id s))
      (if newer then cs_unread s else r_server_unread r) (r_local_generation r) (Z.max (r_known_max r) known)
  end.
Definition merge_watermark (s : ClientReadState) (old : option WatermarkRow) : WatermarkRow :=
  match old with
  | None => mkWatermarkRow (cs_last_read_message_id s) 0 (cs_kind s) 0 0 0 ""
  | Some w =>
    mkWatermarkRow (Z.max (w_last_read w) (cs_last_read_message_id s)) (w_last_read_at w) (cs_kind s) (w_confirmed w)
      (w_retry_count w) (w_next_retry_at w) (w_last_error w)
  end.

Definition apply_server_state (account dest0 : string) (s : ClientReadState) (from_own_ack : bool) : Dbm unit :=
  let dest := or_old dest0 (cs_dest s) in
  if bool_decide (dest = ""%string) then mret tt
  else
    local_read ← query (effective_read account dest);
    stored_version ← query (fun d => match conversation_read_state d !! (account, dest) with Some r => r_server_version r | None => 0 end);
    let incoming_version := Z.min i64_max (cs_version s) in
    let version_ok := (incoming_version =? 0) || (stored_version <=? incoming_version) in
    _ ← exec_sql (set_read_state (partial_alter (fun old => Some (merge_read_state s incoming_version old)) (account, dest)));
    _ ← (if 0 <? cs_last_read_message_id s
         then exec_sql (set_watermarks (partial_alter (fun old => Some (merge_watermark s old)) (account, dest)))
         else mret tt);
    effective ← query (effective_read account dest);
    tip ← query (known_tip account dest);
    if (tip <=? effective) && (0 <? tip) then set_unread account dest 0
    else if version_ok && from_own_ack && (local_read <=? cs_last_read_message_id s)
    then set_unread account dest (Z.max 0 (cs_unread s))
    else if version_ok && (local_read <=? cs_last_read_message_id s) && (tip <=? effective) then set_unread account dest 0
    else mret tt.

Definition confirm (account dest : string) (confirmed_id : Z) (server : option ClientReadState) : Dbm unit :=
  if confirmed_id <=? 0 then mret tt
  else
    _ ← exec_sql (set_watermarks (alter (fun w =>
          mkWatermarkRow (w_last_read w) (w_last_read_at w) (w_kind w) (Z.max (w_confirmed w) confirmed_id) 0 0 "") (account, dest)));
    match server with Some s => apply_server_state account dest s true | None => mret tt end.

Definition mark_due_failed (account dest : string) (now : Z) (error : string) : Dbm unit :=
  retry ← query (fun d => match read_watermarks d !! (account, dest) with Some w => w_retry_count w | None => 0 end);
  let delay := clamp 1000 60000 (sat_i64 (1000 * 2 ^ clamp 0 6 retry)) in
  let jitter := Z.abs now mod 250 in
  exec_sql (set_watermarks (alter (fun w =>
    mkWatermarkRow (w_last_read w) (w_last_read_at w) (w_kind w) (w_confirmed w) (w_retry_count w + 1)
      (sat_i64 (sat_i64 (now + delay) + jitter)) error) (account, dest))).

Record DueRead := mkDueRead { dr_dest : string; dr_kind : Z; dr_message_id : Z }.
Definition read_due (account : string) (now : Z) (e : (string * string) * WatermarkRow) : bool :=
  bool_decide (e.1.1 = account) && (w_confirmed e.2 <? w_last_read e.2) && (0 <? w_last_read e.2)
  && ((w_next_retry_at e.2 =? 0) || (w_next_retry_at e.2 <=? now)).
(** The order of rows read at one time is the database's. *)
Definition due (account : string) (now : Z) (d : SdkDb) : list DueRead :=
  (fun e => mkDueRead e.1.2 (w_kind e.2) (w_last_read e.2)) <$>
    take 20 (sort_by (fun x y => w_last_read_at x.2 <=? w_last_read_at y.2)
               (List.filter (read_due account now) (map_to_list (read_watermarks d)))).

Definition advance (account dest : string) (message_id now : Z) : Dbm unit :=
  if message_id <=? 0 then mret tt
  else
    kind ← query (fun d => match threads d !! (account, dest) with Some t => match t_kind t with Group => 1 | User => 0 end | None => 0 end);
    watermark ← advance_id account dest kind message_id now;
    _ ← queue_sync account dest kind watermark now;
    tip ← query (known_tip account dest);
    if tip <=? watermark then set_unread account dest 0 else mret tt.

(** ** The inbox: threads.rs *)

Definition merged_unread (prev : option ThreadRow) (item : ClientInboxItem) (local_read : Z) : Z :=
  let effective := Z.max local_read (ci_last_read_message_id item) in
  let tip := Z.max (Z.max (ci_max_message_id item) (ci_last_message_id item))
               (match prev with Some t => t_last_message_id t | None => 0 end) in
  if (0 <? effective) && (0 <? tip) && (tip <=? effective) then 0
  else if (ci_last_read_message_id item <? local_read) && match prev with Some t => t_unread t =? 0 | None => false end then 0
  else ci_unread item.

Definition persist_inbox_item `{SerdeJson} (account : string) (now : Z) (item : ClientInboxItem) : Dbm ThreadRow :=
  prev ← query (fun d => threads d !! (account, ci_dest item));
  let incoming_at := send_time_ms now (ci_last_send_time item) in
  local_read ← query (effective_read account (ci_dest item));
  let keep {A} (f : ThreadRow -> A) (z : A) := match prev with Some t => f t | None => z end in
  let no_body := bool_decide (ci_last_body item = ""%string) in
  let thread :=
    mkThreadRow (ThreadKind_from_wire (ci_kind item))
      (if bool_decide (ci_title item = ""%string) then or_old (keep t_title "") (ci_dest item) else ci_title item)
      (if no_body then keep t_last_body "" else ci_last_body item)
      (if no_body then keep t_last_kind MText else classify_message MESSAGE_TYPE_TEXT (ci_last_body item))
      (if no_body then keep t_last_sys false else false)
      (if ci_last_send_time item =? 0 then keep t_last_at 0 else incoming_at)
      (merged_unread prev item local_read)
      (or_old (ci_avatar item) (keep t_avatar ""))
      (Z.max (ci_last_message_id item) (keep t_last_message_id 0)) in
  _ ← upsert_full account (ci_dest item) thread;
  mret thread.
