(* ===== verification/SdkWrites.v ===== *)
(** The writes of the client library: the transactions and the write worker of
    crates/kim-sdk/src/store/mod.rs and the log of committed changes (changes.rs).

    One worker executes the writes one after the other.  A write carries the epoch of
    the session it belongs to and is refused when a later session has begun.  A
    transaction either commits all its statements or none: [outage] is what the
    database answers apart from the statements' own failures (busy, full, broken). *)

From stdpp Require Import gmap.
From S2P Require Import Prelude Prog Wire Pkt Msgs TcpCodec ClientWire SdkDb.
Open Scope Z_scope.
Open Scope kim_scope.

(** ** changes.rs *)

Inductive ChangedQuery : Type := Timeline (dest : string) | Inbox | Contacts.
#[export] Instance ChangedQuery_eq_dec : EqDecision ChangedQuery.
Proof. solve_decision. Defined.
#[export] Instance ChangedQuery_countable : Countable ChangedQuery.
Proof.
  refine (inj_countable' (fun q => match q with Timeline d => inl d | Inbox => inr true | Contacts => inr false end)
            (fun s => match s with inl d => Timeline d | inr true => Inbox | inr false => Contacts end) _).
  by intros [].
Defined.

Record CommitEffect := mkCommitEffect { ce_queries : gset ChangedQuery; ce_clear_contacts_error : bool }.
Definition effect_empty : CommitEffect := mkCommitEffect ∅ false.
Definition effect_timeline (dest : string) : CommitEffect := mkCommitEffect {[Timeline dest]} false.
Definition effect_inbox : CommitEffect := mkCommitEffect {[Inbox]} false.
Definition effect_contacts : CommitEffect := mkCommitEffect {[Contacts]} false.
Definition effect_merge (a b : CommitEffect) : CommitEffect :=
  mkCommitEffect (ce_queries a ∪ ce_queries b) (ce_clear_contacts_error a || ce_clear_contacts_error b).
Definition effect_is_empty (e : CommitEffect) : bool := bool_decide (ce_queries e = ∅).
Definition timeline_and_inbox (dest : string) : CommitEffect := effect_merge (effect_timeline dest) effect_inbox.

Record CommitNotice := mkCommitNotice {
  cn_account : string; cn_epoch : Z; cn_sequence : Z; cn_queries : gset ChangedQuery; cn_clear_contacts_error : bool
}.
Record ChangeLog := mkChangeLog { cl_inner : option CommitNotice; cl_sequence : Z }.
Definition ChangeLog_new : ChangeLog := mkChangeLog None 0.
Definition record (account : string) (epoch : Z) (e : CommitEffect) (c : ChangeLog) : Z * ChangeLog :=
  if effect_is_empty e then (cl_sequence c, c)
  else
    let seq := cl_sequence c + 1 in
    let fresh := mkCommitNotice account epoch seq (ce_queries e) (ce_clear_contacts_error e) in
    let notice :=
      match cl_inner c with
      | Some n =>
        if (cn_epoch n =? epoch) && bool_decide (cn_account n = account)
        then mkCommitNotice (cn_account n) (cn_epoch n) seq (cn_queries n ∪ ce_queries e)
               (cn_clear_contacts_error n || ce_clear_contacts_error e)
        else fresh
      | None => fresh
      end in
    (seq, mkChangeLog (Some notice) seq).
Definition take_pending (c : ChangeLog) : option CommitNotice * ChangeLog := (cl_inner c, mkChangeLog None (cl_sequence c)).

(** ** Writes *)

Record SendMessageCommand := mkSendMessageCommand {
  sc_dest : string; sc_kind : ThreadKind; sc_payload : OutgoingContent; sc_client_id : option string; sc_batch_id : option string
}.
Record CommandReceipt := mkCommandReceipt {
  rc_request_id : string; rc_client_id : string; rc_dest : string; rc_accepted_at : Z; rc_send_status : SendStatus
}.

(** The writes about messages, threads and read marks.  The others (contacts,
    settings, agents, media) touch other tables. *)
Inductive WriteOp : Type -> Type :=
| Enqueue (account : string) (cmd : SendMessageCommand) : WriteOp CommandReceipt
| EnqueueBotReply (account dest body : string) (in_reply_to : Z) (client_id : string) : WriteOp CommandReceipt
| PersistTalks (account : string) (talks : list IncomingTalk) (policy : UnreadPolicy) : WriteOp unit
| PersistInbox (account : string) (items : list ClientInboxItem) : WriteOp (list ThreadRow)
| Cancel (account client_id : string) : WriteOp unit
| DeleteThread (account dest : string) : WriteOp unit
| MarkSent (account client_id : string) (message_id : Z) : WriteOp unit
| MarkFailed (account client_id : string) : WriteOp unit
| MarkRetry (account client_id : string) (attempt next_attempt_at : Z) : WriteOp unit
| Requeue (account client_id : string) : WriteOp unit
| MarkRead (account dest : string) (message_id : Z) : WriteOp unit
| MarkThreadRead (account dest : string) (kind : Z) : WriteOp unit
| SetVisibility (account : string) (generation : Z) (foreground : bool) (dest : option string) (kind : Z) : WriteOp unit
| ConfirmRead (account dest : string) (confirmed_id : Z) (server : option ClientReadState) : WriteOp unit
| ApplyReadState (account : string) (s : ClientReadState) : WriteOp unit
| DueNow (account : string) : WriteOp unit.

Definition op_account {T} (op : WriteOp T) : string :=
  match op with
  | Enqueue a _ | EnqueueBotReply a _ _ _ _ | PersistTalks a _ _ | PersistInbox a _ | Cancel a _ | DeleteThread a _
  | MarkSent a _ _ | MarkFailed a _ | MarkRetry a _ _ _ | Requeue a _ | MarkRead a _ _ | MarkThreadRead a _ _
  | SetVisibility a _ _ _ _ | ConfirmRead a _ _ _ | ApplyReadState a _ | DueNow a => a
  end.

Record ActiveVisibility := mkActiveVisibility {
  av_epoch : Z; av_generation : Z; av_foreground : bool; av_dest : option string; av_kind : Z
}.
Definition ActiveVisibility_default : ActiveVisibility := mkActiveVisibility 0 0 false None 0.
Definition active_dest (v : ActiveVisibility) (current_epoch : Z) : option string :=
  if (av_epoch v =? current_epoch) && av_foreground v then av_dest v else None.

(** ** Transactions *)

Section writes.
Context `{SerdeJson}.
(** The clock in milliseconds, and the two identifiers drawn for a new message. *)
Context (now : Z) (new_client_id new_request_id : string).

Definition effect_of_dest (f : string -> CommitEffect) (dest : option string) : CommitEffect :=
  match dest with Some d => f d | None => effect_empty end.

(** The columns of the outbox a payload fills: body, local path, mime, width, height, size. *)
Definition payload_columns (c : OutgoingContent) : string * string * string * Z * Z * Z :=
  match c with
  | OText body => (body, "", "", 0, 0, 0)
  | OImage path mime width height byte_size => (path, path, mime, width, height, byte_size)
  | OVideo path byte_size | OVoice path byte_size => (path, path, "", 0, 0, byte_size)
  end%string.

Definition persist_enqueue (account : string) (cmd : SendMessageCommand) : Dbm (CommandReceipt * CommitEffect) :=
  let dest := sc_dest cmd in
  if bool_decide (dest = ""%string) then fail (InvalidArgument "dest is required")
  else if bool_decide (dest = account) then fail CannotChatSelf
  else
    let client_id := match sc_client_id cmd with Some id => or_old id new_client_id | None => new_client_id end in
    let batch_id := default ""%string (sc_batch_id cmd) in
    let '(body, local_path, mime, width, height, byte_size) := payload_columns (sc_payload cmd) in
    let media := media_kind (sc_payload cmd) in
    _ ← insert_own account dest client_id account body now media width height batch_id Pending local_path (sc_kind cmd);
    _ ← outbox_insert (mkOutboxInsert account client_id dest (ThreadKind_as_wire (sc_kind cmd)) (payload_type (sc_payload cmd))
          body "" local_path mime width height byte_size batch_id Pending now);
    _ ← upsert_on_send account dest (sc_kind cmd) body now media false;
    _ ← bump_timeline_version account dest;
    _ ← prune account dest;
    mret (mkCommandReceipt new_request_id client_id dest now Pending, timeline_and_inbox dest).

Definition persist_enqueue_bot_reply (account dest body0 : string) (in_reply_to : Z) (client_id0 : string)
  : Dbm (CommandReceipt * CommitEffect) :=
  if bool_decide (dest = ""%string) then fail (InvalidArgument "dest is required")
  else if bool_decide (dest = account) then fail CannotChatSelf
  else
    let body := str_trim body0 in
    if bool_decide (body = ""%string) then fail (InvalidArgument "body is required")
    else
      let client_id := or_old client_id0 new_client_id in
      let extra := encode_bot_reply_extra in_reply_to in
      _ ← insert_own account dest client_id dest body now MText 0 0 "" Pending "" User;
      _ ← outbox_insert (mkOutboxInsert account client_id dest (ThreadKind_as_wire User) MESSAGE_TYPE_TEXT
            body extra "" "" 0 0 0 "" Pending now);
      _ ← upsert_on_send account dest User body now MText false;
      _ ← bump_timeline_version account dest;
      _ ← prune account dest;
      mret (mkCommandReceipt new_request_id client_id dest now Pending, timeline_and_inbox dest).

(** One message of [persist_talks_tx]; its thread, when the message changes it. *)
Definition persist_talk (account : string) (policy : UnreadPolicy) (active : option string) (t : IncomingTalk)
  : Dbm (option string) :=
  r ← apply_talk account now t policy;
  match r with
  | None => mret None
  | Some out =>
    let dest := ao_dest out in
    let mid := m_message_id (sm_row (ao_msg out)) in
    let kind := ThreadKind_as_wire (m_thread_kind (sm_row (ao_msg out))) in
    last_read ← query (effective_read account dest);
    let is_active := bool_decide (active = Some dest) in
    let unread_delta :=
      if is_active || ((ao_unread_delta out =? 1) && (0 <? mid) && (mid <=? last_read)) then 0 else ao_unread_delta out in
    let out := mkApplyOutcome dest (ao_inserted out) unread_delta (ao_msg out) (ao_fields_changed out) (ao_had_loser out) in
    _ ← (if 0 <? mid then bump_known_max account dest kind mid else mret tt);
    _ ← (if is_active && (0 <? mid) then
           watermark ← advance_id account dest kind mid now;
           _ ← queue_sync account dest kind watermark now;
           set_unread account dest 0
         else mret tt);
    if negb (needs_publish out) && negb is_active then mret None
    else
      let row := sm_row (ao_msg out) in
      _ ← apply_incoming account (mkIncomingApply dest (m_body row) (m_at row) unread_delta (m_thread_kind row) (m_kind row)
            (m_sys row) mid);
      mret (Some dest)
  end.
Fixpoint persist_each (account : string) (policy : UnreadPolicy) (active : option string) (talks : list IncomingTalk)
  : Dbm (list string) :=
  match talks with
  | [] => mret []
  | t :: talks =>
    d ← persist_talk account policy active t;
    dests ← persist_each account policy active talks;
    mret (match d with Some d => d :: dests | None => dests end)
  end.
Fixpoint refresh_threads (account : string) (dests : list string) (effect : CommitEffect) : Dbm CommitEffect :=
  match dests with
  | [] => mret effect
  | dest :: dests =>
    _ ← bump_timeline_version account dest;
    _ ← prune account dest;
    refresh_threads account dests (effect_merge effect (effect_timeline dest))
  end.
Definition persist_talks_tx (account : string) (talks : list IncomingTalk) (policy : UnreadPolicy) (active : option string)
  : Dbm (unit * CommitEffect) :=
  if bool_decide (talks = []) then mret (tt, effect_empty)
  else
    dests ← persist_each account policy active talks;
    effect ← refresh_threads account (unique (sort_by str_le dests)) effect_empty;
    mret (tt, if effect_is_empty effect then effect else effect_merge effect effect_inbox).

Fixpoint persist_inbox_tx (account : string) (items : list ClientInboxItem) : Dbm (list ThreadRow * CommitEffect) :=
  match items with
  | [] => mret ([], effect_inbox)
  | item :: items =>
    _ ← (if (0 <? ci_last_read_message_id item) || (0 <? ci_state_version item)
         then apply_server_state account (ci_dest item) (from_inbox_item item) false
         else mret tt);
    t ← persist_inbox_item account now item;
    r ← persist_inbox_tx account items;
    mret (t :: r.1, r.2)
  end.

Definition cancel_tx (account client_id : string) : Dbm (unit * CommitEffect) :=
  dest ← query (dest_for_client_id account client_id);
  _ ← outbox_cancel account client_id;
  mret (tt, effect_of_dest timeline_and_inbox dest).
Definition delete_thread_tx (account dest : string) : Dbm (unit * CommitEffect) :=
  _ ← outbox_delete_thread account dest;
  mret (tt, timeline_and_inbox dest).
Definition mark_sent_tx (account client_id : string) (message_id : Z) : Dbm (unit * CommitEffect) :=
  dest ← query (dest_for_client_id account client_id);
  _ ← outbox_mark_sent account client_id message_id now;
  mret (tt, effect_of_dest timeline_and_inbox dest).
Definition mark_failed_tx (account client_id : string) : Dbm (unit * CommitEffect) :=
  dest ← query (dest_for_client_id account client_id);
  _ ← outbox_mark_failed account client_id now;
  mret (tt, effect_of_dest effect_timeline dest).
Definition mark_retry_tx (account client_id : string) (attempt next_attempt_at : Z) : Dbm (unit * CommitEffect) :=
  dest ← query (dest_for_client_id account client_id);
  _ ← outbox_mark_retry account client_id attempt next_attempt_at now;
  mret (tt, effect_of_dest effect_timeline dest).
Definition requeue_tx (account client_id : string) : Dbm (unit * CommitEffect) :=
  dest ← query (dest_for_client_id account client_id);
  _ ← outbox_requeue account client_id now;
  mret (tt, effect_of_dest effect_timeline dest).
Definition due_now_tx (account : string) : Dbm (unit * CommitEffect) :=
  _ ← wake_pending account now;
  mret (tt, effect_empty).
Definition mark_read_tx (account dest : string) (message_id : Z) : Dbm (unit * CommitEffect) :=
  if message_id <=? 0 then mret (tt, effect_empty)
  else
    p ← query (peek account dest);
    if (p.1 =? 0) && (message_id <=? p.2) then mret (tt, effect_empty)
    else
      _ ← advance account dest message_id now;
      mret (tt, timeline_and_inbox dest).
Definition mark_thread_read_tx (account dest : string) (kind : Z) : Dbm (unit * CommitEffect) :=
  tip ← query (known_tip account dest);
  if tip <=? 0 then mret (tt, effect_empty)
  else
    watermark ← advance_id account dest kind tip now;
    _ ← queue_sync account dest kind watermark now;
    _ ← set_unread account dest 0;
    mret (tt, timeline_and_inbox dest).
Definition confirm_read_tx (account dest : string) (confirmed_id : Z) (server : option ClientReadState) : Dbm (unit * CommitEffect) :=
  _ ← confirm account dest confirmed_id server;
  mret (tt, timeline_and_inbox dest).
Definition apply_read_state_tx (account : string) (s : ClientReadState) : Dbm (unit * CommitEffect) :=
  if bool_decide (cs_dest s = ""%string) then mret (tt, effect_empty)
  else
    _ ← apply_server_state account (cs_dest s) s false;
    mret (tt, timeline_and_inbox (cs_dest s)).

(** ** The worker *)

Record StoreState := mkStoreState { st_db : SdkDb; st_visibility : ActiveVisibility; st_changes : ChangeLog }.

Definition commit {T} (outage : option SdkError) (m : Dbm T) (d : SdkDb) : result T SdkError * SdkDb :=
  match outage with
  | Some e => (Err e, d)
  | None => match m d with Ok (t, d') => (Ok t, d') | Err e => (Err e, d) end
  end.

(** What each write does in the epoch it belongs to. *)
Definition transaction {T} (op : WriteOp T) (active : option string) : Dbm (T * CommitEffect) :=
  match op with
  | Enqueue account cmd => persist_enqueue account cmd
  | EnqueueBotReply account dest body in_reply_to client_id => persist_enqueue_bot_reply account dest body in_reply_to client_id
  | PersistTalks account talks policy => persist_talks_tx account talks policy active
  | PersistInbox account items => persist_inbox_tx account items
  | Cancel account client_id => cancel_tx account client_id
  | DeleteThread account dest => delete_thread_tx account dest
  | MarkSent account client_id message_id => mark_sent_tx account client_id message_id
  | MarkFailed account client_id => mark_failed_tx account client_id
  | MarkRetry account client_id attempt next_attempt_at => mark_retry_tx account client_id attempt next_attempt_at
  | Requeue account client_id => requeue_tx account client_id
  | MarkRead account dest message_id => mark_read_tx account dest message_id
  | MarkThreadRead account dest kind => mark_thread_read_tx account dest kind
  | SetVisibility account _ _ _ kind =>
    match active with Some dest => mark_thread_read_tx account dest kind | None => mret (tt, effect_empty) end
  | ConfirmRead account dest confirmed_id server => confirm_read_tx account dest confirmed_id server
  | ApplyReadState account s => apply_read_state_tx account s
  | DueNow account => due_now_tx account
  end.

(** What the application shows, which a [SetVisibility] of a newer generation replaces. *)
Definition see {T} (op : WriteOp T) (op_epoch : Z) (v : ActiveVisibility) : option ActiveVisibility :=
  match op with
  | SetVisibility _ generation foreground dest kind =>
    if (generation <? av_generation v) && (av_epoch v =? op_epoch) then None
    else Some (mkActiveVisibility op_epoch generation foreground dest kind)
  | _ => Some v
  end.
(** A [SetVisibility] that is older does nothing. *)
Definition nothing {T} (op : WriteOp T) : option T := match op with SetVisibility _ _ _ _ _ => Some tt | _ => None end.

Definition record_result {T} (account : string) (epoch : Z) (r : result (T * CommitEffect) SdkError) (c : ChangeLog)
  : result (T * Z) SdkError * ChangeLog :=
  match r with
  | Err e => (Err e, c)
  | Ok (v, effect) =>
    if effect_is_empty effect then (Ok (v, 0), c)
    else let '(seq, c) := record account epoch effect c in (Ok (v, seq), c)
  end.

(** One round of [write_worker]: [current] is the epoch it loads. *)
Definition write_step {T} (op_epoch current : Z) (outage : option SdkError) (op : WriteOp T) (s : StoreState)
  : result (T * Z) SdkError * StoreState :=
  if negb (op_epoch =? current) then (Err (StaleEpoch op_epoch current), s)
  else
    match see op op_epoch (st_visibility s), nothing op with
    | None, Some v => (Ok (v, 0), s)
    | seen, _ =>
      let visibility := default (st_visibility s) seen in
      let '(r, db) := commit outage (transaction op (active_dest visibility current)) (st_db s) in
      let '(r, changes) := record_result (op_account op) op_epoch r (st_changes s) in
      (r, mkStoreState db visibility changes)
    end.
End writes.
