(* ===== verification/SdkDbSpec.v ===== *)
(** The database of the client library over its writes: message ids stay unique in a
    thread, and what happens to a message that arrives before its own
    acknowledgement; read marks only grow, an owed report stays owed until it is
    confirmed, and reading a message is recorded. *)

From stdpp Require Import gmap.
From S2P Require Import Prelude Prog Wire Pkt Msgs TcpCodec ClientWire SdkDb SdkWrites.
Open Scope Z_scope.
Open Scope kim_scope.

(** ** Relations every statement keeps *)

Section keeps.
Context (R : SdkDb -> SdkDb -> Prop) (Rrefl : forall d, R d d) (Rtrans : forall d1 d2 d3, R d1 d2 -> R d2 d3 -> R d1 d3).

(** When [m] succeeds, it leaves a database related to the one before. *)
Definition keeps {A} (m : Dbm A) : Prop := forall d a d', m d = Ok (a, d') -> R d d'.

Lemma keeps_ret {A} (a : A) : keeps (mret a).
Proof. intros d a' d' [= _ <-]. apply Rrefl. Qed.
Lemma keeps_fail {A} e : keeps (fail (A := A) e).
Proof. done. Qed.
Lemma keeps_query {A} (f : SdkDb -> A) : keeps (query f).
Proof. intros d a' d' [= _ <-]. apply Rrefl. Qed.
Lemma keeps_exec f : (forall d, R d (f d)) -> keeps (exec_sql f).
Proof. by intros Hf d a d' [= _ <-]. Qed.
Lemma sql_keeps_bind {A B} (m : Dbm A) (f : A -> Dbm B) : keeps m -> (forall a, keeps (f a)) -> keeps (m ≫= f).
Proof.
  intros Hm Hf d b d'. unfold mbind, Dbm_bind. destruct (m d) as [[a d1]|e] eqn:E; [|done].
  intros Hb. eapply Rtrans; [by eapply Hm|by eapply Hf].
Qed.
Lemma keeps_query_bind {A B} (q : SdkDb -> A) (f : A -> Dbm B) :
  (forall d b d', f (q d) d = Ok (b, d') -> R d d') -> keeps (query q ≫= f).
Proof. intros Hf d b d' He. by eapply Hf. Qed.
End keeps.

Lemma commit_keeps (R : SdkDb -> SdkDb -> Prop) {T} outage (m : Dbm T) d : (forall d, R d d) -> keeps R m -> R d (commit outage m d).2.
Proof.
  intros Hr Hk. unfold commit. destruct outage; [apply Hr|]. destruct (m d) as [[t d']|e] eqn:E; [by eapply Hk|apply Hr].
Qed.

(** What a write does to the database is what its transaction does, or nothing. *)
Lemma write_step_keeps `{SerdeJson} (R : SdkDb -> SdkDb -> Prop) now id1 id2 {T} op_epoch current outage (op : WriteOp T) s :
  (forall d, R d d) -> (forall active, keeps R (transaction now id1 id2 op active)) ->
  R (st_db s) (st_db (write_step now id1 id2 op_epoch current outage op s).2).
Proof.
  intros Hr Hk. unfold write_step. destruct (negb _); [apply Hr|].
  destruct (see op op_epoch (st_visibility s)) as [v|]; [|destruct (nothing op); [apply Hr|]]; cbn [default from_option].
  all: match goal with |- context [commit ?o ?m ?d] => pose proof (commit_keeps R o m d Hr (Hk _)) as Hc; destruct (commit o m d) as [r db] end.
  all: destruct (record_result _ _ _ _) as [r' c]; exact Hc.
Qed.

(** ** Message ids are unique in a thread *)

Definition mids_unique (ms : gmap (string * string * string) MsgRow) : Prop :=
  forall account dest k1 k2 m1 m2,
    ms !! (account, dest, k1) = Some m1 -> ms !! (account, dest, k2) = Some m2 ->
    m_message_id m1 = m_message_id m2 -> m_message_id m1 <> 0 -> k1 = k2.
Definition unique_kept (d d' : SdkDb) : Prop := mids_unique (messages d) -> mids_unique (messages d').

Lemma mid_taken_spec account dest key mid ms : mid_taken account dest key mid ms = false -> mid <> 0 ->
  forall k m, k <> key -> ms !! (account, dest, k) = Some m -> m_message_id m <> mid.
Proof.
  unfold mid_taken. intros Ht Hm k m Hk Hl E. destruct (Z.eqb_spec mid 0); [done|]. cbn [negb andb] in Ht.
  assert (Hx : existsb (fun e => bool_decide (e.1.1 = (account, dest)) && negb (bool_decide (e.1.2 = key)) && (m_message_id e.2 =? mid)) (map_to_list ms) = true); [|congruence].
  apply existsb_exists. exists ((account, dest, k), m). split; [by apply list_elem_of_In, elem_of_map_to_list|]. cbn.
  rewrite bool_decide_eq_true_2, bool_decide_eq_false_2 by done. cbn. by apply Z.eqb_eq.
Qed.

(** Replacing a row under its key. *)
Lemma mids_unique_insert account dest key row ms : mids_unique ms -> mid_taken account dest key (m_message_id row) ms = false ->
  mids_unique (<[(account, dest, key) := row]> ms).
Proof.
  intros Hu Ht a d k1 k2 m1 m2. rewrite !lookup_insert_Some.
  intros [[E1 <-]|[N1 H1]] [[E2 <-]|[N2 H2]] Hm Hz; simplify_eq; [done|..|by eapply Hu].
  - exfalso. refine (mid_taken_spec _ _ _ _ _ Ht Hz k2 m2 _ H2 _); [congruence|done].
  - exfalso. refine (mid_taken_spec _ _ _ _ _ Ht _ k1 m1 _ H1 _); [congruence|congruence|done].
Qed.

(** No row gets an id it had not. *)
Definition ids_from (ms ms' : gmap (string * string * string) MsgRow) : Prop :=
  forall i m', ms' !! i = Some m' -> m_message_id m' = 0 \/ exists m, ms !! i = Some m /\ m_message_id m = m_message_id m'.
Lemma mids_unique_from ms ms' : ids_from ms ms' -> mids_unique ms -> mids_unique ms'.
Proof.
  intros Hf Hu a d k1 k2 m1 m2 H1 H2 E Hz.
  destruct (Hf _ _ H1) as [?|(n1 & Hn1 & E1)]; [done|]. destruct (Hf _ _ H2) as [?|(n2 & Hn2 & E2)]; [congruence|].
  eapply (Hu a d k1 k2 n1 n2); congruence.
Qed.

Lemma unique_same d d' : messages d' = messages d -> unique_kept d d'.
Proof. intros E. unfold unique_kept. by rewrite E. Qed.
Lemma unique_from d d' : ids_from (messages d) (messages d') -> unique_kept d d'.
Proof. intros Hf. exact (mids_unique_from _ _ Hf). Qed.
Lemma unique_refl d : unique_kept d d.
Proof. by intros ?. Qed.
Lemma unique_trans d1 d2 d3 : unique_kept d1 d2 -> unique_kept d2 d3 -> unique_kept d1 d3.
Proof. unfold unique_kept. auto. Qed.

Notation ukeeps := (keeps unique_kept).
Ltac ubind := apply sql_keeps_bind; [exact unique_trans| |intros ?].
Ltac usame := first [apply keeps_exec; intros ?; by apply unique_same | apply keeps_query, unique_refl | apply keeps_ret, unique_refl | apply keeps_fail].

Lemma filter_ids_from (P : (string * string * string) * MsgRow -> Prop) `{!forall x, Decision (P x)} ms : ids_from ms (filter P ms).
Proof. intros i m' [Hl _]%map_lookup_filter_Some. right. eauto. Qed.
Lemma update_ids_from account key status failed ms : ids_from ms (update_messages account key (set_sending status failed 0) ms).
Proof.
  intros i m'. unfold update_messages. rewrite map_lookup_imap. destruct (ms !! i) as [m|]; [|done].
  intros [= <-]. right. exists m. split; [done|]. by destruct (of_key account key i).
Qed.

Lemma insert_own_unique account dest key sender body at_ kind w h batch status local tk :
  ukeeps (insert_own account dest key sender body at_ kind w h batch status local tk).
Proof.
  apply keeps_exec. intros d. apply unique_from. intros i m'. cbn.
  destruct (decide (i = (account, dest, key))) as [->|Hi].
  - rewrite lookup_partial_alter_eq. destruct (messages d !! _) as [m|]; intros [= <-]; [right; by exists m|by left].
  - rewrite lookup_partial_alter_ne by done. intros Hl. right. eauto.
Qed.
Lemma prune_unique account dest : ukeeps (prune account dest).
Proof. apply keeps_exec. intros d. apply unique_from, filter_ids_from. Qed.
Lemma delete_key_unique account dest key : ukeeps (delete_key account dest key).
Proof. apply keeps_exec. intros d. apply unique_from. intros i m'. cbn. intros [_ Hl]%lookup_delete_Some. right. eauto. Qed.
Lemma put_msg_unique account m : ukeeps (put_msg account m).
Proof.
  intros d [] d'. unfold put_msg, query, mbind, Dbm_bind. destruct (mid_taken _ _ _ _ _) eqn:E; [done|].
  intros [= <-] Hu. cbn. by apply mids_unique_insert.
Qed.
Lemma requeue_unique account id now : ukeeps (outbox_requeue account id now).
Proof.
  unfold outbox_requeue. apply keeps_query_bind. intros d0. 
  intros [] d' He. destruct (outbox d0 !! _) as [o|]; [|done]. destruct (bool_decide _); [|done].
  injection He as <-. apply unique_from. apply update_ids_from.
Qed.
Lemma mark_failed_unique account id now : ukeeps (outbox_mark_failed account id now).
Proof. ubind; [usame|]. apply keeps_exec. intros d. apply unique_from, update_ids_from. Qed.
Lemma cancel_unique account id : ukeeps (outbox_cancel account id).
Proof. ubind; [usame|]. apply keeps_exec. intros d. apply unique_from, filter_ids_from. Qed.
Lemma delete_thread_unique account dest : ukeeps (outbox_delete_thread account dest).
Proof.
  ubind; [usame|]. ubind; [apply keeps_exec; intros d; apply unique_from, filter_ids_from|].
  ubind; [usame|]. ubind; [usame|]. usame.
Qed.

Lemma mark_sent_unique account id mid now : ukeeps (outbox_mark_sent account id mid now).
Proof.
  intros d [] d' He Hu. unfold outbox_mark_sent, query, update_outbox, exec_sql, mbind, Dbm_bind in He. cbn in He.
  destruct (existsb _ _) eqn:E; [done|]. injection He as <-. cbn.
  intros a ds k1 k2 m1 m2. unfold update_messages. rewrite !map_lookup_imap.
  destruct (messages d !! (a, ds, k1)) as [n1|] eqn:L1; [|done]. destruct (messages d !! (a, ds, k2)) as [n2|] eqn:L2; [|done].
  cbn [option_bind mbind]. intros [= <-] [= <-].
  (* a row of the key whose id another row of the thread has *)
  assert (Hno : forall k n k' n', of_key account id (a, ds, k) = true -> messages d !! (a, ds, k) = Some n ->
      messages d !! (a, ds, k') = Some n' -> k' <> k -> mid <> 0 -> m_message_id n' <> mid).
  { intros k n k' n' Hk Hl Hl' Hne Hz. assert (Ek : a = account /\ k = id).
    { unfold of_key in Hk. cbn in Hk. apply andb_true_iff in Hk as [H1%bool_decide_eq_true H2%bool_decide_eq_true]. done. }
    destruct Ek as [-> ->]. refine (mid_taken_spec account ds id mid (messages d) _ Hz k' n' Hne Hl').
    destruct (mid_taken account ds id mid (messages d)) eqn:Et; [|done]. exfalso.
    assert (Hx : existsb (fun e => of_key account id e.1 && mid_taken account e.1.1.2 id mid (messages d)) (map_to_list (messages d)) = true); [|congruence].
    apply existsb_exists. exists ((account, ds, id), n). split; [by apply list_elem_of_In, elem_of_map_to_list|].
    cbn. by rewrite Hk, Et. }
  destruct (of_key account id (a, ds, k1)) eqn:K1, (of_key account id (a, ds, k2)) eqn:K2; cbn;
    destruct (Z.eqb_spec mid 0) as [->|Hz]; intros Em Hnz; try by eapply Hu.
  - unfold of_key in K1, K2. cbn in K1, K2. apply andb_true_iff in K1 as [_ K1%bool_decide_eq_true].
    apply andb_true_iff in K2 as [_ K2%bool_decide_eq_true]. congruence.
  - destruct (decide (k1 = k2)) as [|Hne]; [done|]. exfalso. by apply (Hno k1 n1 k2 n2 K1 L1 L2 (not_eq_sym Hne) Hz).
  - destruct (decide (k1 = k2)) as [|Hne]; [done|]. exfalso. by apply (Hno k2 n2 k1 n1 K2 L2 L1 Hne Hz).
Qed.

Ltac ugo := repeat first
  [ usame | apply insert_own_unique | apply prune_unique | apply delete_key_unique | apply put_msg_unique | apply requeue_unique
  | apply mark_failed_unique | apply cancel_unique | apply delete_thread_unique | apply mark_sent_unique
  | apply sql_keeps_bind; [exact unique_trans| |intros ?] | case_match ].

Lemma upsert_on_send_unique account dest kind body at_ media sys : ukeeps (upsert_on_send account dest kind body at_ media sys).
Proof. usame. Qed.
Lemma apply_incoming_unique account i : ukeeps (apply_incoming account i).
Proof. unfold apply_incoming, upsert_full. ugo. Qed.
Lemma bump_known_max_unique account dest kind mid : ukeeps (bump_known_max account dest kind mid).
Proof. unfold bump_known_max. ugo. Qed.
Lemma advance_id_unique account dest kind mid now : ukeeps (advance_id account dest kind mid now).
Proof. unfold advance_id, bump_known_max. ugo. Qed.
Lemma queue_sync_unique account dest kind mid now : ukeeps (queue_sync account dest kind mid now).
Proof. unfold queue_sync. ugo. Qed.
Lemma set_unread_unique account dest n : ukeeps (set_unread account dest n).
Proof. unfold set_unread. ugo. Qed.
Lemma apply_server_state_unique account dest s own : ukeeps (apply_server_state account dest s own).
Proof. unfold apply_server_state, set_unread. ugo. Qed.
Lemma apply_talk_unique `{SerdeJson} account now t policy : ukeeps (apply_talk account now t policy).
Proof. unfold apply_talk. ugo. Qed.
Lemma persist_talk_unique `{SerdeJson} now account policy active t : ukeeps (persist_talk now account policy active t).
Proof.
  unfold persist_talk. ubind; [apply apply_talk_unique|]. case_match; [|usame]. ubind; [usame|].
  ubind; [case_match; [apply bump_known_max_unique|usame]|].
  ubind; [case_match; [ubind; [apply advance_id_unique|]; ubind; [apply queue_sync_unique|apply set_unread_unique]|usame]|].
  case_match; [usame|]. ubind; [apply apply_incoming_unique|usame].
Qed.
Lemma persist_each_unique `{SerdeJson} now account policy active talks : ukeeps (persist_each now account policy active talks).
Proof. induction talks as [|t talks IH]; [usame|]. ubind; [apply persist_talk_unique|]. ubind; [exact IH|usame]. Qed.
Lemma refresh_threads_unique account dests effect : ukeeps (refresh_threads account dests effect).
Proof.
  revert effect. induction dests as [|d dests IH]; intros effect; [usame|].
  ubind; [usame|]. ubind; [apply prune_unique|apply IH].
Qed.
Lemma persist_inbox_unique `{SerdeJson} now account items : ukeeps (persist_inbox_tx now account items).
Proof.
  induction items as [|i items IH]; [usame|]. ubind; [case_match; [apply apply_server_state_unique|usame]|].
  ubind; [unfold persist_inbox_item, upsert_full; ugo|]. ubind; [exact IH|usame].
Qed.

Lemma transaction_unique `{SerdeJson} now id1 id2 {T} (op : WriteOp T) active : ukeeps (transaction now id1 id2 op active).
Proof.
  destruct op; cbn [transaction];
    unfold persist_enqueue, persist_enqueue_bot_reply, cancel_tx, delete_thread_tx, mark_sent_tx, mark_failed_tx, mark_retry_tx,
      requeue_tx, due_now_tx, mark_read_tx, mark_thread_read_tx, confirm_read_tx, apply_read_state_tx, advance, confirm,
      outbox_insert, upsert_on_send, bump_timeline_version, wake_pending, outbox_mark_retry, update_outbox; ugo;
    first [apply persist_inbox_unique | apply advance_id_unique | apply queue_sync_unique | apply set_unread_unique
          | apply apply_server_state_unique | idtac].
  unfold persist_talks_tx. case_match; [usame|]. ubind; [apply persist_each_unique|]. ubind; [apply refresh_threads_unique|usame].
Qed.

(** ** An incoming message is always stored *)

Lemma find_by_mid_some account dest mid d s : find_by_mid account dest mid d = Some s ->
  mid <> 0 /\ sm_dest s = dest /\ exists m, messages d !! (account, dest, sm_key s) = Some m /\ m_message_id m = mid /\ sm_row s = set_failed false m.
Proof.
  unfold find_by_mid. destruct (List.filter _ _) as [|e l] eqn:E; [done|]. intros [= <-].
  assert (Hin : In e (e :: l)) by (by left). rewrite <- E in Hin. apply filter_In in Hin as [Hin He].
  apply andb_true_iff in He as [He Hz%negb_true_iff%Z.eqb_neq]. apply andb_true_iff in He as [Hk%bool_decide_eq_true Hm%Z.eqb_eq].
  apply list_elem_of_In in Hin. destruct e as [[[a ds] k] m]. cbn in *. simplify_eq. apply elem_of_map_to_list in Hin.
  split_and!; [done..|]. eauto.
Qed.
Lemma find_by_mid_none account dest mid d : find_by_mid account dest mid d = None -> mid <> 0 ->
  forall k m, messages d !! (account, dest, k) = Some m -> m_message_id m <> mid.
Proof.
  unfold find_by_mid. destruct (List.filter _ _) as [|e l] eqn:E; [|done]. intros _ Hz k m Hl Hm.
  assert (Hin : In ((account, dest, k), m) []); [|done]. rewrite <- E. apply filter_In.
  split; [by apply list_elem_of_In, elem_of_map_to_list|]. cbn. rewrite bool_decide_eq_true_2 by done. cbn.
  apply andb_true_iff. split; [by apply Z.eqb_eq|]. apply negb_true_iff, Z.eqb_neq. congruence.
Qed.

Lemma mid_free account dest key mid ms :
  (mid <> 0 -> forall k m, k <> key -> ms !! (account, dest, k) = Some m -> m_message_id m <> mid) ->
  mid_taken account dest key mid ms = false.
Proof.
  intros Hf. unfold mid_taken. destruct (Z.eqb_spec mid 0) as [|Hz]; [done|]. cbn [negb andb].
  apply not_true_is_false. intros Hx. apply existsb_exists in Hx as ([[[a d] k] m] & Hin & He).
  apply list_elem_of_In, elem_of_map_to_list in Hin. cbn in He.
  apply andb_true_iff in He as [He Hm%Z.eqb_eq]. apply andb_true_iff in He as [Ha%bool_decide_eq_true Hk%negb_true_iff%bool_decide_eq_false].
  simplify_eq. by eapply Hf.
Qed.

Lemma set_messages_id d : set_messages (fun _ => messages d) d = d.
Proof. by destruct d. Qed.

Section talk.
Context `{SerdeJson} (account : string) (now : Z).

(** The row a message is merged into, and the row it replaces. *)
Lemma survivors_spec by_mid by_key s l : survivors by_mid by_key = (s, l) ->
  (s = by_mid /\ (l = None \/ l = by_key) /\ (by_mid = None -> by_key = None)) \/
  (s = by_key /\ (l = by_mid \/ l = None /\ by_mid = None)).
Proof.
  unfold survivors. destruct by_mid as [m|], by_key as [k|]; repeat case_bool_decide; intros [= <- <-]; naive_solver.
Qed.

Lemma put_msg_ok m d : (forall row, row = put_row (messages d !! (account, sm_dest m, sm_key m)) (sm_row m) ->
    mid_taken account (sm_dest m) (sm_key m) (m_message_id row) (messages d) = false) ->
  put_msg account m d =
    Ok (tt, set_messages (insert (account, sm_dest m, sm_key m) (put_row (messages d !! (account, sm_dest m, sm_key m)) (sm_row m))) d).
Proof. intros Hf. unfold put_msg, query, mbind, Dbm_bind. by rewrite Hf. Qed.

Lemma put_row_mid old m : m_message_id m <> 0 -> m_message_id (put_row old m) = m_message_id m.
Proof. intros Hz. destruct old; cbn; [|done]. by destruct (Z.eqb_spec (m_message_id m) 0). Qed.

Context (t : IncomingTalk) (d : SdkDb).
Let incoming := incoming_msg now t.
Let dest := sm_dest incoming.
Let mid := it_message_id t.
Let by_mid := if mid =? 0 then None else find_by_mid account dest mid d.
Let by_key := find_by_key account dest (sm_key incoming) d.
Definition without (l : option StoredMsg) : gmap (string * string * string) MsgRow :=
  match l with Some l => delete (account, dest, sm_key l) (messages d) | None => messages d end.
Definition merged_into (s : option StoredMsg) : StoredMsg :=
  match s with Some prev => merge_stored prev incoming | None => incoming end.

Lemma incoming_mid : m_message_id (sm_row incoming) = mid.
Proof. unfold incoming, incoming_msg. by destruct (parse_image_extra (it_extra t)). Qed.

(** What is found is a row of the thread. *)
Definition found (s : StoredMsg) : Prop :=
  sm_dest s = dest /\ exists m, messages d !! (account, dest, sm_key s) = Some m /\ sm_row s = set_failed false m.
Lemma by_mid_found s : by_mid = Some s -> found s /\ mid <> 0 /\ m_message_id (sm_row s) = mid.
Proof.
  unfold by_mid. destruct (_ =? _); [done|]. intros (Hz & Hd & m & Hl & Hm & Hr)%find_by_mid_some.
  split_and!; [split; [done|by exists m]|done|by rewrite Hr].
Qed.
Lemma by_key_found s : by_key = Some s -> found s /\ sm_key s = sm_key incoming.
Proof.
  unfold by_key, find_by_key. destruct (messages d !! _) as [m|] eqn:E; [|done]. intros [= <-]. split; [|done].
  split; [done|]. by exists m.
Qed.

Lemma merged_dest s : match s with Some p => found p | None => True end -> sm_dest (merged_into s) = dest.
Proof. destruct s as [p|]; [by intros [? _]|done]. Qed.
Lemma merged_mid s : mid <> 0 -> m_message_id (sm_row (merged_into s)) = mid.
Proof. intros Hz. destruct s as [p|]; cbn; rewrite ?incoming_mid; [unfold or_zero; by destruct (Z.eqb_spec mid 0)|done]. Qed.

Hypothesis Hu : mids_unique (messages d).

(** With an id: no row but the survivor and the loser has it. *)
Lemma mid_of_survivor s l k m : survivors by_mid by_key = (s, l) -> mid <> 0 ->
  without l !! (account, dest, k) = Some m -> k <> sm_key (merged_into s) -> m_message_id m <> mid.
Proof.
  intros Hs Hz Hl Hk Em.
  assert (Hl0 : messages d !! (account, dest, k) = Some m).
  { unfold without in Hl. destruct l; [|done]. by apply lookup_delete_Some in Hl as [_ ?]. }
  destruct by_mid as [s0|] eqn:Eb.
  - destruct (by_mid_found _ Eb) as ((Hd0 & m0 & Hm0 & Hr0) & _ & Hmid0).
    assert (Ek : k = sm_key s0). { eapply (Hu account dest k (sm_key s0) m m0); [done..| |congruence]. rewrite Hr0 in Hmid0. cbn in Hmid0. congruence. }
    apply survivors_spec in Hs as [(-> & _)|(-> & [->|[_ [=]]])]; [by apply Hk|].
    cbn in Hl. subst k. by rewrite lookup_delete_eq in Hl.
  - unfold by_mid in Eb. destruct (Z.eqb_spec mid 0); [done|]. by eapply (find_by_mid_none _ _ _ _ Eb Hz k m).
Qed.

Lemma put_free s l row : survivors by_mid by_key = (s, l) ->
  row = put_row (without l !! (account, dest, sm_key (merged_into s))) (sm_row (merged_into s)) ->
  mid_taken account dest (sm_key (merged_into s)) (m_message_id row) (without l) = false.
Proof.
  intros Hs ->. apply mid_free. intros Hz k m Hk Hl. destruct (decide (mid = 0)) as [Hm|Hm].
  - assert (Eb : by_mid = None) by (unfold by_mid; by rewrite Hm). rewrite Eb in Hs.
    assert (Hsl : s = by_key /\ l = None). { unfold survivors in Hs. destruct by_key; by injection Hs as <- <-. }
    destruct Hsl as [-> ->]. cbn [without] in *. intros E. apply Hk.
    destruct by_key as [p|] eqn:Ep; cbn [merged_into] in *.
    + destruct (by_key_found _ Ep) as ((_ & m0 & Hm0 & Hr0) & _). cbn [merge_stored sm_key sm_row] in *. rewrite Hm0 in *.
      cbn in Hz, E. rewrite incoming_mid, Hm, Hr0 in Hz, E. cbn in Hz, E.
      eapply (Hu account dest k (sm_key p) m m0); [done..| |]; destruct (Z.eqb_spec (m_message_id m0) 0); congruence.
    + unfold by_key, find_by_key in Ep. destruct (messages d !! (account, dest, sm_key incoming)); [done|].
      cbn in Hz. by rewrite incoming_mid, Hm in Hz.
  - rewrite put_row_mid by (by rewrite merged_mid). rewrite merged_mid by done. by eapply mid_of_survivor.
Qed.

Lemma loser_key s l l0 : survivors by_mid by_key = (s, l) -> l = Some l0 -> sm_key l0 <> sm_key (merged_into s) /\ s <> None.
Proof.
  unfold survivors. destruct by_mid as [m|], by_key as [k|]; repeat case_bool_decide; intros [= <- <-]; try done;
    intros [= <-]; cbn; (split; [congruence|done]).
Qed.

(** An unchanged survivor has the id. *)
Lemma survivor_row s l p : survivors by_mid by_key = (s, l) -> s = Some p -> found p.
Proof.
  intros Hs ->. apply survivors_spec in Hs as [(E & _)|(E & _)]; symmetry in E;
    [by apply by_mid_found in E as [? _]|by apply by_key_found in E as [? _]].
Qed.

Lemma apply_talk_stored policy : dest <> ""%string -> it_body t <> ""%string ->
  exists out d', apply_talk account now t policy d = Ok (Some out, d') /\ ao_dest out = dest /\
    (mid <> 0 -> exists m, messages d' !! (account, dest, sm_key (ao_msg out)) = Some m /\ m_message_id m = mid).
Proof.
  intros Hd Hb. unfold apply_talk. fold incoming. fold dest. rewrite !bool_decide_eq_false_2 by done. cbn [orb].
  unfold query at 1, mbind at 1, Dbm_bind at 1. fold mid. fold by_mid. fold by_key.
  destruct (survivors by_mid by_key) as [s l] eqn:Es. fold (merged_into s).
  pose proof (put_free s l _ Es eq_refl) as Hfree.
  assert (Hdel : (match l with
      | Some l0 => if bool_decide (sm_key l0 = sm_key (merged_into s)) then mret tt else delete_key account dest (sm_key l0)
      | None => mret tt end : Dbm unit) d = Ok (tt, set_messages (fun _ => without l) d)).
  { destruct l as [l0|]; [|unfold mret, Dbm_ret; cbn; by rewrite set_messages_id]. destruct (loser_key _ _ _ Es eq_refl) as [Hne _].
    by rewrite bool_decide_eq_false_2. }
  unfold mbind at 1, Dbm_bind at 1. rewrite Hdel.
  assert (Hmd : sm_dest (merged_into s) = dest).
  { apply merged_dest. destruct s as [p|]; [|done]. by eapply survivor_row. }
  destruct (_ || _ || _ || _) eqn:Ech.
  - unfold mbind, Dbm_bind. rewrite put_msg_ok by (intros row ->; rewrite Hmd; cbn [messages set_messages]; exact Hfree).
    eexists _, _. split_and!; [done..|]. intros Hz. cbn. rewrite Hmd, lookup_insert_eq. eexists. split; [done|].
    rewrite put_row_mid; by rewrite merged_mid.
  - eexists _, _. split_and!; [done..|]. intros Hz. cbn.
    apply orb_false_iff in Ech as [Ech Hl]. apply orb_false_iff in Ech as [_ Hf]. apply negb_false_iff, bool_decide_eq_true in Hf.
    destruct l as [l0|]; [destruct (loser_key _ _ _ Es eq_refl) as [Hne _]; by rewrite bool_decide_eq_false_2 in Hl|].
    destruct (survivor_row s None _ Es Hf) as (_ & m & Hm & Hr). exists m. split; [exact Hm|].
    assert (E : m_message_id (sm_row (merged_into s)) = mid) by (by apply merged_mid). by rewrite Hr in E.
Qed.
End talk.

(** ** Batches of messages *)

(** A statement that cannot fail. *)
Definition never {A} (m : Dbm A) : Prop := forall d, exists r, m d = Ok r.
Lemma never_bind {A B} (m : Dbm A) (f : A -> Dbm B) : never m -> (forall a, never (f a)) -> never (m ≫= f).
Proof. intros Hm Hf d. unfold mbind, Dbm_bind. destruct (Hm d) as [[a d'] ->]. apply Hf. Qed.
Ltac never_go := repeat first
  [ by intros d; eexists | apply never_bind; [|intros ?] | case_match ].

Lemma upkeep_never account dest kind mid now : never (bump_known_max account dest kind mid) /\ never (advance_id account dest kind mid now) /\
  never (queue_sync account dest kind mid now).
Proof. unfold advance_id, bump_known_max, queue_sync. split_and!; never_go. Qed.

Lemma apply_incoming_never account i : never (apply_incoming account i).
Proof.
  apply never_bind; [by intros ?; eexists|intros existing]. apply never_bind; [by intros ?; eexists|intros _]. by intros ?; eexists.
Qed.

Section batch.
Context `{SerdeJson} (now : Z) (account : string).

Lemma persist_talk_never policy active t d : mids_unique (messages d) -> exists r, persist_talk now account policy active t d = Ok r.
Proof.
  intros Hu. unfold persist_talk, mbind at 1, Dbm_bind at 1.
  assert (Ha : exists r, apply_talk account now t policy d = Ok r).
  { destruct (decide (sm_dest (incoming_msg now t) = ""%string)) as [E|E].
    { unfold apply_talk. rewrite bool_decide_eq_true_2 by done. by eexists. }
    destruct (decide (it_body t = ""%string)) as [E'|E'].
    { unfold apply_talk. rewrite (bool_decide_eq_true_2 (it_body t = _)), orb_true_r by done. by eexists. }
    destruct (apply_talk_stored account now t d Hu policy E E') as (out & d' & -> & _). by eexists. }
  destruct Ha as [[[out|] d'] ->]; [|by eexists].
  assert (Hn : forall m : Dbm (option string), never m -> exists r, m d' = Ok r) by (intros m Hm; apply Hm). apply Hn.
  apply never_bind; [by intros ?; eexists|intros last_read].
  apply never_bind; [case_match; [apply (upkeep_never _ _ _ _ 0)|by intros ?; eexists]|intros _].
  apply never_bind.
  { case_match; [|by intros ?; eexists]. apply never_bind; [apply upkeep_never|intros w].
    apply never_bind; [apply upkeep_never|intros _; by intros ?; eexists]. }
  intros _. case_match; [by intros ?; eexists|]. apply never_bind; [apply apply_incoming_never|intros _; by intros ?; eexists].
Qed.

Lemma persist_each_never policy active talks d : mids_unique (messages d) -> exists r, persist_each now account policy active talks d = Ok r.
Proof.
  revert d. induction talks as [|t talks IH]; intros d Hu; [by eexists|]. cbn [persist_each]. unfold mbind at 1, Dbm_bind at 1.
  destruct (persist_talk_never policy active t d Hu) as [[o d1] E]. rewrite E.
  assert (Hu1 : mids_unique (messages d1)) by (by eapply persist_talk_unique).
  unfold mbind, Dbm_bind. destruct (IH d1 Hu1) as [[l d2] ->]. by eexists.
Qed.
Lemma refresh_never dests effect : never (refresh_threads account dests effect).
Proof. revert effect. induction dests as [|x dests IH]; intros effect; [by intros ?; eexists|]. cbn [refresh_threads]. never_go. apply IH. Qed.

Lemma persist_talks_never policy active talks d : mids_unique (messages d) ->
  exists r, persist_talks_tx now account talks policy active d = Ok r.
Proof.
  intros Hu. unfold persist_talks_tx. case_bool_decide; [by eexists|]. unfold mbind at 1, Dbm_bind at 1.
  destruct (persist_each_never policy active talks d Hu) as [[l d1] ->].
  destruct (refresh_never (unique (sort_by str_le l)) effect_empty d1) as [[e d2] E]. unfold mbind, Dbm_bind. rewrite E. by eexists.
Qed.
End batch.

(** The stores that writes lead to, whatever their epochs and outages. *)
Inductive writes_reach `{SerdeJson} : StoreState -> Prop :=
| writes_start : writes_reach (mkStoreState empty_db ActiveVisibility_default ChangeLog_new)
| writes_step now id1 id2 {T} op_epoch current outage (op : WriteOp T) s :
  writes_reach s -> writes_reach (write_step now id1 id2 op_epoch current outage op s).2.

Lemma writes_unique `{SerdeJson} s : writes_reach s -> mids_unique (messages (st_db s)).
Proof.
  induction 1 as [|now id1 id2 T op_epoch current outage op s _ IH]; [by intros a d k1 k2 m1 m2|].
  refine (write_step_keeps unique_kept now id1 id2 op_epoch current outage op s unique_refl _ IH).
  intros active. apply transaction_unique.
Qed.

(** After any history of writes, a batch of messages from the service is stored unless the
    database itself is out of order or the session is over: no message of it runs into the
    unique index, whatever was sent or received before under its id or its key, and a
    message with an id is afterwards a row of its thread with that id. *)
Theorem talks_stored `{SerdeJson} now id1 id2 epoch account talks policy s : writes_reach s ->
  (exists seq, (write_step now id1 id2 epoch epoch None (PersistTalks account talks policy) s).1 = Ok (tt, seq)) /\
  forall t, sm_dest (incoming_msg now t) <> ""%string -> it_body t <> ""%string -> it_message_id t <> 0 ->
    exists out d' m, apply_talk account now t policy (st_db s) = Ok (Some out, d') /\
      messages d' !! (account, ao_dest out, sm_key (ao_msg out)) = Some m /\ m_message_id m = it_message_id t.
Proof.
  intros Hr. pose proof (writes_unique s Hr) as Hu. split.
  - unfold write_step. rewrite Z.eqb_refl. cbn [negb see default from_option id nothing transaction commit].
    destruct (persist_talks_never now account policy (active_dest (st_visibility s) epoch) talks (st_db s) Hu) as [[[[] e] d'] ->].
    cbn [op_account record_result]. destruct (effect_is_empty e); [by eexists|]. destruct (record _ _ _ _) as [seq c]. by eexists.
  - intros t Hd Hb Hz. destruct (apply_talk_stored account now t (st_db s) Hu policy Hd Hb) as (out & d' & Ha & Ho & Hm).
    destruct (Hm Hz) as (m & Hl & Hi). exists out, d', m. by rewrite Ho.
Qed.

(** ** A message that arrives before its own acknowledgement *)

(** When another row of the thread already has the id the service gave, marking the
    message as sent fails and changes nothing: the message stays in the outbox. *)
Lemma mark_sent_conflict `{SerdeJson} now id1 id2 epoch account id mid s dest m k m' :
  messages (st_db s) !! (account, dest, id) = Some m -> messages (st_db s) !! (account, dest, k) = Some m' ->
  k <> id -> m_message_id m' = mid -> mid <> 0 ->
  write_step now id1 id2 epoch epoch None (MarkSent account id mid) s = (Err sqlite_error, s).
Proof.
  intros Hm Hm' Hk Hi Hz. destruct s as [d v c]. cbn in Hm, Hm'.
  assert (Ht : mid_taken account dest id mid (messages d) = true).
  { destruct (mid_taken _ _ _ _ _) eqn:E; [done|]. by destruct (mid_taken_spec _ _ _ _ _ E Hz k m' Hk Hm'). }
  assert (He : existsb (fun e => of_key account id e.1 && mid_taken account e.1.1.2 id mid (messages d)) (map_to_list (messages d)) = true).
  { apply existsb_exists. exists ((account, dest, id), m). split; [by apply list_elem_of_In, elem_of_map_to_list|]. cbn.
    rewrite Ht. unfold of_key. cbn. by rewrite !bool_decide_eq_true_2. }
  unfold write_step. rewrite Z.eqb_refl. cbn [negb see default from_option Datatypes.id nothing transaction commit st_db st_visibility st_changes].
  unfold mark_sent_tx, outbox_mark_sent, query, update_outbox, exec_sql, mbind, Dbm_bind. cbn. by rewrite He.
Qed.

(** The message of [ann] reaches [bob], but its answer is lost; a page of the history
    brings it back before the next attempt.  From then on every attempt is answered
    with its id, and none can be recorded. *)
Definition sent_to_bob : StoreState :=
  let json : SerdeJson := fun _ => None in
  let s0 := mkStoreState empty_db ActiveVisibility_default ChangeLog_new in
  let s1 := (write_step 10 "c1" "r1" 1 1 None (Enqueue "ann" (mkSendMessageCommand "bob" User (OText "hi") None None)) s0).2 in
  (write_step 20 "c2" "r2" 1 1 None
     (PersistTalks "ann" [mkIncomingTalk "chat.user.talk" "bob" 7 "ann" 1 "hi" "" 0] Keep) s1).2.
Example recorded_never :
  let json : SerdeJson := fun _ => None in
  write_step 30 "c3" "r3" 1 1 None (MarkSent "ann" "c1" 7) sent_to_bob = (Err sqlite_error, sent_to_bob) /\
  (or_client_id <$> load_due "ann" 30 (st_db sent_to_bob)) = ["c1"]%string /\
  length (thread_rows "ann" "bob" (messages (st_db sent_to_bob))) = 2%nat.
Proof.
  split_and!; [|by vm_compute|by vm_compute].
  apply (mark_sent_conflict (H := fun _ => None) 30 "c3" "r3" 1 "ann" "c1" 7 sent_to_bob "bob"
    (mkMsgRow "ann" "hi" 10 false false MText 0 0 0 "" "sending" "" User) "m7"
    (mkMsgRow "ann" "hi" 20 false false MText 0 0 7 "" "sent" "" User)); by vm_compute.
Qed.

Lemma talks_stored_witness :
  let talk := mkIncomingTalk "chat.user.talk" "bob" 7 "bob" 1 "hi" "" 0 in
  let s0 := mkStoreState empty_db ActiveVisibility_default ChangeLog_new in
  (exists seq, (write_step (H := fun _ => None) 10 "" "" 1 1 None (PersistTalks "ann" [talk; talk] IfInserted) s0).1 = Ok (tt, seq)) /\
  exists out d' m, apply_talk (H := fun _ => None) "ann" 10 talk IfInserted (st_db s0) = Ok (Some out, d') /\
    messages d' !! ("ann"%string, ao_dest out, sm_key (ao_msg out)) = Some m /\ m_message_id m = 7.
Proof.
  intros talk s0. destruct (talks_stored (H := fun _ => None) 10 "" "" 1 "ann" [talk; talk] IfInserted s0 (@writes_start (fun _ => None))) as [H1 H2].
  split; [exact H1|]. apply (H2 talk); by vm_compute.
Defined.

(** The mark of a conversation that is reported to the service but not confirmed yet. *)
Definition owed (d : SdkDb) (k : string * string) (mark : Z) : Prop :=
  exists w, read_watermarks d !! k = Some w /\ w_confirmed w < w_last_read w /\ mark <= w_last_read w.

Section marks.
Context (grow owe : bool) (k : string * string).

Definition read_of (w : option WatermarkRow) : Z := match w with Some w => w_last_read w | None => 0 end.
Definition server_of (r : option ReadStateRow) : Z := match r with Some r => r_server_read_id r | None => 0 end.
(** What may become of the row of the conversation. *)
Definition watermark_ok (old new : option WatermarkRow) : Prop :=
  (grow = true -> read_of old <= read_of new) /\
  (owe = true -> forall w, old = Some w -> w_confirmed w < w_last_read w ->
    exists w', new = Some w' /\ w_confirmed w' = w_confirmed w /\ w_last_read w <= w_last_read w').
Definition server_ok (old new : option ReadStateRow) : Prop :=
  grow = true -> Z.max 0 (server_of old) <= Z.max 0 (server_of new).
Definition marks (d d' : SdkDb) : Prop :=
  watermark_ok (read_watermarks d !! k) (read_watermarks d' !! k) /\
  server_ok (conversation_read_state d !! k) (conversation_read_state d' !! k).

Lemma watermark_ok_refl w : watermark_ok w w.
Proof. split; [lia|]. intros _ x -> Hx. eauto with lia. Qed.
Lemma watermark_ok_trans a b c : watermark_ok a b -> watermark_ok b c -> watermark_ok a c.
Proof.
  intros [H1 H2] [H3 H4]. split; [intros Hg; specialize (H1 Hg); specialize (H3 Hg); lia|].
  intros Ho w Hw Hlt. destruct (H2 Ho w Hw Hlt) as (w1 & Hw1 & E1 & L1).
  destruct (H4 Ho w1 Hw1 ltac:(lia)) as (w2 & Hw2 & E2 & L2). exists w2. split_and!; [done|congruence|lia].
Qed.
Lemma marks_refl d : marks d d.
Proof. split; [apply watermark_ok_refl|]. by intros _. Qed.
Lemma marks_trans d1 d2 d3 : marks d1 d2 -> marks d2 d3 -> marks d1 d3.
Proof.
  intros [H1 H2] [H3 H4]. split; [by eapply watermark_ok_trans|]. intros Hg. specialize (H2 Hg). specialize (H4 Hg). lia.
Qed.
Lemma marks_same d d' : read_watermarks d' = read_watermarks d -> conversation_read_state d' = conversation_read_state d -> marks d d'.
Proof. intros E1 E2. split; [rewrite E1; apply watermark_ok_refl|rewrite E2; intros _; lia]. Qed.

Notation mkeeps := (keeps marks).
Ltac msame := first [apply keeps_exec; intros ?; by apply marks_same | apply keeps_query, marks_refl | apply keeps_ret, marks_refl | apply keeps_fail].

Lemma marks_watermarks f i : (i = k -> forall old, watermark_ok old (f old)) ->
  mkeeps (exec_sql (set_watermarks (partial_alter f i))).
Proof.
  intros Hf. apply keeps_exec. intros d. split; [|by intros _]. cbn. destruct (decide (i = k)) as [->|Hi].
  - rewrite lookup_partial_alter_eq. by apply Hf.
  - rewrite lookup_partial_alter_ne by done. apply watermark_ok_refl.
Qed.
Lemma marks_read_state f i : (forall old, server_ok old (f old)) -> mkeeps (exec_sql (set_read_state (partial_alter f i))).
Proof.
  intros Hf. apply keeps_exec. intros d. split; [apply watermark_ok_refl|]. cbn. destruct (decide (i = k)) as [->|Hi].
  - rewrite lookup_partial_alter_eq. apply Hf.
  - rewrite lookup_partial_alter_ne by done. by intros _.
Qed.

Lemma bump_known_max_marks account dest kind mid : mkeeps (bump_known_max account dest kind mid).
Proof.
  unfold bump_known_max. case_match; [msame|]. apply marks_read_state. intros [r|] _; cbn; lia.
Qed.
Lemma raised_ok mid at_ kind next err old : 0 < mid ->
  watermark_ok old (Some match old with
                         | None => mkWatermarkRow mid at_ kind 0 0 next err
                         | Some w => mkWatermarkRow (Z.max (w_last_read w) mid) at_ kind (w_confirmed w) (w_retry_count w) (w_next_retry_at w) (w_last_error w)
                         end).
Proof.
  intros Hm. split; [destruct old; cbn; lia|]. intros _ w -> Hlt. eexists. split_and!; [done|done|cbn; lia].
Qed.
Lemma advance_id_marks account dest kind mid now : mkeeps (advance_id account dest kind mid now).
Proof.
  unfold advance_id. destruct (Z.leb_spec mid 0); [msame|]. apply sql_keeps_bind; [exact marks_trans| |intros _].
  { apply marks_watermarks. intros _ old. by apply raised_ok. }
  apply sql_keeps_bind; [exact marks_trans|apply bump_known_max_marks|intros _; msame].
Qed.
Lemma queue_sync_marks account dest kind mid now : mkeeps (queue_sync account dest kind mid now).
Proof.
  unfold queue_sync. destruct (Z.leb_spec mid 0); [msame|]. apply marks_watermarks. intros _ old.
  split; [destruct old; cbn; lia|]. intros _ w -> Hlt. eexists. split_and!; [done|done|cbn; lia].
Qed.
Lemma apply_server_state_marks account dest s own : mkeeps (apply_server_state account dest s own).
Proof.
  unfold apply_server_state. case_bool_decide; [msame|].
  do 2 (apply sql_keeps_bind; [exact marks_trans|msame|intros ?]).
  apply sql_keeps_bind; [exact marks_trans| |intros _].
  { apply marks_read_state. intros [r|] _; cbn; lia. }
  apply sql_keeps_bind; [exact marks_trans| |intros _].
  { destruct (Z.ltb_spec 0 (cs_last_read_message_id s)); [|msame]. apply marks_watermarks. intros _ old.
    split; [destruct old; cbn; lia|]. intros _ w -> Hlt. eexists. split_and!; [done|done|cbn; lia]. }
  do 2 (apply sql_keeps_bind; [exact marks_trans|msame|intros ?]). unfold set_unread. repeat case_match; msame.
Qed.

Lemma confirm_marks account dest id server : (owe = true -> (account, dest) <> k) -> mkeeps (confirm account dest id server).
Proof.
  intros Ho. unfold confirm. case_match; [msame|]. apply sql_keeps_bind; [exact marks_trans| |intros _].
  { apply marks_watermarks. intros Hk old. split; [destruct old; cbn; lia|]. intros Ho'. by destruct (Ho Ho'). }
  case_match; [apply apply_server_state_marks|msame].
Qed.
Lemma delete_thread_marks account dest : (grow = true -> (account, dest) <> k) -> mkeeps (outbox_delete_thread account dest).
Proof.
  intros Hg. unfold outbox_delete_thread. do 3 (apply sql_keeps_bind; [exact marks_trans|msame|intros _]).
  apply sql_keeps_bind; [exact marks_trans| |intros _; msame]. apply keeps_exec. intros d. split; [|by intros _]. cbn.
  destruct (read_watermarks d !! k) as [w|] eqn:E.
  2: { rewrite map_lookup_filter, E. cbn. apply watermark_ok_refl. }
  destruct (decide ((account, dest) = k /\ w_last_read w <= w_confirmed w)) as [[Hk Hw]|Hn].
  - split; [intros Hg'; by destruct (Hg Hg')|]. intros _ w0 [= <-]. lia.
  - rewrite (proj2 (map_lookup_filter_Some _ _ k w)); [apply watermark_ok_refl|]. split; [done|]. cbn. naive_solver.
Qed.

Ltac mcase := match goal with |- keeps _ (match ?x with _ => _ end) => destruct x end.
Ltac mbind := apply sql_keeps_bind; [exact marks_trans| |intros ?].
Lemma apply_talk_marks `{SerdeJson} account now t policy : mkeeps (apply_talk account now t policy).
Proof.
  unfold apply_talk. mcase; [msame|]. mbind; [msame|]. mcase. mbind; [repeat mcase; msame|].
  mcase; [|msame]. mbind; [|msame]. unfold put_msg. mbind; [msame|]. mcase; msame.
Qed.
Lemma upkeep_marks account dest kind mid now :
  mkeeps (mbind (M := Dbm) (fun watermark => mbind (M := Dbm) (fun _ => set_unread account dest 0) (queue_sync account dest kind watermark now))
    (advance_id account dest kind mid now)).
Proof. mbind; [apply advance_id_marks|]. mbind; [apply queue_sync_marks|msame]. Qed.
Lemma persist_talk_marks `{SerdeJson} now account policy active t : mkeeps (persist_talk now account policy active t).
Proof.
  unfold persist_talk. mbind; [apply apply_talk_marks|]. mcase; [|msame]. mbind; [msame|].
  mbind; [mcase; [apply bump_known_max_marks|msame]|]. mbind; [mcase; [apply upkeep_marks|msame]|].
  mcase; [msame|]. mbind; [|msame]. unfold apply_incoming. mbind; [msame|]. mbind; [unfold upsert_full|]; msame.
Qed.
Lemma persist_each_marks `{SerdeJson} now account policy active talks : mkeeps (persist_each now account policy active talks).
Proof. induction talks as [|t talks IH]; [msame|]. mbind; [apply persist_talk_marks|]. mbind; [exact IH|msame]. Qed.
Lemma refresh_threads_marks account dests effect : mkeeps (refresh_threads account dests effect).
Proof. revert effect. induction dests as [|d dests IH]; intros effect; [msame|]. mbind; [msame|]. mbind; [msame|apply IH]. Qed.
Lemma persist_inbox_marks `{SerdeJson} now account items : mkeeps (persist_inbox_tx now account items).
Proof.
  induction items as [|i items IH]; [msame|]. mbind; [mcase; [apply apply_server_state_marks|msame]|].
  mbind; [|mbind; [exact IH|msame]]. unfold persist_inbox_item, upsert_full. do 2 (mbind; [msame|]). mbind; msame.
Qed.
Lemma advance_marks account dest mid now : mkeeps (advance account dest mid now).
Proof.
  unfold advance. mcase; [msame|]. mbind; [msame|]. mbind; [apply advance_id_marks|]. mbind; [apply queue_sync_marks|].
  mbind; [msame|]. unfold set_unread. mcase; msame.
Qed.
Lemma mark_thread_read_marks account dest kind now : mkeeps (mark_thread_read_tx now account dest kind).
Proof.
  unfold mark_thread_read_tx. mbind; [msame|]. mcase; [msame|]. mbind; [apply advance_id_marks|].
  mbind; [apply queue_sync_marks|]. mbind; msame.
Qed.

Definition deletes {T} (op : WriteOp T) : Prop := match op with DeleteThread account dest => (account, dest) = k | _ => False end.
Definition confirms {T} (op : WriteOp T) : Prop := match op with ConfirmRead account dest _ _ => (account, dest) = k | _ => False end.

Lemma transaction_marks `{SerdeJson} now id1 id2 {T} (op : WriteOp T) active :
  (grow = true -> ~ deletes op) -> (owe = true -> ~ confirms op) -> mkeeps (transaction now id1 id2 op active).
Proof.
  intros Hd Hc. destruct op; cbn [transaction].
  - unfold persist_enqueue. repeat (mcase; [msame|]). repeat mcase. repeat (mbind; [msame|]). msame.
  - unfold persist_enqueue_bot_reply. repeat (mcase; [msame|]). repeat (mbind; [msame|]). msame.
  - unfold persist_talks_tx. mcase; [msame|]. mbind; [apply persist_each_marks|]. mbind; [apply refresh_threads_marks|msame].
  - apply persist_inbox_marks.
  - unfold cancel_tx. mbind; [msame|]. mbind; [|msame]. unfold outbox_cancel. mbind; msame.
  - unfold delete_thread_tx. mbind; [by apply delete_thread_marks|msame].
  - unfold mark_sent_tx. mbind; [msame|]. mbind; [|msame]. unfold outbox_mark_sent. mbind; [msame|]. mbind; [msame|]. mcase; msame.
  - unfold mark_failed_tx. mbind; [msame|]. mbind; [|msame]. unfold outbox_mark_failed. mbind; msame.
  - unfold mark_retry_tx. mbind; [msame|]. mbind; msame.
  - unfold requeue_tx. mbind; [msame|]. mbind; [|msame]. unfold outbox_requeue. mbind; [msame|]. repeat (mcase; [|msame]). mbind; msame.
  - unfold mark_read_tx. mcase; [msame|]. mbind; [msame|]. mcase; [msame|]. mbind; [apply advance_marks|msame].
  - apply mark_thread_read_marks.
  - destruct active; [apply mark_thread_read_marks|msame].
  - unfold confirm_read_tx. mbind; [by apply confirm_marks|msame].
  - unfold apply_read_state_tx. mcase; [msame|]. mbind; [apply apply_server_state_marks|msame].
  - unfold due_now_tx. mbind; msame.
Qed.
End marks.

Lemma bind_inv {A B} (m : Dbm A) (f : A -> Dbm B) d b d' : (m ≫= f) d = Ok (b, d') -> exists a d1, m d = Ok (a, d1) /\ f a d1 = Ok (b, d').
Proof. unfold mbind, Dbm_bind. destruct (m d) as [[a d1]|e]; [|done]. eauto. Qed.

(** After [advance] the watermark has reached the message. *)
Lemma advance_reaches account dest mid now d d' : 0 < mid -> advance account dest mid now d = Ok (tt, d') -> mid <= w_read d' (account, dest).
Proof.
  intros Hm He. unfold advance in He. destruct (Z.leb_spec mid 0); [lia|].
  apply bind_inv in He as (kind & d1 & Ek & He). apply bind_inv in He as (mark & d2 & Ea & He).
  assert (H2 : mid <= w_read d2 (account, dest)).
  { unfold advance_id in Ea. destruct (Z.leb_spec mid 0); [lia|]. apply bind_inv in Ea as ([] & d3 & E3 & Ea).
    assert (H3 : mid <= w_read d3 (account, dest)).
    { injection E3 as <-. unfold w_read. cbn. rewrite lookup_partial_alter_eq. destruct (read_watermarks d1 !! _); cbn; lia. }
    assert (Hk : marks true false (account, dest) d3 d2).
    { refine (sql_keeps_bind _ (marks_trans true false _) _ _ (bump_known_max_marks true false _ _ _ _ _) _ _ _ _ Ea).
      intros _. apply keeps_query, marks_refl. }
    destruct Hk as [[Hg _] _]. specialize (Hg eq_refl). unfold w_read in *. unfold read_of in Hg. lia. }
  assert (Hk : marks true false (account, dest) d2 d').
  { refine (sql_keeps_bind _ (marks_trans true false _) _ _ (queue_sync_marks true false _ _ _ _ _ _) _ _ _ _ He).
    intros _. apply sql_keeps_bind; [exact (marks_trans true false _)|apply keeps_query, marks_refl|].
    intros tip. destruct (_ <=? _); [|apply keeps_ret, marks_refl]. apply keeps_exec. intros x. by apply marks_same. }
  destruct Hk as [[Hg _] _]. specialize (Hg eq_refl). unfold w_read in *. unfold read_of in Hg. lia.
Qed.

(** Whatever the application and the service write about conversations, in whatever epochs
    and with whatever outages of the database: the read mark of a conversation never goes
    back, unless its thread is deleted; a mark that is still to be reported to the service stays to be
    reported, at least that far, until the service confirms the conversation, even when the
    thread is deleted; and marking a message as read is recorded when it is answered. *)
Theorem read_marks_kept `{SerdeJson} now id1 id2 op_epoch current outage s k :
  (forall T (op : WriteOp T), let s' := (write_step now id1 id2 op_epoch current outage op s).2 in
     (~ deletes k op ->
        Z.max 0 (effective_read k.1 k.2 (st_db s)) <= Z.max 0 (effective_read k.1 k.2 (st_db s'))) /\
     (~ confirms k op -> forall mark, owed (st_db s) k mark -> owed (st_db s') k mark)) /\
  (forall mid seq s', 0 < mid ->
     write_step now id1 id2 op_epoch current outage (MarkRead k.1 k.2 mid) s = (Ok (tt, seq), s') ->
     mid <= effective_read k.1 k.2 (st_db s')).
Proof.
  split.
  - intros T op s'. split.
    + intros Hd. assert (Hm : marks true false k (st_db s) (st_db s')).
      { apply write_step_keeps; [apply marks_refl|]. intros active. by apply transaction_marks. }
      destruct Hm as [[Hw _] Hr]. specialize (Hw eq_refl). specialize (Hr eq_refl).
      unfold effective_read, w_read, r_read. rewrite <- surjective_pairing. unfold read_of in Hw. unfold server_of in Hr. lia.
    + intros Hc mark (w & Hw & Hlt & Hle). assert (Hm : marks false true k (st_db s) (st_db s')).
      { apply write_step_keeps; [apply marks_refl|]. intros active. by apply transaction_marks. }
      destruct Hm as [[_ Ho] _]. destruct (Ho eq_refl w Hw Hlt) as (w' & Hw' & E & L). exists w'. split_and!; [done|lia|lia].
  - intros mid seq s' Hm He. unfold write_step in He. destruct (negb _); [done|].
    cbn [see nothing default from_option Datatypes.id transaction] in He. unfold commit in He. destruct outage as [e|]; [done|].
    destruct (mark_read_tx now k.1 k.2 mid (st_db s)) as [[[[] ef] d']|e] eqn:Et; [|done].
    assert (Hread : mid <= effective_read k.1 k.2 d').
    { unfold mark_read_tx in Et. destruct (Z.leb_spec mid 0); [lia|]. apply bind_inv in Et as (p & d1 & Ep & Et). injection Ep as <- <-.
      destruct ((_ =? 0) && _) eqn:Eb.
      - injection Et as <- <-. apply andb_true_iff in Eb as [_ Eb%Z.leb_le]. exact Eb.
      - apply bind_inv in Et as ([] & d2 & Ea & Et). injection Et as <- <-.
        pose proof (advance_reaches _ _ _ _ _ _ Hm Ea). unfold effective_read. lia. }
    cbn [op_account record_result] in He. destruct (effect_is_empty ef); [by injection He as _ <-|].
    destruct (record _ _ _ _) as [sq c]. by injection He as _ <-.
Qed.

(** The mark of [ann]'s conversation with [bob]: read, deleted, still to be reported. *)
Definition read_and_deleted : StoreState :=
  let json : SerdeJson := fun _ => None in
  let s0 := mkStoreState empty_db ActiveVisibility_default ChangeLog_new in
  let s1 := (write_step 10 "" "" 1 1 None (PersistTalks "ann" [mkIncomingTalk "chat.user.talk" "bob" 7 "bob" 1 "hi" "" 0] IfInserted) s0).2 in
  (write_step 20 "" "" 1 1 None (MarkRead "ann" "bob" 7) s1).2.
Lemma read_marks_kept_witness :
  owed (st_db (write_step (H := fun _ => None) 30 "" "" 1 1 None (DeleteThread "ann" "bob") read_and_deleted).2) ("ann", "bob")%string 7 /\
  7 <= effective_read "ann" "bob" (st_db read_and_deleted).
Proof.
  split.
  - destruct (read_marks_kept (H := fun _ => None) 30 "" "" 1 1 None read_and_deleted ("ann", "bob")%string) as [Hk _].
    apply (Hk unit (DeleteThread "ann" "bob")); [by intros []|]. eexists. split; [by vm_compute|]. by split.
  - destruct (read_marks_kept (H := fun _ => None) 20 "" "" 1 1 None
      (write_step (H := fun _ => None) 10 "" "" 1 1 None (PersistTalks "ann" [mkIncomingTalk "chat.user.talk" "bob" 7 "bob" 1 "hi" "" 0] IfInserted)
        (mkStoreState empty_db ActiveVisibility_default ChangeLog_new)).2 ("ann", "bob")%string) as [_ Hr].
    apply (Hr 7 2 read_and_deleted); [lia|]. by vm_compute.
Defined.
