(* ===== verification/Outbox.v ===== *)
(** Sessions and background workers of the client library: session.rs, outbox/pump.rs,
    read_sync.rs and the sessions of lib.rs in crates/kim-sdk/src.

    Starting a session, the worker that sends what waits in the outbox and the worker
    that reports read marks are programs over [SdkEff]: single accesses to what they
    share (epoch, cancellation tokens, session, protocol client), reads and writes of
    the store, requests to the service, and waiting.  [Shared] is what they share;
    [access] says what an access does to it. *)

From stdpp Require Import gmap.
From S2P Require Import Prelude Prog Wire Pkt Msgs TcpCodec ClientWire SdkDb SdkWrites.
Open Scope Z_scope.
Open Scope kim_scope.

Record StartSession := mkStartSession { ss_url : string; ss_token : string; ss_user_agent : string; ss_account : string }.
#[export] Instance StartSession_eq_dec : EqDecision StartSession.
Proof. solve_decision. Defined.

Record MediaRef := mkMediaRef { mr_path : string; mr_mime : string; mr_width : Z; mr_height : Z; mr_byte_size : Z }.

(** Why a worker goes on: its session ended, it was kicked, or nobody can kick it. *)
Inductive Woken : Type := WokenCancelled | WokenKick | WokenClosed.

(** Steps of a session's start and stop that other parts see. *)
Inductive Side : Type :=
| StopSupervisor | ClearFault | DropKick | RefreshSubscribers (same_account : bool) (epoch : Z)
| SpawnBridge | SpawnReadSync | EnsureRunning | KeepSupervisor | ObserveToken | RefreshSnapshot.

(** A token is a number; a client is named by the session it was made for. *)
Inductive SdkEff : Type -> Type :=
| XStore : SdkEff (result unit SdkError)
| XEpoch : SdkEff Z
| XBump : SdkEff Z
| XSwapCancel : SdkEff nat
| XCancelToken : SdkEff nat
| XCancel (token : nat) : SdkEff unit
| XCancelled (token : nat) : SdkEff bool
| XChild (parent : nat) : SdkEff nat
| XSetRun (run : nat) : SdkEff unit
| XRun : SdkEff nat
| XSession : SdkEff (option StartSession)
| XSetSession (s : option StartSession) : SdkEff unit
| XProtocol : SdkEff (option StartSession)
| XSetProtocol (client : StartSession) : SdkEff unit
| XSpawnOutbox (parent : nat) : SdkEff unit
| XSide (s : Side) : SdkEff unit
| XWait (parent : nat) : SdkEff Woken
| XTryRecv : SdkEff bool
| XNow : SdkEff Z
| XLoadDue (account : string) (now : Z) : SdkEff (result (list OutboxRow) SdkError)
| XAlive (account client_id : string) : SdkEff (result bool SdkError)
| XProfile (account dest : string) : SdkEff (result (option string) SdkError)
| XWrite (epoch : Z) (op : WriteOp unit) : SdkEff (result (unit * Z) SdkError)
| XRekey (to : string) : SdkEff (result unit SdkError)
| XUploader : SdkEff (result unit SdkError)
| XUpload (token : string) (media : MediaRef) : SdkEff (result string SdkError)
| XSend (client : StartSession) (dest : string) (kind : Z) (body extra : string) (payload_type : Z) (client_id : string)
  : SdkEff (result (Z * Z) SdkError)
| XBotReply (client : StartSession) (dest body : string) (in_reply_to : Z) (client_id : string)
  : SdkEff (result (Z * Z) SdkError)
| XTurn (dest body : string) (message_id epoch : Z) : SdkEff (result unit SdkError)
| XDueReads (account : string) (now : Z) : SdkEff (result (list DueRead) SdkError)
| XReadState (client : StartSession) (dest : string) (kind message_id : Z) : SdkEff (result (option ClientReadState) SdkError)
| XReadFailed (account dest : string) (err : SdkError) : SdkEff unit
| XAfter (sequence : Z) : SdkEff unit.
Abbreviation SdkProg := (Prog SdkEff).

(** [?] in a program. *)
Definition tryp {A B} (p : SdkProg (result A SdkError)) (f : A -> SdkProg (result B SdkError)) : SdkProg (result B SdkError) :=
  r ← p; match r with Ok a => f a | Err e => Ret (Err e) end.
Notation "'try' x ← p ; k" := (tryp p (fun x => k)) (at level 20, x pattern, p at level 100, k at level 200) : kim_scope.

(** ** session.rs *)

Definition current_epoch : SdkProg Z := call XEpoch.
Definition bump_epoch : SdkProg Z :=
  old ← call XSwapCancel;
  _ ← call (XCancel old);
  call XBump.
Definition session_snapshot : SdkProg (result StartSession SdkError) :=
  s ← call XSession;
  Ret (match s with Some s => Ok s | None => Err (InvalidArgument "session not started") end).
Definition protocol : SdkProg (result StartSession SdkError) :=
  p ← call XProtocol;
  Ret (match p with Some p => Ok p | None => Err SdkNotConnected end).

(** ** outbox/pump.rs *)

Definition retry_delay (attempt : Z) : Z := sat_i64 (1000 * 2 ^ Z.min attempt 6).

Section pump.
Context `{SerdeJson}.

Definition upload_first (body : string) (row : OutboxRow) : bool :=
  (or_payload_type row =? MESSAGE_TYPE_IMAGE) && negb (String.prefix "http" body).
Definition upload_image (session : StartSession) (body : string) (row : OutboxRow) : SdkProg (result string SdkError) :=
  try _ ← call XUploader;
  call (XUpload (ss_token session) (mkMediaRef body (or_mime row) (or_width row) (or_height row) (or_byte_size row))).

Definition mark_retried (account : string) (epoch : Z) (row : OutboxRow) : SdkProg (result unit SdkError) :=
  let attempt := sat_i32 (or_attempt row + 1) in
  let delay := retry_delay attempt in
  now ← call XNow;
  try _ ← call (XWrite epoch (MarkRetry account (or_client_id row) attempt (sat_i64 (now + delay))));
  Ret (Ok tt).
Definition mark_gone (account : string) (epoch : Z) (row : OutboxRow) : SdkProg (result unit SdkError) :=
  try _ ← call (XWrite epoch (MarkFailed account (or_client_id row)));
  Ret (Ok tt).
(** The number of messages sent: one, or none when the pass was cancelled meanwhile. *)
Definition mark_done (cancel : nat) (account : string) (epoch : Z) (row : OutboxRow) (message_id : Z)
    (after : SdkProg (result unit SdkError)) : SdkProg (result Z SdkError) :=
  cancelled ← call (XCancelled cancel);
  if cancelled : bool then Ret (Ok 0)
  else
    try _ ← call (XWrite epoch (MarkSent account (or_client_id row) message_id));
    try _ ← after;
    Ret (Ok 1).

Definition send_bot_reply (cancel : nat) (session : StartSession) (epoch : Z) (client : StartSession) (row : OutboxRow) (in_reply_to : Z)
  : SdkProg (result Z SdkError) :=
  let account := ss_account session in
  r ← call (XBotReply client (or_dest row) (or_body row) in_reply_to (or_client_id row));
  match r with
  | Ok (message_id, _) =>
    if negb (message_id =? 0) then mark_done cancel account epoch row message_id (Ret (Ok tt))
    else try _ ← mark_gone account epoch row; Ret (Ok 0)
  | Err err =>
    if retryable_send err then try _ ← mark_retried account epoch row; Ret (Ok 0)
    else try _ ← mark_gone account epoch row; Ret (Ok 0)
  end.

(** A text to an agent of the account starts a turn of it. *)
Definition start_turn (account : string) (epoch : Z) (row : OutboxRow) (body : string) (message_id : Z) : SdkProg (result unit SdkError) :=
  if or_payload_type row =? MESSAGE_TYPE_TEXT then
    try profile ← call (XProfile account (or_dest row));
    match profile with
    | Some _ => _ ← call (XTurn (or_dest row) body message_id epoch); Ret (Ok tt)
    | None => Ret (Ok tt)
    end
  else Ret (Ok tt).
Definition send_talk (cancel : nat) (session : StartSession) (epoch : Z) (client : StartSession) (row : OutboxRow) (body extra : string)
  : SdkProg (result Z SdkError) :=
  let account := ss_account session in
  r ← call (XSend client (or_dest row) (or_kind row) body extra (or_payload_type row) (or_client_id row));
  match r with
  | Ok (message_id, _) => mark_done cancel account epoch row message_id (start_turn account epoch row body message_id)
  | Err err =>
    if retryable_send err then try _ ← mark_retried account epoch row; Ret (Ok 0)
    else try _ ← mark_gone account epoch row; Ret (Ok 0)
  end.

(** One row of the pass, after the checks at its beginning. *)
Definition send_row (cancel : nat) (session : StartSession) (epoch : Z) (client : StartSession) (row : OutboxRow)
  : SdkProg (result Z SdkError) :=
  try is_alive ← call (XAlive (ss_account session) (or_client_id row));
  if negb is_alive then Ret (Ok 0)
  else
    let body0 := if bool_decide (or_local_path row = ""%string) then or_body row else or_local_path row in
    try content ← (if upload_first body0 row
                   then try url ← upload_image session body0 row; Ret (Ok (url, image_extra (or_width row) (or_height row)))
                   else Ret (Ok (body0, or_extra row)));
    cancelled ← call (XCancelled cancel);
    if cancelled : bool then Ret (Ok 0)
    else
      try is_alive ← call (XAlive (ss_account session) (or_client_id row));
      if negb is_alive then Ret (Ok 0)
      else
        match bot_reply_in_reply_to (or_extra row) with
        | Some in_reply_to => send_bot_reply cancel session epoch client row in_reply_to
        | None => send_talk cancel session epoch client row content.1 content.2
        end.

Fixpoint send_due (cancel : nat) (session : StartSession) (epoch : Z) (client : StartSession) (due : list OutboxRow) (sent : Z)
  : SdkProg (result Z SdkError) :=
  match due with
  | [] => Ret (Ok sent)
  | row :: due =>
    cancelled ← call (XCancelled cancel);
    if cancelled : bool then Ret (Ok sent)
    else
      now_epoch ← current_epoch;
      if negb (now_epoch =? epoch) then
        actual ← current_epoch;
        Ret (Err (StaleEpoch epoch actual))
      else
        try n ← send_row cancel session epoch client row;
        send_due cancel session epoch client due (sent + n)
  end.

Definition run_once (cancel : nat) : SdkProg (result Z SdkError) :=
  try _ ← call XStore;
  try session ← session_snapshot;
  epoch ← current_epoch;
  now ← call XNow;
  try due ← call (XLoadDue (ss_account session) now);
  try client ← protocol;
  send_due cancel session epoch client due 0.

(** ** The outbox worker: lib.rs *)

Definition outbox_due_ids : SdkProg (list string) :=
  store ← call XStore;
  match store with
  | Err _ => Ret []
  | Ok _ =>
    session ← session_snapshot;
    match session with
    | Err _ => Ret []
    | Ok session =>
      now ← call XNow;
      rows ← call (XLoadDue (ss_account session) now);
      Ret (match rows with Ok rows => List.map or_client_id rows | Err _ => [] end)
    end
  end.

(** [while rx.try_recv().is_ok()]: the mailbox holds at most eight kicks at a time. *)
Fixpoint drain_kicks (fuel : nat) (again : bool) : SdkProg bool :=
  match fuel with
  | O => Ret again
  | S fuel => more ← call XTryRecv; if more : bool then drain_kicks fuel true else Ret again
  end.

(** The passes after a kick; [true] when the session ended. *)
Fixpoint outbox_passes (fuel : nat) (parent : nat) (prev_due : option (list string)) : SdkProg bool :=
  match fuel with
  | O => Ret true
  | S fuel' =>
    ended ← call (XCancelled parent);
    if ended : bool then Ret true
    else
      run ← call (XChild parent);
      _ ← call (XSetRun run);
      _ ← run_once run;
      again ← drain_kicks fuel false;
      due ← outbox_due_ids;
      if again : bool then outbox_passes fuel' parent (Some due)
      else if bool_decide (due = []) then Ret false
      else if bool_decide (prev_due = Some due) then Ret false
      else outbox_passes fuel' parent (Some due)
  end.

Fixpoint outbox_worker (fuel : nat) (parent : nat) : SdkProg unit :=
  match fuel with
  | O => Ret tt
  | S fuel' =>
    woken ← call (XWait parent);
    match woken with
    | WokenCancelled | WokenClosed => Ret tt
    | WokenKick =>
      ended ← outbox_passes fuel parent None;
      if ended : bool then Ret tt else outbox_worker fuel' parent
    end
  end.

(** ** read_sync.rs *)

Fixpoint report_reads (account : string) (epoch : Z) (client : StartSession) (due : list DueRead) : SdkProg (result unit SdkError) :=
  match due with
  | [] => Ret (Ok tt)
  | item :: due =>
    now_epoch ← current_epoch;
    if negb (now_epoch =? epoch) then Ret (Ok tt)
    else
      r ← call (XReadState client (dr_dest item) (dr_kind item) (dr_message_id item));
      match r with
      | Ok state =>
        let confirmed := match state with Some s => Z.max (cs_last_read_message_id s) (dr_message_id item) | None => dr_message_id item end in
        try w ← call (XWrite epoch (ConfirmRead account (dr_dest item) confirmed state));
        _ ← call (XAfter w.2);
        report_reads account epoch client due
      | Err SdkNotConnected => Ret (Ok tt)
      | Err err =>
        _ ← call (XReadFailed account (dr_dest item) err);
        report_reads account epoch client due
      end
  end.
Definition pump_once : SdkProg (result unit SdkError) :=
  try _ ← call XStore;
  session ← session_snapshot;
  match session with
  | Err _ => Ret (Ok tt)
  | Ok session =>
    if bool_decide (ss_account session = ""%string) then Ret (Ok tt)
    else
      epoch ← current_epoch;
      now ← call XNow;
      try due ← call (XDueReads (ss_account session) now);
      if bool_decide (length due = 0%nat) then Ret (Ok tt)
      else
        client ← protocol;
        match client with
        | Err _ => Ret (Ok tt)
        | Ok client => report_reads (ss_account session) epoch client due
        end
  end.
(** [spawn]: a kick or a tick starts a pass. *)
Fixpoint read_sync_worker (fuel : nat) (parent : nat) : SdkProg unit :=
  match fuel with
  | O => Ret tt
  | S fuel =>
    woken ← call (XWait parent);
    match woken with
    | WokenCancelled | WokenClosed => Ret tt
    | WokenKick => _ ← pump_once; read_sync_worker fuel parent
    end
  end.
End pump.

(** ** Sessions: lib.rs *)

Definition cancel_outbox_run : SdkProg unit := run ← call XRun; call (XCancel run).

Definition spawn_outbox_worker : SdkProg unit :=
  store ← call XStore;
  match store with
  | Err _ => Ret tt
  | Ok _ => parent ← call XCancelToken; call (XSpawnOutbox parent)
  end.

Definition start_session (s : StartSession) : SdkProg (result unit SdkError) :=
  if bool_decide (ss_account s = ""%string) then Ret (Err (InvalidArgument "account is required"))
  else
    prev ← call XSession;
    _ ← bump_epoch;
    _ ← call (XSide StopSupervisor);
    _ ← call (XSide ClearFault);
    _ ← call (XSide DropKick);
    _ ← call (XSetSession (Some s));
    epoch ← current_epoch;
    let same_account := match prev with
                        | None => true
                        | Some p => bool_decide (ss_account p = ""%string) || bool_decide (ss_account p = ss_account s)
                        end in
    _ ← call (XSide (RefreshSubscribers same_account epoch));
    _ ← call (XSetProtocol s);
    _ ← call (XSide SpawnBridge);
    _ ← spawn_outbox_worker;
    _ ← call (XSide SpawnReadSync);
    _ ← call (XSide EnsureRunning);
    _ ← call (XSide KeepSupervisor);
    _ ← call (XSide ObserveToken);
    _ ← call (XSide RefreshSnapshot);
    store ← call XStore;
    match store with
    | Ok _ => call (XRekey (ss_account s))
    | Err _ => Ret (Ok tt)
    end.

Definition stop_session : SdkProg (result unit SdkError) :=
  _ ← bump_epoch;
  _ ← cancel_outbox_run;
  _ ← call (XSide StopSupervisor);
  _ ← call (XSide ClearFault);
  _ ← call (XSide DropKick);
  _ ← call (XSetSession None);
  Ret (Ok tt).

Definition switch_account (account token : string) : SdkProg (result unit SdkError) :=
  if bool_decide (account = ""%string) then Ret (Err (InvalidArgument "account is required"))
  else
    try snap ← session_snapshot;
    start_session (mkStartSession (ss_url snap) token (ss_user_agent snap) account).

Definition cancel_send (id : string) : SdkProg (result unit SdkError) :=
  _ ← cancel_outbox_run;
  try _ ← call XStore;
  try session ← session_snapshot;
  epoch ← current_epoch;
  try w ← call (XWrite epoch (Cancel (ss_account session) id));
  _ ← call (XAfter w.2);
  Ret (Ok tt).

(** ** What is shared *)

Record Shared := mkShared {
  sh_epoch : Z;
  sh_cancel : nat;
  sh_run : nat;
  sh_session : option StartSession;
  sh_protocol : option StartSession;
  (** Tokens in use are below [sh_fresh]; a token may have a parent. *)
  sh_fresh : nat;
  sh_parent : gmap nat nat;
  sh_cancelled : gset nat
}.
(** [KimSdk::protocol_only]: the two tokens of the start are 0 and 1. *)
Definition fresh_sdk : Shared := mkShared 0 0 1 None None 2 ∅ ∅.
Definition is_cancelled (g : Shared) (t : nat) : bool :=
  bool_decide (t ∈ sh_cancelled g) ||
  match sh_parent g !! t with Some p => bool_decide (p ∈ sh_cancelled g) | None => false end.

(** What an access answers and leaves; any answer of the other calls, which leave
    what is shared as it is. *)
Definition access {X} (e : SdkEff X) (g : Shared) (x : X) (g' : Shared) : Prop :=
  match e in SdkEff X return X -> Prop with
  | XEpoch => fun x => x = sh_epoch g /\ g' = g
  | XBump => fun x =>
    x = sh_epoch g + 1 /\
    g' = mkShared (sh_epoch g + 1) (sh_cancel g) (sh_run g) (sh_session g) (sh_protocol g) (sh_fresh g) (sh_parent g) (sh_cancelled g)
  | XSwapCancel => fun x =>
    x = sh_cancel g /\
    g' = mkShared (sh_epoch g) (sh_fresh g) (sh_run g) (sh_session g) (sh_protocol g) (S (sh_fresh g)) (sh_parent g) (sh_cancelled g)
  | XCancelToken => fun x => x = sh_cancel g /\ g' = g
  | XCancel t => fun _ =>
    g' = mkShared (sh_epoch g) (sh_cancel g) (sh_run g) (sh_session g) (sh_protocol g) (sh_fresh g) (sh_parent g) ({[t]} ∪ sh_cancelled g)
  | XCancelled t => fun x => x = is_cancelled g t /\ g' = g
  | XChild p => fun x =>
    x = sh_fresh g /\
    g' = mkShared (sh_epoch g) (sh_cancel g) (sh_run g) (sh_session g) (sh_protocol g) (S (sh_fresh g))
           (<[sh_fresh g := p]> (sh_parent g)) (sh_cancelled g)
  | XSetRun t => fun _ =>
    g' = mkShared (sh_epoch g) (sh_cancel g) t (sh_session g) (sh_protocol g) (sh_fresh g) (sh_parent g) (sh_cancelled g)
  | XRun => fun x => x = sh_run g /\ g' = g
  | XSession => fun x => x = sh_session g /\ g' = g
  | XSetSession s => fun _ =>
    g' = mkShared (sh_epoch g) (sh_cancel g) (sh_run g) s (sh_protocol g) (sh_fresh g) (sh_parent g) (sh_cancelled g)
  | XProtocol => fun x => x = sh_protocol g /\ g' = g
  | XSetProtocol p => fun _ =>
    g' = mkShared (sh_epoch g) (sh_cancel g) (sh_run g) (sh_session g) (Some p) (sh_fresh g) (sh_parent g) (sh_cancelled g)
  | XWait t => fun x => (x = WokenCancelled -> is_cancelled g t = true) /\ g' = g
  | _ => fun _ => g' = g
  end x.
