(* ===== verification/OutboxSpec.v ===== *)
(** What the outbox worker of the client library guarantees: it sends only what its
    session's account queued, through that session's client, whatever sessions start
    and stop meanwhile; and what it records of a message is what the service said. *)

From stdpp Require Import gmap.
From S2P Require Import Prelude Prog Judge Wire Pkt Msgs TcpCodec ClientWire SdkDb SdkWrites Outbox.
Open Scope Z_scope.
Open Scope kim_scope.

(** ** Sessions that start and stop *)

(** What starts, ends or switches the session: one of these runs at a time. *)
Inductive control : SdkProg (result unit SdkError) -> Prop :=
| control_start s : control (start_session s)
| control_stop : control stop_session
| control_switch account token : control (switch_account account token).

(** Calls that leave the session alone: all that workers and other commands make. *)
Definition quiet {X} (e : SdkEff X) : Prop :=
  match e with XBump | XSwapCancel | XSetSession _ | XSetProtocol _ | XSpawnOutbox _ => False | _ => True end.

Definition Sys : Type := Shared * SdkProg (result unit SdkError).
Inductive sys_step : Sys -> Sys -> Prop :=
| sys_control {X} (e : SdkEff X) k g x g' : access e g x g' -> sys_step (g, Vis e k) (g', k x)
| sys_begin g r p : control p -> sys_step (g, Ret r) (g, p)
| sys_other {X} (e : SdkEff X) g x g' c : quiet e -> access e g x g' -> sys_step (g, c) (g', c).
Definition sys_reach (σ : Sys) : Prop := rtc sys_step (fresh_sdk, Ret (Ok tt)) σ.

(** A worker next to the others: they move before each of its calls.  The third part
    is what the worker did. *)
Definition beside (σ : Sys * list (EventOf SdkEff)) (ev : EventOf SdkEff) (σ' : Sys * list (EventOf SdkEff)) : Prop :=
  match ev with
  | Ev e x => exists g, rtc sys_step σ.1 (g, σ'.1.2) /\ access e g x σ'.1.1 /\ σ'.2 = σ.2 ++ [ev]
  end.

(** The call was made, with this answer. *)
Definition made (ev : EventOf SdkEff) (pre : list (EventOf SdkEff)) : Prop := exists l r, pre = l ++ ev :: r.
(** The row was among those a read of the account's outbox answered. *)
Definition loaded (account client_id dest : string) (pre : list (EventOf SdkEff)) : Prop :=
  exists now rows row,
    made (Ev (XLoadDue account now) (Ok rows)) pre /\ row ∈ rows /\ or_client_id row = client_id /\ or_dest row = dest.

(** What the worker of session [s], begun in epoch [epoch], may do. *)
Definition as_session (s : StartSession) (epoch : Z) (pre : list (EventOf SdkEff)) (ev : EventOf SdkEff) : Prop :=
  match ev with
  | Ev e _ =>
    match e with
    | XSend client dest _ _ _ _ client_id | XBotReply client dest _ _ client_id =>
      client = s /\ loaded (ss_account s) client_id dest pre
    | XWrite ep op => ep = epoch /\ op_account op = ss_account s
    | XUpload token _ => token = ss_token s
    | _ => True
    end
  end.

(** ** The session of a worker *)

(** The token [t] is cancelled before anything of its session changes; [swapped] says
    whether it was taken out of its place. *)
Fixpoint fences (t : nat) (swapped : bool) {A} (p : SdkProg A) : Prop :=
  match p with
  | Ret _ => swapped = false
  | Vis e k =>
    match e in SdkEff X return (X -> bool -> Prop) -> Prop with
    | XCancel t' => fun after => t' = t \/ after tt swapped
    | XSwapCancel => fun after => swapped = false /\ after t true
    | XBump | XSetSession _ | XSetProtocol _ => fun _ => False
    | _ => fun after => forall x, after x swapped
    end (fun x sw => fences t sw (k x))
  end.

(** As long as the token lives, everything is as the session [s] left it. *)
Definition session_kept (t : nat) (s : StartSession) (epoch : Z) (σ : Sys) : Prop :=
  t ∉ sh_cancelled σ.1 ->
  sh_session σ.1 = Some s /\ sh_protocol σ.1 = Some s /\ sh_epoch σ.1 = epoch /\
  exists sw, (sw = false -> sh_cancel σ.1 = t) /\ fences t sw σ.2.

Lemma fences_bind t {A B} (p : SdkProg A) (f : A -> SdkProg B) sw :
  fences t sw p -> (forall a, fences t false (f a)) -> fences t sw (p ≫= f).
Proof.
  intros Hp Hf. revert sw Hp. induction p as [a|X e k IH]; intros sw Hp; cbn in *; [by subst; apply Hf|].
  destruct e; cbn in *; try done; try (by intros x; apply IH); naive_solver.
Qed.

Lemma fences_bump t {B} (f : Z -> SdkProg B) : fences t false (bump_epoch ≫= f).
Proof. split; [done|]. by left. Qed.

Lemma start_fences t s : fences t false (start_session s).
Proof. unfold start_session. case_bool_decide; [done|]. intros prev. apply fences_bump. Qed.

Lemma control_fences t p : control p -> fences t false p.
Proof.
  intros [s| |a tok]; [apply start_fences|apply fences_bump|].
  unfold switch_account. case_bool_decide; [done|]. intros [s|]; [|done]. apply start_fences.
Qed.

(** Cancelled tokens stay cancelled. *)
Lemma access_cancelled {X} (e : SdkEff X) g x g' : access e g x g' -> sh_cancelled g ⊆ sh_cancelled g'.
Proof. intros Ha. destruct e; cbn in Ha; destruct_conj; subst; set_solver. Qed.

Lemma access_quiet {X} (e : SdkEff X) g x g' : quiet e -> access e g x g' ->
  sh_session g' = sh_session g /\ sh_protocol g' = sh_protocol g /\ sh_epoch g' = sh_epoch g /\ sh_cancel g' = sh_cancel g.
Proof. intros Hq Ha. destruct e; cbn in Ha, Hq; destruct_conj; by subst. Qed.

Lemma sys_step_kept t s epoch σ σ' : session_kept t s epoch σ -> sys_step σ σ' -> session_kept t s epoch σ'.
Proof.
  intros Hk Hs. destruct Hs as [X e k g x g' Ha|g r p Hc|X e g x g' c Hq Ha]; intros Hl; cbn in Hl.
  - assert (Hl0 : t ∉ sh_cancelled g) by (pose proof (access_cancelled _ _ _ _ Ha); set_solver).
    destruct (Hk Hl0) as (H1 & H2 & H3 & sw & H4 & Hf). cbn in *.
    destruct e; cbn in Ha, Hf; destruct_conj; subst; cbn; try done;
      try (by split_and!; [..|exists sw; split; [|naive_solver]]).
    + split_and!; try done. exists true. split; [done|]. by rewrite H4.
    + split_and!; try done. exists sw. split; [done|]. destruct Hf as [->|Hf]; [set_solver|by destruct x].
  - destruct (Hk Hl) as (H1 & H2 & H3 & sw & H4 & Hf). cbn in *. subst sw. split_and!; try done.
    exists false. split; [done|]. by apply control_fences.
  - assert (Hl0 : t ∉ sh_cancelled g) by (pose proof (access_cancelled _ _ _ _ Ha); set_solver).
    destruct (Hk Hl0) as (H1 & H2 & H3 & sw & H4 & Hf). cbn in *.
    destruct (access_quiet _ _ _ _ Hq Ha) as (-> & -> & -> & ->). eauto 10.
Qed.

Lemma sys_steps_kept t s epoch σ σ' : session_kept t s epoch σ -> rtc sys_step σ σ' -> session_kept t s epoch σ'.
Proof. intros Hk Hs. induction Hs; [done|]. eauto using sys_step_kept. Qed.

(** ** How a worker starts *)

(** Whenever the program spawns a worker, the worker's token is the session's, and
    session and client are of one start. *)
Fixpoint spawns_well (session client : option StartSession) (cancel : nat) {A} (p : SdkProg A) : Prop :=
  match p with
  | Ret _ => True
  | Vis e k =>
    match e in SdkEff X return (X -> option StartSession -> option StartSession -> nat -> Prop) -> Prop with
    | XSession => fun after => after session session client cancel
    | XSetSession s => fun after => after tt s client cancel
    | XSetProtocol c => fun after => after tt session (Some c) cancel
    | XSwapCancel => fun after => forall new, after cancel session client new
    | XCancelToken => fun after => after cancel session client cancel
    | XSpawnOutbox t => fun after =>
      t = cancel /\ is_Some session /\ session = client /\ fences t false p /\ after tt session client cancel
    | _ => fun after => forall x, after x session client cancel
    end (fun x s c n => spawns_well s c n (k x))
  end.

Lemma start_spawns_well s session client cancel : spawns_well session client cancel (start_session s).
Proof.
  unfold start_session. case_bool_decide; [done|]. cbn. intros ? ? ? ? ? ? ? ? ? [[]|]; cbn; [|by intros ? ? ? ? ? [[]|]; cbn].
  split_and!; try done; intros; by case_match.
Qed.

Lemma control_spawns_well p session client cancel : control p -> spawns_well session client cancel p.
Proof.
  intros [s| |a tok]; [apply start_spawns_well|done|].
  unfold switch_account. case_bool_decide; [done|]. destruct session as [s|]; [|done]. apply start_spawns_well.
Qed.

Definition well_spawning (σ : Sys) : Prop := spawns_well (sh_session σ.1) (sh_protocol σ.1) (sh_cancel σ.1) σ.2.
Lemma sys_step_spawning σ σ' : well_spawning σ -> sys_step σ σ' -> well_spawning σ'.
Proof.
  intros Hw Hs. destruct Hs as [X e k g x g' Ha|g r p Hc|X e g x g' c Hq Ha]; unfold well_spawning in *; cbn in *.
  - destruct e; cbn in Ha, Hw; destruct_conj; subst; cbn; try done; try apply Hw; by try destruct x.
  - by apply control_spawns_well.
  - by destruct (access_quiet _ _ _ _ Hq Ha) as (-> & -> & _ & ->).
Qed.
Lemma sys_reach_spawning σ : sys_reach σ -> well_spawning σ.
Proof.
  intros Hr. unfold sys_reach in Hr.
  assert (H0 : well_spawning (fresh_sdk, Ret (Ok tt))) by done. revert H0.
  induction Hr; [done|]. eauto using sys_step_spawning.
Qed.

Lemma spawned_kept g t (k : unit -> SdkProg (result unit SdkError)) : sys_reach (g, Vis (XSpawnOutbox t) k) ->
  exists s, sh_session g = Some s /\ session_kept t s (sh_epoch g) (g, k tt).
Proof.
  intros Hr. destruct (sys_reach_spawning _ Hr) as (Ht & [s Hs] & Hc & Hf & _). cbn in *.
  exists s. split; [done|]. intros _. cbn. split_and!; [done|congruence|done|]. exists false. by split.
Qed.

(** ** What a worker learns *)

Section worker.
Context `{SerdeJson} (t : nat) (s : StartSession) (epoch : Z).
Let State : Type := Sys * list (EventOf SdkEff).

Definition live (σ : State) : Prop := t ∉ sh_cancelled σ.1.1.
Definition child (g : Shared) (run : nat) : Prop := sh_parent g !! run = Some t /\ (run < sh_fresh g)%nat.
Definition kept (σ : State) : Prop := session_kept t s epoch σ.1.
Definition later (σ σ' : State) : Prop :=
  (live σ' -> live σ) /\ (forall run, child σ.1.1 run -> child σ'.1.1 run) /\ (forall ev, made ev σ.2 -> made ev σ'.2).
Definition right (σ : State) (ev : EventOf SdkEff) (_ : State) : Prop := as_session s epoch σ.2 ev.
Definition from_outbox (σ : State) (row : OutboxRow) : Prop := loaded (ss_account s) (or_client_id row) (or_dest row) σ.2.

(** What an answer says, in the state it leaves. *)
Definition told (σ' : State) {X} (e : SdkEff X) (x : X) : Prop :=
  match e in SdkEff X return X -> Prop with
  | XSession | XProtocol => fun x => live σ' -> x = Some s
  | XEpoch => fun x => live σ' -> x = epoch
  | XCancelled r => fun x => x = false -> child σ'.1.1 r -> live σ'
  | XChild p => fun x => p = t -> child σ'.1.1 x
  | XLoadDue account now => fun x =>
    forall rows, x = Ok rows -> account = ss_account s -> Forall (from_outbox σ') rows
  | _ => fun _ => True
  end x.

Lemma access_child {X} (e : SdkEff X) g x g' run : access e g x g' -> child g run -> child g' run.
Proof.
  unfold child. intros Ha [Hp Hf]. destruct e; cbn in Ha; destruct_conj; subst; cbn; try done; (split; [|lia]).
  - done.
  - rewrite lookup_insert_ne; [done|lia].
Qed.
Lemma sys_step_child σ σ' run : sys_step σ σ' -> child σ.1 run -> child σ'.1 run.
Proof. destruct 1; [by eapply access_child|done|by eapply access_child]. Qed.
Lemma sys_steps_child σ σ' run : rtc sys_step σ σ' -> child σ.1 run -> child σ'.1 run.
Proof. induction 1; eauto using sys_step_child. Qed.
Lemma sys_step_live σ σ' : sys_step σ σ' -> sh_cancelled σ.1 ⊆ sh_cancelled σ'.1.
Proof. destruct 1; [by eapply access_cancelled|done|by eapply access_cancelled]. Qed.
Lemma sys_steps_live σ σ' : rtc sys_step σ σ' -> sh_cancelled σ.1 ⊆ sh_cancelled σ'.1.
Proof. induction 1 as [|a b c Hab _ IH]; [done|]. pose proof (sys_step_live _ _ Hab). set_solver. Qed.

Lemma later_refl σ : later σ σ.
Proof. by split_and!. Qed.
Lemma later_trans σ1 σ2 σ3 : later σ1 σ2 -> later σ2 σ3 -> later σ1 σ3.
Proof. unfold later. naive_solver. Qed.

Lemma from_outbox_later σ σ' row : later σ σ' -> from_outbox σ row -> from_outbox σ' row.
Proof. intros (_ & _ & Hin) (now & rows & r & H1 & H2). exists now, rows, r. split; [by apply Hin|done]. Qed.

Lemma beside_told σ {X} (e : SdkEff X) x σ' : quiet e -> kept σ -> beside σ (Ev e x) σ' ->
  kept σ' /\ later σ σ' /\ told σ' e x.
Proof.
  intros Hq Hk (g1 & Hs & Ha & Hp). destruct σ as [[g c] pre], σ' as [[g' c'] pre']. cbn in Hs, Ha, Hp. subst pre'.
  pose proof (sys_steps_kept t s epoch _ _ Hk Hs) as Hk1.
  pose proof (sys_steps_live _ _ Hs) as Hl1. pose proof (access_cancelled _ _ _ _ Ha) as Hl2. cbn in Hl1, Hl2.
  assert (Hk' : session_kept t s epoch (g', c')) by (eapply sys_step_kept; [exact Hk1|by eapply sys_other]).
  split; [exact Hk'|]. split.
  - unfold later, live. cbn. split_and!; [set_solver| |intros ev (l & r & ->); exists l, (r ++ [Ev e x]); by rewrite <- app_assoc].
    intros run Hc. eapply access_child; [exact Ha|]. by eapply (sys_steps_child _ _ _ Hs).
  - destruct e; cbn in Ha |- *; try done; unfold live; cbn.
    + destruct Ha as [-> ->]. intros Hl. by destruct (Hk1 Hl) as (_ & _ & ? & _).
    + destruct Ha as [-> ->]. unfold is_cancelled, child. intros Hn [Hpar _] Hin. cbn in Hin.
      rewrite Hpar, (bool_decide_eq_true_2 _ Hin), orb_true_r in Hn. done.
    + destruct Ha as [-> ->]. intros ->. unfold child. cbn. rewrite lookup_insert_eq. split; [done|lia].
    + destruct Ha as [-> ->]. intros Hl. by destruct (Hk1 Hl) as (? & _).
    + destruct Ha as [-> ->]. intros Hl. by destruct (Hk1 Hl) as (_ & ? & _).
    + intros rows -> ->. apply list.Forall_forall. intros row Hr. exists now, rows, row. split; [by exists pre, []|by split_and!].
Qed.

Lemma judge_told {X B} (e : SdkEff X) (f : X -> SdkProg B) (Q : B -> State -> Prop) σ :
  quiet e -> kept σ -> (forall x, as_session s epoch σ.2 (Ev e x)) ->
  (forall x σ', kept σ' -> later σ σ' -> told σ' e x -> judge beside right (f x) Q σ') ->
  judge beside right (call e ≫= f) Q σ.
Proof.
  intros Hq Hk Hg Hf. apply judge_call. intros x σ' Hb. destruct (beside_told _ _ _ _ Hq Hk Hb) as (H1 & H2 & H3).
  split; [apply Hg|]. by apply Hf.
Qed.

(** The pass has seen its session live: what it read is the session's. *)
Definition mine (σ : State) (session : StartSession) (ep : Z) (client : StartSession) (due : list OutboxRow) : Prop :=
  live σ -> session = s /\ ep = epoch /\ client = s /\ Forall (from_outbox σ) due.
Lemma mine_later σ σ' session ep client due : later σ σ' -> mine σ session ep client due -> mine σ' session ep client due.
Proof.
  intros Hl Hm Hv. destruct (Hm (proj1 Hl Hv)) as (? & ? & ? & Hd). split_and!; try done.
  eapply list.Forall_impl; [exact Hd|]. intros row. by apply from_outbox_later.
Qed.

(** Where a part of the worker ends. *)
Definition ended {A} (σ0 : State) (_ : A) (σ : State) : Prop := kept σ /\ later σ0 σ.

Ltac chain := first [assumption | apply later_refl | eapply later_trans; [|eassumption]; chain].

Lemma judge_try {A B} (p : SdkProg (result A SdkError)) (f : A -> SdkProg (result B SdkError)) σ0 σ :
  judge beside right p (ended σ) σ -> later σ0 σ ->
  (forall a σ', kept σ' -> later σ0 σ' -> later σ σ' -> judge beside right (f a) (ended σ0) σ') ->
  judge beside right (tryp p f) (ended σ0) σ.
Proof.
  intros Hp Hl Hf. eapply judge_bind_use; [exact Hp|]. intros [a|e] σ' [Hk Hl'].
  - apply Hf; eauto using later_trans.
  - split; eauto using later_trans.
Qed.

Lemma ended_later {A} (p : SdkProg A) σ0 σ : later σ0 σ -> judge beside right p (ended σ) σ -> judge beside right p (ended σ0) σ.
Proof. intros Hl. apply judge_mono. intros a σ' [Hk Hl']. split; eauto using later_trans. Qed.

Lemma judge_one {X} (e : SdkEff X) σ :
  quiet e -> kept σ -> (forall x, as_session s epoch σ.2 (Ev e x)) -> judge beside right (call e) (ended σ) σ.
Proof.
  intros Hq Hk Hg x σ' Hb. destruct (beside_told _ _ _ _ Hq Hk Hb) as (H1 & H2 & _). by split; [apply Hg|].
Qed.

Section row.
Context (run : nat) (row : OutboxRow).
Implicit Types σ : State.

Lemma mark_retried_judged σ : kept σ -> judge beside right (mark_retried (ss_account s) epoch row) (ended σ) σ.
Proof.
  intros Hk. apply judge_told; [done..|]. intros now σ1 Hk1 Hl1 _.
  apply judge_try; [by apply judge_one|done|]. intros _ σ2 Hk2 Hl2 _. by split.
Qed.
Lemma mark_gone_judged σ : kept σ -> judge beside right (mark_gone (ss_account s) epoch row) (ended σ) σ.
Proof.
  intros Hk. apply judge_try; [by apply judge_one|apply later_refl|]. intros _ σ2 Hk2 Hl2 _. by split.
Qed.
Lemma mark_done_judged mid after σ : kept σ -> (forall σ', kept σ' -> judge beside right after (ended σ') σ') ->
  judge beside right (mark_done run (ss_account s) epoch row mid after) (ended σ) σ.
Proof.
  intros Hk Ha. apply judge_told; [done..|]. intros [|] σ1 Hk1 Hl1 _; [by split|].
  apply judge_try; [by apply judge_one|done|]. intros _ σ2 Hk2 Hl2 _.
  apply judge_try; [by apply Ha|done|]. intros _ σ3 Hk3 Hl3 _. by split.
Qed.
Lemma settle_judged (r : result (Z * Z) SdkError) f σ : kept σ -> (forall a, judge beside right (f a) (ended σ) σ) ->
  judge beside right
    (match r with
     | Ok a => f a
     | Err err =>
       if retryable_send err then try _ ← mark_retried (ss_account s) epoch row; Ret (Ok 0)
       else try _ ← mark_gone (ss_account s) epoch row; Ret (Ok 0)
     end) (ended σ) σ.
Proof.
  intros Hk Ha. destruct r as [a|err]; [by apply Ha|]. destruct (retryable_send err).
  - apply judge_try; [by apply mark_retried_judged|apply later_refl|]. intros _ σ1 Hk1 Hl1 _. by split.
  - apply judge_try; [by apply mark_gone_judged|apply later_refl|]. intros _ σ1 Hk1 Hl1 _. by split.
Qed.

Lemma send_bot_reply_judged in_reply_to σ : kept σ -> from_outbox σ row ->
  judge beside right (send_bot_reply run s epoch s row in_reply_to) (ended σ) σ.
Proof.
  intros Hk Hrow. apply judge_told; [done..|by intros x; split|]. intros r σ1 Hk1 Hl1 _. cbn beta.
  apply (ended_later _ σ σ1); [done|]. apply settle_judged; [done|]. intros [mid at_]. destruct (negb (mid =? 0)).
  - apply mark_done_judged; [done|]. intros σ' Hk'. by split; [|apply later_refl].
  - apply judge_try; [by apply mark_gone_judged|apply later_refl|]. intros _ σ2 Hk2 Hl2 _. by split.
Qed.

Lemma start_turn_judged body mid σ : kept σ -> judge beside right (start_turn (ss_account s) epoch row body mid) (ended σ) σ.
Proof.
  intros Hk. unfold start_turn. destruct (_ =? _); [|by split; [|apply later_refl]].
  apply judge_try; [by apply judge_one|apply later_refl|]. intros [p|] σ1 Hk1 Hl1 _; [|by split].
  apply judge_told; [done..|]. intros _ σ2 Hk2 Hl2 _. by split; [|eapply later_trans].
Qed.

Lemma send_talk_judged body extra σ : kept σ -> from_outbox σ row ->
  judge beside right (send_talk run s epoch s row body extra) (ended σ) σ.
Proof.
  intros Hk Hrow. apply judge_told; [done..|by intros x; split|]. intros r σ1 Hk1 Hl1 _. cbn beta.
  apply (ended_later _ σ σ1); [done|]. apply settle_judged; [done|]. intros [mid at_].
  apply mark_done_judged; [done|]. intros σ' Hk'. by apply start_turn_judged.
Qed.

Lemma send_row_judged σ : kept σ -> from_outbox σ row -> judge beside right (send_row run s epoch s row) (ended σ) σ.
Proof.
  intros Hk Hrow. apply judge_try; [by apply judge_one|apply later_refl|].
  intros [|] σ1 Hk1 Hl1 _; [cbn [negb]|by split].
  apply judge_try; [|done|].
  { destruct (upload_first _ _); [|by split; [|apply later_refl]].
    apply judge_try; [|apply later_refl|intros url σ2 Hk2 Hl2 _; by split].
    apply judge_try; [by apply judge_one|apply later_refl|]. intros _ σ2 Hk2 Hl2 _.
    apply (ended_later _ σ1 σ2); [done|by apply judge_one]. }
  intros content σ2 Hk2 Hl2 _. apply judge_told; [done..|]. intros [|] σ3 Hk3 Hl3 _.
  { split; [done|]. eapply later_trans; eassumption. }
  assert (Hl03 : later σ σ3) by (eapply later_trans; eassumption).
  apply judge_try; [by apply judge_one|done|]. intros [|] σ4 Hk4 Hl4 _; [cbn [negb]|by split].
  apply (ended_later _ σ σ4); [done|]. assert (Hrow4 : from_outbox σ4 row) by (by apply (from_outbox_later σ); [chain|]).
  destruct (bot_reply_in_reply_to _); [by apply send_bot_reply_judged|by apply send_talk_judged].
Qed.
End row.

Section pass.
Context (run : nat).
Implicit Types σ : State.

Lemma send_due_judged session ep client due sent σ :
  kept σ -> child σ.1.1 run -> mine σ session ep client due ->
  judge beside right (send_due run session ep client due sent) (ended σ) σ.
Proof.
  revert sent σ. induction due as [|row due IH]; intros sent σ Hk Hc Hm; [by split; [|apply later_refl]|].
  apply judge_told; [done..|]. intros [|] σ1 Hk1 Hl1 Ht; [by split|].
  assert (Hc1 : child σ1.1.1 run) by (by apply Hl1).
  assert (Hv : live σ1) by (by apply Ht).
  assert (Hm1 : mine σ1 session ep client (row :: due)) by (by eapply mine_later).
  destruct (Hm1 Hv) as (-> & -> & -> & Hd). apply list.Forall_cons in Hd as [Hrow Hd].
  apply judge_told; [done..|]. intros now_epoch σ2 Hk2 Hl2 _.
  assert (Hl02 : later σ σ2) by (eapply later_trans; eassumption).
  destruct (negb _).
  { apply judge_told; [done..|]. intros actual σ3 Hk3 Hl3 _. by split; [|eapply later_trans]. }
  apply judge_try; [apply send_row_judged; [done|exact (from_outbox_later _ _ _ Hl2 Hrow)]|done|].
  intros n σ3 Hk3 Hl3 Hl23. apply (ended_later _ σ σ3); [done|].
  apply IH; [done|by apply Hl23, Hl2|]. eapply mine_later; [exact Hl23|]. eapply mine_later; [exact Hl2|].
  intros _. by split_and!.
Qed.

Lemma run_once_judged σ : kept σ -> child σ.1.1 run -> judge beside right (run_once run) (ended σ) σ.
Proof.
  intros Hk Hc. apply judge_try; [by apply judge_one|apply later_refl|]. intros _ σ1 Hk1 Hl1 _.
  apply (ended_later _ σ σ1); [done|]. assert (Hc1 : child σ1.1.1 run) by (by apply Hl1). clear Hl1 Hk Hc σ.
  apply judge_bind. apply judge_told; [done..|]. intros os σ2 Hk2 Hl2 Hs. destruct os as [session|]; [|by split].
  apply judge_told; [done..|]. intros ep σ3 Hk3 Hl3 He.
  apply judge_told; [done..|]. intros now σ4 Hk4 Hl4 _.
  apply judge_told; [done..|]. intros [due|err] σ5 Hk5 Hl5 Hd; [|by split; [|chain]].
  apply judge_bind. apply judge_told; [done..|]. intros oc σ6 Hk6 Hl6 Hp. destruct oc as [client|]; [|by split; [|chain]].
  assert (Hl16 : later σ1 σ6) by chain.
  apply (ended_later _ σ1 σ6); [done|]. apply send_due_judged; [done|by apply Hl16|].
  intros Hv. cbn in Hs, He, Hd, Hp.
  assert (Hv5 : live σ5) by (by apply Hl6). assert (Hv4 : live σ4) by (by apply Hl5).
  assert (Hv3 : live σ3) by (by apply Hl4). assert (Hv2 : live σ2) by (by apply Hl3).
  assert (E1 : Some session = Some s) by (by apply Hs). assert (E2 : ep = epoch) by (by apply He).
  assert (E3 : Some client = Some s) by (by apply Hp). simplify_eq. split_and!; [done..|].
  eapply list.Forall_impl; [by apply (Hd due)|]. intros row. by apply from_outbox_later.
Qed.
End pass.

(** Calls that may be made in the name of any session. *)
Definition harmless (X : Type) (e : SdkEff X) : Prop := quiet e /\ forall pre x, as_session s epoch pre (Ev e x).
Lemma harmless_judged {A} (p : SdkProg A) σ : only harmless p -> kept σ -> judge beside right p (ended σ) σ.
Proof.
  revert σ. induction p as [a|X e k IH]; intros σ Ho Hk; [by split; [|apply later_refl]|].
  destruct Ho as [[Hq Hg] Ho]. apply (judge_told e k); [done..|]. intros x σ1 Hk1 Hl1 _.
  apply (ended_later _ σ σ1); [done|]. by apply IH.
Qed.

Lemma drain_kicks_harmless fuel again : only harmless (drain_kicks fuel again).
Proof. revert again. induction fuel as [|fuel IH]; intros again; [done|]. split; [done|]. intros [|]; [apply IH|done]. Qed.
Lemma outbox_due_ids_harmless : only harmless outbox_due_ids.
Proof. split; [done|]. intros [[]|]; [|done]. split; [done|]. intros [session|]; [|done]. by repeat (split; [done|intros ?]). Qed.

Lemma outbox_passes_judged fuel prev σ : kept σ -> judge beside right (outbox_passes fuel t prev) (ended σ) σ.
Proof.
  revert prev σ. induction fuel as [|fuel IH]; intros prev σ Hk; [by split; [|apply later_refl]|].
  apply judge_told; [done..|]. intros [|] σ1 Hk1 Hl1 _; [by split|].
  apply judge_told; [done..|]. intros run σ2 Hk2 Hl2 Hc. assert (Hrun : child σ2.1.1 run) by (by apply Hc).
  apply judge_told; [done..|]. intros _ σ3 Hk3 Hl3 _. apply (ended_later _ σ σ3); [chain|].
  assert (Hrun3 : child σ3.1.1 run) by (by apply Hl3).
  eapply judge_bind_use; [by apply run_once_judged|]. intros _ σ4 [Hk4 Hl4].
  eapply judge_bind_use; [by apply harmless_judged; [apply drain_kicks_harmless|]|]. intros again σ5 [Hk5 Hl5].
  eapply judge_bind_use; [by apply harmless_judged; [apply outbox_due_ids_harmless|]|]. intros due σ6 [Hk6 Hl6].
  apply (ended_later _ σ3 σ6); [chain|]. destruct again; [by apply IH|].
  case_bool_decide; [by split; [|apply later_refl]|]. case_bool_decide; [by split; [|apply later_refl]|]. by apply IH.
Qed.

Lemma outbox_worker_judged fuel σ : kept σ -> judge beside right (outbox_worker fuel t) (ended σ) σ.
Proof.
  revert σ. induction fuel as [|fuel IH]; intros σ Hk; [by split; [|apply later_refl]|].
  apply judge_told; [done..|]. intros [| |] σ1 Hk1 Hl1 _; try by split.
  eapply judge_bind_use; [by apply outbox_passes_judged|]. intros over σ2 [Hk2 Hl2].
  apply (ended_later _ σ σ2); [chain|]. destruct over; [by split; [|apply later_refl]|by apply IH].
Qed.
End worker.

Lemma steps_beside_history σ tr σ' : steps beside σ tr σ' -> σ'.2 = σ.2 ++ tr.
Proof.
  induction 1 as [|σ ev σ1 tr σ2 Hb _ IH]; [by rewrite app_nil_r|].
  destruct ev as [X e x]. destruct Hb as (g & _ & _ & Hp). by rewrite IH, Hp, <- app_assoc.
Qed.


(** ** A run: a session starts and its worker sends what waits *)

Definition wit_session : StartSession := mkStartSession "wss://kim" "token" "kim" "ann".
Definition wit_row : OutboxRow := mkOutboxRow "c1" "bob" 0 1 "hi" "" "" "" 0 0 0 "pending" 0.
Definition wit_shared : Shared := mkShared 1 2 1 (Some wit_session) (Some wit_session) 3 ∅ {[0%nat]}.
Definition wit_rest : unit -> SdkProg (result unit SdkError) := fun _ =>
  _ ← call (XSide SpawnReadSync);
  _ ← call (XSide EnsureRunning);
  _ ← call (XSide KeepSupervisor);
  _ ← call (XSide ObserveToken);
  _ ← call (XSide RefreshSnapshot);
  store ← call XStore;
  match store with Ok _ => call (XRekey "ann") | Err _ => Ret (Ok tt) end.
Definition wit_trace : list (EventOf SdkEff) :=
  [Ev (XWait 2) WokenKick; Ev (XCancelled 2) false; Ev (XChild 2) 3%nat; Ev (XSetRun 3) tt; Ev XStore (Ok tt);
   Ev XSession (Some wit_session); Ev XEpoch 1; Ev XNow 0; Ev (XLoadDue "ann" 0) (Ok [wit_row]);
   Ev XProtocol (Some wit_session); Ev (XCancelled 3) false; Ev XEpoch 1; Ev (XAlive "ann" "c1") (Ok true);
   Ev (XCancelled 3) false; Ev (XAlive "ann" "c1") (Ok true)].
Definition wit_send : EventOf SdkEff := Ev (XSend wit_session "bob" 0 "hi" "" 1 "c1") (Ok (7, 0)).
Definition wit_json : SerdeJson := fun _ => None.

Lemma wit_reach : sys_reach (wit_shared, Vis (XSpawnOutbox 2) wit_rest).
Proof.
  eapply rtc_l; [by apply (sys_begin _ _ (start_session wit_session)); constructor|].
  eapply rtc_l; [by apply (sys_control XSession _ _ None)|].
  eapply rtc_l; [by apply (sys_control XSwapCancel _ _ 0%nat)|].
  eapply rtc_l; [by apply (sys_control (XCancel 0) _ _ tt)|].
  eapply rtc_l; [by apply (sys_control XBump _ _ 1)|].
  eapply rtc_l; [by apply (sys_control (XSide StopSupervisor) _ _ tt)|].
  eapply rtc_l; [by apply (sys_control (XSide ClearFault) _ _ tt)|].
  eapply rtc_l; [by apply (sys_control (XSide DropKick) _ _ tt)|].
  eapply rtc_l; [by apply (sys_control (XSetSession (Some wit_session)) _ _ tt)|].
  eapply rtc_l; [by apply (sys_control XEpoch _ _ 1)|].
  eapply rtc_l; [by apply (sys_control (XSide (RefreshSubscribers true 1)) _ _ tt)|].
  eapply rtc_l; [by apply (sys_control (XSetProtocol wit_session) _ _ tt)|].
  eapply rtc_l; [by apply (sys_control (XSide SpawnBridge) _ _ tt)|].
  eapply rtc_l; [by apply (sys_control XStore _ _ (Ok tt))|].
  eapply rtc_l; [by apply (sys_control XCancelToken _ _ 2%nat)|]. apply rtc_refl.
Qed.

Lemma wit_reaches : reaches (outbox_worker (H := wit_json) 2 2) (wit_trace ++ wit_send :: []).
Proof. repeat (apply reaches_call; cbn). apply reaches_start. Qed.
Lemma beside_step {X} (e : SdkEff X) x g g' c pre tr σ :
  access e g x g' -> steps beside ((g', c), pre ++ [Ev e x]) tr σ -> steps beside ((g, c), pre) (Ev e x :: tr) σ.
Proof. intros Ha Hs. econstructor; [|exact Hs]. exists g. by split; [apply rtc_refl|]. Qed.
Lemma wit_steps : exists σ, steps beside ((wit_shared, wit_rest tt), []) (wit_trace ++ wit_send :: []) σ.
Proof. eexists. repeat (eapply beside_step; [by repeat split|]). apply steps_nil. Qed.


Section pass.
Context `{SerdeJson}.

(** ** A pass as seen from outside *)

Record PassState := mkPassState {
  p_now : Z;                                                (* the clock, as last read *)
  p_due : list OutboxRow;                                   (* the rows still to come *)
  p_alive : option string;                                  (* the row last found alive *)
  p_url : option string;                                    (* what the last upload answered *)
  p_open : option (OutboxRow * bool * result (Z * Z) SdkError)   (* an answer not recorded yet *)
}.
Definition pass_start : PassState := mkPassState 0 [] None None None.

Fixpoint split_row (client_id : string) (due : list OutboxRow) : option (OutboxRow * list OutboxRow) :=
  match due with
  | [] => None
  | row :: due => if bool_decide (or_client_id row = client_id) then Some (row, due) else split_row client_id due
  end.
Definition answered (client_id : string) (bot : bool) (r : result (Z * Z) SdkError) (s : PassState) : PassState :=
  match split_row client_id (p_due s) with
  | Some (row, due) => mkPassState (p_now s) due (p_alive s) (p_url s) (Some (row, bot, r))
  | None => s
  end.

Definition pass_step (s : PassState) (ev : EventOf SdkEff) : PassState :=
  match ev with
  | Ev e x =>
    match e in SdkEff X return X -> PassState with
    | XNow => fun now => mkPassState now (p_due s) (p_alive s) (p_url s) (p_open s)
    | XLoadDue _ _ => fun r => match r with Ok rows => mkPassState (p_now s) rows (p_alive s) (p_url s) (p_open s) | Err _ => s end
    | XAlive _ id => fun r => mkPassState (p_now s) (p_due s) (match r with Ok true => Some id | _ => None end) (p_url s) (p_open s)
    | XUpload _ _ => fun r => mkPassState (p_now s) (p_due s) (p_alive s) (match r with Ok url => Some url | Err _ => None end) (p_open s)
    | XSend _ _ _ _ _ _ id => fun r => answered id false r s
    | XBotReply _ _ _ _ id => fun r => answered id true r s
    | XCancelled _ => fun c => if c : bool then mkPassState (p_now s) (p_due s) (p_alive s) (p_url s) None else s
    | XWrite _ _ => fun _ => mkPassState (p_now s) (p_due s) (p_alive s) (p_url s) None
    | _ => fun _ => s
    end x
  end.
Definition pass_after (l : list (EventOf SdkEff)) : PassState := foldl pass_step pass_start l.

(** The client id is the key of the outbox. *)
Definition keyed (ev : EventOf SdkEff) : Prop :=
  match ev with
  | Ev e x => match e in SdkEff X return X -> Prop with
              | XLoadDue _ _ => fun r => forall rows, r = Ok rows -> NoDup (or_client_id <$> rows)
              | _ => fun _ => True
              end x
  end.

Definition row_body (row : OutboxRow) : string :=
  if bool_decide (or_local_path row = ""%string) then or_body row else or_local_path row.
(** What is sent of a row: an image that is not on the web yet is uploaded first. *)
Definition sent_content (row : OutboxRow) (url : option string) : option (string * string) :=
  if upload_first (row_body row) row
  then (fun u => (u, image_extra (or_width row) (or_height row))) <$> url
  else Some (row_body row, or_extra row).

(** What a pass may do next. *)
Definition pass_ok (s : PassState) (ev : EventOf SdkEff) : Prop :=
  match ev with
  | Ev e _ =>
    match e with
    | XSend _ dest kind body extra payload_type id =>
      p_open s = None /\ p_alive s = Some id /\
      exists row due, split_row id (p_due s) = Some (row, due) /\ bot_reply_in_reply_to (or_extra row) = None /\
        dest = or_dest row /\ kind = or_kind row /\ payload_type = or_payload_type row /\
        sent_content row (p_url s) = Some (body, extra)
    | XBotReply _ dest body in_reply_to id =>
      p_open s = None /\ p_alive s = Some id /\
      exists row due, split_row id (p_due s) = Some (row, due) /\ bot_reply_in_reply_to (or_extra row) = Some in_reply_to /\
        dest = or_dest row /\ body = or_body row
    | XWrite _ op =>
      match op, p_open s with
      | MarkSent _ id mid, Some (row, bot, Ok (mid', _)) => id = or_client_id row /\ mid = mid' /\ (bot = true -> mid <> 0)
      | MarkFailed _ id, Some (row, bot, r) =>
        id = or_client_id row /\
        ((exists err, r = Err err /\ retryable_send err = false) \/ (bot = true /\ exists at_, r = Ok (0, at_)))
      | MarkRetry _ id attempt at_, Some (row, _, Err err) =>
        id = or_client_id row /\ retryable_send err = true /\ attempt = sat_i32 (or_attempt row + 1) /\
        at_ = sat_i64 (p_now s + retry_delay attempt)
      | _, _ => False
      end
    | _ => True
    end
  end.

(** ** The pass keeps to it *)

Definition pass_next (s : PassState) (ev : EventOf SdkEff) (s' : PassState) : Prop := s' = pass_step s ev /\ keyed ev.
Definition pass_good (s : PassState) (ev : EventOf SdkEff) (_ : PassState) : Prop := pass_ok s ev.
Notation judged := (judge pass_next pass_good).

(** Nothing is open, and [due] is what is left. *)
Definition between (due : list OutboxRow) (s : PassState) : Prop :=
  p_open s = None /\ NoDup (or_client_id <$> p_due s) /\ exists before, p_due s = before ++ due.
Definition opened (row : OutboxRow) (bot : bool) (r : result (Z * Z) SdkError) (due : list OutboxRow) (s : PassState) : Prop :=
  p_open s = Some (row, bot, r) /\ NoDup (or_client_id <$> p_due s) /\ p_due s = due.

Lemma split_row_at row before due : NoDup (or_client_id <$> before ++ row :: due) ->
  split_row (or_client_id row) (before ++ row :: due) = Some (row, due).
Proof.
  induction before as [|b before IH]; intros Hn; cbn [app split_row].
  - by rewrite bool_decide_eq_true_2.
  - cbn [app fmap list_fmap] in Hn. apply list.NoDup_cons in Hn as [Hb Hn]. rewrite bool_decide_eq_false_2; [by apply IH|].
    intros E. apply Hb. rewrite E, fmap_app. apply elem_of_app. right. by left.
Qed.

Lemma judged_call {X B} (e : SdkEff X) (f : X -> SdkProg B) Q s :
  (forall x, pass_ok s (Ev e x)) -> (forall x, keyed (Ev e x) -> judged (f x) Q (pass_step s (Ev e x))) ->
  judged (call e ≫= f) Q s.
Proof. intros Hg Hf x s' [-> Hk]. by split; [apply Hg|apply Hf]. Qed.

Lemma judged_try {A B} (p : SdkProg (result A SdkError)) (f : A -> SdkProg (result B SdkError)) (P : result A SdkError -> PassState -> Prop) Q s :
  judged p P s -> (forall a s', P (Ok a) s' -> judged (f a) Q s') -> (forall e s', P (Err e) s' -> Q (Err e) s') ->
  judged (tryp p f) Q s.
Proof. intros Hp Hf He. eapply judge_bind_use; [exact Hp|]. intros [a|e] s' HP; [by apply Hf|by apply He]. Qed.

Lemma between_close due s : NoDup (or_client_id <$> p_due s) -> p_due s = due ->
  between due (mkPassState (p_now s) (p_due s) (p_alive s) (p_url s) None).
Proof. intros Hn Hd. split_and!; [done..|]. by exists []. Qed.

Section row.
Context (run : nat) (session : StartSession) (epoch : Z) (client : StartSession) (row : OutboxRow) (due : list OutboxRow).
Notation post := (fun _ s => between due s).

Lemma mark_gone_pass bot r s : opened row bot r due s ->
  (exists err, r = Err err /\ retryable_send err = false) \/ (bot = true /\ exists at_, r = Ok (0, at_)) ->
  judged (mark_gone (ss_account session) epoch row) post s.
Proof.
  intros (Ho & Hn & Hd) Hr. apply judged_call; [intros x; cbn; by rewrite Ho|].
  intros [a|e] _; by apply between_close.
Qed.
Lemma mark_retried_pass bot err s : opened row bot (Err err) due s -> retryable_send err = true ->
  judged (mark_retried (ss_account session) epoch row) post s.
Proof.
  intros (Ho & Hn & Hd) Hr. apply judged_call; [done|]. intros now _. apply judged_call; [intros x; cbn; by rewrite Ho|].
  intros [a|e] _; by apply between_close.
Qed.
Lemma mark_done_pass bot mid at_ after s : opened row bot (Ok (mid, at_)) due s -> (bot = true -> mid <> 0) ->
  (forall s, between due s -> judged after post s) ->
  judged (mark_done run (ss_account session) epoch row mid after) post s.
Proof.
  intros (Ho & Hn & Hd) Hb Ha. apply judged_call; [done|]. intros [|] _; [by apply between_close|].
  apply judged_call; [intros x; cbn; by rewrite Ho|]. intros [w|e] _; [|by apply between_close].
  eapply judged_try; [apply Ha; by apply between_close|by intros|done].
Qed.
Lemma settle_pass bot r f s : opened row bot r due s -> (forall a, r = Ok a -> judged (f a) post s) ->
  judged
    (match r with
     | Ok a => f a
     | Err err =>
       if retryable_send err then try _ ← mark_retried (ss_account session) epoch row; Ret (Ok 0)
       else try _ ← mark_gone (ss_account session) epoch row; Ret (Ok 0)
     end) post s.
Proof.
  intros Ho Hf. destruct r as [a|err]; [by apply Hf|]. destruct (retryable_send err) eqn:E.
  - eapply judged_try; [by eapply mark_retried_pass|by intros|done].
  - eapply judged_try; [eapply mark_gone_pass; [done|by left; eauto]|by intros|done].
Qed.

Lemma answered_opened bot r before s : p_open s = None -> NoDup (or_client_id <$> p_due s) -> p_due s = before ++ row :: due ->
  opened row bot r due (answered (or_client_id row) bot r s).
Proof.
  intros Ho Hn Hd. unfold answered. rewrite Hd in *. rewrite split_row_at by done. split_and!; [done| |done].
  rewrite fmap_app in Hn. apply list.NoDup_app in Hn as (_ & _ & Hn). cbn in Hn. by apply list.NoDup_cons in Hn as [_ Hn].
Qed.

Lemma send_bot_reply_pass in_reply_to before s :
  p_open s = None -> NoDup (or_client_id <$> p_due s) -> p_due s = before ++ row :: due -> p_alive s = Some (or_client_id row) ->
  bot_reply_in_reply_to (or_extra row) = Some in_reply_to ->
  judged (send_bot_reply run session epoch client row in_reply_to) post s.
Proof.
  intros Ho Hn Hd Ha Hb. apply judged_call.
  { intros x. split_and!; [done..|]. exists row, due. rewrite Hd in *. split_and!; [by apply split_row_at|done..]. }
  intros r _. apply (settle_pass true); [by eapply answered_opened|]. intros [mid at_] ->.
  destruct (Z.eqb_spec mid 0) as [->|Hm]; cbn [negb].
  - eapply judged_try; [eapply mark_gone_pass; [by eapply answered_opened|right; by eauto]|by intros|done].
  - eapply mark_done_pass; [by eapply answered_opened|done|]. intros s' Hs'. exact Hs'.
Qed.

Lemma start_turn_pass body mid s : between due s -> judged (start_turn (ss_account session) epoch row body mid) post s.
Proof.
  intros Hb. unfold start_turn. destruct (_ =? _); [|done]. apply judged_call; [done|]. intros [[p|]|e] _; try done.
  apply judged_call; [done|]. by intros x _.
Qed.

Lemma send_talk_pass content before s :
  p_open s = None -> NoDup (or_client_id <$> p_due s) -> p_due s = before ++ row :: due -> p_alive s = Some (or_client_id row) ->
  bot_reply_in_reply_to (or_extra row) = None -> sent_content row (p_url s) = Some content ->
  judged (send_talk run session epoch client row content.1 content.2) post s.
Proof.
  intros Ho Hn Hd Ha Hb Hc. apply judged_call.
  { intros x. split_and!; [done..|]. exists row, due. rewrite Hd in *. split_and!; [by apply split_row_at|done..|].
    by rewrite <- surjective_pairing. }
  intros r _. apply (settle_pass false); [by eapply answered_opened|]. intros [mid at_] ->.
  eapply mark_done_pass; [by eapply answered_opened|done|]. by apply start_turn_pass.
Qed.
End row.

Lemma between_skip row due s : between (row :: due) s -> between due s.
Proof. intros (Ho & Hn & before & Hd). split_and!; [done..|]. exists (before ++ [row]). by rewrite <- app_assoc. Qed.

Lemma send_row_pass run session epoch client row due s : between (row :: due) s ->
  judged (send_row run session epoch client row) (fun _ s => between due s) s.
Proof.
  intros Hb. apply judged_call; [done|]. intros [[|]|e] _; [cbn [negb]|by apply (between_skip row)..].
  eapply (judged_try _ _ (fun r s' => between (row :: due) s' /\ forall c, r = Ok c -> sent_content row (p_url s') = Some c)).
  { unfold sent_content. change (if bool_decide (or_local_path row = ""%string) then or_body row else or_local_path row) with (row_body row).
    destruct (upload_first _ _); [|by split; [|intros c [= <-]]].
    apply judged_call; [done|]. intros [[]|e] _; [|by split]. apply judged_call; [done|].
    intros [url|e] _; (split; [done|]); [by intros c [= <-]|done]. }
  2: { intros e s' [Hs' _]. by apply (between_skip row). }
  intros content s' [Hs' Hc]. apply judged_call; [done|]. intros [|] _; [apply (between_skip row); destruct Hs' as (_ & ? & ?); by split_and!|].
  apply judged_call; [done|]. intros [[|]|e] _; [cbn [negb]|by apply (between_skip row)..].
  destruct Hs' as (Ho & Hn & before & Hd). destruct (bot_reply_in_reply_to (or_extra row)) eqn:E.
  - by eapply send_bot_reply_pass.
  - eapply send_talk_pass; [done..|]. by apply Hc.
Qed.

Lemma send_due_pass run session epoch client due sent s : between due s ->
  judged (send_due run session epoch client due sent) (fun _ s => p_open s = None) s.
Proof.
  revert sent s. induction due as [|row due IH]; intros sent s Hb; [by apply Hb|].
  apply judged_call; [done|]. intros [|] _; [done|]. apply judged_call; [done|]. intros now_epoch _. destruct (negb _).
  { apply judged_call; [done|]. intros actual _. by apply Hb. }
  eapply judged_try; [by apply send_row_pass|intros n s' Hs'; by apply IH|intros e s' Hs'; by apply Hs'].
Qed.

Lemma run_once_pass run : judged (run_once run) (fun _ s => p_open s = None) pass_start.
Proof.
  apply judged_call; [done|]. intros [[]|e] _; [|done].
  apply judge_bind, judged_call; [done|]. intros [session|] _; [|done].
  apply judged_call; [done|]. intros epoch _. apply judged_call; [done|]. intros now _.
  apply judged_call; [done|]. intros [due|e] Hk; [|done].
  apply judge_bind, judged_call; [done|]. intros [client|] _; [|done].
  apply send_due_pass. split_and!; [done|by apply Hk|by exists []].
Qed.

Lemma pass_steps s l : Forall keyed l -> steps pass_next s l (foldl pass_step s l).
Proof. intros Hl. revert s. induction Hl as [|ev l Hev _ IH]; intros s; [constructor|]. econstructor; [by split|]. apply IH. Qed.

(** In every pass of the outbox, whatever the store and the service answer: a message is
    sent only from a due row, in the order of the rows and each at most once, after the row was
    found alive, with the content queued for it (an image after its upload, a reply of a bot as
    such), and not before the answer to the one before it was recorded; and what is
    recorded of a message is what the service answered for it: sent under the id it gave,
    failed when it refused for good, or waiting again with one more attempt and the delay
    that belongs to it.  A pass that ends leaves no answer unrecorded. *)
Theorem pass_outcomes run :
  (forall l ev r, reaches (run_once run) (l ++ ev :: r) -> Forall keyed (l ++ [ev]) -> pass_ok (pass_after l) ev) /\
  (forall tr n, exec (run_once run) tr n -> Forall keyed tr -> p_open (pass_after tr) = None).
Proof.
  split.
  - intros l ev r Hr Hk. apply List.Forall_app in Hk as [Hl Hev]. inversion Hev as [|? ? Hev' _]; subst.
    eapply (judge_at pass_next pass_good); [|apply run_once_pass|exact Hr|by apply pass_steps|by split].
    by intros s1 ev1 s2 s3 [-> _] [-> _].
  - intros tr n He Hk. by eapply (judge_exec pass_next pass_good _ _ _ _ _ _ (run_once_pass run) He (pass_steps _ _ Hk)).
Qed.
End pass.

(** ** A pass whose message is not taken: it waits for another attempt *)

Definition demo_json : SerdeJson := fun _ => None.
Definition demo_session : StartSession := mkStartSession "wss://kim" "token" "kim" "ann".
Definition demo_row : OutboxRow := mkOutboxRow "c1" "bob" 0 1 "hi" "" "" "" 0 0 0 "pending" 0.
Definition demo_pass : list (EventOf SdkEff) :=
  [Ev XStore (Ok tt); Ev XSession (Some demo_session); Ev XEpoch 1; Ev XNow 0; Ev (XLoadDue "ann" 0) (Ok [demo_row]);
   Ev XProtocol (Some demo_session); Ev (XCancelled 3) false; Ev XEpoch 1; Ev (XAlive "ann" "c1") (Ok true);
   Ev (XCancelled 3) false; Ev (XAlive "ann" "c1") (Ok true);
   Ev (XSend demo_session "bob" 0 "hi" "" 1 "c1") (Err SdkNotConnected); Ev XNow 5].
Definition demo_mark : EventOf SdkEff := Ev (XWrite 1 (MarkRetry "ann" "c1" 1 2005)) (Ok (tt, 1)).

Lemma demo_pass_exec : exec (run_once (H := demo_json) 3) (demo_pass ++ [demo_mark]) (Ok 0).
Proof. repeat (apply exec_vis; cbn). apply exec_ret. Qed.
Lemma demo_keyed : Forall keyed (demo_pass ++ [demo_mark]).
Proof.
  repeat (apply List.Forall_cons; [try done|]); [|apply List.Forall_nil].
  intros rows [= <-]. apply list.NoDup_singleton.
Qed.

Lemma pass_outcomes_witness :
  pass_ok (H := demo_json) (pass_after demo_pass) demo_mark /\ p_open (pass_after (demo_pass ++ [demo_mark])) = None.
Proof.
  destruct (pass_outcomes (H := demo_json) 3) as [H1 H2]. split.
  - exact (H1 demo_pass demo_mark [] (exec_reaches _ _ _ demo_pass_exec) demo_keyed).
  - exact (H2 _ _ demo_pass_exec demo_keyed).
Defined.

(** The pause before another attempt: two seconds to about a minute. *)
Lemma retry_delay_bounds attempt : 1 <= attempt -> 2000 <= retry_delay attempt <= 64000.
Proof.
  intros Ha. unfold retry_delay. assert (H6 : 1 <= Z.min attempt 6 <= 6) by lia. revert H6. generalize (Z.min attempt 6). intros n Hn.
  assert (Hc : n = 1 \/ n = 2 \/ n = 3 \/ n = 4 \/ n = 5 \/ n = 6) by lia.
  destruct Hc as [->|[->|[->|[->|[->| ->]]]]]; vm_compute; split; done.
Qed.

(** ** An upload that fails holds up everything behind it *)

Section blocked.
Context `{SerdeJson}.

(** The event sends something or records something. *)
Definition moves (ev : EventOf SdkEff) : bool :=
  match ev with Ev e _ => match e with XSend _ _ _ _ _ _ _ | XBotReply _ _ _ _ _ | XWrite _ _ => true | _ => false end end.
(** Uploads fail, and the row is not gone. *)
Definition stuck (row : OutboxRow) (ev : EventOf SdkEff) : Prop :=
  match ev with
  | Ev e x =>
    match e in SdkEff X return X -> Prop with
    | XUpload _ _ => fun r => exists e, r = Err e
    | XAlive _ id => fun r => id = or_client_id row -> r <> Ok false
    | _ => fun _ => True
    end x
  end.

Lemma exec_try_inv {X B} (e : SdkEff (result X SdkError)) (f : X -> SdkProg (result B SdkError)) tr r :
  exec (tryp (call e) f) tr r ->
  exists x tr', tr = Ev e x :: tr' /\
    match x with Ok a => exec (f a) tr' r | Err err => tr' = [] /\ r = Err err end.
Proof.
  intros He. apply exec_call_inv in He as (x & tr' & -> & He). exists x, tr'. split; [done|].
  destruct x as [a|err]; [done|]. by apply exec_inv in He.
Qed.

(** A pass that begins with an image whose upload fails sends nothing and records
    nothing, whatever is due behind it; so the next pass begins with it again. *)
Lemma failed_upload_blocks cancel session epoch client row due sent tr r :
  upload_first (row_body row) row = true ->
  exec (send_due cancel session epoch client (row :: due) sent) tr r -> Forall (stuck row) tr ->
  Forall (fun ev => moves ev = false) tr.
Proof.
  intros Hu He Hs. apply exec_call_inv in He as (c & tr1 & -> & He). inversion_clear Hs as [|? ? _ Hs1]. constructor; [done|].
  destruct c; [by apply exec_inv in He as [-> _]|].
  apply exec_call_inv in He as (ep & tr2 & -> & He). inversion_clear Hs1 as [|? ? _ Hs2]. constructor; [done|].
  destruct (negb _).
  { apply exec_call_inv in He as (a & tr3 & -> & He). constructor; [done|]. by apply exec_inv in He as [-> _]. }
  apply exec_bind_inv in He as (trr & res & trd & -> & Hrow & Hrest).
  apply exec_try_inv in Hrow as (al & tr3 & -> & Hrow). cbn [app] in *. inversion_clear Hs2 as [|? ? Hal Hs3].
  constructor; [done|]. destruct al as [[|]|err]; cbn [negb] in Hrow;
    [|by destruct (Hal eq_refl)|destruct Hrow as [-> ->]; by apply exec_inv in Hrest as [-> _]].
  change (if bool_decide (or_local_path row = ""%string) then or_body row else or_local_path row) with (row_body row) in Hrow.
  rewrite Hu in Hrow. apply exec_bind_inv in Hrow as (tru & content & trc & -> & Hup & Hrow).
  apply exec_bind_inv in Hup as (tri & url & trj & -> & Hup & Hj).
  apply exec_try_inv in Hup as (up & tr4 & -> & Hup). cbn [app] in *. inversion_clear Hs3 as [|? ? _ Hs4]. constructor; [done|].
  destruct up as [[]|err].
  - apply exec_inv in Hup as (url' & tr5 & -> & Hup). apply exec_inv in Hup as [-> ->]. cbn [app] in *.
    inversion_clear Hs4 as [|? ? Hx _]. cbn in Hx. destruct Hx as [err ->]. constructor; [done|]. apply exec_inv in Hj as [-> ->].
    apply exec_inv in Hrow as [-> ->]. by apply exec_inv in Hrest as [-> _].
  - destruct Hup as [-> ->]. apply exec_inv in Hj as [-> ->]. apply exec_inv in Hrow as [-> ->].
    by apply exec_inv in Hrest as [-> _].
Qed.
End blocked.
